(* ===== verification/_CoqProject ===== *)
-Q . S2P
Prelude.v
Wire.v
Words.v
Poly1305.v
ChaCha.v
Blake2s.v
Packet.v
Replay.v
Crypto.v
Identity.v
Revocation.v
HandshakeV2.v
NoiseIk.v
NoiseProtocol.v
NoiseHandshake.v
Session.v
SessionInv.v
SessionMsg.v
SessionHandshake.v
IpAddress.v
Endpoint.v
Text.v
Adapter.v
IdentityStore.v
Invite.v
Config.v
Discovery.v
Probe.v
Admission.v
Routing.v
Onion.v
RelayLimiter.v
SendQueue.v
Transport.v
Stun.v
Peer.v
PeerTable.v
Gossip.v
FileMsg.v
FileTransfer.v
FileNode.v
FileProtocol.v
Node.v
Tunnel.v
NodeInv.v
NodeSafe.v
NodeFlow.v
Startup.v
Cli.v
Report.v
SelfTest.v
