(* ===== verification/Prelude.v ===== *)
(** * Aegis: a verification development

    Aegis is a peer-to-peer overlay network.  Every node has an identity whose
    hashed public key is its node id.  Neighbours run a Noise IK handshake and then
    exchange encrypted datagrams under a session; nodes gossip the peers and the
    prefixes they can reach, install the result in a routing table, and forward
    packets for non-neighbours inside onions.  This library models the node as executable
    functions, from the wire formats up to the threads of the tunnel, and proves what
    makes it correct; around it, the files, invites and commands that configure a node.

    ** How the parts interact

    A datagram from the socket ([Transport]) reaches [rx_callback] ([Tunnel]).  A frame
    that starts a handshake passes the admission control ([Admission]); every other frame
    is opened by the session manager ([Session]), which consults the replay window
    ([Replay]) and the AEAD ([Crypto]), and delivers a typed payload: an inner IP packet
    ([Packet]), an onion to peel and forward within a quota ([Onion], [RelayLimiter]), a
    peer table to merge ([PeerTable], into [Peer] and [Routing]), revocations
    ([Revocation]), candidate endpoints ([Endpoint]), a challenge or its response
    ([Probe]), a piece of a file or its acknowledgement ([FileMsg], [FileNode]).  A packet
    from the adapter is routed ([Routing]), wrapped ([Onion], [Session]) and queued
    ([SendQueue]).  Periodic threads gossip ([Gossip]), probe paths, rekey and bury dead
    peers.  [Node] holds the state the threads share, [Tunnel] what each thread does.

    A node is configured by a file ([Config], [Startup]) or by commands ([Cli]); both may
    use an invite ([Invite]), both parse addresses ([Text]), and the start may ask a STUN
    server ([Stun]) over the unstarted transport.  The interactive node keeps its keys in
    a file ([IdentityStore]) and answers questions about the node ([Report]).  Below the
    session manager is the vendored Noise-C library ([NoiseProtocol], [NoiseHandshake]) with
    its own ciphers and hash ([ChaCha], [Poly1305], [Blake2s]); below the tunnel is the
    virtual network adapter ([Adapter]).  [SelfTest] runs the program's own tests.

    ** Files and what they model (paths relative to the repository)

    - [Prelude]: machine integers, bytes, big-endian encoding, lists, maps iterated
      in key order, run lemmas, the hint databases and tactics.  No program code.
    - [Wire]: [include/aegis/protocol/wire.hpp].  The cursors, and the classes [Reads],
      [Emits], [Refuses] and [Yields] every codec below is proved against.
    - [Words]: the byte and 32-bit word operations the ciphers share.
    - [Poly1305]: [third_party/noise-c/src/crypto/donna], the 64-bit Poly1305 with its
      limbs of 44, 44 and 42 bits and its block buffer.
    - [ChaCha]: [crypto/chacha/chacha.c] and [backend/ref/cipher-chachapoly.c] of Noise-C.
    - [Blake2s]: [crypto/blake2/blake2s.c], HMAC and HKDF of [protocol/hashstate.c].
    - [Packet]: [include/aegis/packet/header.hpp], [mtu.hpp], [packet.hpp] and
      [src/packet/packet.cpp].
    - [Replay]: [check_replay] and [update_replay] of [src/session/session.cpp].
    - [Crypto]: [src/crypto/primitives.cpp], [chacha20poly1305.cpp], [x25519.cpp] on top
      of the class [OpenSSL]; the class [RandomSource].
    - [Identity]: [src/identity/identity.cpp], bindings and rotation certificates.
    - [Revocation]: [src/identity/revocation.cpp], signed revocations and their store.
    - [HandshakeV2]: [src/session/handshake_v2.cpp], frames and prologue.
    - [NoiseIk]: [src/session/noise_ik.cpp] on top of the class [NoiseC].
    - [NoiseProtocol]: Noise-C's protocol names, patterns, cipher, Diffie-Hellman and
      symmetric states ([names.c], [patterns.c], [cipherstate.c], [dhstate.c],
      [symmetricstate.c] in [protocol], and [aegis.c]).
    - [NoiseHandshake]: [protocol/handshakestate.c], from creation to the split, with the
      interpreter of the pattern's tokens; the instance [noise_c] of the class [NoiseC].
    - [Session]: [src/session/session.cpp], all of [SessionManager].  Theorems about it
      are in [SessionInv] (all interleavings of critical sections), [SessionMsg]
      (messages) and [SessionHandshake] (two managers against each other).
    - [IpAddress], [Endpoint]: [include/aegis/net], [src/protocol/endpoint_candidate.cpp].
    - [Text]: the parsers of [include/aegis/net/ip_address.hpp], [endpoint_to_string] of
      [endpoint.hpp], [parse_endpoint] of [src/main.cpp], hexadecimal strings.
    - [IdentityStore]: [src/cli/identity_store.cpp] on a map of files.
    - [Invite]: [src/invite/invite.cpp], base64url, invites and membership grants.
    - [Config]: [src/config/config.cpp], and [/config export] of [src/cli/commands.cpp].
    - [Discovery]: [src/discovery/discovery.cpp], presences, their table, and the
      service that announces.
    - [Adapter]: [src/adapter/adapter.cpp], every method as an action on the object and the
      driver that records the calls it makes.
    - [Probe]: [src/routing/path_probe.cpp] and [src/protocol/endpoint_punch.cpp].
    - [Admission]: [src/transport/handshake_rate_limiter.cpp] and [handshake_cookie.cpp].
    - [Routing]: [src/routing/routing.cpp], all of [RoutingEngine].
    - [Onion]: [src/packet/relay.cpp] and the MTU contract.
    - [RelayLimiter]: [src/packet/relay_limiter.cpp], with the doubles of the code as
      IEEE 754 binary64 numbers.
    - [SendQueue]: [include/aegis/transport/send_queue.hpp].
    - [Transport]: [src/transport/transport.cpp], one iteration of each loop.
    - [Stun]: [src/stun/stun.cpp].
    - [Peer]: [src/peer/peer.cpp], all of [PeerManager].
    - [PeerTable]: [src/peer/peer_table.cpp], codec and merge.
    - [Gossip]: [src/peer/gossip.cpp], deltas, batches and the jittered interval.
    - [FileMsg], [FileTransfer]: [src/file/transfer.cpp], messages, chunk tracker, window.
    - [FileNode]: the file handlers and [send_file] of [src/tunnel/tunnel.cpp] on a file
      system; [FileProtocol]: sender and receiver against each other.
    - [Node]: the members of [Tunnel] ([include/aegis/tunnel/tunnel.hpp]) as a record and
      every region under a lock as a [call] on it ([exec]).
    - [Tunnel]: [src/tunnel/tunnel.cpp].  Handlers, bodies of loops and the operations of
      the user as programs over those calls; [start] and [stop].
    - [NodeInv]: the invariant of a node and its preservation by every call.
    - [NodeSafe]: safety of every program; the system of threads ([system_step]).
    - [NodeFlow]: what programs do when they run, and nodes against each other.
    - [Startup]: [run_config] of [src/main.cpp], from the file to a started node.
    - [Cli]: the rest of [src/cli]: the line parser, the commands on a [CliContext], their
      dispatch and the loop ([repl_turn]; [cli_step] lets the tunnel's threads run between
      the lines); [run_invite] and [run_tunnel] of [src/main.cpp].
    - [Report]: the text [/help], [/peers], [/status], [/identity], [/verbose] and
      [/discover] of [src/cli/commands.cpp] print.
    - [SelfTest]: the self-tests of [src/main.cpp] on the model, the choice of a mode and
      [main] around it.

    ** Conventions

    A C++ class is a [Record] of its fields and an operation a function from the record
    to the result and the new record; [std::optional] is [option] and an exception or
    undefined access is an outer [None].  Unsigned integers are [Z] with the width
    written out ([wrap], [u32], ...).  Bytes are [Byte.byte]; keys, node ids and buffers
    are byte lists.  [std::map] and [std::set] are [gmap] and [gset]; where the order of
    iteration matters it is that of [entries].  A region under a mutex is one function,
    so a concurrent run is a sequence of such steps; a handler that takes the lock
    several times is composed of several, and the theorems about it quantify over what
    other threads do in between.  In [Tunnel] such a handler is a value of the free monad
    [prog] over the calls of [Node]: [run] executes it alone, [system_step] interleaves
    it with others.  A clock read is an argument in nanoseconds, or a read of the host's
    clock in [Node].  The random source is threaded as a value of the abstract type
    [rng].  Key wiping, logging and memory management have no counterpart.

    ** What the theorems show

    - Nodes: in every interleaving of threads, datagrams, packets, stops and restarts the
      invariant of the node holds and no handler throws; all tables stay bounded.
    - Packets: a packet with a direct route, and one with a route over any chain of relays,
      ends in the adapter of its destination.
    - Strangers: a datagram that is no handshake and opens under no session changes
      nothing; an INIT without a valid cookie moves admission counters only and is
      answered by at most one datagram that is no longer.
    - Wire formats: exactly the canonical encodings parse, and parsing inverts encoding.
    - Sessions: a table invariant in all interleavings, refinement of an abstract table,
      at-most-once delivery, unique nonces, round trip, and that unauthenticated packets
      have no effect.
    - Handshakes: agreement of two parties on keys and identities, convergence of
      simultaneous opens, no second answer to an INIT; a handshake object yields keys
      once.
    - Noise-C: from the name of the protocol to the split the library computes exactly the
      IK transcript of the Noise specification and both sides end with the same keys
      ([noise_c_runs_ik]); what it accepts from the network is such a message
      ([noise_c_accepts_only_ik], of the responder's first message).  Its ChaCha20-Poly1305
      and its Poly1305 are those of RFC 8439 for every buffering of the input; its BLAKE2s
      chains the compression function as RFC 7693 does, for every buffering.
    - Adapter: for a client that closes before it creates again the driver's contract is
      kept - handles are live when used, released once and in order.
    - Replay window: refines the set of all accepted sequence numbers.
    - Routing: table invariant, longest-prefix match, lease expiry, hold-down.
    - Onions: a packet travels its path; datagrams fit the underlay where an MTU is
      granted; the granted MTU can exceed what sessions carry
      ([jumbo_packets_are_refused]).
    - Send queue: limits, order per peer, round robin.
    - Admission: bounds on admitted handshakes, lifetime and binding of cookies.
    - Peers: identities are permanent, merging gossip cannot forge them and never makes
      routes older, liveness.
    - Gossip: a recipient's deltas add up to the table; batches carry it within the limit.
    - Files: what is committed has the announced hash, acknowledgements are truthful, the
      sender's window terminates, a transfer between two nodes delivers the file.
    - Addresses: prefix membership and canonical forms as statements about integers; a
      printed endpoint reads back as itself.
    - Configuration: only values in range load, an exported configuration loads as itself,
      and any file that loads gives a node that is safe in every interleaving; so do the
      arguments of the tunnel mode when the typed ids belong to the typed keys.  A file
      cannot carry IPv6 prefixes ([ipv6_allowed_ip_is_refused]).
    - Invites: one text per payload; a grant the issuer writes is accepted while its policy
      holds, and an accepted grant is one the issuer signed.
    - STUN: exactly the well-formed responses are read, and the server's answer is found
      among other datagrams.
    - Identity file: the identity survives restarts, and no failure damages the file.
    - Reports: what the commands print does not depend on private keys, unless it is asked
      for; the adapter's names and the list of visible networks.
    - Self-tests: the tests the program carries pass on the model.
    - Command line: typed words arrive; in every reachable state the tunnel is safe; an
      invite brings the joiner to the inviter.  Three statements record what the code does
      where it means something else: invites always carry the loopback address
      ([invite_brings_joiner]), a refused setup changes the network id of later invites
      ([refused_setup_misdirects_invites]), and the invite tool prints prefixes backwards
      ([invite_tool_round_trip]).

    ** Hypotheses

    OpenSSL, the system's random source and the Noise-C library are the classes [OpenSSL],
    [RandomSource] and [NoiseC].  Theorems that need more than their types name it:
    [AeadLaws] (decryption inverts encryption), [SignatureLaws] (signatures verify),
    [DhLaws] (both sides derive one secret), [NoiseLaws] (the IK pattern gives both sides
    the same transcript and keys).  [NoiseLaws] is no assumption about the vendored library:
    [noise_c_laws] proves it of [noise_c], given [Curve25519Laws] (both orders of scalar
    multiplication agree).  [RfcAead] says that OpenSSL implements RFC 8439; [Windows] is
    the adapter's driver and the system calls around it.  The class [Machine] is the host: its clock, the
    outcome of file operations and of the adapter; theorems about nodes
    assume that the clock is monotone and that configured peers have the id of their key,
    theorems about delivery that encryption and the random source do not fail.  Key
    generation, the resolver, the outcomes of file and socket calls and the user's
    privileges are arguments of the definitions that use them.  Each
    class has an instance with simple concrete functions, used by the witnesses, so the
    hypotheses can hold together.  No theorem claims secrecy or unforgeability: those are
    properties of the primitives ([accepted_grant_was_issued] takes the latter as its
    hypothesis, for the issuer's key).

    ** Bounds and recursion

    All definitions are total.  Loops are structural recursion over the data they
    traverse or over a count read from the wire.  The [while] loop of the checksum takes
    fuel: three rounds fold the carries of any 32-bit sum ([fold_carries_spec]).  The
    inner loop of base64url runs at most twice per byte; decimal numbers are printed with
    20 digits of fuel, enough for 64 bits; the loops over the eight groups of an IPv6
    address take eight rounds; the attributes of a STUN response take one round more than
    it has bytes, and each consumes at least four.  The
    endless loops of the threads are modelled by their bodies, and [send_file] by a number
    of rounds that is an argument, because only the clock ends it; [file_send_terminates]
    bounds the rounds.  The nonce theorems hold up to 2^64 messages, the width of the
    counter.

    ** What is not modelled

    The socket calls themselves, the driver behind the adapter, the logger and other calls
    of the operating system.  Of the command line: the keys of the path picker.  Of the main
    program: the test of the transport, [tunnel_test.cpp], and the modes that dump or inject
    packets beyond the order of their calls.  Of Noise-C: the arithmetic of Curve25519 (the
    class [Curve25519]), other ciphers and hashes, pre-shared keys, hybrid keys and fallback,
    and the failure of allocation.  A call of the command line into a running tunnel is one
    more thread of it, so the prompt may return before it ends, which adds behaviours and
    removes none. *)

From stdpp Require Import base numbers list gmap sorting option.
From Stdlib Require Import ZArith Lia Bool.
From Stdlib.Strings Require Import Byte.

#[global] Set Default Goal Selector "!".

(** ** Notation scope of the development *)

Declare Scope aegis_scope.
Delimit Scope aegis_scope with aegis.
#[global] Open Scope Z_scope.

(** ** Machine integers *)

(** Values of a [w]-bit unsigned C++ integer. *)
Definition in_width (w z : Z) : Prop := 0 <= z < 2 ^ w.

(** Conversion to a [w]-bit unsigned integer ([static_cast<uintW_t>]). *)
Definition wrap (w z : Z) : Z := z mod 2 ^ w.

#[global] Instance in_width_dec w z : Decision (in_width w z).
Proof. unfold in_width. apply _. Defined.

Abbreviation u8 := (in_width 8).
Abbreviation u16 := (in_width 16).
Abbreviation u32 := (in_width 32).
Abbreviation u64 := (in_width 64).

Lemma wrap_in_width w z : 0 <= w -> in_width w (wrap w z).
Proof. intros Hw. apply Z.mod_pos_bound. lia. Qed.

Lemma wrap_small w z : in_width w z -> wrap w z = z.
Proof. apply Z.mod_small. Qed.

(** ** Bytes *)

#[global] Instance byte_eq_decision : EqDecision byte := byte_eq_dec.

(** The value of a [uint8_t]. *)
Definition bval (b : byte) : Z := Z.of_N (to_N b).

(** [static_cast<uint8_t>(z)]. *)
Definition b8 (z : Z) : byte := default x00 (of_N (Z.to_N (z mod 2 ^ 8))).

Lemma bval_range b : u8 (bval b).
Proof.
  unfold bval, in_width. pose proof (to_N_bounded b). split; [lia|].
  change (2 ^ 8) with 256. lia.
Qed.

Lemma bval_b8 z : bval (b8 z) = wrap 8 z.
Proof.
  unfold bval, b8, wrap. pose proof (Z.mod_pos_bound z (2 ^ 8) ltac:(lia)) as H.
  change (2 ^ 8) with 256 in *.
  destruct (of_N (Z.to_N (z mod 256))) as [b|] eqn:E; simpl.
  - apply to_of_N in E. rewrite E. lia.
  - apply of_N_None_iff in E. lia.
Qed.

Lemma b8_bval b : b8 (bval b) = b.
Proof.
  unfold b8. rewrite Z.mod_small by apply bval_range.
  unfold bval. rewrite N2Z.id, of_to_N. done.
Qed.

#[global] Instance bval_inj : Inj (=) (=) bval.
Proof. intros x y H. rewrite <- (b8_bval x), <- (b8_bval y). by rewrite H. Qed.

#[global] Instance byte_countable : Countable byte :=
  inj_countable to_N of_N of_to_N.

(** A zero-initialised [std::array<uint8_t, n>]. *)
Definition zeros (n : nat) : list byte := replicate n x00.

Lemma length_zeros n : length (zeros n) = n.
Proof. apply length_replicate. Qed.

(** [operator<] of [std::array<uint8_t, n>]: lexicographic on the bytes. *)
Fixpoint bytes_ltb (a b : list byte) : bool :=
  match a, b with
  | [], [] => false
  | [], _ :: _ => true
  | _ :: _, [] => false
  | x :: a', y :: b' =>
      if bval x <? bval y then true
      else if bval y <? bval x then false
      else bytes_ltb a' b'
  end.

Lemma bytes_ltb_irrefl a : bytes_ltb a a = false.
Proof. induction a as [|x a IH]; simpl; [done|]. by rewrite Z.ltb_irrefl. Qed.

Lemma bytes_ltb_asym a b : bytes_ltb a b = true -> bytes_ltb b a = false.
Proof.
  revert b. induction a as [|x a IH]; intros [|y b]; simpl; try done.
  destruct (Z.ltb_spec (bval x) (bval y)), (Z.ltb_spec (bval y) (bval x));
    try done; try lia. apply IH.
Qed.

Lemma bytes_ltb_total a b : a <> b -> bytes_ltb a b = false -> bytes_ltb b a = true.
Proof.
  revert b. induction a as [|x a IH]; intros [|y b] Hne; simpl; try done.
  destruct (Z.ltb_spec (bval x) (bval y)), (Z.ltb_spec (bval y) (bval x));
    try done; try lia.
  assert (x = y) as -> by (apply (inj bval); lia).
  intros. apply IH; congruence.
Qed.

Lemma bytes_ltb_trans a b c :
  bytes_ltb a b = true -> bytes_ltb b c = true -> bytes_ltb a c = true.
Proof.
  revert b c. induction a as [|x a IH]; intros [|y b] [|z c]; simpl; try done.
  destruct (Z.ltb_spec (bval x) (bval y)), (Z.ltb_spec (bval y) (bval x)),
    (Z.ltb_spec (bval y) (bval z)), (Z.ltb_spec (bval z) (bval y)),
    (Z.ltb_spec (bval x) (bval z)), (Z.ltb_spec (bval z) (bval x));
    try done; try lia. apply IH.
Qed.

(** ** Network byte order *)

(** The loop of [WireReader::read_u64]: shift in one byte at a time. *)
Definition be_combine (bs : list byte) : Z :=
  foldl (λ v b, Z.lor (Z.shiftl v 8) (bval b)) 0 bs.

(** The [n] low-order bytes of [z], most significant first: [z >> 8(n-1)], ...,
    [z], each cast to [uint8_t]. *)
Fixpoint be_split (n : nat) (z : Z) : list byte :=
  match n with
  | O => []
  | S n' => b8 (Z.shiftr z (8 * Z.of_nat n')) :: be_split n' z
  end.

Lemma length_be_split n z : length (be_split n z) = n.
Proof. induction n; simpl; congruence. Qed.

Lemma lor_shift8 v b : 0 <= v -> u8 b -> Z.lor (Z.shiftl v 8) b = v * 256 + b.
Proof.
  unfold in_width. intros Hv Hb. rewrite Z.shiftl_mul_pow2 by lia.
  change (2 ^ 8) with 256 in *.
  rewrite <- Z.add_lor_land.
  assert (Z.land (v * 256) b = 0) as ->; [|lia].
  apply Z.bits_inj'. intros i Hi. rewrite Z.land_spec, Z.bits_0.
  destruct (Z.ltb_spec i 8).
  - change 256 with (2 ^ 8). rewrite Z.mul_pow2_bits_low by lia. done.
  - rewrite <- (Z.mod_small b (2 ^ 8)) by (change (2 ^ 8) with 256; lia).
    rewrite Z.mod_pow2_bits_high by lia. apply andb_false_r.
Qed.

Lemma be_combine_foldl v bs :
  0 <= v ->
  foldl (λ v b, Z.lor (Z.shiftl v 8) (bval b)) v bs =
    v * 256 ^ Z.of_nat (length bs) + be_combine bs.
Proof.
  unfold be_combine. revert v. induction bs as [|b bs IH]; intros v Hv; cbn [foldl].
  { change (length (@nil byte)) with 0%nat. rewrite Z.pow_0_r. lia. }
  pose proof (bval_range b) as Hb. unfold in_width in Hb.
  rewrite !lor_shift8 by (done || lia).
  rewrite (IH (v * 256 + bval b)), (IH (0 * 256 + bval b)) by lia.
  change (length (b :: bs)) with (S (length bs)).
  rewrite Nat2Z.inj_succ, Z.pow_succ_r by lia. ring.
Qed.

Lemma be_combine_cons b bs :
  be_combine (b :: bs) = bval b * 256 ^ Z.of_nat (length bs) + be_combine bs.
Proof.
  unfold be_combine at 1. cbn [foldl].
  pose proof (bval_range b). rewrite lor_shift8 by (done || lia).
  apply be_combine_foldl. unfold in_width in *. lia.
Qed.

Lemma be_combine_range bs : 0 <= be_combine bs < 256 ^ Z.of_nat (length bs).
Proof.
  induction bs as [|b bs IH]; [done|].
  rewrite be_combine_cons. pose proof (bval_range b) as Hb. unfold in_width in Hb.
  change (length (b :: bs)) with (S (length bs)).
  rewrite Nat2Z.inj_succ, Z.pow_succ_r by lia. nia.
Qed.

Lemma pow256 n : 256 ^ Z.of_nat n = 2 ^ (8 * Z.of_nat n).
Proof. rewrite Z.pow_mul_r by lia. done. Qed.

Lemma be_combine_split n z : be_combine (be_split n z) = z mod 2 ^ (8 * Z.of_nat n).
Proof.
  induction n as [|n IH]; [by rewrite Z.mod_1_r|].
  cbn [be_split]. rewrite be_combine_cons, length_be_split, IH, bval_b8.
  unfold wrap. rewrite Z.shiftr_div_pow2, pow256 by lia.
  replace (8 * Z.of_nat (S n)) with (8 * Z.of_nat n + 8) by lia.
  rewrite Z.pow_add_r by lia. rewrite Z.rem_mul_r by lia. lia.
Qed.

Lemma be_combine_inj a b :
  length a = length b -> be_combine a = be_combine b -> a = b.
Proof.
  revert b. induction a as [|x a IH]; intros [|y b] Hlen Heq; try done.
  rewrite !be_combine_cons in Heq. injection Hlen as Hlen. rewrite Hlen in Heq.
  pose proof (be_combine_range a) as Ha. pose proof (be_combine_range b) as Hb.
  rewrite Hlen in Ha.
  assert (bval x = bval y) as Hxy by nia.
  f_equal; [by apply (inj bval)|]. apply IH; [done|nia].
Qed.

Lemma be_split_combine n bs : length bs = n -> be_split n (be_combine bs) = bs.
Proof.
  intros <-. apply be_combine_inj; [apply length_be_split|].
  rewrite be_combine_split, <- pow256. apply Z.mod_small, be_combine_range.
Qed.

Lemma be_split_inj n a b :
  in_width (8 * Z.of_nat n) a -> in_width (8 * Z.of_nat n) b ->
  be_split n a = be_split n b -> a = b.
Proof.
  intros Ha Hb Heq. apply (f_equal be_combine) in Heq.
  rewrite !be_combine_split, !Z.mod_small in Heq; done.
Qed.

(** The 4 (or any [n]) bytes of an integer as [memcpy] copies them from memory
    on a little-endian host (Aegis builds only for Windows on x86/x64). *)
Definition le_split (n : nat) (z : Z) : list byte := rev (be_split n z).

Lemma length_le_split n z : length (le_split n z) = n.
Proof. unfold le_split. rewrite length_rev. apply length_be_split. Qed.

Lemma le_split_inj n a b :
  in_width (8 * Z.of_nat n) a -> in_width (8 * Z.of_nat n) b ->
  le_split n a = le_split n b -> a = b.
Proof.
  intros Ha Hb Heq. apply (f_equal (@rev byte)) in Heq. unfold le_split in Heq.
  rewrite !rev_involutive in Heq. by eapply be_split_inj.
Qed.

#[global] Arguments be_split : simpl never.

(** ** Standard containers *)

(** [std::map::contains]. *)
Definition contains {K A M} `{Lookup K A M} (m : M) (k : K) : bool :=
  bool_decide (is_Some (m !! k)).

(** [std::min_element]: the first of the least elements under the strict order
    [ltb]. *)
Fixpoint min_element {A} (ltb : A -> A -> bool) (l : list A) : option A :=
  match l with
  | [] => None
  | x :: l =>
      match min_element ltb l with
      | Some y => Some (if ltb y x then y else x)
      | None => Some x
      end
  end.

Lemma min_element_elem {A} (ltb : A -> A -> bool) l x :
  min_element ltb l = Some x -> x ∈ l.
Proof.
  revert x. induction l as [|y l IH]; intros x; simpl; [done|].
  destruct (min_element ltb l) as [z|].
  - intros [= <-]. destruct (ltb z y); [right; by apply IH|left].
  - intros [= <-]. left.
Qed.

Lemma min_element_none {A} (ltb : A -> A -> bool) l :
  min_element ltb l = None -> l = [].
Proof. destruct l; simpl; [done|]. by destruct (min_element ltb l). Qed.

Lemma contains_spec {K A M} `{Lookup K A M} (m : M) (k : K) :
  contains m k = true <-> is_Some (m !! k).
Proof. apply bool_decide_eq_true. Qed.

Lemma contains_false `{FinMap K M} {A} (m : M A) (k : K) :
  contains m k = false <-> m !! k = None.
Proof. unfold contains. rewrite bool_decide_eq_false. by rewrite eq_None_not_Some. Qed.

Lemma alter_as_insert `{FinMap K M} {A} (f : A -> A) (m : M A) k x :
  m !! k = Some x -> alter f k m = <[k := f x]> m.
Proof.
  intros Hl. apply map_eq. intros j. destruct (decide (j = k)) as [->|].
  - by rewrite lookup_alter_eq, lookup_insert_eq, Hl.
  - by rewrite lookup_alter_ne, lookup_insert_ne.
Qed.

(** ** Time

    Time points and durations are integers in nanoseconds: [std::chrono::milliseconds]
    and [seconds], and [duration_cast] to milliseconds, which rounds towards zero. *)

Definition ms (n : Z) : Z := n * 1000000.
Definition secs (n : Z) : Z := n * 1000000000.
Definition to_ms (ns : Z) : Z := Z.quot ns 1000000.

(** ** Iterating over a [std::map]

    A map keyed by byte arrays is visited in the lexicographic order of its keys. *)

Definition entry_le {A} (a b : list byte * A) : Prop := bytes_ltb (fst b) (fst a) = false.
#[global] Instance entry_le_dec {A} : RelDecision (@entry_le A) := λ a b, decide (_ = _).

Definition entries {A} (m : gmap (list byte) A) : list (list byte * A) :=
  merge_sort entry_le (map_to_list m).

Lemma elem_of_entries {A} (m : gmap (list byte) A) k x :
  (k, x) ∈ entries m <-> m !! k = Some x.
Proof. unfold entries. by rewrite merge_sort_Permutation, elem_of_map_to_list. Qed.

Lemma NoDup_entries {A} (m : gmap (list byte) A) : NoDup (entries m).*1.
Proof. unfold entries. rewrite merge_sort_Permutation. apply NoDup_fst_map_to_list. Qed.

(** ** Results of executable definitions

    To state what a run returns without normalising the state it leaves. *)

Lemma run_fst {A B} (x : option (A * B)) a d :
  fst <$> x = Some a -> x = Some (a, default d (snd <$> x)).
Proof. destruct x as [[? ?]|]; [by intros [= ->]|done]. Qed.

Lemma run_fst3 {A B C} (x : A * B * C) a : fst (fst x) = a -> x = (a, snd (fst x), snd x).
Proof. destruct x as [[? ?] ?]. by intros <-. Qed.

(** ** Sublists *)

Lemma filter_sublist_mono {A} (P : A -> Prop) `{!forall x, Decision (P x)} (l1 l2 : list A) :
  l1 `sublist_of` l2 -> filter P l1 `sublist_of` filter P l2.
Proof.
  induction 1 as [|x l1 l2 _ IH|x l1 l2 _ IH]; [done|..]; rewrite ?filter_cons.
  - case_decide; [by constructor|done].
  - case_decide; [by constructor|done].
Qed.

Lemma Forall_sublist {A} (P : A -> Prop) (l1 l2 : list A) :
  l1 `sublist_of` l2 -> Forall P l2 -> Forall P l1.
Proof.
  induction 1 as [|x l1 l2 _ IH|x l1 l2 _ IH]; intros Hf; [done|..];
    inversion Hf; subst; auto.
Qed.
