(* ===== verification/Wire.v ===== *)
(** * The bounded wire codec ([include/aegis/protocol/wire.hpp])

    [WireReader] and [WireWriter] are cursors over a byte span.  A failed
    operation leaves cursor and destination unchanged.  The classes [Reads] and
    [Emits] state what a read or a write does in terms of the bytes it consumes
    or produces; every codec of the development is proved against them. *)

From stdpp Require Import base numbers list option.
From Stdlib Require Import ZArith Lia Bool.
From Stdlib.Strings Require Import Byte.
From S2P Require Import Prelude.

(** ** Reader *)

Record WireReader := mkReader { rd_bytes : list byte; rd_offset : nat }.

(** The constructor: the cursor starts at offset 0. *)
Definition wire_reader (bytes : list byte) : WireReader := mkReader bytes 0.

Definition rd_position (r : WireReader) : nat := rd_offset r.
Definition rd_remaining (r : WireReader) : nat := length (rd_bytes r) - rd_offset r.
Definition rd_finished (r : WireReader) : bool :=
  Nat.eqb (rd_offset r) (length (rd_bytes r)).

Definition read_bytes (count : nat) (r : WireReader)
    : option (list byte) * WireReader :=
  if Nat.ltb (rd_remaining r) count then (None, r)
  else (Some (take count (drop (rd_offset r) (rd_bytes r))),
        mkReader (rd_bytes r) (rd_offset r + count)).

(** The byte at index [i] of a span that is known to hold it. *)
Definition at_ (bs : list byte) (i : nat) : Z := bval (nth i bs x00).

Definition read_u8 (r : WireReader) : option Z * WireReader :=
  let '(bytes, r) := read_bytes 1 r in
  match bytes with
  | None => (None, r)
  | Some bytes => (Some (at_ bytes 0), r)
  end.

Definition read_u16 (r : WireReader) : option Z * WireReader :=
  let '(bytes, r) := read_bytes 2 r in
  match bytes with
  | None => (None, r)
  | Some bytes => (Some (Z.lor (Z.shiftl (at_ bytes 0) 8) (at_ bytes 1)), r)
  end.

Definition read_u32 (r : WireReader) : option Z * WireReader :=
  let '(bytes, r) := read_bytes 4 r in
  match bytes with
  | None => (None, r)
  | Some bytes =>
      (Some (Z.lor (Z.lor (Z.lor (Z.shiftl (at_ bytes 0) 24)
                                 (Z.shiftl (at_ bytes 1) 16))
                          (Z.shiftl (at_ bytes 2) 8))
                   (at_ bytes 3)), r)
  end.

Definition read_u64 (r : WireReader) : option Z * WireReader :=
  let '(bytes, r) := read_bytes 8 r in
  match bytes with
  | None => (None, r)
  | Some bytes => (Some (be_combine bytes), r)
  end.

(** ** Writer *)

Record WireWriter := mkWriter { wr_bytes : list byte; wr_offset : nat }.

Definition wire_writer (bytes : list byte) : WireWriter := mkWriter bytes 0.

Definition wr_position (w : WireWriter) : nat := wr_offset w.
Definition wr_remaining (w : WireWriter) : nat := length (wr_bytes w) - wr_offset w.
Definition wr_finished (w : WireWriter) : bool :=
  Nat.eqb (wr_offset w) (length (wr_bytes w)).
Definition wr_written (w : WireWriter) : list byte := take (wr_offset w) (wr_bytes w).

(** A write returns whether it succeeded and the writer after it. *)
Definition WriteOp := WireWriter -> bool * WireWriter.

Definition write_bytes (value : list byte) : WriteOp := λ w,
  if Nat.ltb (wr_remaining w) (length value) then (false, w)
  else (true, mkWriter (take (wr_offset w) (wr_bytes w) ++ value ++
                          drop (wr_offset w + length value) (wr_bytes w))
                       (wr_offset w + length value)).

Definition write_u8 (value : Z) : WriteOp := write_bytes [b8 value].

Definition write_u16 (value : Z) : WriteOp :=
  write_bytes [b8 (Z.shiftr value 8); b8 value].

Definition write_u32 (value : Z) : WriteOp :=
  write_bytes [b8 (Z.shiftr value 24); b8 (Z.shiftr value 16);
               b8 (Z.shiftr value 8); b8 value].

Definition write_u64 (value : Z) : WriteOp :=
  write_bytes [b8 (Z.shiftr value 56); b8 (Z.shiftr value 48);
               b8 (Z.shiftr value 40); b8 (Z.shiftr value 32);
               b8 (Z.shiftr value 24); b8 (Z.shiftr value 16);
               b8 (Z.shiftr value 8); b8 value].

(** Short-circuiting [a && b] on writes, as the serializers chain them. *)
Definition write_and (a b : WriteOp) : WriteOp := λ w,
  let '(ok, w) := a w in if ok then b w else (false, w).

(** A guard inside such a chain. *)
Definition write_when (c : bool) : WriteOp := λ w, (c, w).

(** A loop that writes every element and returns early on failure. *)
Fixpoint write_each {A} (f : A -> WriteOp) (l : list A) : WriteOp :=
  match l with
  | [] => write_when true
  | x :: l => write_and (f x) (write_each f l)
  end.

Declare Scope wire_scope.
Delimit Scope wire_scope with wire.
Notation "a &> b" := (write_and a b)
  (at level 45, right associativity) : wire_scope.
#[global] Open Scope wire_scope.

(** Allocate [size] zero bytes, run the chain of writes, and return the buffer
    if every write succeeded and the buffer is full. *)
Definition encode_exact (size : nat) (op : WriteOp) : option (list byte) :=
  let '(ok, w) := op (wire_writer (zeros size)) in
  if ok && wr_finished w then Some (wr_bytes w) else None.

(** ** Reasoning about readers *)

(** A reader that has consumed [pre] and has [post] in front of it. *)
Definition rd_at (pre post : list byte) : WireReader :=
  mkReader (pre ++ post) (length pre).

Lemma wire_reader_at bs : wire_reader bs = rd_at [] bs.
Proof. done. Qed.

Lemma rd_remaining_at pre post : rd_remaining (rd_at pre post) = length post.
Proof. unfold rd_remaining, rd_at. simpl. rewrite length_app. lia. Qed.

Lemma rd_finished_at pre post :
  rd_finished (rd_at pre post) = bool_decide (post = []).
Proof.
  unfold rd_finished, rd_at. simpl. rewrite length_app.
  case_bool_decide as H; [subst; simpl; apply Nat.eqb_eq; lia|].
  apply Nat.eqb_neq. destruct post; [done|simpl; lia].
Qed.

Lemma read_bytes_at n pre post :
  read_bytes n (rd_at pre post) =
    if Nat.ltb (length post) n then (None, rd_at pre post)
    else (Some (take n post), rd_at (pre ++ take n post) (drop n post)).
Proof.
  unfold read_bytes. rewrite rd_remaining_at.
  destruct (Nat.ltb_spec (length post) n); [done|].
  unfold rd_at; simpl. rewrite drop_app_length.
  rewrite <- app_assoc, take_drop, length_app, length_take. do 2 f_equal. lia.
Qed.

(** [Reads f enc wf]: [f] consumes exactly the encoding [enc a] of a value [a]
    in [wf], and succeeds on nothing else. *)
Class Reads {A} (f : WireReader -> option A * WireReader)
    (enc : A -> list byte) (wf : A -> Prop) := {
  reads_ok a pre post :
    wf a -> f (rd_at pre (enc a ++ post)) = (Some a, rd_at (pre ++ enc a) post);
  reads_inv a pre post r' :
    f (rd_at pre post) = (Some a, r') ->
    wf a /\ exists post', post = enc a ++ post' /\ r' = rd_at (pre ++ enc a) post';
}.

Lemma read_bytes_ok n bs pre post :
  length bs = n ->
  read_bytes n (rd_at pre (bs ++ post)) = (Some bs, rd_at (pre ++ bs) post).
Proof.
  intros <-. rewrite read_bytes_at, length_app.
  destruct (Nat.ltb_spec (length bs + length post) (length bs)); [lia|].
  by rewrite take_app_length, drop_app_length.
Qed.

Lemma read_bytes_inv n bs pre post r' :
  read_bytes n (rd_at pre post) = (Some bs, r') ->
  length bs = n /\ exists post', post = bs ++ post' /\ r' = rd_at (pre ++ bs) post'.
Proof.
  rewrite read_bytes_at.
  destruct (Nat.ltb_spec (length post) n); [done|]. intros [= <- <-].
  rewrite length_take. split; [lia|]. exists (drop n post). by rewrite take_drop.
Qed.

#[global] Instance reads_bytes n : Reads (read_bytes n) id (λ bs, length bs = n).
Proof. split; [intros; by apply read_bytes_ok | intros; by apply read_bytes_inv]. Qed.

(** An integer read is [read_bytes] followed by a function of the bytes that
    inverts [be_split]. *)
Lemma reads_be n (f : WireReader -> option Z * WireReader) (g : list byte -> Z) :
  (forall r, f r = let '(o, r) := read_bytes n r in (g <$> o, r)) ->
  (forall bs, length bs = n -> g bs = be_combine bs) ->
  Reads f (be_split n) (in_width (8 * Z.of_nat n)).
Proof.
  intros Hf Hg. split.
  - intros a pre post Ha. rewrite Hf, read_bytes_ok by apply length_be_split.
    simpl. rewrite Hg by apply length_be_split.
    rewrite be_combine_split, Z.mod_small by done. done.
  - intros a pre post r'. rewrite Hf.
    destruct (read_bytes n (rd_at pre post)) as [[bs|] r''] eqn:E; [|done].
    simpl. intros [= <- <-].
    apply read_bytes_inv in E as [Hlen (post' & -> & ->)].
    rewrite Hg, be_split_combine by done. split; [|eauto].
    pose proof (be_combine_range bs) as H. by rewrite Hlen, pow256 in H.
Qed.

Lemma be_combine_2 bs : length bs = 2%nat ->
  Z.lor (Z.shiftl (at_ bs 0) 8) (at_ bs 1) = be_combine bs.
Proof. by destruct bs as [|a [|b [|]]]. Qed.

Lemma be_combine_4 bs : length bs = 4%nat ->
  Z.lor (Z.lor (Z.lor (Z.shiftl (at_ bs 0) 24) (Z.shiftl (at_ bs 1) 16))
               (Z.shiftl (at_ bs 2) 8)) (at_ bs 3) = be_combine bs.
Proof.
  destruct bs as [|a [|b [|c [|d [|]]]]]; try done. intros _.
  unfold be_combine, at_; cbn [foldl nth].
  rewrite Z.shiftl_0_l, Z.lor_0_l, !Z.shiftl_lor, !Z.shiftl_shiftl by lia. done.
Qed.

#[global] Instance reads_u8 : Reads read_u8 (be_split 1) u8.
Proof.
  apply (reads_be 1 read_u8 (λ bs, at_ bs 0)).
  - intros r. unfold read_u8. by destruct (read_bytes 1 r) as [[]].
  - by intros [|b [|]].
Qed.

#[global] Instance reads_u16 : Reads read_u16 (be_split 2) u16.
Proof.
  refine (reads_be 2 read_u16 _ _ be_combine_2).
  intros r. unfold read_u16. by destruct (read_bytes 2 r) as [[]].
Qed.

#[global] Instance reads_u32 : Reads read_u32 (be_split 4) u32.
Proof.
  refine (reads_be 4 read_u32 _ _ be_combine_4).
  intros r. unfold read_u32. by destruct (read_bytes 4 r) as [[]].
Qed.

#[global] Instance reads_u64 : Reads read_u64 (be_split 8) u64.
Proof.
  apply (reads_be 8 read_u64 be_combine); [|done].
  intros r. unfold read_u64. by destruct (read_bytes 8 r) as [[]].
Qed.

(** Run the reads of a goal [... f (rd_at pre (enc a ++ post)) ...]; the side
    conditions (widths and lengths) are left to [lia]-like automation. *)
Ltac rd_run :=
  repeat first
    [ rewrite read_bytes_ok by (try done; try lia; eauto with wire)
    | rewrite (reads_ok (f := read_u8)) by (try done; eauto with wire)
    | rewrite (reads_ok (f := read_u16)) by (try done; eauto with wire)
    | rewrite (reads_ok (f := read_u32)) by (try done; eauto with wire)
    | rewrite (reads_ok (f := read_u64)) by (try done; eauto with wire) ].

Create HintDb wire.
#[export] Hint Resolve length_be_split length_zeros : wire.

(** Invert the next successful read of hypothesis [H], [let '(x, r) := f r in
    ... = Some _]; a failed read contradicts [H]. *)
Ltac rd_fail H := solve [exfalso; repeat case_match; simplify_eq H; done].

Ltac rd_inv_step H :=
  match type of H with
  | context [read_bytes ?n (rd_at ?pre ?post)] =>
      let x := fresh "bs" in let r := fresh "r" in let E := fresh "E" in
      let W := fresh "W" in let p := fresh "post" in let Hp := fresh "Hpost" in
      destruct (read_bytes n (rd_at pre post)) as [[x|] r] eqn:E;
      [ apply read_bytes_inv in E as [W (p & Hp & ->)]; subst post
      | rd_fail H ]
  | context [?f (rd_at ?pre ?post)] =>
      let x := fresh "v" in let r := fresh "r" in let E := fresh "E" in
      let W := fresh "W" in let p := fresh "post" in let Hp := fresh "Hpost" in
      destruct (f (rd_at pre post)) as [[x|] r] eqn:E;
      [ apply (reads_inv (f := f)) in E as [W (p & Hp & ->)]; subst post
      | rd_fail H ]
  end.

(** ** Reasoning about writers *)

(** A writer that has written [dn] and has the bytes [room] left. *)
Definition wr_at (dn room : list byte) : WireWriter :=
  mkWriter (dn ++ room) (length dn).

Lemma wire_writer_at bs : wire_writer bs = wr_at [] bs.
Proof. done. Qed.

Lemma wr_finished_at dn room :
  wr_finished (wr_at dn room) = bool_decide (room = []).
Proof. apply (rd_finished_at dn room). Qed.

(** [Emits op out]: [op] writes exactly [out] when the room suffices, and fails
    otherwise. *)
Class Emits (op : WriteOp) (out : list byte) := {
  emits_ok dn room : (length out <= length room)%nat ->
    op (wr_at dn room) = (true, wr_at (dn ++ out) (drop (length out) room));
  emits_short dn room : (length room < length out)%nat ->
    fst (op (wr_at dn room)) = false;
}.

Lemma emits_bytes bs : Emits (write_bytes bs) bs.
Proof.
  split; intros dn room H; unfold write_bytes, wr_remaining, wr_at; simpl;
    rewrite length_app.
  - destruct (Nat.ltb_spec (length dn + length room - length dn) (length bs)); [lia|].
    rewrite length_app, take_app_length, drop_app_add, <- app_assoc. done.
  - destruct (Nat.ltb_spec (length dn + length room - length dn) (length bs)); [done|lia].
Qed.

Lemma emits_u8 v : Emits (write_u8 v) (be_split 1 v).
Proof. cbv [be_split]. simpl. rewrite Z.shiftr_0_r. apply emits_bytes. Qed.
Lemma emits_u16 v : Emits (write_u16 v) (be_split 2 v).
Proof. cbv [be_split]. simpl. rewrite Z.shiftr_0_r. apply emits_bytes. Qed.
Lemma emits_u32 v : Emits (write_u32 v) (be_split 4 v).
Proof. cbv [be_split]. simpl. rewrite Z.shiftr_0_r. apply emits_bytes. Qed.
Lemma emits_u64 v : Emits (write_u64 v) (be_split 8 v).
Proof. cbv [be_split]. simpl. rewrite Z.shiftr_0_r. apply emits_bytes. Qed.

Lemma emits_true : Emits (write_when true) [].
Proof.
  split; intros dn room H; simpl in *; [|lia].
  unfold write_when. by rewrite app_nil_r, drop_0.
Qed.

Lemma emits_and a b oa ob :
  Emits a oa -> Emits b ob -> Emits (a &> b) (oa ++ ob).
Proof.
  intros Ha Hb. split; intros dn room H; rewrite length_app in H; unfold write_and.
  - rewrite emits_ok by lia. rewrite emits_ok by (rewrite length_drop; lia).
    by rewrite <- app_assoc, drop_drop, length_app.
  - destruct (decide (length oa <= length room)%nat).
    + rewrite emits_ok by lia. apply emits_short. rewrite length_drop. lia.
    + pose proof (emits_short (op := a) dn room ltac:(lia)) as Hs.
      destruct (a (wr_at dn room)) as [[] w]; done.
Qed.

(** Decompose a chain of writes along its syntax. *)
Ltac solve_emits :=
  lazymatch goal with
  | |- Emits (write_and _ _) _ => simple eapply emits_and; solve_emits
  | |- Emits (write_u8 _) _ => simple eapply emits_u8
  | |- Emits (write_u16 _) _ => simple eapply emits_u16
  | |- Emits (write_u32 _) _ => simple eapply emits_u32
  | |- Emits (write_u64 _) _ => simple eapply emits_u64
  | |- Emits (write_bytes _) _ => simple eapply emits_bytes
  | |- Emits (write_when true) _ => simple eapply emits_true
  | _ => idtac
  end.

Lemma emits_each {A} (f : A -> WriteOp) (enc : A -> list byte) l :
  (forall x, x ∈ l -> Emits (f x) (enc x)) ->
  Emits (write_each f l) (flat_map enc l).
Proof.
  induction l as [|x l IH]; intros H; simpl; [apply emits_true|].
  apply emits_and; [apply H; left|]. apply IH. intros y Hy. apply H. by right.
Qed.

(** A chain that emits exactly [size] bytes returns them; any other chain of
    successful writes returns [None]. *)
Lemma encode_exact_emits size op out :
  Emits op out ->
  encode_exact size op = if decide (length out = size) then Some out else None.
Proof.
  intros He. unfold encode_exact. rewrite wire_writer_at.
  destruct (decide (length out <= size)%nat) as [Hle|Hgt].
  - rewrite emits_ok by (rewrite length_zeros; lia). rewrite wr_finished_at.
    case_bool_decide as Hd; simpl.
    + apply (f_equal length) in Hd. rewrite length_drop, length_zeros in Hd.
      simpl in Hd. rewrite decide_True by lia. unfold wr_at; simpl.
      rewrite drop_ge by (rewrite length_zeros; lia). by rewrite app_nil_r.
    + rewrite decide_False; [done|]. intros Heq. apply Hd.
      apply drop_ge. rewrite length_zeros. lia.
  - pose proof (emits_short (op := op) [] (zeros size)) as Hs.
    rewrite length_zeros in Hs. specialize (Hs ltac:(lia)).
    destruct (op (wr_at [] (zeros size))) as [[] w]; [done|]. simpl.
    rewrite decide_False by lia. done.
Qed.

(** A chain with a failing guard returns [None] whatever else it writes. *)
Class Refuses (op : WriteOp) := refuses dn room : fst (op (wr_at dn room)) = false.

Lemma encode_exact_refuses size op : Refuses op -> encode_exact size op = None.
Proof.
  intros H. unfold encode_exact. rewrite wire_writer_at.
  specialize (H [] (zeros size)).
  by destruct (op (wr_at [] (zeros size))) as [[] w].
Qed.

(** A reader never moves past its span, and a failed read leaves it in place. *)
Lemma read_bytes_fail_unchanged n r r' :
  read_bytes n r = (None, r') -> r' = r.
Proof. unfold read_bytes. case_match; [by intros [= <-]|done]. Qed.

#[export] Instance refuses_and_l a b : Refuses a -> Refuses (a &> b).
Proof.
  intros Ha dn room. unfold write_and. specialize (Ha dn room).
  by destruct (a (wr_at dn room)) as [[]].
Qed.

Lemma refuses_and_r a oa b : Emits a oa -> Refuses b -> Refuses (a &> b).
Proof.
  intros Ha Hb dn room. unfold write_and.
  destruct (decide (length oa <= length room)%nat).
  - rewrite emits_ok by done. apply Hb.
  - pose proof (emits_short (op := a) dn room ltac:(lia)) as Hs.
    by destruct (a (wr_at dn room)) as [[]].
Qed.

(** A sequence of writes one of which fails. *)
Lemma refuses_each {A} (f : A -> WriteOp) (enc : A -> list byte) l x :
  (forall y, y ∈ l -> Emits (f y) (enc y) \/ Refuses (f y)) -> x ∈ l -> Refuses (f x) ->
  Refuses (write_each f l).
Proof.
  intros Hl Hx Hr. induction l as [|y l IH]; [by apply not_elem_of_nil in Hx|]. simpl.
  destruct (Hl y) as [He|Hr']; [apply elem_of_cons; by left| |by apply refuses_and_l].
  apply elem_of_cons in Hx as [->|Hx]; [by apply refuses_and_l|].
  eapply refuses_and_r; [done|]. apply IH; [|done]. intros z Hz. apply Hl, elem_of_cons. by right.
Qed.

(** ** Counted loops of reads *)

(** A counted loop of reads that stops at the first failure. *)
Fixpoint read_each {A} (f : WireReader -> option A * WireReader) (count : nat)
    (r : WireReader) : option (list A) * WireReader :=
  match count with
  | O => (Some [], r)
  | S count =>
      match f r with
      | (None, r) => (None, r)
      | (Some x, r) =>
          match read_each f count r with
          | (None, r) => (None, r)
          | (Some xs, r) => (Some (x :: xs), r)
          end
      end
  end.

#[export] Instance reads_each {A} (f : WireReader -> option A * WireReader) enc wf n
    `{!Reads f enc wf} :
  Reads (read_each f n) (flat_map enc) (λ l, length l = n /\ Forall wf l).
Proof.
  induction n as [|n IH]; split.
  - intros [|x l] pre post [Hl _]; [|done]. simpl. by rewrite app_nil_r.
  - intros l pre post r' [= <- <-]. split; [by split; [|constructor]|].
    exists post. by rewrite app_nil_r.
  - intros [|x l] pre post [Hl Hf]; [done|]. apply Forall_cons_1 in Hf as [Hx Hf].
    injection Hl as Hl. cbn [read_each flat_map].
    rewrite <- app_assoc, (reads_ok (f := f)) by done.
    rewrite (reads_ok (Reads := IH)) by done. by rewrite app_assoc.
  - intros l pre post r'. cbn [read_each].
    destruct (f _) as [[x|] r1] eqn:E1; [|done].
    apply (reads_inv (f := f)) in E1 as [Hx (p1 & -> & ->)].
    destruct (read_each f n _) as [[xs|] r2] eqn:E2; [|done].
    apply (reads_inv (Reads := IH)) in E2 as [[Hl Hf] (p2 & -> & ->)].
    intros [= <- <-]. split; [split; [simpl; by f_equal|by constructor]|].
    exists p2. cbn [flat_map]. by rewrite <- !app_assoc.
Qed.

(** ** What a read yields *)

(** Every value a reader yields, from any position, satisfies [P]. *)
Class Yields {A} (f : WireReader -> option A * WireReader) (P : A -> Prop) : Prop :=
  yields r x r' : f r = (Some x, r') -> P x.

#[export] Instance yields_bytes n : Yields (read_bytes n) (λ bs, length bs = n).
Proof.
  intros r x r'. unfold read_bytes, rd_remaining. case_match eqn:E; [done|]. intros [= <- <-].
  apply Nat.ltb_ge in E. rewrite length_take, length_drop. lia.
Qed.

Lemma yields_be n (f : WireReader -> option Z * WireReader) (g : list byte -> Z) :
  (forall r, f r = let '(bs, r) := read_bytes n r in
                   match bs with None => (None, r) | Some bs => (Some (g bs), r) end) ->
  (forall bs, length bs = n -> g bs = be_combine bs) ->
  Yields f (in_width (8 * Z.of_nat n)).
Proof.
  intros Hf Hg r x r'. rewrite Hf. destruct (read_bytes n r) as [[bs|] r1] eqn:E; [|done].
  intros [= <- <-]. apply yields_bytes in E. rewrite Hg by done.
  pose proof (be_combine_range bs) as Hr. by rewrite E, pow256 in Hr.
Qed.

#[export] Instance yields_u8 : Yields read_u8 u8.
Proof.
  apply (yields_be 1 read_u8 (λ bs, at_ bs 0)); [|by intros [|b [|]]].
  intros r. unfold read_u8. by destruct (read_bytes 1 r) as [[]].
Qed.

#[export] Instance yields_u16 : Yields read_u16 u16.
Proof.
  refine (yields_be 2 read_u16 _ _ be_combine_2).
  intros r. unfold read_u16. by destruct (read_bytes 2 r) as [[]].
Qed.

#[export] Instance yields_u32 : Yields read_u32 u32.
Proof.
  refine (yields_be 4 read_u32 _ _ be_combine_4).
  intros r. unfold read_u32. by destruct (read_bytes 4 r) as [[]].
Qed.

#[export] Instance yields_u64 : Yields read_u64 u64.
Proof.
  apply (yields_be 8 read_u64 be_combine); [|done].
  intros r. unfold read_u64. by destruct (read_bytes 8 r) as [[]].
Qed.

#[export] Instance yields_each {A} (f : WireReader -> option A * WireReader) P n `{!Yields f P} :
  Yields (read_each f n) (Forall P).
Proof.
  induction n as [|n IH]; intros r l r'; cbn [read_each]; [by intros [= <- <-]|].
  destruct (f r) as [[x|] r1] eqn:E; [|done]. apply yields in E.
  destruct (read_each f n r1) as [[xs|] r2] eqn:E2; [|done]. apply IH in E2.
  intros [= <- <-]. by constructor.
Qed.

(** Split a sequence of reads in hypothesis [H]; each success leaves what it yields. *)
Ltac rd_yield H :=
  repeat match type of H with
  | context [?f ?r] =>
      is_var r;
      lazymatch type of (f r) with (option _ * WireReader)%type => idtac end;
      let x := fresh "v" in let r' := fresh "r" in let E := fresh "E" in
      destruct (f r) as [[x|] r'] eqn:E; [apply yields in E|rd_fail H]
  end.
