(* ===== verification/Words.v ===== *)
(** * Machine words and byte strings

    Little-endian words, rotations and exclusive or, as the cryptographic primitives of the
    vendored Noise-C use them ([third_party/noise-c/src/crypto]), with the lemmas that relate a
    word to its bytes. *)

From stdpp Require Import base numbers list option.
From Stdlib Require Import ZArith Lia Bool.
From coqutil Require Import Z.bitblast.
From Stdlib.Strings Require Import Byte.
From S2P Require Import Prelude Wire.

Set Default Goal Selector "!".
#[local] Open Scope Z_scope.

(** ** Little-endian byte strings *)

(** The integer whose bytes, least significant first, are [bs]. *)
Fixpoint le_combine (bs : list byte) : Z :=
  match bs with
  | [] => 0
  | b :: bs => bval b + 256 * le_combine bs
  end.

Lemma le_combine_range bs : 0 <= le_combine bs < 256 ^ Z.of_nat (length bs).
Proof.
  induction bs as [|b bs IH]; cbn [le_combine length]; [lia|].
  pose proof (bval_range b). unfold in_width in *. rewrite Nat2Z.inj_succ, Z.pow_succ_r by lia. lia.
Qed.

Lemma le_combine_app a b :
  le_combine (a ++ b) = le_combine a + 256 ^ Z.of_nat (length a) * le_combine b.
Proof.
  induction a as [|x a IH]; cbn [le_combine length app]; [lia|].
  rewrite IH, Nat2Z.inj_succ, Z.pow_succ_r by lia. ring.
Qed.

Lemma le_split_0 z : le_split 0 z = [].
Proof. done. Qed.

Lemma be_split_S n z : be_split (S n) z = b8 (Z.shiftr z (8 * Z.of_nat n)) :: be_split n z.
Proof. done. Qed.

Lemma be_split_shift n z k :
  0 <= k -> be_split n (Z.shiftr z (8 * k)) ++ be_split (Z.to_nat k) z = be_split (n + Z.to_nat k) z.
Proof.
  intros Hk. induction n as [|n IH]; [done|]. cbn [plus]. rewrite !be_split_S. cbn [app]. rewrite IH. f_equal. f_equal. rewrite Z.shiftr_shiftr by lia. f_equal. lia.
Qed.

Lemma le_split_S n z : le_split (S n) z = b8 z :: le_split n (Z.shiftr z 8).
Proof.
  unfold le_split. change (S n) with (1 + n)%nat. rewrite Nat.add_comm.
  pose proof (be_split_shift n z 1 ltac:(lia)) as Hs. change (Z.to_nat 1) with 1%nat in Hs.
  rewrite <- Hs, rev_app_distr. change (8 * 1) with 8. rewrite be_split_S, Z.shiftr_0_r. done.
Qed.

Lemma le_combine_split n z : le_combine (le_split n z) = z mod 2 ^ (8 * Z.of_nat n).
Proof.
  revert z. induction n as [|n IH]; intros z; [by rewrite Z.mod_1_r|].
  rewrite le_split_S. cbn [le_combine]. rewrite IH, bval_b8. unfold wrap.
  rewrite Z.shiftr_div_pow2 by lia. rewrite Nat2Z.inj_succ.
  replace (8 * Z.succ (Z.of_nat n)) with (8 + 8 * Z.of_nat n) by lia.
  rewrite Z.pow_add_r by lia. rewrite Z.rem_mul_r by lia. done.
Qed.

Lemma le_combine_inj a b : length a = length b -> le_combine a = le_combine b -> a = b.
Proof.
  revert b. induction a as [|x a IH]; intros [|y b] Hlen Heq; try done.
  cbn [le_combine] in Heq. injection Hlen as Hlen.
  pose proof (bval_range x). pose proof (bval_range y). unfold in_width in *.
  f_equal; [apply (inj bval)|apply IH; [done|]]; lia.
Qed.

Lemma le_split_combine n bs : length bs = n -> le_split n (le_combine bs) = bs.
Proof.
  intros <-. apply le_combine_inj; [apply length_le_split|].
  rewrite le_combine_split, <- pow256. apply Z.mod_small, le_combine_range.
Qed.

Lemma le_split_mod n z : le_split n (z mod 2 ^ (8 * Z.of_nat n)) = le_split n z.
Proof.
  apply le_combine_inj; [by rewrite !length_le_split|].
  rewrite !le_combine_split. apply Z.mod_mod. lia.
Qed.

Lemma le_split_app n m z :
  le_split (n + m) z = le_split n z ++ le_split m (Z.shiftr z (8 * Z.of_nat n)).
Proof.
  revert z. induction n as [|n IH]; intros z; [by rewrite Z.shiftr_0_r|].
  cbn [plus]. rewrite !le_split_S, IH. cbn [app]. do 3 f_equal.
  rewrite Z.shiftr_shiftr by lia. f_equal. lia.
Qed.

Lemma le_combine_zeros n : le_combine (zeros n) = 0.
Proof. induction n as [|n IH]; [done|]. unfold zeros in *. cbn. by rewrite IH. Qed.

(** ** Exclusive or of byte strings *)

Definition bxor (a b : byte) : byte := b8 (Z.lxor (bval a) (bval b)).

Definition xor_bytes (a b : list byte) : list byte := zip_with bxor a b.

Lemma in_width_land w a : 0 <= w -> in_width w a <-> Z.land a (Z.ones w) = a.
Proof.
  intros Hw. rewrite Z.land_ones by done. unfold in_width. split; [apply Z.mod_small|].
  intros <-. apply Z.mod_pos_bound. lia.
Qed.

Lemma lxor_range w a b : 0 <= w -> in_width w a -> in_width w b -> in_width w (Z.lxor a b).
Proof.
  intros Hw. rewrite !in_width_land by done. intros Ha Hb.
  rewrite <- Ha, <- Hb. apply Z.bits_inj. intros i. rewrite !Z.land_spec, !Z.lxor_spec, !Z.land_spec.
  by destruct (Z.testbit (Z.ones w) i), (Z.testbit a i), (Z.testbit b i).
Qed.

Lemma lor_range w a b : 0 <= w -> in_width w a -> in_width w b -> in_width w (Z.lor a b).
Proof.
  intros Hw. rewrite !in_width_land by done. intros Ha Hb.
  by rewrite Z.land_lor_distr_l, Ha, Hb.
Qed.

Lemma shiftr_range w n a : 0 <= n -> in_width w a -> in_width w (Z.shiftr a n).
Proof.
  unfold in_width. intros Hn Ha. rewrite Z.shiftr_div_pow2 by done.
  split; [apply Z.div_pos; lia|]. apply Z.div_lt_upper_bound; [lia|]. nia.
Qed.

Lemma bval_bxor a b : bval (bxor a b) = Z.lxor (bval a) (bval b).
Proof.
  unfold bxor. rewrite bval_b8. apply wrap_small, lxor_range; [lia|apply bval_range..].
Qed.

Lemma bxor_comm a b : bxor a b = bxor b a.
Proof. unfold bxor. by rewrite Z.lxor_comm. Qed.

Lemma bxor_involutive a b : bxor a (bxor a b) = b.
Proof.
  apply (inj bval). rewrite !bval_bxor, <- Z.lxor_assoc, Z.lxor_nilpotent. apply Z.lxor_0_l.
Qed.

Lemma xor_bytes_cancel a b : (length b <= length a)%nat -> xor_bytes a (xor_bytes a b) = b.
Proof.
  unfold xor_bytes. revert b. induction a as [|x a IH]; intros [|y b] Hl; simpl in *; try done; [lia|].
  by rewrite bxor_involutive, IH by lia.
Qed.

Lemma xor_bytes_prefix k m z : take (length m) (xor_bytes k (m ++ z)) = xor_bytes k m.
Proof.
  unfold xor_bytes. revert k. induction m as [|b m IH]; intros [|x k]; simpl; try done.
  by rewrite IH.
Qed.

Lemma length_xor_bytes a b : length (xor_bytes a b) = Nat.min (length a) (length b).
Proof. unfold xor_bytes. apply length_zip_with. Qed.

Lemma b8_lxor x y : b8 (Z.lxor x y) = bxor (b8 x) (b8 y).
Proof.
  apply (inj bval). rewrite bval_bxor, !bval_b8. unfold wrap. rewrite <- !Z.land_ones by lia.
  Z.bitblast.
Qed.

Lemma le_split_lxor n x y : le_split n (Z.lxor x y) = xor_bytes (le_split n x) (le_split n y).
Proof.
  revert x y. induction n as [|n IH]; intros x y; [done|].
  rewrite !le_split_S, Z.shiftr_lxor, IH, b8_lxor. done.
Qed.

(** ** Words of 32 bits *)

(** The macro [fromLittle] of [chacha.c]. *)
Definition fromLittle (p : list byte) : Z :=
  Z.lor (Z.lor (Z.lor (at_ p 0) (Z.shiftl (at_ p 1) 8)) (Z.shiftl (at_ p 2) 16))
        (Z.shiftl (at_ p 3) 24).

(** The macro [toLittle]: the four bytes it stores. *)
Definition toLittle (v : Z) : list byte :=
  [b8 v; b8 (Z.shiftr v 8); b8 (Z.shiftr v 16); b8 (Z.shiftr v 24)].

Definition add32 (x y : Z) : Z := wrap 32 (x + y).

Definition leftRotate (x n : Z) : Z := Z.lor (wrap 32 (Z.shiftl x n)) (Z.shiftr x (32 - n)).
Definition rightRotate (x n : Z) : Z := Z.lor (Z.shiftr x n) (wrap 32 (Z.shiftl x (32 - n))).

Lemma toLittle_split v : toLittle v = le_split 4 v.
Proof.
  unfold toLittle. rewrite !le_split_S, le_split_0, !Z.shiftr_shiftr by lia. done.
Qed.

(** Bytes at disjoint places: [or] is addition. *)
Lemma lor_disjoint a b k : 0 <= k -> 0 <= a < 2 ^ k -> Z.lor a (Z.shiftl b k) = a + 2 ^ k * b.
Proof.
  intros Hk Ha. rewrite Z.shiftl_mul_pow2, (Z.mul_comm (2 ^ k)), <- Z.add_lor_land by lia.
  assert (Z.land a (b * 2 ^ k) = 0) as ->; [|lia].
  apply Z.bits_inj'. intros i Hi. rewrite Z.land_spec, Z.bits_0.
  destruct (Z.ltb_spec i k).
  - rewrite Z.mul_pow2_bits_low by lia. apply andb_false_r.
  - rewrite <- (Z.mod_small a (2 ^ k)) by lia. by rewrite Z.mod_pow2_bits_high by lia.
Qed.

Lemma fromLittle_combine p : length p = 4%nat -> fromLittle p = le_combine p.
Proof.
  intros Hp. do 4 (destruct p as [|? p]; [done|]). destruct p; [|done].
  unfold fromLittle, at_. cbn [nth le_combine].
  pose proof (bval_range b). pose proof (bval_range b0). pose proof (bval_range b1).
  pose proof (bval_range b2). unfold in_width in *.
  rewrite (lor_disjoint _ _ 8), (lor_disjoint _ _ 16), (lor_disjoint _ _ 24) by lia. lia.
Qed.
