(* ===== verification/Poly1305.v ===== *)
(** * Poly1305 of the vendored Noise-C

    [third_party/noise-c/src/crypto/donna/poly1305-donna-64.h] (the variant of a 64-bit Windows
    build) and [poly1305-donna.c]: a streaming authenticator over limbs of 44, 44 and 42 bits.
    [poly1305_donna_is_rfc8439] shows that, for every key and message and however the message is split
    into updates, its result is the tag of RFC 8439, evaluated modulo the prime 2^130-5. *)

From stdpp Require Import base numbers list option.
From Stdlib Require Import ZArith Lia Bool.
From Stdlib.Strings Require Import Byte.
From S2P Require Import Prelude Wire Words.

Set Default Goal Selector "!".
#[local] Open Scope Z_scope.

(** ** The code *)

Definition poly1305_block_size : nat := 16.

Record poly1305_state := mkPoly {
  p_r : Z * Z * Z;
  p_h : Z * Z * Z;
  p_pad : Z * Z;
  p_leftover : nat;
  p_buffer : list byte;
  p_final : bool;
}.

Definition U8TO64 (p : list byte) : Z :=
  Z.lor (Z.lor (Z.lor (Z.lor (Z.lor (Z.lor (Z.lor
    (Z.land (at_ p 0) 255)
    (Z.shiftl (Z.land (at_ p 1) 255) 8)) (Z.shiftl (Z.land (at_ p 2) 255) 16))
    (Z.shiftl (Z.land (at_ p 3) 255) 24)) (Z.shiftl (Z.land (at_ p 4) 255) 32))
    (Z.shiftl (Z.land (at_ p 5) 255) 40)) (Z.shiftl (Z.land (at_ p 6) 255) 48))
    (Z.shiftl (Z.land (at_ p 7) 255) 56).

Definition U64TO8 (v : Z) : list byte :=
  [b8 v; b8 (Z.shiftr v 8); b8 (Z.shiftr v 16); b8 (Z.shiftr v 24);
   b8 (Z.shiftr v 32); b8 (Z.shiftr v 40); b8 (Z.shiftr v 48); b8 (Z.shiftr v 56)].

(** [unsigned long long] and the macros on [uint128_t]. *)
Definition add64 (x y : Z) : Z := wrap 64 (x + y).
Definition sub64 (x y : Z) : Z := wrap 64 (x - y).
Definition mul64 (x y : Z) : Z := wrap 64 (x * y).
Definition shl64 (x n : Z) : Z := wrap 64 (Z.shiftl x n).
Definition MUL (x y : Z) : Z := wrap 128 (x * y).
Definition ADD (out x : Z) : Z := wrap 128 (out + x).
Definition SHR (x shift : Z) : Z := wrap 64 (Z.shiftr x shift).
Definition LO (x : Z) : Z := wrap 64 x.

Definition MASK44 : Z := 17592186044415.  (** [0xfffffffffff] *)
Definition MASK42 : Z := 4398046511103.   (** [0x3ffffffffff] *)

Definition poly1305_init (key : list byte) : poly1305_state :=
  let t0 := U8TO64 (take 8 key) in
  let t1 := U8TO64 (take 8 (drop 8 key)) in
  mkPoly
    (Z.land t0 17575274610687 (* 0xffc0fffffff *),
     Z.land (Z.lor (Z.shiftr t0 44) (shl64 t1 20)) 17592181915647 (* 0xfffffc0ffff *),
     Z.land (Z.shiftr t1 24) 68719475727 (* 0x00ffffffc0f *))
    (0, 0, 0)
    (U8TO64 (take 8 (drop 16 key)), U8TO64 (take 8 (drop 24 key)))
    0 (zeros 16) false.

(** The limbs of 16 bytes. *)
Definition limb0 (t0 t1 : Z) : Z := Z.land t0 MASK44.
Definition limb1 (t0 t1 : Z) : Z := Z.land (Z.lor (Z.shiftr t0 44) (shl64 t1 20)) MASK44.
Definition limb2 (t0 t1 : Z) : Z := Z.land (Z.shiftr t1 24) MASK42.

(** The body of the loop of [poly1305_blocks]. *)
Definition poly1305_block (hibit : Z) (r h : Z * Z * Z) (m : list byte) : Z * Z * Z :=
  let '(r0, r1, r2) := r in
  let '(h0, h1, h2) := h in
  let s1 := mul64 r1 20 in
  let s2 := mul64 r2 20 in
  let t0 := U8TO64 (take 8 m) in
  let t1 := U8TO64 (take 8 (drop 8 m)) in
  let h0 := add64 h0 (limb0 t0 t1) in
  let h1 := add64 h1 (limb1 t0 t1) in
  let h2 := add64 h2 (Z.lor (limb2 t0 t1) hibit) in
  let d0 := ADD (ADD (MUL h0 r0) (MUL h1 s2)) (MUL h2 s1) in
  let d1 := ADD (ADD (MUL h0 r1) (MUL h1 r0)) (MUL h2 s2) in
  let d2 := ADD (ADD (MUL h0 r2) (MUL h1 r1)) (MUL h2 r0) in
  let c := SHR d0 44 in let h0 := Z.land (LO d0) MASK44 in
  let d1 := ADD d1 c in
  let c := SHR d1 44 in let h1 := Z.land (LO d1) MASK44 in
  let d2 := ADD d2 c in
  let c := SHR d2 42 in let h2 := Z.land (LO d2) MASK42 in
  let h0 := add64 h0 (mul64 c 5) in
  let c := Z.shiftr h0 44 in let h0 := Z.land h0 MASK44 in
  let h1 := add64 h1 c in
  (h0, h1, h2).

(** The loop, for [n] blocks. *)
Fixpoint poly1305_loop (n : nat) (hibit : Z) (r h : Z * Z * Z) (m : list byte) : Z * Z * Z :=
  match n with
  | O => h
  | S n => poly1305_loop n hibit r (poly1305_block hibit r h (take 16 m)) (drop 16 m)
  end.

Definition poly1305_blocks (st : poly1305_state) (m : list byte) : poly1305_state :=
  let hibit := if p_final st then 0 else Z.shiftl 1 40 in
  mkPoly (p_r st) (poly1305_loop (length m / 16) hibit (p_r st) (p_h st) m)
    (p_pad st) (p_leftover st) (p_buffer st) (p_final st).

(** [for (i = 0; i < n; i++) buffer[at + i] = m[i]]. *)
Definition store (at_ : nat) (m buffer : list byte) : list byte :=
  take at_ buffer ++ m ++ drop (at_ + length m) buffer.

Definition with_buffer (leftover : nat) (buffer : list byte) (st : poly1305_state)
    : poly1305_state :=
  mkPoly (p_r st) (p_h st) (p_pad st) leftover buffer (p_final st).

(** The parts of [poly1305_update] after the leftover has been dealt with. *)
Definition poly1305_rest (st : poly1305_state) (m : list byte) : poly1305_state :=
  let want := (length m / 16 * 16)%nat in
  let '(st, m) :=
    if Nat.leb 16 (length m) then (poly1305_blocks st (take want m), drop want m)
    else (st, m) in
  match m with
  | [] => st
  | _ => with_buffer (p_leftover st + length m) (store (p_leftover st) m (p_buffer st)) st
  end.

Definition poly1305_update (st : poly1305_state) (m : list byte) : poly1305_state :=
  if Nat.eqb (p_leftover st) 0 then poly1305_rest st m else
  let want := Nat.min (16 - p_leftover st) (length m) in
  let st := with_buffer (p_leftover st + want)
              (store (p_leftover st) (take want m) (p_buffer st)) st in
  let m := drop want m in
  if Nat.ltb (p_leftover st) 16 then st else
  let st := poly1305_blocks st (p_buffer st) in
  poly1305_rest (with_buffer 0 (p_buffer st) st) m.

(** [fully carry h]. *)
Definition poly1305_carry (h : Z * Z * Z) : Z * Z * Z :=
  let '(h0, h1, h2) := h in
  let c := Z.shiftr h1 44 in let h1 := Z.land h1 MASK44 in
  let h2 := add64 h2 c in let c := Z.shiftr h2 42 in let h2 := Z.land h2 MASK42 in
  let h0 := add64 h0 (mul64 c 5) in let c := Z.shiftr h0 44 in let h0 := Z.land h0 MASK44 in
  let h1 := add64 h1 c in let c := Z.shiftr h1 44 in let h1 := Z.land h1 MASK44 in
  let h2 := add64 h2 c in let c := Z.shiftr h2 42 in let h2 := Z.land h2 MASK42 in
  let h0 := add64 h0 (mul64 c 5) in let c := Z.shiftr h0 44 in let h0 := Z.land h0 MASK44 in
  let h1 := add64 h1 c in
  (h0, h1, h2).

(** [compute h + -p], [select h if h < p, or h + -p if h >= p]. *)
Definition poly1305_select (h : Z * Z * Z) : Z * Z * Z :=
  let '(h0, h1, h2) := h in
  let g0 := add64 h0 5 in let c := Z.shiftr g0 44 in let g0 := Z.land g0 MASK44 in
  let g1 := add64 h1 c in let c := Z.shiftr g1 44 in let g1 := Z.land g1 MASK44 in
  let g2 := sub64 (add64 h2 c) (Z.shiftl 1 42) in
  let c := sub64 (Z.shiftr g2 63) 1 in
  let g0 := Z.land g0 c in let g1 := Z.land g1 c in let g2 := Z.land g2 c in
  let c := Z.lxor c (2 ^ 64 - 1) in
  (Z.lor (Z.land h0 c) g0, Z.lor (Z.land h1 c) g1, Z.lor (Z.land h2 c) g2).

(** [h = (h + pad)], [mac = h % (2^128)]. *)
Definition poly1305_mac (h : Z * Z * Z) (pad : Z * Z) : list byte :=
  let '(h0, h1, h2) := h in
  let '(t0, t1) := pad in
  let h0 := add64 h0 (limb0 t0 t1) in
  let c := Z.shiftr h0 44 in let h0 := Z.land h0 MASK44 in
  let h1 := add64 h1 (add64 (limb1 t0 t1) c) in
  let c := Z.shiftr h1 44 in let h1 := Z.land h1 MASK44 in
  let h2 := add64 h2 (add64 (limb2 t0 t1) c) in
  let h2 := Z.land h2 MASK42 in
  let out0 := Z.lor h0 (shl64 h1 44) in
  let out1 := Z.lor (Z.shiftr h1 20) (shl64 h2 24) in
  U64TO8 out0 ++ U64TO8 out1.

(** The tag; the state is wiped afterwards. *)
Definition poly1305_finish (st : poly1305_state) : list byte :=
  let st :=
    if Nat.eqb (p_leftover st) 0 then st else
    let buffer := store (p_leftover st) (x01 :: zeros (15 - p_leftover st)) (p_buffer st) in
    poly1305_blocks (mkPoly (p_r st) (p_h st) (p_pad st) (p_leftover st) buffer true) buffer in
  poly1305_mac (poly1305_select (poly1305_carry (p_h st))) (p_pad st).

Definition poly1305_auth (m key : list byte) : list byte :=
  poly1305_finish (poly1305_update (poly1305_init key) m).

(** ** The reference: RFC 8439, section 2.5 *)

Definition P1305 : Z := 2 ^ 130 - 5.

(** [r &= 0x0ffffffc0ffffffc0ffffffc0fffffff]. *)
Definition clamp (r : Z) : Z := Z.land r 21267647620597763993911028882763415551.

(** Blocks of 16 bytes, the last one possibly shorter. *)
Fixpoint blocks16 (fuel : nat) (m : list byte) : list (list byte) :=
  match fuel, m with
  | S fuel, _ :: _ => take 16 m :: blocks16 fuel (drop 16 m)
  | _, _ => []
  end.

(** Each block with a byte 1 appended, as a little-endian number. *)
Definition rfc_step (r acc : Z) (block : list byte) : Z :=
  (acc + le_combine (block ++ [x01])) * r mod P1305.

Definition rfc_poly1305 (m key : list byte) : list byte :=
  let r := clamp (le_combine (take 16 key)) in
  let s := le_combine (take 16 (drop 16 key)) in
  le_split 16 (foldl (rfc_step r) 0 (blocks16 (length m) m) + s).

(** ** Limbs *)

Definition val3 (h : Z * Z * Z) : Z :=
  let '(h0, h1, h2) := h in h0 + 2 ^ 44 * h1 + 2 ^ 88 * h2.

Lemma land_MASK44 x : Z.land x MASK44 = x mod 2 ^ 44.
Proof. change MASK44 with (Z.ones 44). by apply Z.land_ones. Qed.

Lemma land_MASK42 x : Z.land x MASK42 = x mod 2 ^ 42.
Proof. change MASK42 with (Z.ones 42). by apply Z.land_ones. Qed.

Lemma U8TO64_combine p : length p = 8%nat -> U8TO64 p = le_combine p.
Proof.
  intros Hp. do 8 (destruct p as [|? p]; [done|]). destruct p; [|done].
  unfold U8TO64, at_. cbn [nth le_combine].
  assert (forall x : byte, Z.land (bval x) 255 = bval x /\ 0 <= bval x < 256) as Hb.
  { intros x. pose proof (bval_range x) as Hx. split; [|done].
    change 255 with (Z.ones 8). rewrite Z.land_ones by done. by apply Z.mod_small. }
  destruct (Hb b) as [-> ?], (Hb b0) as [-> ?], (Hb b1) as [-> ?], (Hb b2) as [-> ?],
    (Hb b3) as [-> ?], (Hb b4) as [-> ?], (Hb b5) as [-> ?], (Hb b6) as [-> ?]. clear Hb.
  rewrite (lor_disjoint _ _ 8), (lor_disjoint _ _ 16), (lor_disjoint _ _ 24),
    (lor_disjoint _ _ 32), (lor_disjoint _ _ 40), (lor_disjoint _ _ 48), (lor_disjoint _ _ 56)
    by lia. lia.
Qed.

Lemma U64TO8_split v : U64TO8 v = le_split 8 v.
Proof. unfold U64TO8. rewrite !le_split_S, le_split_0, !Z.shiftr_shiftr by lia. done. Qed.

(** The halves of 16 bytes. *)
Lemma halves m : length m = 16%nat ->
  u64 (U8TO64 (take 8 m)) /\ u64 (U8TO64 (take 8 (drop 8 m))) /\
  U8TO64 (take 8 m) + 2 ^ 64 * U8TO64 (take 8 (drop 8 m)) = le_combine m.
Proof.
  intros Hm.
  assert (length (take 8 m) = 8%nat) as H8 by (rewrite length_take; lia).
  assert (length (take 8 (drop 8 m)) = 8%nat) as H8'
    by (rewrite length_take, length_drop; lia).
  rewrite !U8TO64_combine by done.
  pose proof (le_combine_range (take 8 m)) as B0. rewrite H8 in B0.
  pose proof (le_combine_range (take 8 (drop 8 m))) as B1. rewrite H8' in B1.
  split_and!; [exact B0|exact B1|].
  rewrite <- (take_drop 8 m) at 3. rewrite le_combine_app, H8.
  rewrite (take_ge (drop 8 m)) by (rewrite length_drop; lia). done.
Qed.

(** The word between the halves: bits 44 to 107. *)
Lemma middle_word t0 t1 k :
  u64 t0 -> 0 <= t1 -> 0 <= k <= 44 ->
  Z.land (Z.lor (Z.shiftr t0 44) (shl64 t1 20)) (Z.ones k) =
  Z.land (Z.shiftr (t0 + 2 ^ 64 * t1) 44) (Z.ones k).
Proof.
  unfold in_width. intros H0 H1 Hk.
  assert (t0 + 2 ^ 64 * t1 = Z.lor t0 (Z.shiftl t1 64)) as -> by by rewrite lor_disjoint by lia.
  unfold shl64, wrap. rewrite <- Z.land_ones by lia.
  apply Z.bits_inj'. intros i Hi. rewrite !Z.land_spec, Z.lor_spec, Z.land_spec, !Z.shiftr_spec by lia.
  rewrite Z.lor_spec. rewrite !Z.testbit_ones_nonneg by lia.
  destruct (Z.ltb_spec i k); [|by rewrite !andb_false_r]. rewrite !andb_true_r.
  rewrite (proj2 (Z.ltb_lt i 64)), andb_true_r by lia.
  rewrite !Z.shiftl_spec by lia. do 2 f_equal. lia.
Qed.

(** The limbs of two words are the limbs of the number they make up. *)
Lemma limbs_of t0 t1 :
  u64 t0 -> u64 t1 ->
  0 <= limb0 t0 t1 < 2 ^ 44 /\ 0 <= limb1 t0 t1 < 2 ^ 44 /\ 0 <= limb2 t0 t1 < 2 ^ 40 /\
  val3 (limb0 t0 t1, limb1 t0 t1, limb2 t0 t1) = t0 + 2 ^ 64 * t1.
Proof.
  unfold in_width. intros H0 H1. set (v := t0 + 2 ^ 64 * t1).
  assert (limb0 t0 t1 = v mod 2 ^ 44) as ->.
  { unfold limb0. rewrite land_MASK44. subst v.
    replace (t0 + 2 ^ 64 * t1) with (t0 + (2 ^ 20 * t1) * 2 ^ 44) by lia.
    by rewrite Z.mod_add by lia. }
  assert (limb1 t0 t1 = v / 2 ^ 44 mod 2 ^ 44) as ->.
  { unfold limb1. change MASK44 with (Z.ones 44). rewrite middle_word by (unfold in_width; lia).
    rewrite Z.land_ones, Z.shiftr_div_pow2 by lia. done. }
  assert (limb2 t0 t1 = v / 2 ^ 88) as ->.
  { unfold limb2. rewrite land_MASK42, Z.shiftr_div_pow2 by lia. subst v.
    rewrite Z.mod_small by (split; [apply Z.div_pos; lia|]; apply Z.div_lt_upper_bound; lia).
    change (2 ^ 88) with (2 ^ 64 * 2 ^ 24). rewrite <- Z.div_div by lia.
    f_equal. rewrite Z.mul_comm, Z.div_add, Z.div_small by lia. lia. }
  assert (0 <= v < 2 ^ 128) by (subst v; lia).
  assert (v / 2 ^ 88 < 2 ^ 40) by (apply Z.div_lt_upper_bound; lia).
  assert (0 <= v / 2 ^ 88) by (apply Z.div_pos; lia).
  pose proof (Z.mod_pos_bound v (2 ^ 44) ltac:(lia)).
  pose proof (Z.mod_pos_bound (v / 2 ^ 44) (2 ^ 44) ltac:(lia)).
  split_and!; [lia..|]. unfold val3.
  assert (v / 2 ^ 44 = 2 ^ 44 * (v / 2 ^ 88) + v / 2 ^ 44 mod 2 ^ 44) as E.
  { change (2 ^ 88) with (2 ^ 44 * 2 ^ 44). rewrite <- Z.div_div by lia. apply Z.div_mod. lia. }
  rewrite (Z.div_mod v (2 ^ 44)) at 4 by lia. rewrite E at 2. lia.
Qed.

Lemma land_upper a m k : 0 <= a -> 0 <= m < 2 ^ k -> 0 <= k -> 0 <= Z.land a m < 2 ^ k.
Proof.
  intros Ha Hm Hk. split; [apply Z.land_nonneg; lia|].
  assert (Z.land a m = Z.land (Z.land a m) (Z.ones k)) as ->.
  { rewrite <- Z.land_assoc, (Z.land_ones m) by done. by rewrite (Z.mod_small m). }
  rewrite Z.land_ones by done. apply Z.mod_pos_bound. lia.
Qed.

(** [and] works limb by limb. *)
Lemma land_concat k a b m n :
  0 <= k -> 0 <= a < 2 ^ k -> 0 <= m < 2 ^ k ->
  Z.land (a + 2 ^ k * b) (m + 2 ^ k * n) = Z.land a m + 2 ^ k * Z.land b n.
Proof.
  intros Hk Ha Hm.
  pose proof (land_upper a m k ltac:(lia) Hm Hk) as Ham.
  rewrite <- !lor_disjoint by done. apply Z.bits_inj'. intros i Hi.
  rewrite !Z.land_spec, !Z.lor_spec, !Z.land_spec, !Z.shiftl_spec, Z.land_spec by lia.
  destruct (Z.ltb_spec i k).
  - rewrite !(Z.testbit_neg_r _ (i - k)) by lia. by rewrite !orb_false_r.
  - rewrite <- (Z.mod_small a (2 ^ k)), <- (Z.mod_small m (2 ^ k)) by lia.
    rewrite !Z.mod_pow2_bits_high by lia. done.
Qed.

(** Bounds the blocks rely on: the key's limbs, and the accumulator's between blocks. *)
Definition r_ok (r : Z * Z * Z) : Prop :=
  let '(r0, r1, r2) := r in 0 <= r0 < 2 ^ 44 /\ 0 <= r1 < 2 ^ 44 /\ 0 <= r2 < 2 ^ 36.
Definition h_ok (h : Z * Z * Z) : Prop :=
  let '(h0, h1, h2) := h in 0 <= h0 < 2 ^ 44 /\ 0 <= h1 < 2 ^ 44 + 2 ^ 10 /\ 0 <= h2 < 2 ^ 42.

Lemma init_r key : length key = 32%nat ->
  r_ok (p_r (poly1305_init key)) /\
  val3 (p_r (poly1305_init key)) = clamp (le_combine (take 16 key)).
Proof.
  intros Hk. assert (length (take 16 key) = 16%nat) as H16 by (rewrite length_take; lia).
  destruct (halves _ H16) as (H0 & H1 & Hv). rewrite take_take in H0, Hv.
  rewrite skipn_firstn_comm in H1, Hv. rewrite take_take in H1, Hv.
  cbn [Nat.min Nat.sub] in *. cbn [poly1305_init p_r].
  set (t0 := U8TO64 (take 8 key)) in *. set (t1 := U8TO64 (take 8 (drop 8 key))) in *.
  destruct (limbs_of t0 t1 H0 H1) as (L0 & L1 & L2 & Hl). rewrite <- Hv, <- Hl.
  assert (forall x m, Z.land m MASK44 = m -> Z.land x m = Z.land (Z.land x MASK44) m) as Hm.
  { intros x m Hm. by rewrite <- Z.land_assoc, (Z.land_comm MASK44), Hm. }
  assert (Z.shiftr t1 24 = limb2 t0 t1) as ->.
  { unfold limb2. rewrite land_MASK42, Z.shiftr_div_pow2 by lia. unfold in_width in *.
    rewrite Z.mod_small; [done|]. split; [apply Z.div_pos; lia|].
    apply Z.div_lt_upper_bound; lia. }
  rewrite (Hm t0), (Hm (Z.lor _ _)) by done.
  change (Z.land t0 MASK44) with (limb0 t0 t1).
  change (Z.land (Z.lor _ _) MASK44) with (limb1 t0 t1).
  set (a := limb0 t0 t1) in *. set (b := limb1 t0 t1) in *. set (c := limb2 t0 t1) in *.
  split.
  - split; [|split]; apply land_upper; lia.
  - unfold clamp, val3.
    change 21267647620597763993911028882763415551
      with (17575274610687 + 2 ^ 44 * (17592181915647 + 2 ^ 44 * 68719475727)).
    replace (a + 2 ^ 44 * b + 2 ^ 88 * c) with (a + 2 ^ 44 * (b + 2 ^ 44 * c)) by lia.
    rewrite !land_concat by lia. lia.
Qed.

(** ** One block *)

Lemma mul_range a b A B : 0 <= a < A -> 0 <= b < B -> 0 <= a * b < A * B.
Proof. intros Ha Hb. split; [lia|]. apply Z.mul_lt_mono_nonneg; lia. Qed.

Lemma SHR_div x k : 0 <= k -> 0 <= x < 2 ^ (64 + k) -> SHR x k = x / 2 ^ k.
Proof.
  intros Hk Hx. unfold SHR. rewrite Z.shiftr_div_pow2 by done. apply wrap_small.
  unfold in_width. rewrite Z.pow_add_r in Hx by lia.
  split; [apply Z.div_pos; lia|]. apply Z.div_lt_upper_bound; lia.
Qed.

Lemma LO_mask44 x : Z.land (LO x) MASK44 = x mod 2 ^ 44.
Proof.
  rewrite land_MASK44. unfold LO, wrap. symmetry.
  change (2 ^ 64) with (2 ^ 44 * 2 ^ 20). rewrite Z.rem_mul_r by lia.
  rewrite Z.mul_comm, Z.mod_add, Z.mod_mod by lia. done.
Qed.

Lemma LO_mask42 x : Z.land (LO x) MASK42 = x mod 2 ^ 42.
Proof.
  rewrite land_MASK42. unfold LO, wrap. symmetry.
  change (2 ^ 64) with (2 ^ 42 * 2 ^ 22). rewrite Z.rem_mul_r by lia.
  rewrite Z.mul_comm, Z.mod_add, Z.mod_mod by lia. done.
Qed.

(** The carry chain after the multiplication, on integers. *)
Definition reduce (d0 d1 d2 : Z) : Z * Z * Z :=
  let d1 := d1 + d0 / 2 ^ 44 in
  let d2 := d2 + d1 / 2 ^ 44 in
  let e := d0 mod 2 ^ 44 + d2 / 2 ^ 42 * 5 in
  (e mod 2 ^ 44, d1 mod 2 ^ 44 + e / 2 ^ 44, d2 mod 2 ^ 42).

Lemma reduce_spec d0 d1 d2 :
  0 <= d0 < 2 ^ 96 -> 0 <= d1 < 2 ^ 95 -> 0 <= d2 < 2 ^ 92 ->
  h_ok (reduce d0 d1 d2) /\
  exists k, val3 (reduce d0 d1 d2) = d0 + 2 ^ 44 * d1 + 2 ^ 88 * d2 - P1305 * k.
Proof.
  intros H0 H1 H2. unfold reduce, h_ok, val3, P1305.
  pose proof (Z.div_mod d0 (2 ^ 44) ltac:(lia)) as E0.
  pose proof (Z.mod_pos_bound d0 (2 ^ 44) ltac:(lia)) as B0.
  set (c0 := d0 / 2 ^ 44) in *. set (b0 := d0 mod 2 ^ 44) in *.
  pose proof (Z.div_mod (d1 + c0) (2 ^ 44) ltac:(lia)) as E1.
  pose proof (Z.mod_pos_bound (d1 + c0) (2 ^ 44) ltac:(lia)) as B1.
  set (c1 := (d1 + c0) / 2 ^ 44) in *. set (b1 := (d1 + c0) mod 2 ^ 44) in *.
  pose proof (Z.div_mod (d2 + c1) (2 ^ 42) ltac:(lia)) as E2.
  pose proof (Z.mod_pos_bound (d2 + c1) (2 ^ 42) ltac:(lia)) as B2.
  set (c2 := (d2 + c1) / 2 ^ 42) in *. set (b2 := (d2 + c1) mod 2 ^ 42) in *.
  pose proof (Z.div_mod (b0 + c2 * 5) (2 ^ 44) ltac:(lia)) as E3.
  pose proof (Z.mod_pos_bound (b0 + c2 * 5) (2 ^ 44) ltac:(lia)) as B3.
  set (c3 := (b0 + c2 * 5) / 2 ^ 44) in *. set (b3 := (b0 + c2 * 5) mod 2 ^ 44) in *.
  clearbody c0 b0 c1 b1 c2 b2 c3 b3. split; [|exists c2]; lia.
Qed.

(** The same chain on machine words. *)
Lemma carry_chain d0 d1 d2 :
  0 <= d0 < 2 ^ 96 -> 0 <= d1 < 2 ^ 95 -> 0 <= d2 < 2 ^ 92 ->
  (let c := SHR d0 44 in let h0 := Z.land (LO d0) MASK44 in
   let d1 := ADD d1 c in
   let c := SHR d1 44 in let h1 := Z.land (LO d1) MASK44 in
   let d2 := ADD d2 c in
   let c := SHR d2 42 in let h2 := Z.land (LO d2) MASK42 in
   let h0 := add64 h0 (mul64 c 5) in
   let c := Z.shiftr h0 44 in let h0 := Z.land h0 MASK44 in
   let h1 := add64 h1 c in (h0, h1, h2)) = reduce d0 d1 d2.
Proof.
  intros D0 D1 D2. cbv zeta. unfold reduce, ADD, add64, mul64.
  rewrite !LO_mask44, !LO_mask42, (SHR_div d0) by lia.
  assert (0 <= d0 / 2 ^ 44 < 2 ^ 52) as C0
    by (split; [apply Z.div_pos; lia|apply Z.div_lt_upper_bound; lia]).
  rewrite (wrap_small 128 (d1 + _)) by (unfold in_width; lia).
  assert (0 <= (d1 + d0 / 2 ^ 44) / 2 ^ 44 < 2 ^ 52) as C1
    by (split; [apply Z.div_pos; lia|apply Z.div_lt_upper_bound; lia]).
  rewrite (SHR_div (d1 + _)) by lia. rewrite (wrap_small 128 (d2 + _)) by (unfold in_width; lia).
  assert (0 <= (d2 + (d1 + d0 / 2 ^ 44) / 2 ^ 44) / 2 ^ 42 < 2 ^ 51) as C2
    by (split; [apply Z.div_pos; lia|apply Z.div_lt_upper_bound; lia]).
  rewrite (SHR_div (d2 + _)) by lia. rewrite (wrap_small 64 (_ * 5)) by (unfold in_width; lia).
  pose proof (Z.mod_pos_bound d0 (2 ^ 44) ltac:(lia)).
  rewrite (wrap_small 64 (d0 mod 2 ^ 44 + _)) by (unfold in_width; lia).
  rewrite Z.shiftr_div_pow2 by lia.
  set (e := d0 mod 2 ^ 44 + _) in *.
  pose proof (Z.mod_pos_bound (d1 + d0 / 2 ^ 44) (2 ^ 44) ltac:(lia)).
  assert (0 <= e / 2 ^ 44 < 2 ^ 20) by
    (split; [apply Z.div_pos; lia|apply Z.div_lt_upper_bound; lia]).
  by rewrite wrap_small by (unfold in_width; lia).
Qed.

Lemma add3 x y z :
  0 <= x -> 0 <= y -> 0 <= z -> x + y + z < 2 ^ 96 ->
  ADD (ADD (wrap 128 x) (wrap 128 y)) (wrap 128 z) = x + y + z.
Proof.
  intros Hx Hy Hz Hs. unfold ADD.
  rewrite (wrap_small 128 x), (wrap_small 128 y), (wrap_small 128 z) by (unfold in_width; lia).
  rewrite (wrap_small 128 (x + y)) by (unfold in_width; lia).
  apply wrap_small. unfold in_width. lia.
Qed.

(** The three sums of products: no word overflows. *)
Lemma products_fit a0 a1 a2 r0 r1 r2 :
  0 <= a0 < 2 ^ 45 -> 0 <= a1 < 2 ^ 46 -> 0 <= a2 < 2 ^ 43 -> r_ok (r0, r1, r2) ->
  let d0 := a0 * r0 + a1 * (r2 * 20) + a2 * (r1 * 20) in
  let d1 := a0 * r1 + a1 * r0 + a2 * (r2 * 20) in
  let d2 := a0 * r2 + a1 * r1 + a2 * r0 in
  (0 <= d0 < 2 ^ 96 /\ 0 <= d1 < 2 ^ 95 /\ 0 <= d2 < 2 ^ 92) /\
  mul64 r1 20 = r1 * 20 /\ mul64 r2 20 = r2 * 20 /\
  ADD (ADD (MUL a0 r0) (MUL a1 (r2 * 20))) (MUL a2 (r1 * 20)) = d0 /\
  ADD (ADD (MUL a0 r1) (MUL a1 r0)) (MUL a2 (r2 * 20)) = d1 /\
  ADD (ADD (MUL a0 r2) (MUL a1 r1)) (MUL a2 r0) = d2.
Proof.
  intros A0 A1 A2 (R0 & R1 & R2). unfold mul64. rewrite !wrap_small by (unfold in_width; lia).
  assert (0 <= r1 * 20 < 2 ^ 49) as S1 by lia. assert (0 <= r2 * 20 < 2 ^ 41) as S2 by lia.
  set (s1 := r1 * 20) in *. set (s2 := r2 * 20) in *. clearbody s1 s2.
  pose proof (mul_range _ _ _ _ A0 R0). pose proof (mul_range _ _ _ _ A1 S2).
  pose proof (mul_range _ _ _ _ A2 S1). pose proof (mul_range _ _ _ _ A0 R1).
  pose proof (mul_range _ _ _ _ A1 R0). pose proof (mul_range _ _ _ _ A2 S2).
  pose proof (mul_range _ _ _ _ A0 R2). pose proof (mul_range _ _ _ _ A1 R1).
  pose proof (mul_range _ _ _ _ A2 R0).
  clear A0 A1 A2 R0 R1 R2 S1 S2.
  unfold MUL. cbv zeta. split; [lia|]. split; [done|]. split; [done|].
  split; [|split]; apply add3; lia.
Qed.

(** A block adds the message with its high bit and multiplies by the key, modulo 2^130-5. *)
Lemma poly1305_block_spec hibit r h m :
  r_ok r -> h_ok h -> length m = 16%nat -> hibit = 0 \/ hibit = Z.shiftl 1 40 ->
  h_ok (poly1305_block hibit r h m) /\
  val3 (poly1305_block hibit r h m) mod P1305 =
    (val3 h + le_combine m + 2 ^ 88 * hibit) * val3 r mod P1305.
Proof.
  destruct r as [[r0 r1] r2], h as [[h0 h1] h2]. intros Hr (B0 & B1 & B2) Hm Hh.
  destruct (halves m Hm) as (H0 & H1 & Hv). unfold poly1305_block.
  set (t0 := U8TO64 (take 8 m)) in *. set (t1 := U8TO64 (take 8 (drop 8 m))) in *.
  destruct (limbs_of t0 t1 H0 H1) as (L0 & L1 & L2 & Hl).
  assert (Z.lor (limb2 t0 t1) hibit = limb2 t0 t1 + hibit /\ 0 <= hibit <= 2 ^ 40) as [-> Hb].
  { destruct Hh as [->| ->]; [by rewrite Z.lor_0_r, Z.add_0_r|].
    rewrite lor_disjoint by lia. split; [change (Z.shiftl 1 40) with (2 ^ 40); lia|done]. }
  rewrite <- Hv, <- Hl. clear Hv Hl Hh.
  set (l0 := limb0 t0 t1) in *. set (l1 := limb1 t0 t1) in *. set (l2 := limb2 t0 t1) in *.
  clearbody l0 l1 l2. clear H0 H1. clear t0 t1 Hm.
  assert (forall x y, 0 <= x -> 0 <= y -> x + y < 2 ^ 64 -> add64 x y = x + y) as Ha
    by (intros; apply wrap_small; unfold in_width; lia).
  rewrite (Ha h0), (Ha h1 l1), (Ha h2) by lia. clear Ha.
  destruct (products_fit (h0 + l0) (h1 + l1) (h2 + (l2 + hibit)) r0 r1 r2
    ltac:(lia) ltac:(lia) ltac:(lia) Hr) as ((D0 & D1 & D2) & -> & -> & -> & -> & ->).
  rewrite carry_chain by done. destruct (reduce_spec _ _ _ D0 D1 D2) as [Hok [k Hk]].
  split; [exact Hok|]. rewrite Hk. unfold val3.
  set (a0 := h0 + l0). set (a1 := h1 + l1). set (a2 := h2 + (l2 + hibit)).
  transitivity ((a0 + 2 ^ 44 * a1 + 2 ^ 88 * a2) * (r0 + 2 ^ 44 * r1 + 2 ^ 88 * r2) mod P1305).
  2:{ f_equal. f_equal. subst a0 a1 a2. ring. }
  rewrite <- (Z.mod_add _ (k + 4 * (a1 * r2 + a2 * r1 + 2 ^ 44 * (a2 * r2))) P1305) by done.
  f_equal. unfold P1305. ring.
Qed.

(** ** The final reduction *)

Definition h_canonical (h : Z * Z * Z) : Prop :=
  let '(h0, h1, h2) := h in 0 <= h0 < 2 ^ 44 /\ 0 <= h1 < 2 ^ 44 /\ 0 <= h2 < 2 ^ 42.

Lemma add64_small x y : 0 <= x -> 0 <= y -> x + y < 2 ^ 64 -> add64 x y = x + y.
Proof. intros. apply wrap_small. unfold in_width. lia. Qed.

(** A carry of [k] bits: quotient and remainder. *)
Lemma carry_bits x k : 0 <= k -> 0 <= x ->
  x = 2 ^ k * (x / 2 ^ k) + x mod 2 ^ k /\ 0 <= x mod 2 ^ k < 2 ^ k /\ 0 <= x / 2 ^ k.
Proof.
  intros Hk Hx. assert (0 < 2 ^ k) by lia. split_and!.
  - apply Z.div_mod. lia.
  - by apply Z.mod_pos_bound.
  - by apply Z.mod_pos_bound.
  - by apply Z.div_pos.
Qed.

(** Names the quotient and the remainder of the next carry. *)
Ltac carry x k c b :=
  let E := fresh "E" in let B := fresh "B" in let C := fresh "C" in
  destruct (carry_bits x k ltac:(lia) ltac:(lia)) as (E & B & C);
  set (c := x / 2 ^ k) in *; set (b := x mod 2 ^ k) in *; clearbody c b.

Lemma poly1305_carry_spec h :
  h_ok h -> h_canonical (poly1305_carry h) /\
            val3 (poly1305_carry h) mod P1305 = val3 h mod P1305.
Proof.
  destruct h as [[h0 h1] h2]. intros (B0 & B1 & B2). unfold poly1305_carry, mul64.
  rewrite !land_MASK44, !land_MASK42, !Z.shiftr_div_pow2 by lia.
  carry h1 44 c1 l1. rewrite (add64_small h2) by lia.
  carry (h2 + c1) 42 c2 l2. rewrite (wrap_small 64 (c2 * 5)) by (unfold in_width; lia).
  rewrite (add64_small h0) by lia. carry (h0 + c2 * 5) 44 c3 l3.
  rewrite (add64_small l1) by lia. carry (l1 + c3) 44 c4 l4.
  rewrite (add64_small l2) by lia. carry (l2 + c4) 42 c5 l5.
  rewrite (wrap_small 64 (c5 * 5)) by (unfold in_width; lia).
  rewrite (add64_small l3) by lia. carry (l3 + c5 * 5) 44 c6 l6.
  rewrite (add64_small l4) by lia. unfold h_canonical, val3. split; [lia|].
  rewrite <- (Z.mod_add _ (c2 + c5) P1305) by done. f_equal. unfold P1305. lia.
Qed.

(** Selecting with the all-ones and the zero mask. *)
Lemma land_ones64 x : 0 <= x < 2 ^ 64 -> Z.land x (2 ^ 64 - 1) = x.
Proof.
  intros Hx. change (2 ^ 64 - 1) with (Z.ones 64). rewrite Z.land_ones by lia.
  by apply Z.mod_small.
Qed.

Lemma poly1305_select_spec h :
  h_canonical h -> h_canonical (poly1305_select h) /\
                   val3 (poly1305_select h) = val3 h mod P1305.
Proof.
  destruct h as [[h0 h1] h2]. intros (B0 & B1 & B2). unfold poly1305_select.
  rewrite !land_MASK44, !(Z.shiftr_div_pow2 _ 44) by lia.
  rewrite (add64_small h0) by lia. carry (h0 + 5) 44 c1 l1.
  rewrite (add64_small h1) by lia. carry (h1 + c1) 44 c2 l2.
  rewrite (add64_small h2) by lia. change (Z.shiftl 1 42) with (2 ^ 42).
  unfold sub64. unfold val3 at 2.
  destruct (Z.ltb_spec (h2 + c2) (2 ^ 42)) as [Hlt|Hge].
  - assert (wrap 64 (h2 + c2 - 2 ^ 42) = h2 + c2 - 2 ^ 42 + 2 ^ 64) as ->.
    { unfold wrap. rewrite <- (Z.mod_add _ 1) by lia. rewrite Z.mod_small by lia. lia. }
    assert (Z.shiftr (h2 + c2 - 2 ^ 42 + 2 ^ 64) 63 = 1) as ->.
    { rewrite Z.shiftr_div_pow2 by lia. symmetry. apply (Z.div_unique_pos _ _ _
        (h2 + c2 - 2 ^ 42 + 2 ^ 63)); lia. }
    change (wrap 64 (1 - 1)) with 0. rewrite !Z.land_0_r, !Z.lor_0_r, Z.lxor_0_l.
    rewrite !land_ones64 by lia. split; [done|]. unfold val3.
    rewrite Z.mod_small; [done|]. unfold P1305. lia.
  - rewrite (wrap_small 64 (h2 + c2 - 2 ^ 42)) by (unfold in_width; lia).
    assert (Z.shiftr (h2 + c2 - 2 ^ 42) 63 = 0) as ->.
    { rewrite Z.shiftr_div_pow2 by lia. apply Z.div_small. lia. }
    change (wrap 64 (0 - 1)) with (2 ^ 64 - 1).
    change (Z.lxor (2 ^ 64 - 1) (2 ^ 64 - 1)) with 0. rewrite !Z.land_0_r, !Z.lor_0_l.
    rewrite !land_ones64 by lia. split; [unfold h_canonical; lia|]. unfold val3.
    rewrite <- (Z.mod_add _ (-1)) by done. rewrite Z.mod_small; unfold P1305; lia.
Qed.

Lemma le_split_lor_wrap x y : le_split 8 (Z.lor x (wrap 64 y)) = le_split 8 (Z.lor x y).
Proof.
  rewrite <- (le_split_mod 8 (Z.lor x y)), <- (le_split_mod 8 (Z.lor x (wrap 64 y))).
  change (2 ^ (8 * Z.of_nat 8)) with (2 ^ 64). f_equal. unfold wrap.
  rewrite <- !Z.land_ones by lia.
  by rewrite Z.land_lor_distr_l, <- Z.land_assoc, Z.land_diag, <- Z.land_lor_distr_l.
Qed.

(** The tag: the sum with the second half of the key, modulo 2^128. *)
Lemma poly1305_mac_spec h t0 t1 :
  h_canonical h -> u64 t0 -> u64 t1 ->
  poly1305_mac h (t0, t1) = le_split 16 (val3 h + (t0 + 2 ^ 64 * t1)).
Proof.
  destruct h as [[h0 h1] h2]. intros (B0 & B1 & B2) H0 H1. unfold poly1305_mac.
  destruct (limbs_of t0 t1 H0 H1) as (L0 & L1 & L2 & <-).
  set (l0 := limb0 t0 t1) in *. set (l1 := limb1 t0 t1) in *. set (l2 := limb2 t0 t1) in *.
  clearbody l0 l1 l2. clear t0 t1 H0 H1.
  rewrite !land_MASK44, !land_MASK42, !(Z.shiftr_div_pow2 _ 44) by lia.
  rewrite (add64_small h0) by lia. carry (h0 + l0) 44 c1 b0.
  rewrite (add64_small l1), (add64_small h1) by lia. carry (h1 + (l1 + c1)) 44 c2 b1.
  rewrite (add64_small l2), (add64_small h2) by lia. carry (h2 + (l2 + c2)) 42 c3 b2.
  assert (val3 (h0, h1, h2) + val3 (l0, l1, l2) =
    b0 + 2 ^ 44 * b1 + 2 ^ 88 * b2 + 2 ^ 130 * c3) as -> by (unfold val3; lia).
  change 16%nat with (8 + 8)%nat. rewrite !U64TO8_split, le_split_app. f_equal.
  - unfold shl64. rewrite le_split_lor_wrap, lor_disjoint by lia.
    rewrite <- (le_split_mod 8 (b0 + 2 ^ 44 * b1)), <- (le_split_mod 8 (_ + _)).
    change (2 ^ (8 * Z.of_nat 8)) with (2 ^ 64). f_equal.
    rewrite <- (Z.mod_add (b0 + _) (2 ^ 24 * b2 + 2 ^ 66 * c3)) by lia. f_equal. lia.
  - change (8 * Z.of_nat 8) with 64. unfold shl64. rewrite le_split_lor_wrap.
    rewrite !Z.shiftr_div_pow2 by lia. carry b1 20 c4 b3.
    rewrite lor_disjoint by lia.
    assert ((b0 + 2 ^ 44 * b1 + 2 ^ 88 * b2 + 2 ^ 130 * c3) / 2 ^ 64 =
      c4 + 2 ^ 24 * b2 + 2 ^ 66 * c3) as ->.
    { symmetry. apply (Z.div_unique_pos _ _ _ (b0 + 2 ^ 44 * b3)); lia. }
    rewrite <- (le_split_mod 8 (c4 + 2 ^ 24 * b2)), <- (le_split_mod 8 (_ + 2 ^ 66 * c3)).
    change (2 ^ (8 * Z.of_nat 8)) with (2 ^ 64). f_equal.
    rewrite <- (Z.mod_add (c4 + _) (4 * c3)) by lia. f_equal. lia.
Qed.

(** ** Streaming *)

Lemma poly1305_loop_add n k hibit r h m :
  poly1305_loop (n + k) hibit r h m =
  poly1305_loop k hibit r (poly1305_loop n hibit r h m) (drop (16 * n) m).
Proof.
  revert h m. induction n as [|n IH]; intros h m; [by rewrite Nat.mul_0_r|].
  cbn [plus poly1305_loop]. rewrite IH, drop_drop. do 2 f_equal. lia.
Qed.

Lemma poly1305_loop_prefix n hibit r h m m' :
  (16 * n <= length m)%nat ->
  poly1305_loop n hibit r h (m ++ m') = poly1305_loop n hibit r h m.
Proof.
  revert h m. induction n as [|n IH]; intros h m Hl; [done|]. cbn [poly1305_loop].
  rewrite take_app_le, drop_app_le by lia. apply IH. rewrite length_drop. lia.
Qed.

(** The state has absorbed [data]: whole blocks [F] in the accumulator, the rest [L] in the
    buffer. *)
Definition absorbed (key data : list byte) (st : poly1305_state) : Prop :=
  exists q F L,
    data = F ++ L /\ length F = (16 * q)%nat /\ (length L < 16)%nat /\
    p_r st = p_r (poly1305_init key) /\ p_pad st = p_pad (poly1305_init key) /\
    p_final st = false /\ length (p_buffer st) = 16%nat /\
    p_h st = poly1305_loop q (Z.shiftl 1 40) (p_r (poly1305_init key)) (0, 0, 0) F /\
    p_leftover st = length L /\ take (length L) (p_buffer st) = L.

Lemma init_absorbed key : absorbed key [] (poly1305_init key).
Proof. exists 0%nat, [], []. split_and!; simpl; done || lia. Qed.

Lemma length_store k m buffer :
  (k + length m <= length buffer)%nat -> length (store k m buffer) = length buffer.
Proof. intros Hk. unfold store. rewrite !length_app, length_take, length_drop. lia. Qed.

Lemma take_store k m buffer :
  (k + length m <= length buffer)%nat ->
  take (k + length m) (store k m buffer) = take k buffer ++ m.
Proof.
  intros Hk. unfold store. rewrite app_assoc, take_app_length'; [done|].
  rewrite length_app, length_take. lia.
Qed.

Lemma blocks_of (m : list byte) :
  exists q F L, m = F ++ L /\ length F = (16 * q)%nat /\ (length L < 16)%nat /\
    q = (length m / 16)%nat /\ F = take (q * 16) m /\ L = drop (q * 16) m.
Proof.
  pose proof (Nat.div_mod_eq (length m) 16). pose proof (Nat.mod_upper_bound (length m) 16 ltac:(lia)).
  exists (length m / 16)%nat, (take (length m / 16 * 16) m), (drop (length m / 16 * 16) m).
  rewrite take_drop, length_take, length_drop. split_and!; done || lia.
Qed.

Lemma rest_absorbed key data st m :
  absorbed key data st -> p_leftover st = 0%nat -> absorbed key (data ++ m) (poly1305_rest st m).
Proof.
  intros (q & F & L & -> & HF & HL & Hr & Hp & Hf & Hb & Hh & Hl & Ht) H0.
  assert (L = []) as -> by (apply nil_length_inv; lia). rewrite app_nil_r.
  destruct (blocks_of m) as (q' & F' & L' & Em & HF' & HL' & Hq' & EF & EL).
  unfold poly1305_rest. rewrite <- Hq', <- EF, <- EL.
  assert (Nat.leb 16 (length m) = true -> absorbed key (F ++ m) (match L' with
      | [] => poly1305_blocks st F'
      | _ => with_buffer (p_leftover st + length L') (store (p_leftover st) L' (p_buffer st))
               (poly1305_blocks st F')
      end)) as Hfull.
  { intros _. exists (q + q')%nat, (F ++ F'), L'.
    assert (p_h (poly1305_blocks st F') = poly1305_loop (q + q') (Z.shiftl 1 40)
      (p_r (poly1305_init key)) (0, 0, 0) (F ++ F')) as Hloop.
    { rewrite poly1305_loop_add, poly1305_loop_prefix, <- HF, drop_app_length by lia.
      cbn [poly1305_blocks p_h]. rewrite Hf, Hh, Hr, HF'.
      by rewrite (Nat.mul_comm 16), Nat.div_mul by lia. }
    rewrite <- app_assoc, <- Em, length_app.
    split; [done|]. split; [lia|]. split; [done|].
    destruct L' as [|b L']; [by split_and!; simpl|].
    assert (0 + length (b :: L') <= length (p_buffer st))%nat as Hroom by lia.
    cbn [with_buffer p_r p_h p_pad p_final p_leftover p_buffer poly1305_blocks] in *.
    rewrite H0. rewrite length_store by done. pose proof (take_store 0 _ _ Hroom) as Hts.
    by split_and!. }
  destruct (Nat.leb_spec 16 (length m)) as [Hge|Hlt]; [by apply Hfull|]. clear Hfull.
  assert (q' = 0%nat) as -> by (rewrite Hq'; apply Nat.div_small; lia).
  exists q, F, m. assert (0 + length m <= length (p_buffer st))%nat as Hroom by lia.
  pose proof (take_store 0 _ _ Hroom) as Hts. rewrite H0.
  destruct m as [|b m']; [by split_and!|].
  cbn [with_buffer p_r p_h p_pad p_final p_leftover p_buffer]. rewrite length_store by done.
  by split_and!.
Qed.

Lemma update_absorbed key data st m :
  absorbed key data st -> absorbed key (data ++ m) (poly1305_update st m).
Proof.
  intros Ha. unfold poly1305_update. destruct (Nat.eqb_spec (p_leftover st) 0) as [H0|H0];
    [by apply rest_absorbed|].
  destruct Ha as (q & F & L & -> & HF & HL & Hr & Hp & Hf & Hb & Hh & Hl & Ht).
  set (want := Nat.min (16 - p_leftover st) (length m)).
  assert (length (take want m) = want) as Hw by (rewrite length_take; lia).
  assert (length L + length (take want m) <= length (p_buffer st))%nat as Hroom by lia.
  pose proof (take_store _ _ _ Hroom) as Hts. rewrite Ht, Hw in Hts.
  pose proof (length_store _ _ _ Hroom) as Hls.
  cbn [with_buffer p_leftover p_buffer]. rewrite Hl in *.
  destruct (Nat.ltb_spec (length L + want) 16) as [Hlt|Hge].
  - assert (want = length m) as Hwm by lia.
    rewrite Hwm, (take_ge m) in * by lia. exists q, F, (L ++ m).
    cbn [with_buffer p_r p_h p_pad p_final p_leftover p_buffer].
    rewrite length_app, app_assoc. split_and!; try done; try lia.
  - rewrite take_ge in Hts by lia.
    rewrite <- (take_drop want m) at 1. rewrite (app_assoc (F ++ L)).
    apply rest_absorbed; [|done]. exists (S q), (F ++ L ++ take want m), [].
    rewrite !length_app, app_nil_r, app_assoc.
    split; [done|]. split; [lia|]. split; [simpl; lia|].
    cbn [with_buffer p_r p_h p_pad p_final p_leftover p_buffer poly1305_blocks].
    rewrite Hts, Hls, Hf, Hr in *. split_and!; try done.
    rewrite <- app_assoc. replace (S q) with (q + 1)%nat by lia.
    rewrite poly1305_loop_add.
    rewrite (poly1305_loop_prefix q _ _ _ F), <- HF, drop_app_length by lia.
    by rewrite Hb, Hh.
Qed.

(** ** The tag is the one of RFC 8439 *)

Lemma length_blocks16_fuel fuel fuel' m :
  (length m <= fuel)%nat -> (length m <= fuel')%nat -> blocks16 fuel m = blocks16 fuel' m.
Proof.
  revert fuel' m. induction fuel as [|fuel IH]; intros fuel' m Hf Hf'.
  - destruct m; [by destruct fuel'|simpl in *; lia].
  - destruct fuel' as [|fuel']; destruct m as [|b m]; try done; [simpl in *; lia|].
    cbn [blocks16]. f_equal. apply IH; rewrite length_drop; simpl in *; lia.
Qed.

Lemma blocks16_cons m : m <> [] ->
  blocks16 (length m) m = take 16 m :: blocks16 (length (drop 16 m)) (drop 16 m).
Proof.
  destruct m as [|b m]; [done|]. intros _. cbn [length blocks16]. f_equal.
  apply length_blocks16_fuel; rewrite length_drop; simpl; lia.
Qed.

Lemma blocks16_app q F L :
  length F = (16 * q)%nat ->
  blocks16 (length (F ++ L)) (F ++ L) = blocks16 (length F) F ++ blocks16 (length L) L.
Proof.
  revert F. induction q as [|q IH]; intros F HF.
  - assert (F = []) as -> by (apply nil_length_inv; lia). done.
  - rewrite (blocks16_cons F), (blocks16_cons (F ++ L)) by (destruct F; [simpl in *; lia|done]).
    rewrite take_app_le, drop_app_le by lia. cbn [app]. f_equal. apply IH. rewrite length_drop. lia.
Qed.

(** The accumulator after whole blocks. *)
Lemma poly1305_loop_spec q r F h acc :
  r_ok r -> h_ok h -> val3 h mod P1305 = acc mod P1305 -> length F = (16 * q)%nat ->
  let h' := poly1305_loop q (Z.shiftl 1 40) r h F in
  h_ok h' /\
  val3 h' mod P1305 = foldl (rfc_step (val3 r)) acc (blocks16 (length F) F) mod P1305.
Proof.
  intros Hr. revert h acc F. induction q as [|q IH]; intros h acc F Hh Hacc HF.
  - assert (F = []) as -> by (apply nil_length_inv; lia). done.
  - assert (length (take 16 F) = 16%nat) as H16 by (rewrite length_take; lia).
    destruct (poly1305_block_spec (Z.shiftl 1 40) r h (take 16 F) Hr Hh H16 ltac:(by right))
      as [Hh' Hv].
    assert (length (drop 16 F) = (16 * q)%nat) as HF' by (rewrite length_drop; lia).
    rewrite blocks16_cons by (destruct F; [simpl in *; lia|done]). cbn [poly1305_loop foldl].
    apply IH; [done| |done]. rewrite Hv. unfold rfc_step.
    rewrite Z.mod_mod by done. rewrite le_combine_app, H16. cbn [le_combine].
    change (bval x01 + 256 * 0) with 1. change (256 ^ Z.of_nat 16) with (2 ^ 128).
    change (2 ^ 88 * Z.shiftl 1 40) with (2 ^ 128).
    rewrite Z.mul_mod, (Z.mul_mod (acc + _)) by done. f_equal. f_equal.
    rewrite <- Z.add_assoc, Z.add_mod, Hacc, <- Z.add_mod by done. f_equal; lia.
Qed.

Lemma init_pad key : length key = 32%nat ->
  u64 (fst (p_pad (poly1305_init key))) /\ u64 (snd (p_pad (poly1305_init key))) /\
  fst (p_pad (poly1305_init key)) + 2 ^ 64 * snd (p_pad (poly1305_init key)) =
    le_combine (take 16 (drop 16 key)).
Proof.
  intros Hk. assert (length (take 16 (drop 16 key)) = 16%nat) as H16
    by (rewrite length_take, length_drop; lia).
  destruct (halves _ H16) as (H0 & H1 & Hv). rewrite take_take in H0, Hv.
  rewrite skipn_firstn_comm, drop_drop in H1, Hv. rewrite take_take in H1, Hv.
  by split_and!.
Qed.

(** The last, shorter block: a byte 1 and zeros, without the high bit. *)
Lemma last_block r h acc B :
  r_ok r -> h_ok h -> val3 h mod P1305 = acc mod P1305 -> (0 < length B < 16)%nat ->
  let h' := poly1305_block 0 r h (B ++ x01 :: zeros (15 - length B)) in
  h_ok h' /\ val3 h' mod P1305 = rfc_step (val3 r) acc B mod P1305.
Proof.
  intros Hr Hh Hacc HB.
  assert (length (B ++ x01 :: zeros (15 - length B)) = 16%nat) as H16
    by (rewrite length_app; cbn [length]; rewrite length_zeros; lia).
  destruct (poly1305_block_spec 0 r h _ Hr Hh H16 ltac:(by left)) as [Hh' Hv].
  split; [exact Hh'|]. rewrite Hv. unfold rfc_step. rewrite Z.mod_mod, Z.mul_0_r, Z.add_0_r by done.
  change (x01 :: zeros (15 - length B)) with ([x01] ++ zeros (15 - length B)).
  rewrite app_assoc, (le_combine_app _ (zeros _)), le_combine_zeros, Z.mul_0_r, Z.add_0_r.
  rewrite Z.mul_mod, Z.add_mod, Hacc, <- Z.add_mod, <- Z.mul_mod by done. done.
Qed.

Lemma rfc_fold_range r acc Bs :
  0 <= acc < P1305 -> 0 <= foldl (rfc_step r) acc Bs < P1305.
Proof.
  intros Hacc. destruct Bs as [|B Bs _] using rev_ind; [done|].
  rewrite foldl_snoc. by apply Z.mod_pos_bound.
Qed.

(** The accumulator [poly1305_finish] reduces. *)
Lemma finish_accumulator key data st :
  length key = 32%nat -> absorbed key data st ->
  exists h, poly1305_finish st =
      poly1305_mac (poly1305_select (poly1305_carry h)) (p_pad (poly1305_init key)) /\
    h_ok h /\ val3 h mod P1305 =
      foldl (rfc_step (clamp (le_combine (take 16 key)))) 0 (blocks16 (length data) data) mod P1305.
Proof.
  intros Hk (q & F & L & -> & HF & HL & Hr & Hp & Hf & Hb & Hh & Hl & Ht).
  destruct (init_r key Hk) as [Hrok <-]. set (r := p_r (poly1305_init key)) in *.
  destruct (poly1305_loop_spec q r F (0, 0, 0) 0 Hrok ltac:(done) eq_refl HF) as [Hok Hval].
  rewrite (blocks16_app q), foldl_app by done.
  set (acc := foldl (rfc_step (val3 r)) 0 (blocks16 (length F) F)) in *.
  unfold poly1305_finish. rewrite Hl. destruct L as [|b L].
  - cbn [length Nat.eqb]. rewrite Hp. exists (p_h st). rewrite Hh. by split_and!.
  - set (B := b :: L) in *. assert (0 < length B)%nat as HB by (simpl; lia).
    destruct (Nat.eqb_spec (length B) 0) as [|_]; [lia|].
    cbn [poly1305_blocks p_h p_r p_pad p_final]. rewrite Hp, Hr, Hh.
    assert (store (length B) (x01 :: zeros (15 - length B)) (p_buffer st) =
      B ++ x01 :: zeros (15 - length B)) as ->.
    { unfold store. rewrite Ht, drop_ge by (cbn [length]; rewrite length_zeros; lia).
      by rewrite app_nil_r. }
    rewrite length_app. cbn [length]. rewrite length_zeros.
    replace ((length B + S (15 - length B)) / 16)%nat with 1%nat
      by (replace (length B + S (15 - length B))%nat with 16%nat by lia; done).
    cbn [poly1305_loop]. rewrite take_ge by (rewrite length_app; cbn [length]; rewrite length_zeros; lia).
    eexists. split; [done|]. rewrite blocks16_cons, take_ge, drop_ge by (done || lia).
    by apply last_block.
Qed.

Lemma finish_spec key data st :
  length key = 32%nat -> absorbed key data st -> poly1305_finish st = rfc_poly1305 data key.
Proof.
  intros Hk Ha. destruct (finish_accumulator key data st Hk Ha) as (h & -> & Hok & Hv).
  destruct (init_pad key Hk) as (P0 & P1 & Hpv).
  destruct (poly1305_carry_spec h Hok) as [Hc Hcv].
  destruct (poly1305_select_spec _ Hc) as [Hs Hsv].
  rewrite (surjective_pairing (p_pad _)), poly1305_mac_spec by done.
  unfold rfc_poly1305. rewrite Hsv, Hcv, Hv, Hpv, Z.mod_small by by apply rfc_fold_range. done.
Qed.

(** Feeding a message in parts is feeding it at once, and the tag of any sequence of updates is
    the tag of RFC 8439 for their concatenation. *)
Lemma poly1305_stream key parts :
  length key = 32%nat ->
  poly1305_finish (foldl poly1305_update (poly1305_init key) parts) =
  rfc_poly1305 (concat parts) key.
Proof.
  intros Hk. apply finish_spec; [done|].
  induction parts as [|m parts IH] using rev_ind; [apply init_absorbed|].
  rewrite foldl_snoc, concat_app. cbn [concat]. rewrite app_nil_r. by apply update_absorbed.
Qed.

(** Each result has 16 bytes. *)
Lemma length_poly1305_finish st : length (poly1305_finish st) = 16%nat.
Proof.
  unfold poly1305_finish, poly1305_mac.
  destruct (poly1305_select _) as [[h0 h1] h2], (p_pad _) as [t0 t1]. done.
Qed.

(** The example of section 2.5.2 of the RFC. *)
Example rfc_poly1305_vector :
  poly1305_auth (map b8 [67; 114; 121; 112; 116; 111; 103; 114; 97; 112; 104; 105; 99; 32; 70; 111; 114; 117; 109;
      32; 82; 101; 115; 101; 97; 114; 99; 104; 32; 71; 114; 111; 117; 112])
    (map b8 [133; 214; 190; 120; 87; 85; 109; 51; 127; 68; 82; 254; 66; 213; 6; 168; 1; 3; 128; 138;
      251; 13; 178; 253; 74; 191; 246; 175; 65; 73; 245; 27]) =
  map b8 [168; 6; 29; 193; 48; 81; 54; 198; 194; 43; 139; 175; 12; 1; 39; 169].
Proof. vm_compute. reflexivity. Qed.

(** C10: The limb arithmetic of the donna implementation computes Poly1305: for every 32-byte key
    and every sequence of updates, buffered blocks and the final partial block included, the tag
    is the RFC 8439 tag of the concatenated message, a polynomial modulo 2^130-5. *)
Theorem poly1305_donna_is_rfc8439 key parts :
  length key = 32%nat ->
  poly1305_finish (foldl poly1305_update (poly1305_init key) parts) =
  rfc_poly1305 (concat parts) key.
Proof. apply poly1305_stream. Qed.

Lemma poly1305_donna_is_rfc8439_witness :
  poly1305_finish (foldl poly1305_update (poly1305_init (replicate 32 xff)) [[x01]; replicate 20 x02]) =
  rfc_poly1305 (x01 :: replicate 20 x02) (replicate 32 xff).
Proof. apply (poly1305_donna_is_rfc8439 (replicate 32 xff) [[x01]; replicate 20 x02] eq_refl). Defined.
