(* ===== verification/ChaCha.v ===== *)
(** * ChaCha20 and the ChaChaPoly cipher of the vendored Noise-C

    [third_party/noise-c/src/crypto/chacha/chacha.c] (the variant without vector types, the one
    a Windows build compiles) and the reference back end
    [third_party/noise-c/src/backend/ref/cipher-chachapoly.c].  The theorems: encryption is
    exclusive or with a key stream, the cipher is the AEAD of RFC 8439 with the nonce Noise
    prescribes, and decrypting what was encrypted gives the plaintext back. *)

From Stdlib Require Import String.
From stdpp Require Import base numbers list option.
From Stdlib Require Import ZArith Lia Bool.
From Stdlib.Strings Require Import Byte.
From S2P Require Import Prelude Wire Words Poly1305.

Set Default Goal Selector "!".
#[local] Open Scope Z_scope.

(** ** ChaCha20 *)

(** [chacha_ctx]: the sixteen words of [input]. *)
Definition chacha_ctx : Type := list Z.

Definition word (s : list Z) (i : nat) : Z := nth i s 0.

Definition quarterRound (a b c d : nat) (s : list Z) : list Z :=
  let va := add32 (word s a) (word s b) in
  let vd := leftRotate (Z.lxor (word s d) va) 16 in
  let vc := add32 (word s c) vd in
  let vb := leftRotate (Z.lxor (word s b) vc) 12 in
  let va := add32 va vb in
  let vd := leftRotate (Z.lxor vd va) 8 in
  let vc := add32 vc vd in
  let vb := leftRotate (Z.lxor vb vc) 7 in
  <[a := va]> (<[b := vb]> (<[c := vc]> (<[d := vd]> s))).

(** A column round and a diagonal round. *)
Definition doubleRound (s : list Z) : list Z :=
  let s := quarterRound 3 7 11 15 (quarterRound 2 6 10 14
             (quarterRound 1 5 9 13 (quarterRound 0 4 8 12 s))) in
  quarterRound 3 4 9 14 (quarterRound 2 7 8 13
    (quarterRound 1 6 11 12 (quarterRound 0 5 10 15 s))).

(** The 20 rounds, and the input added to the output. *)
Definition chacha_core (input : list Z) : list Z :=
  zip_with add32 (Nat.iter 10 doubleRound input) input.

(** The words of a byte string, as [memcpy] and [fromLittle] read them. *)
Fixpoint words_of (n : nat) (p : list byte) : list Z :=
  match n with
  | O => []
  | S n => fromLittle (take 4 p) :: words_of n (drop 4 p)
  end.

Definition chacha_keysetup (k : list byte) (kbits : Z) : chacha_ctx :=
  if kbits =? 256
  then words_of 4 (String.list_byte_of_string "expand 32-byte k"%string) ++ words_of 8 k ++ [0; 0; 0; 0]
  else words_of 4 (String.list_byte_of_string "expand 16-byte k"%string) ++
       words_of 4 k ++ words_of 4 k ++ [0; 0; 0; 0].

Definition chacha_ivsetup (x : chacha_ctx) (iv : list byte) (counter : option (list byte))
    : chacha_ctx :=
  take 12 x ++
  match counter with
  | Some counter => words_of 2 counter
  | None => [0; 0]
  end ++ words_of 2 iv.

(** [if ((++in12) == 0) ++in13]. *)
Definition next_counter (input : list Z) : list Z :=
  let in12 := add32 (word input 12) 1 in
  let input := <[12%nat := in12]> input in
  if in12 =? 0 then <[13%nat := add32 (word input 13) 1]> input else input.

(** The sixteen output words exclusive-or'ed with 64 bytes of message, as bytes. *)
Definition xor_block (out : list Z) (m : list byte) : list byte :=
  concat (map toLittle (zip_with Z.lxor out (words_of 16 m))).

(** The loop over 64-byte blocks.  The last, partial block goes through the buffer [temp], whose
    bytes beyond the message are not copied out: they are zeros here. *)
Fixpoint chacha_loop (fuel : nat) (x : chacha_ctx) (m : list byte) : list byte * chacha_ctx :=
  match fuel, m with
  | S fuel, _ :: _ =>
      let out := chacha_core x in
      let x := next_counter x in
      if Nat.leb 64 (length m) then
        let '(rest, x) := chacha_loop fuel x (drop 64 m) in
        (xor_block out (take 64 m) ++ rest, x)
      else (take (length m) (xor_block out (m ++ zeros (64 - length m))), x)
  | _, _ => ([], x)
  end.

Definition chacha_encrypt_bytes (x : chacha_ctx) (m : list byte) : list byte * chacha_ctx :=
  chacha_loop (length m) x m.

(** ** The ChaChaPoly back end *)

Definition PUT_UINT64 (value : Z) : list byte :=
  [b8 value; b8 (Z.shiftr value 8); b8 (Z.shiftr value 16); b8 (Z.shiftr value 24);
   b8 (Z.shiftr value 32); b8 (Z.shiftr value 40); b8 (Z.shiftr value 48);
   b8 (Z.shiftr value 56)].

Definition noise_chachapoly_init_key (key : list byte) : chacha_ctx := chacha_keysetup key 256.

(** The cipher positioned after its first block, whose first half is the Poly1305 key. *)
Definition noise_chachapoly_setup (chacha : chacha_ctx) (n : Z) : chacha_ctx * poly1305_state :=
  let chacha := chacha_ivsetup chacha (PUT_UINT64 n) None in
  let '(block, chacha) := chacha_encrypt_bytes chacha (zeros 64) in
  (chacha, poly1305_init (take 32 block)).

Definition noise_chachapoly_pad_auth (st : poly1305_state) (len : nat) : poly1305_state :=
  let len := (len mod 16)%nat in
  if Nat.eqb len 0 then st else poly1305_update st (take (16 - len) (zeros 16)).

Definition noise_chachapoly_auth_lengths (st : poly1305_state) (ad_len data_len : Z)
    : poly1305_state :=
  poly1305_update st (PUT_UINT64 ad_len ++ PUT_UINT64 data_len).

(** [if (ad_len) { update; pad }]. *)
Definition authenticate_ad (st : poly1305_state) (ad : list byte) : poly1305_state :=
  match ad with
  | [] => st
  | _ => noise_chachapoly_pad_auth (poly1305_update st ad) (length ad)
  end.

(** The authenticator over a ciphertext. *)
Definition authenticate_data (st : poly1305_state) (ad data : list byte) : list byte :=
  let st := noise_chachapoly_pad_auth (poly1305_update st data) (length data) in
  poly1305_finish
    (noise_chachapoly_auth_lengths st (Z.of_nat (length ad)) (Z.of_nat (length data))).

(** Ciphertext and tag, and the ChaCha context afterwards. *)
Definition noise_chachapoly_encrypt (chacha : chacha_ctx) (n : Z) (ad data : list byte)
    : list byte * chacha_ctx :=
  let '(chacha, st) := noise_chachapoly_setup chacha n in
  let st := authenticate_ad st ad in
  let '(data, chacha) := chacha_encrypt_bytes chacha data in
  (data ++ authenticate_data st ad data, chacha).

(** [data] is the ciphertext with its tag; [None] is [NOISE_ERROR_MAC_FAILURE]. *)
Definition noise_chachapoly_decrypt (chacha : chacha_ctx) (n : Z) (ad data : list byte)
    : option (list byte) * chacha_ctx :=
  let len := (length data - 16)%nat in
  let '(chacha, st) := noise_chachapoly_setup chacha n in
  let st := authenticate_ad st ad in
  let block := authenticate_data st ad (take len data) in
  if negb (bool_decide (block = take 16 (drop len data))) then (None, chacha) else
  let '(data, chacha) := chacha_encrypt_bytes chacha (take len data) in
  (Some data, chacha).

(** ** RFC 8439 *)

(** The state of section 2.3: constants, key, a 32-bit counter and a nonce of 12 bytes. *)
Definition rfc_state (key : list byte) (counter : Z) (nonce : list byte) : list Z :=
  [1634760805; 857760878; 2036477234; 1797285236] ++ words_of 8 key ++
  [wrap 32 counter] ++ words_of 3 nonce.

Definition serialize (ws : list Z) : list byte := concat (map (le_split 4) ws).

Definition rfc_block (key : list byte) (counter : Z) (nonce : list byte) : list byte :=
  serialize (chacha_core (rfc_state key counter nonce)).

(** The key stream from block [counter] on. *)
Fixpoint rfc_keystream (blocks : nat) (key : list byte) (counter : Z) (nonce : list byte)
    : list byte :=
  match blocks with
  | O => []
  | S n => rfc_block key counter nonce ++ rfc_keystream n key (counter + 1) nonce
  end.

Definition rfc_chacha20 (key : list byte) (counter : Z) (nonce m : list byte) : list byte :=
  xor_bytes (rfc_keystream (length m / 64 + 1) key counter nonce) m.

Definition pad16 (m : list byte) : list byte :=
  m ++ zeros ((16 - length m mod 16) mod 16).

(** Section 2.8: ciphertext and tag. *)
Definition rfc_aead_tag (key nonce ad ct : list byte) : list byte :=
  rfc_poly1305 (pad16 ad ++ pad16 ct ++ le_split 8 (Z.of_nat (length ad)) ++
                le_split 8 (Z.of_nat (length ct)))
    (take 32 (rfc_block key 0 nonce)).

Definition rfc_aead_encrypt (key nonce ad pt : list byte) : list byte :=
  let ct := rfc_chacha20 key 1 nonce pt in ct ++ rfc_aead_tag key nonce ad ct.

#[global] Arguments chacha_core : simpl never.
#[global] Arguments next_counter : simpl never.
#[global] Arguments xor_block : simpl never.

(** ** Words and bytes of a block *)

Lemma length_serialize ws : length (serialize ws) = (4 * length ws)%nat.
Proof.
  unfold serialize. induction ws as [|w ws IH]; [done|]. cbn [map concat length].
  rewrite length_app, length_le_split, IH. lia.
Qed.

Lemma length_words_of n p : length (words_of n p) = n.
Proof. revert p. induction n as [|n IH]; intros p; simpl; [done|by rewrite IH]. Qed.

Lemma serialize_words n p : length p = (4 * n)%nat -> serialize (words_of n p) = p.
Proof.
  unfold serialize. revert p. induction n as [|n IH]; intros p Hp.
  - by rewrite (nil_length_inv p).
  - cbn [words_of map concat]. rewrite fromLittle_combine by (rewrite length_take; lia).
    rewrite le_split_combine, IH by (rewrite ?length_take, ?length_drop; lia). apply take_drop.
Qed.

Lemma serialize_lxor a b : length a = length b ->
  serialize (zip_with Z.lxor a b) = xor_bytes (serialize a) (serialize b).
Proof.
  unfold serialize, xor_bytes. revert b. induction a as [|x a IH]; intros [|y b] Hl; try done.
  cbn [zip_with map concat]. rewrite le_split_lxor, IH by (simpl in *; lia).
  rewrite zip_with_app by by rewrite !length_le_split. done.
Qed.

Lemma xor_block_bytes out m : length out = 16%nat -> length m = 64%nat ->
  xor_block out m = xor_bytes (serialize out) m.
Proof.
  intros Ho Hm. unfold xor_block.
  assert (map toLittle (zip_with Z.lxor out (words_of 16 m)) =
    map (le_split 4) (zip_with Z.lxor out (words_of 16 m))) as ->
    by (apply map_ext; intros; apply toLittle_split).
  change (concat (map (le_split 4) ?l)) with (serialize l).
  rewrite serialize_lxor, serialize_words by (rewrite ?length_words_of; lia). done.
Qed.

Lemma length_quarterRound a b c d s : length (quarterRound a b c d s) = length s.
Proof. unfold quarterRound. by rewrite !length_insert. Qed.

Lemma length_doubleRound s : length (doubleRound s) = length s.
Proof. unfold doubleRound. by rewrite !length_quarterRound. Qed.

Lemma length_chacha_core x : length (chacha_core x) = length x.
Proof.
  unfold chacha_core. assert (forall n, length (Nat.iter n doubleRound x) = length x) as Hi.
  { induction n as [|n IH]; [done|]. change (Nat.iter (S n) doubleRound x) with
      (doubleRound (Nat.iter n doubleRound x)). by rewrite length_doubleRound. }
  rewrite length_zip_with, Hi. lia.
Qed.

Lemma length_next_counter x : length (next_counter x) = length x.
Proof. unfold next_counter. case_match; by rewrite ?length_insert. Qed.

(** ** The key stream *)

Fixpoint keystream (blocks : nat) (x : chacha_ctx) : list byte :=
  match blocks with
  | O => []
  | S n => serialize (chacha_core x) ++ keystream n (next_counter x)
  end.

Lemma length_keystream n x : length x = 16%nat -> length (keystream n x) = (64 * n)%nat.
Proof.
  revert x. induction n as [|n IH]; intros x Hx; [done|]. cbn [keystream].
  rewrite length_app, length_serialize, length_chacha_core, IH by by rewrite length_next_counter.
  lia.
Qed.

(** Encryption is exclusive or with the key stream. *)
Lemma chacha_loop_keystream fuel x m :
  length x = 16%nat -> (length m <= fuel)%nat ->
  fst (chacha_loop fuel x m) = xor_bytes (keystream (length m / 64 + 1) x) m.
Proof.
  revert x m. induction fuel as [|fuel IH]; intros x m Hx Hf.
  { rewrite (nil_length_inv m) by lia. unfold xor_bytes. by rewrite zip_with_nil_r. }
  destruct m as [|b m']; [unfold xor_bytes; by rewrite zip_with_nil_r|].
  set (m := b :: m') in *. cbn [chacha_loop]. change (b :: m') with m.
  pose proof (length_chacha_core x) as Hc. rewrite Hx in Hc.
  destruct (Nat.leb_spec 64 (length m)) as [Hge|Hlt].
  - specialize (IH (next_counter x) (drop 64 m)).
    rewrite length_next_counter, length_drop in IH. specialize (IH Hx ltac:(change (length m) with (S (length m')) in *; lia)).
    destruct (chacha_loop fuel (next_counter x) (drop 64 m)) as [rest x']. cbn [fst] in *. subst rest.
    rewrite xor_block_bytes by (rewrite ?length_take; lia).
    replace (length m / 64 + 1)%nat with (S ((length m - 64) / 64 + 1)).
    2:{ replace (length m) with (length m - 64 + 1 * 64)%nat at 2 by lia.
        rewrite Nat.div_add by lia. lia. }
    cbn [keystream]. rewrite <- (take_drop 64 m) at 3. unfold xor_bytes.
    rewrite zip_with_app; [done|]. rewrite length_serialize, length_take. lia.
  - cbn [fst]. rewrite xor_block_bytes by (rewrite ?length_app, ?length_zeros; lia).
    rewrite Nat.div_small by lia. cbn [plus keystream]. rewrite app_nil_r.
    apply xor_bytes_prefix.
Qed.

Lemma chacha_encrypt_keystream x m :
  length x = 16%nat ->
  fst (chacha_encrypt_bytes x m) = xor_bytes (keystream (length m / 64 + 1) x) m.
Proof. intros Hx. by apply chacha_loop_keystream. Qed.

Lemma length_chacha_encrypt x m :
  length x = 16%nat -> length (fst (chacha_encrypt_bytes x m)) = length m.
Proof.
  intros Hx. rewrite chacha_encrypt_keystream, length_xor_bytes, length_keystream by done.
  pose proof (Nat.div_mod_eq (length m) 64). pose proof (Nat.mod_upper_bound (length m) 64). lia.
Qed.

(** Encrypting twice from the same context gives the message back. *)
Lemma chacha_involutive x m :
  length x = 16%nat ->
  fst (chacha_encrypt_bytes x (fst (chacha_encrypt_bytes x m))) = m.
Proof.
  intros Hx. rewrite (chacha_encrypt_keystream x (fst _)), length_chacha_encrypt by done.
  rewrite chacha_encrypt_keystream by done. apply xor_bytes_cancel.
  rewrite length_keystream by done.
  pose proof (Nat.div_mod_eq (length m) 64). pose proof (Nat.mod_upper_bound (length m) 64). lia.
Qed.

(** ** A context under a key

    Encryption changes the counter words only: what the next operation does depends on the key
    and on the nonce it is given. *)

Definition keyed (key : list byte) (x : chacha_ctx) : Prop :=
  length x = 16%nat /\ take 12 x = take 12 (noise_chachapoly_init_key key).

Lemma init_keyed key : keyed key (noise_chachapoly_init_key key).
Proof.
  split; [|done]. unfold noise_chachapoly_init_key, chacha_keysetup. rewrite Z.eqb_refl.
  by rewrite !length_app, !length_words_of.
Qed.

Lemma take_next_counter x : take 12 (next_counter x) = take 12 x.
Proof. unfold next_counter. case_match; by rewrite ?take_insert_ge by lia. Qed.

Lemma chacha_loop_context fuel x m :
  take 12 (snd (chacha_loop fuel x m)) = take 12 x /\
  length (snd (chacha_loop fuel x m)) = length x.
Proof.
  revert x m. induction fuel as [|fuel IH]; intros x m; [done|]. destruct m as [|b m]; [done|].
  cbn [chacha_loop]. destruct (Nat.leb 64 (length (b :: m))); cbn [snd];
    [|by rewrite take_next_counter, length_next_counter].
  destruct (IH (next_counter x) (drop 64 (b :: m))) as [IHt IHl].
  destruct (chacha_loop fuel (next_counter x) (drop 64 (b :: m))) as [rest x'].
  cbn [snd] in *. by rewrite IHt, IHl, take_next_counter, length_next_counter.
Qed.

Lemma length_ivsetup x iv : length x = 16%nat -> length (chacha_ivsetup x iv None) = 16%nat.
Proof. intros Hx. unfold chacha_ivsetup. by rewrite !length_app, length_take, length_words_of, Hx. Qed.

Lemma encrypt_keyed key x m : keyed key x -> keyed key (snd (chacha_encrypt_bytes x m)).
Proof.
  intros [Hl Hk]. destruct (chacha_loop_context (length m) x m) as [Ht Hlen].
  split; [by rewrite <- Hl|]. by rewrite <- Hk.
Qed.

Lemma ivsetup_keyed key x iv : keyed key x -> keyed key (chacha_ivsetup x iv None).
Proof.
  intros [Hl Hk]. split; [by apply length_ivsetup|]. unfold chacha_ivsetup.
  rewrite take_app_length' by (rewrite length_take; lia). done.
Qed.

(** The setup of a keyed context is that of the fresh one, and keyed again. *)
Lemma setup_keyed key x n : keyed key x ->
  noise_chachapoly_setup x n = noise_chachapoly_setup (noise_chachapoly_init_key key) n /\
  keyed key (fst (noise_chachapoly_setup x n)).
Proof.
  intros Hx. unfold noise_chachapoly_setup. split.
  - unfold chacha_ivsetup. by rewrite (proj2 Hx).
  - pose proof (encrypt_keyed key _ (zeros 64) (ivsetup_keyed key x (PUT_UINT64 n) Hx)) as He.
    by destruct (chacha_encrypt_bytes _ (zeros 64)) as [block x'].
Qed.

Definition seal (key : list byte) (n : Z) (ad data : list byte) : list byte :=
  fst (noise_chachapoly_encrypt (noise_chachapoly_init_key key) n ad data).
Definition open (key : list byte) (n : Z) (ad data : list byte) : option (list byte) :=
  fst (noise_chachapoly_decrypt (noise_chachapoly_init_key key) n ad data).

Lemma chachapoly_encrypt_keyed key x n ad data : keyed key x ->
  fst (noise_chachapoly_encrypt x n ad data) = seal key n ad data /\
  keyed key (snd (noise_chachapoly_encrypt x n ad data)).
Proof.
  intros Hx. unfold seal, noise_chachapoly_encrypt.
  destruct (setup_keyed key x n Hx) as [<- Hk].
  destruct (noise_chachapoly_setup x n) as [x' st]. cbn [fst] in Hk.
  pose proof (encrypt_keyed key x' data Hk) as He.
  by destruct (chacha_encrypt_bytes x' data) as [ct x''].
Qed.

Lemma chachapoly_decrypt_keyed key x n ad data : keyed key x ->
  fst (noise_chachapoly_decrypt x n ad data) = open key n ad data /\
  keyed key (snd (noise_chachapoly_decrypt x n ad data)).
Proof.
  intros Hx. unfold open, noise_chachapoly_decrypt.
  destruct (setup_keyed key x n Hx) as [<- Hk].
  destruct (noise_chachapoly_setup x n) as [x' st]. cbn [fst] in Hk.
  pose proof (encrypt_keyed key x' (take (length data - 16) data) Hk) as He.
  destruct (negb _); [done|]. by destruct (chacha_encrypt_bytes x' _) as [pt x''].
Qed.

Lemma length_authenticate_data st ad data : length (authenticate_data st ad data) = 16%nat.
Proof. apply length_poly1305_finish. Qed.

Lemma seal_length key n ad data : length (seal key n ad data) = (length data + 16)%nat.
Proof.
  unfold seal, noise_chachapoly_encrypt.
  destruct (setup_keyed key _ n (init_keyed key)) as [_ [Hl _]].
  destruct (noise_chachapoly_setup _ n) as [x st]. cbn [fst] in Hl.
  pose proof (length_chacha_encrypt x data Hl) as He.
  destruct (chacha_encrypt_bytes x data) as [ct x']. cbn [fst] in *.
  by rewrite length_app, length_authenticate_data, He.
Qed.

(** What was sealed opens to the plaintext. *)
Lemma open_of_seal key n ad data : open key n ad (seal key n ad data) = Some data.
Proof.
  unfold open, noise_chachapoly_decrypt. rewrite seal_length.
  unfold seal, noise_chachapoly_encrypt.
  destruct (setup_keyed key _ n (init_keyed key)) as [_ [Hl _]].
  destruct (noise_chachapoly_setup _ n) as [x st]. cbn [fst] in Hl.
  pose proof (chacha_involutive x data Hl) as Hi. pose proof (length_chacha_encrypt x data Hl) as He.
  destruct (chacha_encrypt_bytes x data) as [ct x']. cbn [fst] in *.
  replace (length data + 16 - 16)%nat with (length ct) by lia.
  rewrite take_app_length, drop_app_length.
  rewrite (take_ge (authenticate_data _ _ _)) by by rewrite length_authenticate_data.
  rewrite bool_decide_eq_true_2 by done. cbn [negb].
  destruct (chacha_encrypt_bytes x ct) as [pt x'']. cbn [fst] in *. by rewrite Hi.
Qed.

(** What opens is a sealing of what it opens to: a message with any other tag is refused. *)
Lemma open_only_sealed key n ad data pt :
  (16 <= length data)%nat -> open key n ad data = Some pt -> data = seal key n ad pt.
Proof.
  intros Hlen. unfold open, noise_chachapoly_decrypt, seal, noise_chachapoly_encrypt.
  destruct (setup_keyed key _ n (init_keyed key)) as [_ [Hl _]].
  destruct (noise_chachapoly_setup _ n) as [x st]. cbn [fst] in Hl.
  set (len := (length data - 16)%nat).
  destruct (decide (authenticate_data (authenticate_ad st ad) ad (take len data) =
    take 16 (drop len data))) as [Ht|Ht].
  2:{ rewrite bool_decide_eq_false_2 by done. done. }
  rewrite bool_decide_eq_true_2 by done. cbn [negb].
  pose proof (chacha_involutive x (take len data) Hl) as Hi.
  destruct (chacha_encrypt_bytes x (take len data)) as [p x']. cbn [fst] in *. intros [= <-].
  destruct (chacha_encrypt_bytes x p) as [ct x'']. cbn [fst] in *. subst ct.
  rewrite Ht, (take_ge (drop len data)) by (rewrite length_drop; lia). by rewrite take_drop.
Qed.

(** ** Agreement with RFC 8439 *)

(** The nonce of Noise: 32 zero bits and the counter in little-endian order. *)
Definition noise_nonce (n : Z) : list byte := zeros 4 ++ le_split 8 n.

Lemma PUT_UINT64_split v : PUT_UINT64 v = le_split 8 v.
Proof. apply U64TO8_split. Qed.

Lemma noise_state key n :
  chacha_ivsetup (noise_chachapoly_init_key key) (PUT_UINT64 n) None =
  rfc_state key 0 (noise_nonce n).
Proof.
  unfold chacha_ivsetup, noise_chachapoly_init_key, chacha_keysetup. rewrite Z.eqb_refl, PUT_UINT64_split.
  rewrite (app_assoc (words_of 4 _)), take_app_length' by by rewrite length_app, !length_words_of.
  unfold rfc_state, noise_nonce. by rewrite <- !app_assoc.
Qed.

Lemma rfc_next key c nonce :
  0 <= c -> c + 1 < 2 ^ 32 -> next_counter (rfc_state key c nonce) = rfc_state key (c + 1) nonce.
Proof.
  intros Hc Hb. unfold next_counter, rfc_state.
  set (pre := [1634760805; 857760878; 2036477234; 1797285236] ++ words_of 8 key).
  assert (length pre = 12%nat) as Hp by (unfold pre; by rewrite length_app, length_words_of).
  rewrite (app_assoc _ (words_of 8 key)). fold pre.
  assert (word (pre ++ [wrap 32 c] ++ words_of 3 nonce) 12 = wrap 32 c) as ->.
  { unfold word. by rewrite app_nth2, Hp by lia. }
  unfold add32. rewrite !(wrap_small 32) by (unfold in_width; rewrite ?wrap_small; unfold in_width; lia).
  destruct (Z.eqb_spec (c + 1) 0); [lia|].
  rewrite insert_app_r_alt, Hp, (wrap_small 32 (c + 1)) by (unfold in_width; lia).
  unfold pre. by rewrite <- app_assoc.
Qed.

Lemma rfc_keystream_context blocks key c nonce :
  0 <= c -> c + Z.of_nat blocks <= 2 ^ 32 ->
  keystream blocks (rfc_state key c nonce) = rfc_keystream blocks key c nonce.
Proof.
  revert c. induction blocks as [|n IH]; intros c Hc Hb; [done|].
  cbn [keystream rfc_keystream].
  assert (keystream n (next_counter (rfc_state key c nonce)) = rfc_keystream n key (c + 1) nonce)
    as ->; [|by unfold rfc_block].
  destruct n as [|n]; [done|]. rewrite rfc_next by lia. apply IH; lia.
Qed.

Lemma length_rfc_state key c nonce : length (rfc_state key c nonce) = 16%nat.
Proof. unfold rfc_state. by rewrite !length_app, !length_words_of. Qed.

Lemma chacha_one_block x m : length m = 64%nat ->
  chacha_encrypt_bytes x m = (xor_block (chacha_core x) m, next_counter x).
Proof.
  intros Hm. unfold chacha_encrypt_bytes. rewrite Hm. generalize 63%nat as fuel.
  intros fuel. destruct m as [|b m]; [done|]. set (l := b :: m) in *.
  assert (chacha_loop (S fuel) x l =
    (if Nat.leb 64 (length l) then
       let '(rest, x') := chacha_loop fuel (next_counter x) (drop 64 l) in
       (xor_block (chacha_core x) (take 64 l) ++ rest, x')
     else (take (length l) (xor_block (chacha_core x) (l ++ zeros (64 - length l))),
           next_counter x))) as -> by done.
  rewrite Hm, Nat.leb_refl, (take_ge l 64), (drop_ge l 64) by lia.
  assert (chacha_loop fuel (next_counter x) [] = ([], next_counter x)) as -> by (by destruct fuel).
  by rewrite app_nil_r.
Qed.

Lemma xor_bytes_zeros k n : length k = n -> xor_bytes k (zeros n) = k.
Proof.
  intros <-. unfold xor_bytes, zeros. induction k as [|b k IH]; [done|]. cbn [length replicate zip_with].
  rewrite IH. f_equal. apply (inj bval). by rewrite bval_bxor, Z.lxor_0_r.
Qed.

Lemma noise_setup key n :
  noise_chachapoly_setup (noise_chachapoly_init_key key) n =
  (rfc_state key 1 (noise_nonce n), poly1305_init (take 32 (rfc_block key 0 (noise_nonce n)))).
Proof.
  unfold noise_chachapoly_setup. rewrite noise_state, chacha_one_block by done.
  rewrite xor_block_bytes by (rewrite ?length_chacha_core, ?length_rfc_state; done).
  rewrite xor_bytes_zeros by (by rewrite length_serialize, length_chacha_core, length_rfc_state).
  rewrite rfc_next by lia. change (0 + 1) with 1. unfold rfc_block. reflexivity.
Qed.

Lemma pad_absorbed key pre st m :
  absorbed key (pre ++ m) st ->
  absorbed key (pre ++ pad16 m) (noise_chachapoly_pad_auth st (length m)).
Proof.
  intros Ha. unfold noise_chachapoly_pad_auth, pad16.
  pose proof (Nat.mod_upper_bound (length m) 16 ltac:(lia)).
  destruct (Nat.eqb_spec (length m mod 16) 0) as [->|Hn].
  - cbn [Nat.sub Nat.modulo]. change (zeros ((16 - 0) mod 16)) with (@nil byte). by rewrite app_nil_r.
  - rewrite (Nat.mod_small (16 - _)), app_assoc by lia. unfold zeros at 2. rewrite take_replicate.
    replace (Nat.min _ 16) with (16 - length m mod 16)%nat by lia. by apply update_absorbed.
Qed.

(** The tag of the back end is the tag of section 2.8 of the RFC. *)
Lemma authenticate_tag key ad ct :
  length key = 32%nat ->
  authenticate_data (authenticate_ad (poly1305_init key) ad) ad ct =
  rfc_poly1305 (pad16 ad ++ pad16 ct ++ le_split 8 (Z.of_nat (length ad)) ++
                le_split 8 (Z.of_nat (length ct))) key.
Proof.
  intros Hk. unfold authenticate_data, noise_chachapoly_auth_lengths. apply finish_spec; [done|].
  rewrite (PUT_UINT64_split (Z.of_nat (length ad))), (PUT_UINT64_split (Z.of_nat (length ct))).
  rewrite (app_assoc (pad16 ad)). apply update_absorbed, pad_absorbed, update_absorbed.
  destruct ad as [|b ad]; [apply init_absorbed|].
  apply (pad_absorbed key [] _ (b :: ad)), (update_absorbed key []), init_absorbed.
Qed.

Lemma seal_rfc key n ad data :
  Z.of_nat (length data) < 2 ^ 32 ->
  seal key n ad data = rfc_aead_encrypt key (noise_nonce n) ad data.
Proof.
  intros Hlen. unfold seal, noise_chachapoly_encrypt. rewrite noise_setup.
  pose proof (chacha_encrypt_keystream (rfc_state key 1 (noise_nonce n)) data
    (length_rfc_state _ _ _)) as He.
  destruct (chacha_encrypt_bytes _ data) as [ct x']. cbn [fst] in *.
  rewrite rfc_keystream_context in He.
  - unfold rfc_aead_encrypt, rfc_chacha20. rewrite He, authenticate_tag; [done|].
    unfold rfc_block.
    by rewrite length_take, length_serialize, length_chacha_core, length_rfc_state.
  - done.
  - rewrite Nat2Z.inj_add, Nat2Z.inj_div. change (Z.of_nat 64) with 64.
    assert (Z.of_nat (length data) / 64 < 2 ^ 26) by (apply Z.div_lt_upper_bound; lia). lia.
Qed.

(** The block function on the example of section 2.3.2 of the RFC. *)
Example rfc_block_vector :
  rfc_block (map (λ i, b8 (Z.of_nat i)) (seq 0 32)) 1 (map b8 [0; 0; 0; 9; 0; 0; 0; 74; 0; 0; 0; 0]) =
  map b8 [16; 241; 231; 228; 209; 59; 89; 21; 80; 15; 221; 31; 163; 32; 113; 196; 199; 209; 244;
    199; 51; 192; 104; 3; 4; 34; 170; 154; 195; 212; 108; 78; 210; 130; 100; 70; 7; 159;
    170; 9; 20; 194; 215; 5; 217; 139; 2; 162; 181; 18; 156; 209; 222; 22; 78; 185; 203;
    208; 131; 232; 162; 80; 60; 78].
Proof. vm_compute. reflexivity. Qed.


