(* ===== verification/Blake2s.v ===== *)
(** * BLAKE2s and the hash functions of the vendored Noise-C

    [third_party/noise-c/src/crypto/blake2/blake2s.c] (the variant without vector types) and the
    functions of [third_party/noise-c/src/protocol/hashstate.c] the handshake uses: hashing one or
    two strings, HMAC and HKDF.  The theorems: the streaming implementation computes the function
    of RFC 7693 whatever the split of its input, independently of what the context held before,
    and HMAC and HKDF are those of RFC 2104 and of the Noise specification over it. *)

From stdpp Require Import base numbers list option.
From Stdlib Require Import ZArith Lia Bool.
From Stdlib.Strings Require Import Byte.
From S2P Require Import Prelude Wire Words ChaCha.

Set Default Goal Selector "!".
#[local] Open Scope Z_scope.

(** ** BLAKE2s *)

Record BLAKE2s_context := mkBlake {
  b_h : list Z;
  b_m : list byte;
  b_length : Z;
  b_posn : nat;
}.

Definition BLAKE2s_IV : list Z :=
  [1779033703; 3144134277; 1013904242; 2773480762;
   1359893119; 2600822924; 528734635; 1541459225].

(** The buffer keeps its bytes. *)
Definition BLAKE2s_reset (context : BLAKE2s_context) : BLAKE2s_context :=
  mkBlake (<[0%nat := Z.lxor (word BLAKE2s_IV 0) 16842784]> BLAKE2s_IV) (b_m context) 0 0.

Definition sigma : list (list nat) :=
  [[0;  1;  2;  3;  4;  5;  6;  7;  8;  9; 10; 11; 12; 13; 14; 15];
   [14; 10;  4;  8;  9; 15; 13;  6;  1; 12;  0;  2; 11;  7;  5;  3];
   [11;  8; 12;  0;  5;  2; 15; 13; 10; 14;  3;  6;  7;  1;  9;  4];
   [7;  9;  3;  1; 13; 12; 11; 14;  2;  6;  5; 10;  4;  0; 15;  8];
   [9;  0;  5;  7;  2;  4; 10; 15; 14;  1; 11; 12;  6;  8;  3; 13];
   [2; 12;  6; 10;  0; 11;  8;  3;  4; 13;  7;  5; 15; 14;  1;  9];
   [12;  5;  1; 15; 14; 13;  4; 10;  0;  7;  6;  3;  9;  2;  8; 11];
   [13; 11;  7; 14; 12;  1;  3;  9;  5;  0; 15;  4;  8;  6;  2; 10];
   [6; 15; 14;  9; 11;  3;  0;  8; 12;  2; 13;  7;  1;  4; 10;  5];
   [10;  2;  8;  4;  7;  6;  1;  5; 15; 11;  9; 14;  3; 12; 13;  0]]%nat.

(** The macro [quarterRound(a, b, c, d, i)]. *)
Definition blake_quarterRound (m : list Z) (row : list nat) (a b c d i : nat) (v : list Z)
    : list Z :=
  let va := add32 (word v a) (add32 (word v b) (word m (nth (2 * i) row 0%nat))) in
  let vd := rightRotate (Z.lxor (word v d) va) 16 in
  let vc := add32 (word v c) vd in
  let vb := rightRotate (Z.lxor (word v b) vc) 12 in
  let va := add32 va (add32 vb (word m (nth (2 * i + 1) row 0%nat))) in
  let vd := rightRotate (Z.lxor vd va) 8 in
  let vc := add32 vc vd in
  let vb := rightRotate (Z.lxor vb vc) 7 in
  <[a := va]> (<[b := vb]> (<[c := vc]> (<[d := vd]> v))).

Definition blake_round (m : list Z) (row : list nat) (v : list Z) : list Z :=
  let q := blake_quarterRound m row in
  q 3%nat 4%nat 9%nat 14%nat 7%nat (q 2%nat 7%nat 8%nat 13%nat 6%nat
    (q 1%nat 6%nat 11%nat 12%nat 5%nat (q 0%nat 5%nat 10%nat 15%nat 4%nat
      (q 3%nat 7%nat 11%nat 15%nat 3%nat (q 2%nat 6%nat 10%nat 14%nat 2%nat
        (q 1%nat 5%nat 9%nat 13%nat 1%nat (q 0%nat 4%nat 8%nat 12%nat 0%nat v))))))).

(** The compression of a block under a byte count and a finalisation word. *)
Definition compress (h : list Z) (data : list byte) (length f0 : Z) : list Z :=
  let m := words_of 16 data in
  let v := h ++ take 4 BLAKE2s_IV ++
           [Z.lxor (word BLAKE2s_IV 4) (wrap 32 length);
            Z.lxor (word BLAKE2s_IV 5) (wrap 32 (Z.shiftr length 32));
            Z.lxor (word BLAKE2s_IV 6) f0; word BLAKE2s_IV 7] in
  let v := foldl (λ v row, blake_round m row v) v sigma in
  zip_with Z.lxor h (zip_with Z.lxor (take 8 v) (drop 8 v)).

Definition blake2s_transform (context : BLAKE2s_context) (data : list byte) (f0 : Z)
    : BLAKE2s_context :=
  mkBlake (compress (b_h context) data (b_length context) f0) (b_m context) (b_length context)
    (b_posn context).

Definition set_posn (n : nat) (c : BLAKE2s_context) : BLAKE2s_context :=
  mkBlake (b_h c) (b_m c) (b_length c) n.
Definition add_length (n : nat) (c : BLAKE2s_context) : BLAKE2s_context :=
  mkBlake (b_h c) (b_m c) (wrap 64 (b_length c + Z.of_nat n)) (b_posn c).

(** The loop; every round takes at least one byte. *)
Fixpoint blake2s_loop (fuel : nat) (context : BLAKE2s_context) (d : list byte)
    : BLAKE2s_context :=
  match fuel, d with
  | S fuel, _ :: _ =>
      let context :=
        if Nat.eqb (b_posn context) 64
        then set_posn 0 (blake2s_transform context (b_m context) 0) else context in
      if Nat.ltb 64 (length d) && Nat.eqb (b_posn context) 0 then
        blake2s_loop fuel (blake2s_transform (add_length 64 context) (take 64 d) 0) (drop 64 d)
      else
        let len := Nat.min (64 - b_posn context) (length d) in
        let m := take (b_posn context) (b_m context) ++ take len d ++
                 drop (b_posn context + len) (b_m context) in
        blake2s_loop fuel
          (add_length len (mkBlake (b_h context) m (b_length context) (b_posn context + len)))
          (drop len d)
  | _, _ => context
  end.

Definition BLAKE2s_update (context : BLAKE2s_context) (data : list byte) : BLAKE2s_context :=
  blake2s_loop (length data) context data.

(** The hash; the words are stored in little-endian order. *)
Definition BLAKE2s_finish (context : BLAKE2s_context) : list byte :=
  let m := take (b_posn context) (b_m context) ++ zeros (64 - b_posn context) in
  let context := blake2s_transform (mkBlake (b_h context) m (b_length context) (b_posn context))
                   m 4294967295 in
  serialize (b_h context).

(** A context as [calloc] leaves it. *)
Definition blake_new : BLAKE2s_context := mkBlake (replicate 8 0) (zeros 64) 0 0.

(** ** Hashing, HMAC and HKDF ([hashstate.c]) *)

(** The context of the object is reset by every one of these functions. *)
Section hashstate.
Context (state : BLAKE2s_context).

Definition hash_len : nat := 32.
Definition block_len : nat := 64.

Definition noise_hashstate_hash_one (data : list byte) : list byte :=
  BLAKE2s_finish (BLAKE2s_update (BLAKE2s_reset state) data).

Definition noise_hashstate_hash_two (data1 data2 : list byte) : list byte :=
  BLAKE2s_finish (BLAKE2s_update (BLAKE2s_update (BLAKE2s_reset state) data1) data2).

Definition HMAC_IPAD : byte := x36.
Definition HMAC_OPAD : byte := x5c.

Definition noise_hashstate_xor_key (key : list byte) (value : byte) : list byte :=
  map (λ b, bxor b value) key.

(** [data2] is null in every call of the handshake. *)
Definition noise_hashstate_hmac (key data1 : list byte) : list byte :=
  let key_block :=
    if Nat.leb (length key) block_len then key ++ zeros (block_len - length key)
    else noise_hashstate_hash_one key ++ zeros (block_len - hash_len) in
  let key_block := noise_hashstate_xor_key key_block HMAC_IPAD in
  let hash := noise_hashstate_hash_two key_block data1 in
  let key_block := noise_hashstate_xor_key key_block (bxor HMAC_IPAD HMAC_OPAD) in
  noise_hashstate_hash_two key_block hash.

(** The two outputs; the length checks of the C function, whose callers ask for at most
    [hash_len] bytes of each, are those of its first branch. *)
Definition noise_hashstate_hkdf (key data : list byte) (output1_len output2_len : nat)
    : option (list byte * list byte) :=
  if Nat.ltb hash_len output1_len || Nat.ltb hash_len output2_len then None else
  let temp_key := noise_hashstate_hmac key data in
  let temp_hash := noise_hashstate_hmac temp_key [x01] in
  let output1 := take output1_len temp_hash in
  let temp_hash := noise_hashstate_hmac temp_key (temp_hash ++ [x02]) in
  Some (output1, take output2_len temp_hash).
End hashstate.

(** ** The reference: RFC 7693 *)

(** Whole blocks of 64 bytes, then the last block padded with zeros (an empty input is one block
    of zeros), each under the number of bytes up to its end. *)
Fixpoint rfc7693 (fuel : nat) (h : list Z) (t : Z) (data : list byte) : list Z :=
  match fuel with
  | O => h
  | S fuel =>
      if Nat.leb (length data) 64
      then compress h (data ++ zeros (64 - length data)) (t + Z.of_nat (length data)) 4294967295
      else rfc7693 fuel (compress h (take 64 data) (t + 64) 0) (t + 64) (drop 64 data)
  end.

Definition blake_init : list Z := <[0%nat := Z.lxor (word BLAKE2s_IV 0) 16842784]> BLAKE2s_IV.

Definition blake2s (data : list byte) : list byte :=
  serialize (rfc7693 (S (length data)) blake_init 0 data).

#[global] Arguments compress : simpl never.
#[global] Arguments blake_init : simpl never.

(** ** Streaming *)

(** The byte count matters modulo 2^64 only. *)
Lemma compress_wrap h data l f0 : compress h data (wrap 64 l) f0 = compress h data l f0.
Proof.
  unfold compress.
  assert (wrap 32 (wrap 64 l) = wrap 32 l) as ->.
  { unfold wrap. change (2 ^ 64) with (2 ^ 32 * 2 ^ 32).
    rewrite Z.rem_mul_r, Z.mul_comm, Z.mod_add, Z.mod_mod by lia. done. }
  assert (wrap 32 (Z.shiftr (wrap 64 l) 32) = wrap 32 (Z.shiftr l 32)) as ->; [|done].
  unfold wrap. rewrite !Z.shiftr_div_pow2 by lia. change (2 ^ 64) with (2 ^ 32 * 2 ^ 32).
  rewrite Z.rem_mul_r by lia. rewrite Z.add_comm, Z.mul_comm, Z.div_add_l by lia.
  rewrite (Z.div_small (l mod 2 ^ 32)) by (apply Z.mod_pos_bound; lia).
  by rewrite Z.add_0_r, Z.mod_mod by lia.
Qed.

Lemma compress_count h data l l' f0 : l = l' -> compress h data l f0 = compress h data l' f0.
Proof. by intros ->. Qed.

Lemma length_blake_quarterRound m row a b c d i v :
  length (blake_quarterRound m row a b c d i v) = length v.
Proof. unfold blake_quarterRound. by rewrite !length_insert. Qed.

Lemma length_blake_rounds m rows v :
  length (foldl (λ v row, blake_round m row v) v rows) = length v.
Proof.
  revert v. induction rows as [|row rows IH]; intros v; [done|]. cbn [foldl]. rewrite IH.
  unfold blake_round. by rewrite !length_blake_quarterRound.
Qed.

Lemma length_compress h data l f0 : length h = 8%nat -> length (compress h data l f0) = 8%nat.
Proof.
  intros Hh. unfold compress.
  by rewrite !length_zip_with, length_take, length_drop, length_blake_rounds, !length_app, Hh.
Qed.

#[global] Opaque compress.

Fixpoint whole_blocks (q : nat) (h : list Z) (t : Z) (F : list byte) : list Z :=
  match q with
  | O => h
  | S q => whole_blocks q (compress h (take 64 F) (t + 64) 0) (t + 64) (drop 64 F)
  end.

Lemma whole_blocks_snoc q h t F B :
  length F = (64 * q)%nat -> length B = 64%nat ->
  whole_blocks (S q) h t (F ++ B) =
  compress (whole_blocks q h t F) B (t + 64 * Z.of_nat (S q)) 0.
Proof.
  revert h t F. induction q as [|q IH]; intros h t F HF HB.
  - rewrite (nil_length_inv F) by lia. cbn [app whole_blocks]. rewrite take_ge by lia.
    apply compress_count. lia.
  - change (whole_blocks (S (S q)) h t (F ++ B)) with
      (whole_blocks (S q) (compress h (take 64 (F ++ B)) (t + 64) 0) (t + 64) (drop 64 (F ++ B))).
    rewrite take_app_le, drop_app_le by lia.
    rewrite IH by (rewrite ?length_drop; lia). cbn [whole_blocks].
    replace (t + 64 + 64 * Z.of_nat (S q)) with (t + 64 * Z.of_nat (S (S q))) by lia. done.
Qed.

(** The context has taken in [q] blocks [F] and buffers [L]. *)
Definition holds (q : nat) (F L : list byte) (c : BLAKE2s_context) : Prop :=
  length F = (64 * q)%nat /\ (length L <= 64)%nat /\ b_h c = whole_blocks q blake_init 0 F /\
  b_length c = wrap 64 (Z.of_nat (length (F ++ L))) /\ b_posn c = length L /\
  length (b_m c) = 64%nat /\ take (length L) (b_m c) = L.

(** It has taken in [data], whose last block is still in the buffer. *)
Definition blake_absorbed (data : list byte) (c : BLAKE2s_context) : Prop :=
  exists q F L, data = F ++ L /\ holds q F L c /\ (L = [] -> F = []).

Lemma wrap_add_l w x y : 0 <= w -> wrap w (wrap w x + y) = wrap w (x + y).
Proof. intros Hw. unfold wrap. by rewrite Zplus_mod_idemp_l. Qed.

(** A full buffer is compressed when more input follows. *)
Lemma holds_flush q F L c :
  holds q F L c -> exists q' F' L',
    F ++ L = F' ++ L' /\ (length L' < 64)%nat /\
    holds q' F' L' (if Nat.eqb (b_posn c) 64
                    then set_posn 0 (blake2s_transform c (b_m c) 0) else c).
Proof.
  intros (HF & HL & Hh & Hl & Hp & Hm & Ht). destruct (Nat.eqb_spec (b_posn c) 64) as [E|E].
  - exists (S q), (F ++ L), []. rewrite app_nil_r. split; [done|]. split; [simpl; lia|].
    assert (length L = 64%nat) as HL64 by lia. rewrite HL64, take_ge in Ht by lia.
    unfold holds. rewrite app_nil_r, length_app. cbn [b_h b_m b_length b_posn set_posn blake2s_transform].
    split_and!; try done; try (cbn [length]; lia).
    + rewrite whole_blocks_snoc by done. rewrite Hh, Ht, Hl, compress_wrap, length_app.
      apply compress_count. lia.
    + by rewrite Hl, length_app.
  - exists q, F, L. split; [done|]. split; [lia|]. done.
Qed.

(** A block that goes through directly. *)
Lemma holds_direct q F c d :
  holds q F [] c -> (64 <= length d)%nat ->
  holds (S q) (F ++ take 64 d) [] (blake2s_transform (add_length 64 c) (take 64 d) 0).
Proof.
  intros (HF & _ & Hh & Hl & Hp & Hm & _) Hd. rewrite app_nil_r in Hl.
  assert (length (take 64 d) = 64%nat) as H64 by (rewrite length_take; lia).
  unfold holds. rewrite app_nil_r, length_app.
  cbn [b_h b_m b_length b_posn add_length blake2s_transform].
  assert (wrap 64 (b_length c + Z.of_nat 64) = wrap 64 (Z.of_nat (length F + length (take 64 d))))
    as Hlen by (rewrite Hl, wrap_add_l by lia; f_equal; lia).
  split_and!; try done; try (cbn [length]; lia).
  rewrite whole_blocks_snoc, Hlen, compress_wrap, Hh by done. apply compress_count. lia.
Qed.

(** Input that is buffered. *)
Lemma holds_buffer q F L c d :
  holds q F L c -> (length L < 64)%nat ->
  let len := Nat.min (64 - b_posn c) (length d) in
  holds q F (L ++ take len d)
    (add_length len (mkBlake (b_h c)
       (take (b_posn c) (b_m c) ++ take len d ++ drop (b_posn c + len) (b_m c))
       (b_length c) (b_posn c + len))).
Proof.
  intros (HF & HL & Hh & Hl & Hp & Hm & Ht) Hlt len.
  assert (length (take len d) = len) as Hlen by (rewrite length_take; lia).
  unfold holds. cbn [b_h b_m b_length b_posn add_length].
  rewrite Hp, Ht in *. rewrite !length_app, Hlen. split_and!; try done; try lia.
  - rewrite Hl, wrap_add_l, length_app by lia. f_equal. lia.
  - rewrite length_drop. lia.
  - rewrite app_assoc, take_app_length'; [done|]. by rewrite length_app, Hlen.
Qed.

Lemma blake_loop_absorbed fuel c q F L d :
  (length d <= fuel)%nat -> holds q F L c -> (d = [] -> L = [] -> F = []) ->
  blake_absorbed (F ++ L ++ d) (blake2s_loop fuel c d).
Proof.
  revert c q F L d. induction fuel as [|fuel IH]; intros c q F L d Hd Hc Hend.
  { assert (d = []) as -> by (apply nil_length_inv; lia). rewrite app_nil_r.
    exists q, F, L. auto. }
  destruct d as [|b d']; [rewrite app_nil_r; exists q, F, L; by auto|].
  set (d := b :: d') in *. assert (d <> []) as Hne by done.
  assert (0 < length d)%nat as Hpos by (simpl; lia). clearbody d.
  destruct (holds_flush q F L c Hc) as (q' & F' & L' & E & HL' & Hc').
  rewrite app_assoc, E, <- app_assoc. destruct d as [|b0 d0]; [done|]. cbn [blake2s_loop].
  set (d := b0 :: d0) in *. set (c' := if Nat.eqb (b_posn c) 64 then _ else c) in *. clearbody c'.
  assert (blake_absorbed (F' ++ L' ++ d)
    (let len := Nat.min (64 - b_posn c') (length d) in
     blake2s_loop fuel (add_length len (mkBlake (b_h c')
       (take (b_posn c') (b_m c') ++ take len d ++ drop (b_posn c' + len) (b_m c'))
       (b_length c') (b_posn c' + len))) (drop len d))) as Hbuffer.
  { pose proof (holds_buffer q' F' L' c' d Hc' HL') as Hn. cbv zeta in *.
    set (len := Nat.min (64 - b_posn c') (length d)) in *.
    rewrite <- (take_drop len d) at 1. rewrite (app_assoc L').
    destruct Hc' as (_ & _ & _ & _ & Hp & _).
    apply (IH _ q'); [rewrite length_drop; lia|exact Hn|]. intros _ Hnil.
    apply (f_equal length) in Hnil. rewrite length_app, length_take in Hnil.
    change (length []) with 0%nat in Hnil. lia. }
  destruct (Nat.ltb_spec 64 (length d)) as [Hgt|Hle]; [|exact Hbuffer].
  destruct (Nat.eqb_spec (b_posn c') 0) as [H0|H0]; [|exact Hbuffer]. cbn [andb].
  assert (L' = []) as -> by (apply nil_length_inv; destruct Hc' as (_ & _ & _ & _ & Hp & _); lia).
  pose proof (holds_direct q' F' c' d Hc' ltac:(lia)) as Hn. cbn [app].
  rewrite <- (take_drop 64 d) at 1. rewrite (app_assoc F').
  apply (IH _ _ _ [] (drop 64 d)) in Hn; [done|rewrite length_drop; lia|].
  intros Hdrop. apply (f_equal length) in Hdrop. rewrite length_drop in Hdrop.
  change (length []) with 0%nat in Hdrop. lia.
Qed.

Lemma rfc7693_blocks q h t F L fuel :
  length F = (64 * q)%nat -> (length L <= 64)%nat -> (L = [] -> F = []) ->
  (length (F ++ L) < fuel)%nat ->
  rfc7693 fuel h t (F ++ L) =
  compress (whole_blocks q h t F) (L ++ zeros (64 - length L))
    (t + 64 * Z.of_nat q + Z.of_nat (length L)) 4294967295.
Proof.
  revert h t F fuel. induction q as [|q IH]; intros h t F fuel HF HL Hne Hfuel;
    (destruct fuel as [|fuel]; [lia|]).
  - rewrite (nil_length_inv F) by lia. cbn [app rfc7693 whole_blocks].
    rewrite (proj2 (Nat.leb_le _ _)) by done. apply compress_count. lia.
  - assert (L <> []) as HLne.
    { intros E. rewrite (Hne E) in HF. cbn in HF. lia. }
    assert (0 < length L)%nat by (destruct L; [done|simpl; lia]).
    rewrite length_app in Hfuel. cbn [rfc7693 whole_blocks].
    rewrite (proj2 (Nat.leb_gt _ _)) by (rewrite length_app; lia).
    rewrite take_app_le, drop_app_le by lia.
    rewrite IH; [|rewrite length_drop; lia|done|done|rewrite length_app, length_drop; lia].
    apply compress_count. lia.
Qed.

Lemma finish_absorbed data c : blake_absorbed data c -> BLAKE2s_finish c = blake2s data.
Proof.
  intros (q & F & L & -> & (HF & HL & Hh & Hl & Hp & Hm & Ht) & Hne).
  unfold BLAKE2s_finish, blake2s. f_equal. cbn [blake2s_transform b_h b_length].
  rewrite (rfc7693_blocks q) by (done || lia). rewrite Hp, Ht, Hl, compress_wrap, Hh.
  apply compress_count. rewrite length_app. lia.
Qed.

Lemma update_blake_absorbed data c d :
  blake_absorbed data c -> blake_absorbed (data ++ d) (BLAKE2s_update c d).
Proof.
  intros (q & F & L & -> & Hc & Hne). rewrite <- app_assoc. unfold BLAKE2s_update.
  eapply blake_loop_absorbed; [done|exact Hc|auto].
Qed.

Lemma reset_blake_absorbed c : length (b_m c) = 64%nat -> blake_absorbed [] (BLAKE2s_reset c).
Proof.
  intros Hm. exists 0%nat, [], []. unfold holds.
  cbn [app length BLAKE2s_reset b_h b_m b_length b_posn]. split_and!; done || lia.
Qed.

(** Feeding a string in parts, after a reset of any context. *)
Lemma blake2s_stream c parts :
  length (b_m c) = 64%nat ->
  BLAKE2s_finish (foldl BLAKE2s_update (BLAKE2s_reset c) parts) = blake2s (concat parts).
Proof.
  intros Hm. apply finish_absorbed.
  induction parts as [|d parts IH] using rev_ind; [by apply reset_blake_absorbed|].
  rewrite foldl_snoc, concat_app. cbn [concat]. rewrite app_nil_r. by apply update_blake_absorbed.
Qed.

Lemma length_rfc7693 fuel h t data : length h = 8%nat -> length (rfc7693 fuel h t data) = 8%nat.
Proof.
  revert h t data. induction fuel as [|fuel IH]; intros h t data Hh; [done|]. cbn [rfc7693].
  destruct (Nat.leb _ _); [by apply length_compress|]. by apply IH, length_compress.
Qed.

Lemma length_blake2s data : length (blake2s data) = 32%nat.
Proof. unfold blake2s. by rewrite length_serialize, length_rfc7693. Qed.

(** ** HMAC and HKDF *)

(** RFC 2104. *)
Definition hmac_key (key : list byte) : list byte :=
  let k := if Nat.leb (length key) 64 then key else blake2s key in k ++ zeros (64 - length k).
Definition hmac (key data : list byte) : list byte :=
  blake2s (map (λ b, bxor b x5c) (hmac_key key) ++
           blake2s (map (λ b, bxor b x36) (hmac_key key) ++ data)).

(** The Noise specification, section 4.3. *)
Definition hkdf (key data : list byte) : list byte * list byte :=
  let temp := hmac key data in
  let out1 := hmac temp [x01] in
  (out1, hmac temp (out1 ++ [x02])).

Lemma length_hmac key data : length (hmac key data) = 32%nat.
Proof. apply length_blake2s. Qed.

Section hashstate_spec.
Context (state : BLAKE2s_context) (Hstate : length (b_m state) = 64%nat).

Lemma hash_one_spec data : noise_hashstate_hash_one state data = blake2s data.
Proof.
  unfold noise_hashstate_hash_one. pose proof (blake2s_stream state [data] Hstate) as Hs.
  cbn [foldl concat] in Hs. by rewrite app_nil_r in Hs.
Qed.

Lemma hash_two_spec data1 data2 :
  noise_hashstate_hash_two state data1 data2 = blake2s (data1 ++ data2).
Proof.
  unfold noise_hashstate_hash_two. pose proof (blake2s_stream state [data1; data2] Hstate) as Hs.
  cbn [foldl concat] in Hs. by rewrite app_nil_r in Hs.
Qed.

Lemma hmac_spec key data : noise_hashstate_hmac state key data = hmac key data.
Proof.
  unfold noise_hashstate_hmac, hmac, hmac_key, noise_hashstate_xor_key, block_len, hash_len.
  rewrite !hash_two_spec, hash_one_spec, map_map.
  assert (forall b, bxor (bxor b HMAC_IPAD) (bxor HMAC_IPAD HMAC_OPAD) = bxor b x5c) as Hx.
  { intros b. apply (inj bval). rewrite !bval_bxor. rewrite Z.lxor_assoc.
    rewrite <- (Z.lxor_assoc (bval HMAC_IPAD)), Z.lxor_nilpotent, Z.lxor_0_l. done. }
  rewrite (map_ext _ _ Hx). destruct (Nat.leb (length key) 64); [done|].
  by rewrite length_blake2s.
Qed.

Lemma hkdf_spec key data n1 n2 :
  (n1 <= 32)%nat -> (n2 <= 32)%nat ->
  noise_hashstate_hkdf state key data n1 n2 =
  Some (take n1 (hkdf key data).1, take n2 (hkdf key data).2).
Proof.
  intros H1 H2. unfold noise_hashstate_hkdf, hash_len.
  rewrite !(proj2 (Nat.ltb_ge _ _)) by done. cbn [orb]. by rewrite !hmac_spec.
Qed.
End hashstate_spec.

(** The digest of [abc], appendix B of RFC 7693. *)
Example rfc7693_vector :
  blake2s (map b8 [97; 98; 99]) =
  map b8 [80; 140; 94; 140; 50; 124; 20; 226; 225; 167; 43; 163; 78; 235; 69; 47; 55; 69; 139; 32;
    158; 214; 58; 41; 77; 153; 155; 76; 134; 103; 89; 130].
Proof. vm_compute. reflexivity. Qed.

#[global] Opaque blake2s.
