(* ===== verification/Packet.v ===== *)
(** * Packet headers, the MTU contract and inner IPv4 packets

    [include/aegis/packet/header.hpp], [include/aegis/packet/mtu.hpp],
    [include/aegis/packet/packet.hpp] and [src/packet/packet.cpp]. *)

From stdpp Require Import base numbers list option.
From Stdlib Require Import ZArith Lia Bool.
From Stdlib.Strings Require Import Byte.
From S2P Require Import Prelude Wire.

(** ** Packet header *)

Record PacketHeader := mkPacketHeader {
  version : Z;
  packet_type : Z;
  flags : Z;
  reserved : Z;
  session_id : Z;
  sequence_number : Z;
  payload_length : Z;
}.

Definition PACKET_VERSION : Z := 2.
Definition TYPE_HANDSHAKE_INIT : Z := 0.
Definition TYPE_HANDSHAKE_RESP : Z := 1.
Definition TYPE_DATA : Z := 2.
Definition TYPE_KEEPALIVE : Z := 3.
Definition TYPE_DISCOVERY : Z := 4.
Definition TYPE_PEER_TABLE : Z := 5.
Definition TYPE_RELAY : Z := 6.
Definition TYPE_CHAT_MSG : Z := 7.
Definition TYPE_FILE_HEADER : Z := 8.
Definition TYPE_FILE_CHUNK : Z := 9.
Definition TYPE_FILE_ACK : Z := 10.
Definition TYPE_NETWORK_TEARDOWN : Z := 11.
Definition TYPE_HANDSHAKE_COOKIE : Z := 12.
Definition TYPE_FILE_CANCEL : Z := 13.
Definition TYPE_PATH_PROBE : Z := 14.
Definition TYPE_ENDPOINT_CANDIDATES : Z := 15.
Definition TYPE_ENDPOINT_PUNCH : Z := 16.
Definition TYPE_MEMBERSHIP_REVOCATION : Z := 17.
Definition FLAG_RELAY : Z := 1.
Definition FLAG_FRAGMENTED : Z := 2.
Definition PACKET_KNOWN_FLAGS : Z := Z.lor FLAG_RELAY FLAG_FRAGMENTED.

Definition PACKET_HEADER_SIZE : Z := 16.
Definition SESSION_MAX_PAYLOAD_SIZE : Z := 4096.
Definition SESSION_PADDING_BUCKET_SIZE : Z := 64.
Definition SESSION_PADDING_BUCKET_MIN : Z := 32.
Definition SESSION_PADDING_BUCKET_MAX : Z := 256.
Definition SESSION_LENGTH_PREFIX_SIZE : Z := 4.
Definition SESSION_MAX_LOGICAL_PAYLOAD_SIZE : Z :=
  SESSION_MAX_PAYLOAD_SIZE - SESSION_LENGTH_PREFIX_SIZE.

(** The fields hold values of their C++ types. *)
Definition header_wf (h : PacketHeader) : Prop :=
  u8 (version h) /\ u8 (packet_type h) /\ u8 (flags h) /\ u8 (reserved h) /\
  u32 (session_id h) /\ u32 (sequence_number h) /\ u32 (payload_length h).

Definition write_packet_header (h : PacketHeader) : WriteOp :=
  write_u8 (version h) &> write_u8 (packet_type h) &> write_u8 (flags h) &>
  write_u8 (reserved h) &> write_u32 (session_id h) &>
  write_u32 (sequence_number h) &> write_u32 (payload_length h).

(** The result of the chain is discarded: the array is returned in any case. *)
Definition serialize_packet_header (h : PacketHeader) : list byte :=
  let '(_, w) := write_packet_header h (wire_writer (zeros 16)) in wr_bytes w.

Definition parse_packet_header (bytes : list byte) : option PacketHeader :=
  let r := wire_reader bytes in
  let '(version, r) := read_u8 r in
  let '(packet_type, r) := read_u8 r in
  let '(flags, r) := read_u8 r in
  let '(reserved, r) := read_u8 r in
  let '(session_id, r) := read_u32 r in
  let '(sequence_number, r) := read_u32 r in
  let '(payload_length, r) := read_u32 r in
  match version, packet_type, flags, reserved, session_id, sequence_number,
        payload_length with
  | Some version, Some packet_type, Some flags, Some reserved, Some session_id,
    Some sequence_number, Some payload_length =>
      if rd_finished r then
        Some (mkPacketHeader version packet_type flags reserved session_id
                sequence_number payload_length)
      else None
  | _, _, _, _, _, _, _ => None
  end.

(** The byte layout of a header. *)
Definition header_bytes (h : PacketHeader) : list byte :=
  be_split 1 (version h) ++ be_split 1 (packet_type h) ++ be_split 1 (flags h) ++
  be_split 1 (reserved h) ++ be_split 4 (session_id h) ++
  be_split 4 (sequence_number h) ++ be_split 4 (payload_length h).

Lemma length_header_bytes h : length (header_bytes h) = 16%nat.
Proof. done. Qed.

Lemma serialize_packet_header_bytes h : serialize_packet_header h = header_bytes h.
Proof.
  unfold serialize_packet_header. rewrite wire_writer_at.
  assert (Emits (write_packet_header h) (header_bytes h))
    by (unfold write_packet_header, header_bytes; solve_emits).
  by rewrite emits_ok.
Qed.

Lemma parse_packet_header_ok h :
  header_wf h -> parse_packet_header (header_bytes h) = Some h.
Proof.
  intros (? & ? & ? & ? & ? & ? & ?). unfold parse_packet_header, header_bytes.
  rewrite wire_reader_at. rewrite <- (app_nil_r (be_split 4 (payload_length h))).
  rd_run. rewrite rd_finished_at. by destruct h.
Qed.

Lemma parse_packet_header_inv bs h :
  parse_packet_header bs = Some h -> header_wf h /\ bs = header_bytes h.
Proof.
  unfold parse_packet_header. rewrite wire_reader_at. intros H.
  do 7 rd_inv_step H. rewrite rd_finished_at in H.
  case_bool_decide; [|done]. subst. injection H as <-.
  split; [done|]. unfold header_bytes; simpl. done.
Qed.

(** ** Session padding and the MTU contract *)

Definition is_supported_session_padding_bucket (bucket_size : Z) : bool :=
  (bucket_size =? 32) || (bucket_size =? 64) || (bucket_size =? 128) ||
  (bucket_size =? 256).

Definition session_max_padding_for_bucket (bucket_size : Z) : Z :=
  if is_supported_session_padding_bucket bucket_size then bucket_size - 1 else 0.

Definition session_frame_overhead (bucket_size : Z) : Z :=
  PACKET_HEADER_SIZE + 12 + 16 + SESSION_LENGTH_PREFIX_SIZE +
  session_max_padding_for_bucket bucket_size.

(** [size_t] arithmetic is 64-bit. *)
Definition session_padded_plaintext_size (logical_payload_size bucket_size : Z) : Z :=
  if is_supported_session_padding_bucket bucket_size then
    let prefixed_size := wrap 64 (logical_payload_size + SESSION_LENGTH_PREFIX_SIZE) in
    wrap 64 (wrap 64 (prefixed_size + bucket_size - 1) / bucket_size * bucket_size)
  else 0.

Definition ONION_OVERHEAD : Z := 12 + 16 + 32.
Definition ONION_MAX_HOPS : Z := 8.
Definition DIRECT_ROUTE_DEPTH : Z := 1.
Definition MINIMUM_IPV4_MTU : Z := 576.
Definition MAXIMUM_IPV4_MTU : Z := 65535.
Definition OUTER_IPV4_UDP_OVERHEAD : Z := 20 + 8.
Definition RELAY_SOURCE_OVERHEAD : Z := 32 + 1.

Definition wire_overhead_for_route_depth (route_depth padding_bucket_size : Z)
    : option Z :=
  if (route_depth <? DIRECT_ROUTE_DEPTH) || (ONION_MAX_HOPS <? route_depth) ||
     negb (is_supported_session_padding_bucket padding_bucket_size)
  then None
  else
    let overhead := OUTER_IPV4_UDP_OVERHEAD +
                    session_frame_overhead padding_bucket_size in
    if DIRECT_ROUTE_DEPTH <? route_depth
    then Some (overhead + (RELAY_SOURCE_OVERHEAD + route_depth * ONION_OVERHEAD))
    else Some overhead.

Definition safe_overlay_mtu (underlay_mtu route_depth padding_bucket_size : Z)
    : option Z :=
  if MAXIMUM_IPV4_MTU <? underlay_mtu then None
  else
    match wire_overhead_for_route_depth route_depth padding_bucket_size with
    | None => None
    | Some overhead =>
        if underlay_mtu <? overhead + MINIMUM_IPV4_MTU then None
        else Some (underlay_mtu - overhead)
    end.

Lemma supported_bucket_cases b :
  is_supported_session_padding_bucket b = true ->
  b = 32 \/ b = 64 \/ b = 128 \/ b = 256.
Proof. unfold is_supported_session_padding_bucket. lia. Qed.

(** For every payload a session accepts the padded size is the least multiple of
    the bucket that holds the length prefix and the payload. *)
Lemma padded_size_spec n b :
  is_supported_session_padding_bucket b = true ->
  0 <= n <= SESSION_MAX_LOGICAL_PAYLOAD_SIZE ->
  let p := session_padded_plaintext_size n b in
  p mod b = 0 /\ n + 4 <= p < n + 4 + b /\ b <= p <= SESSION_MAX_PAYLOAD_SIZE.
Proof.
  intros Hb Hn. unfold session_padded_plaintext_size. rewrite Hb.
  unfold SESSION_MAX_LOGICAL_PAYLOAD_SIZE, SESSION_MAX_PAYLOAD_SIZE,
    SESSION_LENGTH_PREFIX_SIZE in *.
  pose proof (supported_bucket_cases b Hb) as Hc.
  cbv zeta. rewrite (wrap_small 64 (n + 4)) by (unfold in_width; lia).
  rewrite (wrap_small 64 (n + 4 + b - 1)) by (unfold in_width; lia).
  pose proof (Z.div_mod (n + 4 + b - 1) b ltac:(lia)) as Hd.
  pose proof (Z.mod_pos_bound (n + 4 + b - 1) b ltac:(lia)) as Hm.
  assert (4096 mod b = 0) as H4096 by (destruct Hc as [->|[->|[->| ->]]]; done).
  rewrite wrap_small by (unfold in_width; lia).
  rewrite Z.mod_mul by lia.
  pose proof (Z.div_mod 4096 b ltac:(lia)) as Hd'. rewrite H4096 in Hd'.
  set (q := (n + 4 + b - 1) / b) in *. set (q' := 4096 / b) in *.
  assert (q <= q') by nia. nia.
Qed.

(** ** Inner IPv4 packets *)

(** The [while] loop folding the carries of the checksum; [None] when [fuel]
    iterations do not reach its exit. *)
Fixpoint fold_carries (fuel : nat) (sum : Z) : option Z :=
  if Z.shiftr sum 16 =? 0 then Some sum
  else match fuel with
       | O => None
       | S fuel => fold_carries fuel (Z.land sum 65535 + Z.shiftr sum 16)
       end.

(** The first loop: 16-bit words as a little-endian host loads them, then the
    odd byte, accumulated in a [uint32_t]. *)
Fixpoint checksum_words (bs : list byte) (sum : Z) : Z :=
  match bs with
  | a :: b :: bs => checksum_words bs (wrap 32 (sum + (bval a + 256 * bval b)))
  | [a] => wrap 32 (sum + bval a)
  | [] => sum
  end.

Definition ip_checksum (bs : list byte) : option Z :=
  match fold_carries 3 (checksum_words bs 0) with
  | Some sum => Some (wrap 16 sum)
  | None => None
  end.

Record IPPacket := mkIPPacket {
  version_ihl : Z;
  dscp_ecn : Z;
  total_length : Z;
  identification : Z;
  flags_fragment_offset : Z;
  ttl : Z;
  protocol : Z;
  header_checksum : Z;
  source_ip : Z;
  dest_ip : Z;
  payload : list byte;
  ip_payload_length : Z;
}.

Definition be16 (data : list byte) (i : nat) : Z :=
  Z.lor (Z.shiftl (at_ data i) 8) (at_ data (i + 1)).

Definition be32 (data : list byte) (i : nat) : Z :=
  Z.lor (Z.lor (Z.lor (Z.shiftl (at_ data i) 24) (Z.shiftl (at_ data (i + 1)) 16))
               (Z.shiftl (at_ data (i + 2)) 8))
        (at_ data (i + 3)).

(** [IPPacket::parse]: the payload pointer and length are the slice they
    denote. *)
Definition IPPacket_parse (data : list byte) : option IPPacket :=
  let len := Z.of_nat (length data) in
  if len <? 20 then None else
  let ver := Z.shiftr (at_ data 0) 4 in
  if negb (ver =? 4) then None else
  let ihl := Z.land (at_ data 0) 15 in
  if ihl <? 5 then None else
  let header_len := ihl * 4 in
  if len <? header_len then None else
  let total_len := be16 data 2 in
  if (total_len <? header_len) || (len <? total_len) then None else
  if negb (bool_decide (ip_checksum (take (Z.to_nat header_len) data) = Some 65535))
  then None else
  Some {| version_ihl := at_ data 0;
          dscp_ecn := at_ data 1;
          total_length := total_len;
          identification := be16 data 4;
          flags_fragment_offset := be16 data 6;
          ttl := at_ data 8;
          protocol := at_ data 9;
          header_checksum := be16 data 10;
          source_ip := be32 data 12;
          dest_ip := be32 data 16;
          payload := take (Z.to_nat (total_len - header_len))
                       (drop (Z.to_nat header_len) data);
          ip_payload_length := total_len - header_len |}.

Inductive InnerPacketStatus := Valid | Invalid | Oversize.

(** [data] is [None] for a null pointer; [len] is the length argument. *)
Definition validate_inner_ipv4_packet (data : option (list byte)) (len mtu : Z)
    : InnerPacketStatus :=
  if mtu <? len then Oversize
  else match data with
       | None => Invalid
       | Some data =>
           match IPPacket_parse data with
           | None => Invalid
           | Some packet =>
               if negb (total_length packet =? len) then Invalid else Valid
           end
       end.

(** ** The Internet checksum against RFC 1071 *)

(** The sum of the 16-bit words in network byte order, an odd byte padded with a
    zero byte on the right. *)
Fixpoint rfc1071_sum (bs : list byte) : Z :=
  match bs with
  | a :: b :: bs => 256 * bval a + bval b + rfc1071_sum bs
  | [a] => 256 * bval a
  | [] => 0
  end.

Fixpoint le_words_sum (bs : list byte) : Z :=
  match bs with
  | a :: b :: bs => bval a + 256 * bval b + le_words_sum bs
  | [a] => bval a
  | [] => 0
  end.

(** Induction two bytes at a time. *)
Lemma pairs_ind (P : list byte -> Prop) :
  P [] -> (forall a, P [a]) -> (forall a b bs, P bs -> P (a :: b :: bs)) ->
  forall bs, P bs.
Proof.
  intros H0 H1 H2 bs. enough (P bs /\ forall a, P (a :: bs)) by tauto.
  induction bs as [|b bs [IH1 IH2]]; split; auto.
Qed.

Lemma le_words_sum_bound bs :
  0 <= le_words_sum bs <= 65535 * Z.of_nat (length bs).
Proof.
  induction bs as [|a|a b bs IH] using pairs_ind; cbn [le_words_sum length];
    try pose proof (bval_range a); try pose proof (bval_range b);
    unfold in_width in *; lia.
Qed.

Lemma checksum_words_sum bs s :
  0 <= s -> s + 65535 * Z.of_nat (length bs) < 2 ^ 32 ->
  checksum_words bs s = s + le_words_sum bs.
Proof.
  revert s. induction bs as [|a|a b bs IH] using pairs_ind; intros s Hs Hb;
    cbn [checksum_words le_words_sum length] in *;
    try pose proof (bval_range a); try pose proof (bval_range b);
    unfold in_width in *.
  - lia.
  - apply wrap_small. unfold in_width. lia.
  - rewrite wrap_small by (unfold in_width; lia). rewrite IH; lia.
Qed.

Lemma le_words_rfc bs :
  (256 * le_words_sum bs) mod 65535 = rfc1071_sum bs mod 65535.
Proof.
  induction bs as [|a|a b bs IH] using pairs_ind; cbn [le_words_sum rfc1071_sum];
    [done|done|].
  replace (256 * (bval a + 256 * bval b + le_words_sum bs))
    with (256 * bval a + bval b + 256 * le_words_sum bs + bval b * 65535) by ring.
  rewrite Z.mod_add by lia. rewrite Z.add_mod, IH, <- Z.add_mod by lia. done.
Qed.

Lemma words_sum_zero bs : le_words_sum bs = 0 <-> rfc1071_sum bs = 0.
Proof.
  assert (0 <= rfc1071_sum bs /\ 0 <= le_words_sum bs /\
          (le_words_sum bs = 0 <-> rfc1071_sum bs = 0)); [|tauto].
  induction bs as [|a|a b bs IH] using pairs_ind; cbn [le_words_sum rfc1071_sum];
    try pose proof (bval_range a); try pose proof (bval_range b);
    unfold in_width in *; lia.
Qed.

Lemma fold_step s :
  0 <= s -> Z.land s 65535 + Z.shiftr s 16 = s mod 65536 + s / 65536.
Proof.
  intros Hs. change 65535 with (Z.ones 16).
  rewrite Z.land_ones, Z.shiftr_div_pow2 by lia. done.
Qed.

(** Two folds suffice for a [uint32_t]; the loop preserves the residue modulo
    65535 and does not turn a positive sum into zero. *)
Lemma fold_carries_spec s :
  u32 s ->
  exists r, fold_carries 3 s = Some r /\ 0 <= r < 65536 /\
    r mod 65535 = s mod 65535 /\ (r = 0 <-> s = 0).
Proof.
  enough (forall n s, 0 <= s -> s < 2 ^ 32 -> (s < 131071 \/ (1 < n)%nat) ->
    (s < 65536 \/ (0 < n)%nat) ->
    exists r, fold_carries n s = Some r /\ 0 <= r < 65536 /\
      r mod 65535 = s mod 65535 /\ (r = 0 <-> s = 0)) as H.
  { unfold in_width. intros Hs. apply H; lia. }
  clear s. induction n as [|n IH]; intros s H0 Hs H1 H2; cbn [fold_carries];
    rewrite Z.shiftr_div_pow2 by lia; change (2 ^ 16) with 65536;
    destruct (Z.eqb_spec (s / 65536) 0) as [Hz|Hz].
  - exists s. pose proof (Z.div_mod s 65536 ltac:(lia)).
    pose proof (Z.mod_pos_bound s 65536 ltac:(lia)). split; [done|]. lia.
  - exfalso. apply Hz, Z.div_small. lia.
  - exists s. pose proof (Z.div_mod s 65536 ltac:(lia)).
    pose proof (Z.mod_pos_bound s 65536 ltac:(lia)). split; [done|]. lia.
  - pose proof (fold_step s H0) as Hf.
    rewrite Z.shiftr_div_pow2 in Hf by lia. change (2 ^ 16) with 65536 in Hf.
    rewrite Hf. clear Hf.
    pose proof (Z.div_mod s 65536 ltac:(lia)) as Hd.
    pose proof (Z.mod_pos_bound s 65536 ltac:(lia)) as Hm.
    set (q := s / 65536) in *. set (m := s mod 65536) in *.
    assert (0 <= q < 65536) by lia.
    destruct (IH (m + q)) as (r & -> & Hr & Hmod & Hzero); [lia..|].
    exists r. split; [done|]. split; [done|]. split; [|lia].
    rewrite Hmod, Hd. replace (65536 * q + m) with (m + q + q * 65535) by ring.
    by rewrite Z.mod_add.
Qed.

(** The checksum loop always exits, and accepts exactly the headers whose
    one's complement sum is zero in the sense of RFC 1071. *)
Lemma ip_checksum_rfc bs :
  (length bs <= 60)%nat ->
  is_Some (ip_checksum bs) /\
  (ip_checksum bs = Some 65535 <->
     0 < rfc1071_sum bs /\ rfc1071_sum bs mod 65535 = 0).
Proof.
  intros Hlen. unfold ip_checksum.
  pose proof (le_words_sum_bound bs) as Hb.
  rewrite checksum_words_sum, Z.add_0_l by lia.
  destruct (fold_carries_spec (le_words_sum bs)) as (r & -> & Hr & Hmod & Hz);
    [unfold in_width; lia|].
  rewrite wrap_small by (unfold in_width; lia). split; [done|].
  pose proof (le_words_rfc bs) as Hrfc. pose proof (words_sum_zero bs) as Hzz.
  assert (0 <= rfc1071_sum bs) as Hpos.
  { clear. induction bs as [|a|a b bs IH] using pairs_ind; cbn [rfc1071_sum];
      try pose proof (bval_range a); try pose proof (bval_range b);
      unfold in_width in *; lia. }
  assert (rfc1071_sum bs mod 65535 = 0 <-> le_words_sum bs mod 65535 = 0) as Hiff.
  { rewrite <- Hrfc. rewrite Z.mul_mod by lia.
    pose proof (Z.mod_pos_bound (le_words_sum bs) 65535 ltac:(lia)) as Hm.
    set (m := le_words_sum bs mod 65535) in *.
    change (256 mod 65535) with 256. split; [|by intros ->].
    intros H0. apply Z.mod_divide in H0 as [k Hk]; [|lia].
    (* 256 * 256 = 65536 is 1 modulo 65535 *)
    assert (m = 65535 * (256 * k - m)) by lia. lia. }
  split.
  - intros [= ->]. rewrite Hiff, <- Hmod. split; [|done]. lia.
  - intros [Hp H0]. f_equal. apply Hiff in H0. rewrite <- Hmod in H0.
    apply Z.mod_divide in H0 as [k Hk]; lia.
Qed.

(** ** Accepted inner packets *)

(** A complete IPv4 packet: version 4, a header of [ihl] 32-bit words inside the
    packet, the total length equal to the buffer, and a correct header
    checksum. *)
Definition well_formed_ipv4 (data : list byte) : Prop :=
  exists ihl, 5 <= ihl <= 15 /\
    at_ data 0 = 64 + ihl /\
    4 * ihl <= Z.of_nat (length data) /\
    be16 data 2 = Z.of_nat (length data) /\
    0 < rfc1071_sum (take (Z.to_nat (4 * ihl)) data) /\
    rfc1071_sum (take (Z.to_nat (4 * ihl)) data) mod 65535 = 0.

Lemma first_byte_fields b ihl :
  u8 b -> (b / 16 = 4 /\ b mod 16 = ihl) <-> (b = 64 + ihl /\ 0 <= ihl < 16).
Proof.
  unfold in_width. intros Hb. pose proof (Z.div_mod b 16 ltac:(lia)).
  pose proof (Z.mod_pos_bound b 16 ltac:(lia)). lia.
Qed.

(** A byte string parses as a packet header exactly when it is the 16-byte
    big-endian encoding of a header whose fields are in range: parsing inverts
    serialization, and nothing else is accepted (no short or trailing bytes). *)
Theorem packet_header_codec bs h :
  parse_packet_header bs = Some h <->
  header_wf h /\ bs = serialize_packet_header h.
Proof.
  rewrite serialize_packet_header_bytes. split.
  - apply parse_packet_header_inv.
  - intros [? ->]. by apply parse_packet_header_ok.
Qed.

(** The guards of [IPPacket::parse], in its order. *)
Lemma IPPacket_parse_guards data :
  let len := Z.of_nat (length data) in
  let ihl := Z.land (at_ data 0) 15 in
  match IPPacket_parse data with
  | Some pkt =>
      20 <= len /\ Z.shiftr (at_ data 0) 4 = 4 /\ 5 <= ihl /\ ihl * 4 <= len /\
      ihl * 4 <= be16 data 2 <= len /\
      ip_checksum (take (Z.to_nat (ihl * 4)) data) = Some 65535 /\
      total_length pkt = be16 data 2 /\
      Z.of_nat (length (payload pkt)) = ip_payload_length pkt
  | None =>
      ~ (20 <= len /\ Z.shiftr (at_ data 0) 4 = 4 /\ 5 <= ihl /\ ihl * 4 <= len /\
         ihl * 4 <= be16 data 2 <= len /\
         ip_checksum (take (Z.to_nat (ihl * 4)) data) = Some 65535)
  end.
Proof.
  cbv zeta. unfold IPPacket_parse.
  generalize (ip_checksum (take (Z.to_nat (Z.land (at_ data 0) 15 * 4)) data)).
  generalize (be16 data 2). intros t ck.
  destruct (Z.ltb_spec (Z.of_nat (length data)) 20); [tauto || lia|].
  destruct (Z.eqb_spec (Z.shiftr (at_ data 0) 4) 4); simpl; [|tauto].
  destruct (Z.ltb_spec (Z.land (at_ data 0) 15) 5); [lia|].
  destruct (Z.ltb_spec (Z.of_nat (length data)) (Z.land (at_ data 0) 15 * 4)); [lia|].
  destruct (Z.ltb_spec t (Z.land (at_ data 0) 15 * 4)); simpl; [lia|].
  destruct (Z.ltb_spec (Z.of_nat (length data)) t); simpl; [lia|].
  case_bool_decide; simpl; [|tauto].
  rewrite length_take, length_drop. repeat split; try done; lia.
Qed.

(** A buffer passes the validation before injection exactly when it fits the
    MTU and is one complete IPv4 packet: version 4, header inside the packet,
    total length equal to the buffer length (no truncation, no trailing bytes),
    and a header whose RFC 1071 checksum is correct. *)
Theorem validate_inner_ipv4_packet_spec data mtu :
  validate_inner_ipv4_packet (Some data) (Z.of_nat (length data)) mtu = Valid <->
  Z.of_nat (length data) <= mtu /\ well_formed_ipv4 data.
Proof.
  pose proof (IPPacket_parse_guards data) as Hg. cbv zeta in Hg.
  unfold validate_inner_ipv4_packet.
  pose proof (bval_range (nth 0 data x00)) as Hb0.
  assert (Z.land (at_ data 0) 15 = at_ data 0 mod 16) as Hland by
    (change 15 with (Z.ones 4); by rewrite Z.land_ones).
  rewrite Hland, Z.shiftr_div_pow2 in Hg by lia. change (2 ^ 4) with 16 in Hg.
  remember (at_ data 0 mod 16) as ihl eqn:Hihl.
  assert (0 <= ihl < 16) by (subst ihl; apply Z.mod_pos_bound; lia).
  pose proof (first_byte_fields (at_ data 0) ihl Hb0) as Hfb.
  destruct (ip_checksum_rfc (take (Z.to_nat (ihl * 4)) data)) as [_ Hck];
    [rewrite length_take; lia|].
  destruct (Z.ltb_spec mtu (Z.of_nat (length data))); [split; [done|lia]|].
  unfold well_formed_ipv4. split.
  - destruct (IPPacket_parse data) as [pkt|]; [|done].
    destruct Hg as (? & Hv & ? & ? & ? & Hc & -> & _).
    destruct (Z.eqb_spec (be16 data 2) (Z.of_nat (length data))); [|done].
    intros _. split; [done|]. exists ihl. rewrite (Z.mul_comm 4).
    apply Hck in Hc. rewrite Hv in Hfb. tauto || lia.
  - intros [_ (ihl' & Hi & Hfirst & Hh & Ht & Hs)].
    assert (ihl' = ihl) as ->
      by (rewrite Hihl, Hfirst; Z.div_mod_to_equations; lia).
    rewrite (Z.mul_comm 4) in *. apply Hck in Hs.
    destruct (IPPacket_parse data) as [pkt|].
    + destruct Hg as (_ & _ & _ & _ & _ & _ & -> & _).
      by rewrite Ht, Z.eqb_refl.
    + exfalso. apply Hg. assert (at_ data 0 / 16 = 4) by (apply Hfb; lia).
      split_and!; (done || lia).
Qed.
