(* ===== verification/Replay.v ===== *)
(** * The replay window ([SessionManager::check_replay] and [update_replay])

    A session remembers the highest accepted sequence number and a
    [std::bitset<2048>] of the numbers below it.  The window is proved to refine
    an abstract specification that remembers the whole set of accepted
    numbers. *)

From stdpp Require Import base numbers list gmap option.
From Stdlib Require Import ZArith Lia Bool.
From S2P Require Import Prelude.

Definition REPLAY_BITS : Z := 2048.

(** [std::bitset<2048>] as the integer of its bits.  [test] and [set] throw
    [std::out_of_range] past the end, which is [None] here. *)
Definition bitset_test (w pos : Z) : option bool :=
  if pos <? REPLAY_BITS then Some (Z.testbit w pos) else None.
Definition bitset_set (w pos : Z) : option Z :=
  if pos <? REPLAY_BITS then Some (Z.setbit w pos) else None.
Definition bitset_shl (w n : Z) : Z := Z.land (Z.shiftl w n) (Z.ones REPLAY_BITS).

(** The receive half of a [SessionState]. *)
Record ReplayState := mkReplay { recv_last : Z; recv_window : Z }.

Definition replay_init : ReplayState := mkReplay 0 0.

(** [None] when [bitset::test] throws. *)
Definition check_replay (s : ReplayState) (seq : Z) : option bool :=
  if (REPLAY_BITS <=? recv_last s) && (seq <=? recv_last s - REPLAY_BITS)
  then Some false
  else if recv_last s <? seq then Some true
  else if wrap 64 (seq + REPLAY_BITS) <=? recv_last s then Some false
  else match bitset_test (recv_window s) (recv_last s - seq) with
       | None => None
       | Some true => Some false
       | Some false => Some true
       end.

Definition update_replay (s : ReplayState) (seq : Z) : option ReplayState :=
  let s :=
    if recv_last s <? seq then
      let shift := seq - recv_last s in
      mkReplay seq (if shift <? REPLAY_BITS then bitset_shl (recv_window s) shift else 0)
    else s in
  match bitset_set (recv_window s) (recv_last s - seq) with
  | None => None
  | Some w => Some (mkReplay (recv_last s) w)
  end.

(** What a receiver does with the sequence numbers of authenticated packets:
    check, and update when accepted.  The list of verdicts and the final
    window. *)
Fixpoint replay_run (s : ReplayState) (seqs : list Z)
    : option (list bool * ReplayState) :=
  match seqs with
  | [] => Some ([], s)
  | seq :: seqs =>
      match check_replay s seq with
      | None => None
      | Some ok =>
          match (if ok then update_replay s seq else Some s) with
          | None => None
          | Some s =>
              match replay_run s seqs with
              | None => None
              | Some (oks, s) => Some (ok :: oks, s)
              end
          end
      end
  end.

(** ** Specification *)

(** The specification keeps every accepted number and the highest of them (0
    before the first).  A number is accepted when it is new and less than 2048
    behind the highest. *)
Record ReplaySpec := mkSpec { highest : Z; accepted : gset Z }.

Definition spec_init : ReplaySpec := mkSpec 0 ∅.

Definition spec_check (sp : ReplaySpec) (seq : Z) : bool :=
  (highest sp <? seq + REPLAY_BITS) && negb (bool_decide (seq ∈ accepted sp)).

Definition spec_update (sp : ReplaySpec) (seq : Z) : ReplaySpec :=
  mkSpec (Z.max (highest sp) seq) ({[seq]} ∪ accepted sp).

Fixpoint spec_run (sp : ReplaySpec) (seqs : list Z) : list bool * ReplaySpec :=
  match seqs with
  | [] => ([], sp)
  | seq :: seqs =>
      let ok := spec_check sp seq in
      let '(oks, sp) := spec_run (if ok then spec_update sp seq else sp) seqs in
      (ok :: oks, sp)
  end.

(** The window represents the part of the accepted set it can still see. *)
Record replay_rel (s : ReplayState) (sp : ReplaySpec) : Prop := {
  rel_last : recv_last s = highest sp;
  rel_last_u32 : u32 (recv_last s);
  rel_nonneg x : x ∈ accepted sp -> 0 <= x <= highest sp;
  rel_bits i : 0 <= i < REPLAY_BITS ->
    Z.testbit (recv_window s) i = bool_decide (highest sp - i ∈ accepted sp);
}.

Lemma replay_rel_init : replay_rel replay_init spec_init.
Proof.
  split; simpl.
  - done.
  - unfold in_width. lia.
  - set_solver.
  - intros i Hi. rewrite Z.bits_0. symmetry. apply bool_decide_eq_false_2. set_solver.
Qed.

(** Sequence numbers come from the 32-bit header field, so [seq + REPLAY_BITS]
    does not wrap. *)
Lemma check_replay_refines s sp seq :
  replay_rel s sp -> u32 seq -> check_replay s seq = Some (spec_check sp seq).
Proof.
  intros [Hl [_ Hlu] Hn Hb] [Hs Hsu]. unfold check_replay, spec_check.
  rewrite Hl in *. unfold REPLAY_BITS in *.
  rewrite (wrap_small 64) by (split; lia).
  destruct (Z.ltb_spec (highest sp) (seq + 2048)); simpl.
  - rewrite (proj2 (Z.leb_gt seq (highest sp - 2048))), andb_false_r by lia.
    rewrite (proj2 (Z.leb_gt (seq + 2048) (highest sp))) by lia.
    destruct (Z.ltb_spec (highest sp) seq).
    + rewrite bool_decide_eq_false_2; [done|]. intros Hin. apply Hn in Hin. lia.
    + unfold bitset_test, REPLAY_BITS.
      rewrite (proj2 (Z.ltb_lt (highest sp - seq) 2048)), Hb by lia.
      replace (highest sp - (highest sp - seq)) with seq by lia.
      by case_bool_decide.
  - rewrite (proj2 (Z.leb_le 2048 (highest sp))) by lia.
    by rewrite (proj2 (Z.leb_le seq (highest sp - 2048))) by lia.
Qed.

Lemma testbit_shl w n i :
  0 <= n -> 0 <= i < REPLAY_BITS ->
  Z.testbit (bitset_shl w n) i = (n <=? i) && Z.testbit w (i - n).
Proof.
  intros Hn Hi. unfold bitset_shl. rewrite Z.land_spec, Z.ones_spec_low by lia.
  rewrite andb_true_r, Z.shiftl_spec by lia.
  destruct (Z.leb_spec n i); [done|]. by rewrite Z.testbit_neg_r by lia.
Qed.

Lemma testbit_setbit w n i :
  0 <= n -> 0 <= i -> Z.testbit (Z.setbit w n) i = (bool_decide (i = n)) || Z.testbit w i.
Proof.
  intros Hn Hi. case_bool_decide; [subst; by rewrite Z.setbit_eq|].
  by rewrite Z.setbit_neq by lia.
Qed.

Lemma update_replay_refines s sp seq :
  replay_rel s sp -> u32 seq -> spec_check sp seq = true ->
  exists s', update_replay s seq = Some s' /\ replay_rel s' (spec_update sp seq).
Proof.
  intros [Hl [Hl0 Hlu] Hn Hb] [Hs Hsu] Hc. unfold update_replay, spec_check in *.
  rewrite Hl in *. unfold REPLAY_BITS in *.
  apply andb_true_iff in Hc as [Hc _]. apply Z.ltb_lt in Hc.
  destruct (Z.ltb_spec (highest sp) seq) as [Hnew|Hold]; simpl; unfold bitset_set.
  - rewrite Z.sub_diag. simpl. eexists. split; [done|].
    split; unfold spec_update, in_width; simpl.
    + lia.
    + lia.
    + intros x [->%elem_of_singleton|Hx]%elem_of_union; [lia|].
      apply Hn in Hx. lia.
    + unfold REPLAY_BITS. intros i Hi. rewrite testbit_setbit by lia.
      rewrite Z.max_r by lia.
      destruct (decide (i = 0)) as [->|Hi0].
      { rewrite Z.sub_0_r, !bool_decide_eq_true_2 by set_solver. done. }
      rewrite bool_decide_eq_false_2 by done. simpl.
      assert (seq - i ∈ ({[seq]} ∪ accepted sp : gset Z) <-> seq - i ∈ accepted sp) as Heq.
      { rewrite elem_of_union, elem_of_singleton. split; [|by right].
        intros [?|?]; [lia|done]. }
      rewrite (bool_decide_ext _ _ Heq). clear Heq.
      destruct (Z.ltb_spec (seq - highest sp) 2048).
      * rewrite testbit_shl by (unfold REPLAY_BITS; lia).
        destruct (Z.leb_spec (seq - highest sp) i); simpl.
        -- rewrite Hb by lia.
           by replace (highest sp - (i - (seq - highest sp))) with (seq - i) by lia.
        -- symmetry. apply bool_decide_eq_false_2. intros Hx%Hn. lia.
      * rewrite Z.bits_0. symmetry. apply bool_decide_eq_false_2. intros Hx%Hn. lia.
  - rewrite (proj2 (Z.ltb_lt (recv_last s - seq) REPLAY_BITS))
      by (unfold REPLAY_BITS; lia).
    eexists. split; [done|]. split; unfold spec_update, in_width; simpl.
    + lia.
    + lia.
    + intros x [->%elem_of_singleton|Hx]%elem_of_union; [lia|].
      apply Hn in Hx. lia.
    + unfold REPLAY_BITS. intros i Hi. rewrite testbit_setbit, Hb by lia.
      rewrite Z.max_l by lia. rewrite Hl.
      repeat case_bool_decide; simpl; try done; exfalso; set_solver by lia.
Qed.

Lemma replay_run_refines s sp seqs :
  replay_rel s sp -> Forall u32 seqs ->
  exists s', replay_run s seqs = Some ((spec_run sp seqs).1, s') /\
    replay_rel s' (spec_run sp seqs).2.
Proof.
  intros Hrel Hseqs. revert s sp Hrel.
  induction Hseqs as [|seq seqs Hseq _ IH]; intros s sp Hrel; simpl; [eauto|].
  rewrite (check_replay_refines s sp) by done.
  destruct (spec_check sp seq) eqn:Hc.
  - destruct (update_replay_refines s sp seq) as (s1 & -> & Hrel1); [done..|].
    destruct (IH s1 (spec_update sp seq) Hrel1) as (s' & -> & Hrel').
    destruct (spec_run (spec_update sp seq) seqs). eauto.
  - destruct (IH s sp Hrel) as (s' & -> & Hrel').
    destruct (spec_run sp seqs). eauto.
Qed.

(** The sequence numbers a run accepted, in order. *)
Definition accepted_seqs (seqs : list Z) (oks : list bool) : list Z :=
  map fst (List.filter snd (zip seqs oks)).

Lemma spec_run_fresh sp seqs :
  NoDup (accepted_seqs seqs (spec_run sp seqs).1) /\
  forall x, x ∈ accepted_seqs seqs (spec_run sp seqs).1 -> x ∉ accepted sp.
Proof.
  revert sp. induction seqs as [|seq seqs IH]; intros sp; cbn [spec_run].
  { split; [constructor|]. intros x Hx. by apply elem_of_nil in Hx. }
  destruct (spec_check sp seq) eqn:Hc.
  - destruct (spec_run (spec_update sp seq) seqs) as [oks sp'] eqn:E.
    specialize (IH (spec_update sp seq)). rewrite E in IH. simpl in *.
    destruct IH as [IH1 IH2]. unfold accepted_seqs in *. simpl.
    unfold spec_check in Hc. apply andb_true_iff in Hc as [_ Hnew].
    apply negb_true_iff, bool_decide_eq_false in Hnew. split.
    + constructor; [|done]. intros Hin%IH2. set_solver.
    + intros x [->|Hx]%elem_of_cons; [done|]. apply IH2 in Hx. set_solver.
  - destruct (spec_run sp seqs) as [oks sp'] eqn:E.
    specialize (IH sp). rewrite E in IH. done.
Qed.

(** C9: The 2048-bit replay window behaves exactly like a receiver that
    remembers every accepted sequence number for ever: on any stream of 32-bit
    sequence numbers it accepts a number if and only if it is new and less than
    2048 behind the highest accepted one, and no bitset access is out of
    range. *)
Theorem replay_window_refines seqs :
  Forall u32 seqs ->
  exists s', replay_run replay_init seqs = Some ((spec_run spec_init seqs).1, s').
Proof.
  intros H. destruct (replay_run_refines replay_init spec_init seqs) as (s' & ? & _);
    eauto using replay_rel_init.
Qed.

Lemma replay_window_refines_witness :
  Forall u32 [5; 3; 5; 3000; 3; 953; 952; 2048] /\
  exists s', replay_run replay_init [5; 3; 5; 3000; 3; 953; 952; 2048] =
    Some ([true; true; false; true; false; true; false; true], s').
Proof.
  assert (Forall u32 [5; 3; 5; 3000; 3; 953; 952; 2048]) as H
    by (repeat constructor; vm_compute; congruence).
  split; [exact H|].
  destruct (replay_window_refines [5; 3; 5; 3000; 3; 953; 952; 2048] H) as [s' Hs'].
  exists s'. rewrite Hs'. vm_compute. reflexivity.
Defined.

(** Replay protection: whatever the stream of sequence numbers, with
    duplicates, reordering and jumps, no number is accepted twice in the life
    of a session. *)
Theorem replay_accepts_at_most_once seqs oks s' :
  Forall u32 seqs ->
  replay_run replay_init seqs = Some (oks, s') ->
  NoDup (accepted_seqs seqs oks).
Proof.
  intros Hu Hrun.
  destruct (replay_run_refines replay_init spec_init seqs) as (s'' & Hrun' & _);
    [apply replay_rel_init|done|].
  rewrite Hrun in Hrun'. injection Hrun' as -> _. apply spec_run_fresh.
Qed.

Lemma replay_accepts_at_most_once_witness :
  exists s', replay_run replay_init [7; 7; 9; 7] =
      Some ([true; false; true; false], s') /\ NoDup [7; 9].
Proof.
  eexists. split; [vm_compute; reflexivity|].
  eapply (replay_accepts_at_most_once [7; 7; 9; 7] [true; false; true; false]).
  - repeat constructor; vm_compute; congruence.
  - vm_compute. reflexivity.
Defined.
