(* ===== verification/Crypto.v ===== *)
(** * Cryptographic primitives and randomness

    OpenSSL is not part of the sources: its entry points are the operations of
    the class [OpenSSL], and what the code relies on are the laws of
    [AeadLaws].  The wrappers of [src/crypto/primitives.cpp],
    [src/crypto/chacha20poly1305.cpp] and [hash_public_key] of
    [src/identity/identity.cpp] are defined on top of it. *)

From stdpp Require Import base numbers list option.
From Stdlib Require Import ZArith Lia Bool.
From Stdlib.Strings Require Import Byte.
From S2P Require Import Prelude.

(** 32-byte arrays ([Key], [NodeId], [NetworkId], [X25519Key], [CryptoHash]) are
    lists of bytes; [is32] is their length. *)
Abbreviation NodeId := (list byte) (only parsing).
Abbreviation NetworkId := (list byte) (only parsing).
Abbreviation Key := (list byte) (only parsing).

Definition KEY_SIZE : nat := 32.
Definition NODE_ID_SIZE : nat := 32.
Definition NETWORK_ID_SIZE : nat := 32.

Definition is32 (bs : list byte) : Prop := length bs = 32%nat.

(** The value-initialised [Key{}] / [NodeId{}]. *)
Definition zero32 : list byte := zeros 32.

(** OpenSSL: every call can fail ([None]). *)
Class OpenSSL := {
  evp_blake2b512 : list byte -> option (list byte);
  evp_sha256 : list byte -> option (list byte);
  evp_blake2s256 : list byte -> option (list byte);
  (** X25519(private, public) *)
  evp_x25519 : list byte -> list byte -> option (list byte);
  (** ChaCha20-Poly1305: key, nonce, plaintext, aad to ciphertext and tag *)
  evp_chacha_seal : list byte -> list byte -> list byte -> list byte ->
    option (list byte * list byte);
  (** key, nonce, ciphertext, tag, aad to plaintext *)
  evp_chacha_open : list byte -> list byte -> list byte -> list byte -> list byte ->
    option (list byte);
  (** Ed25519: the public key of a private key, signing, verification *)
  evp_ed25519_public : list byte -> option (list byte);
  evp_ed25519_sign : list byte -> list byte -> option (list byte);
  evp_ed25519_verify : list byte -> list byte -> list byte -> bool;
}.

(** Documented behaviour of the AEAD: the ciphertext has the length of the
    plaintext, the tag 16 bytes, and opening what was sealed under the same key,
    nonce and additional data gives the plaintext back. *)
Class AeadLaws `{OpenSSL} := {
  seal_lengths k n p a c t :
    evp_chacha_seal k n p a = Some (c, t) ->
    length c = length p /\ length t = 16%nat;
  open_seal k n p a c t :
    evp_chacha_seal k n p a = Some (c, t) -> evp_chacha_open k n c t a = Some p;
  open_length k n c t a p :
    evp_chacha_open k n c t a = Some p -> length p = length c;
}.

(** Documented behaviour of Ed25519: raw public keys have 32 bytes, signatures 64,
    and a signature verifies under the public key of the key that made it. *)
Class SignatureLaws `{OpenSSL} := {
  ed25519_public_length sk pk : evp_ed25519_public sk = Some pk -> length pk = 32%nat;
  ed25519_sign_length sk m s : evp_ed25519_sign sk m = Some s -> length s = 64%nat;
  ed25519_verify_sign sk pk m s :
    evp_ed25519_public sk = Some pk -> evp_ed25519_sign sk m = Some s ->
    evp_ed25519_verify pk m s = true;
}.

(** Documented behaviour of X25519: two key pairs agree on the shared secret.
    [x25519_base] is the public key of a private key. *)
Class DhLaws `{OpenSSL} := {
  x25519_base : list byte -> list byte;
  x25519_agree a b : evp_x25519 a (x25519_base b) = evp_x25519 b (x25519_base a);
}.

(** [RandomSource::fill] on a span of [n] bytes. *)
Class RandomSource := {
  rng : Type;
  rng_fill : nat -> rng -> option (list byte) * rng;
  rng_fill_length n r bs r' :
    rng_fill n r = (Some bs, r') -> length bs = n;
}.

(** [RandomSource::u32] and [RandomSource::u64]: big-endian values of fresh bytes. *)
Definition random_u32 `{RandomSource} (r : rng) : option Z * rng :=
  match rng_fill 4 r with
  | (Some bs, r) => (Some (be_combine bs), r)
  | (None, r) => (None, r)
  end.

Definition random_u64 `{RandomSource} (r : rng) : option Z * rng :=
  match rng_fill 8 r with
  | (Some bs, r) => (Some (be_combine bs), r)
  | (None, r) => (None, r)
  end.

Section primitives.
Context `{OpenSSL}.

Inductive CryptoHashAlgorithm := Sha256 | Blake2s256.

Definition digest_for (algorithm : CryptoHashAlgorithm)
    : list byte -> option (list byte) :=
  match algorithm with
  | Sha256 => evp_sha256
  | Blake2s256 => evp_blake2s256
  end.

(** The digest of the concatenated fragments; the result must be 32 bytes. *)
Definition transcript_hash (algorithm : CryptoHashAlgorithm)
    (fragments : list (list byte)) : option (list byte) :=
  match digest_for algorithm (concat fragments) with
  | None => None
  | Some result => if Nat.eqb (length result) 32 then Some result else None
  end.

Definition bxor (b : byte) (z : Z) : byte := b8 (Z.lxor (bval b) z).

Definition hmac_hash (algorithm : CryptoHashAlgorithm) (key message : list byte)
    : option (list byte) :=
  let block_size := 64%nat in
  let hmac_with (key_part : list byte) :=
    let key_block := key_part ++ zeros (block_size - length key_part) in
    let inner_pad := map (λ b, bxor b 54) key_block in
    let outer_pad := map (λ b, bxor b 92) key_block in
    match transcript_hash algorithm [inner_pad; message] with
    | None => None
    | Some inner => transcript_hash algorithm [outer_pad; inner]
    end in
  if Nat.ltb block_size (length key) then
    match transcript_hash algorithm [key] with
    | None => None
    | Some hashed_key => hmac_with hashed_key
    end
  else hmac_with key.

(** The first 32 bytes of BLAKE2b-512; a failing digest is only logged and the
    zeroed buffer is used. *)
Definition hash_public_key (public_key : list byte) : NodeId :=
  take NODE_ID_SIZE (default (zeros 64) (evp_blake2b512 public_key)).

Definition chacha20_poly1305_encrypt (key nonce plaintext aad : list byte)
    : option (list byte * list byte) := evp_chacha_seal key nonce plaintext aad.

Definition chacha20_poly1305_decrypt (key nonce ciphertext tag aad : list byte)
    : option (list byte) := evp_chacha_open key nonce ciphertext tag aad.

(** The derived secret must have the size of a key. *)
Definition x25519_derive_shared_secret (my_private their_public : list byte)
    : option (list byte) :=
  match evp_x25519 my_private their_public with
  | None => None
  | Some secret => if Nat.eqb (length secret) KEY_SIZE then Some secret else None
  end.

Definition constant_time_equal (left right : list byte) : bool :=
  bool_decide (left = right).

End primitives.

(** ** A concrete instance, for witnesses

    Not instances outside this file: a witness names them.  A toy AEAD whose ciphertext is the plaintext and whose tag is a fold of the
    key, nonce and additional data; the digests keep a prefix of their input. *)

Definition toy_fold (bs : list byte) : byte :=
  b8 (foldl (λ v b, 31 * v + bval b + 1) 7 bs).

Definition toy_digest (n : nat) (bs : list byte) : list byte :=
  take n (toy_fold bs :: bs ++ zeros n).

Definition toy_tag (k n p a : list byte) : list byte :=
  replicate 16 (toy_fold (k ++ n ++ p ++ a)).

#[local] Instance toy_openssl : OpenSSL := {|
  evp_blake2b512 bs := Some (toy_digest 64 bs);
  evp_sha256 bs := Some (toy_digest 32 bs);
  evp_blake2s256 bs := Some (toy_digest 32 bs);
  evp_x25519 a b := Some (toy_digest 32 (zip_with (λ x y, bxor x (bval y)) a b));
  evp_chacha_seal k n p a := Some (p, toy_tag k n p a);
  evp_chacha_open k n c t a :=
    if bool_decide (t = toy_tag k n c a) then Some c else None;
  evp_ed25519_public sk := Some (toy_digest 32 sk);
  evp_ed25519_sign sk m := Some (toy_digest 32 sk ++ toy_digest 32 m);
  evp_ed25519_verify pk m s := bool_decide (s = pk ++ toy_digest 32 m);
|}.

Lemma length_toy_digest n bs : length (toy_digest n bs) = n.
Proof.
  unfold toy_digest, zeros.
  rewrite length_take, length_cons, length_app, length_replicate. lia.
Qed.

#[local] Instance toy_signature_laws : SignatureLaws.
Proof.
  split; cbn [evp_ed25519_public evp_ed25519_sign evp_ed25519_verify toy_openssl].
  - intros sk pk <-%(inj Some). apply length_toy_digest.
  - intros sk m s <-%(inj Some). by rewrite length_app, !length_toy_digest.
  - intros sk pk m s [= <-] [= <-]. by apply bool_decide_eq_true_2.
Qed.

#[local] Instance toy_aead_laws : AeadLaws.
Proof.
  split; simpl.
  - by intros k n p a c t [= <- <-].
  - intros k n p a c t [= <- <-]. by rewrite bool_decide_eq_true_2.
  - intros k n c t a p. case_bool_decide; [by intros [= <-]|done].
Qed.

#[local] Instance toy_dh_laws : DhLaws.
Proof.
  refine {| x25519_base a := a |}. intros a b.
  cbn [evp_x25519 toy_openssl]. do 2 f_equal. revert b.
  induction a as [|x a IH]; intros [|y b]; cbn [zip_with]; try done.
  f_equal; [|apply IH]. unfold bxor. by rewrite Z.lxor_comm.
Defined.

(** A counter as a random source. *)
#[local] Program Instance toy_random : RandomSource := {|
  rng := Z;
  rng_fill n r := (Some (replicate n (b8 r)), r + 1);
|}.
Next Obligation. intros n r bs r' H. simplify_eq/=. by rewrite length_replicate. Qed.
