(* ===== verification/Identity.v ===== *)
(** * Identities ([src/identity/identity.cpp])

    The long-term identity of a node, the Ed25519 signature that binds its
    X25519 key, and rotation certificates. *)

From Stdlib Require Import String.
From stdpp Require Import base numbers list option.
From Stdlib Require Import ZArith Lia Bool.
From Stdlib.Strings Require Import Byte.
From S2P Require Import Prelude Wire Crypto.

Definition IDENTITY_SIGNATURE_SIZE : nat := 64.

Definition KEY_BINDING_DOMAIN : list byte :=
  String.list_byte_of_string "aegis-x25519-binding-v1"%string.
Definition ROTATION_DOMAIN : list byte :=
  String.list_byte_of_string "aegis-identity-rotation-v1"%string.

Record KeyPair := mkKeyPair { public_key : Key; private_key : Key }.

Record Identity := mkIdentity {
  signing_keypair : KeyPair;
  keypair : KeyPair;
  key_agreement_binding : list byte;
  node_id : NodeId;
  network_id : NetworkId;
  creator_node_id : NodeId;
}.

Definition no_keypair : KeyPair := mkKeyPair zero32 zero32.
Definition zero_signature : list byte := zeros IDENTITY_SIGNATURE_SIZE.

(** [Identity{}]. *)
Definition no_identity : Identity :=
  mkIdentity no_keypair no_keypair zero_signature zero32 zero32 zero32.

Record IdentityRotationCertificate := mkRotation {
  previous_signing_public_key : Key;
  previous_key_agreement_public_key : Key;
  previous_key_agreement_binding : list byte;
  next_signing_public_key : Key;
  next_key_agreement_public_key : Key;
  next_key_agreement_binding : list byte;
  issued_at : Z;
  rotation_signature : list byte;
}.

Definition key_binding_message (public_key : Key) : list byte :=
  KEY_BINDING_DOMAIN ++ public_key.

(** An incomplete encoding is the empty message. *)
Definition rotation_message (c : IdentityRotationCertificate) : list byte :=
  default [] (encode_exact
    (length ROTATION_DOMAIN + KEY_SIZE + 32 + IDENTITY_SIGNATURE_SIZE +
     KEY_SIZE + 32 + IDENTITY_SIGNATURE_SIZE + 8)
    (write_bytes ROTATION_DOMAIN &>
     write_bytes (previous_signing_public_key c) &>
     write_bytes (previous_key_agreement_public_key c) &>
     write_bytes (previous_key_agreement_binding c) &>
     write_bytes (next_signing_public_key c) &>
     write_bytes (next_key_agreement_public_key c) &>
     write_bytes (next_key_agreement_binding c) &>
     write_u64 (issued_at c))).

Definition public_identity (signing_key agreement_key binding : list byte) : Identity :=
  mkIdentity (mkKeyPair signing_key zero32) (mkKeyPair agreement_key zero32) binding
    zero32 zero32 zero32.

Definition matches_network (id : Identity) (other : NetworkId) : bool :=
  bool_decide (network_id id = other).

(** Assignment to the signing key pair and the binding. *)
Definition set_signing (id : Identity) (signing : KeyPair) (binding : list byte)
    : Identity :=
  mkIdentity signing (keypair id) binding (node_id id) (network_id id)
    (creator_node_id id).

Section identity.
Context `{OpenSSL}.

(** A signature of the fixed size. *)
Definition sign_fixed (sk message : list byte) : option (list byte) :=
  match evp_ed25519_sign sk message with
  | Some s => if Nat.eqb (length s) IDENTITY_SIGNATURE_SIZE then Some s else None
  | None => None
  end.

(** The overload with a given signing key. *)
Definition bind_identity_keys_with (id : Identity) (signing_private_key : Key)
    : bool * Identity :=
  let cleared := set_signing id (mkKeyPair zero32 signing_private_key) zero_signature in
  match evp_ed25519_public signing_private_key with
  | Some pk =>
      if negb (Nat.eqb (length pk) KEY_SIZE) then (false, cleared) else
      let signing := mkKeyPair pk signing_private_key in
      match sign_fixed signing_private_key (key_binding_message (public_key (keypair id))) with
      | Some s => (true, set_signing id signing s)
      | None => (false, set_signing id signing zero_signature)
      end
  | None => (false, cleared)
  end.

(** The overload that generates the signing key; [generated] is the outcome of
    the library's key generation. *)
Definition bind_identity_keys (id : Identity) (generated : option KeyPair)
    : bool * Identity :=
  match generated with
  | None => (false, set_signing id no_keypair zero_signature)
  | Some kp =>
      bind_identity_keys_with (set_signing id kp zero_signature) (private_key kp)
  end.

(** [Identity::create]: [None] is the exception.  [generated_x] is
    [x25519_generate_keypair], [generated] the signing key. *)
Definition Identity_create (network : NetworkId) (generated_x : KeyPair)
    (generated : option KeyPair) : option Identity :=
  let id := mkIdentity no_keypair generated_x zero_signature
              (hash_public_key (public_key generated_x)) network zero32 in
  match bind_identity_keys id generated with
  | (true, id) => Some id
  | (false, _) => None
  end.

Definition verify_key_agreement_binding (id : Identity) : bool :=
  if bool_decide (public_key (signing_keypair id) = zero32) ||
     bool_decide (public_key (keypair id) = zero32) ||
     bool_decide (key_agreement_binding id = zero_signature)
  then false
  else evp_ed25519_verify (public_key (signing_keypair id))
         (key_binding_message (public_key (keypair id))) (key_agreement_binding id).

Definition verify_identity_rotation_certificate (c : IdentityRotationCertificate)
    (expected_previous_signing_public_key : Key) : bool :=
  if negb (bool_decide
       (previous_signing_public_key c = expected_previous_signing_public_key)) ||
     bool_decide (previous_signing_public_key c = zero32) ||
     bool_decide (next_signing_public_key c = zero32) ||
     bool_decide (previous_key_agreement_public_key c = zero32) ||
     bool_decide (next_key_agreement_public_key c = zero32) ||
     bool_decide (rotation_signature c = zero_signature)
  then false
  else
    let previous := public_identity (previous_signing_public_key c)
      (previous_key_agreement_public_key c) (previous_key_agreement_binding c) in
    let next := public_identity (next_signing_public_key c)
      (next_key_agreement_public_key c) (next_key_agreement_binding c) in
    if negb (verify_key_agreement_binding previous) ||
       negb (verify_key_agreement_binding next)
    then false
    else
      let message := rotation_message c in
      negb (bool_decide (message = [])) &&
      evp_ed25519_verify expected_previous_signing_public_key message
        (rotation_signature c).

Definition create_identity_rotation_certificate (previous next : Identity)
    (issued : Z) : option IdentityRotationCertificate :=
  if negb (verify_key_agreement_binding previous) ||
     negb (verify_key_agreement_binding next) then None
  else
    let unsigned := mkRotation (public_key (signing_keypair previous))
      (public_key (keypair previous)) (key_agreement_binding previous)
      (public_key (signing_keypair next)) (public_key (keypair next))
      (key_agreement_binding next) issued zero_signature in
    let message := rotation_message unsigned in
    if bool_decide (message = []) then None else
    match sign_fixed (private_key (signing_keypair previous)) message with
    | None => None
    | Some s =>
        let c := mkRotation (public_key (signing_keypair previous))
          (public_key (keypair previous)) (key_agreement_binding previous)
          (public_key (signing_keypair next)) (public_key (keypair next))
          (key_agreement_binding next) issued s in
        if verify_identity_rotation_certificate c (public_key (signing_keypair previous))
        then Some c else None
    end.
End identity.

(** ** Properties *)

(** The array fields of a certificate have their declared sizes. *)
Definition rotation_wf (c : IdentityRotationCertificate) : Prop :=
  is32 (previous_signing_public_key c) /\ is32 (previous_key_agreement_public_key c) /\
  length (previous_key_agreement_binding c) = 64%nat /\
  is32 (next_signing_public_key c) /\ is32 (next_key_agreement_public_key c) /\
  length (next_key_agreement_binding c) = 64%nat /\ u64 (issued_at c).

Definition identity_wf (id : Identity) : Prop :=
  is32 (public_key (signing_keypair id)) /\ is32 (public_key (keypair id)) /\
  length (key_agreement_binding id) = 64%nat.

Lemma rotation_message_bytes c :
  rotation_wf c ->
  rotation_message c =
    ROTATION_DOMAIN ++ previous_signing_public_key c ++
    previous_key_agreement_public_key c ++ previous_key_agreement_binding c ++
    next_signing_public_key c ++ next_key_agreement_public_key c ++
    next_key_agreement_binding c ++ be_split 8 (issued_at c).
Proof.
  intros (H1 & H2 & H3 & H4 & H5 & H6 & _). unfold rotation_message.
  erewrite encode_exact_emits; [|solve_emits].
  rewrite decide_True; [done|]. unfold is32 in *.
  rewrite !length_app, H1, H2, H3, H4, H5, H6, length_be_split. done.
Qed.

(** The message signed for a key rotation determines every field it
    authorises: two certificates with the same signed message agree on both key
    pairs, both bindings and the time of issue. *)
Theorem rotation_message_binds c1 c2 :
  rotation_wf c1 -> rotation_wf c2 -> rotation_message c1 = rotation_message c2 ->
  rotation_signature c1 = rotation_signature c2 -> c1 = c2.
Proof.
  intros W1 W2. rewrite (rotation_message_bytes c1), (rotation_message_bytes c2) by done.
  destruct c1, c2. unfold rotation_wf, is32 in *; simpl in W1, W2.
  cbn [previous_signing_public_key previous_key_agreement_public_key
    previous_key_agreement_binding next_signing_public_key next_key_agreement_public_key
    next_key_agreement_binding issued_at rotation_signature].
  destruct W1 as (? & ? & ? & ? & ? & ? & ?), W2 as (? & ? & ? & ? & ? & ? & ?).
  intros Heq%app_inv_head <-.
  do 6 (apply app_inj_1 in Heq as [<- Heq]; [|congruence]).
  by apply be_split_inj in Heq as <-.
Qed.

(** A certificate issued for two bound identities with non-zero keys is
    accepted by every node that trusts the previous signing key. *)
Theorem rotation_certificate_issued `{SignatureLaws} previous next t :
  identity_wf previous -> identity_wf next -> u64 t ->
  verify_key_agreement_binding previous = true ->
  verify_key_agreement_binding next = true ->
  evp_ed25519_public (private_key (signing_keypair previous)) =
    Some (public_key (signing_keypair previous)) ->
  (forall m, exists s,
    evp_ed25519_sign (private_key (signing_keypair previous)) m = Some s /\
    s <> zero_signature) ->
  exists c,
    create_identity_rotation_certificate previous next t = Some c /\
    verify_identity_rotation_certificate c (public_key (signing_keypair previous)) = true /\
    next_signing_public_key c = public_key (signing_keypair next) /\
    next_key_agreement_public_key c = public_key (keypair next).
Proof.
  intros (P1 & P2 & P3) (N1 & N2 & N3) Ht Hp Hn Hpub Hsign.
  unfold create_identity_rotation_certificate. rewrite Hp, Hn. cbn [negb orb].
  set (u := mkRotation _ _ _ _ _ _ _ zero_signature).
  assert (rotation_wf u) as Hu by (unfold rotation_wf; simpl; auto 10).
  destruct (Hsign (rotation_message u)) as (s & Hs & Hsz).
  unfold sign_fixed. rewrite Hs, (ed25519_sign_length _ _ _ Hs). simpl Nat.eqb.
  assert (rotation_message u <> []) as Hne.
  { rewrite rotation_message_bytes by done. done. }
  rewrite (bool_decide_eq_false_2 (rotation_message u = [])) by done. cbv iota.
  set (c := mkRotation _ _ _ _ _ _ _ s).
  assert (rotation_message c = rotation_message u) as Hm
    by by rewrite !rotation_message_bytes.
  assert (verify_identity_rotation_certificate c (public_key (signing_keypair previous))
    = true) as Hv.
  { unfold verify_identity_rotation_certificate. rewrite Hm.
    unfold verify_key_agreement_binding in *; simpl in *.
    repeat (case_match; [done|]). repeat case_bool_decide; simpl in *; try done.
    rewrite Hp, Hn. simpl. by apply ed25519_verify_sign with (private_key (signing_keypair previous)). }
  rewrite Hv. by exists c.
Qed.

(** ** Witnesses *)

#[local] Existing Instances toy_openssl toy_signature_laws.

Definition toy_identity (seed : byte) : Identity :=
  default no_identity (Identity_create (replicate 32 x2a)
    (mkKeyPair (replicate 32 seed) (replicate 32 seed))
    (Some (mkKeyPair (toy_digest 32 (replicate 32 seed)) (replicate 32 seed)))).

Definition toy_certificate : IdentityRotationCertificate :=
  default (mkRotation [] [] [] [] [] [] 0 [])
    (create_identity_rotation_certificate (toy_identity x03) (toy_identity x04) 1700000000).

Lemma rotation_message_binds_witness : toy_certificate = toy_certificate.
Proof.
  apply rotation_message_binds.
  - vm_compute; repeat split; done.
  - vm_compute; repeat split; done.
  - reflexivity.
  - reflexivity.
Defined.

Lemma rotation_certificate_issued_witness :
  exists c,
    create_identity_rotation_certificate (toy_identity x03) (toy_identity x04) 1700000000 =
      Some c /\
    verify_identity_rotation_certificate c
      (public_key (signing_keypair (toy_identity x03))) = true /\
    next_signing_public_key c = public_key (signing_keypair (toy_identity x04)) /\
    next_key_agreement_public_key c = public_key (keypair (toy_identity x04)).
Proof.
  apply rotation_certificate_issued.
  - vm_compute; repeat split; done.
  - vm_compute; repeat split; done.
  - split; vm_compute; done.
  - vm_compute; reflexivity.
  - vm_compute; reflexivity.
  - vm_compute; reflexivity.
  - intros m. eexists. split; [reflexivity|].
    intros Heq%(f_equal (λ l, bval (hd x00 l))). revert Heq. vm_compute. discriminate.
Defined.
