(* ===== verification/Revocation.v ===== *)
(** * Membership revocations

    [src/identity/revocation.cpp]: signed revocation records, their wire format, and the
    bounded store a node keeps of them. *)

From Stdlib Require Import String.
From Stdlib Require Import ZArith Lia Bool.
From Stdlib.Strings Require Import Byte.
From stdpp Require Import base numbers gmap option list.
From S2P Require Import Prelude Wire Crypto Identity.
#[local] Open Scope Z_scope.

Record MembershipRevocation := mkRevocation {
  rv_network_id : NetworkId;
  issuer_signing_public_key : Key;
  enrollment_nonce : Key;
  revocation_epoch : Z;
  rv_issued_at : Z;
  rv_signature : list byte;
}.

#[export] Instance revocation_eq_dec : EqDecision MembershipRevocation.
Proof. solve_decision. Defined.

Definition MEMBERSHIP_REVOCATION_MAX_RECORDS : Z := 16.
Definition MEMBERSHIP_REVOCATION_MAX_STORED : Z := 1024.
Definition MEMBERSHIP_REVOCATION_RECORD_SIZE : Z := 176.
Definition REVOCATION_WIRE_VERSION : Z := 1.
Definition REVOCATION_DOMAIN : list byte :=
  String.list_byte_of_string "aegis-membership-revocation-v1"%string.
Definition REVOCATION_BODY_SIZE : nat := 32 + 32 + 32 + 8 + 8.

Definition signed_body (r : MembershipRevocation) : list byte :=
  default [] (encode_exact REVOCATION_BODY_SIZE
    (write_bytes (rv_network_id r) &> write_bytes (issuer_signing_public_key r) &>
     write_bytes (enrollment_nonce r) &> write_u64 (revocation_epoch r) &>
     write_u64 (rv_issued_at r))).

Definition revocation_message (r : MembershipRevocation) : list byte :=
  REVOCATION_DOMAIN ++ signed_body r.

Section revocation.
Context `{OpenSSL}.

Definition verify_membership_revocation (r : MembershipRevocation) : bool :=
  if bool_decide (rv_network_id r = zero32) ||
     bool_decide (issuer_signing_public_key r = zero32) ||
     bool_decide (enrollment_nonce r = zero32) || bool_decide (rv_signature r = zero_signature)
  then false
  else evp_ed25519_verify (issuer_signing_public_key r) (revocation_message r) (rv_signature r).

Definition sign_membership_revocation (network : NetworkId) (issuer issuer_private nonce : Key)
    (epoch issued : Z) : option MembershipRevocation :=
  if bool_decide (network = zero32) || bool_decide (issuer = zero32) ||
     bool_decide (nonce = zero32) then None
  else
    let unsigned := mkRevocation network issuer nonce epoch issued zero_signature in
    match sign_fixed issuer_private (revocation_message unsigned) with
    | None => None
    | Some s =>
        let r := mkRevocation network issuer nonce epoch issued s in
        if verify_membership_revocation r then Some r else None
    end.

(** ** Wire format *)

Definition write_revocation (r : MembershipRevocation) : WriteOp :=
  write_when (verify_membership_revocation r) &> write_bytes (rv_network_id r) &>
  write_bytes (issuer_signing_public_key r) &> write_bytes (enrollment_nonce r) &>
  write_u64 (revocation_epoch r) &> write_u64 (rv_issued_at r) &> write_bytes (rv_signature r).

Definition serialize_membership_revocations (rs : list MembershipRevocation)
    : option (list byte) :=
  let count := Z.of_nat (length rs) in
  if (count =? 0) || (MEMBERSHIP_REVOCATION_MAX_RECORDS <? count) then None
  else encode_exact (Z.to_nat (2 + count * MEMBERSHIP_REVOCATION_RECORD_SIZE))
    (write_u8 REVOCATION_WIRE_VERSION &> write_u8 (wrap 8 count) &>
     write_each write_revocation rs).

Definition read_revocation (r : WireReader) : option MembershipRevocation * WireReader :=
  let '(network, r) := read_bytes 32 r in
  let '(issuer, r) := read_bytes 32 r in
  let '(nonce, r) := read_bytes 32 r in
  let '(epoch, r) := read_u64 r in
  let '(issued, r) := read_u64 r in
  let '(signature, r) := read_bytes 64 r in
  match network, issuer, nonce, epoch, issued, signature with
  | Some network, Some issuer, Some nonce, Some epoch, Some issued, Some signature =>
      let rv := mkRevocation network issuer nonce epoch issued signature in
      if verify_membership_revocation rv then (Some rv, r) else (None, r)
  | _, _, _, _, _, _ => (None, r)
  end.

Definition deserialize_membership_revocations (data : list byte)
    : option (list MembershipRevocation) :=
  let length_ := Z.of_nat (length data) in
  if (length_ <? 2) || (2 + MEMBERSHIP_REVOCATION_MAX_RECORDS * MEMBERSHIP_REVOCATION_RECORD_SIZE
                          <? length_) then None
  else
    let '(version, r) := read_u8 (wire_reader data) in
    let '(count, r) := read_u8 r in
    match version, count with
    | Some version, Some count =>
        if negb (version =? REVOCATION_WIRE_VERSION) || (count =? 0) ||
           (MEMBERSHIP_REVOCATION_MAX_RECORDS <? count) ||
           negb (length_ =? 2 + count * MEMBERSHIP_REVOCATION_RECORD_SIZE) then None
        else match read_each read_revocation (Z.to_nat count) r with
             | (Some rs, r) => if rd_finished r then Some rs else None
             | (None, _) => None
             end
    | _, _ => None
    end.

(** ** The store *)

Definition same_subject (a b : MembershipRevocation) : bool :=
  bool_decide (rv_network_id a = rv_network_id b) &&
  bool_decide (issuer_signing_public_key a = issuer_signing_public_key b) &&
  bool_decide (enrollment_nonce a = enrollment_nonce b).

(** The first record about the same subject is replaced: [find_if] and the assignment. *)
Fixpoint replace_record (r : MembershipRevocation) (records : list MembershipRevocation)
    : option (bool * list MembershipRevocation) :=
  match records with
  | [] => None
  | x :: records =>
      if same_subject x r then
        Some (if revocation_epoch r <=? revocation_epoch x then (false, x :: records)
              else (true, r :: records))
      else match replace_record r records with
           | Some (b, records) => Some (b, x :: records)
           | None => None
           end
  end.

Definition add_revocation (r : MembershipRevocation) (records : list MembershipRevocation)
    : bool * list MembershipRevocation :=
  if negb (verify_membership_revocation r) then (false, records)
  else match replace_record r records with
       | Some res => res
       | None =>
           if MEMBERSHIP_REVOCATION_MAX_STORED <=? Z.of_nat (length records)
           then (false, records) else (true, records ++ [r])
       end.
End revocation.

(** ** The codec *)

Section laws.
Context `{OpenSSL}.

Definition revocation_wf (r : MembershipRevocation) : Prop :=
  is32 (rv_network_id r) /\ is32 (issuer_signing_public_key r) /\ is32 (enrollment_nonce r) /\
  u64 (revocation_epoch r) /\ u64 (rv_issued_at r) /\ length (rv_signature r) = 64%nat /\
  verify_membership_revocation r = true.

Definition revocation_bytes (r : MembershipRevocation) : list byte :=
  rv_network_id r ++ issuer_signing_public_key r ++ enrollment_nonce r ++
  be_split 8 (revocation_epoch r) ++ be_split 8 (rv_issued_at r) ++ rv_signature r.

#[export] Instance reads_revocation : Reads read_revocation revocation_bytes revocation_wf.
Proof.
  split.
  - intros [n i k ep is_ sg] pre post (H1 & H2 & H3 & H4 & H5 & H6 & H7).
    unfold read_revocation, revocation_bytes.
    cbn [rv_network_id issuer_signing_public_key enrollment_nonce revocation_epoch rv_issued_at
      rv_signature] in *. rewrite <- !app_assoc.
    rewrite (read_bytes_ok 32 n), (read_bytes_ok 32 i), (read_bytes_ok 32 k) by done.
    rewrite (reads_ok (f := read_u64)) by done. rewrite (reads_ok (f := read_u64)) by done.
    rewrite (read_bytes_ok 64 sg) by done. by rewrite H7, <- !app_assoc.
  - intros rv pre post r' H'. unfold read_revocation in H'. do 6 rd_inv_step H'.
    destruct (verify_membership_revocation _) eqn:Hv; [|done].
    apply pair_eq in H' as [<-%(inj Some) <-]. unfold revocation_wf, revocation_bytes.
    cbn [rv_network_id issuer_signing_public_key enrollment_nonce revocation_epoch rv_issued_at
      rv_signature]. split; [done|]. eexists. split; by rewrite <- !app_assoc.
Qed.

Lemma length_revocations rs :
  Forall revocation_wf rs -> length (flat_map revocation_bytes rs) = (length rs * 176)%nat.
Proof.
  induction 1 as [|r rs (H1 & H2 & H3 & _ & _ & H6 & _) _ IH]; [done|].
  cbn [flat_map length]. rewrite length_app, IH. unfold revocation_bytes, is32 in *.
  rewrite !length_app, H1, H2, H3, H6, !length_be_split. lia.
Qed.

Definition revocations_bytes (rs : list MembershipRevocation) : list byte :=
  be_split 1 1 ++ be_split 1 (Z.of_nat (length rs)) ++ flat_map revocation_bytes rs.

Definition revocations_wf (rs : list MembershipRevocation) : Prop :=
  1 <= Z.of_nat (length rs) <= 16 /\ Forall revocation_wf rs.

Lemma serialize_revocations_wf rs :
  revocations_wf rs -> serialize_membership_revocations rs = Some (revocations_bytes rs).
Proof.
  intros [Hl Hwf]. unfold serialize_membership_revocations, MEMBERSHIP_REVOCATION_MAX_RECORDS.
  rewrite (proj2 (Z.eqb_neq _ _)), (proj2 (Z.ltb_ge _ _)) by lia. cbn [orb].
  rewrite wrap_small by (unfold in_width; lia).
  erewrite encode_exact_emits.
  2:{ repeat (simple eapply emits_and; [solve_emits|]).
      apply (emits_each _ revocation_bytes). intros r Hr. rewrite Forall_forall in Hwf.
      destruct (Hwf r Hr) as (_ & _ & _ & _ & _ & _ & Hv). unfold write_revocation.
      rewrite Hv. unfold revocation_bytes. apply (emits_and _ _ []); [apply emits_true|]. solve_emits. }
  rewrite decide_True; [done|].
  rewrite !length_app, !length_be_split, length_revocations by done.
  unfold MEMBERSHIP_REVOCATION_RECORD_SIZE. lia.
Qed.

Lemma deserialize_revocations_spec bs rs :
  deserialize_membership_revocations bs = Some rs <-> revocations_wf rs /\ bs = revocations_bytes rs.
Proof.
  unfold deserialize_membership_revocations. rewrite wire_reader_at. split.
  - destruct (_ || _) eqn:Hlen; [done|]. intros H'. do 2 rd_inv_step H'.
    destruct (_ || _ || _ || _) eqn:Hg; [done|].
    rewrite !orb_false_iff, !negb_false_iff, Z.eqb_neq, !Z.eqb_eq, Z.ltb_ge in Hg.
    destruct Hg as [[[-> Hn0] Hn] _].
    destruct (read_each _ _ _) as [[rs'|] r'] eqn:E; [|done].
    apply (reads_inv (f := read_each read_revocation _)) in E as [[Hl Hwf] (p & -> & ->)].
    rewrite rd_finished_at in H'. case_bool_decide; [|done]. subst p. injection H' as <-.
    unfold revocations_wf, revocations_bytes, REVOCATION_WIRE_VERSION, in_width,
      MEMBERSHIP_REVOCATION_MAX_RECORDS in *.
    rewrite Hl, Z2Nat.id, app_nil_r by lia. split; [split; [lia|done]|done].
  - intros [[Hl Hwf] ->].
    assert (Z.of_nat (length (revocations_bytes rs)) = 2 + Z.of_nat (length rs) * 176) as Elen.
    { unfold revocations_bytes. rewrite !length_app, !length_be_split, length_revocations by done. lia. }
    rewrite Elen. unfold MEMBERSHIP_REVOCATION_MAX_RECORDS, MEMBERSHIP_REVOCATION_RECORD_SIZE.
    rewrite (proj2 (Z.ltb_ge _ _)), (proj2 (Z.ltb_ge _ _)) by lia. cbn [orb].
    unfold revocations_bytes.
    rewrite (reads_ok (f := read_u8)) by (unfold in_width; lia).
    rewrite (reads_ok (f := read_u8)) by (unfold in_width; lia).
    unfold REVOCATION_WIRE_VERSION. rewrite Z.eqb_refl, Z.eqb_refl.
    rewrite (proj2 (Z.eqb_neq _ _)), (proj2 (Z.ltb_ge _ _)) by lia. cbn [orb negb].
    rewrite <- (app_nil_r (flat_map _ _)), Nat2Z.id.
    rewrite (reads_ok (f := read_each read_revocation (length rs))) by done.
    by rewrite rd_finished_at, bool_decide_eq_true_2.
Qed.

(** Exactly the messages produced from one to sixteen verified revocations are accepted, and
    they decode to those revocations. *)
Theorem revocations_codec bs rs :
  deserialize_membership_revocations bs = Some rs <->
  revocations_wf rs /\ serialize_membership_revocations rs = Some bs.
Proof.
  rewrite deserialize_revocations_spec. split; intros [Hwf Hs]; (split; [done|]);
    rewrite serialize_revocations_wf in * by done; congruence.
Qed.

(** ** The store *)

Definition subject (r : MembershipRevocation) : list byte * list byte * list byte :=
  (rv_network_id r, issuer_signing_public_key r, enrollment_nonce r).

Lemma same_subject_spec a b : same_subject a b = true <-> subject a = subject b.
Proof.
  unfold same_subject, subject. rewrite !andb_true_iff, !bool_decide_eq_true.
  split; [by intros [[-> ->] ->]|by intros [= -> -> ->]].
Qed.

Definition store_ok (records : list MembershipRevocation) : Prop :=
  NoDup (subject <$> records) /\
  Forall (λ r, verify_membership_revocation r = true) records /\
  Z.of_nat (length records) <= MEMBERSHIP_REVOCATION_MAX_STORED.

(** The store knows a revocation of the subject of [r] at least as recent. *)
Definition covers_revocation (records : list MembershipRevocation) (r : MembershipRevocation)
    : Prop := exists x, x ∈ records /\ subject x = subject r /\ revocation_epoch r <= revocation_epoch x.

Lemma replace_record_spec r records :
  match replace_record r records with
  | None => subject r ∉ subject <$> records
  | Some (b, records') =>
      subject <$> records' = subject <$> records /\ covers_revocation records' r /\
      (forall x, x ∈ records' -> x = r \/ x ∈ records) /\
      (forall x, x ∈ records -> covers_revocation records' x) /\
      (b = false -> records' = records)
  end.
Proof.
  induction records as [|x records IH]; cbn [replace_record]; [apply not_elem_of_nil|].
  destruct (same_subject x r) eqn:Hs.
  - apply same_subject_spec in Hs. destruct (Z.leb_spec (revocation_epoch r) (revocation_epoch x)).
    + split_and!; [done|exists x; split_and!; [by left|done|done]|by right| |done].
      intros y Hy. exists y. split_and!; [done|done|lia].
    + split_and!; [by cbn; rewrite Hs|exists r; split_and!; [by left|done|lia]| | |done].
      * intros y [->|Hy]%elem_of_cons; [by left|right; by right].
      * intros y [->|Hy]%elem_of_cons; [exists r; split_and!; [by left|done|lia]|].
        exists y. split_and!; [by right|done|lia].
  - destruct (replace_record r records) as [[b records']|].
    + destruct IH as (H1 & (z & Hz & ? & ?) & H3 & H4 & H5). split_and!.
      * cbn. f_equal. exact H1.
      * exists z. split_and!; [by right|done|done].
      * intros y [->|Hy]%elem_of_cons; [right; by left|].
        destruct (H3 y Hy); [by left|right; by right].
      * intros y [->|Hy]%elem_of_cons; [exists x; split_and!; [by left|done|lia]|].
        destruct (H4 y Hy) as (w & Hw & ? & ?). exists w. split_and!; [by right|done|done].
      * intros Hb. f_equal. auto.
    + cbn. rewrite not_elem_of_cons. split; [|done]. intros E. symmetry in E.
      apply same_subject_spec in E. congruence.
Qed.

Lemma add_revocation_spec r records :
  store_ok records ->
  let '(added, records') := add_revocation r records in
  store_ok records' /\ (forall x, x ∈ records -> covers_revocation records' x) /\
  (if added then verify_membership_revocation r = true /\ covers_revocation records' r
   else records' = records /\
     (verify_membership_revocation r = false \/ covers_revocation records r \/
      Z.of_nat (length records) = MEMBERSHIP_REVOCATION_MAX_STORED)).
Proof.
  intros (Hnd & Hv & Hlen). unfold add_revocation.
  assert (forall x, x ∈ records -> covers_revocation records x) as Hrefl.
  { intros x Hx. exists x. split_and!; [done|done|lia]. }
  destruct (verify_membership_revocation r) eqn:Hr; cbn [negb];
    [|split_and!; [done|done|done|by left]].
  pose proof (replace_record_spec r records) as Hrep.
  destruct (replace_record r records) as [[b records']|].
  - destruct Hrep as (H1 & H2 & H3 & H4 & H5). split_and!; [|done|].
    + split_and!.
      * by rewrite H1.
      * apply Forall_forall. intros x Hx. rewrite Forall_forall in Hv. destruct (H3 x Hx) as [->|?]; auto.
      * apply (f_equal length) in H1. rewrite !length_fmap in H1. by rewrite H1.
    + destruct b; [done|]. specialize (H5 eq_refl). subst. split; [done|]. right. by left.
  - destruct (Z.leb_spec MEMBERSHIP_REVOCATION_MAX_STORED (Z.of_nat (length records))).
    + split_and!; [done|done|done|]. right. right. lia.
    + split_and!; [| |done|].
      * split_and!.
        -- rewrite fmap_app. apply NoDup_app. split_and!; [done| |apply NoDup_singleton].
           intros x Hx Hx'. apply list_elem_of_singleton in Hx'. by subst.
        -- apply Forall_app. split; [done|]. by apply Forall_singleton.
        -- rewrite length_app. cbn. lia.
      * intros x Hx. exists x. split_and!; [apply elem_of_app; by left|done|lia].
      * exists r. split_and!; [|done|lia]. apply elem_of_app. right. by apply list_elem_of_singleton.
Qed.

Definition add_all (records : list MembershipRevocation) (rs : list MembershipRevocation)
    : list MembershipRevocation := foldl (λ records r, snd (add_revocation r records)) records rs.

Lemma add_all_ok rs : forall records,
  store_ok records -> store_ok (add_all records rs) /\
  forall x, (exists y, y ∈ records /\ subject y = subject x /\
                       revocation_epoch x <= revocation_epoch y) ->
  covers_revocation (add_all records rs) x.
Proof.
  induction rs as [|r rs IH]; intros records Hok; cbn; [done|].
  pose proof (add_revocation_spec r records Hok) as Hadd.
  destruct (add_revocation r records) as [b records']. destruct Hadd as (Hok' & Hkeep & _).
  destruct (IH records' Hok') as [H1 H2]. split; [done|].
  intros x (y & Hy & Hs & He). destruct (Hkeep y Hy) as (z & Hz & Hzs & Hze).
  apply H2. exists z. split_and!; [done|congruence|lia].
Qed.

(** A revocation once accepted is in force for ever: whatever is added later, the store keeps
    a verified revocation of the same member by the same issuer with an epoch at least as high.
    The store never holds more than 1024 records, nor two about one subject, and a verified
    revocation is refused only if one at least as recent is known or the store is full. *)
Theorem revocations_never_forgotten before r after :
  let s := add_all [] before in
  let '(added, s') := add_revocation r s in
  let s'' := add_all s' after in
  (added = true -> exists x, x ∈ s'' /\ verify_membership_revocation x = true /\
     subject x = subject r /\ revocation_epoch r <= revocation_epoch x) /\
  (added = false -> verify_membership_revocation r = true ->
     (exists x, x ∈ s /\ subject x = subject r /\ revocation_epoch r <= revocation_epoch x) \/
     Z.of_nat (length s) = 1024) /\
  Z.of_nat (length s'') <= 1024 /\ NoDup (subject <$> s'').
Proof.
  intros s. assert (store_ok []) as H0 by (split_and!; [constructor|constructor|done]).
  destruct (add_all_ok before [] H0) as [Hs _]. fold s in Hs.
  pose proof (add_revocation_spec r s Hs) as Hadd.
  destruct (add_revocation r s) as [added s']. destruct Hadd as (Hs' & _ & Hres).
  destruct (add_all_ok after s' Hs') as [(Hnd & Hv & Hl) Hcov].
  split_and!; [| |exact Hl|exact Hnd].
  - intros ->. destruct Hres as [_ Hc]. destruct (Hcov r Hc) as (x & Hx & Hsub & He).
    exists x. rewrite Forall_forall in Hv. split_and!; auto.
  - intros -> Hr. destruct Hres as [_ [?|[Hc|Hfull]]]; [congruence|by left|by right].
Qed.
End laws.
