(* ===== verification/HandshakeV2.v ===== *)
(** * Handshake v2 frames ([src/session/handshake_v2.cpp])

    The bounded envelope of the two Noise IK messages and the Noise prologue
    that binds the network, the session and both headers. *)

From Stdlib Require Import String.
From stdpp Require Import base numbers list option.
From Stdlib Require Import ZArith Lia Bool.
From Stdlib.Strings Require Import Byte.
From S2P Require Import Prelude Wire Crypto.
#[local] Open Scope Z_scope.

Definition HANDSHAKE_V2_VERSION : Z := 2.
Definition HANDSHAKE_V2_INIT_TYPE : Z := 0.
Definition HANDSHAKE_V2_RESPONSE_TYPE : Z := 1.
Definition HANDSHAKE_V2_FLAGS : Z := 0.
Definition HANDSHAKE_V2_INITIATOR_ROLE : Z := 1.
Definition HANDSHAKE_V2_RESPONDER_ROLE : Z := 2.

Definition HANDSHAKE_V2_PROLOGUE_DOMAIN : list byte :=
  String.list_byte_of_string "aegis-handshake-v2"%string.
Definition HANDSHAKE_V2_NOISE_PROTOCOL : list byte :=
  String.list_byte_of_string "Noise_IK_25519_ChaChaPoly_BLAKE2s"%string.

Definition HANDSHAKE_V2_HEADER_SIZE : nat := 9.
Definition HANDSHAKE_V2_INIT_NOISE_SIZE : nat := 96.
Definition HANDSHAKE_V2_RESPONSE_NOISE_SIZE : nat := 48.
Definition HANDSHAKE_V2_INIT_PAYLOAD_SIZE : nat :=
  NETWORK_ID_SIZE + HANDSHAKE_V2_INIT_NOISE_SIZE.
Definition HANDSHAKE_V2_RESPONSE_PAYLOAD_SIZE : nat := HANDSHAKE_V2_RESPONSE_NOISE_SIZE.
Definition HANDSHAKE_V2_INIT_FRAME_SIZE : nat :=
  HANDSHAKE_V2_HEADER_SIZE + HANDSHAKE_V2_INIT_PAYLOAD_SIZE.
Definition HANDSHAKE_V2_RESPONSE_FRAME_SIZE : nat :=
  HANDSHAKE_V2_HEADER_SIZE + HANDSHAKE_V2_RESPONSE_PAYLOAD_SIZE.
Definition HANDSHAKE_V2_PROLOGUE_SIZE : nat :=
  1 + length HANDSHAKE_V2_PROLOGUE_DOMAIN + 1 + length HANDSHAKE_V2_NOISE_PROTOCOL +
  1 + NETWORK_ID_SIZE + 4 + 2 + 2 * HANDSHAKE_V2_HEADER_SIZE.

Record HandshakeV2InitFrame := mkInitFrame {
  init_session_id : Z; init_network_id : NetworkId; init_noise_message : list byte }.

Record HandshakeV2ResponseFrame := mkResponseFrame {
  resp_session_id : Z; resp_noise_message : list byte }.

Definition write_header (type session_id payload_length : Z) : WriteOp :=
  write_when (negb (session_id =? 0)) &>
  write_u8 HANDSHAKE_V2_VERSION &> write_u8 type &> write_u8 HANDSHAKE_V2_FLAGS &>
  write_u32 session_id &> write_u16 payload_length.

(** The session identifier on success; the reader is advanced in any case. *)
Definition read_header (expected_type expected_payload_length : Z) (r : WireReader)
    : option Z * WireReader :=
  let '(version, r) := read_u8 r in
  let '(type, r) := read_u8 r in
  let '(flags, r) := read_u8 r in
  let '(parsed_session_id, r) := read_u32 r in
  let '(payload_length, r) := read_u16 r in
  match version, type, flags, parsed_session_id, payload_length with
  | Some version, Some type, Some flags, Some parsed_session_id, Some payload_length =>
      if negb (version =? HANDSHAKE_V2_VERSION) || negb (type =? expected_type) ||
         negb (flags =? HANDSHAKE_V2_FLAGS) || (parsed_session_id =? 0) ||
         negb (payload_length =? expected_payload_length)
      then (None, r) else (Some parsed_session_id, r)
  | _, _, _, _, _ => (None, r)
  end.

Definition write_prologue_header (type session_id payload_length : Z) : WriteOp :=
  write_u8 HANDSHAKE_V2_VERSION &> write_u8 type &> write_u8 HANDSHAKE_V2_FLAGS &>
  write_u32 session_id &> write_u16 payload_length.

Definition make_handshake_v2_prologue (network_id : NetworkId) (session_id : Z)
    : option (list byte) :=
  if session_id =? 0 then None
  else encode_exact HANDSHAKE_V2_PROLOGUE_SIZE
    (write_u8 (Z.of_nat (length HANDSHAKE_V2_PROLOGUE_DOMAIN)) &>
     write_bytes HANDSHAKE_V2_PROLOGUE_DOMAIN &>
     write_u8 (Z.of_nat (length HANDSHAKE_V2_NOISE_PROTOCOL)) &>
     write_bytes HANDSHAKE_V2_NOISE_PROTOCOL &>
     write_u8 HANDSHAKE_V2_VERSION &>
     write_bytes network_id &> write_u32 session_id &>
     write_u8 HANDSHAKE_V2_INITIATOR_ROLE &>
     write_u8 HANDSHAKE_V2_RESPONDER_ROLE &>
     write_prologue_header HANDSHAKE_V2_INIT_TYPE session_id
       (Z.of_nat HANDSHAKE_V2_INIT_PAYLOAD_SIZE) &>
     write_prologue_header HANDSHAKE_V2_RESPONSE_TYPE session_id
       (Z.of_nat HANDSHAKE_V2_RESPONSE_PAYLOAD_SIZE)).

Definition serialize_handshake_v2_init (frame : HandshakeV2InitFrame)
    : option (list byte) :=
  encode_exact HANDSHAKE_V2_INIT_FRAME_SIZE
    (write_header HANDSHAKE_V2_INIT_TYPE (init_session_id frame)
       (Z.of_nat HANDSHAKE_V2_INIT_PAYLOAD_SIZE) &>
     write_bytes (init_network_id frame) &> write_bytes (init_noise_message frame)).

Definition parse_handshake_v2_init (bytes : list byte) : option HandshakeV2InitFrame :=
  if negb (Nat.eqb (length bytes) HANDSHAKE_V2_INIT_FRAME_SIZE) then None else
  let r := wire_reader bytes in
  let '(session_id, r) := read_header HANDSHAKE_V2_INIT_TYPE
                            (Z.of_nat HANDSHAKE_V2_INIT_PAYLOAD_SIZE) r in
  match session_id with
  | None => None
  | Some session_id =>
      let '(network_id, r) := read_bytes NETWORK_ID_SIZE r in
      let '(noise_message, r) := read_bytes HANDSHAKE_V2_INIT_NOISE_SIZE r in
      match network_id, noise_message with
      | Some network_id, Some noise_message =>
          if rd_finished r then Some (mkInitFrame session_id network_id noise_message)
          else None
      | _, _ => None
      end
  end.

Definition serialize_handshake_v2_response (frame : HandshakeV2ResponseFrame)
    : option (list byte) :=
  encode_exact HANDSHAKE_V2_RESPONSE_FRAME_SIZE
    (write_header HANDSHAKE_V2_RESPONSE_TYPE (resp_session_id frame)
       (Z.of_nat HANDSHAKE_V2_RESPONSE_PAYLOAD_SIZE) &>
     write_bytes (resp_noise_message frame)).

Definition parse_handshake_v2_response (bytes : list byte)
    : option HandshakeV2ResponseFrame :=
  if negb (Nat.eqb (length bytes) HANDSHAKE_V2_RESPONSE_FRAME_SIZE) then None else
  let r := wire_reader bytes in
  let '(session_id, r) := read_header HANDSHAKE_V2_RESPONSE_TYPE
                            (Z.of_nat HANDSHAKE_V2_RESPONSE_PAYLOAD_SIZE) r in
  match session_id with
  | None => None
  | Some session_id =>
      let '(noise_message, r) := read_bytes HANDSHAKE_V2_RESPONSE_NOISE_SIZE r in
      match noise_message with
      | Some noise_message =>
          if rd_finished r then Some (mkResponseFrame session_id noise_message)
          else None
      | None => None
      end
  end.

(** ** Well-formed frames and their bytes *)

Definition init_frame_wf (f : HandshakeV2InitFrame) : Prop :=
  u32 (init_session_id f) /\ init_session_id f <> 0 /\
  length (init_network_id f) = 32%nat /\ length (init_noise_message f) = 96%nat.

Definition response_frame_wf (f : HandshakeV2ResponseFrame) : Prop :=
  u32 (resp_session_id f) /\ resp_session_id f <> 0 /\
  length (resp_noise_message f) = 48%nat.

Definition hs_header_bytes (type session_id payload_length : Z) : list byte :=
  be_split 1 2 ++ be_split 1 type ++ be_split 1 0 ++ be_split 4 session_id ++
  be_split 2 payload_length.

Lemma emits_header type sid len :
  sid <> 0 -> Emits (write_header type sid len) (hs_header_bytes type sid len).
Proof.
  intros Hs. unfold write_header, hs_header_bytes.
  rewrite (proj2 (Z.eqb_neq sid 0) Hs). simpl negb.
  rewrite <- (app_nil_l (be_split 1 2 ++ _)). solve_emits.
Qed.

Lemma refuses_header type len : Refuses (write_header type 0 len).
Proof. intros dn room. done. Qed.

Lemma serialize_init_bytes f :
  serialize_handshake_v2_init f =
    if decide (init_session_id f <> 0 /\
               (length (init_network_id f) + length (init_noise_message f) = 128)%nat)
    then Some (hs_header_bytes 0 (init_session_id f) 128 ++ init_network_id f ++
               init_noise_message f)
    else None.
Proof.
  unfold serialize_handshake_v2_init.
  destruct (decide (init_session_id f = 0)) as [->|Hs].
  { rewrite decide_False by tauto. apply encode_exact_refuses, refuses_and_l,
      refuses_header. }
  pose proof (emits_header HANDSHAKE_V2_INIT_TYPE (init_session_id f) 128 Hs) as Hh.
  erewrite encode_exact_emits by (simple eapply emits_and; [exact Hh|]; solve_emits).
  rewrite !length_app. change (length (hs_header_bytes _ _ _)) with 9%nat.
  apply decide_ext. unfold HANDSHAKE_V2_INIT_FRAME_SIZE, HANDSHAKE_V2_HEADER_SIZE,
    HANDSHAKE_V2_INIT_PAYLOAD_SIZE, NETWORK_ID_SIZE, HANDSHAKE_V2_INIT_NOISE_SIZE.
  lia.
Qed.

Lemma serialize_response_bytes f :
  serialize_handshake_v2_response f =
    if decide (resp_session_id f <> 0 /\ length (resp_noise_message f) = 48%nat)
    then Some (hs_header_bytes 1 (resp_session_id f) 48 ++ resp_noise_message f)
    else None.
Proof.
  unfold serialize_handshake_v2_response.
  destruct (decide (resp_session_id f = 0)) as [->|Hs].
  { rewrite decide_False by tauto. apply encode_exact_refuses, refuses_and_l,
      refuses_header. }
  pose proof (emits_header HANDSHAKE_V2_RESPONSE_TYPE (resp_session_id f) 48 Hs) as Hh.
  erewrite encode_exact_emits by (simple eapply emits_and; [exact Hh|]; solve_emits).
  rewrite !length_app. change (length (hs_header_bytes _ _ _)) with 9%nat.
  apply decide_ext. unfold HANDSHAKE_V2_RESPONSE_FRAME_SIZE, HANDSHAKE_V2_HEADER_SIZE,
    HANDSHAKE_V2_RESPONSE_PAYLOAD_SIZE, HANDSHAKE_V2_RESPONSE_NOISE_SIZE.
  lia.
Qed.

(** [read_header] accepts exactly the header [write_header] produces. *)
Lemma reads_header type len :
  u8 type -> u16 len ->
  Reads (read_header type len) (λ sid, hs_header_bytes type sid len)
    (λ sid, u32 sid /\ sid <> 0).
Proof.
  intros Ht Hl. split.
  - intros sid pre post [Hs Hne]. unfold read_header, hs_header_bytes.
    rewrite <- !app_assoc. rd_run.
    rewrite !Z.eqb_refl, (proj2 (Z.eqb_neq sid 0) Hne).
    simpl. by rewrite <- !app_assoc.
  - intros sid pre post r'. unfold read_header. intros Hr.
    do 5 rd_inv_step Hr.
    destruct (Z.eqb_spec v HANDSHAKE_V2_VERSION), (Z.eqb_spec v0 type),
      (Z.eqb_spec v1 HANDSHAKE_V2_FLAGS), (Z.eqb_spec v2 0), (Z.eqb_spec v3 len);
      try done. subst. simplify_eq/=. split; [done|].
    eexists. unfold hs_header_bytes. by rewrite <- !app_assoc.
Qed.

#[export] Instance reads_init_header :
  Reads (read_header HANDSHAKE_V2_INIT_TYPE (Z.of_nat HANDSHAKE_V2_INIT_PAYLOAD_SIZE))
    (λ sid, hs_header_bytes 0 sid 128) (λ sid, u32 sid /\ sid <> 0).
Proof. by apply (reads_header 0 128). Qed.

#[export] Instance reads_response_header :
  Reads (read_header HANDSHAKE_V2_RESPONSE_TYPE
           (Z.of_nat HANDSHAKE_V2_RESPONSE_PAYLOAD_SIZE))
    (λ sid, hs_header_bytes 1 sid 48) (λ sid, u32 sid /\ sid <> 0).
Proof. by apply (reads_header 1 48). Qed.

Lemma parse_init_ok f :
  init_frame_wf f ->
  parse_handshake_v2_init (hs_header_bytes 0 (init_session_id f) 128 ++
    init_network_id f ++ init_noise_message f) = Some f.
Proof.
  intros (Hs & H0 & Hn & Hm). unfold parse_handshake_v2_init.
  rewrite !length_app, Hn, Hm. simpl negb. cbv iota.
  rewrite wire_reader_at, <- (app_nil_r (init_noise_message f)).
  rewrite (reads_ok (Reads := reads_init_header)) by done.
  rd_run. rewrite rd_finished_at. by destruct f.
Qed.

Lemma parse_init_inv bs f :
  parse_handshake_v2_init bs = Some f ->
  init_frame_wf f /\
  bs = hs_header_bytes 0 (init_session_id f) 128 ++ init_network_id f ++
       init_noise_message f.
Proof.
  unfold parse_handshake_v2_init. case_match; [done|]. rewrite wire_reader_at.
  intros Hp. rd_inv_step Hp. do 2 rd_inv_step Hp. rewrite rd_finished_at in Hp.
  case_bool_decide; [|done]. subst. injection Hp as <-. unfold init_frame_wf; simpl.
  rewrite app_nil_r. tauto.
Qed.

Lemma parse_response_ok f :
  response_frame_wf f ->
  parse_handshake_v2_response
    (hs_header_bytes 1 (resp_session_id f) 48 ++ resp_noise_message f) = Some f.
Proof.
  intros (Hs & H0 & Hm). unfold parse_handshake_v2_response.
  rewrite !length_app, Hm. simpl negb. cbv iota.
  rewrite wire_reader_at, <- (app_nil_r (resp_noise_message f)).
  rewrite (reads_ok (Reads := reads_response_header)) by done.
  rd_run. rewrite rd_finished_at. by destruct f.
Qed.

Lemma parse_response_inv bs f :
  parse_handshake_v2_response bs = Some f ->
  response_frame_wf f /\
  bs = hs_header_bytes 1 (resp_session_id f) 48 ++ resp_noise_message f.
Proof.
  unfold parse_handshake_v2_response. case_match; [done|]. rewrite wire_reader_at.
  intros Hp. rd_inv_step Hp. rd_inv_step Hp. rewrite rd_finished_at in Hp.
  case_bool_decide; [|done]. subst. injection Hp as <-. unfold response_frame_wf; simpl.
  rewrite app_nil_r. tauto.
Qed.

(** INIT frames: a byte string parses to a frame exactly when the frame is in
    range and serializes to that byte string, so every accepted INIT is
    canonical (one encoding per frame, no trailing bytes, non-zero session). *)
Theorem handshake_init_codec bs f :
  parse_handshake_v2_init bs = Some f <->
  init_frame_wf f /\ serialize_handshake_v2_init f = Some bs.
Proof.
  rewrite serialize_init_bytes. split.
  - intros [Hwf ->]%parse_init_inv. split; [done|].
    destruct Hwf as (? & ? & -> & ->). by rewrite decide_True.
  - intros [Hwf Hs]. case_decide; simplify_eq. by apply parse_init_ok.
Qed.

(** RESPONSE frames are canonical in the same sense. *)
Theorem handshake_response_codec bs f :
  parse_handshake_v2_response bs = Some f <->
  response_frame_wf f /\ serialize_handshake_v2_response f = Some bs.
Proof.
  rewrite serialize_response_bytes. split.
  - intros [Hwf ->]%parse_response_inv. split; [done|].
    destruct Hwf as (? & ? & ->). by rewrite decide_True.
  - intros [Hwf Hs]. case_decide; simplify_eq. by apply parse_response_ok.
Qed.

(** ** The Noise prologue *)

Definition prologue_bytes (network_id : NetworkId) (session_id : Z) : list byte :=
  be_split 1 18 ++ HANDSHAKE_V2_PROLOGUE_DOMAIN ++
  be_split 1 33 ++ HANDSHAKE_V2_NOISE_PROTOCOL ++
  be_split 1 2 ++ network_id ++ be_split 4 session_id ++
  be_split 1 1 ++ be_split 1 2 ++
  (be_split 1 2 ++ be_split 1 0 ++ be_split 1 0 ++ be_split 4 session_id ++
   be_split 2 128) ++
  (be_split 1 2 ++ be_split 1 1 ++ be_split 1 0 ++ be_split 4 session_id ++
   be_split 2 48).

Lemma make_prologue_bytes network_id session_id :
  make_handshake_v2_prologue network_id session_id =
    if decide (session_id <> 0 /\ is32 network_id)
    then Some (prologue_bytes network_id session_id) else None.
Proof.
  unfold make_handshake_v2_prologue.
  destruct (Z.eqb_spec session_id 0); [by rewrite decide_False by tauto|].
  rewrite (encode_exact_emits _ _ (prologue_bytes network_id session_id)).
  - apply decide_ext. unfold prologue_bytes, is32. rewrite !length_app, !length_be_split.
    change (length HANDSHAKE_V2_PROLOGUE_DOMAIN) with 18%nat.
    change (length HANDSHAKE_V2_NOISE_PROTOCOL) with 33%nat.
    change HANDSHAKE_V2_PROLOGUE_SIZE with 110%nat. lia.
  - unfold prologue_bytes, write_prologue_header. solve_emits.
Qed.

(** The prologue that enters the Noise transcript determines the network and
    the session: two handshakes with the same prologue agree on both, so a
    message of one mesh or session never authenticates in another. *)
Theorem prologue_binds_network_and_session n1 s1 n2 s2 p :
  u32 s1 -> u32 s2 ->
  make_handshake_v2_prologue n1 s1 = Some p ->
  make_handshake_v2_prologue n2 s2 = Some p ->
  n1 = n2 /\ s1 = s2.
Proof.
  intros H1 H2. rewrite !make_prologue_bytes. unfold is32.
  do 2 (case_decide as Hd; [|done]; destruct Hd as [? ?]).
  intros <-%(inj Some) Heq%(inj Some). unfold prologue_bytes in Heq.
  do 5 apply app_inv_head in Heq.
  apply app_inj_1 in Heq as [-> Heq]; [|congruence]. split; [done|].
  apply app_inj_1 in Heq as [Heq _]; [|by rewrite !length_be_split].
  symmetry. apply be_split_inj in Heq; done.
Qed.

Lemma prologue_binds_network_and_session_witness :
  let n := replicate 32 x07 in
  n = n /\ 9 = 9.
Proof.
  cbv zeta.
  exact (prologue_binds_network_and_session (replicate 32 x07) 9 (replicate 32 x07) 9
    (prologue_bytes (replicate 32 x07) 9)
    ltac:(vm_compute; done) ltac:(vm_compute; done)
    ltac:(vm_compute; reflexivity) ltac:(vm_compute; reflexivity)).
Defined.
