(* ===== verification/NoiseIk.v ===== *)
(** * The Noise IK wrapper ([src/session/noise_ik.cpp])

    Noise-C is a vendored third-party library ([third_party/noise-c]) that the
    wrapper uses through a handful of calls: its handshake state is an abstract
    type of the class [NoiseC], those calls are the operations of the class.
    [NoiseIkHandshake] owns one such state ([impl_state]); the wrapper frees it
    ([None]) on the first error and after a split. *)

From Stdlib Require Import String.
From stdpp Require Import base numbers list option.
From Stdlib Require Import ZArith Lia Bool.
From Stdlib.Strings Require Import Byte.
From S2P Require Import Prelude Crypto.

(** ** Noise-C *)

(** The return codes of Noise-C; the codes the wrapper does not name are
    [NOISE_ERROR_OTHER]. *)
Inductive NoiseError :=
  | NOISE_ERROR_NONE | NOISE_ERROR_INVALID_PARAM | NOISE_ERROR_INVALID_LENGTH
  | NOISE_ERROR_INVALID_STATE | NOISE_ERROR_MAC_FAILURE
  | NOISE_ERROR_INVALID_PUBLIC_KEY | NOISE_ERROR_OTHER (code : Z).

#[export] Instance noise_error_eq_dec : EqDecision NoiseError.
Proof. solve_decision. Defined.

Inductive NoiseRole := NOISE_ROLE_INITIATOR | NOISE_ROLE_RESPONDER.
#[export] Instance noise_role_eq_dec : EqDecision NoiseRole.
Proof. solve_decision. Defined.

Inductive NoiseAction :=
  | NOISE_ACTION_NONE | NOISE_ACTION_WRITE_MESSAGE | NOISE_ACTION_READ_MESSAGE
  | NOISE_ACTION_FAILED | NOISE_ACTION_SPLIT | NOISE_ACTION_COMPLETE.
#[export] Instance noise_action_eq_dec : EqDecision NoiseAction.
Proof. solve_decision. Defined.

(** The three [NoiseDHState] objects inside a handshake state. *)
Inductive DhSlot := LocalKeypair | RemotePublicKey | FixedEphemeral.

Class NoiseC := {
  NoiseHandshakeState : Type;
  NoiseCipherState : Type;
  noise_init : NoiseError;
  noise_handshakestate_new_by_name :
    list byte -> NoiseRole -> NoiseError * option NoiseHandshakeState;
  (** whether [noise_handshakestate_get_..._dh] returns an object *)
  noise_has_dh : NoiseHandshakeState -> DhSlot -> bool;
  noise_dhstate_set_keypair_private :
    NoiseHandshakeState -> DhSlot -> list byte -> NoiseError * NoiseHandshakeState;
  noise_dhstate_set_public_key :
    NoiseHandshakeState -> DhSlot -> list byte -> NoiseError * NoiseHandshakeState;
  noise_dhstate_has_public_key : NoiseHandshakeState -> DhSlot -> bool;
  (** writes the key into a buffer of the given size *)
  noise_dhstate_get_public_key :
    NoiseHandshakeState -> DhSlot -> nat -> NoiseError * list byte;
  noise_handshakestate_set_prologue :
    NoiseHandshakeState -> list byte -> NoiseError * NoiseHandshakeState;
  noise_handshakestate_start :
    NoiseHandshakeState -> NoiseError * NoiseHandshakeState;
  (** the capacity of the message buffer and the payload, if any *)
  noise_handshakestate_write_message :
    NoiseHandshakeState -> nat -> option (list byte) ->
    NoiseError * list byte * NoiseHandshakeState;
  (** the message and the capacity of the payload buffer *)
  noise_handshakestate_read_message :
    NoiseHandshakeState -> list byte -> nat ->
    NoiseError * list byte * NoiseHandshakeState;
  noise_handshakestate_get_role : NoiseHandshakeState -> NoiseRole;
  noise_handshakestate_get_action : NoiseHandshakeState -> NoiseAction;
  noise_handshakestate_get_handshake_hash :
    NoiseHandshakeState -> nat -> NoiseError * list byte;
  noise_handshakestate_split :
    NoiseHandshakeState ->
    NoiseError * option NoiseCipherState * option NoiseCipherState;
  aegis_noise_cipherstate_export_key :
    NoiseCipherState -> nat -> NoiseError * list byte;
}.

Definition NOISE_IK_PROTOCOL_NAME : list byte :=
  String.list_byte_of_string "Noise_IK_25519_ChaChaPoly_BLAKE2s"%string.
Definition NOISE_IK_HASH_SIZE : nat := 32.
Definition X25519_KEY_SIZE : nat := 32.

Inductive NoiseIkError :=
  | ik_none | ik_invalid_argument | ik_invalid_state | ik_buffer_too_small
  | ik_authentication_failed | ik_dependency_failure.
#[export] Instance noise_ik_error_eq_dec : EqDecision NoiseIkError.
Proof. solve_decision. Defined.

Record NoiseIkOperationResult := mkOpResult { op_error : NoiseIkError; op_bytes : nat }.

(** [explicit operator bool]. *)
Definition op_ok (r : NoiseIkOperationResult) : bool :=
  bool_decide (op_error r = ik_none).

Record NoiseIkSplitResult := mkSplit {
  split_remote_static : list byte;
  split_handshake_hash : list byte;
  split_send_key : list byte;
  split_receive_key : list byte;
}.

Definition map_noise_error (error : NoiseError) : NoiseIkError :=
  match error with
  | NOISE_ERROR_NONE => ik_none
  | NOISE_ERROR_INVALID_PARAM | NOISE_ERROR_INVALID_LENGTH => ik_invalid_argument
  | NOISE_ERROR_INVALID_STATE => ik_invalid_state
  | NOISE_ERROR_MAC_FAILURE | NOISE_ERROR_INVALID_PUBLIC_KEY => ik_authentication_failed
  | NOISE_ERROR_OTHER _ => ik_dependency_failure
  end.

(** ** The wrapper *)

Section noise_ik.
Context `{NoiseC, RandomSource}.

(** [impl_->state]; [None] is the null pointer. *)
Record NoiseIkHandshake := mkHandshake { impl_state : option NoiseHandshakeState }.

Definition is_none (e : NoiseError) : bool := bool_decide (e = NOISE_ERROR_NONE).

(** A dependency step of [create]: the next state when the call succeeds. *)
Definition noise_try (r : NoiseError * NoiseHandshakeState)
    : option NoiseHandshakeState :=
  if is_none (fst r) then Some (snd r) else None.

Definition set_private_in (slot : DhSlot) (key : list byte) (s : NoiseHandshakeState)
    : option NoiseHandshakeState :=
  if noise_has_dh s slot then noise_try (noise_dhstate_set_keypair_private s slot key)
  else None.

(** The remote static key, when the caller has one. *)
Definition set_remote_in (remote : option (list byte)) (s : NoiseHandshakeState)
    : option NoiseHandshakeState :=
  match remote with
  | None => Some s
  | Some key =>
      if noise_has_dh s RemotePublicKey then
        noise_try (noise_dhstate_set_public_key s RemotePublicKey key)
      else None
  end.

Definition create (role : NoiseRole) (local_static_private : list byte)
    (expected_responder_static : option (list byte)) (prologue : list byte) (random : rng)
    : option NoiseIkHandshake * rng :=
  if xorb (bool_decide (role = NOISE_ROLE_INITIATOR))
          (bool_decide (is_Some expected_responder_static))
  then (None, random) else
  let ready :=
    if negb (is_none noise_init) then None else
    match noise_handshakestate_new_by_name NOISE_IK_PROTOCOL_NAME role with
    | (NOISE_ERROR_NONE, Some state) =>
        state ← set_private_in LocalKeypair local_static_private state;
        state ← set_remote_in expected_responder_static state;
        noise_try (noise_handshakestate_set_prologue state prologue)
    | _ => None
    end in
  match ready with
  | None => (None, random)
  | Some state =>
      match rng_fill X25519_KEY_SIZE random with
      | (None, random) => (None, random)
      | (Some ephemeral_private, random) =>
          (state ← set_private_in FixedEphemeral ephemeral_private state;
           state ← noise_try (noise_handshakestate_start state);
           Some (mkHandshake (Some state)), random)
      end
  end.

Definition create_initiator (local_static_private expected_responder_static
    prologue : list byte) (random : rng) : option NoiseIkHandshake * rng :=
  create NOISE_ROLE_INITIATOR local_static_private (Some expected_responder_static)
    prologue random.

Definition create_responder (local_static_private prologue : list byte) (random : rng)
    : option NoiseIkHandshake * rng :=
  create NOISE_ROLE_RESPONDER local_static_private None prologue random.

(** The error a failed message operation reports. *)
Definition message_error (error : NoiseError) : NoiseIkError :=
  match error with
  | NOISE_ERROR_INVALID_LENGTH => ik_buffer_too_small
  | _ => map_noise_error error
  end.

(** The result, the bytes Noise-C wrote into the output span of [output_size]
    bytes, and the wrapper afterwards. *)
Definition write_message (h : NoiseIkHandshake) (payload : list byte) (output_size : nat)
    : NoiseIkOperationResult * list byte * NoiseIkHandshake :=
  match impl_state h with
  | None => (mkOpResult ik_invalid_argument 0, [], h)
  | Some state =>
      if Nat.eqb output_size 0
      then (mkOpResult ik_buffer_too_small 0, [], mkHandshake None)
      else
        let payload_pointer := match payload with [] => None | _ => Some payload end in
        match noise_handshakestate_write_message state output_size payload_pointer with
        | (NOISE_ERROR_NONE, message, state) =>
            (mkOpResult ik_none (length message), message, mkHandshake (Some state))
        | (error, _, _) => (mkOpResult (message_error error) 0, [], mkHandshake None)
        end
  end.

Definition read_message (h : NoiseIkHandshake) (message : list byte) (payload_size : nat)
    : NoiseIkOperationResult * list byte * NoiseIkHandshake :=
  match impl_state h with
  | None => (mkOpResult ik_invalid_argument 0, [], h)
  | Some state =>
      match message with
      | [] => (mkOpResult ik_invalid_argument 0, [], mkHandshake None)
      | _ =>
          match noise_handshakestate_read_message state message payload_size with
          | (NOISE_ERROR_NONE, payload, state) =>
              (mkOpResult ik_none (length payload), payload, mkHandshake (Some state))
          | (error, _, _) => (mkOpResult (message_error error) 0, [], mkHandshake None)
          end
      end
  end.

Definition remote_static_public_key (h : NoiseIkHandshake) : option (list byte) :=
  match impl_state h with
  | None => None
  | Some state =>
      let role := noise_handshakestate_get_role state in
      let action := noise_handshakestate_get_action state in
      let authenticated :=
        bool_decide (action = NOISE_ACTION_SPLIT) ||
        bool_decide (action = NOISE_ACTION_COMPLETE) ||
        (bool_decide (role = NOISE_ROLE_RESPONDER) &&
         bool_decide (action = NOISE_ACTION_WRITE_MESSAGE)) in
      if negb authenticated then None else
      if negb (noise_has_dh state RemotePublicKey) ||
         negb (noise_dhstate_has_public_key state RemotePublicKey) then None else
      match noise_dhstate_get_public_key state RemotePublicKey X25519_KEY_SIZE with
      | (NOISE_ERROR_NONE, key) => Some key
      | _ => None
      end
  end.

Definition handshake_hash (h : NoiseIkHandshake) : option (list byte) :=
  match impl_state h with
  | None => None
  | Some state =>
      match noise_handshakestate_get_handshake_hash state NOISE_IK_HASH_SIZE with
      | (NOISE_ERROR_NONE, hash) => Some hash
      | _ => None
      end
  end.

(** The handshake is kept when the remote key or the hash is not available, and
    freed in every other case. *)
Definition split (h : NoiseIkHandshake) : option NoiseIkSplitResult * NoiseIkHandshake :=
  match impl_state h, remote_static_public_key h, handshake_hash h with
  | Some state, Some remote, Some hash =>
      match noise_handshakestate_split state with
      | (NOISE_ERROR_NONE, Some send, Some receive) =>
          match aegis_noise_cipherstate_export_key send KEY_SIZE with
          | (NOISE_ERROR_NONE, send_key) =>
              match aegis_noise_cipherstate_export_key receive KEY_SIZE with
              | (NOISE_ERROR_NONE, receive_key) =>
                  (Some (mkSplit remote hash send_key receive_key), mkHandshake None)
              | _ => (None, mkHandshake None)
              end
          | _ => (None, mkHandshake None)
          end
      | _ => (None, mkHandshake None)
      end
  | _, _, _ => (None, h)
  end.

(** ** Properties of the wrapper *)

(** A freed handshake answers every operation with an error and stays freed. *)
Definition spent (h : NoiseIkHandshake) : Prop := impl_state h = None.

Lemma spent_write h payload n :
  spent h -> write_message h payload n = (mkOpResult ik_invalid_argument 0, [], h).
Proof. intros Hs. unfold write_message. by rewrite Hs. Qed.

Lemma spent_read h message n :
  spent h -> read_message h message n = (mkOpResult ik_invalid_argument 0, [], h).
Proof. intros Hs. unfold read_message. by rewrite Hs. Qed.

Lemma spent_split h : spent h -> split h = (None, h).
Proof. intros Hs. unfold split. by rewrite Hs. Qed.

Lemma write_message_poisons h payload n :
  let '(r, _, h') := write_message h payload n in op_ok r = true \/ spent h'.
Proof.
  unfold write_message. destruct (impl_state h) eqn:E; [|by right].
  destruct (Nat.eqb n 0); [by right|].
  destruct (noise_handshakestate_write_message _ _ _) as [[[] ?] ?]; auto; by right.
Qed.

Lemma read_message_poisons h message n :
  let '(r, _, h') := read_message h message n in op_ok r = true \/ spent h'.
Proof.
  unfold read_message. destruct (impl_state h) eqn:E; [|by right].
  destruct message; [by right|].
  destruct (noise_handshakestate_read_message _ _ _) as [[[] ?] ?]; auto; by right.
Qed.

Lemma split_spends h s h' : split h = (Some s, h') -> spent h'.
Proof. unfold split. intros. by repeat case_match; simplify_eq/=. Qed.

(** The operations of a handshake object, as a client may call them. *)
Inductive IkCall :=
  | CallWrite (payload : list byte) (output_size : nat)
  | CallRead (message : list byte) (payload_size : nat)
  | CallSplit.

(** The outcome of a call: whether it succeeded, and the keys of a split. *)
Definition ik_call (h : NoiseIkHandshake) (c : IkCall)
    : bool * option NoiseIkSplitResult * NoiseIkHandshake :=
  match c with
  | CallWrite payload n => let '(r, _, h) := write_message h payload n in (op_ok r, None, h)
  | CallRead message n => let '(r, _, h) := read_message h message n in (op_ok r, None, h)
  | CallSplit => let '(s, h) := split h in (bool_decide (is_Some s), s, h)
  end.

Fixpoint ik_run (h : NoiseIkHandshake) (cs : list IkCall)
    : list (bool * option NoiseIkSplitResult) :=
  match cs with
  | [] => []
  | c :: cs => let '(ok, s, h) := ik_call h c in (ok, s) :: ik_run h cs
  end.

Lemma ik_run_spent h cs : spent h -> ik_run h cs = replicate (length cs) (false, None).
Proof.
  intros Hs. revert Hs. induction cs as [|c cs IH]; intros Hs; [done|]. simpl.
  assert (ik_call h c = (false, None, h)) as ->; [|by rewrite IH].
  destruct c; simpl; [rewrite spent_write by done|rewrite spent_read by done|
    rewrite spent_split by done]; done.
Qed.

End noise_ik.

(** A handshake object yields keys at most once: after a split that produced
    keys, whatever the client calls next, every call fails and no further keys
    come out. *)
Theorem noise_ik_split_once `{NoiseC} h s h' cs :
  split h = (Some s, h') -> ik_run h' cs = replicate (length cs) (false, None).
Proof. intros Hs%split_spends. by apply ik_run_spent. Qed.

(** A failed message operation poisons the handshake object: after a write
    or a read that did not succeed, no sequence of calls on it succeeds. *)
Theorem noise_ik_failure_is_final `{NoiseC} h c s h' cs :
  c <> CallSplit -> ik_call h c = (false, s, h') ->
  ik_run h' cs = replicate (length cs) (false, None).
Proof.
  intros Hc Hcall. apply ik_run_spent. destruct c as [payload n|message n|]; simpl in *.
  - pose proof (write_message_poisons h payload n) as Hp.
    destruct (write_message h payload n) as [[r ?] ?]. simplify_eq. destruct Hp; congruence.
  - pose proof (read_message_poisons h message n) as Hp.
    destruct (read_message h message n) as [[r ?] ?]. simplify_eq. destruct Hp; congruence.
  - done.
Qed.

(** ** What the wrapper relies on: the IK pattern of Noise-C *)

(** The configuration sequence of the Noise-C manual for IK: protocol by name,
    local static key, remote static key (initiator only), prologue, fixed
    ephemeral key, start. *)
Definition ik_start `{NoiseC} (role : NoiseRole) (static : list byte)
    (remote : option (list byte)) (prologue ephemeral : list byte)
    : option NoiseHandshakeState :=
  if negb (is_none noise_init) then None else
  match noise_handshakestate_new_by_name NOISE_IK_PROTOCOL_NAME role with
  | (NOISE_ERROR_NONE, Some s) =>
      s ← set_private_in LocalKeypair static s;
      s ← set_remote_in remote s;
      s ← noise_try (noise_handshakestate_set_prologue s prologue);
      s ← set_private_in FixedEphemeral ephemeral s;
      noise_try (noise_handshakestate_start s)
  | _ => None
  end.

(** The handshake has authenticated [key] as the remote static key. *)
Definition authenticates `{NoiseC} (s : NoiseHandshakeState) (role : NoiseRole)
    (action : NoiseAction) (key : list byte) : Prop :=
  noise_handshakestate_get_role s = role /\
  noise_handshakestate_get_action s = action /\
  noise_has_dh s RemotePublicKey = true /\
  noise_dhstate_has_public_key s RemotePublicKey = true /\
  noise_dhstate_get_public_key s RemotePublicKey X25519_KEY_SIZE = (NOISE_ERROR_NONE, key).

(** The handshake is complete and splits into the transport keys [send] and
    [receive]. *)
Definition splits_into `{NoiseC} (s : NoiseHandshakeState)
    (hash send receive : list byte) : Prop :=
  noise_handshakestate_get_handshake_hash s NOISE_IK_HASH_SIZE = (NOISE_ERROR_NONE, hash) /\
  exists c1 c2,
    noise_handshakestate_split s = (NOISE_ERROR_NONE, Some c1, Some c2) /\
    aegis_noise_cipherstate_export_key c1 KEY_SIZE = (NOISE_ERROR_NONE, send) /\
    aegis_noise_cipherstate_export_key c2 KEY_SIZE = (NOISE_ERROR_NONE, receive).

(** The IK pattern with empty payloads, between an initiator with static key
    [ka] that expects the responder key of [kb] and a responder with [kb], on the
    same prologue: 96 bytes, then 48 bytes, then both sides split into the same
    two keys with the directions exchanged. *)
Class NoiseLaws `{NoiseC} := {
  dh_public : list byte -> list byte;
  dh_public_valid k : is32 k -> is32 (dh_public k) /\ dh_public k <> zero32;
  ik_ready role k remote prologue e :
    is32 k -> is32 e -> (role = NOISE_ROLE_INITIATOR <-> is_Some remote) ->
    (forall key, remote = Some key -> is32 key /\ key <> zero32) ->
    is_Some (ik_start role k remote prologue e);
  ik_pattern ka kb prologue ei er si sr :
    is32 ka -> is32 kb ->
    ik_start NOISE_ROLE_INITIATOR ka (Some (dh_public kb)) prologue ei = Some si ->
    ik_start NOISE_ROLE_RESPONDER kb None prologue er = Some sr ->
    exists m1 si1 sr1 m2 sr2 si2 hash k1 k2,
      noise_handshakestate_write_message si 96 None = (NOISE_ERROR_NONE, m1, si1) /\
      length m1 = 96%nat /\
      noise_handshakestate_read_message sr m1 0 = (NOISE_ERROR_NONE, [], sr1) /\
      authenticates sr1 NOISE_ROLE_RESPONDER NOISE_ACTION_WRITE_MESSAGE (dh_public ka) /\
      noise_handshakestate_write_message sr1 48 None = (NOISE_ERROR_NONE, m2, sr2) /\
      length m2 = 48%nat /\
      authenticates sr2 NOISE_ROLE_RESPONDER NOISE_ACTION_SPLIT (dh_public ka) /\
      splits_into sr2 hash k2 k1 /\
      noise_handshakestate_read_message si1 m2 0 = (NOISE_ERROR_NONE, [], si2) /\
      authenticates si2 NOISE_ROLE_INITIATOR NOISE_ACTION_SPLIT (dh_public kb) /\
      splits_into si2 hash k1 k2;
}.

(** What the wrapper makes of the library's behaviour. *)
Section wrapper_laws.
Context `{NoiseC, RandomSource}.

Lemma create_started role static remote prologue r h r' :
  create role static remote prologue r = (Some h, r') ->
  exists e, rng_fill X25519_KEY_SIZE r = (Some e, r') /\
    exists s, ik_start role static remote prologue e = Some s /\ impl_state h = Some s.
Proof.
  unfold create, ik_start. intros Hc.
  destruct (xorb _ _); [done|]. destruct (negb (is_none noise_init)); [done|].
  destruct (noise_handshakestate_new_by_name _ _) as [[] [s0|]]; try done.
  destruct (set_private_in LocalKeypair static s0) as [s1|]; [|done]; simpl in *.
  destruct (set_remote_in remote s1) as [s2|]; [|done]; simpl in *.
  destruct (noise_try (noise_handshakestate_set_prologue s2 prologue)) as [s3|];
    [|done]; simpl in *.
  destruct (rng_fill X25519_KEY_SIZE r) as [[e|] r1]; [|done].
  injection Hc as Hh <-. exists e. split; [done|]. revert Hh.
  destruct (set_private_in FixedEphemeral e s3) as [s4|]; [|done]; simpl.
  destruct (noise_try (noise_handshakestate_start s4)) as [s5|]; [|done]; simpl.
  intros [= <-]. by eexists.
Qed.

Lemma create_starts role static remote prologue r e r' s :
  (role = NOISE_ROLE_INITIATOR <-> is_Some remote) ->
  rng_fill X25519_KEY_SIZE r = (Some e, r') ->
  ik_start role static remote prologue e = Some s ->
  create role static remote prologue r = (Some (mkHandshake (Some s)), r').
Proof.
  intros Hrole Hfill. unfold create, ik_start.
  rewrite (bool_decide_ext _ _ Hrole), xorb_nilpotent.
  destruct (negb (is_none noise_init)); [done|].
  destruct (noise_handshakestate_new_by_name _ _) as [[] [s0|]]; try done.
  destruct (set_private_in LocalKeypair static s0) as [s1|]; [|done]; simpl in *.
  destruct (set_remote_in remote s1) as [s2|]; [|done]; simpl in *.
  destruct (noise_try (noise_handshakestate_set_prologue s2 prologue)) as [s3|];
    [|done]; simpl in *.
  rewrite Hfill.
  destruct (set_private_in FixedEphemeral e s3) as [s4|]; [|done]; simpl.
  intros ->. done.
Qed.

Lemma authenticates_remote s role action key :
  authenticates s role action key ->
  action = NOISE_ACTION_SPLIT \/
  role = NOISE_ROLE_RESPONDER /\ action = NOISE_ACTION_WRITE_MESSAGE ->
  remote_static_public_key (mkHandshake (Some s)) = Some key.
Proof.
  intros (Hr & Ha & Hd & Hp & Hk) Hc. unfold remote_static_public_key; simpl.
  rewrite Hr, Ha, Hd, Hp, Hk. by destruct Hc as [->|[-> ->]].
Qed.

Lemma splits_into_split s role key hash send receive :
  authenticates s role NOISE_ACTION_SPLIT key -> splits_into s hash send receive ->
  split (mkHandshake (Some s)) = (Some (mkSplit key hash send receive), mkHandshake None).
Proof.
  intros Ha (Hh & c1 & c2 & Hs & H1 & H2). unfold split; simpl.
  rewrite (authenticates_remote _ _ _ _ Ha) by auto.
  unfold handshake_hash; simpl. by rewrite Hh, Hs, H1, H2.
Qed.

Lemma write_message_ok s n m s' :
  (0 < n)%nat -> noise_handshakestate_write_message s n None = (NOISE_ERROR_NONE, m, s') ->
  write_message (mkHandshake (Some s)) [] n =
    (mkOpResult ik_none (length m), m, mkHandshake (Some s')).
Proof.
  intros Hn Hw. unfold write_message; simpl.
  destruct (Nat.eqb_spec n 0); [lia|]. by rewrite Hw.
Qed.

Lemma read_message_ok s m s' :
  m <> [] -> noise_handshakestate_read_message s m 0 = (NOISE_ERROR_NONE, [], s') ->
  read_message (mkHandshake (Some s)) m 0 = (mkOpResult ik_none 0, [], mkHandshake (Some s')).
Proof. intros Hm Hr. unfold read_message; simpl. destruct m; [done|]. by rewrite Hr. Qed.
End wrapper_laws.

(** ** A concrete Noise-C, for witnesses

    Messages carry the keys in the clear and a digest as authentication tag. *)

Record ToyState := mkToy {
  toy_role : NoiseRole; toy_static : list byte; toy_remote : option (list byte);
  toy_prologue : list byte; toy_eph : list byte; toy_remote_eph : list byte;
  toy_action : NoiseAction }.

Definition toy_public (k : list byte) : list byte := x01 :: drop 1 k.

Definition toy_set_private (s : ToyState) (slot : DhSlot) (k : list byte)
    : NoiseError * ToyState :=
  if negb (Nat.eqb (length k) 32) then (NOISE_ERROR_INVALID_LENGTH, s) else
  match slot with
  | LocalKeypair => (NOISE_ERROR_NONE, mkToy (toy_role s) k (toy_remote s)
      (toy_prologue s) (toy_eph s) (toy_remote_eph s) (toy_action s))
  | FixedEphemeral => (NOISE_ERROR_NONE, mkToy (toy_role s) (toy_static s) (toy_remote s)
      (toy_prologue s) k (toy_remote_eph s) (toy_action s))
  | RemotePublicKey => (NOISE_ERROR_INVALID_PARAM, s)
  end.

Definition toy_set_public (s : ToyState) (slot : DhSlot) (k : list byte)
    : NoiseError * ToyState :=
  match slot with
  | RemotePublicKey =>
      if negb (Nat.eqb (length k) 32) then (NOISE_ERROR_INVALID_LENGTH, s) else
      (NOISE_ERROR_NONE, mkToy (toy_role s) (toy_static s) (Some k)
      (toy_prologue s) (toy_eph s) (toy_remote_eph s) (toy_action s))
  | _ => (NOISE_ERROR_INVALID_PARAM, s)
  end.

Definition toy_advance (s : ToyState) (remote : option (list byte)) (re : list byte)
    (a : NoiseAction) : ToyState :=
  mkToy (toy_role s) (toy_static s) remote (toy_prologue s) (toy_eph s) re a.

(** First messages carry ephemeral, static and tag; second ones ephemeral and
    tag. *)
Definition toy_write (s : ToyState) (cap : nat) (payload : option (list byte))
    : NoiseError * list byte * ToyState :=
  match payload, toy_role s, toy_action s with
  | None, NOISE_ROLE_INITIATOR, NOISE_ACTION_WRITE_MESSAGE =>
      if Nat.ltb cap 96 then (NOISE_ERROR_INVALID_LENGTH, [], s) else
      (NOISE_ERROR_NONE,
       toy_public (toy_eph s) ++ toy_public (toy_static s) ++
       toy_digest 32 (toy_prologue s ++ default [] (toy_remote s)),
       toy_advance s (toy_remote s) (toy_remote_eph s) NOISE_ACTION_READ_MESSAGE)
  | None, NOISE_ROLE_RESPONDER, NOISE_ACTION_WRITE_MESSAGE =>
      if Nat.ltb cap 48 then (NOISE_ERROR_INVALID_LENGTH, [], s) else
      (NOISE_ERROR_NONE,
       toy_public (toy_eph s) ++ toy_digest 16 (toy_prologue s ++ toy_remote_eph s),
       toy_advance s (toy_remote s) (toy_remote_eph s) NOISE_ACTION_SPLIT)
  | _, _, _ => (NOISE_ERROR_INVALID_STATE, [], s)
  end.

Definition toy_read (s : ToyState) (m : list byte) (cap : nat)
    : NoiseError * list byte * ToyState :=
  match toy_role s, toy_action s with
  | NOISE_ROLE_RESPONDER, NOISE_ACTION_READ_MESSAGE =>
      if bool_decide (drop 64 m =
           toy_digest 32 (toy_prologue s ++ toy_public (toy_static s)))
      then (NOISE_ERROR_NONE, [], toy_advance s (Some (take 32 (drop 32 m))) (take 32 m)
                                    NOISE_ACTION_WRITE_MESSAGE)
      else (NOISE_ERROR_MAC_FAILURE, [], s)
  | NOISE_ROLE_INITIATOR, NOISE_ACTION_READ_MESSAGE =>
      if bool_decide (drop 32 m =
           toy_digest 16 (toy_prologue s ++ toy_public (toy_eph s)))
      then (NOISE_ERROR_NONE, [], toy_advance s (toy_remote s) (take 32 m)
                                    NOISE_ACTION_SPLIT)
      else (NOISE_ERROR_MAC_FAILURE, [], s)
  | _, _ => (NOISE_ERROR_INVALID_STATE, [], s)
  end.

Definition toy_keys (s : ToyState) : list byte * list byte :=
  (toy_digest 32 (toy_public (toy_eph s) ++ toy_remote_eph s),
   toy_digest 32 (toy_remote_eph s ++ toy_public (toy_eph s))).

#[local] Instance toy_noise : NoiseC := {|
  NoiseHandshakeState := ToyState;
  NoiseCipherState := list byte;
  noise_init := NOISE_ERROR_NONE;
  noise_handshakestate_new_by_name name role :=
    (NOISE_ERROR_NONE, Some (mkToy role [] None [] [] [] NOISE_ACTION_NONE));
  noise_has_dh s slot := true;
  noise_dhstate_set_keypair_private := toy_set_private;
  noise_dhstate_set_public_key := toy_set_public;
  noise_dhstate_has_public_key s slot :=
    match slot with RemotePublicKey => bool_decide (is_Some (toy_remote s)) | _ => true end;
  noise_dhstate_get_public_key s slot n :=
    match slot, toy_remote s with
    | RemotePublicKey, Some k => (NOISE_ERROR_NONE, k)
    | _, _ => (NOISE_ERROR_INVALID_STATE, [])
    end;
  noise_handshakestate_set_prologue s p := (NOISE_ERROR_NONE,
    mkToy (toy_role s) (toy_static s) (toy_remote s) p (toy_eph s) (toy_remote_eph s)
      (toy_action s));
  noise_handshakestate_start s := (NOISE_ERROR_NONE,
    toy_advance s (toy_remote s) (toy_remote_eph s)
      (match toy_role s with
       | NOISE_ROLE_INITIATOR => NOISE_ACTION_WRITE_MESSAGE
       | NOISE_ROLE_RESPONDER => NOISE_ACTION_READ_MESSAGE
       end));
  noise_handshakestate_write_message := toy_write;
  noise_handshakestate_read_message := toy_read;
  noise_handshakestate_get_role := toy_role;
  noise_handshakestate_get_action := toy_action;
  noise_handshakestate_get_handshake_hash s n := (NOISE_ERROR_NONE, zeros n);
  noise_handshakestate_split s :=
    (NOISE_ERROR_NONE, Some (fst (toy_keys s)), Some (snd (toy_keys s)));
  aegis_noise_cipherstate_export_key c n := (NOISE_ERROR_NONE, c);
|}.

Lemma length_toy_public k : is32 k -> length (toy_public k) = 32%nat.
Proof. unfold is32, toy_public. rewrite length_cons, length_drop. lia. Qed.

(** The state the configuration sequence reaches. *)
Lemma toy_ik_start role k remote p e s :
  ik_start role k remote p e = Some s ->
  is32 k /\ is32 e /\
  s = mkToy role k remote p e []
        (match role with
         | NOISE_ROLE_INITIATOR => NOISE_ACTION_WRITE_MESSAGE
         | NOISE_ROLE_RESPONDER => NOISE_ACTION_READ_MESSAGE
         end).
Proof.
  unfold ik_start, set_private_in, set_remote_in, noise_try, is32; simpl.
  unfold toy_set_private, toy_set_public; simpl.
  destruct (Nat.eqb_spec (length k) 32); [|done]; simpl.
  destruct remote as [key|]; simpl.
  - destruct (Nat.eqb_spec (length key) 32); [|done]; simpl.
    destruct (Nat.eqb_spec (length e) 32); [|done]; simpl. by intros [= <-].
  - destruct (Nat.eqb_spec (length e) 32); [|done]; simpl. by intros [= <-].
Qed.

Lemma toy_ik_pattern ka kb prologue ei er si sr :
  is32 ka -> is32 kb ->
  ik_start NOISE_ROLE_INITIATOR ka (Some (toy_public kb)) prologue ei = Some si ->
  ik_start NOISE_ROLE_RESPONDER kb None prologue er = Some sr ->
  exists m1 si1 sr1 m2 sr2 si2 hash k1 k2,
    noise_handshakestate_write_message si 96 None = (NOISE_ERROR_NONE, m1, si1) /\
    length m1 = 96%nat /\
    noise_handshakestate_read_message sr m1 0 = (NOISE_ERROR_NONE, [], sr1) /\
    authenticates sr1 NOISE_ROLE_RESPONDER NOISE_ACTION_WRITE_MESSAGE (toy_public ka) /\
    noise_handshakestate_write_message sr1 48 None = (NOISE_ERROR_NONE, m2, sr2) /\
    length m2 = 48%nat /\
    authenticates sr2 NOISE_ROLE_RESPONDER NOISE_ACTION_SPLIT (toy_public ka) /\
    splits_into sr2 hash k2 k1 /\
    noise_handshakestate_read_message si1 m2 0 = (NOISE_ERROR_NONE, [], si2) /\
    authenticates si2 NOISE_ROLE_INITIATOR NOISE_ACTION_SPLIT (toy_public kb) /\
    splits_into si2 hash k1 k2.
Proof.
  intros Ha Hb (_ & Hei & ->)%toy_ik_start (_ & Her & ->)%toy_ik_start.
  pose proof (length_toy_public _ Ha) as La. pose proof (length_toy_public _ Hei) as Lei.
  pose proof (length_toy_public _ Her) as Ler.
  set (m1 := toy_public ei ++ toy_public ka ++ toy_digest 32 (prologue ++ toy_public kb)).
  set (m2 := toy_public er ++ toy_digest 16 (prologue ++ toy_public ei)).
  assert (take 32 m1 = toy_public ei) as Hm1a by by apply take_app_length'.
  assert (drop 32 m1 = toy_public ka ++ toy_digest 32 (prologue ++ toy_public kb)) as Hm1b
    by by apply drop_app_length'.
  assert (drop 64 m1 = toy_digest 32 (prologue ++ toy_public kb)) as Hm1c.
  { change 64%nat with (32 + 32)%nat. rewrite <- drop_drop, Hm1b. by apply drop_app_length'. }
  assert (take 32 m2 = toy_public er) as Hm2a by by apply take_app_length'.
  assert (drop 32 m2 = toy_digest 16 (prologue ++ toy_public ei)) as Hm2b
    by by apply drop_app_length'.
  exists m1. do 2 eexists. exists m2. do 5 eexists.
  split; [reflexivity|].
  split; [unfold m1; rewrite !length_app, length_toy_digest; lia|].
  split.
  { cbn [noise_handshakestate_read_message toy_noise]. unfold toy_read.
    cbn [toy_role toy_action toy_prologue toy_static toy_eph toy_advance].
    rewrite Hm1c, bool_decide_eq_true_2 by done.
    rewrite Hm1b, take_app_length' by done. rewrite Hm1a. reflexivity. }
  split; [done|]. split; [reflexivity|].
  split; [unfold m2; rewrite length_app, length_toy_digest; lia|].
  split; [done|]. split; [split; [reflexivity|]; do 2 eexists; done|].
  split.
  { cbn [noise_handshakestate_read_message toy_noise]. unfold toy_read.
    cbn [toy_role toy_action toy_prologue toy_static toy_eph toy_advance].
    rewrite Hm2b, bool_decide_eq_true_2 by done.
    rewrite Hm2a. reflexivity. }
  split; [done|]. split; [reflexivity|]; do 2 eexists; done.
Qed.

#[local] Program Instance toy_noise_laws : NoiseLaws := {|
  dh_public := toy_public;
  ik_pattern := toy_ik_pattern;
|}.
Next Obligation.
  intros k Hk. split; [by apply length_toy_public|]. unfold toy_public, zero32. done.
Qed.
Next Obligation.
  intros role k remote p e Hk He _ Hr. unfold is32 in *.
  unfold ik_start, set_private_in, set_remote_in, noise_try; simpl.
  unfold toy_set_private, toy_set_public. rewrite Hk, He; simpl.
  destruct remote as [key|]; simpl; [|done].
  destruct (Hr key) as [-> _]; [done|]. simpl. done.
Qed.

(** An initiator about to perform [action]. *)
Definition toy_initiator (action : NoiseAction) : NoiseIkHandshake :=
  mkHandshake (Some (mkToy NOISE_ROLE_INITIATOR (zeros 32) (Some (zeros 32)) []
    (zeros 32) (zeros 32) action)).

Lemma noise_ik_split_once_witness :
  ik_run (snd (split (toy_initiator NOISE_ACTION_SPLIT))) [CallSplit; CallWrite [] 96] =
    replicate 2 (false, None).
Proof.
  apply (noise_ik_split_once (toy_initiator NOISE_ACTION_SPLIT)
    (default (mkSplit [] [] [] []) (fst (split (toy_initiator NOISE_ACTION_SPLIT))))
    _ [CallSplit; CallWrite [] 96]).
  reflexivity.
Defined.

Lemma noise_ik_failure_is_final_witness :
  ik_run (snd (ik_call (toy_initiator NOISE_ACTION_READ_MESSAGE) (CallRead [x00] 0)))
    [CallSplit] = replicate 1 (false, None).
Proof.
  apply (noise_ik_failure_is_final (toy_initiator NOISE_ACTION_READ_MESSAGE)
    (CallRead [x00] 0) None _ [CallSplit]).
  - discriminate.
  - reflexivity.
Defined.
