(* ===== verification/NoiseProtocol.v ===== *)
(** * The symmetric half of the vendored Noise-C

    [third_party/noise-c/src/protocol]: protocol names ([names.c]), handshake patterns
    ([patterns.c]), cipher states ([cipherstate.c]), Diffie-Hellman states ([dhstate.c] with the
    back end [backend/ref/dh-curve25519.c]) and symmetric states ([symmetricstate.c]), over the
    ChaChaPoly and BLAKE2s of the files [ChaCha] and [Blake2s].  The two scalar multiplications
    of Curve25519 and the operating system's generator are the class [Curve25519]; allocation
    succeeds.  [sym_at] describes a symmetric state by the four values of the Noise
    specification - chaining key, hash, cipher key and nonce - and one lemma per operation says
    what it does to them. *)

From Stdlib Require Import String.
From stdpp Require Import base numbers list option.
From Stdlib Require Import ZArith Lia Bool.
From Stdlib.Strings Require Import Byte.
From S2P Require Import Prelude Wire Words Crypto ChaCha Blake2s NoiseIk.

Set Default Goal Selector "!".
#[local] Open Scope Z_scope.

(** ** Error codes the wrapper has no name for *)

Definition NOISE_ERROR_NO_MEMORY : NoiseError := NOISE_ERROR_OTHER 17665.
Definition NOISE_ERROR_UNKNOWN_ID : NoiseError := NOISE_ERROR_OTHER 17666.
Definition NOISE_ERROR_UNKNOWN_NAME : NoiseError := NOISE_ERROR_OTHER 17667.
Definition NOISE_ERROR_NOT_APPLICABLE : NoiseError := NOISE_ERROR_OTHER 17669.
Definition NOISE_ERROR_REMOTE_KEY_REQUIRED : NoiseError := NOISE_ERROR_OTHER 17671.
Definition NOISE_ERROR_LOCAL_KEY_REQUIRED : NoiseError := NOISE_ERROR_OTHER 17672.
Definition NOISE_ERROR_PSK_REQUIRED : NoiseError := NOISE_ERROR_OTHER 17673.
Definition NOISE_ERROR_INVALID_NONCE : NoiseError := NOISE_ERROR_OTHER 17677.
Definition NOISE_ERROR_INVALID_PRIVATE_KEY : NoiseError := NOISE_ERROR_OTHER 17678.

(** ** Protocol names *)

Definition NOISE_ID (ch num : Z) : Z := Z.lor (Z.shiftl ch 8) num.

Definition NOISE_CIPHER_CATEGORY : Z := 17152.
Definition NOISE_HASH_CATEGORY : Z := 18432.
Definition NOISE_DH_CATEGORY : Z := 17408.
Definition NOISE_PATTERN_CATEGORY : Z := 20480.
Definition NOISE_PREFIX_CATEGORY : Z := 19968.

Definition NOISE_CIPHER_CHACHAPOLY : Z := 17153.
Definition NOISE_CIPHER_AESGCM : Z := 17154.
Definition NOISE_HASH_BLAKE2s : Z := 18433.
Definition NOISE_HASH_BLAKE2b : Z := 18434.
Definition NOISE_HASH_SHA256 : Z := 18435.
Definition NOISE_HASH_SHA512 : Z := 18436.
Definition NOISE_DH_CURVE25519 : Z := 17409.
Definition NOISE_DH_CURVE448 : Z := 17410.
Definition NOISE_DH_NEWHOPE : Z := 17411.
Definition NOISE_PREFIX_PSK : Z := 19970.
Definition NOISE_PATTERN_XX_FALLBACK : Z := 20496.

Definition name (s : string) : list byte := String.list_byte_of_string s.
#[local] Open Scope string_scope.

(** Identifiers and names, in the order of the table. *)
Definition algorithm_names : list (Z * list byte) :=
  [(17153, name "ChaChaPoly"); (17154, name "AESGCM"); (18433, name "BLAKE2s"); (18434, name
   "BLAKE2b"); (18435, name "SHA256"); (18436, name "SHA512"); (17409, name "25519"); (17410,
   name "448"); (17411, name "NewHope"); (20481, name "N"); (20482, name "X"); (20483, name
   "K"); (20484, name "NN"); (20485, name "NK"); (20486, name "NX"); (20487, name "XN");
   (20488, name "XK"); (20489, name "XX"); (20490, name "KN"); (20491, name "KK"); (20492, name
   "KX"); (20493, name "IN"); (20494, name "IK"); (20495, name "IX"); (20496, name
   "XXfallback"); (20512, name "Xnoidh"); (20513, name "NXnoidh"); (20514, name "XXnoidh");
   (20515, name "KXnoidh"); (20516, name "IKnoidh"); (20517, name "IXnoidh"); (20528, name
   "NNhfs"); (20529, name "NKhfs"); (20530, name "NXhfs"); (20531, name "XNhfs"); (20532, name
   "XKhfs"); (20533, name "XXhfs"); (20534, name "KNhfs"); (20535, name "KKhfs"); (20536, name
   "KXhfs"); (20537, name "INhfs"); (20538, name "IKhfs"); (20539, name "IXhfs"); (20540, name
   "XXfallback+hfs"); (20560, name "NXnoidh+hfs"); (20561, name "XXnoidh+hfs"); (20562, name
   "KXnoidh+hfs"); (20563, name "IKnoidh+hfs"); (20564, name "IXnoidh+hfs"); (19969, name
   "Noise"); (19970, name "NoisePSK"); (21249, name "Ed25519")].
#[local] Close Scope string_scope.

(** The identifier of a name in a category, 0 when there is none. *)
Definition noise_name_to_id (category : Z) (name : list byte) : Z :=
  let mask := if category =? 0 then 0 else NOISE_ID 255 0 in
  match filter (λ m, Z.land (fst m) mask = category /\ snd m = name) algorithm_names with
  | m :: _ => fst m
  | [] => 0
  end.

(** Up to the first byte that stops the field, and the rest. *)
Fixpoint field (stops : list byte) (s : list byte) : list byte * list byte :=
  match s with
  | [] => ([], [])
  | b :: s' =>
      if bool_decide (b ∈ stops) then ([], s)
      else let '(f, rest) := field stops s' in (b :: f, rest)
  end.

(** The identifier and the text after the separator, [None] when the field is not there or not
    known: a field that is not the last one ends in an underscore, the last one with the text. *)
Definition noise_protocol_parse_field (category : Z) (is_last : bool) (text : list byte)
    : option (Z * list byte) :=
  let '(f, rest) := field [x5f] text in
  let looked_up := noise_name_to_id category f in
  let found := if looked_up =? 0 then None else Some looked_up in
  match rest with
  | [] => if is_last then id ← found; Some (id, []) else None
  | _ :: rest => if is_last then None else id ← found; Some (id, rest)
  end.

(** A field that may hold two names joined by a plus sign. *)
Definition noise_protocol_parse_dual_field (category : Z) (text : list byte)
    : option (Z * Z * list byte) :=
  let '(f, rest) := field [x5f; x2b] text in
  let first := noise_name_to_id category f in
  match rest with
  | [] => None
  | sep :: rest =>
      if first =? 0 then None else
      if bool_decide (sep = x5f) then Some (first, 0, rest) else
      '(second, rest) ← noise_protocol_parse_field category false rest;
      Some (first, second, rest)
  end.

Record NoiseProtocolId := mkProtocolId {
  prefix_id : Z; pattern_id : Z; dh_id : Z; hybrid_id : Z; cipher_id : Z; hash_id : Z }.

Definition noise_protocol_name_to_id (text : list byte) : option NoiseProtocolId :=
  '(prefix, text) ← noise_protocol_parse_field NOISE_PREFIX_CATEGORY false text;
  '(pattern, text) ← noise_protocol_parse_field NOISE_PATTERN_CATEGORY false text;
  '(dh, hybrid, text) ← noise_protocol_parse_dual_field NOISE_DH_CATEGORY text;
  '(cipher, text) ← noise_protocol_parse_field NOISE_CIPHER_CATEGORY false text;
  '(hash, _) ← noise_protocol_parse_field NOISE_HASH_CATEGORY true text;
  Some (mkProtocolId prefix pattern dh hybrid cipher hash).

(** ** Handshake patterns *)

Inductive NoiseToken :=
  | NOISE_TOKEN_END | NOISE_TOKEN_S | NOISE_TOKEN_E | NOISE_TOKEN_EE | NOISE_TOKEN_ES
  | NOISE_TOKEN_SE | NOISE_TOKEN_SS | NOISE_TOKEN_F | NOISE_TOKEN_FF | NOISE_TOKEN_FLIP_DIR.

(** Bits of the flags that open a pattern. *)
Definition PAT_LOCAL_STATIC : Z := 0.
Definition PAT_LOCAL_EPHEMERAL : Z := 1.
Definition PAT_LOCAL_REQUIRED : Z := 2.
Definition PAT_LOCAL_EPHEM_REQ : Z := 3.
Definition PAT_LOCAL_HYBRID : Z := 4.
Definition PAT_REMOTE_STATIC : Z := 8.
Definition PAT_REMOTE_EPHEMERAL : Z := 9.
Definition PAT_REMOTE_REQUIRED : Z := 10.
Definition PAT_REMOTE_EPHEM_REQ : Z := 11.
Definition PAT_REMOTE_HYBRID : Z := 12.

(** Identifier, flags and tokens of every pattern. *)
Definition noise_patterns : list (Z * (Z * list NoiseToken)) :=
  [(20481, (1282, [NOISE_TOKEN_E; NOISE_TOKEN_ES; NOISE_TOKEN_END]));
   (20483, (1287, [NOISE_TOKEN_E; NOISE_TOKEN_ES; NOISE_TOKEN_SS; NOISE_TOKEN_END]));
   (20482, (1283, [NOISE_TOKEN_E; NOISE_TOKEN_ES; NOISE_TOKEN_S; NOISE_TOKEN_SS; NOISE_TOKEN_END]));
   (20484, (514, [NOISE_TOKEN_E; NOISE_TOKEN_FLIP_DIR; NOISE_TOKEN_E; NOISE_TOKEN_EE;
       NOISE_TOKEN_END]));
   (20485, (1794, [NOISE_TOKEN_E; NOISE_TOKEN_ES; NOISE_TOKEN_FLIP_DIR; NOISE_TOKEN_E;
       NOISE_TOKEN_EE; NOISE_TOKEN_END]));
   (20486, (770, [NOISE_TOKEN_E; NOISE_TOKEN_FLIP_DIR; NOISE_TOKEN_E; NOISE_TOKEN_EE;
       NOISE_TOKEN_S; NOISE_TOKEN_ES; NOISE_TOKEN_END]));
   (20487, (515, [NOISE_TOKEN_E; NOISE_TOKEN_FLIP_DIR; NOISE_TOKEN_E; NOISE_TOKEN_EE;
       NOISE_TOKEN_FLIP_DIR; NOISE_TOKEN_S; NOISE_TOKEN_SE; NOISE_TOKEN_END]));
   (20488, (1795, [NOISE_TOKEN_E; NOISE_TOKEN_ES; NOISE_TOKEN_FLIP_DIR; NOISE_TOKEN_E;
       NOISE_TOKEN_EE; NOISE_TOKEN_FLIP_DIR; NOISE_TOKEN_S; NOISE_TOKEN_SE; NOISE_TOKEN_END]));
   (20489, (771, [NOISE_TOKEN_E; NOISE_TOKEN_FLIP_DIR; NOISE_TOKEN_E; NOISE_TOKEN_EE;
       NOISE_TOKEN_S; NOISE_TOKEN_ES; NOISE_TOKEN_FLIP_DIR; NOISE_TOKEN_S; NOISE_TOKEN_SE;
       NOISE_TOKEN_END]));
   (20490, (519, [NOISE_TOKEN_E; NOISE_TOKEN_FLIP_DIR; NOISE_TOKEN_E; NOISE_TOKEN_EE;
       NOISE_TOKEN_SE; NOISE_TOKEN_END]));
   (20491, (1799, [NOISE_TOKEN_E; NOISE_TOKEN_ES; NOISE_TOKEN_SS; NOISE_TOKEN_FLIP_DIR;
       NOISE_TOKEN_E; NOISE_TOKEN_EE; NOISE_TOKEN_SE; NOISE_TOKEN_END]));
   (20492, (775, [NOISE_TOKEN_E; NOISE_TOKEN_FLIP_DIR; NOISE_TOKEN_E; NOISE_TOKEN_EE;
       NOISE_TOKEN_SE; NOISE_TOKEN_S; NOISE_TOKEN_ES; NOISE_TOKEN_END]));
   (20493, (515, [NOISE_TOKEN_E; NOISE_TOKEN_S; NOISE_TOKEN_FLIP_DIR; NOISE_TOKEN_E;
       NOISE_TOKEN_EE; NOISE_TOKEN_SE; NOISE_TOKEN_END]));
   (20494, (1795, [NOISE_TOKEN_E; NOISE_TOKEN_ES; NOISE_TOKEN_S; NOISE_TOKEN_SS;
       NOISE_TOKEN_FLIP_DIR; NOISE_TOKEN_E; NOISE_TOKEN_EE; NOISE_TOKEN_SE; NOISE_TOKEN_END]));
   (20495, (771, [NOISE_TOKEN_E; NOISE_TOKEN_S; NOISE_TOKEN_FLIP_DIR; NOISE_TOKEN_E;
       NOISE_TOKEN_EE; NOISE_TOKEN_SE; NOISE_TOKEN_S; NOISE_TOKEN_ES; NOISE_TOKEN_END]));
   (20496, (2819, [NOISE_TOKEN_E; NOISE_TOKEN_EE; NOISE_TOKEN_S; NOISE_TOKEN_SE;
       NOISE_TOKEN_FLIP_DIR; NOISE_TOKEN_S; NOISE_TOKEN_ES; NOISE_TOKEN_END]));
   (20512, (1283, [NOISE_TOKEN_E; NOISE_TOKEN_S; NOISE_TOKEN_ES; NOISE_TOKEN_SS; NOISE_TOKEN_END]));
   (20513, (770, [NOISE_TOKEN_E; NOISE_TOKEN_FLIP_DIR; NOISE_TOKEN_E; NOISE_TOKEN_S;
       NOISE_TOKEN_EE; NOISE_TOKEN_ES; NOISE_TOKEN_END]));
   (20514, (771, [NOISE_TOKEN_E; NOISE_TOKEN_FLIP_DIR; NOISE_TOKEN_E; NOISE_TOKEN_S;
       NOISE_TOKEN_EE; NOISE_TOKEN_ES; NOISE_TOKEN_FLIP_DIR; NOISE_TOKEN_S; NOISE_TOKEN_SE;
       NOISE_TOKEN_END]));
   (20515, (775, [NOISE_TOKEN_E; NOISE_TOKEN_FLIP_DIR; NOISE_TOKEN_E; NOISE_TOKEN_S;
       NOISE_TOKEN_EE; NOISE_TOKEN_SE; NOISE_TOKEN_ES; NOISE_TOKEN_END]));
   (20516, (1795, [NOISE_TOKEN_E; NOISE_TOKEN_S; NOISE_TOKEN_ES; NOISE_TOKEN_SS;
       NOISE_TOKEN_FLIP_DIR; NOISE_TOKEN_E; NOISE_TOKEN_EE; NOISE_TOKEN_SE; NOISE_TOKEN_END]));
   (20517, (771, [NOISE_TOKEN_E; NOISE_TOKEN_S; NOISE_TOKEN_FLIP_DIR; NOISE_TOKEN_E; NOISE_TOKEN_S;
       NOISE_TOKEN_EE; NOISE_TOKEN_SE; NOISE_TOKEN_ES; NOISE_TOKEN_END]));
   (20528, (4626, [NOISE_TOKEN_E; NOISE_TOKEN_F; NOISE_TOKEN_FLIP_DIR; NOISE_TOKEN_E;
       NOISE_TOKEN_F; NOISE_TOKEN_EE; NOISE_TOKEN_FF; NOISE_TOKEN_END]));
   (20529, (5906, [NOISE_TOKEN_E; NOISE_TOKEN_F; NOISE_TOKEN_ES; NOISE_TOKEN_FLIP_DIR;
       NOISE_TOKEN_E; NOISE_TOKEN_F; NOISE_TOKEN_EE; NOISE_TOKEN_FF; NOISE_TOKEN_END]));
   (20530, (4882, [NOISE_TOKEN_E; NOISE_TOKEN_F; NOISE_TOKEN_FLIP_DIR; NOISE_TOKEN_E;
       NOISE_TOKEN_F; NOISE_TOKEN_EE; NOISE_TOKEN_FF; NOISE_TOKEN_S; NOISE_TOKEN_ES; NOISE_TOKEN_END]));
   (20531, (4627, [NOISE_TOKEN_E; NOISE_TOKEN_F; NOISE_TOKEN_FLIP_DIR; NOISE_TOKEN_E;
       NOISE_TOKEN_F; NOISE_TOKEN_EE; NOISE_TOKEN_FF; NOISE_TOKEN_FLIP_DIR; NOISE_TOKEN_S;
       NOISE_TOKEN_SE; NOISE_TOKEN_END]));
   (20532, (5907, [NOISE_TOKEN_E; NOISE_TOKEN_F; NOISE_TOKEN_ES; NOISE_TOKEN_FLIP_DIR;
       NOISE_TOKEN_E; NOISE_TOKEN_F; NOISE_TOKEN_EE; NOISE_TOKEN_FF; NOISE_TOKEN_FLIP_DIR;
       NOISE_TOKEN_S; NOISE_TOKEN_SE; NOISE_TOKEN_END]));
   (20533, (4883, [NOISE_TOKEN_E; NOISE_TOKEN_F; NOISE_TOKEN_FLIP_DIR; NOISE_TOKEN_E;
       NOISE_TOKEN_F; NOISE_TOKEN_EE; NOISE_TOKEN_FF; NOISE_TOKEN_S; NOISE_TOKEN_ES;
       NOISE_TOKEN_FLIP_DIR; NOISE_TOKEN_S; NOISE_TOKEN_SE; NOISE_TOKEN_END]));
   (20534, (4631, [NOISE_TOKEN_E; NOISE_TOKEN_F; NOISE_TOKEN_FLIP_DIR; NOISE_TOKEN_E;
       NOISE_TOKEN_F; NOISE_TOKEN_EE; NOISE_TOKEN_FF; NOISE_TOKEN_SE; NOISE_TOKEN_END]));
   (20535, (5911, [NOISE_TOKEN_E; NOISE_TOKEN_F; NOISE_TOKEN_ES; NOISE_TOKEN_SS;
       NOISE_TOKEN_FLIP_DIR; NOISE_TOKEN_E; NOISE_TOKEN_F; NOISE_TOKEN_EE; NOISE_TOKEN_FF;
       NOISE_TOKEN_SE; NOISE_TOKEN_END]));
   (20536, (4887, [NOISE_TOKEN_E; NOISE_TOKEN_F; NOISE_TOKEN_FLIP_DIR; NOISE_TOKEN_E;
       NOISE_TOKEN_F; NOISE_TOKEN_EE; NOISE_TOKEN_FF; NOISE_TOKEN_SE; NOISE_TOKEN_S; NOISE_TOKEN_ES;
       NOISE_TOKEN_END]));
   (20537, (4627, [NOISE_TOKEN_E; NOISE_TOKEN_F; NOISE_TOKEN_S; NOISE_TOKEN_FLIP_DIR;
       NOISE_TOKEN_E; NOISE_TOKEN_F; NOISE_TOKEN_EE; NOISE_TOKEN_FF; NOISE_TOKEN_SE; NOISE_TOKEN_END]));
   (20538, (5907, [NOISE_TOKEN_E; NOISE_TOKEN_F; NOISE_TOKEN_ES; NOISE_TOKEN_S; NOISE_TOKEN_SS;
       NOISE_TOKEN_FLIP_DIR; NOISE_TOKEN_E; NOISE_TOKEN_F; NOISE_TOKEN_EE; NOISE_TOKEN_FF;
       NOISE_TOKEN_SE; NOISE_TOKEN_END]));
   (20539, (4883, [NOISE_TOKEN_E; NOISE_TOKEN_F; NOISE_TOKEN_S; NOISE_TOKEN_FLIP_DIR;
       NOISE_TOKEN_E; NOISE_TOKEN_F; NOISE_TOKEN_EE; NOISE_TOKEN_FF; NOISE_TOKEN_SE; NOISE_TOKEN_S;
       NOISE_TOKEN_ES; NOISE_TOKEN_END]));
   (20540, (15123, [NOISE_TOKEN_E; NOISE_TOKEN_F; NOISE_TOKEN_EE; NOISE_TOKEN_FF; NOISE_TOKEN_S;
       NOISE_TOKEN_SE; NOISE_TOKEN_FLIP_DIR; NOISE_TOKEN_S; NOISE_TOKEN_ES; NOISE_TOKEN_END]));
   (20560, (4882, [NOISE_TOKEN_E; NOISE_TOKEN_F; NOISE_TOKEN_FLIP_DIR; NOISE_TOKEN_E;
       NOISE_TOKEN_F; NOISE_TOKEN_S; NOISE_TOKEN_EE; NOISE_TOKEN_FF; NOISE_TOKEN_ES; NOISE_TOKEN_END]));
   (20561, (4883, [NOISE_TOKEN_E; NOISE_TOKEN_F; NOISE_TOKEN_FLIP_DIR; NOISE_TOKEN_E;
       NOISE_TOKEN_F; NOISE_TOKEN_S; NOISE_TOKEN_EE; NOISE_TOKEN_FF; NOISE_TOKEN_ES;
       NOISE_TOKEN_FLIP_DIR; NOISE_TOKEN_S; NOISE_TOKEN_SE; NOISE_TOKEN_END]));
   (20562, (4887, [NOISE_TOKEN_E; NOISE_TOKEN_F; NOISE_TOKEN_FLIP_DIR; NOISE_TOKEN_E;
       NOISE_TOKEN_F; NOISE_TOKEN_S; NOISE_TOKEN_EE; NOISE_TOKEN_FF; NOISE_TOKEN_SE; NOISE_TOKEN_ES;
       NOISE_TOKEN_END]));
   (20563, (5907, [NOISE_TOKEN_E; NOISE_TOKEN_F; NOISE_TOKEN_S; NOISE_TOKEN_ES; NOISE_TOKEN_SS;
       NOISE_TOKEN_FLIP_DIR; NOISE_TOKEN_E; NOISE_TOKEN_F; NOISE_TOKEN_EE; NOISE_TOKEN_FF;
       NOISE_TOKEN_SE; NOISE_TOKEN_END]));
   (20564, (4883, [NOISE_TOKEN_E; NOISE_TOKEN_F; NOISE_TOKEN_S; NOISE_TOKEN_FLIP_DIR;
       NOISE_TOKEN_E; NOISE_TOKEN_F; NOISE_TOKEN_S; NOISE_TOKEN_EE; NOISE_TOKEN_FF; NOISE_TOKEN_SE;
       NOISE_TOKEN_ES; NOISE_TOKEN_END]))].

Definition noise_pattern_lookup (id : Z) : option (Z * list NoiseToken) :=
  match filter (λ p, fst p = id) noise_patterns with
  | p :: _ => Some (snd p)
  | [] => None
  end.

Definition noise_pattern_reverse_flags (flags : Z) : Z :=
  Z.lor (Z.land (Z.shiftr flags 8) 255) (Z.land (Z.shiftl flags 8) 65280).

(** ** Diffie-Hellman states *)

(** [curve25519-donna.c], [ed25519.c] and [rand_os.c]: the public key of a private key, the
    shared secret, and the bytes the operating system's generator gives a handshake whose
    handshake hash is the argument. *)
Class Curve25519 := {
  curved25519_scalarmult_basepoint : list byte -> list byte;
  curve25519_donna : list byte -> list byte -> list byte;
  noise_rand_bytes : list byte -> list byte;
}.

(** Documented behaviour of X25519 (RFC 7748): public keys have 32 bytes, the public key
    of a (clamped) private key is not zero, and two key pairs agree on the shared secret. *)
Class Curve25519Laws `{Curve25519} := {
  basepoint_length k : is32 k -> is32 (curved25519_scalarmult_basepoint k);
  basepoint_nonzero k : is32 k -> curved25519_scalarmult_basepoint k <> zero32;
  donna_agree a b : is32 a -> is32 b ->
    curve25519_donna a (curved25519_scalarmult_basepoint b) =
    curve25519_donna b (curved25519_scalarmult_basepoint a);
}.

Inductive NoiseKeyType := NOISE_KEY_TYPE_NO_KEY | NOISE_KEY_TYPE_KEYPAIR | NOISE_KEY_TYPE_PUBLIC.
#[export] Instance key_type_eq_dec : EqDecision NoiseKeyType.
Proof. solve_decision. Defined.

(** The only back end is Curve25519, whose keys have 32 bytes and which allows null keys; roles
    mean nothing to it. *)
Record NoiseDHState := mkDh {
  key_type : NoiseKeyType; private_key : list byte; public_key : list byte }.

Definition noise_curve25519_new : NoiseDHState := mkDh NOISE_KEY_TYPE_NO_KEY (zeros 32) (zeros 32).

Definition noise_dhstate_new_by_id (id : Z) : NoiseError * option NoiseDHState :=
  if id =? NOISE_DH_CURVE25519 then (NOISE_ERROR_NONE, Some noise_curve25519_new)
  else if (id =? NOISE_DH_CURVE448) || (id =? NOISE_DH_NEWHOPE) then (NOISE_ERROR_NO_MEMORY, None)
  else (NOISE_ERROR_UNKNOWN_ID, None).

Definition noise_is_zero (data : list byte) : bool := bool_decide (data = zeros (length data)).

Definition dhstate_has_keypair (dh : option NoiseDHState) : bool :=
  match dh with Some d => bool_decide (key_type d = NOISE_KEY_TYPE_KEYPAIR) | None => false end.
Definition dhstate_has_public_key (dh : option NoiseDHState) : bool :=
  match dh with Some d => negb (bool_decide (key_type d = NOISE_KEY_TYPE_NO_KEY)) | None => false end.

Section dhstate.
Context `{Curve25519}.

(** With the back end's [set_keypair_private]. *)
Definition dhstate_set_keypair_private (dh : NoiseDHState) (key : list byte)
    : NoiseError * NoiseDHState :=
  if negb (Nat.eqb (length key) 32) then (NOISE_ERROR_INVALID_LENGTH, dh) else
  (NOISE_ERROR_NONE, mkDh NOISE_KEY_TYPE_KEYPAIR key (curved25519_scalarmult_basepoint key)).

(** The back end's [validate_public_key] accepts every key. *)
Definition dhstate_set_public_key (dh : NoiseDHState) (key : list byte)
    : NoiseError * NoiseDHState :=
  if negb (Nat.eqb (length key) 32) then (NOISE_ERROR_INVALID_LENGTH, dh) else
  (NOISE_ERROR_NONE, mkDh NOISE_KEY_TYPE_PUBLIC (zeros 32) key).

Definition dhstate_get_public_key (dh : NoiseDHState) (public_key_len : nat)
    : NoiseError * list byte :=
  if negb (Nat.eqb public_key_len 32) then (NOISE_ERROR_INVALID_LENGTH, [])
  else (NOISE_ERROR_NONE, public_key dh).

Definition noise_dhstate_is_null_public_key (dh : NoiseDHState) : bool :=
  negb (bool_decide (key_type dh = NOISE_KEY_TYPE_NO_KEY)) && noise_is_zero (public_key dh).

(** With the back end's [generate_keypair], which clamps the private key. *)
Definition noise_dhstate_generate_keypair (random : list byte) : NoiseDHState :=
  let clamped := alter (λ b, b8 (Z.lor (Z.land (bval b) 127) 64)) 31%nat
                   (alter (λ b, b8 (Z.land (bval b) 248)) 0%nat random) in
  mkDh NOISE_KEY_TYPE_KEYPAIR clamped (curved25519_scalarmult_basepoint clamped).

(** The error and the shared key; a null public key gives a null secret. *)
Definition noise_dhstate_calculate (private_state public_state : NoiseDHState)
    : NoiseError * list byte :=
  if negb (bool_decide (key_type private_state = NOISE_KEY_TYPE_KEYPAIR))
  then (NOISE_ERROR_INVALID_PRIVATE_KEY, zeros 32) else
  (NOISE_ERROR_NONE,
   if noise_is_zero (public_key public_state) then zeros 32
   else curve25519_donna (private_key private_state) (public_key public_state)).
End dhstate.

(** ** Cipher states *)

(** [chacha] is the context of the back end; keys have 32 bytes, tags 16. *)
Record CipherState := mkCipher { has_key : bool; chacha : chacha_ctx; cipher_n : Z }.

Definition noise_cipherstate_new_by_id (id : Z) : NoiseError * option CipherState :=
  if id =? NOISE_CIPHER_CHACHAPOLY
  then (NOISE_ERROR_NONE, Some (mkCipher false (replicate 16 0) 0))
  else if id =? NOISE_CIPHER_AESGCM then (NOISE_ERROR_NO_MEMORY, None)
  else (NOISE_ERROR_UNKNOWN_ID, None).

Definition noise_cipherstate_init_key (c : CipherState) (key : list byte)
    : NoiseError * CipherState :=
  if negb (Nat.eqb (length key) 32) then (NOISE_ERROR_INVALID_LENGTH, c) else
  (NOISE_ERROR_NONE, mkCipher true (noise_chachapoly_init_key key) 0).

Definition NOISE_MAX_PAYLOAD_LEN : Z := 65535.
Definition NONCE_OVERFLOW : Z := 18446744073709551615.

(** [buffer] holds the plaintext and has room for [max_size] bytes. *)
Definition noise_cipherstate_encrypt_with_ad (c : CipherState) (ad buffer : list byte)
    (max_size : nat) : NoiseError * list byte * CipherState :=
  if Nat.ltb max_size (length buffer) then (NOISE_ERROR_INVALID_LENGTH, buffer, c) else
  if negb (has_key c) then
    if NOISE_MAX_PAYLOAD_LEN <? Z.of_nat (length buffer)
    then (NOISE_ERROR_INVALID_LENGTH, buffer, c) else (NOISE_ERROR_NONE, buffer, c)
  else
  if NOISE_MAX_PAYLOAD_LEN - 16 <? Z.of_nat (length buffer)
  then (NOISE_ERROR_INVALID_LENGTH, buffer, c) else
  if Nat.ltb (max_size - length buffer) 16 then (NOISE_ERROR_INVALID_LENGTH, buffer, c) else
  if cipher_n c =? NONCE_OVERFLOW then (NOISE_ERROR_INVALID_NONCE, buffer, c) else
  let '(out, x) := noise_chachapoly_encrypt (chacha c) (cipher_n c) ad buffer in
  (NOISE_ERROR_NONE, out, mkCipher true x (wrap 64 (cipher_n c + 1))).

(** The buffer is a message of the caller, filled to its maximum. *)
Definition noise_cipherstate_decrypt_with_ad (c : CipherState) (ad buffer : list byte)
    : NoiseError * list byte * CipherState :=
  if NOISE_MAX_PAYLOAD_LEN <? Z.of_nat (length buffer)
  then (NOISE_ERROR_INVALID_LENGTH, buffer, c) else
  if negb (has_key c) then (NOISE_ERROR_NONE, buffer, c) else
  if Nat.ltb (length buffer) 16 then (NOISE_ERROR_INVALID_LENGTH, buffer, c) else
  if cipher_n c =? NONCE_OVERFLOW then (NOISE_ERROR_INVALID_NONCE, buffer, c) else
  match noise_chachapoly_decrypt (chacha c) (cipher_n c) ad buffer with
  | (None, x) => (NOISE_ERROR_MAC_FAILURE, buffer, mkCipher true x (cipher_n c))
  | (Some out, x) => (NOISE_ERROR_NONE, out, mkCipher true x (wrap 64 (cipher_n c + 1)))
  end.

(** [aegis.c]: the key words of the ChaCha context, as they lie in memory. *)
Definition cipherstate_export_key (c : CipherState) (key_len : nat) : NoiseError * list byte :=
  if negb (has_key c) || negb (Nat.eqb key_len 32) then (NOISE_ERROR_INVALID_STATE, []) else
  (NOISE_ERROR_NONE, serialize (take 8 (drop 4 (chacha c)))).

(** ** Symmetric states *)

(** The hash object is reset before every use: [noise_blake2s_new] as it was allocated. *)
Record NoiseSymmetricState := mkSymmetric {
  sym_id : NoiseProtocolId;
  sym_cipher : option CipherState;
  sym_ck : list byte;
  sym_h : list byte;
}.

Definition noise_hashstate_new_by_id (id : Z) : NoiseError :=
  if id =? NOISE_HASH_BLAKE2s then NOISE_ERROR_NONE
  else if (id =? NOISE_HASH_BLAKE2b) || (id =? NOISE_HASH_SHA256) || (id =? NOISE_HASH_SHA512)
  then NOISE_ERROR_NO_MEMORY else NOISE_ERROR_UNKNOWN_ID.

Definition noise_symmetricstate_new (text : list byte) (id : NoiseProtocolId)
    : NoiseError * option NoiseSymmetricState :=
  match noise_cipherstate_new_by_id (cipher_id id) with
  | (NOISE_ERROR_NONE, Some cipher) =>
      match noise_hashstate_new_by_id (hash_id id) with
      | NOISE_ERROR_NONE =>
          let h := if Nat.leb (length text) hash_len
                   then text ++ zeros (hash_len - length text)
                   else noise_hashstate_hash_one blake_new text in
          (NOISE_ERROR_NONE, Some (mkSymmetric id (Some cipher) h h))
      | err => (err, None)
      end
  | (err, _) => (err, None)
  end.

Definition noise_symmetricstate_new_by_name (text : list byte)
    : NoiseError * option NoiseSymmetricState :=
  match noise_protocol_name_to_id text with
  | None => (NOISE_ERROR_UNKNOWN_NAME, None)
  | Some id => noise_symmetricstate_new text id
  end.

Definition noise_symmetricstate_mix_key (s : NoiseSymmetricState) (input : list byte)
    : NoiseError * NoiseSymmetricState :=
  match sym_cipher s with
  | None => (NOISE_ERROR_INVALID_STATE, s)
  | Some cipher =>
      match noise_hashstate_hkdf blake_new (sym_ck s) input hash_len 32 with
      | Some (ck, temp_k) =>
          (NOISE_ERROR_NONE,
           mkSymmetric (sym_id s) (Some (snd (noise_cipherstate_init_key cipher temp_k))) ck
             (sym_h s))
      | None => (NOISE_ERROR_NONE, s)
      end
  end.

Definition noise_symmetricstate_mix_hash (s : NoiseSymmetricState) (input : list byte)
    : NoiseError * NoiseSymmetricState :=
  match sym_cipher s with
  | None => (NOISE_ERROR_INVALID_STATE, s)
  | Some _ =>
      (NOISE_ERROR_NONE,
       mkSymmetric (sym_id s) (sym_cipher s) (sym_ck s)
         (noise_hashstate_hash_two blake_new (sym_h s) input))
  end.

Definition with_cipher (c : CipherState) (s : NoiseSymmetricState) : NoiseSymmetricState :=
  mkSymmetric (sym_id s) (Some c) (sym_ck s) (sym_h s).

Definition noise_symmetricstate_encrypt_and_hash (s : NoiseSymmetricState) (buffer : list byte)
    (max_size : nat) : NoiseError * list byte * NoiseSymmetricState :=
  match sym_cipher s with
  | None => (NOISE_ERROR_INVALID_STATE, buffer, s)
  | Some cipher =>
      match noise_cipherstate_encrypt_with_ad cipher (sym_h s) buffer max_size with
      | (NOISE_ERROR_NONE, buffer, cipher) =>
          (NOISE_ERROR_NONE, buffer,
           snd (noise_symmetricstate_mix_hash (with_cipher cipher s) buffer))
      | (err, buffer, cipher) => (err, buffer, with_cipher cipher s)
      end
  end.

Definition noise_symmetricstate_decrypt_and_hash (s : NoiseSymmetricState) (buffer : list byte)
    : NoiseError * list byte * NoiseSymmetricState :=
  match sym_cipher s with
  | None => (NOISE_ERROR_INVALID_STATE, buffer, s)
  | Some cipher =>
      if NOISE_MAX_PAYLOAD_LEN <? Z.of_nat (length buffer)
      then (NOISE_ERROR_INVALID_LENGTH, buffer, s) else
      if has_key cipher && Nat.ltb (length buffer) 16
      then (NOISE_ERROR_INVALID_LENGTH, buffer, s) else
      let temp := noise_hashstate_hash_two blake_new (sym_h s) buffer in
      match noise_cipherstate_decrypt_with_ad cipher (sym_h s) buffer with
      | (NOISE_ERROR_NONE, buffer, cipher) =>
          (NOISE_ERROR_NONE, buffer, mkSymmetric (sym_id s) (Some cipher) (sym_ck s) temp)
      | (err, buffer, cipher) => (err, buffer, with_cipher cipher s)
      end
  end.

Definition noise_symmetricstate_get_mac_length (s : NoiseSymmetricState) : nat :=
  match sym_cipher s with
  | Some cipher => if has_key cipher then 16 else 0
  | None => 0
  end.

(** With both outputs wanted: a second cipher of the same kind takes the second key, the state's
    own cipher the first and leaves the state. *)
Definition noise_symmetricstate_split (s : NoiseSymmetricState)
    : NoiseError * option CipherState * option CipherState * NoiseSymmetricState :=
  match sym_cipher s with
  | None => (NOISE_ERROR_INVALID_STATE, None, None, s)
  | Some cipher =>
      match noise_hashstate_hkdf blake_new (sym_ck s) [] 32 32 with
      | Some (temp_k1, temp_k2) =>
          let c2 := snd (noise_cipherstate_init_key (mkCipher false (replicate 16 0) 0) temp_k2) in
          let c1 := snd (noise_cipherstate_init_key cipher temp_k1) in
          (NOISE_ERROR_NONE, Some c1, Some c2, mkSymmetric (sym_id s) None (sym_ck s) (sym_h s))
      | None => (NOISE_ERROR_NONE, None, None, s)
      end
  end.

(** ** Symmetric states as the Noise specification has them *)

(** A cipher without a key, or with a key and the nonce of its next operation. *)
Definition cipher_at (c : CipherState) (key : option (list byte)) (n : Z) : Prop :=
  match key with
  | None => has_key c = false
  | Some k => has_key c = true /\ keyed k (chacha c) /\ cipher_n c = n
  end.

(** Chaining key, handshake hash, cipher key and nonce. *)
Definition sym_at (s : NoiseSymmetricState) (ck h : list byte) (key : option (list byte)) (n : Z)
    : Prop :=
  sym_ck s = ck /\ sym_h s = h /\ exists c, sym_cipher s = Some c /\ cipher_at c key n.

Lemma length_hkdf_2 key data : length (hkdf key data).2 = 32%nat.
Proof. apply length_hmac. Qed.

Lemma length_hkdf_1 key data : length (hkdf key data).1 = 32%nat.
Proof. apply length_hmac. Qed.

Lemma hkdf_full key data :
  noise_hashstate_hkdf blake_new key data 32 32 = Some (hkdf key data).
Proof.
  rewrite hkdf_spec by done.
  rewrite !take_ge by (rewrite ?length_hkdf_1, ?length_hkdf_2; done). by destruct (hkdf key data).
Qed.

Lemma mix_key_at s ck h key n input :
  sym_at s ck h key n ->
  exists s', noise_symmetricstate_mix_key s input = (NOISE_ERROR_NONE, s') /\
    sym_id s' = sym_id s /\ sym_at s' (hkdf ck input).1 h (Some (hkdf ck input).2) 0.
Proof.
  intros (<- & <- & c & Hc & Hk). unfold noise_symmetricstate_mix_key, hash_len.
  rewrite Hc, hkdf_full. destruct (hkdf (sym_ck s) input) as [ck' k] eqn:E.
  assert (length k = 32%nat) as Hlen by (change k with (ck', k).2; rewrite <- E; apply length_hkdf_2).
  eexists. split; [done|]. split; [done|]. split; [done|]. split; [done|].
  eexists. split; [done|]. unfold noise_cipherstate_init_key. rewrite Hlen. cbn.
  split_and!; [done|apply init_keyed|done].
Qed.

Lemma mix_hash_at s ck h key n input :
  sym_at s ck h key n ->
  exists s', noise_symmetricstate_mix_hash s input = (NOISE_ERROR_NONE, s') /\
    sym_id s' = sym_id s /\ sym_at s' ck (blake2s (h ++ input)) key n.
Proof.
  intros (<- & <- & c & Hc & Hk). unfold noise_symmetricstate_mix_hash.
  rewrite Hc, hash_two_spec by done. eexists. split; [done|]. split; [done|].
  split; [done|]. split; [done|]. by exists c.
Qed.

(** Encryption under a key, when the buffer has room for the tag. *)
Lemma encrypt_at s ck h k n buffer max_size :
  sym_at s ck h (Some k) n -> 0 <= n < NONCE_OVERFLOW ->
  Z.of_nat (length buffer) <= NOISE_MAX_PAYLOAD_LEN - 16 ->
  (length buffer + 16 <= max_size)%nat ->
  exists s', noise_symmetricstate_encrypt_and_hash s buffer max_size =
      (NOISE_ERROR_NONE, seal k n h buffer, s') /\
    sym_id s' = sym_id s /\
    sym_at s' ck (blake2s (h ++ seal k n h buffer)) (Some k) (n + 1).
Proof.
  intros (<- & <- & c & Hc & Hhas & Hk & <-) Hn Hb Hroom.
  unfold noise_symmetricstate_encrypt_and_hash, noise_cipherstate_encrypt_with_ad.
  rewrite Hc, Hhas. cbn [negb].
  rewrite (proj2 (Nat.ltb_ge _ _)), (proj2 (Z.ltb_ge _ _)), (proj2 (Nat.ltb_ge _ _)) by lia.
  rewrite (proj2 (Z.eqb_neq _ _)) by lia.
  destruct (chachapoly_encrypt_keyed k (chacha c) (cipher_n c) (sym_h s) buffer Hk) as [Ho Hx].
  destruct (noise_chachapoly_encrypt _ _ _ _) as [out x]. cbn [fst snd] in *. subst out.
  assert (sym_at (with_cipher (mkCipher true x (wrap 64 (cipher_n c + 1))) s) (sym_ck s) (sym_h s)
    (Some k) (cipher_n c + 1)) as Hat.
  { split; [done|]. split; [done|]. eexists. split; [done|]. split_and!; [done|done|].
    apply wrap_small. unfold in_width, NONCE_OVERFLOW in *. lia. }
  destruct (mix_hash_at _ _ _ _ _ (seal k (cipher_n c) (sym_h s) buffer) Hat) as (s' & E & Hid & Hat').
  rewrite E. exists s'. split; [done|]. by rewrite Hid.
Qed.

(** Decryption of what was sealed. *)
Lemma decrypt_at s ck h k n data :
  sym_at s ck h (Some k) n -> 0 <= n < NONCE_OVERFLOW ->
  Z.of_nat (length data) <= NOISE_MAX_PAYLOAD_LEN - 16 ->
  exists s', noise_symmetricstate_decrypt_and_hash s (seal k n h data) =
      (NOISE_ERROR_NONE, data, s') /\
    sym_id s' = sym_id s /\
    sym_at s' ck (blake2s (h ++ seal k n h data)) (Some k) (n + 1).
Proof.
  intros (<- & <- & c & Hc & Hhas & Hk & <-) Hn Hb.
  unfold noise_symmetricstate_decrypt_and_hash, noise_cipherstate_decrypt_with_ad.
  rewrite Hc, Hhas, seal_length. cbn [negb andb].
  rewrite (proj2 (Z.ltb_ge _ _)), (proj2 (Nat.ltb_ge _ _)), (proj2 (Z.eqb_neq _ _)) by lia.
  destruct (chachapoly_decrypt_keyed k (chacha c) (cipher_n c) (sym_h s)
    (seal k (cipher_n c) (sym_h s) data) Hk) as [Ho Hx].
  rewrite open_of_seal in Ho.
  destruct (noise_chachapoly_decrypt _ _ _ _) as [out x]. cbn [fst snd] in *. subst out.
  rewrite hash_two_spec by done. eexists. split; [done|]. split; [done|]. split; [done|].
  split; [done|]. eexists. split; [done|]. split_and!; [done|done|].
  apply wrap_small. unfold in_width, NONCE_OVERFLOW in *. lia.
Qed.

(** Whatever decrypts was sealed. *)
Lemma decrypt_accepts s ck h k n buffer data s' :
  sym_at s ck h (Some k) n -> 0 <= n < NONCE_OVERFLOW ->
  noise_symmetricstate_decrypt_and_hash s buffer = (NOISE_ERROR_NONE, data, s') ->
  buffer = seal k n h data /\ sym_id s' = sym_id s /\
  sym_at s' ck (blake2s (h ++ seal k n h data)) (Some k) (n + 1).
Proof.
  intros Hs Hn Hd. pose proof Hs as (_ & <- & c & Hc & Hhas & Hk & <-).
  assert (buffer = seal k (cipher_n c) (sym_h s) data /\
    Z.of_nat (length data) <= NOISE_MAX_PAYLOAD_LEN - 16) as [-> Hlen].
  { unfold noise_symmetricstate_decrypt_and_hash, noise_cipherstate_decrypt_with_ad in Hd.
    rewrite Hc, Hhas in Hd. cbn [negb andb] in Hd.
    destruct (Z.ltb_spec NOISE_MAX_PAYLOAD_LEN (Z.of_nat (length buffer))); [done|].
    destruct (Nat.ltb_spec (length buffer) 16); [done|].
    destruct (cipher_n c =? NONCE_OVERFLOW); [done|].
    destruct (chachapoly_decrypt_keyed k (chacha c) (cipher_n c) (sym_h s) buffer Hk) as [Ho _].
    destruct (noise_chachapoly_decrypt _ _ _ _) as [[out|] x]; [|done]. cbn [fst] in Ho.
    injection Hd as -> _. symmetry in Ho. apply open_only_sealed in Ho; [|done].
    split; [done|]. rewrite Ho, seal_length in *. lia. }
  destruct (decrypt_at _ _ _ _ _ data Hs Hn Hlen) as (s1 & E & Hid & Hat).
  rewrite E in Hd. injection Hd as <-. done.
Qed.

(** The key words of a keyed context are the key. *)
Lemma export_at c k n : is32 k -> cipher_at c (Some k) n ->
  cipherstate_export_key c 32 = (NOISE_ERROR_NONE, k).
Proof.
  intros Hlen (Hhas & [Hl Hk] & _). unfold cipherstate_export_key. rewrite Hhas. cbn.
  assert (take 8 (drop 4 (chacha c)) = take 8 (drop 4 (take 12 (chacha c)))) as ->.
  { rewrite skipn_firstn_comm, take_take. done. }
  rewrite Hk. unfold noise_chachapoly_init_key, chacha_keysetup. rewrite Z.eqb_refl.
  rewrite skipn_firstn_comm, take_take. change (Nat.min 8 (12 - 4)) with 8%nat.
  rewrite drop_app_length' by done. rewrite take_app_length' by by rewrite length_words_of.
  rewrite serialize_words by done. done.
Qed.

Lemma split_at s ck h key n :
  sym_at s ck h key n ->
  exists c1 c2 s', noise_symmetricstate_split s = (NOISE_ERROR_NONE, Some c1, Some c2, s') /\
    cipher_at c1 (Some (hkdf ck []).1) 0 /\ cipher_at c2 (Some (hkdf ck []).2) 0.
Proof.
  intros (<- & <- & c & Hc & Hk). unfold noise_symmetricstate_split. rewrite Hc, hkdf_full.
  destruct (hkdf (sym_ck s) []) as [k1 k2] eqn:E.
  assert (length k1 = 32%nat) as H1 by (change k1 with (k1, k2).1; rewrite <- E; apply length_hkdf_1).
  assert (length k2 = 32%nat) as H2 by (change k2 with (k1, k2).2; rewrite <- E; apply length_hkdf_2).
  eexists _, _, _. split; [done|]. unfold noise_cipherstate_init_key. rewrite H1, H2. cbn.
  split_and!; done || apply init_keyed.
Qed.

Lemma mac_length_at s ck h key n :
  sym_at s ck h key n ->
  noise_symmetricstate_get_mac_length s = match key with Some _ => 16%nat | None => 0%nat end.
Proof.
  intros (_ & _ & c & Hc & Hk). unfold noise_symmetricstate_get_mac_length. rewrite Hc.
  destruct key as [k|]; [by destruct Hk as [-> _]|]. by rewrite Hk.
Qed.
