(* ===== verification/NoiseHandshake.v ===== *)
(** * The handshake states of the vendored Noise-C

    [third_party/noise-c/src/protocol/handshakestate.c]: creation from a protocol name, the keys
    and the prologue, the token interpreters that write and read messages, and the split.  The
    instance [noise_c] makes these operations the library that the wrapper of [NoiseIk] calls,
    and [noise_c_laws] proves from the laws of X25519 that it behaves on the IK pattern as
    [NoiseLaws] says.  Pointers the wrapper passes are never null, no pre-shared key is ever set,
    and no handshake falls back. *)

From Stdlib Require Import String.
From stdpp Require Import base numbers list option.
From Stdlib Require Import ZArith Lia Bool.
From Stdlib.Strings Require Import Byte.
From S2P Require Import Prelude Wire Words Crypto ChaCha Blake2s NoiseIk NoiseProtocol.

Set Default Goal Selector "!".
#[local] Open Scope Z_scope.

(** ** Handshake states *)

(** The Diffie-Hellman objects a handshake state owns. *)
Inductive DhName :=
  | dh_local_static | dh_local_ephemeral | dh_local_hybrid | dh_remote_static
  | dh_remote_ephemeral | dh_remote_hybrid | dh_fixed_ephemeral.
#[export] Instance dh_name_eq_dec : EqDecision DhName.
Proof. solve_decision. Defined.

Record HandshakeState := mkState {
  hs_role : NoiseRole;
  requirements : Z;
  hs_action : NoiseAction;
  tokens : list NoiseToken;
  symmetric : NoiseSymmetricState;
  dh : DhName -> option NoiseDHState;
  hs_prologue : list byte;
}.

Definition with_action (a : NoiseAction) (s : HandshakeState) : HandshakeState :=
  mkState (hs_role s) (requirements s) a (tokens s) (symmetric s) (dh s) (hs_prologue s).
Definition with_tokens (t : list NoiseToken) (s : HandshakeState) : HandshakeState :=
  mkState (hs_role s) (requirements s) (hs_action s) t (symmetric s) (dh s) (hs_prologue s).
Definition with_symmetric (y : NoiseSymmetricState) (s : HandshakeState) : HandshakeState :=
  mkState (hs_role s) (requirements s) (hs_action s) (tokens s) y (dh s) (hs_prologue s).
Definition with_dh (i : DhName) (d : option NoiseDHState) (s : HandshakeState) : HandshakeState :=
  mkState (hs_role s) (requirements s) (hs_action s) (tokens s) (symmetric s)
    (λ j, if decide (i = j) then d else dh s j) (hs_prologue s).

(** Bits of [requirements]. *)
Definition REQ_LOCAL_REQUIRED : Z := 0.
Definition REQ_REMOTE_REQUIRED : Z := 1.
Definition REQ_PSK : Z := 2.
Definition REQ_FALLBACK_PREMSG : Z := 3.
Definition REQ_LOCAL_PREMSG : Z := 4.
Definition REQ_REMOTE_PREMSG : Z := 5.
Definition REQ_FALLBACK_POSSIBLE : Z := 6.

Definition bits (l : list (bool * Z)) : Z :=
  foldr (λ (p : bool * Z) (acc : Z), if fst p then Z.setbit acc (snd p) else acc) 0 l.

Definition handshakestate_requirements (flags prefix_id : Z) (is_fallback : bool) : Z :=
  bits [(Z.testbit flags PAT_LOCAL_STATIC, REQ_LOCAL_REQUIRED);
        (Z.testbit flags PAT_LOCAL_REQUIRED, REQ_LOCAL_REQUIRED);
        (Z.testbit flags PAT_LOCAL_REQUIRED, REQ_LOCAL_PREMSG);
        (Z.testbit flags PAT_REMOTE_REQUIRED, REQ_REMOTE_REQUIRED);
        (Z.testbit flags PAT_REMOTE_REQUIRED, REQ_REMOTE_PREMSG);
        ((Z.testbit flags PAT_REMOTE_EPHEM_REQ || Z.testbit flags PAT_LOCAL_EPHEM_REQ) &&
         is_fallback, REQ_FALLBACK_PREMSG);
        (prefix_id =? NOISE_PREFIX_PSK, REQ_PSK)].

Definition NOISE_DH_NONE : Z := 0.

(** One object of [handshakestate_new], created when the pattern has its flag. *)
Definition new_dh (wanted : bool) (i : DhName) (id : Z) (r : NoiseError * HandshakeState)
    : NoiseError * HandshakeState :=
  if wanted && is_none (fst r) then
    let '(err, d) := noise_dhstate_new_by_id id in (err, with_dh i d (snd r))
  else r.

Definition new_hybrid (wanted : bool) (i : DhName) (id : Z) (r : NoiseError * HandshakeState)
    : NoiseError * HandshakeState :=
  if wanted && is_none (fst r) then
    if negb (id =? NOISE_DH_NONE) then
      let '(err, d) := noise_dhstate_new_by_id id in (err, with_dh i d (snd r))
    else (NOISE_ERROR_NOT_APPLICABLE, snd r)
  else if negb (id =? NOISE_DH_NONE) then (NOISE_ERROR_NOT_APPLICABLE, snd r) else r.

(** The checks for ephemeral-only algorithms concern New Hope, which is not built in. *)
Definition handshakestate_new (y : NoiseSymmetricState) (role : NoiseRole)
    : NoiseError * option HandshakeState :=
  match noise_pattern_lookup (pattern_id (sym_id y)) with
  | None => (NOISE_ERROR_UNKNOWN_ID, None)
  | Some (pattern, toks) =>
      let extra_reqs := bits [(Z.testbit pattern PAT_REMOTE_REQUIRED, REQ_FALLBACK_POSSIBLE)] in
      let flags := match role with
                   | NOISE_ROLE_RESPONDER => noise_pattern_reverse_flags pattern
                   | NOISE_ROLE_INITIATOR => pattern
                   end in
      let reqs := handshakestate_requirements flags (prefix_id (sym_id y)) false in
      let s := mkState role (Z.lor extra_reqs reqs) NOISE_ACTION_NONE toks y (λ _, None) [] in
      let id := dh_id (sym_id y) in
      let hybrid := hybrid_id (sym_id y) in
      let r := new_dh (Z.testbit flags PAT_LOCAL_STATIC) dh_local_static id (NOISE_ERROR_NONE, s) in
      let r := new_dh (Z.testbit flags PAT_LOCAL_EPHEMERAL) dh_local_ephemeral id r in
      let r := new_hybrid (Z.testbit flags PAT_LOCAL_HYBRID) dh_local_hybrid hybrid r in
      let r := new_dh (Z.testbit flags PAT_REMOTE_STATIC) dh_remote_static id r in
      let r := new_dh (Z.testbit flags PAT_REMOTE_EPHEMERAL) dh_remote_ephemeral id r in
      let r := new_hybrid (Z.testbit flags PAT_REMOTE_HYBRID) dh_remote_hybrid hybrid r in
      if is_none (fst r) then (NOISE_ERROR_NONE, Some (snd r)) else (fst r, None)
  end.

Definition handshakestate_new_by_name (text : list byte) (role : NoiseRole)
    : NoiseError * option HandshakeState :=
  match noise_symmetricstate_new_by_name text with
  | (NOISE_ERROR_NONE, Some y) => handshakestate_new y role
  | (err, _) => (err, None)
  end.

(** ** Keys and prologue *)

Definition slot_name (slot : DhSlot) : DhName :=
  match slot with
  | LocalKeypair => dh_local_static
  | RemotePublicKey => dh_remote_static
  | FixedEphemeral => dh_fixed_ephemeral
  end.

(** [get_fixed_ephemeral_dh] creates its object at the first call, when the pattern has a local
    ephemeral key. *)
Definition handshakestate_get_fixed_ephemeral_dh (s : HandshakeState) : HandshakeState :=
  match dh s dh_local_ephemeral, dh s dh_fixed_ephemeral with
  | Some _, None =>
      with_dh dh_fixed_ephemeral (snd (noise_dhstate_new_by_id (dh_id (sym_id (symmetric s))))) s
  | _, _ => s
  end.

(** The state after the getter of the slot. *)
Definition handshakestate_get_dh (s : HandshakeState) (slot : DhSlot) : HandshakeState :=
  match slot with
  | FixedEphemeral => handshakestate_get_fixed_ephemeral_dh s
  | _ => s
  end.

Definition handshakestate_dh (s : HandshakeState) (slot : DhSlot) : option NoiseDHState :=
  dh (handshakestate_get_dh s slot) (slot_name slot).

(** An operation of [dhstate.c] on the object of a slot. *)
Definition on_dh (s : HandshakeState) (slot : DhSlot)
    (f : NoiseDHState -> NoiseError * NoiseDHState) : NoiseError * HandshakeState :=
  match handshakestate_dh s slot with
  | None => (NOISE_ERROR_INVALID_PARAM, s)
  | Some d =>
      let '(err, d) := f d in
      (err, with_dh (slot_name slot) (Some d) (handshakestate_get_dh s slot))
  end.

Definition handshakestate_set_prologue (s : HandshakeState) (prologue : list byte)
    : NoiseError * HandshakeState :=
  if negb (bool_decide (hs_action s = NOISE_ACTION_NONE)) then (NOISE_ERROR_INVALID_STATE, s) else
  (NOISE_ERROR_NONE,
   mkState (hs_role s) (requirements s) (hs_action s) (tokens s) (symmetric s) (dh s) prologue).

(** The result of mixing is ignored. *)
Definition handshakestate_mix_public_key (wanted : bool) (i : DhName) (s : HandshakeState)
    : HandshakeState :=
  match dh s i with
  | Some d =>
      if wanted && dhstate_has_public_key (Some d)
      then with_symmetric (snd (noise_symmetricstate_mix_hash (symmetric s) (public_key d))) s
      else s
  | None => s
  end.

Definition handshakestate_mix_chaining_key (wanted : bool) (i : DhName) (s : HandshakeState)
    : HandshakeState :=
  match dh s i with
  | Some d =>
      if wanted && dhstate_has_public_key (Some d)
      then with_symmetric (snd (noise_symmetricstate_mix_key (symmetric s) (public_key d))) s
      else s
  | None => s
  end.

(** No pre-shared key is set, so a protocol that wants one does not start. *)
Definition handshakestate_start (s : HandshakeState) : NoiseError * HandshakeState :=
  let req := Z.testbit (requirements s) in
  if negb (bool_decide (hs_action s = NOISE_ACTION_NONE)) then (NOISE_ERROR_INVALID_STATE, s) else
  if (pattern_id (sym_id (symmetric s)) =? NOISE_PATTERN_XX_FALLBACK) &&
     negb (req REQ_FALLBACK_PREMSG) then (NOISE_ERROR_NOT_APPLICABLE, s) else
  if req REQ_LOCAL_REQUIRED && negb (dhstate_has_keypair (dh s dh_local_static))
  then (NOISE_ERROR_LOCAL_KEY_REQUIRED, s) else
  if req REQ_REMOTE_REQUIRED && negb (dhstate_has_public_key (dh s dh_remote_static))
  then (NOISE_ERROR_REMOTE_KEY_REQUIRED, s) else
  if req REQ_PSK then (NOISE_ERROR_PSK_REQUIRED, s) else
  let s := with_symmetric (snd (noise_symmetricstate_mix_hash (symmetric s) (hs_prologue s))) s in
  let fallback := req REQ_FALLBACK_PREMSG in
  match hs_role s with
  | NOISE_ROLE_INITIATOR =>
      let s := handshakestate_mix_public_key (req REQ_LOCAL_PREMSG) dh_local_static s in
      let s := handshakestate_mix_public_key fallback dh_remote_ephemeral s in
      let s := handshakestate_mix_public_key fallback dh_remote_hybrid s in
      let s := handshakestate_mix_chaining_key (fallback && req REQ_PSK) dh_remote_ephemeral s in
      let s := handshakestate_mix_public_key (req REQ_REMOTE_PREMSG) dh_remote_static s in
      (NOISE_ERROR_NONE, with_action NOISE_ACTION_WRITE_MESSAGE s)
  | NOISE_ROLE_RESPONDER =>
      let s := handshakestate_mix_public_key (req REQ_REMOTE_PREMSG) dh_remote_static s in
      let s := handshakestate_mix_public_key fallback dh_local_ephemeral s in
      let s := handshakestate_mix_public_key fallback dh_local_hybrid s in
      let s := handshakestate_mix_chaining_key (fallback && req REQ_PSK) dh_local_ephemeral s in
      let s := handshakestate_mix_public_key (req REQ_LOCAL_PREMSG) dh_local_static s in
      (NOISE_ERROR_NONE, with_action NOISE_ACTION_READ_MESSAGE s)
  end.

(** ** Messages *)

Section messages.
Context `{Curve25519}.

(** The private and the public key of a Diffie-Hellman token. *)
Definition token_keys (role : NoiseRole) (token : NoiseToken) : option (DhName * DhName) :=
  match token, role with
  | NOISE_TOKEN_EE, _ => Some (dh_local_ephemeral, dh_remote_ephemeral)
  | NOISE_TOKEN_ES, NOISE_ROLE_INITIATOR => Some (dh_local_ephemeral, dh_remote_static)
  | NOISE_TOKEN_ES, NOISE_ROLE_RESPONDER => Some (dh_local_static, dh_remote_ephemeral)
  | NOISE_TOKEN_SE, NOISE_ROLE_INITIATOR => Some (dh_local_static, dh_remote_ephemeral)
  | NOISE_TOKEN_SE, NOISE_ROLE_RESPONDER => Some (dh_local_ephemeral, dh_remote_static)
  | NOISE_TOKEN_SS, _ => Some (dh_local_static, dh_remote_static)
  | NOISE_TOKEN_FF, _ => Some (dh_local_hybrid, dh_remote_hybrid)
  | _, _ => None
  end.

(** The result of [mix_key] is ignored.  Every pattern creates the keys its tokens name
    ([patterns_create_their_keys]), so that no null object is read. *)
Definition noise_handshake_mix_dh (s : HandshakeState) (private_key public_key : DhName)
    : NoiseError * HandshakeState :=
  match dh s private_key, dh s public_key with
  | Some d, Some e =>
      let '(err, shared) := noise_dhstate_calculate d e in
      (err, with_symmetric (snd (noise_symmetricstate_mix_key (symmetric s) shared)) s)
  | _, _ => (NOISE_ERROR_INVALID_PARAM, s)
  end.

Definition mix_token (s : HandshakeState) (token : NoiseToken) : NoiseError * HandshakeState :=
  match token_keys (hs_role s) token with
  | Some (i, j) => noise_handshake_mix_dh s i j
  | None => (NOISE_ERROR_INVALID_STATE, s)
  end.

(** A public key encrypted into the rest of the message, of [room] bytes. *)
Definition write_encrypted_key (s : HandshakeState) (d : NoiseDHState) (room : nat)
    : NoiseError * list byte * HandshakeState :=
  let mac_len := noise_symmetricstate_get_mac_length (symmetric s) in
  if Nat.ltb room (32 + mac_len) then (NOISE_ERROR_INVALID_LENGTH, [], s) else
  let '(err, rest, y) := noise_symmetricstate_encrypt_and_hash (symmetric s) (public_key d) room in
  (err, rest, with_symmetric y s).

(** The error, the bytes the token adds and the state. *)
Definition write_token (s : HandshakeState) (token : NoiseToken) (room : nat)
    : NoiseError * list byte * HandshakeState :=
  match token with
  | NOISE_TOKEN_E =>
      match dh s dh_local_ephemeral with
      | None => (NOISE_ERROR_INVALID_STATE, [], s)
      | Some _ =>
          let d := match dh s dh_fixed_ephemeral with
                   | None => noise_dhstate_generate_keypair
                               (noise_rand_bytes (sym_h (symmetric s)))
                   | Some fixed => fixed
                   end in
          let s := with_dh dh_local_ephemeral (Some d) s in
          if Nat.ltb room 32 then (NOISE_ERROR_INVALID_LENGTH, [], s) else
          let y := snd (noise_symmetricstate_mix_hash (symmetric s) (public_key d)) in
          if prefix_id (sym_id y) =? NOISE_PREFIX_PSK then
            let '(err, y) := noise_symmetricstate_mix_key y (public_key d) in
            (err, public_key d, with_symmetric y s)
          else (NOISE_ERROR_NONE, public_key d, with_symmetric y s)
      end
  | NOISE_TOKEN_S =>
      match dh s dh_local_static with
      | None => (NOISE_ERROR_INVALID_STATE, [], s)
      | Some d => write_encrypted_key s d room
      end
  | NOISE_TOKEN_F =>
      match dh s dh_local_hybrid, dh s dh_remote_hybrid with
      | Some _, Some _ =>
          let d := noise_dhstate_generate_keypair (noise_rand_bytes (sym_h (symmetric s))) in
          write_encrypted_key (with_dh dh_local_hybrid (Some d) s) d room
      | _, _ => (NOISE_ERROR_INVALID_STATE, [], s)
      end
  | _ => let '(err, s) := mix_token s token in (err, [], s)
  end.

(** The loop of [handshakestate_write]; [toks] are the tokens of the state. *)
Fixpoint write_tokens (toks : list NoiseToken) (s : HandshakeState) (message : list byte)
    (max_size : nat) : NoiseError * list byte * HandshakeState :=
  match toks with
  | [] => (NOISE_ERROR_INVALID_STATE, message, s)
  | NOISE_TOKEN_END :: _ =>
      (NOISE_ERROR_NONE, message, with_action NOISE_ACTION_SPLIT (with_tokens toks s))
  | NOISE_TOKEN_FLIP_DIR :: toks =>
      (NOISE_ERROR_NONE, message, with_action NOISE_ACTION_READ_MESSAGE (with_tokens toks s))
  | token :: toks =>
      match write_token s token (max_size - length message) with
      | (NOISE_ERROR_NONE, rest, s) =>
          write_tokens toks (with_tokens toks s) (message ++ rest) max_size
      | (err, _, s) => (err, message, s)
      end
  end.

Definition handshakestate_write (s : HandshakeState) (max_size : nat)
    (payload : option (list byte)) : NoiseError * list byte * HandshakeState :=
  match write_tokens (tokens s) s [] max_size with
  | (NOISE_ERROR_NONE, message, s) =>
      let mac_len := noise_symmetricstate_get_mac_length (symmetric s) in
      let room := (max_size - length message)%nat in
      if Nat.ltb room mac_len then (NOISE_ERROR_INVALID_LENGTH, message, s) else
      let data := default [] payload in
      if Nat.ltb (room - mac_len) (length data) then (NOISE_ERROR_INVALID_LENGTH, message, s) else
      let '(err, rest, y) := noise_symmetricstate_encrypt_and_hash (symmetric s) data room in
      (err, message ++ rest, with_symmetric y s)
  | r => r
  end.

Definition handshakestate_write_message (s : HandshakeState) (max_size : nat)
    (payload : option (list byte)) : NoiseError * list byte * HandshakeState :=
  if negb (bool_decide (hs_action s = NOISE_ACTION_WRITE_MESSAGE))
  then (NOISE_ERROR_INVALID_STATE, [], s) else
  match handshakestate_write s max_size payload with
  | (NOISE_ERROR_NONE, message, s) => (NOISE_ERROR_NONE, message, s)
  | (err, _, s) => (err, [], with_action NOISE_ACTION_FAILED s)
  end.

(** A public key decrypted from the message: the error, the rest of the message, the state. *)
Definition read_encrypted_key (s : HandshakeState) (i : DhName) (d : NoiseDHState)
    (msg : list byte) : NoiseError * list byte * HandshakeState :=
  let len := (32 + noise_symmetricstate_get_mac_length (symmetric s))%nat in
  if Nat.ltb (length msg) len then (NOISE_ERROR_INVALID_LENGTH, msg, s) else
  match noise_symmetricstate_decrypt_and_hash (symmetric s) (take len msg) with
  | (NOISE_ERROR_NONE, key, y) =>
      match dhstate_set_public_key d key with
      | (NOISE_ERROR_NONE, d) =>
          (NOISE_ERROR_NONE, drop len msg, with_dh i (Some d) (with_symmetric y s))
      | (err, _) => (err, msg, with_symmetric y s)
      end
  | (err, _, y) => (err, msg, with_symmetric y s)
  end.

Definition read_token (s : HandshakeState) (token : NoiseToken) (msg : list byte)
    : NoiseError * list byte * HandshakeState :=
  match token with
  | NOISE_TOKEN_E =>
      match dh s dh_remote_ephemeral with
      | None => (NOISE_ERROR_INVALID_STATE, msg, s)
      | Some d =>
          if Nat.ltb (length msg) 32 then (NOISE_ERROR_INVALID_LENGTH, msg, s) else
          match noise_symmetricstate_mix_hash (symmetric s) (take 32 msg) with
          | (NOISE_ERROR_NONE, y) =>
              let s := with_symmetric y s in
              match dhstate_set_public_key d (take 32 msg) with
              | (NOISE_ERROR_NONE, d) =>
                  let s := with_dh dh_remote_ephemeral (Some d) s in
                  if noise_dhstate_is_null_public_key d
                  then (NOISE_ERROR_INVALID_PUBLIC_KEY, msg, s) else
                  if prefix_id (sym_id y) =? NOISE_PREFIX_PSK then
                    let '(err, y) := noise_symmetricstate_mix_key y (public_key d) in
                    (err, drop 32 msg, with_symmetric y s)
                  else (NOISE_ERROR_NONE, drop 32 msg, s)
              | (err, _) => (err, msg, s)
              end
          | (err, y) => (err, msg, with_symmetric y s)
          end
      end
  | NOISE_TOKEN_S =>
      match dh s dh_remote_static with
      | None => (NOISE_ERROR_INVALID_STATE, msg, s)
      | Some d => read_encrypted_key s dh_remote_static d msg
      end
  | NOISE_TOKEN_F =>
      match dh s dh_local_hybrid, dh s dh_remote_hybrid with
      | Some _, Some d =>
          match read_encrypted_key s dh_remote_hybrid d msg with
          | (NOISE_ERROR_NONE, msg, s) =>
              if match dh s dh_remote_hybrid with
                 | Some d => noise_dhstate_is_null_public_key d
                 | None => false
                 end
              then (NOISE_ERROR_INVALID_PUBLIC_KEY, msg, s) else (NOISE_ERROR_NONE, msg, s)
          | r => r
          end
      | _, _ => (NOISE_ERROR_INVALID_STATE, msg, s)
      end
  | _ => let '(err, s) := mix_token s token in (err, msg, s)
  end.

(** The loop of [handshakestate_read]. *)
Fixpoint read_tokens (toks : list NoiseToken) (s : HandshakeState) (msg : list byte)
    : NoiseError * list byte * HandshakeState :=
  match toks with
  | [] => (NOISE_ERROR_INVALID_STATE, msg, s)
  | NOISE_TOKEN_END :: _ =>
      (NOISE_ERROR_NONE, msg, with_action NOISE_ACTION_SPLIT (with_tokens toks s))
  | NOISE_TOKEN_FLIP_DIR :: toks =>
      (NOISE_ERROR_NONE, msg, with_action NOISE_ACTION_WRITE_MESSAGE (with_tokens toks s))
  | token :: toks =>
      match read_token s token msg with
      | (NOISE_ERROR_NONE, msg, s) => read_tokens toks (with_tokens toks s) msg
      | r => r
      end
  end.

(** The payload, into a buffer of [max_size] bytes. *)
Definition handshakestate_read (s : HandshakeState) (message : list byte) (max_size : nat)
    : NoiseError * list byte * HandshakeState :=
  match read_tokens (tokens s) s message with
  | (NOISE_ERROR_NONE, msg, s) =>
      match noise_symmetricstate_decrypt_and_hash (symmetric s) msg with
      | (NOISE_ERROR_NONE, payload, y) =>
          if Nat.ltb max_size (length payload)
          then (NOISE_ERROR_INVALID_LENGTH, [], with_symmetric y s)
          else (NOISE_ERROR_NONE, payload, with_symmetric y s)
      | (err, _, y) => (err, [], with_symmetric y s)
      end
  | (err, _, s) => (err, [], s)
  end.

Definition handshakestate_read_message (s : HandshakeState) (message : list byte)
    (max_size : nat) : NoiseError * list byte * HandshakeState :=
  if negb (bool_decide (hs_action s = NOISE_ACTION_READ_MESSAGE))
  then (NOISE_ERROR_INVALID_STATE, [], s) else
  match handshakestate_read s message max_size with
  | (NOISE_ERROR_NONE, payload, s) => (NOISE_ERROR_NONE, payload, s)
  | (err, _, s) => (err, [], with_action NOISE_ACTION_FAILED s)
  end.

(** ** The end of the handshake *)

(** The error, the two ciphers in the order send, receive, and the state. *)
Definition handshakestate_split (s : HandshakeState)
    : NoiseError * option CipherState * option CipherState * HandshakeState :=
  if negb (bool_decide (hs_action s = NOISE_ACTION_SPLIT))
  then (NOISE_ERROR_INVALID_STATE, None, None, s) else
  match sym_cipher (symmetric s) with
  | None => (NOISE_ERROR_INVALID_STATE, None, None, s)
  | Some _ =>
      let '(err, c1, c2, y) := noise_symmetricstate_split (symmetric s) in
      let s := with_symmetric y s in
      let s := if is_none err then with_action NOISE_ACTION_COMPLETE s else s in
      match hs_role s with
      | NOISE_ROLE_RESPONDER => (err, c2, c1, s)
      | NOISE_ROLE_INITIATOR => (err, c1, c2, s)
      end
  end.

Definition handshakestate_get_handshake_hash (s : HandshakeState) (max_len : nat)
    : NoiseError * list byte :=
  if negb (bool_decide (hs_action s = NOISE_ACTION_SPLIT)) &&
     negb (bool_decide (hs_action s = NOISE_ACTION_COMPLETE))
  then (NOISE_ERROR_INVALID_STATE, []) else
  (NOISE_ERROR_NONE,
   if Nat.leb hash_len max_len then sym_h (symmetric s) ++ zeros (max_len - hash_len)
   else take max_len (sym_h (symmetric s))).

(** ** The library the wrapper calls *)

#[export] Instance noise_c : NoiseC := {|
  NoiseHandshakeState := HandshakeState;
  NoiseCipherState := CipherState;
  noise_init := NOISE_ERROR_NONE;
  noise_handshakestate_new_by_name := handshakestate_new_by_name;
  noise_has_dh s slot := bool_decide (is_Some (handshakestate_dh s slot));
  noise_dhstate_set_keypair_private s slot key :=
    on_dh s slot (λ d, dhstate_set_keypair_private d key);
  noise_dhstate_set_public_key s slot key := on_dh s slot (λ d, dhstate_set_public_key d key);
  noise_dhstate_has_public_key s slot := dhstate_has_public_key (handshakestate_dh s slot);
  noise_dhstate_get_public_key s slot n :=
    match handshakestate_dh s slot with
    | Some d => dhstate_get_public_key d n
    | None => (NOISE_ERROR_INVALID_PARAM, [])
    end;
  noise_handshakestate_set_prologue := handshakestate_set_prologue;
  noise_handshakestate_start := handshakestate_start;
  noise_handshakestate_write_message := handshakestate_write_message;
  noise_handshakestate_read_message := handshakestate_read_message;
  noise_handshakestate_get_role := hs_role;
  noise_handshakestate_get_action := hs_action;
  noise_handshakestate_get_handshake_hash := handshakestate_get_handshake_hash;
  noise_handshakestate_split s := fst (handshakestate_split s);
  aegis_noise_cipherstate_export_key := cipherstate_export_key;
|}.

End messages.

(** ** Every pattern creates the keys its tokens name *)

(** The flag of the pattern that asks for a key. *)
Definition key_flag (i : DhName) : option Z :=
  match i with
  | dh_local_static => Some PAT_LOCAL_STATIC
  | dh_local_ephemeral => Some PAT_LOCAL_EPHEMERAL
  | dh_local_hybrid => Some PAT_LOCAL_HYBRID
  | dh_remote_static => Some PAT_REMOTE_STATIC
  | dh_remote_ephemeral => Some PAT_REMOTE_EPHEMERAL
  | dh_remote_hybrid => Some PAT_REMOTE_HYBRID
  | dh_fixed_ephemeral => None
  end.

Definition has_flag (flags : Z) (i : DhName) : bool :=
  match key_flag i with Some b => Z.testbit flags b | None => false end.

Definition local_flags (role : NoiseRole) (pattern : Z) : Z :=
  match role with
  | NOISE_ROLE_RESPONDER => noise_pattern_reverse_flags pattern
  | NOISE_ROLE_INITIATOR => pattern
  end.

(** Keys the interpreter reads at a token. *)
Definition token_needs (role : NoiseRole) (token : NoiseToken) : list DhName :=
  match token_keys role token with Some (i, j) => [i; j] | None => [] end.

Lemma patterns_have_flags :
  forallb (λ p, forallb (λ role, forallb (λ t,
      forallb (has_flag (local_flags role (fst (snd p)))) (token_needs role t)) (snd (snd p)))
    [NOISE_ROLE_INITIATOR; NOISE_ROLE_RESPONDER]) noise_patterns = true.
Proof. vm_compute. reflexivity. Qed.

(** What one creation step leaves behind when no error is pending after it. *)
Definition grows (r r' : NoiseError * HandshakeState) (wanted : bool) (i : DhName) : Prop :=
  fst r' = NOISE_ERROR_NONE ->
  fst r = NOISE_ERROR_NONE /\ tokens (snd r') = tokens (snd r) /\
  hs_role (snd r') = hs_role (snd r) /\
  (wanted = true -> is_Some (dh (snd r') i)) /\
  (forall j, is_Some (dh (snd r) j) -> is_Some (dh (snd r') j)).

Lemma new_by_id_some id err d :
  noise_dhstate_new_by_id id = (err, d) -> err = NOISE_ERROR_NONE -> is_Some d.
Proof. unfold noise_dhstate_new_by_id. intros. by repeat case_match; simplify_eq/=. Qed.

Lemma grows_set r i d wanted :
  fst r = NOISE_ERROR_NONE -> is_Some d -> grows r (NOISE_ERROR_NONE, with_dh i d (snd r)) wanted i.
Proof.
  intros Hr Hd _. split_and!; [done|done|done| |]; cbn.
  - intros _. by rewrite decide_True.
  - intros j Hj. by case_decide.
Qed.

Lemma new_dh_grows wanted i id r : grows r (new_dh wanted i id r) wanted i.
Proof.
  unfold new_dh. destruct wanted; cbn [andb]; [|by intros Hr; split_and!].
  destruct (is_none (fst r)) eqn:E; [|intros Hr; unfold is_none in E; by rewrite Hr in E].
  apply bool_decide_eq_true in E.
  destruct (noise_dhstate_new_by_id id) as [err d] eqn:Hn. intros Hr. cbn in Hr. subst err.
  by apply (grows_set r i d true E (new_by_id_some _ _ _ Hn eq_refl)).
Qed.

Lemma new_hybrid_grows wanted i id r : grows r (new_hybrid wanted i id r) wanted i.
Proof.
  unfold new_hybrid. destruct wanted; cbn [andb].
  - destruct (is_none (fst r)) eqn:E.
    + apply bool_decide_eq_true in E. destruct (negb _); [|intros Hr; done].
      destruct (noise_dhstate_new_by_id id) as [err d] eqn:Hn. intros Hr. cbn in Hr. subst err.
      by apply (grows_set r i d true E (new_by_id_some _ _ _ Hn eq_refl)).
    + destruct (negb _); [done|]. intros Hr. unfold is_none in E. by rewrite Hr in E.
  - destruct (negb _); [done|]. by intros Hr; split_and!.
Qed.

(** Innermost creation step first: record what it does and forget how. *)
Ltac creation_steps Hnew :=
  repeat match type of Hnew with
  | context [new_dh ?w ?i ?id ?r] =>
      lazymatch r with context [new_dh] => fail | context [new_hybrid] => fail | _ => idtac end;
      let G := fresh "G" in
      pose proof (new_dh_grows w i id r) as G; revert G Hnew;
      generalize (new_dh w i id r); intros ? G Hnew
  | context [new_hybrid ?w ?i ?id ?r] =>
      lazymatch r with context [new_dh] => fail | context [new_hybrid] => fail | _ => idtac end;
      let G := fresh "G" in
      pose proof (new_hybrid_grows w i id r) as G; revert G Hnew;
      generalize (new_hybrid w i id r); intros ? G Hnew
  end.

Lemma new_creates y role s pattern toks :
  noise_pattern_lookup (pattern_id (sym_id y)) = Some (pattern, toks) ->
  handshakestate_new y role = (NOISE_ERROR_NONE, Some s) ->
  tokens s = toks /\ hs_role s = role /\
  forall i, has_flag (local_flags role pattern) i = true -> is_Some (dh s i).
Proof.
  intros Hp Hnew. unfold handshakestate_new in Hnew. rewrite Hp in Hnew.
  change (match role with NOISE_ROLE_INITIATOR => pattern
    | NOISE_ROLE_RESPONDER => noise_pattern_reverse_flags pattern end)
    with (local_flags role pattern) in Hnew.
  cbv zeta in Hnew. creation_steps Hnew.
  match type of Hnew with (if is_none (fst ?r) then _ else _) = _ =>
    destruct (is_none (fst r)) eqn:E; [|simplify_eq; by destruct (fst r)] end.
  apply bool_decide_eq_true in E. simplify_eq.
  repeat match goal with G : grows _ ?r _ _, E : fst ?r = NOISE_ERROR_NONE |- _ =>
    destruct (G E) as (? & ? & ? & ? & ?); clear G E end.
  cbn [tokens hs_role fst snd] in *. split; [congruence|]. split; [congruence|].
  intros []; unfold has_flag; cbn [key_flag]; intros Hf; auto 10; done.
Qed.

Lemma lookup_in_patterns id p : noise_pattern_lookup id = Some p -> (id, p) ∈ noise_patterns.
Proof.
  unfold noise_pattern_lookup. destruct (filter _ noise_patterns) as [|q l] eqn:E; [done|].
  intros [= <-]. assert (q ∈ filter (λ p, fst p = id) noise_patterns) as Hq
    by (rewrite E; apply list_elem_of_here).
  apply list_elem_of_filter in Hq as [<- Hq]. by destruct q.
Qed.

(** No message of a handshake reads a key object that its creation has left null: every key that
    a token of the pattern uses in a Diffie-Hellman operation exists. *)
Lemma patterns_create_their_keys y role s token i :
  handshakestate_new y role = (NOISE_ERROR_NONE, Some s) ->
  token ∈ tokens s -> i ∈ token_needs (hs_role s) token -> is_Some (dh s i).
Proof.
  intros Hnew Ht Hi.
  destruct (noise_pattern_lookup (pattern_id (sym_id y))) as [[pattern toks]|] eqn:Hp;
    [|unfold handshakestate_new in Hnew; by rewrite Hp in Hnew].
  destruct (new_creates _ _ _ _ _ Hp Hnew) as (Etok & Erole & Hkeys). apply Hkeys.
  pose proof (proj1 (forallb_forall _ _) patterns_have_flags _
    (proj1 (list_elem_of_In _ _) (lookup_in_patterns _ _ Hp))) as Hall. cbn [fst snd] in Hall.
  assert (In role [NOISE_ROLE_INITIATOR; NOISE_ROLE_RESPONDER]) as Hr by (destruct role; cbn; auto).
  apply (proj1 (forallb_forall _ _) Hall) in Hr. rewrite <- Etok, <- Erole in *.
  apply (proj1 (forallb_forall _ _)) with (x := token) in Hr; [|by apply list_elem_of_In].
  apply (proj1 (forallb_forall _ _)) with (x := i) in Hr; [done|by apply list_elem_of_In].
Qed.

(** ** The IK pattern of the Noise specification *)

(** The variables of a symmetric state: chaining key, hash, cipher key and nonce. *)
Record Transcript := mkTranscript {
  t_ck : list byte; t_h : list byte; t_key : option (list byte); t_n : Z }.

(** [MixHash], [MixKey] and [EncryptAndHash]. *)
Definition MixHash (t : Transcript) (x : list byte) : Transcript :=
  mkTranscript (t_ck t) (blake2s (t_h t ++ x)) (t_key t) (t_n t).
Definition MixKey (t : Transcript) (x : list byte) : Transcript :=
  mkTranscript (hkdf (t_ck t) x).1 (t_h t) (Some (hkdf (t_ck t) x).2) 0.
Definition Encrypt (t : Transcript) (p : list byte) : list byte :=
  match t_key t with Some k => seal k (t_n t) (t_h t) p | None => p end.
Definition Encrypted (t : Transcript) (p : list byte) : Transcript :=
  mkTranscript (t_ck t) (blake2s (t_h t ++ Encrypt t p)) (t_key t) (t_n t + 1).

(** [InitializeSymmetric] with the protocol name, the prologue and the responder's static key. *)
Definition ik_initial : Transcript :=
  mkTranscript (blake2s NOISE_IK_PROTOCOL_NAME) (blake2s NOISE_IK_PROTOCOL_NAME) None 0.
Definition ik_transcript (prologue rs : list byte) : Transcript :=
  MixHash (MixHash ik_initial prologue) rs.

(** The message [e, es, s, ss] and the transcript after it. *)
Definition ik_first (t : Transcript) (e s es ss payload : list byte) : list byte * Transcript :=
  let t1 := MixKey (MixHash t e) es in
  let t2 := MixKey (Encrypted t1 s) ss in
  (e ++ Encrypt t1 s ++ Encrypt t2 payload, Encrypted t2 payload).

(** The message [e, ee, se] with an empty payload. *)
Definition ik_second (t : Transcript) (e ee se : list byte) : list byte * Transcript :=
  let t1 := MixKey (MixKey (MixHash t e) ee) se in
  (e ++ Encrypt t1 [], Encrypted t1 []).

(** ** The interpreters follow the specification *)

Definition upd (i : DhName) (d : option NoiseDHState) (keys : DhName -> option NoiseDHState)
    : DhName -> option NoiseDHState := λ j, if decide (i = j) then d else keys j.

(** A handshake state with these keys and this transcript. *)
Definition hs_at (s : HandshakeState) (role : NoiseRole) (keys : DhName -> option NoiseDHState)
    (t : Transcript) : Prop :=
  hs_role s = role /\ (forall i, dh s i = keys i) /\
  prefix_id (sym_id (symmetric s)) <> NOISE_PREFIX_PSK /\
  sym_at (symmetric s) (t_ck t) (t_h t) (t_key t) (t_n t).

Lemma hs_at_tokens toks s role keys t : hs_at s role keys t -> hs_at (with_tokens toks s) role keys t.
Proof. done. Qed.
Lemma hs_at_action a s role keys t : hs_at s role keys t -> hs_at (with_action a s) role keys t.
Proof. done. Qed.

Lemma hs_at_dh i d s role keys t :
  hs_at s role keys t -> hs_at (with_dh i d s) role (upd i d keys) t.
Proof.
  intros (Hr & Hk & Hp & Hs). split; [done|]. split; [|done].
  intros j. cbn. unfold upd. by rewrite Hk.
Qed.

Lemma hs_at_symmetric s role keys t t' y :
  hs_at s role keys t -> sym_id y = sym_id (symmetric s) ->
  sym_at y (t_ck t') (t_h t') (t_key t') (t_n t') -> hs_at (with_symmetric y s) role keys t'.
Proof. intros (Hr & Hk & Hp & Hs) Hid Hy. split_and!; try done. cbn. by rewrite Hid. Qed.

(** The key a state uses at the next encryption, and a nonce that is not exhausted. *)
Definition keyed_fresh (t : Transcript) : Prop := is_Some (t_key t) /\ t_n t = 0.

Section ik.
Context `{Curve25519}.

Lemma write_e_at s role keys t d0 d room :
  hs_at s role keys t -> keys dh_local_ephemeral = Some d0 -> keys dh_fixed_ephemeral = Some d ->
  (32 <= room)%nat ->
  exists s', write_token s NOISE_TOKEN_E room = (NOISE_ERROR_NONE, public_key d, s') /\
    hs_at s' role (upd dh_local_ephemeral (Some d) keys) (MixHash t (public_key d)).
Proof.
  intros Hs Hl Hf Hroom. pose proof Hs as (_ & Hk & Hp & Hy).
  unfold write_token. rewrite !Hk, Hl, Hf.
  rewrite (proj2 (Nat.ltb_ge _ _)) by lia. cbn [symmetric with_dh].
  destruct (mix_hash_at _ _ _ _ _ (public_key d) Hy) as (y & E & Hid & Hy').
  rewrite E. cbn [snd]. rewrite Hid, (proj2 (Z.eqb_neq _ _)) by done.
  eexists. split; [done|]. by eapply hs_at_symmetric; [apply hs_at_dh|..].
Qed.

Lemma write_s_at s role keys t d room :
  hs_at s role keys t -> keys dh_local_static = Some d -> is32 (public_key d) ->
  keyed_fresh t -> (48 <= room)%nat ->
  exists s', write_token s NOISE_TOKEN_S room = (NOISE_ERROR_NONE, Encrypt t (public_key d), s') /\
    hs_at s' role keys (Encrypted t (public_key d)).
Proof.
  intros Hs Hl Hlen [[k Hkey] Hn] Hroom. pose proof Hs as (_ & Hk & Hp & Hy).
  unfold write_token, write_encrypted_key. rewrite Hk, Hl, (mac_length_at _ _ _ _ _ Hy), Hkey.
  rewrite (proj2 (Nat.ltb_ge _ _)) by lia. rewrite Hkey in Hy.
  destruct (encrypt_at _ _ _ _ _ (public_key d) room Hy) as (y & E & Hid & Hy');
    [rewrite Hn; unfold NONCE_OVERFLOW; lia| | |].
  { unfold is32 in Hlen. rewrite Hlen. unfold NOISE_MAX_PAYLOAD_LEN. lia. }
  { unfold is32 in Hlen. lia. }
  rewrite E. eexists. unfold Encrypt. rewrite Hkey. split; [done|].
  eapply hs_at_symmetric; [done..|]. unfold Encrypted, Encrypt. cbn. by rewrite Hkey.
Qed.

(** A Diffie-Hellman token mixes the shared secret in, on either side of a message. *)
Lemma mix_token_at s role keys t token i j d e :
  hs_at s role keys t -> token_keys role token = Some (i, j) ->
  keys i = Some d -> keys j = Some e -> key_type d = NOISE_KEY_TYPE_KEYPAIR ->
  noise_is_zero (public_key e) = false ->
  exists s', mix_token s token = (NOISE_ERROR_NONE, s') /\
    hs_at s' role keys (MixKey t (curve25519_donna (private_key d) (public_key e))).
Proof.
  intros Hs Htok Hi Hj Hd He. pose proof Hs as (Hr & Hk & Hp & Hy).
  unfold mix_token, noise_handshake_mix_dh. rewrite Hr, Htok, !Hk, Hi, Hj.
  unfold noise_dhstate_calculate. rewrite Hd, He. cbn [bool_decide negb].
  rewrite bool_decide_true by done. cbn [negb].
  destruct (mix_key_at _ _ _ _ _ (curve25519_donna (private_key d) (public_key e)) Hy)
    as (y & E & Hid & Hy'). rewrite E. eexists. split; [done|]. by eapply hs_at_symmetric.
Qed.

Lemma write_mix s token room i j :
  token_keys (hs_role s) token = Some (i, j) ->
  write_token s token room = let '(err, s) := mix_token s token in (err, [], s).
Proof. by destruct token. Qed.

Lemma read_mix s token msg i j :
  token_keys (hs_role s) token = Some (i, j) ->
  read_token s token msg = let '(err, s) := mix_token s token in (err, msg, s).
Proof. by destruct token. Qed.

Lemma nonzero_key k : is32 k -> k <> zero32 -> noise_is_zero k = false.
Proof. intros Hl Hk. apply bool_decide_eq_false. unfold is32 in Hl. by rewrite Hl. Qed.

Lemma read_e_at s role keys t d key rest :
  hs_at s role keys t -> keys dh_remote_ephemeral = Some d -> is32 key -> key <> zero32 ->
  exists s', read_token s NOISE_TOKEN_E (key ++ rest) = (NOISE_ERROR_NONE, rest, s') /\
    hs_at s' role (upd dh_remote_ephemeral (Some (mkDh NOISE_KEY_TYPE_PUBLIC (zeros 32) key)) keys)
      (MixHash t key).
Proof.
  intros Hs Hr Hlen Hz. pose proof Hs as (_ & Hk & Hp & Hy). unfold is32 in Hlen.
  unfold read_token. rewrite Hk, Hr, length_app, Hlen.
  rewrite (proj2 (Nat.ltb_ge _ _)) by lia.
  rewrite take_app_length', drop_app_length' by done.
  destruct (mix_hash_at _ _ _ _ _ key Hy) as (y & E & Hid & Hy'). rewrite E.
  unfold dhstate_set_public_key. rewrite Hlen. cbn [Nat.eqb negb].
  unfold noise_dhstate_is_null_public_key. cbn [public_key key_type].
  rewrite nonzero_key by done. rewrite andb_false_r, Hid, (proj2 (Z.eqb_neq _ _)) by done.
  eexists. split; [done|]. apply hs_at_dh. by eapply hs_at_symmetric.
Qed.

Lemma read_s_at s role keys t d key rest :
  hs_at s role keys t -> keys dh_remote_static = Some d -> is32 key -> keyed_fresh t ->
  exists s', read_token s NOISE_TOKEN_S (Encrypt t key ++ rest) = (NOISE_ERROR_NONE, rest, s') /\
    hs_at s' role (upd dh_remote_static (Some (mkDh NOISE_KEY_TYPE_PUBLIC (zeros 32) key)) keys)
      (Encrypted t key).
Proof.
  intros Hs Hr Hlen [[k Hkey] Hn]. pose proof Hs as (_ & Hk & Hp & Hy). unfold is32 in Hlen.
  unfold read_token, read_encrypted_key. rewrite Hk, Hr, (mac_length_at _ _ _ _ _ Hy).
  unfold Encrypted, Encrypt. rewrite Hkey. rewrite Hkey in Hy.
  assert (length (seal k (t_n t) (t_h t) key) = 48%nat) as Hc by (rewrite seal_length, Hlen; done).
  rewrite length_app, Hc. rewrite (proj2 (Nat.ltb_ge _ _)) by lia.
  rewrite take_app_length', drop_app_length' by done.
  destruct (decrypt_at _ _ _ _ _ key Hy) as (y & E & Hid & Hy');
    [rewrite Hn; unfold NONCE_OVERFLOW; lia|rewrite Hlen; unfold NOISE_MAX_PAYLOAD_LEN; lia|].
  rewrite E. unfold dhstate_set_public_key. rewrite Hlen. cbn [Nat.eqb negb].
  eexists. split; [done|]. apply hs_at_dh. by eapply hs_at_symmetric.
Qed.

(** *** Configuration *)

Definition keypair (k : list byte) : NoiseDHState :=
  mkDh NOISE_KEY_TYPE_KEYPAIR k (curved25519_scalarmult_basepoint k).
Definition public_only (p : list byte) : NoiseDHState := mkDh NOISE_KEY_TYPE_PUBLIC (zeros 32) p.

Definition ik_id : NoiseProtocolId := mkProtocolId 19969 20494 17409 0 17153 18433.
Definition ik_tokens : list NoiseToken :=
  [NOISE_TOKEN_E; NOISE_TOKEN_ES; NOISE_TOKEN_S; NOISE_TOKEN_SS; NOISE_TOKEN_FLIP_DIR;
   NOISE_TOKEN_E; NOISE_TOKEN_EE; NOISE_TOKEN_SE; NOISE_TOKEN_END].
Definition ik_requirements (role : NoiseRole) : Z :=
  match role with NOISE_ROLE_INITIATOR => 99 | NOISE_ROLE_RESPONDER => 81 end.

(** A state of the IK protocol that has not started. *)
Definition configuring (s : HandshakeState) (role : NoiseRole)
    (keys : DhName -> option NoiseDHState) (t : Transcript) (prologue : list byte) : Prop :=
  hs_at s role keys t /\ hs_action s = NOISE_ACTION_NONE /\
  tokens s = ik_tokens /\ requirements s = ik_requirements role /\
  sym_id (symmetric s) = ik_id /\ hs_prologue s = prologue.

Definition no_keys (i : DhName) : option NoiseDHState :=
  match i with
  | dh_local_hybrid | dh_remote_hybrid | dh_fixed_ephemeral => None
  | _ => Some noise_curve25519_new
  end.

Lemma ik_name : noise_protocol_name_to_id NOISE_IK_PROTOCOL_NAME = Some ik_id.
Proof. vm_compute. reflexivity. Qed.

Lemma new_configuring role :
  exists s, handshakestate_new_by_name NOISE_IK_PROTOCOL_NAME role = (NOISE_ERROR_NONE, Some s) /\
    configuring s role no_keys ik_initial [].
Proof.
  unfold handshakestate_new_by_name, noise_symmetricstate_new_by_name. rewrite ik_name.
  unfold noise_symmetricstate_new.
  change (Nat.leb (length NOISE_IK_PROTOCOL_NAME) hash_len) with false. cbv iota.
  rewrite hash_one_spec by done. unfold ik_initial.
  generalize (blake2s NOISE_IK_PROTOCOL_NAME) as h. intros h.
  change (noise_cipherstate_new_by_id (cipher_id ik_id))
    with (NOISE_ERROR_NONE, Some (mkCipher false (replicate 16 0) 0)).
  change (noise_hashstate_new_by_id (hash_id ik_id)) with NOISE_ERROR_NONE. cbv iota beta.
  unfold handshakestate_new. cbn [sym_id].
  assert (noise_pattern_lookup (pattern_id ik_id) = Some (1795, ik_tokens)) as ->
    by (vm_compute; reflexivity).
  destruct role; eexists; (split; [reflexivity|]); (split; [|by split_and!]);
    (split; [done|]); (split; [by intros []|]); (split; [done|]); unfold sym_at; split_and!; try done;
    by exists (mkCipher false (replicate 16 0) 0).
Qed.

Lemma configure_key s role keys t prologue slot f d d' :
  configuring s role keys t prologue -> slot <> FixedEphemeral -> keys (slot_name slot) = Some d ->
  f d = (NOISE_ERROR_NONE, d') ->
  noise_has_dh s slot = true /\
  exists s', on_dh s slot f = (NOISE_ERROR_NONE, s') /\
    configuring s' role (upd (slot_name slot) (Some d') keys) t prologue.
Proof.
  intros (Hs & Hrest) Hslot Hk Hf. pose proof Hs as (_ & Hd & _).
  assert (handshakestate_dh s slot = Some d) as Hdh.
  { unfold handshakestate_dh. destruct slot; [..|done]; cbn; by rewrite Hd. }
  split; [cbn; rewrite Hdh; by apply bool_decide_true|].
  unfold on_dh. rewrite Hdh, Hf. eexists. split; [done|].
  destruct slot; [..|done]; split; try done; by apply hs_at_dh.
Qed.

Lemma configure_local s role keys t prologue k d :
  configuring s role keys t prologue -> keys dh_local_static = Some d -> is32 k ->
  exists s', set_private_in LocalKeypair k s = Some s' /\
    configuring s' role (upd dh_local_static (Some (keypair k)) keys) t prologue.
Proof.
  intros Hs Hk Hlen. unfold is32 in Hlen.
  destruct (configure_key _ _ _ _ _ LocalKeypair (λ d, dhstate_set_keypair_private d k) d
    (keypair k) Hs) as (Hhas & s' & E & Hs'); [done..| |].
  { unfold dhstate_set_keypair_private. by rewrite Hlen. }
  exists s'. split; [|done]. unfold set_private_in. rewrite Hhas.
  cbn [noise_dhstate_set_keypair_private noise_c]. by rewrite E.
Qed.

Lemma configure_remote s role keys t prologue remote d :
  configuring s role keys t prologue -> keys dh_remote_static = Some d ->
  (forall key, remote = Some key -> is32 key) ->
  exists s', set_remote_in remote s = Some s' /\
    configuring s' role (match remote with
                         | Some r => upd dh_remote_static (Some (public_only r)) keys
                         | None => keys
                         end) t prologue.
Proof.
  intros Hs Hk Hlen. destruct remote as [r|]; cbn [set_remote_in]; [|by exists s].
  destruct (configure_key _ _ _ _ _ RemotePublicKey (λ d, dhstate_set_public_key d r) d
    (public_only r) Hs) as (Hhas & s' & E & Hs'); [done..| |].
  { unfold dhstate_set_public_key. by rewrite (Hlen r eq_refl). }
  exists s'. split; [|done]. rewrite Hhas.
  cbn [noise_dhstate_set_public_key noise_c]. by rewrite E.
Qed.

Lemma configure_ephemeral s role keys t prologue e d :
  configuring s role keys t prologue -> keys dh_local_ephemeral = Some d ->
  keys dh_fixed_ephemeral = None -> is32 e ->
  exists s', set_private_in FixedEphemeral e s = Some s' /\
    configuring s' role (upd dh_fixed_ephemeral (Some (keypair e)) keys) t prologue.
Proof.
  intros (Hs & Hrest) Hl Hf He. pose proof Hs as (Hr & Hd & Hp & Hy).
  unfold set_private_in. cbn [noise_has_dh noise_c noise_dhstate_set_keypair_private].
  unfold on_dh, handshakestate_dh. cbn [handshakestate_get_dh slot_name].
  unfold handshakestate_get_fixed_ephemeral_dh. rewrite !Hd, Hl, Hf.
  destruct Hrest as (Ha & Ht & Hq & Hid & Hpro). rewrite Hid.
  change (snd (noise_dhstate_new_by_id (dh_id ik_id))) with (Some noise_curve25519_new).
  cbn [dh with_dh]. rewrite decide_True by done. rewrite bool_decide_true by done.
  unfold dhstate_set_keypair_private. unfold is32 in He. rewrite He. cbn [Nat.eqb negb].
  eexists. split; [done|]. split; [|done].
  split; [done|]. split; [|done]. intros i. cbn. unfold upd. case_decide; [done|]. apply Hd.
Qed.

Lemma set_prologue_configuring s role keys t p prologue :
  configuring s role keys t p ->
  exists s', handshakestate_set_prologue s prologue = (NOISE_ERROR_NONE, s') /\
    configuring s' role keys t prologue.
Proof.
  intros (Hs & Ha & Hrest). unfold handshakestate_set_prologue.
  rewrite Ha, bool_decide_true by done. eexists. split; [done|].
  destruct Hrest as (? & ? & ? & _). by split_and!.
Qed.

(** [start] hashes the prologue and the responder's static key. *)
Definition started (s : HandshakeState) (role : NoiseRole) (keys : DhName -> option NoiseDHState)
    (t : Transcript) : Prop :=
  hs_at s role keys t /\ tokens s = ik_tokens /\
  hs_action s = match role with
                | NOISE_ROLE_INITIATOR => NOISE_ACTION_WRITE_MESSAGE
                | NOISE_ROLE_RESPONDER => NOISE_ACTION_READ_MESSAGE
                end.

Lemma mix_public_key_at s role keys t i d :
  hs_at s role keys t -> keys i = Some d -> key_type d <> NOISE_KEY_TYPE_NO_KEY ->
  exists y, handshakestate_mix_public_key true i s = with_symmetric y s /\
    hs_at (with_symmetric y s) role keys (MixHash t (public_key d)).
Proof.
  intros Hs Hi Hd. pose proof Hs as (_ & Hk & _ & Hy).
  unfold handshakestate_mix_public_key. rewrite Hk, Hi. cbn [dhstate_has_public_key andb].
  rewrite bool_decide_false by done. cbn [negb].
  destruct (mix_hash_at _ _ _ _ _ (public_key d) Hy) as (y & -> & Hid & Hy').
  exists y. split; [done|]. by eapply hs_at_symmetric.
Qed.

Lemma mix_public_key_off i s : handshakestate_mix_public_key false i s = s.
Proof. unfold handshakestate_mix_public_key. by destruct (dh s i). Qed.
Lemma mix_chaining_key_off i s : handshakestate_mix_chaining_key false i s = s.
Proof. unfold handshakestate_mix_chaining_key. by destruct (dh s i). Qed.

Lemma start_started s role keys t prologue k r :
  configuring s role keys t prologue -> keys dh_local_static = Some (keypair k) ->
  match role with
  | NOISE_ROLE_INITIATOR => keys dh_remote_static = Some (public_only r)
  | NOISE_ROLE_RESPONDER => r = curved25519_scalarmult_basepoint k
  end ->
  exists s', handshakestate_start s = (NOISE_ERROR_NONE, s') /\
    started s' role keys (MixHash (MixHash t prologue) r).
Proof.
  intros (Hs & Ha & Ht & Hq & Hid & <-) Hl Hr. pose proof Hs as (Hrole & Hk & _ & Hy).
  unfold handshakestate_start. rewrite Ha, Hid, Hq, !Hk, Hl. rewrite bool_decide_true by done.
  destruct (mix_hash_at _ _ _ _ _ (hs_prologue s) Hy) as (y & E & Hyid & Hy'). rewrite E.
  cbn [negb fst snd hs_role with_symmetric].
  pose proof (hs_at_symmetric _ _ _ _ (MixHash _ (hs_prologue s)) y Hs Hyid Hy') as Hs1.
  rewrite Hrole. destruct role.
  - rewrite Hr. cbn -[handshakestate_mix_public_key handshakestate_mix_chaining_key].
    destruct (mix_public_key_at _ _ _ _ dh_remote_static (public_only r) Hs1) as (y1 & E1 & H1);
      [done|done|].
    rewrite !mix_public_key_off, !mix_chaining_key_off, E1, ?mix_public_key_off.
    eexists. split; [done|]. by split_and!.
  - subst r. cbn -[handshakestate_mix_public_key handshakestate_mix_chaining_key].
    destruct (mix_public_key_at _ _ _ _ dh_local_static (keypair k) Hs1) as (y1 & E1 & H1);
      [done|done|].
    rewrite !mix_public_key_off, !mix_chaining_key_off, E1, ?mix_public_key_off.
    eexists. split; [done|]. by split_and!.
Qed.

(** The keys of the two sides when the handshake starts. *)
Definition ik_keys (role : NoiseRole) (k : list byte) (remote : option (list byte)) (e : list byte)
    : DhName -> option NoiseDHState :=
  λ i, match i with
       | dh_local_static => Some (keypair k)
       | dh_local_ephemeral | dh_remote_ephemeral => Some noise_curve25519_new
       | dh_remote_static =>
           Some (match remote with Some r => public_only r | None => noise_curve25519_new end)
       | dh_fixed_ephemeral => Some (keypair e)
       | _ => None
       end.

Lemma started_keys s role keys keys' t :
  (forall i, keys i = keys' i) -> started s role keys t -> started s role keys' t.
Proof.
  intros Hk ((Hr & Hd & Hrest) & Hrest'). split; [|done]. split; [done|]. split; [|done].
  intros i. by rewrite Hd, Hk.
Qed.

Lemma ik_start_at role k remote prologue e :
  is32 k -> is32 e -> (role = NOISE_ROLE_INITIATOR <-> is_Some remote) ->
  (forall key, remote = Some key -> is32 key) ->
  exists s, ik_start role k remote prologue e = Some s /\
    started s role (ik_keys role k remote e)
      (ik_transcript prologue (default (curved25519_scalarmult_basepoint k) remote)).
Proof.
  intros Hk He Hrole Hrem. unfold ik_start.
  change (negb (is_none noise_init)) with false. cbv iota.
  destruct (new_configuring role) as (s0 & E0 & C0).
  change (@noise_handshakestate_new_by_name noise_c) with handshakestate_new_by_name. rewrite E0.
  destruct (configure_local _ _ _ _ _ k _ C0 eq_refl Hk) as (s1 & -> & C1). cbn [mbind option_bind].
  destruct (configure_remote _ _ _ _ _ remote _ C1 eq_refl Hrem) as (s2 & -> & C2).
  cbn [mbind option_bind].
  destruct (set_prologue_configuring _ _ _ _ _ prologue C2) as (s3 & E3 & C3).
  change (@noise_handshakestate_set_prologue noise_c) with handshakestate_set_prologue.
  rewrite E3. change (@noise_try noise_c (NOISE_ERROR_NONE, s3)) with (Some s3). cbn [mbind option_bind].
  destruct (configure_ephemeral _ _ _ _ _ e noise_curve25519_new C3) as (s4 & E4 & C4);
    [by destruct remote|by destruct remote|done|].
  rewrite E4. cbn [mbind option_bind].
  destruct (start_started _ _ _ _ _ k (default (curved25519_scalarmult_basepoint k) remote) C4)
    as (s5 & E5 & S5).
  - by destruct remote.
  - destruct role, remote as [r|]; [reflexivity| | |reflexivity].
    + by destruct (proj1 Hrole eq_refl).
    + by discriminate (proj2 Hrole ltac:(eauto)).
  - change (@noise_handshakestate_start noise_c) with handshakestate_start.
    rewrite E5. exists s5. split; [done|]. eapply started_keys; [|exact S5].
    destruct remote; by intros [].
Qed.

Lemma ik_start_ephemeral role k remote prologue e s :
  ik_start role k remote prologue e = Some s -> is32 e.
Proof.
  unfold ik_start. intros Hs. destruct (negb _); [discriminate|].
  destruct (noise_handshakestate_new_by_name _ _) as [[] [s0|]]; try discriminate.
  destruct (set_private_in LocalKeypair _ _); [|done]. cbn in Hs.
  destruct (set_remote_in _ _); [|done]. cbn in Hs.
  destruct (noise_try _) as [s3|]; [|done]. cbn [mbind option_bind] in Hs.
  destruct (set_private_in FixedEphemeral e s3) eqn:E; [|done].
  unfold set_private_in in E. destruct (noise_has_dh _ _); [|done].
  cbn in E. unfold on_dh, dhstate_set_keypair_private in E.
  destruct (handshakestate_dh s3 FixedEphemeral); [|done].
  destruct (Nat.eqb_spec (length e) 32); [done|]. done.
Qed.

(** *** Messages *)

Lemma write_step token toks s message max_size out s' :
  token <> NOISE_TOKEN_END -> token <> NOISE_TOKEN_FLIP_DIR ->
  write_token s token (max_size - length message) = (NOISE_ERROR_NONE, out, s') ->
  write_tokens (token :: toks) s message max_size =
  write_tokens toks (with_tokens toks s') (message ++ out) max_size.
Proof. intros H1 H2 Hw. cbn. rewrite Hw. by destruct token. Qed.

Lemma read_step token toks s msg rest s' :
  token <> NOISE_TOKEN_END -> token <> NOISE_TOKEN_FLIP_DIR ->
  read_token s token msg = (NOISE_ERROR_NONE, rest, s') ->
  read_tokens (token :: toks) s msg = read_tokens toks (with_tokens toks s') rest.
Proof. intros H1 H2 Hw. cbn. rewrite Hw. by destruct token. Qed.

(** The end of a message: an empty payload under a fresh key. *)
Lemma write_payload_at s role keys t message max_size s0 :
  write_tokens (tokens s0) s0 [] max_size = (NOISE_ERROR_NONE, message, s) ->
  hs_action s0 = NOISE_ACTION_WRITE_MESSAGE ->
  hs_at s role keys t -> keyed_fresh t -> (length message + 16 <= max_size)%nat ->
  exists s', handshakestate_write_message s0 max_size None =
      (NOISE_ERROR_NONE, message ++ Encrypt t [], s') /\
    hs_at s' role keys (Encrypted t []) /\ tokens s' = tokens s /\ hs_action s' = hs_action s.
Proof.
  intros Hw Ha Hs [[k Hkey] Hn] Hroom. pose proof Hs as (_ & _ & _ & Hy).
  unfold handshakestate_write_message, handshakestate_write.
  rewrite Ha, bool_decide_true by done. cbn [negb]. rewrite Hw.
  rewrite (mac_length_at _ _ _ _ _ Hy), Hkey. rewrite Hkey in Hy.
  rewrite !(proj2 (Nat.ltb_ge _ _)) by (cbn; lia). cbn [default].
  destruct (encrypt_at _ _ _ _ _ [] (max_size - length message) Hy) as (y & E & Hid & Hy');
    [rewrite Hn; unfold NONCE_OVERFLOW; lia|cbn; unfold NOISE_MAX_PAYLOAD_LEN; lia|cbn; lia|].
  rewrite E. eexists. unfold Encrypt at 1. rewrite Hkey. split; [done|]. split; [|done].
  eapply hs_at_symmetric; [done..|]. unfold Encrypted, Encrypt. cbn [t_ck t_h t_key t_n]. by rewrite Hkey.
Qed.

Lemma read_payload_at s role keys t message s0 :
  read_tokens (tokens s0) s0 message = (NOISE_ERROR_NONE, Encrypt t [], s) ->
  hs_action s0 = NOISE_ACTION_READ_MESSAGE -> hs_at s role keys t -> keyed_fresh t ->
  exists s', handshakestate_read_message s0 message 0 = (NOISE_ERROR_NONE, [], s') /\
    hs_at s' role keys (Encrypted t []) /\ tokens s' = tokens s /\ hs_action s' = hs_action s.
Proof.
  intros Hw Ha Hs [[k Hkey] Hn]. pose proof Hs as (_ & _ & _ & Hy).
  unfold handshakestate_read_message, handshakestate_read.
  rewrite Ha, bool_decide_true by done. cbn [negb]. rewrite Hw.
  unfold Encrypt at 1. rewrite Hkey. rewrite Hkey in Hy.
  destruct (decrypt_at _ _ _ _ _ [] Hy) as (y & E & Hid & Hy');
    [rewrite Hn; unfold NONCE_OVERFLOW; lia|cbn; unfold NOISE_MAX_PAYLOAD_LEN; lia|].
  rewrite E. cbn [length Nat.ltb Nat.leb]. eexists. split; [done|]. split; [|done].
  eapply hs_at_symmetric; [done..|]. unfold Encrypted, Encrypt. cbn [t_ck t_h t_key t_n]. by rewrite Hkey.
Qed.

Lemma length_encrypt t k p : t_key t = Some k -> length (Encrypt t p) = (length p + 16)%nat.
Proof. intros Hk. unfold Encrypt. rewrite Hk. apply seal_length. Qed.

Lemma write_mix_at s role keys t token i j d e room :
  hs_at s role keys t -> token_keys role token = Some (i, j) ->
  keys i = Some d -> keys j = Some e -> key_type d = NOISE_KEY_TYPE_KEYPAIR ->
  is32 (public_key e) -> public_key e <> zero32 ->
  exists s', write_token s token room = (NOISE_ERROR_NONE, [], s') /\
    hs_at s' role keys (MixKey t (curve25519_donna (private_key d) (public_key e))).
Proof.
  intros Hs Htok Hi Hj Hd Hl Hz. pose proof Hs as (Hr & _).
  destruct (mix_token_at s role keys t token i j d e) as (s' & E & Hs'); [done..|by apply nonzero_key|].
  exists s'. split; [|done]. erewrite write_mix by (by rewrite Hr). by rewrite E.
Qed.

Lemma read_mix_at s role keys t token i j d e msg :
  hs_at s role keys t -> token_keys role token = Some (i, j) ->
  keys i = Some d -> keys j = Some e -> key_type d = NOISE_KEY_TYPE_KEYPAIR ->
  is32 (public_key e) -> public_key e <> zero32 ->
  exists s', read_token s token msg = (NOISE_ERROR_NONE, msg, s') /\
    hs_at s' role keys (MixKey t (curve25519_donna (private_key d) (public_key e))).
Proof.
  intros Hs Htok Hi Hj Hd Hl Hz. pose proof Hs as (Hr & _).
  destruct (mix_token_at s role keys t token i j d e) as (s' & E & Hs'); [done..|by apply nonzero_key|].
  exists s'. split; [|done]. erewrite read_mix by (by rewrite Hr). by rewrite E.
Qed.

Definition second_tokens : list NoiseToken :=
  [NOISE_TOKEN_E; NOISE_TOKEN_EE; NOISE_TOKEN_SE; NOISE_TOKEN_END].

Lemma fresh_mix_key t x : keyed_fresh (MixKey t x).
Proof. split; [by eexists|done]. Qed.

(** A 32-byte key that is not null. *)
Definition usable (p : list byte) : Prop := is32 p /\ p <> zero32.

Section parties.
Context (ka kb ei er : list byte) (t : Transcript).
#[local] Notation pub := curved25519_scalarmult_basepoint (only parsing).
Context (Hka : usable (pub ka)) (Hkb : usable (pub kb)) (Hei : usable (pub ei)) (Her : usable (pub er)).

Lemma write_first s :
  started s NOISE_ROLE_INITIATOR (ik_keys NOISE_ROLE_INITIATOR ka (Some (pub kb)) ei) t ->
  let '(m, t') := ik_first t (pub ei) (pub ka) (curve25519_donna ei (pub kb))
                    (curve25519_donna ka (pub kb)) [] in
  exists s', handshakestate_write_message s 96 None = (NOISE_ERROR_NONE, m, s') /\
    hs_at s' NOISE_ROLE_INITIATOR
      (upd dh_local_ephemeral (Some (keypair ei))
        (ik_keys NOISE_ROLE_INITIATOR ka (Some (pub kb)) ei)) t' /\
    tokens s' = second_tokens /\ hs_action s' = NOISE_ACTION_READ_MESSAGE.
Proof.
  intros (Hs & Ht & Ha). unfold ik_first.
  destruct Hka as [HkaL HkaZ], Hkb as [HkbL HkbZ], Hei as [HeiL HeiZ]. unfold is32 in HeiL.
  destruct (write_e_at _ _ _ _ _ (keypair ei) 96 Hs eq_refl eq_refl ltac:(lia)) as (s1 & E1 & H1).
  destruct (write_mix_at (with_tokens (drop 1 ik_tokens) s1) _ _ _ NOISE_TOKEN_ES _ _ (keypair ei)
    (public_only (pub kb)) (96 - length (pub ei)) H1 eq_refl eq_refl eq_refl eq_refl HkbL HkbZ)
    as (s2 & E2 & H2).
  destruct (write_s_at (with_tokens (drop 2 ik_tokens) s2) _ _ _ (keypair ka)
    (96 - length (pub ei)) H2 eq_refl HkaL (fresh_mix_key _ _)) as (s3 & E3 & H3);
    [rewrite HeiL; cbn; lia|].
  destruct (write_mix_at (with_tokens (drop 3 ik_tokens) s3) _ _ _ NOISE_TOKEN_SS _ _ (keypair ka)
    (public_only (pub kb)) 16 H3 eq_refl eq_refl eq_refl eq_refl HkbL HkbZ) as (s4 & E4 & H4).
  cbn [private_key public_key keypair public_only] in *.
  set (t1 := MixKey (MixHash t (pub ei)) (curve25519_donna ei (pub kb))) in *.
  assert (length (Encrypt t1 (pub ka)) = 48%nat) as Hc
    by (erewrite length_encrypt by done; unfold is32 in HkaL; by rewrite HkaL).
  rewrite app_assoc. eapply (write_payload_at (with_action NOISE_ACTION_READ_MESSAGE
    (with_tokens second_tokens (with_tokens (drop 4 ik_tokens) s4)))).
  - rewrite Ht. unfold ik_tokens.
    rewrite (write_step NOISE_TOKEN_E _ _ [] 96 _ _ ltac:(done) ltac:(done) E1). cbn [app].
    rewrite (write_step NOISE_TOKEN_ES _ _ (pub ei) 96 _ _ ltac:(done) ltac:(done) E2), app_nil_r.
    rewrite (write_step NOISE_TOKEN_S _ _ (pub ei) 96 _ _ ltac:(done) ltac:(done) E3).
    rewrite (write_step NOISE_TOKEN_SS _ _ _ _ [] s4 ltac:(done) ltac:(done)); [by rewrite app_nil_r|].
    rewrite length_app, HeiL, Hc. exact E4.
  - done.
  - done.
  - apply fresh_mix_key.
  - rewrite length_app, HeiL, Hc. cbn. lia.
Qed.

(** What the responder knows after the first message. *)
Definition responder_keys : DhName -> option NoiseDHState :=
  upd dh_remote_static (Some (public_only (pub ka)))
    (upd dh_remote_ephemeral (Some (public_only (pub ei))) (ik_keys NOISE_ROLE_RESPONDER kb None er)).

Lemma read_first s :
  started s NOISE_ROLE_RESPONDER (ik_keys NOISE_ROLE_RESPONDER kb None er) t ->
  let '(m, t') := ik_first t (pub ei) (pub ka) (curve25519_donna kb (pub ei))
                    (curve25519_donna kb (pub ka)) [] in
  exists s', handshakestate_read_message s m 0 = (NOISE_ERROR_NONE, [], s') /\
    hs_at s' NOISE_ROLE_RESPONDER responder_keys t' /\
    tokens s' = second_tokens /\ hs_action s' = NOISE_ACTION_WRITE_MESSAGE.
Proof.
  intros (Hs & Ht & Ha). unfold ik_first.
  destruct Hka as [HkaL HkaZ], Hei as [HeiL HeiZ].
  set (t1 := MixKey (MixHash t (pub ei)) (curve25519_donna kb (pub ei))).
  set (t2 := MixKey (Encrypted t1 (pub ka)) (curve25519_donna kb (pub ka))).
  destruct (read_e_at _ _ _ _ _ (pub ei) (Encrypt t1 (pub ka) ++ Encrypt t2 []) Hs eq_refl HeiL HeiZ)
    as (s1 & E1 & H1).
  destruct (read_mix_at (with_tokens (drop 1 ik_tokens) s1) _ _ _ NOISE_TOKEN_ES _ _ (keypair kb)
    (public_only (pub ei)) (Encrypt t1 (pub ka) ++ Encrypt t2 [])
    H1 eq_refl eq_refl eq_refl eq_refl HeiL HeiZ) as (s2 & E2 & H2).
  destruct (read_s_at (with_tokens (drop 2 ik_tokens) s2) _ _ _ _ (pub ka) (Encrypt t2 [])
    H2 eq_refl HkaL (fresh_mix_key _ _)) as (s3 & E3 & H3).
  destruct (read_mix_at (with_tokens (drop 3 ik_tokens) s3) _ _ _ NOISE_TOKEN_SS _ _ (keypair kb)
    (public_only (pub ka)) (Encrypt t2 []) H3 eq_refl eq_refl eq_refl eq_refl HkaL HkaZ)
    as (s4 & E4 & H4).
  cbn [private_key public_key keypair public_only] in *. fold t1 in E3, H3, H4.
  eapply (read_payload_at (with_action NOISE_ACTION_WRITE_MESSAGE
    (with_tokens second_tokens (with_tokens (drop 4 ik_tokens) s4)))).
  - rewrite Ht. unfold ik_tokens.
    rewrite (read_step NOISE_TOKEN_E _ _ _ _ _ ltac:(done) ltac:(done) E1).
    rewrite (read_step NOISE_TOKEN_ES _ _ _ _ _ ltac:(done) ltac:(done) E2).
    rewrite (read_step NOISE_TOKEN_S _ _ _ _ _ ltac:(done) ltac:(done) E3).
    by rewrite (read_step NOISE_TOKEN_SS _ _ _ _ _ ltac:(done) ltac:(done) E4).
  - done.
  - done.
  - apply fresh_mix_key.
Qed.

Lemma write_second s :
  hs_at s NOISE_ROLE_RESPONDER responder_keys t -> tokens s = second_tokens ->
  hs_action s = NOISE_ACTION_WRITE_MESSAGE ->
  let '(m, t') := ik_second t (pub er) (curve25519_donna er (pub ei))
                    (curve25519_donna er (pub ka)) in
  exists s', handshakestate_write_message s 48 None = (NOISE_ERROR_NONE, m, s') /\
    hs_at s' NOISE_ROLE_RESPONDER (upd dh_local_ephemeral (Some (keypair er)) responder_keys) t' /\
    hs_action s' = NOISE_ACTION_SPLIT.
Proof.
  intros Hs Ht Ha. unfold ik_second.
  destruct Hka as [HkaL HkaZ], Hei as [HeiL HeiZ], Her as [HerL HerZ]. unfold is32 in HerL.
  destruct (write_e_at _ _ _ _ _ (keypair er) 48 Hs eq_refl eq_refl ltac:(lia)) as (s1 & E1 & H1).
  destruct (write_mix_at (with_tokens (drop 1 second_tokens) s1) _ _ _ NOISE_TOKEN_EE _ _ (keypair er)
    (public_only (pub ei)) (48 - length (pub er)) H1 eq_refl eq_refl eq_refl eq_refl HeiL HeiZ)
    as (s2 & E2 & H2).
  destruct (write_mix_at (with_tokens (drop 2 second_tokens) s2) _ _ _ NOISE_TOKEN_SE _ _ (keypair er)
    (public_only (pub ka)) (48 - length (pub er)) H2 eq_refl eq_refl eq_refl eq_refl HkaL HkaZ)
    as (s3 & E3 & H3).
  cbn [private_key public_key keypair public_only] in *.
  edestruct (write_payload_at (with_action NOISE_ACTION_SPLIT
    (with_tokens [NOISE_TOKEN_END] (with_tokens (drop 3 second_tokens) s3))) NOISE_ROLE_RESPONDER)
    as (s' & Hw & Hat & _ & Hact); [| |exact H3|apply fresh_mix_key| |by exists s'].
  - rewrite Ht. unfold second_tokens.
    rewrite (write_step NOISE_TOKEN_E _ _ [] 48 _ _ ltac:(done) ltac:(done) E1). cbn [app].
    rewrite (write_step NOISE_TOKEN_EE _ _ (pub er) 48 _ _ ltac:(done) ltac:(done) E2), app_nil_r.
    rewrite (write_step NOISE_TOKEN_SE _ _ (pub er) 48 _ _ ltac:(done) ltac:(done) E3), app_nil_r.
    done.
  - done.
  - rewrite HerL. cbn. lia.
Qed.

Lemma read_second s keys d :
  hs_at s NOISE_ROLE_INITIATOR keys t -> tokens s = second_tokens ->
  hs_action s = NOISE_ACTION_READ_MESSAGE -> keys dh_local_ephemeral = Some (keypair ei) ->
  keys dh_local_static = Some (keypair ka) -> keys dh_remote_ephemeral = Some d ->
  let '(m, t') := ik_second t (pub er) (curve25519_donna ei (pub er))
                    (curve25519_donna ka (pub er)) in
  exists s', handshakestate_read_message s m 0 = (NOISE_ERROR_NONE, [], s') /\
    hs_at s' NOISE_ROLE_INITIATOR
      (upd dh_remote_ephemeral (Some (public_only (pub er))) keys) t' /\
    hs_action s' = NOISE_ACTION_SPLIT.
Proof.
  intros Hs Ht Ha Hle Hls Hre. unfold ik_second. destruct Her as [HerL HerZ].
  set (t1 := MixKey (MixKey (MixHash t (pub er)) (curve25519_donna ei (pub er)))
    (curve25519_donna ka (pub er))).
  destruct (read_e_at _ _ _ _ _ (pub er) (Encrypt t1 []) Hs Hre HerL HerZ) as (s1 & E1 & H1).
  destruct (read_mix_at (with_tokens (drop 1 second_tokens) s1) _ _ _ NOISE_TOKEN_EE _ _ (keypair ei)
    (public_only (pub er)) (Encrypt t1 []) H1 eq_refl Hle eq_refl eq_refl HerL HerZ)
    as (s2 & E2 & H2).
  destruct (read_mix_at (with_tokens (drop 2 second_tokens) s2) _ _ _ NOISE_TOKEN_SE _ _ (keypair ka)
    (public_only (pub er)) (Encrypt t1 []) H2 eq_refl Hls eq_refl eq_refl HerL HerZ)
    as (s3 & E3 & H3).
  cbn [private_key public_key keypair public_only] in *.
  edestruct (read_payload_at (with_action NOISE_ACTION_SPLIT
    (with_tokens [NOISE_TOKEN_END] (with_tokens (drop 3 second_tokens) s3))) NOISE_ROLE_INITIATOR)
    as (s' & Hw & Hat & _ & Hact); [| |exact H3|apply fresh_mix_key|by exists s'].
  - rewrite Ht. unfold second_tokens.
    rewrite (read_step NOISE_TOKEN_E _ _ _ _ _ ltac:(done) ltac:(done) E1).
    rewrite (read_step NOISE_TOKEN_EE _ _ _ _ _ ltac:(done) ltac:(done) E2).
    by rewrite (read_step NOISE_TOKEN_SE _ _ _ _ _ ltac:(done) ltac:(done) E3).
  - done.
Qed.
End parties.
End ik.

Lemma ik_first_length t e s es ss p :
  length (ik_first t e s es ss p).1 = (length e + (length s + 16) + (length p + 16))%nat.
Proof.
  cbn -[Encrypt MixKey]. rewrite !length_app. erewrite !length_encrypt by reflexivity. lia.
Qed.

Lemma ik_second_length t e ee se : length (ik_second t e ee se).1 = (length e + 16)%nat.
Proof. cbn -[Encrypt MixKey]. rewrite !length_app. erewrite !length_encrypt by reflexivity. done. Qed.

(** ** The library keeps the contract of the wrapper *)

Section laws.
Context `{Curve25519, !Curve25519Laws}.
#[local] Notation pub := curved25519_scalarmult_basepoint (only parsing).

Lemma usable_public k : is32 k -> usable (pub k).
Proof. intros Hk. split; [by apply basepoint_length|by apply basepoint_nonzero]. Qed.

Lemma hs_at_authenticates s role keys t action key :
  hs_at s role keys t -> hs_action s = action ->
  keys dh_remote_static = Some (public_only key) -> authenticates s role action key.
Proof.
  intros (Hr & Hk & _) Ha Hrs. unfold authenticates. cbn. unfold handshakestate_dh. cbn.
  by rewrite Hk, Hrs.
Qed.

Lemma hs_at_splits s role keys t :
  hs_at s role keys t -> hs_action s = NOISE_ACTION_SPLIT ->
  let '(k1, k2) := hkdf (t_ck t) [] in
  match role with
  | NOISE_ROLE_INITIATOR => splits_into s (t_h t) k1 k2
  | NOISE_ROLE_RESPONDER => splits_into s (t_h t) k2 k1
  end.
Proof.
  intros (Hr & _ & _ & Hy) Ha. destruct (split_at _ _ _ _ _ Hy) as (c1 & c2 & y & E & H1 & H2).
  pose proof (length_hkdf_1 (t_ck t) []) as L1. pose proof (length_hkdf_2 (t_ck t) []) as L2.
  destruct (hkdf (t_ck t) []) as [k1 k2]. cbn [fst snd] in *.
  assert (handshakestate_get_handshake_hash s NOISE_IK_HASH_SIZE = (NOISE_ERROR_NONE, t_h t)) as Hh.
  { unfold handshakestate_get_handshake_hash. rewrite Ha. cbn [bool_decide negb andb].
    rewrite bool_decide_true by done. cbn [negb andb].
    destruct Hy as (_ & -> & _). cbn. by rewrite app_nil_r. }
  assert (exists d, sym_cipher (symmetric s) = Some d) as [d Hd] by (destruct Hy as (_ & _ & d & ? & _); eauto).
  pose proof (export_at _ _ _ L1 H1) as X1. pose proof (export_at _ _ _ L2 H2) as X2.
  destruct role; (split; [exact Hh|]); [exists c1, c2|exists c2, c1];
    (split; [|done]); cbn [noise_handshakestate_split noise_c]; unfold handshakestate_split;
    rewrite Ha, Hd, E, bool_decide_true by done; change (is_none NOISE_ERROR_NONE) with true; cbn; by rewrite Hr.
Qed.

(** Between two parties that know each other's keys, the vendored library runs the IK pattern. *)
Lemma noise_c_pattern ka kb prologue ei er :
  is32 ka -> is32 kb -> is32 ei -> is32 er ->
  let '(m1, t1) := ik_first (ik_transcript prologue (pub kb)) (pub ei) (pub ka)
    (curve25519_donna ei (pub kb)) (curve25519_donna ka (pub kb)) [] in
  let '(m2, t2) := ik_second t1 (pub er) (curve25519_donna ei (pub er))
    (curve25519_donna ka (pub er)) in
  let '(k1, k2) := hkdf (t_ck t2) [] in
  exists si sr si1 sr1 sr2 si2,
    ik_start NOISE_ROLE_INITIATOR ka (Some (pub kb)) prologue ei = Some si /\
    ik_start NOISE_ROLE_RESPONDER kb None prologue er = Some sr /\
    noise_handshakestate_write_message si 96 None = (NOISE_ERROR_NONE, m1, si1) /\
    noise_handshakestate_read_message sr m1 0 = (NOISE_ERROR_NONE, [], sr1) /\
    authenticates sr1 NOISE_ROLE_RESPONDER NOISE_ACTION_WRITE_MESSAGE (pub ka) /\
    noise_handshakestate_write_message sr1 48 None = (NOISE_ERROR_NONE, m2, sr2) /\
    authenticates sr2 NOISE_ROLE_RESPONDER NOISE_ACTION_SPLIT (pub ka) /\
    splits_into sr2 (t_h t2) k2 k1 /\
    noise_handshakestate_read_message si1 m2 0 = (NOISE_ERROR_NONE, [], si2) /\
    authenticates si2 NOISE_ROLE_INITIATOR NOISE_ACTION_SPLIT (pub kb) /\
    splits_into si2 (t_h t2) k1 k2.
Proof.
  intros Ha Hb Hi Hr.
  pose proof (usable_public _ Ha) as Ua. pose proof (usable_public _ Hb) as Ub.
  pose proof (usable_public _ Hi) as Ui. pose proof (usable_public _ Hr) as Ur.
  destruct (ik_start_at NOISE_ROLE_INITIATOR ka (Some (pub kb)) prologue ei Ha Hi) as (si & Ei & Si);
    [done|by intros ? [= <-]; apply Ub|].
  destruct (ik_start_at NOISE_ROLE_RESPONDER kb None prologue er Hb Hr) as (sr & Er & Sr);
    [by split; [|intros []]|done|]. cbn [default] in Si, Sr.
  pose proof (write_first ka kb ei _ Ua Ub Ui _ Si) as W1.
  pose proof (read_first ka kb ei er _ Ua Ui _ Sr) as R1.
  rewrite (donna_agree kb ei), (donna_agree kb ka) in R1 by done.
  destruct (ik_first _ _ _ _ _ _) as [m1 t1].
  destruct W1 as (si1 & Ew1 & Hsi1 & Ti & Ai). destruct R1 as (sr1 & Er1 & Hsr1 & Tr & Ar).
  pose proof (write_second ka kb ei er _ Ua Ui Ur _ Hsr1 Tr Ar) as W2.
  pose proof (read_second ka ei er _ Ur _ _ _ Hsi1 Ti Ai eq_refl eq_refl eq_refl) as R2.
  rewrite (donna_agree er ei), (donna_agree er ka) in W2 by done.
  destruct (ik_second _ _ _ _) as [m2 t2].
  destruct W2 as (sr2 & Ew2 & Hsr2 & As). destruct R2 as (si2 & Er2 & Hsi2 & Asi).
  pose proof (hs_at_splits _ _ _ _ Hsr2 As) as Kr. pose proof (hs_at_splits _ _ _ _ Hsi2 Asi) as Ki.
  destruct (hkdf (t_ck t2) []) as [k1 k2].
  pose proof (hs_at_authenticates _ _ _ _ _ (pub ka) Hsr1 Ar eq_refl) as A1.
  pose proof (hs_at_authenticates _ _ _ _ _ (pub ka) Hsr2 As eq_refl) as A2.
  pose proof (hs_at_authenticates _ _ _ _ _ (pub kb) Hsi2 Asi eq_refl) as A3.
  exists si, sr, si1, sr1, sr2, si2. exact (conj Ei (conj Er (conj Ew1 (conj Er1 (conj A1
    (conj Ew2 (conj A2 (conj Kr (conj Er2 (conj A3 Ki)))))))))).
Qed.

(** The contract on which the wrapper's theorems rest. *)
#[export] Program Instance noise_c_laws : NoiseLaws := {| dh_public := pub |}.
Next Obligation. intros k Hk. by apply usable_public. Qed.
Next Obligation.
  intros role k remote prologue e Hk He Hrole Hrem.
  destruct (ik_start_at role k remote prologue e) as (s & -> & _); [done..| |by eexists].
  intros key Hkey. by apply Hrem.
Qed.
Next Obligation.
  intros ka kb prologue ei er si sr Ha Hb Hi Hr.
  pose proof (ik_start_ephemeral _ _ _ _ _ _ Hi) as Hei.
  pose proof (ik_start_ephemeral _ _ _ _ _ _ Hr) as Her.
  pose proof (noise_c_pattern ka kb prologue ei er Ha Hb Hei Her) as Hp.
  pose proof (ik_first_length (ik_transcript prologue (pub kb)) (pub ei) (pub ka)
    (curve25519_donna ei (pub kb)) (curve25519_donna ka (pub kb)) []) as L1.
  destruct (ik_first _ _ _ _ _ _) as [m1 t1].
  pose proof (ik_second_length t1 (pub er) (curve25519_donna ei (pub er))
    (curve25519_donna ka (pub er))) as L2.
  destruct (ik_second _ _ _ _) as [m2 t2]. destruct (hkdf (t_ck t2) []) as [k1 k2].
  destruct Hp as (si' & sr' & si1 & sr1 & sr2 & si2 & Ei & Er & Hp).
  rewrite Hi in Ei. rewrite Hr in Er. injection Ei as <-. injection Er as <-.
  cbn [fst] in L1, L2.
  rewrite (proj1 (usable_public _ Hei)), (proj1 (usable_public _ Ha)) in L1.
  rewrite (proj1 (usable_public _ Her)) in L2.
  exists m1, si1, sr1, m2, sr2, si2, (t_h t2), k1, k2. tauto.
Qed.
End laws.

(** ** Accepted messages are messages of the pattern *)

Section accepted.
Context `{Curve25519}.

(** The secret of a Diffie-Hellman token; a null key gives a null secret. *)
Definition shared_secret (k p : list byte) : list byte :=
  if noise_is_zero p then zeros 32 else curve25519_donna k p.

Lemma read_step_inv token toks s msg rest s' :
  token <> NOISE_TOKEN_END -> token <> NOISE_TOKEN_FLIP_DIR ->
  read_tokens (token :: toks) s msg = (NOISE_ERROR_NONE, rest, s') ->
  exists msg1 s1, read_token s token msg = (NOISE_ERROR_NONE, msg1, s1) /\
    read_tokens toks (with_tokens toks s1) msg1 = (NOISE_ERROR_NONE, rest, s').
Proof.
  intros H1 H2 Hr. cbn in Hr.
  destruct (read_token s token msg) as [[[] msg1] s1] eqn:E; destruct token; try done;
    by exists msg1, s1.
Qed.

Lemma read_e_inv s role keys t d msg rest s' :
  hs_at s role keys t -> keys dh_remote_ephemeral = Some d ->
  read_token s NOISE_TOKEN_E msg = (NOISE_ERROR_NONE, rest, s') ->
  exists key, msg = key ++ rest /\ usable key /\
    hs_at s' role (upd dh_remote_ephemeral (Some (public_only key)) keys) (MixHash t key).
Proof.
  intros Hs Hk Hr. pose proof Hs as (_ & Hd & _).
  assert (32 <= length msg)%nat as Hlen.
  { unfold read_token in Hr. rewrite Hd, Hk in Hr. destruct (Nat.ltb_spec (length msg) 32); [done|lia]. }
  assert (exists key r, msg = key ++ r /\ is32 key) as (key & r & -> & Hkey).
  { exists (take 32 msg), (drop 32 msg). rewrite take_drop. split; [done|].
    unfold is32. rewrite length_take. lia. }
  destruct (decide (key = zero32)) as [Hz|Hz].
  - exfalso. unfold read_token in Hr. rewrite Hd, Hk, (take_app_length' key), (drop_app_length' key) in Hr by done.
    destruct (Nat.ltb _ _); [done|]. destruct (noise_symmetricstate_mix_hash _ _) as [[] y]; try done.
    unfold dhstate_set_public_key in Hr. unfold is32 in Hkey. rewrite Hkey in Hr. cbn [Nat.eqb negb] in Hr.
    assert (noise_dhstate_is_null_public_key (mkDh NOISE_KEY_TYPE_PUBLIC (zeros 32) key) = true) as Hn
      by (rewrite Hz; reflexivity).
    by rewrite Hn in Hr.
  - destruct (read_e_at s role keys t d key r Hs Hk Hkey Hz) as (s1 & E & H1).
    rewrite E in Hr. injection Hr as <- <-. by exists key.
Qed.

Lemma mix_token_shared s role keys t token i j d e :
  hs_at s role keys t -> token_keys role token = Some (i, j) ->
  keys i = Some d -> keys j = Some e -> key_type d = NOISE_KEY_TYPE_KEYPAIR ->
  exists s', mix_token s token = (NOISE_ERROR_NONE, s') /\
    hs_at s' role keys (MixKey t (shared_secret (private_key d) (public_key e))).
Proof.
  intros Hs Htok Hi Hj Hd. pose proof Hs as (Hr & Hk & Hp & Hy).
  unfold mix_token, noise_handshake_mix_dh. rewrite Hr, Htok, !Hk, Hi, Hj.
  unfold noise_dhstate_calculate. rewrite Hd, bool_decide_true by done. cbn [negb].
  change (if noise_is_zero (public_key e) then zeros 32 else _)
    with (shared_secret (private_key d) (public_key e)).
  destruct (mix_key_at _ _ _ _ _ (shared_secret (private_key d) (public_key e)) Hy)
    as (y & E & Hid & Hy'). rewrite E. eexists. split; [done|]. by eapply hs_at_symmetric.
Qed.

Lemma read_mix_inv s role keys t token i j d e msg rest s' :
  hs_at s role keys t -> token_keys role token = Some (i, j) ->
  keys i = Some d -> keys j = Some e -> key_type d = NOISE_KEY_TYPE_KEYPAIR ->
  read_token s token msg = (NOISE_ERROR_NONE, rest, s') ->
  rest = msg /\ hs_at s' role keys (MixKey t (shared_secret (private_key d) (public_key e))).
Proof.
  intros Hs Htok Hi Hj Hd Hr. pose proof Hs as (Hrole & _).
  destruct (mix_token_shared s role keys t token i j d e) as (s1 & E & H1); [done..|].
  erewrite read_mix in Hr by (by rewrite Hrole). rewrite E in Hr. by injection Hr as <- <-.
Qed.

Lemma read_s_inv s role keys t d msg rest s' :
  hs_at s role keys t -> keys dh_remote_static = Some d -> keyed_fresh t ->
  read_token s NOISE_TOKEN_S msg = (NOISE_ERROR_NONE, rest, s') ->
  exists key, msg = Encrypt t key ++ rest /\ is32 key /\
    hs_at s' role (upd dh_remote_static (Some (public_only key)) keys) (Encrypted t key).
Proof.
  intros Hs Hk [[k Hkey] Hn] Hr. pose proof Hs as (_ & Hd & _ & Hy).
  unfold read_token in Hr. rewrite Hd, Hk in Hr.
  unfold read_encrypted_key in Hr. rewrite (mac_length_at _ _ _ _ _ Hy), Hkey in Hr.
  rewrite Hkey in Hy. destruct (Nat.ltb _ _); [done|].
  destruct (noise_symmetricstate_decrypt_and_hash _ _) as [[[] key] y] eqn:E; try done.
  apply (decrypt_accepts _ _ _ _ _ _ _ _ Hy) in E as (Hc & Hid & Hy');
    [|rewrite Hn; unfold NONCE_OVERFLOW; lia].
  unfold dhstate_set_public_key in Hr.
  destruct (Nat.eqb_spec (length key) 32) as [Hlen|]; [|done]. cbn [negb] in Hr.
  injection Hr as <- <-. exists key. unfold Encrypt at 1. rewrite Hkey, <- Hc, take_drop.
  split; [done|]. split; [done|]. apply hs_at_dh. eapply hs_at_symmetric; [done..|].
  unfold Encrypted, Encrypt. cbn [t_ck t_h t_key t_n]. by rewrite Hkey.
Qed.

Lemma read_payload_inv s0 msg cap p s' :
  handshakestate_read_message s0 msg cap = (NOISE_ERROR_NONE, p, s') ->
  exists rest s, read_tokens (tokens s0) s0 msg = (NOISE_ERROR_NONE, rest, s) /\
    (forall role keys t, hs_at s role keys t -> keyed_fresh t ->
      rest = Encrypt t p /\ hs_at s' role keys (Encrypted t p)) /\
    hs_action s' = hs_action s.
Proof.
  unfold handshakestate_read_message, handshakestate_read. intros Hr.
  destruct (negb _); [done|].
  destruct (read_tokens _ _ _) as [[[] rest] s] eqn:E; try done. exists rest, s.
  destruct (noise_symmetricstate_decrypt_and_hash _ _) as [[[] p1] y] eqn:Ed; try done.
  destruct (Nat.ltb _ _); [done|]. injection Hr as <- <-. split; [done|]. split; [|done].
  intros role keys t Hs [[k Hkey] Hn]. pose proof Hs as (_ & _ & _ & Hy). rewrite Hkey in Hy.
  apply (decrypt_accepts _ _ _ _ _ _ _ _ Hy) in Ed as (Hc & Hid & Hy');
    [|rewrite Hn; unfold NONCE_OVERFLOW; lia].
  unfold Encrypt. rewrite Hkey. split; [done|]. eapply hs_at_symmetric; [done..|].
  unfold Encrypted, Encrypt. cbn [t_ck t_h t_key t_n]. by rewrite Hkey.
Qed.

Lemma first_message_inv s kb er t msg cap p s' :
  started s NOISE_ROLE_RESPONDER (ik_keys NOISE_ROLE_RESPONDER kb None er) t ->
  handshakestate_read_message s msg cap = (NOISE_ERROR_NONE, p, s') ->
  exists e sp, usable e /\ is32 sp /\
    msg = (ik_first t e sp (shared_secret kb e) (shared_secret kb sp) p).1 /\
    authenticates s' NOISE_ROLE_RESPONDER NOISE_ACTION_WRITE_MESSAGE sp.
Proof.
  intros (Hs & Ht & Ha) Hr. apply read_payload_inv in Hr as (rest & s5 & Hr & Hpay & Hact).
  rewrite Ht in Hr. unfold ik_tokens in Hr.
  apply read_step_inv in Hr as (m1 & s1 & E1 & Hr); [|done..].
  destruct (read_e_inv _ _ _ _ _ _ _ _ Hs eq_refl E1) as (e & -> & He & H1).
  apply read_step_inv in Hr as (m2 & s2 & E2 & Hr); [|done..].
  destruct (read_mix_inv _ _ _ _ NOISE_TOKEN_ES _ _ _ _ _ _ _ (hs_at_tokens _ _ _ _ _ H1) eq_refl eq_refl eq_refl eq_refl E2)
    as [-> H2].
  apply read_step_inv in Hr as (m3 & s3 & E3 & Hr); [|done..].
  destruct (read_s_inv _ _ _ _ _ _ _ _ (hs_at_tokens _ _ _ _ _ H2) eq_refl (fresh_mix_key _ _) E3) as (sp & -> & Hsp & H3).
  apply read_step_inv in Hr as (m4 & s4 & E4 & Hr); [|done..].
  destruct (read_mix_inv _ _ _ _ NOISE_TOKEN_SS _ _ _ _ _ _ _ (hs_at_tokens _ _ _ _ _ H3) eq_refl eq_refl eq_refl eq_refl E4)
    as [-> H4].
  cbn in Hr. injection Hr as -> <-.
  destruct (Hpay _ _ _ (hs_at_action _ _ _ _ _ (hs_at_tokens _ _ _ _ _ (hs_at_tokens _ _ _ _ _ H4))) (fresh_mix_key _ _)) as [-> H5].
  exists e, sp. split; [done|]. split; [done|]. split; [done|].
  by eapply hs_at_authenticates; [exact H5|rewrite Hact|].
Qed.
End accepted.

(** C3: Between two parties with 32-byte keys, the vendored Noise-C runs the IK pattern of the
    Noise specification: the two messages are, byte for byte, the tokens [e, es, s, ss] and
    [e, ee, se] over the running hash and chaining key, each side reads what the other wrote,
    each ends with the other's static key, and both split the final chaining key into the same
    two transport keys with the directions exchanged. *)
Theorem noise_c_runs_ik `{Curve25519, !Curve25519Laws} ka kb prologue ei er :
  is32 ka -> is32 kb -> is32 ei -> is32 er ->
  let pub := curved25519_scalarmult_basepoint in
  let '(m1, t1) := ik_first (ik_transcript prologue (pub kb)) (pub ei) (pub ka)
    (curve25519_donna ei (pub kb)) (curve25519_donna ka (pub kb)) [] in
  let '(m2, t2) := ik_second t1 (pub er) (curve25519_donna ei (pub er))
    (curve25519_donna ka (pub er)) in
  let '(k1, k2) := hkdf (t_ck t2) [] in
  exists si sr si1 sr1 sr2 si2,
    ik_start NOISE_ROLE_INITIATOR ka (Some (pub kb)) prologue ei = Some si /\
    ik_start NOISE_ROLE_RESPONDER kb None prologue er = Some sr /\
    handshakestate_write_message si 96 None = (NOISE_ERROR_NONE, m1, si1) /\
    handshakestate_read_message sr m1 0 = (NOISE_ERROR_NONE, [], sr1) /\
    authenticates sr1 NOISE_ROLE_RESPONDER NOISE_ACTION_WRITE_MESSAGE (pub ka) /\
    handshakestate_write_message sr1 48 None = (NOISE_ERROR_NONE, m2, sr2) /\
    authenticates sr2 NOISE_ROLE_RESPONDER NOISE_ACTION_SPLIT (pub ka) /\
    splits_into sr2 (t_h t2) k2 k1 /\
    handshakestate_read_message si1 m2 0 = (NOISE_ERROR_NONE, [], si2) /\
    authenticates si2 NOISE_ROLE_INITIATOR NOISE_ACTION_SPLIT (pub kb) /\
    splits_into si2 (t_h t2) k1 k2.
Proof. apply noise_c_pattern. Qed.

(** C7: A responder of the vendored Noise-C accepts nothing but IK messages: when it reads a
    first message with success, the message is the one the pattern prescribes for an ephemeral
    key that is not null, a static key and a payload - tag for tag under the keys derived from
    its own static key - and that static key is the one it reports as authenticated. *)
Theorem noise_c_accepts_only_ik `{Curve25519} kb er prologue sr msg cap p sr1 :
  is32 kb -> ik_start NOISE_ROLE_RESPONDER kb None prologue er = Some sr ->
  handshakestate_read_message sr msg cap = (NOISE_ERROR_NONE, p, sr1) ->
  exists e sp, usable e /\ is32 sp /\
    msg = (ik_first (ik_transcript prologue (curved25519_scalarmult_basepoint kb)) e sp
             (shared_secret kb e) (shared_secret kb sp) p).1 /\
    authenticates sr1 NOISE_ROLE_RESPONDER NOISE_ACTION_WRITE_MESSAGE sp.
Proof.
  intros Hkb Hs. pose proof (ik_start_ephemeral _ _ _ _ _ _ Hs) as Her.
  destruct (ik_start_at NOISE_ROLE_RESPONDER kb None prologue er Hkb Her) as (s & E & St);
    [by split; [|intros []]|done|].
  rewrite Hs in E. injection E as <-. by apply first_message_inv with er.
Qed.

(** ** A concrete curve, for witnesses

    Public keys are private keys with a fixed first byte, secrets are differences. *)

#[local] Instance toy_curve : Curve25519 := {|
  curved25519_scalarmult_basepoint k := x01 :: drop 1 k;
  curve25519_donna k p := xor_bytes (x01 :: drop 1 k) p;
  noise_rand_bytes h := h;
|}.

#[local] Program Instance toy_curve_laws : Curve25519Laws.
Next Obligation.
  intros k Hk. unfold is32 in *. cbn. by rewrite length_drop, Hk.
Qed.
Next Obligation. done. Qed.
Next Obligation.
  intros a b _ _. cbn [curve25519_donna toy_curve curved25519_scalarmult_basepoint].
  unfold xor_bytes. rewrite <- zip_with_flip. apply zip_with_ext; [|done..].
  intros x y. apply bxor_comm.
Qed.

Lemma noise_c_runs_ik_witness :
  exists si sr,
    ik_start NOISE_ROLE_INITIATOR (replicate 32 x02) (Some (x01 :: replicate 31 x03)) [x07]
      (replicate 32 x04) = Some si /\
    ik_start NOISE_ROLE_RESPONDER (replicate 32 x03) None [x07] (replicate 32 x05) = Some sr.
Proof.
  pose proof (@noise_c_runs_ik toy_curve toy_curve_laws (replicate 32 x02) (replicate 32 x03) [x07]
    (replicate 32 x04) (replicate 32 x05) eq_refl eq_refl eq_refl eq_refl) as Hik.
  cbv zeta in Hik. destruct (ik_first _ _ _ _ _ _) as [m1 t1].
  destruct (ik_second _ _ _ _) as [m2 t2]. destruct (hkdf (t_ck t2) []) as [k1 k2].
  destruct Hik as (si & sr & _ & _ & _ & _ & Hi & Hr & _). exists si, sr. split; [exact Hi|exact Hr].
Defined.

(** The first message of that initiator, read by that responder. *)
Definition toy_first_message : list byte :=
  match ik_start NOISE_ROLE_INITIATOR (replicate 32 x02) (Some (x01 :: replicate 31 x03)) [x07]
          (replicate 32 x04) with
  | Some si => (handshakestate_write_message si 96 None).1.2
  | None => []
  end.

Lemma toy_read_accepts :
  match ik_start NOISE_ROLE_RESPONDER (replicate 32 x03) None [x07] (replicate 32 x05) with
  | Some sr => (handshakestate_read_message sr toy_first_message 0).1 = (NOISE_ERROR_NONE, [])
  | None => False
  end.
Proof. vm_compute. reflexivity. Qed.

Lemma noise_c_accepts_only_ik_witness :
  exists e sp, usable e /\ is32 sp /\
    toy_first_message = (ik_first
      (ik_transcript [x07] (curved25519_scalarmult_basepoint (replicate 32 x03))) e sp
      (shared_secret (replicate 32 x03) e) (shared_secret (replicate 32 x03) sp) []).1.
Proof.
  pose proof toy_read_accepts as Hok.
  destruct (ik_start NOISE_ROLE_RESPONDER (replicate 32 x03) None [x07] (replicate 32 x05))
    as [sr|] eqn:Hs; [|destruct Hok].
  revert Hok. generalize toy_first_message as msg. intros msg Hok.
  destruct (handshakestate_read_message sr msg 0) as [r sr1] eqn:Hr.
  cbn [fst] in Hok. subst r.
  destruct (noise_c_accepts_only_ik (replicate 32 x03) (replicate 32 x05) [x07] sr msg
    0 [] sr1 eq_refl Hs Hr) as (e & sp & He & Hsp & Hm & _).
  exists e, sp. exact (conj He (conj Hsp Hm)).
Defined.
