(* ===== verification/Session.v ===== *)
(** * Sessions ([src/session/session.cpp])

    [SessionManager]: the maps of active, retired and pending sessions, the
    handshake handlers, and the encryption and decryption of session messages.
    Every [std::lock_guard] region is one operation here; the handlers that
    take the lock several times are composed of several.  A clock read is an
    argument, one per call of [clock_.now()]; time points are nanoseconds. *)

From stdpp Require Import base numbers list gmap option.
From Stdlib Require Import ZArith Lia Bool.
From Stdlib.Strings Require Import Byte.
From S2P Require Import Prelude Wire Packet Replay Crypto Identity HandshakeV2 NoiseIk.

Record SessionSnapshot := mkSnapshot {
  snap_id : Z; snap_peer_id : NodeId; snap_established : bool;
  snap_initiated_locally : bool; snap_established_at : Z }.

Record SessionCapacityLimits := mkLimits {
  cap_active : nat; cap_retired : nat; cap_pending : nat }.

Definition SESSION_MAX_ACTIVE : nat := 256.
Definition SESSION_MAX_RETIRED : nat := 256.
Definition SESSION_MAX_PENDING : nat := 256.
Definition default_limits : SessionCapacityLimits :=
  mkLimits SESSION_MAX_ACTIVE SESSION_MAX_RETIRED SESSION_MAX_PENDING.

Record SessionState := mkSession {
  ss_id : Z;
  send_key : Key;
  recv_key : Key;
  send_seq : Z;
  replay : ReplayState;
  ss_peer_id : NodeId;
  established : bool;
  initiated_locally : bool;
  established_at : Z;
}.

(** [SessionState{}]. *)
Definition new_session_state : SessionState :=
  mkSession 0 zero32 zero32 0 replay_init zero32 false false 0.

Record RetiredSession := mkRetired { ret_session : SessionState; ret_expires : Z }.

(** The members a manager never assigns after construction. *)
Record SessionEnv := mkEnv {
  identity : Identity;
  capacity : SessionCapacityLimits;
  padding_bucket_size : Z;
}.

Record HandshakeResponse := mkResponse {
  response_message : list byte;
  response_peer_id : NodeId;
  response_peer_static : Key;
}.

Record DecryptedMessage := mkDecrypted { dm_packet_type : Z; dm_payload : list byte }.

(** [__builtin_bswap32]; the host is little-endian, so [memcpy] of a 32-bit
    integer stores [le_split 4]. *)
Definition bswap32 (x : Z) : Z := be_combine (le_split 4 x).

Definition message_nonce (session_id seq : Z) : list byte :=
  let sid_be := bswap32 session_id in
  let seq_hi := wrap 32 (Z.shiftr seq 32) in
  let seq_lo := wrap 32 seq in
  le_split 4 sid_be ++ le_split 4 seq_hi ++ le_split 4 seq_lo.

Definition all_zero (bs : list byte) : bool := forallb (λ b, bval b =? 0) bs.

Section session.
Context `{OpenSSL, RandomSource, NoiseC}.

Record PendingInitiator := mkPending {
  expected_peer_id : NodeId;
  expected_peer_static : Key;
  handshake : option NoiseIkHandshake;
  pend_expires : Z;
}.

Record SessionManager := mkManager {
  sessions : gmap NodeId SessionState;
  session_to_peer : gmap Z NodeId;
  retired : gmap Z RetiredSession;
  pending_initiators : gmap Z PendingInitiator;
  handshake_replays : gmap (list byte) Z;
  retired_grace : Z;
  handshake_timeout : Z;
  handshake_replay_ttl : Z;
}.

(** The constructor: empty maps, 10 s of grace, 15 s for a handshake, two
    minutes of replay cache. *)
Definition manager_init : SessionManager :=
  mkManager ∅ ∅ ∅ ∅ ∅ 10000 15000 120000.

(** Assignment to one member. *)
Definition set_sessions f (m : SessionManager) := mkManager (f (sessions m))
  (session_to_peer m) (retired m) (pending_initiators m) (handshake_replays m)
  (retired_grace m) (handshake_timeout m) (handshake_replay_ttl m).
Definition set_index f (m : SessionManager) := mkManager (sessions m)
  (f (session_to_peer m)) (retired m) (pending_initiators m) (handshake_replays m)
  (retired_grace m) (handshake_timeout m) (handshake_replay_ttl m).
Definition set_retired f (m : SessionManager) := mkManager (sessions m)
  (session_to_peer m) (f (retired m)) (pending_initiators m) (handshake_replays m)
  (retired_grace m) (handshake_timeout m) (handshake_replay_ttl m).
Definition set_pending f (m : SessionManager) := mkManager (sessions m)
  (session_to_peer m) (retired m) (f (pending_initiators m)) (handshake_replays m)
  (retired_grace m) (handshake_timeout m) (handshake_replay_ttl m).
Definition set_replays f (m : SessionManager) := mkManager (sessions m)
  (session_to_peer m) (retired m) (pending_initiators m) (f (handshake_replays m))
  (retired_grace m) (handshake_timeout m) (handshake_replay_ttl m).
Definition set_times grace timeout ttl (m : SessionManager) := mkManager (sessions m)
  (session_to_peer m) (retired m) (pending_initiators m) (handshake_replays m)
  grace timeout ttl.

(** ** Maintenance *)

Definition purge_retired_locked (now : Z) (m : SessionManager) : SessionManager :=
  set_retired (filter (λ '(_, r), ~ ret_expires r <= now)) m.

Definition purge_retired := purge_retired_locked.

Definition purge_incomplete_handshakes_locked (now : Z) (m : SessionManager)
    : SessionManager :=
  set_pending (filter (λ '(_, p), ~ pend_expires p <= now)) m.

Definition purge_incomplete_handshakes := purge_incomplete_handshakes_locked.

Definition purge_handshake_replays_locked (now : Z) (m : SessionManager)
    : SessionManager :=
  set_replays (filter (λ '(_, expires), ~ expires <= now)) m.

Definition purge_handshake_replays := purge_handshake_replays_locked.

Definition set_retired_grace (grace : Z) (m : SessionManager) : SessionManager :=
  set_times grace (handshake_timeout m) (handshake_replay_ttl m) m.

Definition set_handshake_timeout (timeout now : Z) (m : SessionManager)
    : SessionManager :=
  purge_incomplete_handshakes_locked now
    (set_times (retired_grace m) (Z.max timeout 0) (handshake_replay_ttl m) m).

Definition set_handshake_replay_ttl (ttl now : Z) (m : SessionManager)
    : SessionManager :=
  purge_handshake_replays_locked now
    (set_times (retired_grace m) (handshake_timeout m) (Z.max ttl 0) m).

(** ** Session table *)

(** The comparison of [retire_session_locked]. *)
Definition retired_before (left right : Z * RetiredSession) : bool :=
  if negb (ret_expires (snd left) =? ret_expires (snd right))
  then ret_expires (snd left) <? ret_expires (snd right)
  else fst left <? fst right.

Definition retire_session_locked (env : SessionEnv) (session : SessionState) (now : Z)
    (m : SessionManager) : SessionManager :=
  let m := purge_retired_locked now m in
  if Nat.eqb (cap_retired (capacity env)) 0 then m else
  let m :=
    if negb (contains (retired m) (ss_id session)) &&
       Nat.leb (cap_retired (capacity env)) (size (retired m)) then
      match min_element retired_before (map_to_list (retired m)) with
      | Some victim => set_retired (delete (fst victim)) m
      | None => m
      end
    else m in
  set_retired (insert (ss_id session) (mkRetired session (now + ms (retired_grace m)))) m.

(** The new session object at [peer_id]; [now] is read only to retire. *)
Definition create_session (env : SessionEnv) (peer_id : NodeId) (session_id now : Z)
    (m : SessionManager) : SessionManager :=
  let m :=
    match sessions m !! peer_id with
    | Some s =>
        if established s then
          set_index (delete (ss_id s)) (retire_session_locked env s now m)
        else m
    | None => m
    end in
  let n := default new_session_state (sessions m !! peer_id) in
  let n := mkSession session_id (send_key n) (recv_key n) 0 replay_init peer_id false
             (initiated_locally n) (established_at n) in
  set_index (insert session_id peer_id) (set_sessions (insert peer_id n) m).

Definition install_noise_keys (peer_id : NodeId) (split : NoiseIkSplitResult)
    (initiated : bool) (now : Z) (m : SessionManager) : SessionManager :=
  set_sessions (alter (λ s, mkSession (ss_id s) (split_send_key split)
    (split_receive_key split) (send_seq s) (replay s) (ss_peer_id s) true initiated now)
    peer_id) m.

Definition find_session_locked (m : SessionManager) (peer_id : NodeId)
    : option SessionState :=
  match sessions m !! peer_id with
  | Some s => if established s then Some s else None
  | None => None
  end.

(** What a [SessionState*] of [find_session_by_id_locked] points into. *)
Inductive SessionRef := ActiveRef (peer_id : NodeId) | RetiredRef (session_id : Z).

Definition find_session_by_id_locked (m : SessionManager) (session_id : Z)
    : option (SessionRef * SessionState) :=
  match session_to_peer m !! session_id with
  | Some peer_id =>
      match find_session_locked m peer_id with
      | Some s => Some (ActiveRef peer_id, s)
      | None => None
      end
  | None =>
      match retired m !! session_id with
      | Some r =>
          if established (ret_session r)
          then Some (RetiredRef session_id, ret_session r) else None
      | None => None
      end
  end.

(** Assignment through the pointer. *)
Definition store_session (ref : SessionRef) (s : SessionState) (m : SessionManager)
    : SessionManager :=
  match ref with
  | ActiveRef peer_id => set_sessions (insert peer_id s) m
  | RetiredRef session_id =>
      set_retired (alter (λ r, mkRetired s (ret_expires r)) session_id) m
  end.

Definition snapshot (s : SessionState) : SessionSnapshot :=
  mkSnapshot (ss_id s) (ss_peer_id s) (established s) (initiated_locally s)
    (established_at s).

Definition get_session (m : SessionManager) (peer_id : NodeId) : option SessionSnapshot :=
  match sessions m !! peer_id with
  | Some s => if established s then Some (snapshot s) else None
  | None => None
  end.

Definition get_session_by_id (m : SessionManager) (session_id : Z)
    : option SessionSnapshot :=
  let from_retired :=
    match retired m !! session_id with
    | Some r =>
        if established (ret_session r) then Some (snapshot (ret_session r)) else None
    | None => None
    end in
  match session_to_peer m !! session_id with
  | Some peer_id =>
      match sessions m !! peer_id with
      | Some s => if established s then Some (snapshot s) else from_retired
      | None => from_retired
      end
  | None => from_retired
  end.

Definition remove_session (peer_id : NodeId) (m : SessionManager) : SessionManager :=
  let m :=
    match sessions m !! peer_id with
    | Some s =>
        set_sessions (delete peer_id) (set_retired (delete (ss_id s))
          (set_index (delete (ss_id s)) m))
    | None => m
    end in
  let m := set_retired (filter (λ '(_, r), ss_peer_id (ret_session r) <> peer_id)) m in
  set_pending (filter (λ '(_, p), expected_peer_id p <> peer_id)) m.

Definition active_session_count (m : SessionManager) : nat := size (sessions m).
Definition retired_session_count (m : SessionManager) : nat := size (retired m).
Definition pending_handshake_count (m : SessionManager) : nat :=
  size (pending_initiators m).

(** The test that a session id is not in use anywhere. *)
Definition session_id_taken (m : SessionManager) (session_id : Z) : bool :=
  contains (session_to_peer m) session_id || contains (retired m) session_id ||
  contains (pending_initiators m) session_id.

(** ** Handshake: initiator *)

(** The locked part of [create_handshake_init]. *)
Definition commit_pending (env : SessionEnv) (session_id : Z) (peer_id : NodeId)
    (peer_static : Key) (hs : NoiseIkHandshake) (now : Z) (m : SessionManager)
    : bool * SessionManager :=
  let m := purge_incomplete_handshakes_locked now m in
  if session_id_taken m session_id then (false, m) else
  if Nat.leb (cap_pending (capacity env)) (size (pending_initiators m)) then (false, m)
  else (true, set_pending (insert session_id
          (mkPending peer_id peer_static (Some hs) (now + ms (handshake_timeout m)))) m).

Definition create_handshake_init (env : SessionEnv) (session_id : Z)
    (peer_id : NodeId) (peer_static : Key) (now : Z) (m : SessionManager) (r : rng)
    : option (list byte) * SessionManager * rng :=
  if (session_id =? 0) || all_zero peer_static ||
     negb (bool_decide (peer_id = hash_public_key peer_static))
  then (None, m, r) else
  match make_handshake_v2_prologue (network_id (identity env)) session_id with
  | None => (None, m, r)
  | Some prologue =>
      match create_initiator (private_key (keypair (identity env))) peer_static prologue r with
      | (None, r) => (None, m, r)
      | (Some hs, r) =>
          let '(written, noise_message, hs) :=
            write_message hs [] HANDSHAKE_V2_INIT_NOISE_SIZE in
          if negb (op_ok written) ||
             negb (Nat.eqb (op_bytes written) HANDSHAKE_V2_INIT_NOISE_SIZE)
          then (None, m, r) else
          match serialize_handshake_v2_init
                  (mkInitFrame session_id (network_id (identity env)) noise_message) with
          | None => (None, m, r)
          | Some encoded =>
              let '(ok, m) := commit_pending env session_id peer_id peer_static hs now m in
              (if ok then Some encoded else None, m, r)
          end
      end
  end.

(** ** Handshake: responder *)

(** First locked region of [handle_handshake_init]. *)
Definition init_admit (replay_key : list byte) (session_id now : Z) (m : SessionManager)
    : bool * SessionManager :=
  let m := purge_handshake_replays_locked now (purge_incomplete_handshakes_locked now m) in
  (negb (contains (handshake_replays m) replay_key) && negb (session_id_taken m session_id), m).

(** [find_if] over the pending initiators: the first in key order. *)
Definition find_pending (m : SessionManager) (peer_id : NodeId) : option Z :=
  min_element Z.ltb (fst <$> map_to_list
    (filter (λ '(_, p), expected_peer_id p = peer_id) (pending_initiators m))).

(** Second locked region: the transcript enters the replay cache, simultaneous
    opens are arbitrated by node id, and the active capacity is tested. *)
Definition init_arbitrate (env : SessionEnv) (replay_key : list byte) (peer_id : NodeId)
    (now : Z) (m : SessionManager) : bool * SessionManager :=
  let m := purge_handshake_replays_locked now (purge_incomplete_handshakes_locked now m) in
  if contains (handshake_replays m) replay_key then (false, m) else
  let m := set_replays (insert replay_key (now + ms (handshake_replay_ttl m))) m in
  let local_has_priority := bytes_ltb (node_id (identity env)) peer_id in
  let active := sessions m !! peer_id in
  let active_local_initiation :=
    match active with Some s => established s && initiated_locally s | None => false end in
  let pending := find_pending m peer_id in
  if local_has_priority && (bool_decide (is_Some pending) || active_local_initiation)
  then (false, m) else
  let m :=
    match pending with
    | Some id => if negb local_has_priority then set_pending (delete id) m else m
    | None => m
    end in
  if negb (bool_decide (is_Some active)) &&
     Nat.leb (cap_active (capacity env)) (size (sessions m))
  then (false, m) else (true, m).

(** Third locked region; [now] is the purge, [now_retire] the clock read of
    [create_session], [now_install] the one of [install_noise_keys]. *)
Definition init_install (env : SessionEnv) (session_id : Z) (peer_id : NodeId)
    (split : NoiseIkSplitResult) (now now_retire now_install : Z) (m : SessionManager)
    : bool * SessionManager :=
  let m := purge_incomplete_handshakes_locked now m in
  if session_id_taken m session_id then (false, m) else
  if negb (contains (sessions m) peer_id) &&
     Nat.leb (cap_active (capacity env)) (size (sessions m)) then (false, m) else
  (true, install_noise_keys peer_id split false now_install
           (create_session env peer_id session_id now_retire m)).

(** The clock reads of a handler, in order. *)
Record Clocks := mkClocks { clk1 : Z; clk2 : Z; clk3 : Z; clk4 : Z; clk5 : Z }.

Definition handle_handshake_init (env : SessionEnv) (message : list byte)
    (outer_session_id : Z) (clk : Clocks) (m : SessionManager) (r : rng)
    : option HandshakeResponse * SessionManager * rng :=
  match parse_handshake_v2_init message with
  | None => (None, m, r)
  | Some frame =>
  if negb (init_session_id frame =? outer_session_id) ||
     negb (bool_decide (init_network_id frame = network_id (identity env)))
  then (None, m, r) else
  match transcript_hash Blake2s256 [message] with
  | None => (None, m, r)
  | Some replay_key =>
  match init_admit replay_key (init_session_id frame) (clk1 clk) m with
  | (false, m) => (None, m, r)
  | (true, m) =>
  match make_handshake_v2_prologue (network_id (identity env)) (init_session_id frame) with
  | None => (None, m, r)
  | Some prologue =>
  match create_responder (private_key (keypair (identity env))) prologue r with
  | (None, r) => (None, m, r)
  | (Some hs, r) =>
  match read_message hs (init_noise_message frame) 0 with
  | (read, _, hs) =>
  if negb (op_ok read) then (None, m, r) else
  match remote_static_public_key hs with
  | None => (None, m, r)
  | Some peer_static =>
  if all_zero peer_static then (None, m, r) else
  let peer_id := hash_public_key peer_static in
  match init_arbitrate env replay_key peer_id (clk2 clk) m with
  | (false, m) => (None, m, r)
  | (true, m) =>
  match write_message hs [] HANDSHAKE_V2_RESPONSE_NOISE_SIZE with
  | (written, noise_message, hs) =>
  if negb (op_ok written) ||
     negb (Nat.eqb (op_bytes written) HANDSHAKE_V2_RESPONSE_NOISE_SIZE)
  then (None, m, r) else
  match split hs, serialize_handshake_v2_response
                    (mkResponseFrame (init_session_id frame) noise_message) with
  | (Some keys, _), Some encoded =>
      let '(ok, m) := init_install env (init_session_id frame) peer_id keys
                        (clk3 clk) (clk4 clk) (clk5 clk) m in
      (if ok then Some (mkResponse encoded peer_id peer_static) else None, m, r)
  | _, _ => (None, m, r)
  end end end end end end end end end end.

(** ** Handshake: completion at the initiator *)

Definition handle_handshake_resp (env : SessionEnv) (message : list byte)
    (session_id now now_retire now_install : Z) (m : SessionManager)
    : bool * SessionManager :=
  let frame := parse_handshake_v2_response message in
  let m := purge_incomplete_handshakes_locked now m in
  match pending_initiators m !! session_id with
  | None => (false, m)
  | Some state =>
  let m := set_pending (delete session_id) m in
  match frame with
  | None => (false, m)
  | Some frame =>
  if negb (resp_session_id frame =? session_id) then (false, m) else
  match handshake state with
  | None => (false, m)
  | Some hs =>
  let '(read, _, hs) := read_message hs (resp_noise_message frame) 0 in
  if negb (op_ok read) then (false, m) else
  match remote_static_public_key hs with
  | None => (false, m)
  | Some remote =>
  if negb (bool_decide (remote = expected_peer_static state)) ||
     negb (bool_decide (hash_public_key remote = expected_peer_id state))
  then (false, m) else
  match split hs with
  | (None, _) => (false, m)
  | (Some keys, _) =>
  let active := sessions m !! expected_peer_id state in
  if match active with
     | Some s => established s && negb (initiated_locally s) &&
                 bytes_ltb (expected_peer_id state) (node_id (identity env))
     | None => false
     end
  then (false, m) else
  if negb (bool_decide (is_Some active)) &&
     Nat.leb (cap_active (capacity env)) (size (sessions m)) then (false, m) else
  (true, install_noise_keys (expected_peer_id state) keys true now_install
           (create_session env (expected_peer_id state) session_id now_retire m))
  end end end end end.

(** ** Messages *)

(** The length prefix, the bucket and the payload written into a zeroed buffer of
    [padded_size] bytes: the writer afterwards, or [None] when a write fails. *)
Definition write_protected (bucket : Z) (plaintext : list byte) (padded_size : nat)
    : option WireWriter :=
  let '(ok, w) :=
    (write_u16 (wrap 16 (Z.of_nat (length plaintext))) &> write_u16 (wrap 16 bucket) &>
     (if Nat.ltb 0 (length plaintext) then write_bytes plaintext else write_when true))
      (wire_writer (zeros padded_size)) in
  if ok then Some w else None.

(** [plaintext] and [pt_len] are the span they denote. *)
Definition encrypt_message (env : SessionEnv) (peer_id : NodeId) (packet_type : Z)
    (plaintext : list byte) (flags : Z) (m : SessionManager) (r : rng)
    : option (list byte) * SessionManager * rng :=
  let bucket := padding_bucket_size env in
  let pt_len := Z.of_nat (length plaintext) in
  if negb (is_supported_session_padding_bucket bucket) ||
     (SESSION_MAX_LOGICAL_PAYLOAD_SIZE <? pt_len) || (2 ^ 32 - 1 <? pt_len)
  then (None, m, r) else
  let padded_size := session_padded_plaintext_size pt_len bucket in
  if SESSION_MAX_PAYLOAD_SIZE <? padded_size then (None, m, r) else
  match write_protected bucket plaintext (Z.to_nat padded_size) with
  | None => (None, m, r)
  | Some payload_writer =>
  let padding_size := wr_remaining payload_writer in
  match find_session_locked m peer_id with
  | None => (None, m, r)
  | Some sess =>
  match (if Nat.ltb 0 padding_size then rng_fill padding_size r else (Some [], r)) with
  | (None, r) => (None, m, r)
  | (Some padding, r) =>
  let protected_payload := wr_written payload_writer ++ padding in
  let seq := send_seq sess in
  let m := set_sessions (insert peer_id
             (mkSession (ss_id sess) (send_key sess) (recv_key sess) (wrap 64 (seq + 1))
                (replay sess) (ss_peer_id sess) (established sess)
                (initiated_locally sess) (established_at sess))) m in
  let nonce := message_nonce (ss_id sess) seq in
  let hdr := mkPacketHeader PACKET_VERSION packet_type flags 0 (ss_id sess)
               (wrap 32 (Z.land seq 4294967295))
               (wrap 32 (Z.of_nat (length protected_payload))) in
  let hdr_bytes := serialize_packet_header hdr in
  match chacha20_poly1305_encrypt (send_key sess) nonce protected_payload hdr_bytes with
  | None => (None, m, r)
  | Some (ct, tag) => (Some (hdr_bytes ++ nonce ++ ct ++ tag), m, r)
  end end end end.

Definition encrypt_data (env : SessionEnv) (peer_id : NodeId) (plaintext : list byte)
    (m : SessionManager) (r : rng) : option (list byte) * SessionManager * rng :=
  encrypt_message env peer_id TYPE_DATA plaintext 0 m r.

(** The logical payload of a decrypted buffer of [ct_len] bytes. *)
Definition open_protected (plain : list byte) (ct_len : Z) : option (list byte) :=
  let '(logical_length, rd) := read_u16 (wire_reader plain) in
  let '(bucket_size, rd) := read_u16 rd in
  match logical_length, bucket_size with
  | Some logical_length, Some bucket_size =>
      if negb (is_supported_session_padding_bucket bucket_size) ||
         (SESSION_MAX_LOGICAL_PAYLOAD_SIZE <? logical_length) ||
         negb (session_padded_plaintext_size logical_length bucket_size =? ct_len)
      then None else
      let '(logical_payload, rd) := read_bytes (Z.to_nat logical_length) rd in
      let '(padding, rd) := read_bytes (rd_remaining rd) rd in
      match logical_payload, padding with
      | Some logical_payload, Some _ =>
          if rd_finished rd then Some logical_payload else None
      | _, _ => None
      end
  | _, _ => None
  end.

(** The session after [update_replay]. *)
Definition set_replay (s : SessionState) (w : ReplayState) : SessionState :=
  mkSession (ss_id s) (send_key s) (recv_key s) (send_seq s) w (ss_peer_id s)
    (established s) (initiated_locally s) (established_at s).

(** The outer [None] is an exception of the replay window. *)
Definition decrypt_message (data : list byte) (m : SessionManager)
    : option (option DecryptedMessage * SessionManager) :=
  let len := Z.of_nat (length data) in
  if len <? 16 + 12 + SESSION_PADDING_BUCKET_MIN + 16 then Some (None, m) else
  match parse_packet_header (take (Z.to_nat PACKET_HEADER_SIZE) data) with
  | None => Some (None, m)
  | Some hdr =>
  if negb (version hdr =? PACKET_VERSION) || negb (reserved hdr =? 0) ||
     negb (Z.land (flags hdr) (wrap 8 (Z.lnot PACKET_KNOWN_FLAGS)) =? 0)
  then Some (None, m) else
  let ct_len := payload_length hdr in
  if (ct_len <? SESSION_PADDING_BUCKET_MIN) || (SESSION_MAX_PAYLOAD_SIZE <? ct_len)
  then Some (None, m) else
  if negb (16 + 12 + ct_len + 16 =? len) then Some (None, m) else
  match find_session_by_id_locked m (session_id hdr) with
  | None => Some (None, m)
  | Some (ref, sess) =>
  let wire_seq := sequence_number hdr in
  match check_replay (replay sess) wire_seq with
  | None => None
  | Some false => Some (None, m)
  | Some true =>
  let nonce := take 12 (drop 16 data) in
  let ct := take (Z.to_nat ct_len) (drop 28 data) in
  let tag := take 16 (drop (28 + Z.to_nat ct_len) data) in
  match chacha20_poly1305_decrypt (recv_key sess) nonce ct tag (take 16 data) with
  | None => Some (None, m)
  | Some plain =>
  match update_replay (replay sess) wire_seq with
  | None => None
  | Some w =>
  let m := store_session ref (set_replay sess w) m in
  match open_protected plain ct_len with
  | None => Some (None, m)
  | Some payload => Some (Some (mkDecrypted (packet_type hdr) payload), m)
  end end end end end end.

Definition decrypt_data (data : list byte) (m : SessionManager)
    : option (option (list byte) * SessionManager) :=
  match decrypt_message data m with
  | None => None
  | Some (None, m) => Some (None, m)
  | Some (Some msg, m) =>
      if dm_packet_type msg =? TYPE_DATA then Some (Some (dm_payload msg), m)
      else Some (None, m)
  end.

End session.
