(* ===== verification/SessionInv.v ===== *)
(** * The session table: concurrent steps, abstract transitions, invariant

    [mgr_step] lists what one thread can do to a [SessionManager] in one critical
    section.  [table_step] is the abstract specification of the table: six kinds
    of transitions.  Every critical section refines one transition, and every
    transition keeps the invariant [manager_inv], so the invariant holds in every
    interleaving of any number of threads. *)

From stdpp Require Import base numbers list gmap option.
From Stdlib Require Import ZArith Lia Bool.
From Stdlib.Strings Require Import Byte.
From S2P Require Import Prelude Wire Packet Replay Crypto Identity HandshakeV2 NoiseIk.
From S2P Require Import Session.

Section steps.
Context `{OpenSSL, RandomSource, NoiseC}.

(** One critical section; every clock read lies between [t0] and [t1]. *)
Inductive mgr_step (env : SessionEnv) (t0 t1 : Z) (m : SessionManager)
    : SessionManager -> Prop :=
  | step_set_grace g : mgr_step env t0 t1 m (set_retired_grace g m)
  | step_purge_retired now : t0 <= now <= t1 ->
      mgr_step env t0 t1 m (purge_retired now m)
  | step_purge_incomplete now : t0 <= now <= t1 ->
      mgr_step env t0 t1 m (purge_incomplete_handshakes now m)
  | step_purge_replays now : t0 <= now <= t1 ->
      mgr_step env t0 t1 m (purge_handshake_replays now m)
  | step_set_timeout d now : t0 <= now <= t1 ->
      mgr_step env t0 t1 m (set_handshake_timeout d now m)
  | step_set_ttl d now : t0 <= now <= t1 ->
      mgr_step env t0 t1 m (set_handshake_replay_ttl d now m)
  | step_remove peer : mgr_step env t0 t1 m (remove_session peer m)
  | step_commit_pending id peer key hs now : t0 <= now <= t1 -> u32 id -> id <> 0 ->
      mgr_step env t0 t1 m (snd (commit_pending env id peer key hs now m))
  | step_init_admit key id now : t0 <= now <= t1 ->
      mgr_step env t0 t1 m (snd (init_admit key id now m))
  | step_init_arbitrate key peer now : t0 <= now <= t1 ->
      mgr_step env t0 t1 m (snd (init_arbitrate env key peer now m))
  | step_init_install id peer keys n1 n2 n3 :
      t0 <= n1 -> n1 <= n2 -> n2 <= n3 -> n3 <= t1 -> u32 id -> id <> 0 ->
      mgr_step env t0 t1 m (snd (init_install env id peer keys n1 n2 n3 m))
  | step_resp message id n1 n2 n3 :
      t0 <= n1 -> n1 <= n2 -> n2 <= n3 -> n3 <= t1 ->
      mgr_step env t0 t1 m (snd (handle_handshake_resp env message id n1 n2 n3 m))
  | step_encrypt peer type plaintext fl r :
      mgr_step env t0 t1 m (snd (fst (encrypt_message env peer type plaintext fl m r)))
  | step_decrypt data out m' : decrypt_message data m = Some (out, m') ->
      mgr_step env t0 t1 m m'.

(** Interleavings of any number of threads. *)
Inductive reachable (env : SessionEnv) : SessionManager -> Prop :=
  | reach_init : reachable env manager_init
  | reach_step m t0 t1 m' : reachable env m -> mgr_step env t0 t1 m m' -> reachable env m'.

(** ** Abstract transitions *)

(** The life of one session: keys and identity are fixed, the send counter
    advances by one, the receive window accepts one number. *)
Definition window_next (w w' : ReplayState) : Prop :=
  w' = w \/ exists seq, u32 seq /\ check_replay w seq = Some true /\
                        update_replay w seq = Some w'.

Record session_next (s s' : SessionState) : Prop := {
  next_id : ss_id s' = ss_id s;
  next_send_key : send_key s' = send_key s;
  next_recv_key : recv_key s' = recv_key s;
  next_peer : ss_peer_id s' = ss_peer_id s;
  next_established : established s' = established s;
  next_seq : send_seq s' = send_seq s \/ send_seq s' = wrap 64 (send_seq s + 1);
  next_window : window_next (replay s) (replay s');
}.

(** A session whose counters are in range. *)
Record session_ok (s : SessionState) : Prop := {
  ok_id : u32 (ss_id s);
  ok_nonzero : ss_id s <> 0;
  ok_established : established s = true;
  ok_seq : u64 (send_seq s);
  ok_window : exists sp, replay_rel (replay s) sp;
}.

(** The index entry of the session of [peer], removed. *)
Definition unindex (m : SessionManager) (peer : NodeId) : gmap Z NodeId :=
  match sessions m !! peer with
  | Some s => delete (ss_id s) (session_to_peer m)
  | None => session_to_peer m
  end.

Inductive table_step (env : SessionEnv) (m m' : SessionManager) : Prop :=
  | ts_shrink :
      sessions m' = sessions m -> session_to_peer m' = session_to_peer m ->
      retired m' ⊆ retired m -> pending_initiators m' ⊆ pending_initiators m ->
      table_step env m m'
  | ts_pending id p q :
      sessions m' = sessions m -> session_to_peer m' = session_to_peer m ->
      retired m' = retired m ->
      session_to_peer m !! id = None -> retired m !! id = None -> u32 id -> id <> 0 ->
      q ⊆ pending_initiators m -> (size q < cap_pending (capacity env))%nat ->
      pending_initiators m' = <[id := p]> q -> table_step env m m'
  | ts_remove peer :
      sessions m' = delete peer (sessions m) -> session_to_peer m' = unindex m peer ->
      retired m' ⊆ retired m -> pending_initiators m' ⊆ pending_initiators m ->
      table_step env m m'
  | ts_open peer id s :
      session_to_peer m !! id = None -> retired m !! id = None ->
      session_ok s -> ss_id s = id -> ss_peer_id s = peer ->
      sessions m' = <[peer := s]> (sessions m) ->
      session_to_peer m' = <[id := peer]> (unindex m peer) ->
      (forall k r, retired m' !! k = Some r ->
        retired m !! k = Some r \/
        exists s0, sessions m !! peer = Some s0 /\ k = ss_id s0 /\ ret_session r = s0) ->
      (size (retired m') <= Nat.max (size (retired m)) (cap_retired (capacity env)))%nat ->
      (sessions m !! peer = None ->
        (size (sessions m) < cap_active (capacity env))%nat) ->
      pending_initiators m' ⊆ pending_initiators m -> pending_initiators m' !! id = None ->
      table_step env m m'
  | ts_active peer s s' :
      sessions m !! peer = Some s -> session_next s s' ->
      sessions m' = <[peer := s']> (sessions m) ->
      session_to_peer m' = session_to_peer m -> retired m' = retired m ->
      pending_initiators m' = pending_initiators m -> table_step env m m'
  | ts_retired id r r' :
      retired m !! id = Some r -> session_next (ret_session r) (ret_session r') ->
      retired m' = <[id := r']> (retired m) -> sessions m' = sessions m ->
      session_to_peer m' = session_to_peer m ->
      pending_initiators m' = pending_initiators m -> table_step env m m'.

(** ** Invariant *)

(** Sessions are filed under their peer and indexed by their id; every session
    in the table is established and in range; an id names at most one of an
    active, a retired and a pending session; the configured capacities hold. *)
Record manager_inv (env : SessionEnv) (m : SessionManager) : Prop := {
  inv_sessions p s : sessions m !! p = Some s -> ss_peer_id s = p /\ session_ok s;
  inv_index id p : session_to_peer m !! id = Some p <->
    exists s, sessions m !! p = Some s /\ ss_id s = id;
  inv_retired id r : retired m !! id = Some r ->
    ss_id (ret_session r) = id /\ session_ok (ret_session r);
  inv_active_retired id p : session_to_peer m !! id = Some p -> retired m !! id = None;
  inv_pending id p : pending_initiators m !! id = Some p ->
    session_to_peer m !! id = None /\ retired m !! id = None /\ u32 id /\ id <> 0;
  inv_cap_active : (size (sessions m) <= cap_active (capacity env))%nat;
  inv_cap_retired : (size (retired m) <= cap_retired (capacity env))%nat;
  inv_cap_pending : (size (pending_initiators m) <= cap_pending (capacity env))%nat;
}.

Lemma manager_inv_init env : manager_inv env manager_init.
Proof. split; simpl; intros; try (by simplify_map_eq); try (rewrite map_size_empty; lia).
  split; [by simplify_map_eq|]. intros (? & ? & ?). by simplify_map_eq. Qed.

Lemma window_next_ok w w' :
  (exists sp, replay_rel w sp) -> window_next w w' -> exists sp, replay_rel w' sp.
Proof.
  intros [sp Hr] [->|(seq & Hs & Hc & Hu)]; [by exists sp|].
  rewrite (check_replay_refines w sp) in Hc by done.
  destruct (update_replay_refines w sp seq) as (w2 & Hw2 & Hr2); [done..|congruence|].
  exists (spec_update sp seq). congruence.
Qed.

Lemma session_next_ok s s' : session_ok s -> session_next s s' -> session_ok s'.
Proof.
  intros [] []. split; try congruence.
  - destruct next_seq0 as [->| ->]; [done|]. apply wrap_in_width. lia.
  - by eapply window_next_ok.
Qed.

(** ** Transitions keep the invariant *)

Lemma unindex_lookup env m peer id p :
  manager_inv env m ->
  unindex m peer !! id = Some p <-> session_to_peer m !! id = Some p /\ p <> peer.
Proof.
  intros Hi. unfold unindex. destruct (sessions m !! peer) as [s|] eqn:E.
  - rewrite lookup_delete_Some. split.
    + intros [Hne Hl]. split; [done|]. intros ->.
      apply (inv_index _ _ Hi) in Hl as (s' & ? & ?). congruence.
    + intros [Hl Hne]. split; [|done]. intros <-.
      assert (session_to_peer m !! ss_id s = Some peer); [|congruence].
      apply (inv_index _ _ Hi). eauto.
  - split; [|tauto]. intros Hl. split; [done|]. intros ->.
    apply (inv_index _ _ Hi) in Hl as (? & ? & ?). congruence.
Qed.

Lemma shrink_inv env m m' :
  manager_inv env m -> sessions m' = sessions m ->
  session_to_peer m' = session_to_peer m -> retired m' ⊆ retired m ->
  pending_initiators m' ⊆ pending_initiators m -> manager_inv env m'.
Proof.
  intros [] Hs Hx Hr Hp. split; rewrite ?Hs, ?Hx; try done.
  - intros id r Hl. eapply inv_retired0, lookup_weaken; eauto.
  - intros id p Hl. eapply lookup_weaken_None; eauto.
  - intros id p Hl. destruct (inv_pending0 id p) as (? & ? & ?).
    { by eapply lookup_weaken. }
    split; [done|]. split; [by eapply lookup_weaken_None|done].
  - apply map_subseteq_size in Hr. lia.
  - apply map_subseteq_size in Hp. lia.
Qed.

Lemma pending_inv env m m' id p q :
  manager_inv env m -> sessions m' = sessions m ->
  session_to_peer m' = session_to_peer m -> retired m' = retired m ->
  session_to_peer m !! id = None -> retired m !! id = None -> u32 id -> id <> 0 ->
  q ⊆ pending_initiators m -> (size q < cap_pending (capacity env))%nat ->
  pending_initiators m' = <[id := p]> q -> manager_inv env m'.
Proof.
  intros [] Hs Hx Hr ? ? ? ? Hq Hsz Hp. split; rewrite ?Hs, ?Hx, ?Hr, ?Hp; try done.
  - intros k r. rewrite lookup_insert_Some. intros [[<- <-]|[_ Hl]]; [done|].
    eapply inv_pending0, lookup_weaken; eauto.
  - rewrite map_size_insert. destruct (q !! id); simpl; lia.
Qed.

Lemma remove_inv env m m' peer :
  manager_inv env m -> sessions m' = delete peer (sessions m) ->
  session_to_peer m' = unindex m peer -> retired m' ⊆ retired m ->
  pending_initiators m' ⊆ pending_initiators m -> manager_inv env m'.
Proof.
  intros Hi Hs Hx Hr Hp. pose proof (unindex_lookup env m peer) as Hu.
  split; rewrite ?Hs, ?Hx.
  - intros p s [_ Hl]%lookup_delete_Some. by apply (inv_sessions _ _ Hi).
  - intros id p. rewrite Hu by done. rewrite (inv_index _ _ Hi). split.
    + intros [(s & Hl & Hid) Hne]. exists s. by rewrite lookup_delete_ne.
    + intros (s & [? ?]%lookup_delete_Some & ?). split; [by exists s|congruence].
  - intros id r Hl. eapply (inv_retired _ _ Hi), lookup_weaken; eauto.
  - intros id p [Hl _]%Hu; [|done].
    eapply lookup_weaken_None; [by eapply (inv_active_retired _ _ Hi)|done].
  - intros id p Hl. destruct (inv_pending _ _ Hi id p) as (? & ? & ?).
    { by eapply lookup_weaken. }
    split; [|split; [by eapply lookup_weaken_None|done]].
    destruct (unindex m peer !! id) as [p'|] eqn:E; [|done].
    apply Hu in E as [? _]; congruence.
  - pose proof (inv_cap_active _ _ Hi).
    pose proof (map_subseteq_size _ _ (delete_subseteq (sessions m) peer)). lia.
  - apply map_subseteq_size in Hr. pose proof (inv_cap_retired _ _ Hi). lia.
  - apply map_subseteq_size in Hp. pose proof (inv_cap_pending _ _ Hi). lia.
Qed.

Lemma open_inv env m m' peer id s :
  manager_inv env m ->
  session_to_peer m !! id = None -> retired m !! id = None ->
  session_ok s -> ss_id s = id -> ss_peer_id s = peer ->
  sessions m' = <[peer := s]> (sessions m) ->
  session_to_peer m' = <[id := peer]> (unindex m peer) ->
  (forall k r, retired m' !! k = Some r ->
    retired m !! k = Some r \/
    exists s0, sessions m !! peer = Some s0 /\ k = ss_id s0 /\ ret_session r = s0) ->
  (size (retired m') <= Nat.max (size (retired m)) (cap_retired (capacity env)))%nat ->
  (sessions m !! peer = None -> (size (sessions m) < cap_active (capacity env))%nat) ->
  pending_initiators m' ⊆ pending_initiators m -> pending_initiators m' !! id = None ->
  manager_inv env m'.
Proof.
  intros Hi Hx0 Hr0 Hok Hid Hpeer Hs Hx Hr Hrsz Hcap Hp Hp0.
  pose proof (unindex_lookup env m peer) as Hu.
  assert (forall k, retired m !! k = None -> session_to_peer m !! k = None ->
            retired m' !! k = None) as Hrn.
  { intros k Hk Hk'. destruct (retired m' !! k) as [r|] eqn:E; [|done].
    destruct (Hr _ _ E) as [?|(s0 & Hs0 & -> & _)]; [congruence|].
    assert (session_to_peer m !! ss_id s0 = Some peer); [|congruence].
    apply (inv_index _ _ Hi). eauto. }
  split; rewrite ?Hs, ?Hx.
  - intros p s'. rewrite lookup_insert_Some. intros [[<- <-]|[? Hl]]; [done|].
    by apply (inv_sessions _ _ Hi).
  - intros k p. rewrite lookup_insert_Some, Hu, (inv_index _ _ Hi) by done. split.
    + intros [[<- <-]|(_ & (s' & ? & ?) & ?)]; [exists s|exists s'];
        by rewrite ?lookup_insert_eq, ?lookup_insert_ne.
    + intros (s' & [[<- <-]|[Hne Hl]]%lookup_insert_Some & <-); [by left|].
      right. split; [|by eauto]. intros ->.
      assert (session_to_peer m !! ss_id s' = Some p); [|congruence].
      apply (inv_index _ _ Hi). eauto.
  - intros k r Hl. destruct (Hr _ _ Hl) as [?|(s0 & Hs0 & -> & ->)].
    { by apply (inv_retired _ _ Hi). }
    split; [done|]. by apply (inv_sessions _ _ Hi peer).
  - intros k p. rewrite lookup_insert_Some, Hu by done.
    intros [[<- <-]|(? & Hl & ?)]; [by apply Hrn|].
    destruct (retired m' !! k) as [r|] eqn:E; [|done].
    destruct (Hr _ _ E) as [Hk|(s0 & Hs0 & -> & _)].
    { by rewrite (inv_active_retired _ _ Hi k p) in Hk. }
    apply (inv_index _ _ Hi) in Hl as (s1 & Hs1 & Hs01).
    destruct (inv_sessions _ _ Hi _ _ Hs0), (inv_sessions _ _ Hi _ _ Hs1).
    assert (session_to_peer m !! ss_id s0 = Some peer /\
            session_to_peer m !! ss_id s0 = Some p) as [? ?]; [|congruence].
    split; apply (inv_index _ _ Hi); eauto.
  - intros k p Hl. assert (k <> id) by congruence.
    destruct (inv_pending _ _ Hi k p) as (? & ? & ? & ?); [by eapply lookup_weaken|].
    split; [|by auto]. rewrite lookup_insert_ne by done.
    destruct (unindex m peer !! k) eqn:E; [|done]. apply Hu in E as [? _]; congruence.
  - rewrite map_size_insert. pose proof (inv_cap_active _ _ Hi).
    destruct (sessions m !! peer) eqn:E; simpl; [done|]. apply Hcap. done.
  - pose proof (inv_cap_retired _ _ Hi). lia.
  - apply map_subseteq_size in Hp. pose proof (inv_cap_pending _ _ Hi). lia.
Qed.

Lemma active_inv env m m' peer s s' :
  manager_inv env m -> sessions m !! peer = Some s -> session_next s s' ->
  sessions m' = <[peer := s']> (sessions m) ->
  session_to_peer m' = session_to_peer m -> retired m' = retired m ->
  pending_initiators m' = pending_initiators m -> manager_inv env m'.
Proof.
  intros Hi Hl Hn Hs Hx Hr Hp. destruct (inv_sessions _ _ Hi _ _ Hl) as [? Hok].
  pose proof (session_next_ok _ _ Hok Hn). destruct Hn.
  destruct Hi. split; rewrite ?Hs, ?Hx, ?Hr, ?Hp; try done.
  - intros p s0. rewrite lookup_insert_Some. intros [[<- <-]|[? ?]]; [|by auto].
    split; [congruence|done].
  - intros id p. rewrite inv_index0. destruct (decide (p = peer)) as [->|].
    + rewrite lookup_insert_eq, Hl. split; intros (? & [= <-] & <-); eauto.
    + by rewrite lookup_insert_ne.
  - by rewrite map_size_insert, Hl.
Qed.

Lemma retired_inv env m m' id r r' :
  manager_inv env m -> retired m !! id = Some r ->
  session_next (ret_session r) (ret_session r') ->
  retired m' = <[id := r']> (retired m) -> sessions m' = sessions m ->
  session_to_peer m' = session_to_peer m ->
  pending_initiators m' = pending_initiators m -> manager_inv env m'.
Proof.
  intros Hi Hl Hn Hr Hs Hx Hp. destruct (inv_retired _ _ Hi _ _ Hl) as [? Hok].
  pose proof (session_next_ok _ _ Hok Hn). destruct Hn.
  assert (forall k, retired m !! k = None -> <[id := r']> (retired m) !! k = None) as Hk.
  { intros k Hk. rewrite lookup_insert_ne; [done|congruence]. }
  destruct Hi. split; rewrite ?Hs, ?Hx, ?Hr, ?Hp; try done.
  - intros k r0. rewrite lookup_insert_Some. intros [[<- <-]|[? ?]]; [|by auto].
    split; [congruence|done].
  - intros k p Hl'. by eapply Hk, inv_active_retired0.
  - intros k p (? & ? & ? & ?)%inv_pending0. auto.
  - by rewrite map_size_insert, Hl.
Qed.

Lemma table_step_inv env m m' :
  manager_inv env m -> table_step env m m' -> manager_inv env m'.
Proof.
  intros Hi []; [by eapply shrink_inv|by eapply pending_inv|by eapply remove_inv|
    by eapply open_inv|by eapply active_inv|by eapply retired_inv].
Qed.

(** ** Critical sections refine transitions *)

Lemma purge_retired_subset now m : retired (purge_retired_locked now m) ⊆ retired m.
Proof. apply map_filter_subseteq. Qed.

Lemma purge_incomplete_subset now m :
  pending_initiators (purge_incomplete_handshakes_locked now m) ⊆ pending_initiators m.
Proof. apply map_filter_subseteq. Qed.

(** What retiring a session does to the retired map. *)
Lemma retire_session_spec env s now m :
  let m' := retire_session_locked env s now m in
  sessions m' = sessions m /\ session_to_peer m' = session_to_peer m /\
  pending_initiators m' = pending_initiators m /\
  handshake_replays m' = handshake_replays m /\
  (forall k r, retired m' !! k = Some r ->
    retired m !! k = Some r \/ k = ss_id s /\ ret_session r = s) /\
  (size (retired m') <= Nat.max (size (retired m)) (cap_retired (capacity env)))%nat.
Proof.
  cbv zeta. unfold retire_session_locked.
  pose proof (purge_retired_subset now m) as Hsub.
  pose proof (map_subseteq_size _ _ Hsub) as Hsz.
  assert (sessions (purge_retired_locked now m) = sessions m /\
    session_to_peer (purge_retired_locked now m) = session_to_peer m /\
    pending_initiators (purge_retired_locked now m) = pending_initiators m /\
    handshake_replays (purge_retired_locked now m) = handshake_replays m)
    as (? & ? & ? & ?) by done.
  generalize dependent (purge_retired_locked now m). intros m1 ? ? ? ? ? ?.
  assert (forall k r, retired m1 !! k = Some r -> retired m !! k = Some r) as Hl
    by (intros; by eapply lookup_weaken).
  destruct (Nat.eqb_spec (cap_retired (capacity env)) 0) as [Hz|Hz].
  { repeat split; auto. lia. }
  destruct (contains (retired m1) (ss_id s)) eqn:Ec; simpl.
  - apply contains_spec in Ec as [r0 Hr0]. repeat split; auto.
    + intros k r. rewrite lookup_insert_Some. intros [[<- <-]|[? ?]]; auto.
    + rewrite map_size_insert, Hr0; simpl. lia.
  - apply contains_false in Ec.
    destruct (Nat.leb_spec (cap_retired (capacity env)) (size (retired m1))) as [Hf|Hf].
    + destruct (min_element _ _) as [[k0 r0]|] eqn:Em; simpl.
      * apply min_element_elem, elem_of_map_to_list in Em. repeat split; auto.
        -- intros k r. rewrite lookup_insert_Some, lookup_delete_Some.
           intros [[<- <-]|(? & ? & ?)]; auto.
        -- rewrite map_size_insert, map_size_delete, Em.
           destruct (decide (k0 = ss_id s)) as [->|]; [congruence|].
           rewrite lookup_delete_ne by done. rewrite Ec; simpl. lia.
      * apply min_element_none, map_to_list_empty_iff in Em.
        rewrite Em, map_size_empty in Hf. lia.
    + repeat split; auto.
      * intros k r; simpl. rewrite lookup_insert_Some. intros [[<- <-]|[? ?]]; auto.
      * simpl. rewrite map_size_insert, Ec; simpl. lia.
Qed.

(** The session that a completed handshake installs. *)
Definition opened (peer : NodeId) (id : Z) (keys : NoiseIkSplitResult) (local : bool)
    (now : Z) : SessionState :=
  mkSession id (split_send_key keys) (split_receive_key keys) 0 replay_init peer true
    local now.

Lemma opened_ok peer id keys local now :
  u32 id -> id <> 0 -> session_ok (opened peer id keys local now).
Proof.
  intros Hu Hn. split; simpl; try done. exists spec_init. apply replay_rel_init.
Qed.

(** [create_session] followed by [install_noise_keys]. *)
Lemma open_session_spec env m peer id keys local n2 n3 :
  manager_inv env m ->
  let m' := install_noise_keys peer keys local n3 (create_session env peer id n2 m) in
  sessions m' = <[peer := opened peer id keys local n3]> (sessions m) /\
  session_to_peer m' = <[id := peer]> (unindex m peer) /\
  pending_initiators m' = pending_initiators m /\
  handshake_replays m' = handshake_replays m /\
  (forall k r, retired m' !! k = Some r ->
    retired m !! k = Some r \/
    exists s0, sessions m !! peer = Some s0 /\ k = ss_id s0 /\ ret_session r = s0) /\
  (size (retired m') <= Nat.max (size (retired m)) (cap_retired (capacity env)))%nat.
Proof.
  intros Hi. cbv zeta. unfold install_noise_keys, create_session, unindex.
  destruct (sessions m !! peer) as [s|] eqn:E; simpl.
  - destruct (inv_sessions _ _ Hi _ _ E) as [_ [_ _ Hest _ _]]. rewrite Hest; simpl.
    destruct (retire_session_spec env s n2 m) as (Hs & Hx & Hp & Hh & Hr & Hsz).
    rewrite Hs, Hx, Hp, Hh, alter_insert_eq, E; simpl. repeat split; auto.
    intros k r [?|[-> ?]]%Hr; eauto.
  - rewrite E, alter_insert_eq; simpl. repeat split; auto. lia.
Qed.

Lemma session_id_free m id :
  session_id_taken m id = false <->
  session_to_peer m !! id = None /\ retired m !! id = None /\
  pending_initiators m !! id = None.
Proof.
  unfold session_id_taken. rewrite !orb_false_iff, !contains_false. tauto.
Qed.

(** Opening a session from a state that differs from [m] only by fewer pending
    handshakes. *)
Lemma open_session_step env m m1 peer id keys local n2 n3 :
  manager_inv env m -> sessions m1 = sessions m ->
  session_to_peer m1 = session_to_peer m -> retired m1 = retired m ->
  pending_initiators m1 ⊆ pending_initiators m ->
  session_to_peer m !! id = None -> retired m !! id = None ->
  pending_initiators m1 !! id = None -> u32 id -> id <> 0 ->
  (sessions m !! peer = None -> (size (sessions m) < cap_active (capacity env))%nat) ->
  table_step env m
    (install_noise_keys peer keys local n3 (create_session env peer id n2 m1)).
Proof.
  intros Hi Hs Hx Hr Hp Hid Hrid Hpid Hu Hn Hcap.
  assert (manager_inv env m1) as Hi1 by (eapply shrink_inv; eauto; by rewrite Hr).
  destruct (open_session_spec env m1 peer id keys local n2 n3 Hi1)
    as (Hs' & Hx' & Hp' & _ & Hr' & Hsz').
  apply (ts_open env m _ peer id (opened peer id keys local n3)); auto.
  - by apply opened_ok.
  - by rewrite Hs', Hs.
  - rewrite Hx'. unfold unindex. by rewrite Hs, Hx.
  - intros k r Hl%Hr'. by rewrite <- Hr, <- Hs.
  - by rewrite <- Hr.
  - by rewrite Hp'.
  - by rewrite Hp'.
Qed.

Lemma capacity_guard {A} (o : option A) cap n :
  negb (bool_decide (is_Some o)) && Nat.leb cap n = false -> o = None -> (n < cap)%nat.
Proof. intros Hg ->. simpl in Hg. by apply Nat.leb_gt in Hg. Qed.

Lemma shrink_step env m m' :
  sessions m' = sessions m -> session_to_peer m' = session_to_peer m ->
  retired m' = retired m -> pending_initiators m' ⊆ pending_initiators m ->
  table_step env m m'.
Proof. intros ? ? Hr ?. apply ts_shrink; auto. by rewrite Hr. Qed.

Lemma commit_pending_step env m id peer key hs now :
  u32 id -> id <> 0 -> table_step env m (snd (commit_pending env id peer key hs now m)).
Proof.
  intros Hu Hn. unfold commit_pending.
  pose proof (purge_incomplete_subset now m) as Hsub.
  destruct (session_id_taken _ id) eqn:Et; [by apply shrink_step|].
  apply session_id_free in Et as (? & ? & ?).
  destruct (Nat.leb_spec (cap_pending (capacity env))
    (size (pending_initiators (purge_incomplete_handshakes_locked now m)))) as [?|Hlt];
    [by apply shrink_step|]. by eapply ts_pending.
Qed.

Lemma init_arbitrate_step env m key peer now :
  table_step env m (snd (init_arbitrate env key peer now m)).
Proof.
  unfold init_arbitrate. pose proof (purge_incomplete_subset now m) as Hsub.
  assert (forall id, delete id (pending_initiators (purge_incomplete_handshakes_locked now m))
    ⊆ pending_initiators m) as Hdel by (intros; etrans; [apply delete_subseteq|done]).
  repeat case_match; apply shrink_step; done || apply Hdel.
Qed.

Lemma init_install_step env m id peer keys n1 n2 n3 :
  manager_inv env m -> u32 id -> id <> 0 ->
  table_step env m (snd (init_install env id peer keys n1 n2 n3 m)).
Proof.
  intros Hi Hu Hn. unfold init_install.
  pose proof (purge_incomplete_subset n1 m) as Hsub.
  destruct (session_id_taken _ id) eqn:Et; [by apply shrink_step|].
  apply session_id_free in Et as (? & ? & ?).
  destruct (negb _ && _) eqn:Ec; [by apply shrink_step|].
  apply open_session_step; auto. by apply capacity_guard.
Qed.

Lemma resp_step env m message id n1 n2 n3 :
  manager_inv env m ->
  table_step env m (snd (handle_handshake_resp env message id n1 n2 n3 m)).
Proof.
  intros Hi. unfold handle_handshake_resp.
  pose proof (purge_incomplete_subset n1 m) as Hsub.
  set (m1 := purge_incomplete_handshakes_locked n1 m) in *.
  assert (sessions m1 = sessions m /\ session_to_peer m1 = session_to_peer m /\
    retired m1 = retired m) as (Hs & Hx & Hr) by done. clearbody m1.
  destruct (pending_initiators m1 !! id) as [st|] eqn:Ep; [|by apply shrink_step].
  destruct (inv_pending _ _ Hi id st) as (? & ? & ? & ?); [by eapply lookup_weaken|].
  assert (delete id (pending_initiators m1) ⊆ pending_initiators m) as Hdel
    by (etrans; [apply delete_subseteq|done]).
  repeat (case_match; try by apply shrink_step); simpl in *;
    (apply open_session_step; auto; simpl; [apply lookup_delete_eq|]);
    rewrite <- Hs; [congruence|].
  intros _. by apply Nat.leb_gt.
Qed.

Lemma stay_step env m : table_step env m m.
Proof. by apply shrink_step. Qed.

Lemma window_refl s : window_next (replay s) (replay s).
Proof. by left. Qed.

Lemma encrypt_step env m peer type plaintext fl r :
  table_step env m (snd (fst (encrypt_message env peer type plaintext fl m r))).
Proof.
  unfold encrypt_message. cbv zeta.
  destruct (negb _ || _ || _); [apply stay_step|].
  destruct (_ <? _); [apply stay_step|].
  destruct (write_protected _ _ _) as [w|]; [|apply stay_step].
  destruct (find_session_locked m peer) as [s|] eqn:Ef; [|apply stay_step].
  assert (sessions m !! peer = Some s) as Hl.
  { unfold find_session_locked in Ef. repeat case_match; by simplify_eq. }
  destruct (if Nat.ltb 0 _ then _ else _) as [[padding|] r']; [|apply stay_step].
  destruct (chacha20_poly1305_encrypt _ _ _ _) as [[ct tag]|];
    (eapply (ts_active env m _ peer s); [done| |done..]);
    split; simpl; auto using window_refl.
Qed.

(** Where a session pointer points. *)
Lemma find_session_by_id_inv m id ref s :
  find_session_by_id_locked m id = Some (ref, s) ->
  established s = true /\
  match ref with
  | ActiveRef peer => session_to_peer m !! id = Some peer /\ sessions m !! peer = Some s
  | RetiredRef id' => id' = id /\ session_to_peer m !! id = None /\
      exists e, retired m !! id = Some (mkRetired s e)
  end.
Proof.
  unfold find_session_by_id_locked, find_session_locked. intros Hf.
  repeat case_match; simplify_eq; [by auto|]. split; [done|]. split; [done|].
  split; [done|]. by match goal with r : RetiredSession |- _ => destruct r; eexists end.
Qed.

Lemma store_session_step env m id ref s s' :
  find_session_by_id_locked m id = Some (ref, s) -> session_next s s' ->
  table_step env m (store_session ref s' m).
Proof.
  intros [He Hr]%find_session_by_id_inv Hn. destruct ref as [peer|id'].
  - destruct Hr as [_ Hl]. by apply (ts_active env m _ peer s s').
  - destruct Hr as (-> & _ & e & Hl). eapply (ts_retired env m _ id _ (mkRetired s' e));
      [done|done| |done..]. simpl. by rewrite (alter_as_insert _ _ _ _ Hl).
Qed.

(** The outcomes of a decryption: the table is untouched, or the packet
    authenticated under the session its header names and the session's window
    records its number. *)
Lemma decrypt_cases data m out m' :
  decrypt_message data m = Some (out, m') ->
  (out = None /\ m' = m) \/
  exists hdr ref s w plain,
    parse_packet_header (take 16 data) = Some hdr /\
    find_session_by_id_locked m (session_id hdr) = Some (ref, s) /\
    check_replay (replay s) (sequence_number hdr) = Some true /\
    chacha20_poly1305_decrypt (recv_key s) (take 12 (drop 16 data))
      (take (Z.to_nat (payload_length hdr)) (drop 28 data))
      (take 16 (drop (28 + Z.to_nat (payload_length hdr)) data)) (take 16 data)
      = Some plain /\
    update_replay (replay s) (sequence_number hdr) = Some w /\
    m' = store_session ref (set_replay s w) m /\
    out = mkDecrypted (packet_type hdr) <$> open_protected plain (payload_length hdr).
Proof.
  unfold decrypt_message. cbv zeta. change (Z.to_nat PACKET_HEADER_SIZE) with 16%nat.
  destruct (_ <? _); [intros [= <- <-]; by left|].
  destruct (parse_packet_header (take 16 data)) as [hdr|]; [|intros [= <- <-]; by left].
  destruct (negb _ || _ || _); [intros [= <- <-]; by left|].
  destruct (_ || _); [intros [= <- <-]; by left|].
  destruct (negb _); [intros [= <- <-]; by left|].
  destruct (find_session_by_id_locked _ _) as [[ref s]|] eqn:Ef;
    [|intros [= <- <-]; by left].
  destruct (check_replay _ _) as [[]|] eqn:Ec; [|intros [= <- <-]; by left|done].
  destruct (chacha20_poly1305_decrypt _ _ _ _ _) as [plain|] eqn:Ed;
    [|intros [= <- <-]; by left].
  destruct (update_replay _ _) as [w|] eqn:Eu; [|done]. intros Hout. right.
  exists hdr, ref, s, w, plain. repeat split; try done;
    destruct (open_protected _ _); by simplify_eq/=.
Qed.

Lemma decrypt_step env m data out m' :
  decrypt_message data m = Some (out, m') -> table_step env m m'.
Proof.
  intros [[_ ->]|(hdr & ref & s & w & plain & Hh & Hf & Hc & _ & Hu & -> & _)]%decrypt_cases;
    [apply stay_step|].
  eapply store_session_step; [done|]. split; try done; [by left|]. right.
  exists (sequence_number hdr). split; [|done].
  apply parse_packet_header_inv in Hh as [(? & ? & ? & ? & ? & ? & ?) _]. done.
Qed.

Lemma remove_step env m peer : table_step env m (remove_session peer m).
Proof.
  apply (ts_remove env m _ peer); unfold remove_session, unindex;
    destruct (sessions m !! peer) as [s|] eqn:E; simpl; try done.
  - by rewrite delete_id.
  - etrans; [apply map_filter_subseteq|]. apply delete_subseteq.
  - apply map_filter_subseteq.
  - apply map_filter_subseteq.
  - apply map_filter_subseteq.
Qed.

Lemma mgr_step_table env t0 t1 m m' :
  manager_inv env m -> mgr_step env t0 t1 m m' -> table_step env m m'.
Proof.
  intros Hi []; try by apply shrink_step.
  - apply ts_shrink; try done. apply purge_retired_subset.
  - apply shrink_step; try done. apply purge_incomplete_subset.
  - apply shrink_step; try done. apply map_filter_subseteq.
  - apply remove_step.
  - by apply commit_pending_step.
  - apply shrink_step; try done. apply map_filter_subseteq.
  - apply init_arbitrate_step.
  - by apply init_install_step.
  - by apply resp_step.
  - apply encrypt_step.
  - by eapply decrypt_step.
Qed.

Lemma reachable_inv env m : reachable env m -> manager_inv env m.
Proof.
  induction 1 as [|m t0 t1 m' _ IH Hstep]; [apply manager_inv_init|].
  eapply table_step_inv; [done|]. by eapply mgr_step_table.
Qed.

Lemma create_init_reachable env sid peer key now m r :
  u32 sid -> reachable env m ->
  reachable env (snd (fst (create_handshake_init env sid peer key now m r))).
Proof.
  intros Hu Hm. unfold create_handshake_init.
  destruct (sid =? 0) eqn:E0; [done|]. apply Z.eqb_neq in E0. cbn [orb].
  case_match; [done|]. destruct (make_handshake_v2_prologue _ _); [|done].
  destruct (create_initiator _ _ _ _) as [[hs|] r1]; [|done].
  destruct (write_message _ _ _) as [[written msg] hs1]. case_match; [done|].
  destruct (serialize_handshake_v2_init _); [|done].
  pose proof (step_commit_pending env now now m sid peer key hs1 now ltac:(lia) Hu E0) as Hs.
  destruct (commit_pending _ _ _ _ _ _ _) as [ok m']. by eapply reach_step.
Qed.

(** ** One session over time *)

(** The session an id denotes, active or retired. *)
Definition lookup_id (m : SessionManager) (id : Z) : option SessionState :=
  snd <$> find_session_by_id_locked m id.

Lemma lookup_id_inv env m id s :
  manager_inv env m ->
  lookup_id m id = Some s <->
  (exists p, sessions m !! p = Some s /\ ss_id s = id) \/
  (exists e, retired m !! id = Some (mkRetired s e)).
Proof.
  intros Hi. unfold lookup_id, find_session_by_id_locked, find_session_locked.
  destruct (session_to_peer m !! id) as [p|] eqn:Ex.
  - pose proof (proj1 (inv_index _ _ Hi id p) Ex) as (s1 & Hs1 & Hid1).
    destruct (inv_sessions _ _ Hi _ _ Hs1) as [_ [_ _ Hest _ _]].
    rewrite Hs1, Hest; simpl. split.
    + intros [= <-]. left. eauto.
    + intros [(p' & Hs & Hid)|(e & Hr)].
      * assert (session_to_peer m !! id = Some p') by (apply (inv_index _ _ Hi); eauto).
        congruence.
      * by rewrite (inv_active_retired _ _ Hi _ _ Ex) in Hr.
  - destruct (retired m !! id) as [[s1 e]|] eqn:Er; simpl.
    + destruct (inv_retired _ _ Hi _ _ Er) as [_ [_ _ Hest _ _]]. simpl in Hest.
      rewrite Hest; simpl. split; [intros [= <-]; eauto|].
      intros [(p & Hs & Hid)|(e' & Hr)]; [|congruence].
      assert (session_to_peer m !! id = Some p) by (apply (inv_index _ _ Hi); eauto).
      congruence.
    + split; [done|]. intros [(p & Hs & Hid)|(e' & Hr)]; [|congruence].
      assert (session_to_peer m !! id = Some p) by (apply (inv_index _ _ Hi); eauto).
      congruence.
Qed.

Lemma session_next_refl s : session_next s s.
Proof. split; auto. by left. Qed.

(** A transition that keeps an id bound keeps it bound to the same session: ids
    are not reused while a session is alive, and rekeying retires the old
    session unchanged. *)
Lemma table_step_same_session env m m' id s s' :
  manager_inv env m -> table_step env m m' ->
  lookup_id m id = Some s -> lookup_id m' id = Some s' -> session_next s s'.
Proof.
  intros Hi Hstep. pose proof (table_step_inv _ _ _ Hi Hstep) as Hi'.
  intros Hl Hl'. pose proof Hl as Hl0.
  apply (lookup_id_inv _ _ _ _ Hi) in Hl. apply (lookup_id_inv _ _ _ _ Hi') in Hl'.
  (* a session found under [id] in [m] is [s] *)
  assert (forall p t, sessions m !! p = Some t -> ss_id t = id -> t = s) as Ha.
  { intros p t Ht Hid. enough (lookup_id m id = Some t) by congruence.
    apply (lookup_id_inv env); eauto. }
  assert (forall t e, retired m !! id = Some (mkRetired t e) -> t = s) as Hr.
  { intros t e Ht. enough (lookup_id m id = Some t) by congruence.
    apply (lookup_id_inv env); eauto. }
  destruct Hstep as [Hs Hx Hsub Hp|k q ? Hs Hx Hre|peer Hs Hx Hsub Hp
    |peer k t Hk Hk' Hok Ht Htp Hs Hx Hre Hsz Hcap Hp Hp0|peer t t' Ht Hn Hs Hx Hre Hp
    |k [t e] [t' e'] Ht Hn Hre Hs Hx Hp]; simpl in *;
    rewrite Hs in Hl'; try rewrite Hre in Hl';
    destruct Hl' as [(p & Hp' & Hid)|(e2 & Hr')].
  - rewrite (Ha _ _ Hp' Hid). apply session_next_refl.
  - rewrite (Hr s' e2) by (by eapply lookup_weaken). apply session_next_refl.
  - rewrite (Ha _ _ Hp' Hid). apply session_next_refl.
  - rewrite (Hr _ _ Hr'). apply session_next_refl.
  - apply lookup_delete_Some in Hp' as [_ Hp']. rewrite (Ha _ _ Hp' Hid).
    apply session_next_refl.
  - rewrite (Hr s' e2) by (by eapply lookup_weaken). apply session_next_refl.
  - apply lookup_insert_Some in Hp' as [[<- <-]|[_ Hp']].
    + exfalso. subst. destruct Hl as [(p & Hp' & Hid)|(e & He)]; [|congruence].
      assert (session_to_peer m !! ss_id t = Some p) by (apply (inv_index _ _ Hi); eauto).
      congruence.
    + rewrite (Ha _ _ Hp' Hid). apply session_next_refl.
  - apply Hre in Hr' as [Hr'|(s0 & Hs0 & -> & He)].
    + rewrite (Hr _ _ Hr'). apply session_next_refl.
    + simpl in He. subst s0. rewrite (Ha _ _ Hs0 eq_refl). apply session_next_refl.
  - apply lookup_insert_Some in Hp' as [[<- <-]|[_ Hp']].
    + rewrite <- (Ha _ _ Ht); [done|]. destruct Hn; congruence.
    + rewrite (Ha _ _ Hp' Hid). apply session_next_refl.
  - rewrite (Hr _ _ Hr'). apply session_next_refl.
  - rewrite (Ha _ _ Hp' Hid). apply session_next_refl.
  - apply lookup_insert_Some in Hr' as [[<- [= <- <-]]|[_ Hr']].
    + by rewrite <- (Hr _ _ Ht).
    + rewrite (Hr _ _ Hr'). apply session_next_refl.
Qed.
End steps.

(** C8: In every interleaving of critical sections the table is consistent:
    sessions are filed under their peer, the id index lists exactly the active
    sessions, every session in the table is established with a non-zero 32-bit id
    and a valid replay window, no id denotes two of an active, a retired and a
    pending session, and the capacities hold. *)
Theorem session_table_invariant `{OpenSSL, RandomSource, NoiseC} env m :
  reachable env m -> manager_inv env m.
Proof. apply reachable_inv. Qed.

(** C12: Every critical section of every handler is one transition of the abstract
    session table. *)
Theorem critical_sections_refine_table `{OpenSSL, RandomSource, NoiseC}
    env t0 t1 m m' :
  reachable env m -> mgr_step env t0 t1 m m' -> table_step env m m'.
Proof. intros Hr%reachable_inv. by apply mgr_step_table. Qed.

(** [remove_session] leaves nothing of the peer behind, in any map, and
    leaves the sessions of every other peer as they were. *)
Theorem remove_session_forgets `{OpenSSL, RandomSource, NoiseC} env m peer :
  reachable env m ->
  let m' := remove_session peer m in
  sessions m' !! peer = None /\
  (forall id, session_to_peer m' !! id <> Some peer) /\
  (forall id s, lookup_id m' id = Some s -> ss_peer_id s <> peer) /\
  (forall id p, pending_initiators m' !! id = Some p -> expected_peer_id p <> peer) /\
  (forall p, p <> peer -> sessions m' !! p = sessions m !! p).
Proof.
  intros Hr%reachable_inv. cbv zeta.
  pose proof (table_step_inv _ _ _ Hr (remove_step env m peer)) as Hi'.
  assert (sessions (remove_session peer m) = delete peer (sessions m)) as Hs.
  { unfold remove_session. destruct (sessions m !! peer) eqn:E; simpl; [done|].
    by rewrite delete_id. }
  assert (sessions (remove_session peer m) !! peer = None) as Hn
    by by rewrite Hs, lookup_delete_eq.
  split; [done|]. split; [|split; [|split]].
  - intros id Hx. apply (inv_index _ _ Hi') in Hx as (s & ? & _). congruence.
  - intros id s [(p & Hp & _)|(e & He)]%(lookup_id_inv _ _ _ _ Hi').
    + destruct (inv_sessions _ _ Hi' _ _ Hp) as [-> _]. congruence.
    + unfold remove_session in He. simpl in He.
      by apply map_lookup_filter_Some in He as [_ ?].
  - intros id p Hp. unfold remove_session in Hp. simpl in Hp.
    by apply map_lookup_filter_Some in Hp as [_ ?].
  - intros p Hp. by rewrite Hs, lookup_delete_ne.
Qed.

(** ** Witnesses *)

#[local] Existing Instances toy_openssl toy_random toy_noise.

Definition toy_env : SessionEnv := mkEnv (toy_identity x03) default_limits 64.
Definition toy_keys_split : NoiseIkSplitResult :=
  mkSplit (replicate 32 x09) (zeros 32) (replicate 32 x0a) (replicate 32 x0b).
Definition toy_peer : NodeId := replicate 32 x09.

(** A manager with an active session 7, and one where it was rekeyed to 8. *)
Definition toy_manager : SessionManager :=
  snd (init_install toy_env 7 toy_peer toy_keys_split 10 11 12 manager_init).
Definition toy_rekeyed : SessionManager :=
  snd (init_install toy_env 8 toy_peer toy_keys_split 20 21 22 toy_manager).

Lemma toy_reachable : reachable toy_env toy_rekeyed.
Proof.
  eapply (reach_step _ toy_manager 20 22).
  - eapply (reach_step _ manager_init 10 12); [apply reach_init|].
    apply step_init_install; done.
  - apply step_init_install; done.
Qed.

Lemma session_table_invariant_witness : manager_inv toy_env toy_rekeyed.
Proof. exact (session_table_invariant toy_env toy_rekeyed toy_reachable). Defined.

Lemma critical_sections_refine_table_witness :
  table_step toy_env toy_rekeyed (remove_session toy_peer toy_rekeyed).
Proof.
  exact (critical_sections_refine_table toy_env 30 31 toy_rekeyed _ toy_reachable
    (step_remove toy_env 30 31 toy_rekeyed toy_peer)).
Defined.

Lemma remove_session_forgets_witness :
  sessions toy_rekeyed !! toy_peer <> None /\
  sessions (remove_session toy_peer toy_rekeyed) !! toy_peer = None.
Proof.
  split; [vm_compute; discriminate|].
  exact (proj1 (remove_session_forgets toy_env toy_rekeyed toy_peer toy_reachable)).
Defined.
