(* ===== verification/SessionMsg.v ===== *)
(** * Session messages: confidentiality counters, replay, round trip, size

    Theorems about [encrypt_message] and [decrypt_message] of [Session], over
    arbitrary interleavings where they speak of time. *)

From stdpp Require Import base numbers list gmap option.
From Stdlib Require Import ZArith Lia Bool.
From Stdlib.Strings Require Import Byte.
From S2P Require Import Prelude Wire Packet Replay Crypto Identity HandshakeV2 NoiseIk.
From S2P Require Import Session SessionInv.

Section lives.
Context `{OpenSSL, RandomSource, NoiseC}.

(** [n] critical sections of any threads during which the session [id] stays in
    the table, active or retired. *)
Inductive lives (env : SessionEnv) (id : Z) : nat -> SessionManager -> SessionManager -> Prop :=
  | lives_refl m : lives env id 0 m m
  | lives_step n m m' t0 t1 m'' :
      lives env id n m m' -> mgr_step env t0 t1 m' m'' ->
      is_Some (lookup_id m'' id) -> lives env id (S n) m m''.

Lemma lives_reachable env id n m m' :
  reachable env m -> lives env id n m m' -> reachable env m'.
Proof.
  intros Hr. induction 1 as [|n m m' t0 t1 m'' _ IH Hs _]; [done|].
  eapply reach_step; [by apply IH|done].
Qed.

(** A number the window rejects stays rejected. *)
Lemma window_next_rejects w w' seq :
  (exists sp, replay_rel w sp) -> window_next w w' -> u32 seq ->
  check_replay w seq = Some false -> check_replay w' seq = Some false.
Proof.
  intros [sp Hr] [->|(x & Hx & Hc & Hu)] Hs; [done|].
  rewrite (check_replay_refines w sp) in Hc |- * by done.
  destruct (update_replay_refines w sp x) as (w2 & Hw2 & Hr2); [done..|congruence|].
  assert (w2 = w') as -> by congruence.
  rewrite (check_replay_refines w' _ seq Hr2) by done. intros [= Hf]. f_equal.
  unfold spec_check, spec_update in *; simpl in *.
  apply andb_false_iff in Hf as [Hf|Hf].
  - apply Z.ltb_ge in Hf. apply andb_false_iff. left. apply Z.ltb_ge. lia.
  - apply andb_false_iff. right. apply negb_false_iff, bool_decide_eq_true in Hf.
    apply negb_false_iff, bool_decide_eq_true. set_solver.
Qed.

(** A number that was accepted is rejected from then on. *)
Lemma accepted_then_rejected w w' seq :
  (exists sp, replay_rel w sp) -> u32 seq -> check_replay w seq = Some true ->
  update_replay w seq = Some w' -> check_replay w' seq = Some false.
Proof.
  intros [sp Hr] Hs Hc Hu. rewrite (check_replay_refines w sp) in Hc by done.
  destruct (update_replay_refines w sp seq) as (w2 & Hw2 & Hr2); [done..|congruence|].
  assert (w2 = w') as -> by congruence.
  rewrite (check_replay_refines w' _ seq Hr2) by done. f_equal.
  unfold spec_check, spec_update; simpl. apply andb_false_iff. right.
  apply negb_false_iff, bool_decide_eq_true. set_solver.
Qed.

(** What the life of a session preserves. *)
Lemma lives_session env id n m m' s :
  reachable env m -> lives env id n m m' -> lookup_id m id = Some s ->
  exists s', lookup_id m' id = Some s' /\
    send_key s' = send_key s /\ recv_key s' = recv_key s /\ ss_id s' = ss_id s /\
    (exists k, (k <= n)%nat /\ send_seq s' = wrap 64 (send_seq s + Z.of_nat k)) /\
    (forall seq, u32 seq -> check_replay (replay s) seq = Some false ->
       check_replay (replay s') seq = Some false).
Proof.
  intros Hr Hl Hs. induction Hl as [m|n m m' t0 t1 m'' Hl IH Hstep [s'' Hs'']].
  - exists s. repeat split; auto. exists 0%nat. split; [lia|].
    rewrite Z.add_0_r, wrap_small; [done|].
    apply (lookup_id_inv _ _ _ _ (reachable_inv _ _ Hr)) in Hs
      as [(p & Hp & _)|(e & He)].
    + by destruct (inv_sessions _ _ (reachable_inv _ _ Hr) _ _ Hp) as [_ []].
    + by destruct (inv_retired _ _ (reachable_inv _ _ Hr) _ _ He) as [_ []].
  - destruct IH as (s' & Hs' & Hsk & Hrk & Hid & (k & Hk & Hseq) & Hrej); [done..|].
    pose proof (reachable_inv _ _ (lives_reachable _ _ _ _ _ Hr Hl)) as Hi.
    pose proof (mgr_step_table _ _ _ _ _ Hi Hstep) as Ht.
    destruct (table_step_same_session _ _ _ _ _ _ Hi Ht Hs' Hs'')
      as [Nid Nsk Nrk _ _ Nseq Nwin].
    exists s''. split; [done|]. split; [congruence|]. split; [congruence|].
    split; [congruence|]. split.
    + destruct Nseq as [->| ->]; [exists k; split; [lia|done]|].
      exists (S k). split; [lia|]. rewrite Hseq. unfold wrap.
      rewrite Zplus_mod_idemp_l. f_equal. lia.
    + intros seq Hu Hf. eapply window_next_rejects; [|done..|by apply Hrej].
      apply (lookup_id_inv _ _ _ _ Hi) in Hs' as [(p & Hp & _)|(e & He)].
      * by destruct (inv_sessions _ _ Hi _ _ Hp) as [_ []].
      * by destruct (inv_retired _ _ Hi _ _ He) as [_ []].
Qed.

(** The session a successful lookup by id denotes is in range. *)
Lemma lookup_id_ok env m id s :
  manager_inv env m -> lookup_id m id = Some s -> session_ok s /\ ss_id s = id.
Proof.
  intros Hi [(p & Hp & <-)|(e & He)]%(lookup_id_inv _ _ _ _ Hi).
  - by destruct (inv_sessions _ _ Hi _ _ Hp).
  - by destruct (inv_retired _ _ Hi _ _ He).
Qed.

(** After a packet was accepted, the session of its id rejects its number. *)
Lemma decrypt_records env m data out m' :
  manager_inv env m -> decrypt_message data m = Some (out, m') -> out <> None ->
  exists hdr s', parse_packet_header (take 16 data) = Some hdr /\
    u32 (sequence_number hdr) /\ lookup_id m' (session_id hdr) = Some s' /\
    check_replay (replay s') (sequence_number hdr) = Some false.
Proof.
  intros Hi Hd Hne. pose proof (decrypt_step env _ _ _ _ Hd) as Ht.
  pose proof (table_step_inv _ _ _ Hi Ht) as Hi'.
  apply decrypt_cases in Hd as [[? _]|(hdr & ref & s & w & plain & Hh & Hf & Hc & _ & Hu & -> & _)];
    [done|].
  pose proof (parse_packet_header_inv _ _ Hh) as [(_ & _ & _ & _ & _ & Hseq & _) _].
  assert (lookup_id m (session_id hdr) = Some s) as Hl
    by (unfold lookup_id; by rewrite Hf).
  destruct (lookup_id_ok _ _ _ _ Hi Hl) as [[_ _ _ _ Hw] Hid].
  exists hdr, (set_replay s w). split; [done|]. split; [done|].
  split; [|by eapply accepted_then_rejected].
  apply (lookup_id_inv _ _ _ _ Hi'). apply find_session_by_id_inv in Hf as [_ Hf].
  destruct ref as [peer|id']; simpl.
  - left. exists peer. by rewrite lookup_insert_eq.
  - destruct Hf as (-> & _ & e & He). right. exists e.
    by rewrite lookup_alter_eq, He.
Qed.

(** A packet whose number the session rejects is dropped without effect. *)
Lemma decrypt_rejects data m hdr s :
  parse_packet_header (take 16 data) = Some hdr ->
  lookup_id m (session_id hdr) = Some s ->
  check_replay (replay s) (sequence_number hdr) = Some false ->
  decrypt_message data m = Some (None, m).
Proof.
  intros Hh Hl Hc. unfold decrypt_message. cbv zeta.
  change (Z.to_nat PACKET_HEADER_SIZE) with 16%nat. rewrite Hh.
  unfold lookup_id in Hl. destruct (find_session_by_id_locked _ _) as [[ref s0]|];
    [|done]. simplify_eq/=. rewrite Hc. by repeat case_match.
Qed.

(** The 12 bytes after the header. *)
Definition frame_nonce (frame : list byte) : list byte := take 12 (drop 16 frame).

Lemma bswap32_be id : u32 id -> le_split 4 (bswap32 id) = be_split 4 id.
Proof.
  intros Hu. unfold bswap32, le_split.
  rewrite <- (rev_involutive (be_split 4 id)) at 2. f_equal.
  by apply be_split_combine.
Qed.

Lemma length_message_nonce id seq : length (message_nonce id seq) = 12%nat.
Proof. unfold message_nonce. by rewrite !length_app, !length_le_split. Qed.

(** The nonce determines the 64-bit counter. *)
Lemma message_nonce_inj id a b :
  u64 a -> u64 b -> message_nonce id a = message_nonce id b -> a = b.
Proof.
  intros Ha Hb. unfold message_nonce. cbv zeta. intros Heq%app_inv_head.
  apply app_inj_1 in Heq as [Hhi Hlo]; [|by rewrite !length_le_split].
  assert (forall z, in_width (8 * Z.of_nat 4) (wrap 32 z)) as Hw
    by (intros; by apply (wrap_in_width 32)).
  apply le_split_inj in Hhi; [|done..]. apply le_split_inj in Hlo; [|done..].
  rewrite !Z.shiftr_div_pow2 in Hhi by lia.
  unfold wrap, in_width in *.
  rewrite !(Z.mod_small (_ / _)) in Hhi
    by (split; [apply Z.div_pos; lia|apply Z.div_lt_upper_bound; lia]).
  pose proof (Z.div_mod a (2 ^ 32)). pose proof (Z.div_mod b (2 ^ 32)). lia.
Qed.

(** ** The shape of an encrypted message *)

Definition protected_bytes (bucket : Z) (plaintext padding : list byte) : list byte :=
  be_split 2 (Z.of_nat (length plaintext)) ++ be_split 2 bucket ++ plaintext ++ padding.

Definition message_header (type fl id seq len : Z) : PacketHeader :=
  mkPacketHeader PACKET_VERSION type fl 0 id (wrap 32 seq) len.

Lemma land_ones32 z : wrap 32 (Z.land z 4294967295) = wrap 32 z.
Proof.
  change 4294967295 with (Z.ones 32). rewrite Z.land_ones by lia.
  unfold wrap. by rewrite Z.mod_mod.
Qed.

Lemma write_protected_spec bucket plaintext n :
  is_supported_session_padding_bucket bucket = true ->
  (length plaintext + 4 <= n)%nat -> Z.of_nat (length plaintext) < 65536 ->
  exists w, write_protected bucket plaintext n = Some w /\
    wr_remaining w = (n - (length plaintext + 4))%nat /\
    forall padding, wr_written w ++ padding = protected_bytes bucket plaintext padding.
Proof.
  intros Hb%supported_bucket_cases Hn Hlt. unfold write_protected.
  rewrite !wrap_small by (unfold in_width; lia). rewrite wire_writer_at.
  set (len := Z.of_nat (length plaintext)).
  assert (Emits (write_u16 len &> write_u16 bucket &>
      (if Nat.ltb 0 (length plaintext) then write_bytes plaintext else write_when true))
    (be_split 2 len ++ be_split 2 bucket ++ plaintext)) as He.
  { solve_emits. destruct plaintext; simpl; [apply emits_true|apply emits_bytes]. }
  rewrite emits_ok by (rewrite !length_app, !length_be_split, length_zeros; lia).
  eexists. split; [reflexivity|]. unfold wr_remaining, wr_written, wr_at.
  cbn [wr_bytes wr_offset]. rewrite !app_nil_l. split.
  - rewrite !length_app, length_drop, ?length_app, ?length_be_split, length_zeros. lia.
  - intros padding. rewrite take_app_length. unfold protected_bytes. by rewrite <- !app_assoc.
Qed.

(** The messages a session sends. *)
Definition sendable (env : SessionEnv) (plaintext : list byte) : Prop :=
  is_supported_session_padding_bucket (padding_bucket_size env) = true /\
  Z.of_nat (length plaintext) <= SESSION_MAX_LOGICAL_PAYLOAD_SIZE.

Definition padding_for (env : SessionEnv) (plaintext : list byte) : nat :=
  Z.to_nat (session_padded_plaintext_size (Z.of_nat (length plaintext))
    (padding_bucket_size env)) - (length plaintext + 4).

(** [random_.fill] of the padding. *)
Definition fill_padding (n : nat) (r : rng) : option (list byte) * rng :=
  if Nat.ltb 0 n then rng_fill n r else (Some [], r).

Lemma fill_padding_length n r bs r' :
  fill_padding n r = (Some bs, r') -> length bs = n.
Proof.
  unfold fill_padding. destruct (Nat.ltb_spec 0 n); [apply rng_fill_length|].
  intros [= <- _]. simpl. lia.
Qed.

Definition advance_seq (s : SessionState) : SessionState :=
  mkSession (ss_id s) (send_key s) (recv_key s) (wrap 64 (send_seq s + 1)) (replay s)
    (ss_peer_id s) (established s) (initiated_locally s) (established_at s).

Lemma protected_length env plaintext padding :
  sendable env plaintext -> length padding = padding_for env plaintext ->
  Z.of_nat (length (protected_bytes (padding_bucket_size env) plaintext padding)) =
    session_padded_plaintext_size (Z.of_nat (length plaintext)) (padding_bucket_size env).
Proof.
  intros [Hb Hl] Hp. unfold protected_bytes. rewrite !length_app, !length_be_split, Hp.
  unfold padding_for.
  destruct (padded_size_spec (Z.of_nat (length plaintext)) (padding_bucket_size env) Hb)
    as (_ & ? & _ & _); lia.
Qed.

(** [encrypt_message] as one equation. *)
Lemma encrypt_message_eq env peer type plaintext fl m r :
  encrypt_message env peer type plaintext fl m r =
  if decide (sendable env plaintext) then
    match find_session_locked m peer with
    | None => (None, m, r)
    | Some s =>
        match fill_padding (padding_for env plaintext) r with
        | (None, r) => (None, m, r)
        | (Some padding, r) =>
            let prot := protected_bytes (padding_bucket_size env) plaintext padding in
            let hdr := header_bytes (message_header type fl (ss_id s) (send_seq s)
                         (Z.of_nat (length prot))) in
            let nonce := message_nonce (ss_id s) (send_seq s) in
            (match evp_chacha_seal (send_key s) nonce prot hdr with
             | Some (ct, tag) => Some (hdr ++ nonce ++ ct ++ tag)
             | None => None
             end, set_sessions (insert peer (advance_seq s)) m, r)
        end
    end
  else (None, m, r).
Proof.
  unfold encrypt_message. cbv zeta.
  destruct (decide (sendable env plaintext)) as [Hok|Hno].
  - pose proof Hok as [Hb Hl]. rewrite Hb; cbn [negb orb].
    unfold SESSION_MAX_LOGICAL_PAYLOAD_SIZE in Hl.
    destruct (Z.ltb_spec SESSION_MAX_LOGICAL_PAYLOAD_SIZE (Z.of_nat (length plaintext)))
      as [Hlt|_]; [unfold SESSION_MAX_LOGICAL_PAYLOAD_SIZE in Hlt; lia|].
    destruct (Z.ltb_spec (2 ^ 32 - 1) (Z.of_nat (length plaintext))) as [Hlt|_];
      [unfold SESSION_MAX_PAYLOAD_SIZE, SESSION_LENGTH_PREFIX_SIZE in Hl; lia|].
    destruct (padded_size_spec (Z.of_nat (length plaintext)) (padding_bucket_size env) Hb)
      as (_ & Hsz & _ & Hmax); [unfold SESSION_MAX_LOGICAL_PAYLOAD_SIZE; lia|].
    destruct (Z.ltb_spec SESSION_MAX_PAYLOAD_SIZE (session_padded_plaintext_size
      (Z.of_nat (length plaintext)) (padding_bucket_size env))) as [Hlt|_]; [lia|].
    destruct (write_protected_spec (padding_bucket_size env) plaintext
      (Z.to_nat (session_padded_plaintext_size (Z.of_nat (length plaintext))
        (padding_bucket_size env)))) as (w & -> & -> & Hw); [done|lia|
      unfold SESSION_MAX_PAYLOAD_SIZE in *; lia|]. cbn [orb].
    destruct (find_session_locked m peer) as [s|]; [|done].
    change (if Nat.ltb 0 _ then _ else _) with (fill_padding (padding_for env plaintext) r).
    destruct (fill_padding (padding_for env plaintext) r) as [[padding|] r'] eqn:Ef; [|done].
    apply fill_padding_length in Ef. rewrite Hw, serialize_packet_header_bytes.
    pose proof (protected_length env plaintext padding Hok Ef) as Hpl.
    rewrite land_ones32, (wrap_small 32 (Z.of_nat (length _)))
      by (unfold in_width, SESSION_MAX_PAYLOAD_SIZE in *; lia).
    unfold chacha20_poly1305_encrypt, message_header.
    by destruct (evp_chacha_seal _ _ _ _) as [[ct tag]|].
  - destruct (is_supported_session_padding_bucket (padding_bucket_size env)) eqn:Hb;
      cbn [negb orb]; [|done].
    destruct (Z.ltb_spec SESSION_MAX_LOGICAL_PAYLOAD_SIZE (Z.of_nat (length plaintext)));
      [done|]. exfalso. apply Hno. split; [done|lia].
Qed.

(** ** Opening what was sealed *)

Lemma open_protected_ok env plaintext padding :
  sendable env plaintext -> length padding = padding_for env plaintext ->
  let prot := protected_bytes (padding_bucket_size env) plaintext padding in
  open_protected prot (Z.of_nat (length prot)) = Some plaintext.
Proof.
  intros Hok Hp. cbv zeta. rewrite (protected_length env plaintext padding Hok Hp).
  destruct Hok as [Hb Hl]. unfold open_protected, protected_bytes. rewrite wire_reader_at.
  pose proof (supported_bucket_cases _ Hb) as Hc.
  assert (Z.of_nat (length plaintext) <= 4092) by exact Hl.
  rewrite (reads_ok (f := read_u16)) by (unfold in_width; lia).
  rewrite (reads_ok (f := read_u16)) by (unfold in_width; lia).
  rewrite Hb, Z.eqb_refl; cbn [negb orb].
  destruct (Z.ltb_spec SESSION_MAX_LOGICAL_PAYLOAD_SIZE (Z.of_nat (length plaintext)));
    [lia|]. cbn [orb]. rewrite Nat2Z.id, read_bytes_ok by done.
  rewrite rd_remaining_at. rewrite <- (app_nil_r padding) at 2.
  by rewrite read_bytes_ok, rd_finished_at.
Qed.

Lemma take_drop_frame {A} (a b c d : list A) :
  take (length a) (a ++ b ++ c ++ d) = a /\
  take (length b) (drop (length a) (a ++ b ++ c ++ d)) = b /\
  take (length c) (drop (length a + length b) (a ++ b ++ c ++ d)) = c /\
  take (length d) (drop (length a + length b + length c) (a ++ b ++ c ++ d)) = d.
Proof.
  rewrite <- !drop_drop, take_app_length, drop_app_length, take_app_length,
    drop_app_length, take_app_length, drop_app_length. by rewrite take_ge.
Qed.

(** The flags and type a caller of [encrypt_message] passes. *)
Definition valid_kind (type fl : Z) : Prop :=
  u8 type /\ u8 fl /\ Z.land fl (wrap 8 (Z.lnot PACKET_KNOWN_FLAGS)) = 0.

Lemma message_header_wf type fl id seq len :
  u8 type -> u8 fl -> u32 id -> u32 len -> header_wf (message_header type fl id seq len).
Proof.
  intros. unfold header_wf, message_header; simpl.
  split_and!; try done. by apply (wrap_in_width 32).
Qed.

(** [decrypt_message] on a frame whose header, session and number are in order. *)
Lemma decrypt_frame m hdr nonce ct tag ref s :
  header_wf hdr -> version hdr = PACKET_VERSION -> reserved hdr = 0 ->
  Z.land (flags hdr) (wrap 8 (Z.lnot PACKET_KNOWN_FLAGS)) = 0 ->
  SESSION_PADDING_BUCKET_MIN <= payload_length hdr <= SESSION_MAX_PAYLOAD_SIZE ->
  length nonce = 12%nat -> Z.of_nat (length ct) = payload_length hdr ->
  length tag = 16%nat ->
  find_session_by_id_locked m (session_id hdr) = Some (ref, s) ->
  check_replay (replay s) (sequence_number hdr) = Some true ->
  decrypt_message (header_bytes hdr ++ nonce ++ ct ++ tag) m =
    match evp_chacha_open (recv_key s) nonce ct tag (header_bytes hdr) with
    | None => Some (None, m)
    | Some plain =>
        match update_replay (replay s) (sequence_number hdr) with
        | None => None
        | Some w => Some (mkDecrypted (packet_type hdr) <$>
                            open_protected plain (payload_length hdr),
                          store_session ref (set_replay s w) m)
        end
    end.
Proof.
  intros Hwf Hv Hres Hfl Hlen Hn Hct Htag Hf Hc.
  destruct (take_drop_frame (header_bytes hdr) nonce ct tag) as (T1 & T2 & T3 & T4).
  rewrite length_header_bytes, Hn, Htag in *.
  unfold decrypt_message. cbv zeta.
  unfold SESSION_PADDING_BUCKET_MIN, SESSION_MAX_PAYLOAD_SIZE in *.
  change (Z.to_nat PACKET_HEADER_SIZE) with 16%nat.
  rewrite !length_app, length_header_bytes, Hn, Htag.
  destruct (Z.ltb_spec (Z.of_nat (16 + (12 + (length ct + 16)))) (16 + 12 + 32 + 16));
    [lia|].
  rewrite T1, (parse_packet_header_ok hdr Hwf), Hv, Hres, Hfl, !Z.eqb_refl. cbn [negb orb].
  destruct (Z.ltb_spec (payload_length hdr) 32); [lia|].
  destruct (Z.ltb_spec 4096 (payload_length hdr)); [lia|]. cbn [orb].
  destruct (Z.eqb_spec (16 + 12 + payload_length hdr + 16)
    (Z.of_nat (16 + (12 + (length ct + 16))))); [|lia]. cbn [negb].
  rewrite Hf, Hc, T2. replace (Z.to_nat (payload_length hdr)) with (length ct) by lia.
  change 28%nat with (16 + 12)%nat. rewrite T3, T4.
  unfold chacha20_poly1305_decrypt.
  destruct (evp_chacha_open _ _ _ _ _); [|done].
  destruct (update_replay _ _); [|done]. by destruct (open_protected _ _).
Qed.

Lemma find_session_lookup m p s :
  find_session_locked m p = Some s -> sessions m !! p = Some s.
Proof. unfold find_session_locked. intros. repeat case_match; by simplify_eq. Qed.

(** A successful encryption: the counter advances, and the nonce is the one of
    the counter before. *)
Lemma encrypt_result env peer type p fl m r s f m' r' :
  find_session_locked m peer = Some s ->
  encrypt_message env peer type p fl m r = (Some f, m', r') ->
  m' = set_sessions (insert peer (advance_seq s)) m /\
  frame_nonce f = message_nonce (ss_id s) (send_seq s).
Proof.
  intros Hf. rewrite encrypt_message_eq, Hf.
  case_decide; [|done]. destruct (fill_padding _ r) as [[pad|] ?]; [|done].
  cbv zeta. destruct (evp_chacha_seal _ _ _ _) as [[ct tag]|]; [|done].
  intros [= <- <- <-]. split; [done|]. unfold frame_nonce.
  destruct (take_drop_frame (header_bytes (message_header type fl (ss_id s) (send_seq s)
    (Z.of_nat (length (protected_bytes (padding_bucket_size env) p pad)))))
    (message_nonce (ss_id s) (send_seq s)) ct tag) as (_ & T & _).
  by rewrite length_header_bytes, length_message_nonce in T.
Qed.
End lives.

(** C5: At-most-once delivery: once a packet was delivered, every later packet
    that names the same session and sequence number is dropped without any
    effect, whatever all threads do in between, for as long as the session is in
    the table (active or retired by a rekey). *)
Theorem packet_delivered_at_most_once `{OpenSSL, RandomSource, NoiseC}
    env m data d m1 n m2 data' hdr hdr' :
  reachable env m -> decrypt_message data m = Some (Some d, m1) ->
  parse_packet_header (take 16 data) = Some hdr ->
  lives env (session_id hdr) n m1 m2 ->
  parse_packet_header (take 16 data') = Some hdr' ->
  session_id hdr' = session_id hdr -> sequence_number hdr' = sequence_number hdr ->
  decrypt_message data' m2 = Some (None, m2).
Proof.
  intros Hr Hd Hh Hl Hh' Hsid Hseq.
  destruct (decrypt_records env m data (Some d) m1) as (hdr1 & s1 & Hh1 & Hu & Hs1 & Hrej);
    [by apply reachable_inv|done..|].
  assert (hdr1 = hdr) as -> by congruence.
  assert (reachable env m1) as Hr1
    by (eapply (reach_step env m 0 0); [done|by eapply step_decrypt]).
  destruct (lives_session env (session_id hdr) n m1 m2 s1) as (s2 & Hs2 & _ & _ & _ & _ & Hrej2); [done..|].
  apply (decrypt_rejects _ _ hdr' s2); [done|by rewrite Hsid|].
  rewrite Hseq. by apply Hrej2.
Qed.

(** C14: Nonces are never reused: two messages encrypted under the same session,
    with any interleaving of up to 2^64 - 2 critical sections between them, carry
    different nonces (and the same key). *)
Theorem session_nonces_unique `{OpenSSL, RandomSource, NoiseC}
    env m1 peer s1 type1 p1 fl1 r1 f1 m1' r1' n m2 peer2 s2 type2 p2 fl2 r2 f2 m2' r2' :
  reachable env m1 -> find_session_locked m1 peer = Some s1 ->
  encrypt_message env peer type1 p1 fl1 m1 r1 = (Some f1, m1', r1') ->
  lives env (ss_id s1) n m1' m2 -> Z.of_nat n < 2 ^ 64 - 1 ->
  find_session_locked m2 peer2 = Some s2 -> ss_id s2 = ss_id s1 ->
  encrypt_message env peer2 type2 p2 fl2 m2 r2 = (Some f2, m2', r2') ->
  send_key s2 = send_key s1 /\ frame_nonce f1 <> frame_nonce f2.
Proof.
  intros Hr Hf1 He1 Hl Hn Hf2 Hid He2.
  destruct (encrypt_result _ _ _ _ _ _ _ _ _ _ _ Hf1 He1) as [-> ->].
  destruct (encrypt_result _ _ _ _ _ _ _ _ _ _ _ Hf2 He2) as [_ ->].
  set (m1' := set_sessions _ m1) in *.
  assert (reachable env m1') as Hr1.
  { apply (reach_step env m1 0 0); [done|].
    pose proof (step_encrypt env 0 0 m1 peer type1 p1 fl1 r1) as Hstep.
    by rewrite He1 in Hstep. }
  pose proof (reachable_inv _ _ Hr) as Hi. pose proof (reachable_inv _ _ Hr1) as Hi1.
  destruct (inv_sessions _ _ Hi _ _ (find_session_lookup _ _ _ Hf1)) as [_ [_ _ _ Hseq _]].
  destruct (lives_session env (ss_id s1) n m1' m2 (advance_seq s1))
    as (s2' & Hs2' & Hk & _ & _ & (k & Hk' & Hseq2) & _); [done..| |].
  { apply (lookup_id_inv env); [done|]. left. exists peer. simpl.
    by rewrite lookup_insert_eq. }
  assert (s2' = s2) as ->.
  { pose proof (reachable_inv _ _ (lives_reachable _ _ _ _ _ Hr1 Hl)) as Hi2.
    enough (lookup_id m2 (ss_id s1) = Some s2) by congruence.
    apply (lookup_id_inv env); [done|]. left. eauto using find_session_lookup. }
  split; [done|]. rewrite Hid. intros Heq%message_nonce_inj; [|done|].
  - simpl in Hseq2. rewrite Hseq2 in Heq. unfold wrap, in_width in *.
    rewrite Zplus_mod_idemp_l in Heq.
    destruct (decide (send_seq s1 + 1 + Z.of_nat k < 2 ^ 64)).
    + rewrite Z.mod_small in Heq; lia.
    + rewrite <- (Z_mod_plus_full _ (-1)), Z.mod_small in Heq; lia.
  - rewrite Hseq2. apply wrap_in_width. lia.
Qed.

(** A frame a sender encrypts opens at a receiver that has a session of that id with the
    matching key and whose window accepts the number: the message comes out, and only the
    window of that session changes. *)
Lemma sealed_frame_opens `{OpenSSL, RandomSource, NoiseC, !AeadLaws}
    env env' m m' peer s s' type p fl r f m1 r1 :
  reachable env m -> reachable env' m' -> valid_kind type fl ->
  find_session_locked m peer = Some s ->
  encrypt_message env peer type p fl m r = (Some f, m1, r1) ->
  lookup_id m' (ss_id s) = Some s' -> recv_key s' = send_key s ->
  check_replay (replay s') (wrap 32 (send_seq s)) = Some true ->
  exists ref w len, u32 len /\
    take 16 f = header_bytes (message_header type fl (ss_id s) (send_seq s) len) /\
    u32 (ss_id s) /\
    find_session_by_id_locked m' (ss_id s) = Some (ref, s') /\
    decrypt_message f m' =
      Some (Some (mkDecrypted type p), store_session ref (set_replay s' w) m').
Proof.
  intros Hr Hr' (Ht & Hfl & Hland) Hf. rewrite encrypt_message_eq, Hf.
  destruct (decide (sendable env p)) as [Hok|]; [|done].
  destruct (fill_padding _ r) as [[pad|] r2] eqn:Ep; [|done].
  apply fill_padding_length in Ep. cbv zeta.
  destruct (evp_chacha_seal _ _ _ _) as [[ct tag]|] eqn:Es; [|done].
  rewrite !pair_eq. intros [[Hfr%(inj Some) _] _] Hl Hk Hc. subst f.
  destruct (seal_lengths _ _ _ _ _ _ Es) as [Hct Htag]. apply open_seal in Es.
  pose proof (reachable_inv _ _ Hr) as Hi.
  destruct (inv_sessions _ _ Hi _ _ (find_session_lookup _ _ _ Hf)) as [_ [Hid _ _ _ _]].
  destruct (lookup_id_ok _ _ _ _ (reachable_inv _ _ Hr') Hl) as [[_ _ _ _ [sp Hsp]] _].
  pose proof (protected_length env p pad Hok Ep) as Hpl.
  destruct (padded_size_spec (Z.of_nat (length p)) (padding_bucket_size env))
    as (_ & _ & Hmin & Hmax); [apply Hok|split; [lia|apply Hok]|].
  pose proof (supported_bucket_cases _ (proj1 Hok)) as Hb.
  destruct (find_session_by_id_locked m' (ss_id s)) as [[ref s0]|] eqn:Ef;
    unfold lookup_id in Hl; rewrite Ef in Hl; [|done].
  change (Some s0 = Some s') in Hl. apply (inj Some) in Hl as ->.
  destruct (update_replay_refines (replay s') sp (wrap 32 (send_seq s))) as (w & Hw & _).
  { done. } { by apply (wrap_in_width 32). }
  { rewrite (check_replay_refines _ sp) in Hc; [congruence|done|].
    by apply (wrap_in_width 32). }
  set (prot := protected_bytes (padding_bucket_size env) p pad) in *.
  set (hdr := message_header type fl (ss_id s) (send_seq s) (Z.of_nat (length prot))) in *.
  assert (header_wf hdr) as Hwf.
  { apply message_header_wf; try assumption.
    unfold in_width. unfold SESSION_MAX_PAYLOAD_SIZE in Hmax. lia. }
  assert (SESSION_PADDING_BUCKET_MIN <= payload_length hdr <= SESSION_MAX_PAYLOAD_SIZE)
    as Hlen by (change (payload_length hdr) with (Z.of_nat (length prot));
                unfold SESSION_PADDING_BUCKET_MIN; lia).
  assert (Z.of_nat (length ct) = payload_length hdr) as Hct' by (by rewrite Hct).
  rewrite (decrypt_frame m' hdr _ ct tag ref s' Hwf eq_refl eq_refl Hland Hlen
    (length_message_nonce _ _) Hct' Htag Ef Hc), Hk, Es.
  change (sequence_number hdr) with (wrap 32 (send_seq s)). rewrite Hw.
  change (payload_length hdr) with (Z.of_nat (length prot)).
  exists ref, w, (Z.of_nat (length prot)). split_and!; [| |done|done|].
  - unfold in_width, SESSION_MAX_PAYLOAD_SIZE in *. lia.
  - rewrite take_app_length'; [done|]. by rewrite length_header_bytes.
  - unfold prot. by rewrite (open_protected_ok env) by assumption.
Qed.

(** Round trip: a message a sender encrypts is delivered by the receiver with
    its type and payload, when the receiver has a session of that id with the
    matching key and its window accepts the number. *)
Theorem session_round_trip `{OpenSSL, RandomSource, NoiseC, !AeadLaws}
    env env' m m' peer s s' type p fl r f m1 r1 :
  reachable env m -> reachable env' m' -> valid_kind type fl ->
  find_session_locked m peer = Some s ->
  encrypt_message env peer type p fl m r = (Some f, m1, r1) ->
  lookup_id m' (ss_id s) = Some s' -> recv_key s' = send_key s ->
  check_replay (replay s') (wrap 32 (send_seq s)) = Some true ->
  exists m1', decrypt_message f m' = Some (Some (mkDecrypted type p), m1').
Proof.
  intros Hr Hr' Hk Hf He Hl Hkey Hc.
  destruct (sealed_frame_opens env env' m m' peer s s' type p fl r f m1 r1)
    as (ref & w & len & _ & _ & _ & _ & Hd); try done. by eexists.
Qed.

(** A packet that does not authenticate changes nothing: either the manager
    is left as it was, or the packet opened under the receive key of the session
    named in its header, and then only that session's replay window changed. *)
Theorem unauthenticated_packet_is_ignored `{OpenSSL, RandomSource, NoiseC}
    data m out m' :
  decrypt_message data m = Some (out, m') ->
  m' = m \/
  exists hdr ref s w, parse_packet_header (take 16 data) = Some hdr /\
    find_session_by_id_locked m (session_id hdr) = Some (ref, s) /\
    chacha20_poly1305_decrypt (recv_key s) (frame_nonce data)
      (take (Z.to_nat (payload_length hdr)) (drop 28 data))
      (take 16 (drop (28 + Z.to_nat (payload_length hdr)) data)) (take 16 data) <> None /\
    m' = store_session ref (set_replay s w) m.
Proof.
  intros [[_ ->]|(hdr & ref & s & w & plain & ? & ? & _ & Hd & _ & -> & _)]%decrypt_cases;
    [by left|].
  right. exists hdr, ref, s, w. unfold frame_nonce. rewrite Hd. done.
Qed.

(** [decrypt_message] never throws: on every byte string and in every
    reachable state the accesses to the replay bitset are in range. *)
Theorem decrypt_never_throws `{OpenSSL, RandomSource, NoiseC} env m data :
  reachable env m -> exists out m', decrypt_message data m = Some (out, m').
Proof.
  intros Hi%reachable_inv. unfold decrypt_message. cbv zeta.
  change (Z.to_nat PACKET_HEADER_SIZE) with 16%nat.
  destruct (_ <? _); [by do 2 eexists|].
  destruct (parse_packet_header (take 16 data)) as [hdr|] eqn:Eh; [|by do 2 eexists].
  apply parse_packet_header_inv in Eh as [(_ & _ & _ & _ & _ & Hseq & _) _].
  do 3 (case_match; [by do 2 eexists|]).
  destruct (find_session_by_id_locked m _) as [[ref s]|] eqn:Ef; [|by do 2 eexists].
  destruct (lookup_id_ok env m (session_id hdr) s) as [[_ _ _ _ [sp Hsp]] _];
    [done|unfold lookup_id; by rewrite Ef|].
  rewrite (check_replay_refines _ sp) by done.
  destruct (spec_check sp _) eqn:Ec; [|by do 2 eexists].
  destruct (update_replay_refines (replay s) sp (sequence_number hdr))
    as (w & -> & _); [done..|].
  repeat case_match; by do 2 eexists.
Qed.

(** The size of an encrypted message on the wire. *)
Lemma frame_length `{OpenSSL, RandomSource, NoiseC, !AeadLaws} env peer type p fl m r f m1 r1 :
  encrypt_message env peer type p fl m r = (Some f, m1, r1) ->
  sendable env p /\
  Z.of_nat (length f) = 44 + session_padded_plaintext_size (Z.of_nat (length p))
                               (padding_bucket_size env).
Proof.
  rewrite encrypt_message_eq. case_decide as Hok; [|done].
  destruct (find_session_locked m peer) as [s|]; [|done].
  destruct (fill_padding _ r) as [[pad|] r2] eqn:Ep; [|done].
  apply fill_padding_length in Ep. cbv zeta.
  destruct (evp_chacha_seal _ _ _ _) as [[ct tag]|] eqn:Es; [|done].
  rewrite !pair_eq. intros [[Hfr%(inj Some) _] _]. subst f.
  destruct (seal_lengths _ _ _ _ _ _ Es) as [Hct Htag].
  split; [done|]. rewrite <- (protected_length env p pad Hok Ep).
  rewrite !length_app, length_header_bytes, length_message_nonce, Hct, Htag. lia.
Qed.

(** ** Witnesses *)

#[local] Existing Instances toy_openssl toy_random toy_noise toy_aead_laws.

(** The other end of session 7 of [toy_manager]. *)
Definition toy_keys_mirror : NoiseIkSplitResult :=
  mkSplit (replicate 32 x08) (zeros 32) (replicate 32 x0b) (replicate 32 x0a).
Definition toy_receiver : SessionManager :=
  snd (init_install toy_env 7 toy_peer toy_keys_mirror 10 11 12 manager_init).

Definition toy_text : list byte := [x68; x65; x6c; x6c; x6f].

Definition toy_seed : @rng toy_random := 9.

Definition toy_sent : option (list byte) * SessionManager * rng :=
  encrypt_message toy_env toy_peer TYPE_DATA toy_text 0 toy_manager toy_seed.
Definition toy_frame : list byte := default [] (fst (fst toy_sent)).
Definition toy_header : PacketHeader := message_header TYPE_DATA 0 7 0 64.
Definition toy_received : SessionManager :=
  default manager_init (snd <$> decrypt_message toy_frame toy_receiver).

Lemma toy_manager_reachable : reachable toy_env toy_manager.
Proof.
  eapply (reach_step _ manager_init 10 12); [apply reach_init|].
  apply step_init_install; done.
Qed.

Lemma toy_receiver_reachable : reachable toy_env toy_receiver.
Proof.
  eapply (reach_step _ manager_init 10 12); [apply reach_init|].
  apply step_init_install; done.
Qed.

Lemma packet_delivered_at_most_once_witness :
  decrypt_message toy_frame toy_receiver =
    Some (Some (mkDecrypted TYPE_DATA toy_text), toy_received) /\
  decrypt_message toy_frame (purge_retired 20 toy_received) =
    Some (None, purge_retired 20 toy_received).
Proof.
  assert (decrypt_message toy_frame toy_receiver =
    Some (Some (mkDecrypted TYPE_DATA toy_text), toy_received)) as Hd
    by (apply run_fst; vm_compute; reflexivity).
  split; [exact Hd|].
  apply (packet_delivered_at_most_once toy_env toy_receiver toy_frame
    (mkDecrypted TYPE_DATA toy_text) toy_received 1 _ toy_frame toy_header toy_header
    toy_receiver_reachable Hd).
  - vm_compute. reflexivity.
  - apply (lives_step toy_env 7 0 toy_received toy_received 20 20).
    + apply lives_refl.
    + apply step_purge_retired. lia.
    + vm_compute. eexists. reflexivity.
  - vm_compute. reflexivity.
  - reflexivity.
  - reflexivity.
Defined.

Definition toy_session (m : SessionManager) : SessionState :=
  default new_session_state (find_session_locked m toy_peer).

Lemma session_nonces_unique_witness :
  frame_nonce toy_frame <>
  frame_nonce (default [] (fst (fst
    (encrypt_message toy_env toy_peer TYPE_DATA toy_text 0 (snd (fst toy_sent)) toy_seed)))).
Proof.
  set (again := encrypt_message toy_env toy_peer TYPE_DATA toy_text 0 (snd (fst toy_sent)) toy_seed).
  refine (proj2 (session_nonces_unique toy_env toy_manager toy_peer
    (toy_session toy_manager) TYPE_DATA toy_text 0 toy_seed toy_frame (snd (fst toy_sent))
    (snd toy_sent) 0 (snd (fst toy_sent)) toy_peer (toy_session (snd (fst toy_sent)))
    TYPE_DATA toy_text 0 toy_seed (default [] (fst (fst again))) (snd (fst again)) (snd again)
    toy_manager_reachable _ _ _ _ _ _ _)).
  - vm_compute. reflexivity.
  - apply run_fst3. vm_compute. reflexivity.
  - apply lives_refl.
  - lia.
  - vm_compute. reflexivity.
  - vm_compute. reflexivity.
  - apply run_fst3. vm_compute. reflexivity.
Defined.

Lemma session_round_trip_witness :
  exists m', decrypt_message toy_frame toy_receiver =
    Some (Some (mkDecrypted TYPE_DATA toy_text), m').
Proof.
  apply (session_round_trip toy_env toy_env toy_manager toy_receiver toy_peer
    (toy_session toy_manager) (toy_session toy_receiver) TYPE_DATA toy_text 0 toy_seed toy_frame
    (snd (fst toy_sent)) (snd toy_sent) toy_manager_reachable toy_receiver_reachable).
  - vm_compute. repeat split; discriminate.
  - vm_compute. reflexivity.
  - apply run_fst3. vm_compute. reflexivity.
  - vm_compute. reflexivity.
  - vm_compute. reflexivity.
  - vm_compute. reflexivity.
Defined.

(** A frame with one flipped bit in its tag. *)
Definition toy_forged : list byte := alter (λ b, bxor b 1) 107%nat toy_frame.

Lemma unauthenticated_packet_is_ignored_witness :
  toy_forged <> toy_frame /\
  (let m' := default manager_init (snd <$> decrypt_message toy_forged toy_receiver) in
   m' = toy_receiver \/
   exists hdr ref s w, parse_packet_header (take 16 toy_forged) = Some hdr /\
    find_session_by_id_locked toy_receiver (session_id hdr) = Some (ref, s) /\
    chacha20_poly1305_decrypt (recv_key s) (frame_nonce toy_forged)
      (take (Z.to_nat (payload_length hdr)) (drop 28 toy_forged))
      (take 16 (drop (28 + Z.to_nat (payload_length hdr)) toy_forged))
      (take 16 toy_forged) <> None /\
    m' = store_session ref (set_replay s w) toy_receiver).
Proof.
  split; [vm_compute; discriminate|].
  apply (unauthenticated_packet_is_ignored toy_forged toy_receiver None).
  apply run_fst. vm_compute. reflexivity.
Defined.

Lemma decrypt_never_throws_witness :
  exists out m', decrypt_message toy_frame toy_receiver = Some (out, m').
Proof. exact (decrypt_never_throws toy_env toy_receiver toy_frame toy_receiver_reachable). Defined.
