(* ===== verification/SessionHandshake.v ===== *)
(** * Handshakes between two managers

    [create_handshake_init], [handle_handshake_init] and [handle_handshake_resp]
    of two [SessionManager]s run against each other: agreement on keys and
    identities, resolution of simultaneous opens, and refusal of replayed INITs.
    Noise-C is assumed to implement the IK pattern ([NoiseLaws]). *)

From stdpp Require Import base numbers list gmap option.
From Stdlib Require Import ZArith Lia Bool.
From Stdlib.Strings Require Import Byte.
From S2P Require Import Prelude Wire Packet Replay Crypto Identity HandshakeV2 NoiseIk.
From S2P Require Import Session SessionInv.

Section handshake.
Context `{OpenSSL, RandomSource, NoiseC, !NoiseLaws}.

(** A manager whose identity belongs to the static private key [k]. *)
Record party (env : SessionEnv) (k : Key) : Prop := {
  party_key : private_key (keypair (identity env)) = k;
  party_key32 : is32 k;
  party_node : node_id (identity env) = hash_public_key (dh_public k);
  party_net : is32 (network_id (identity env));
}.

Lemma all_zero_is32 bs : is32 bs -> all_zero bs = true -> bs = zero32.
Proof.
  unfold all_zero. rewrite forallb_forall. intros Hl E. unfold zero32, zeros. symmetry.
  apply replicate_as_Forall. split; [done|]. apply Forall_forall. intros b Hb.
  specialize (E b Hb). apply Z.eqb_eq in E. apply bval_inj. by rewrite E.
Qed.

Lemma dh_public_not_zero k : is32 k -> all_zero (dh_public k) = false.
Proof.
  intros Hk. destruct (dh_public_valid k Hk) as [Hl Hnz].
  destruct (all_zero (dh_public k)) eqn:E; [|done]. by apply all_zero_is32 in E.
Qed.

(** ** The initiator's first message *)

(** The Noise state and message an initiator with key [k] has produced for the
    responder key [rs], session [sid] and network [net]. *)
Definition first_message (k rs net : list byte) (sid : Z) (hs : NoiseHandshakeState)
    (noise : list byte) : Prop :=
  exists prologue e si,
    make_handshake_v2_prologue net sid = Some prologue /\
    ik_start NOISE_ROLE_INITIATOR k (Some rs) prologue e = Some si /\
    noise_handshakestate_write_message si 96 None = (NOISE_ERROR_NONE, noise, hs).

Lemma create_init_inv env sid peer rs now m r msg m' r' :
  create_handshake_init env sid peer rs now m r = (Some msg, m', r') ->
  exists hs noise,
    first_message (private_key (keypair (identity env))) rs (network_id (identity env))
      sid hs noise /\
    serialize_handshake_v2_init (mkInitFrame sid (network_id (identity env)) noise) =
      Some msg /\
    commit_pending env sid peer rs (mkHandshake (Some hs)) now m = (true, m').
Proof.
  unfold create_handshake_init.
  destruct (_ || _ || _); [done|].
  destruct (make_handshake_v2_prologue _ sid) as [prologue|] eqn:Ep; [|done].
  destruct (create_initiator _ rs prologue r) as [[h|] r1] eqn:Ec; [|done].
  apply create_started in Ec as (e & _ & si & Hsi & Hh). unfold write_message.
  rewrite Hh. change (Nat.eqb HANDSHAKE_V2_INIT_NOISE_SIZE 0) with false. cbv iota.
  change HANDSHAKE_V2_INIT_NOISE_SIZE with 96%nat.
  destruct (noise_handshakestate_write_message si 96 None) as [[err noise] hs] eqn:Ew.
  destruct err; try done. cbn [op_ok op_error op_bytes].
  destruct (_ || _); [done|].
  destruct (serialize_handshake_v2_init _) as [encoded|] eqn:Es; [|done].
  destruct (commit_pending _ _ _ _ _ _ _) as [[] m1] eqn:Ecp; [|done].
  intros [= <- <- <-]. exists hs, noise. split; [|done]. by exists prologue, e, si.
Qed.

Lemma created_reachable env sid peer rs now m r msg m' r' :
  create_handshake_init env sid peer rs now m r = (Some msg, m', r') ->
  reachable env m -> u32 sid -> reachable env m'.
Proof.
  intros Hc Hr Hu. pose proof Hc as Hc0.
  apply create_init_inv in Hc as (hs & noise & (? & ? & ? & Hp & _) & _ & Hcp).
  assert (sid <> 0) as Hn.
  { intros ->. by rewrite make_prologue_bytes, decide_False in Hp by tauto. }
  apply (reach_step env m now now); [done|].
  replace m' with (snd (commit_pending env sid peer rs (mkHandshake (Some hs)) now m))
    by by rewrite Hcp.
  apply step_commit_pending; [lia|done..].
Qed.

(** ** The responder *)

(** What [handle_handshake_init] does with a first message made for this
    responder, and what its answer does to the initiator's Noise state. *)
Lemma respond_to_init envA envB ka kb sid hs noise msg r e r' :
  party envA ka -> party envB kb ->
  network_id (identity envA) = network_id (identity envB) -> u32 sid ->
  first_message ka (dh_public kb) (network_id (identity envA)) sid hs noise ->
  serialize_handshake_v2_init (mkInitFrame sid (network_id (identity envA)) noise) =
    Some msg ->
  rng_fill X25519_KEY_SIZE r = (Some e, r') ->
  exists noise2 encoded hash k1 k2 hs2,
    serialize_handshake_v2_response (mkResponseFrame sid noise2) = Some encoded /\
    length noise2 = 48%nat /\
    noise_handshakestate_read_message hs noise2 0 = (NOISE_ERROR_NONE, [], hs2) /\
    authenticates hs2 NOISE_ROLE_INITIATOR NOISE_ACTION_SPLIT (dh_public kb) /\
    splits_into hs2 hash k1 k2 /\
    forall clk m,
      handle_handshake_init envB msg sid clk m r =
      match transcript_hash Blake2s256 [msg] with
      | None => (None, m, r)
      | Some key =>
          match init_admit key sid (clk1 clk) m with
          | (false, m) => (None, m, r)
          | (true, m) =>
              match init_arbitrate envB key (node_id (identity envA)) (clk2 clk) m with
              | (false, m) => (None, m, r')
              | (true, m) =>
                  let '(ok, m) := init_install envB sid (node_id (identity envA))
                    (mkSplit (dh_public ka) hash k2 k1) (clk3 clk) (clk4 clk) (clk5 clk) m in
                  (if ok then Some (mkResponse encoded (node_id (identity envA))
                                      (dh_public ka)) else None, m, r')
              end
          end
      end.
Proof.
  intros PA PB Hnet Hu (prologue & ei & si & Hpro & Hsi & Hw) Hmsg Hr.
  destruct PA as [_ HkaL HA _], PB as [Hkb HkbL HB HnetL].
  assert (sid <> 0) as Hsid.
  { intros ->. by rewrite make_prologue_bytes, decide_False in Hpro by tauto. }
  destruct (ik_ready NOISE_ROLE_RESPONDER kb None prologue e) as [sr Hsr];
    [done|by eapply rng_fill_length|by split; [|intros []]|done|].
  destruct (ik_pattern ka kb prologue ei e si sr)
    as (m1 & si1 & sr1 & m2 & sr2 & si2 & hash & k1 & k2 & Hw1 & Hl1 & Hrd1 & Ha1 & Hw2 &
        Hl2 & Ha2 & Hs2 & Hrd2 & Ha3 & Hs3); [done..|].
  assert (noise = m1 /\ hs = si1) as [-> ->] by (rewrite Hw1 in Hw; by simplify_eq).
  assert (parse_handshake_v2_init msg =
    Some (mkInitFrame sid (network_id (identity envA)) m1)) as Hparse.
  { rewrite serialize_init_bytes in Hmsg. case_decide as Hd; [|done].
    apply (inj Some) in Hmsg as <-. apply parse_init_ok.
    rewrite Hnet. unfold init_frame_wf; simpl. by split_and!. }
  assert (exists encoded, serialize_handshake_v2_response (mkResponseFrame sid m2) =
    Some encoded) as [encoded Henc].
  { rewrite serialize_response_bytes. rewrite decide_True by done. by eexists. }
  exists m2, encoded, hash, k1, k2, si2. split; [done|]. split; [done|]. split; [done|].
  split; [done|]. split; [done|]. intros clk m. unfold handle_handshake_init.
  rewrite Hparse. cbn [init_session_id init_network_id init_noise_message].
  rewrite Z.eqb_refl, bool_decide_eq_true_2 by done. cbn [negb orb].
  destruct (transcript_hash Blake2s256 [msg]) as [key|]; [|done].
  destruct (init_admit key sid (clk1 clk) m) as [[] m']; [|done].
  rewrite <- Hnet, Hpro, Hkb. unfold create_responder.
  rewrite (create_starts _ _ _ _ _ e r' sr) by (done || (split; [done|by intros []])).
  rewrite (read_message_ok sr m1 sr1) by (done || by destruct m1).
  change (op_ok (mkOpResult ik_none 0)) with true. cbn [negb].
  rewrite (authenticates_remote sr1 _ _ _ Ha1) by tauto.
  rewrite dh_public_not_zero, <- HA by done.
  destruct (init_arbitrate _ _ _ _ _) as [[] m''] eqn:Ea; [|done].
  rewrite (write_message_ok sr1 _ m2 sr2) by (done || unfold HANDSHAKE_V2_RESPONSE_NOISE_SIZE; lia).
  change (op_ok (mkOpResult ik_none (length m2))) with true. cbn [negb orb op_bytes].
  rewrite Hl2. change (Nat.eqb 48 HANDSHAKE_V2_RESPONSE_NOISE_SIZE) with true. cbn [negb].
  rewrite (splits_into_split sr2 _ _ _ _ _ Ha2 Hs2), Henc. done.
Qed.

(** ** The initiator, on the response *)

Lemma complete_handshake env kb peer sid hs expires noise2 encoded hash k1 k2 hs2
    n1 n2 n3 m :
  u32 sid -> peer = hash_public_key (dh_public kb) ->
  pending_initiators m !! sid =
    Some (mkPending peer (dh_public kb) (Some (mkHandshake (Some hs))) expires) ->
  n1 < expires ->
  serialize_handshake_v2_response (mkResponseFrame sid noise2) = Some encoded ->
  length noise2 = 48%nat ->
  noise_handshakestate_read_message hs noise2 0 = (NOISE_ERROR_NONE, [], hs2) ->
  authenticates hs2 NOISE_ROLE_INITIATOR NOISE_ACTION_SPLIT (dh_public kb) ->
  splits_into hs2 hash k1 k2 ->
  handle_handshake_resp env encoded sid n1 n2 n3 m =
    let m := set_pending (delete sid) (purge_incomplete_handshakes_locked n1 m) in
    if match sessions m !! peer with
       | Some s => established s && negb (initiated_locally s) &&
                   bytes_ltb peer (node_id (identity env))
       | None => false
       end
    then (false, m) else
    if negb (bool_decide (is_Some (sessions m !! peer))) &&
       Nat.leb (cap_active (capacity env)) (size (sessions m)) then (false, m) else
    (true, install_noise_keys peer (mkSplit (dh_public kb) hash k1 k2) true n3
             (create_session env peer sid n2 m)).
Proof.
  intros Hu Hpeer Hp Hexp Henc Hl Hrd Ha Hs. unfold handle_handshake_resp.
  assert (sid <> 0) as Hsid.
  { intros ->. by rewrite serialize_response_bytes, decide_False in Henc by (simpl; tauto). }
  assert (parse_handshake_v2_response encoded = Some (mkResponseFrame sid noise2)) as ->.
  { rewrite serialize_response_bytes in Henc. case_decide; [|done].
    apply (inj Some) in Henc as <-. apply parse_response_ok. done. }
  assert (pending_initiators (purge_incomplete_handshakes_locked n1 m) !! sid =
    Some (mkPending peer (dh_public kb) (Some (mkHandshake (Some hs))) expires)) as ->.
  { simpl. apply map_lookup_filter_Some. split; [done|]. simpl. lia. }
  cbn [resp_session_id resp_noise_message handshake expected_peer_static expected_peer_id].
  rewrite Z.eqb_refl. cbn [negb].
  rewrite (read_message_ok hs noise2 hs2) by (done || by destruct noise2).
  change (op_ok (mkOpResult ik_none 0)) with true. cbn [negb].
  rewrite (authenticates_remote hs2 _ _ _ Ha) by tauto.
  rewrite !bool_decide_eq_true_2 by done. cbn [negb orb].
  by rewrite (splits_into_split hs2 _ _ _ _ _ Ha Hs).
Qed.

(** Capacity for a session with [peer]. *)
Definition room (env : SessionEnv) (m : SessionManager) (peer : NodeId) : Prop :=
  is_Some (sessions m !! peer) \/ (size (sessions m) < cap_active (capacity env))%nat.

Lemma room_guard env m peer :
  room env m peer ->
  negb (bool_decide (is_Some (sessions m !! peer))) &&
    Nat.leb (cap_active (capacity env)) (size (sessions m)) = false.
Proof.
  intros [Hs|Hlt]; [by rewrite bool_decide_eq_true_2|].
  apply andb_false_iff. right. by apply Nat.leb_gt.
Qed.

Lemma init_admit_ok key sid now m :
  handshake_replays m !! key = None -> session_id_taken m sid = false ->
  init_admit key sid now m =
    (true, purge_handshake_replays_locked now (purge_incomplete_handshakes_locked now m)).
Proof.
  intros Hk Ht. unfold init_admit. apply session_id_free in Ht as (Hx & Hr & Hp).
  f_equal. apply andb_true_iff. split; apply negb_true_iff.
  - apply contains_false. simpl. by rewrite map_lookup_filter, Hk.
  - apply session_id_free. simpl. split; [done|]. split; [done|].
    by rewrite map_lookup_filter, Hp.
Qed.

(** Without priority the responder yields: its own attempt is dropped. *)
Lemma init_arbitrate_yields env key peer now m :
  handshake_replays m !! key = None ->
  bytes_ltb (node_id (identity env)) peer = false -> room env m peer ->
  exists m', init_arbitrate env key peer now m = (true, m') /\
    sessions m' = sessions m /\ session_to_peer m' = session_to_peer m /\
    retired m' = retired m /\ pending_initiators m' ⊆ pending_initiators m.
Proof.
  intros Hk Hlt Hroom. unfold init_arbitrate. cbv zeta. rewrite Hlt.
  destruct (contains _ key) eqn:Ec.
  { apply contains_spec in Ec as [? Ec]. simpl in Ec.
    by rewrite map_lookup_filter, Hk in Ec. }
  cbn [andb negb]. pose proof (purge_incomplete_subset now m) as Hsub.
  destruct (find_pending _ peer) as [id|]; simpl; rewrite (room_guard env m peer Hroom);
    (eexists; split; [reflexivity|]); simpl; repeat split; try done.
  etrans; [apply delete_subseteq|done].
Qed.

(** With priority the responder refuses while it has an attempt of its own. *)
Lemma init_arbitrate_refuses env key peer now m id p :
  bytes_ltb (node_id (identity env)) peer = true ->
  pending_initiators m !! id = Some p -> expected_peer_id p = peer -> now < pend_expires p ->
  exists m', init_arbitrate env key peer now m = (false, m') /\
    sessions m' = sessions m /\ session_to_peer m' = session_to_peer m /\
    retired m' = retired m /\ pending_initiators m' !! id = Some p.
Proof.
  intros Hlt Hp Hpeer Hexp. unfold init_arbitrate. cbv zeta. rewrite Hlt.
  assert (pending_initiators (purge_incomplete_handshakes_locked now m) !! id = Some p)
    as Hp'. { simpl. apply map_lookup_filter_Some. split; [done|]. simpl. lia. }
  destruct (contains _ key); [by eexists|].
  destruct (find_pending _ peer) as [id'|] eqn:Ef; [by eexists|]. exfalso.
  unfold find_pending in Ef. apply min_element_none, fmap_nil_inv,
    map_to_list_empty_iff in Ef.
  apply (f_equal (.!! id)) in Ef. rewrite lookup_empty in Ef.
  eapply map_lookup_filter_None in Ef as [Ef|Ef]; [|by apply Ef with p].
  simpl in Ef, Hp'. congruence.
Qed.

Lemma init_install_ok env sid peer keys n1 n2 n3 m :
  manager_inv env m -> session_id_taken m sid = false -> room env m peer ->
  exists m', init_install env sid peer keys n1 n2 n3 m = (true, m') /\
    sessions m' = <[peer := opened peer sid keys false n3]> (sessions m) /\
    pending_initiators m' ⊆ pending_initiators m.
Proof.
  intros Hi Ht Hroom. unfold init_install.
  apply session_id_free in Ht as (Hx & Hr & Hp).
  pose proof (purge_incomplete_subset n1 m) as Hsub.
  assert (session_id_taken (purge_incomplete_handshakes_locked n1 m) sid = false) as ->.
  { apply session_id_free. split; [done|]. split; [done|].
    by eapply lookup_weaken_None. }
  pose proof (room_guard env m peer Hroom) as Hg. unfold contains.
  assert (manager_inv env (purge_incomplete_handshakes_locked n1 m)) as Hi1
    by (eapply shrink_inv; done).
  destruct (open_session_spec env _ peer sid keys false n2 n3 Hi1)
    as (Hs' & _ & Hp' & _). cbn [sessions purge_incomplete_handshakes_locked set_pending].
  rewrite Hg. eexists. split; [reflexivity|]. split; [done|]. by rewrite Hp'.
Qed.
End handshake.

(** A responder that answered had random bytes for its ephemeral key. *)
Lemma respond_rng `{OpenSSL, RandomSource, NoiseC} env msg sid clk m r resp m' r' :
  handle_handshake_init env msg sid clk m r = (Some resp, m', r') ->
  exists e r1, rng_fill X25519_KEY_SIZE r = (Some e, r1).
Proof.
  unfold handle_handshake_init. intros Hh.
  destruct (parse_handshake_v2_init msg) as [frame|]; [|done].
  destruct (_ || _); [done|]. destruct (transcript_hash _ _) as [key|]; [|done].
  destruct (init_admit _ _ _ _) as [[] ?]; [|done].
  destruct (make_handshake_v2_prologue _ _) as [prologue|]; [|done].
  destruct (create_responder _ _ r) as [[hs|] r1] eqn:Ec; [|done].
  apply create_started in Ec as (e & He & _). eauto.
Qed.

Lemma admit_arbitrate_inv `{OpenSSL, RandomSource, NoiseC} env key sid n1 n2 peer m b1 m1 b2 m2 :
  manager_inv env m -> init_admit key sid n1 m = (b1, m1) ->
  init_arbitrate env key peer n2 m1 = (b2, m2) -> manager_inv env m2.
Proof.
  intros Hi Ha Hr. pose proof (init_arbitrate_step env m1 key peer n2) as Ht.
  rewrite Hr in Ht. eapply table_step_inv; [|exact Ht].
  assert (m1 = snd (init_admit key sid n1 m)) as -> by by rewrite Ha.
  eapply shrink_inv; [done..|]. apply map_filter_subseteq.
Qed.

Lemma init_install_sessions `{OpenSSL, RandomSource, NoiseC} env sid peer keys n1 n2 n3 m m' :
  manager_inv env m -> init_install env sid peer keys n1 n2 n3 m = (true, m') ->
  sessions m' = <[peer := opened peer sid keys false n3]> (sessions m).
Proof.
  intros Hi Ein. unfold init_install in Ein. destruct (session_id_taken _ _); [done|].
  destruct (_ && _); [done|]. apply (inj (pair true)) in Ein as <-.
  assert (manager_inv env (purge_incomplete_handshakes_locked n1 m)) as Hi1.
  { eapply shrink_inv; [done..|]. apply purge_incomplete_subset. }
  by destruct (open_session_spec env _ peer sid keys false n2 n3 Hi1) as (-> & _).
Qed.

(** The pending entry a successful [create_handshake_init] leaves. *)
Lemma commit_pending_entry `{OpenSSL, RandomSource, NoiseC} env sid peer key hs now m m' :
  commit_pending env sid peer key hs now m = (true, m') ->
  pending_initiators m' !! sid =
    Some (mkPending peer key (Some hs) (now + ms (handshake_timeout m))) /\
  sessions m' = sessions m /\ session_to_peer m' = session_to_peer m /\
  retired m' = retired m /\ handshake_replays m' = handshake_replays m.
Proof.
  unfold commit_pending. destruct (session_id_taken _ _); [done|].
  destruct (Nat.leb _ _); [done|]. intros [= <-]. simpl. by rewrite lookup_insert_eq.
Qed.

(** C2: Agreement: when an initiator and the responder it meant both complete a
    handshake, they hold one session with the same id, filed under each other's
    node id, the responder has authenticated the initiator's identity, and each
    side's send key is the other's receive key.  Both managers may have run any
    other operations before and, at the initiator, between the two messages. *)
Theorem handshake_agreement `{OpenSSL, RandomSource, NoiseC, !NoiseLaws}
    envA envB ka kb sid now mA r msg mA1 r1 clk mB rB resp mB1 rB1 mA2 n1 n2 n3 mA3 :
  party envA ka -> party envB kb ->
  network_id (identity envA) = network_id (identity envB) -> u32 sid ->
  create_handshake_init envA sid (node_id (identity envB)) (dh_public kb) now mA r =
    (Some msg, mA1, r1) ->
  reachable envB mB ->
  handle_handshake_init envB msg sid clk mB rB = (Some resp, mB1, rB1) ->
  reachable envA mA2 -> pending_initiators mA2 !! sid = pending_initiators mA1 !! sid ->
  n1 < now + ms (handshake_timeout mA) ->
  handle_handshake_resp envA (response_message resp) sid n1 n2 n3 mA2 = (true, mA3) ->
  response_peer_id resp = node_id (identity envA) /\
  exists keys,
    sessions mA3 !! node_id (identity envB) =
      Some (opened (node_id (identity envB)) sid keys true n3) /\
    sessions mB1 !! node_id (identity envA) =
      Some (opened (node_id (identity envA)) sid
        (mkSplit (dh_public ka) (split_handshake_hash keys) (split_receive_key keys)
           (split_send_key keys)) false (clk5 clk)).
Proof.
  intros PA PB Hnet Hu Hci HrB Hhi HrA Hpend Hexp Hresp.
  apply create_init_inv in Hci as (hs & noise & Hfirst & Hser & Hcommit).
  rewrite (party_key _ _ PA) in Hfirst.
  apply commit_pending_entry in Hcommit as (Hentry & _).
  destruct (respond_rng _ _ _ _ _ _ _ _ _ Hhi) as (e & r2 & Hrng).
  destruct (respond_to_init envA envB ka kb sid hs noise msg rB e r2)
    as (noise2 & encoded & hash & k1 & k2 & hs2 & Henc & Hl2 & Hrd & Ha & Hs & Heq); [done..|].
  rewrite Heq in Hhi. clear Heq.
  destruct (transcript_hash _ _) as [key|]; [|done].
  destruct (init_admit _ _ _ _) as [[] mB'] eqn:Ead; [|done].
  destruct (init_arbitrate _ _ _ _ _) as [[] mB''] eqn:Ear; [|done].
  destruct (init_install _ _ _ _ _ _ _ _) as [[] mB3] eqn:Ein; [|done].
  assert (resp = mkResponse encoded (node_id (identity envA)) (dh_public ka) /\ mB1 = mB3)
    as [-> ->] by by simplify_eq.
  split; [done|]. exists (mkSplit (dh_public kb) hash k1 k2). split.
  - cbn [response_message] in Hresp.
    rewrite (complete_handshake envA kb (node_id (identity envB)) sid hs
      (now + ms (handshake_timeout mA)) noise2 encoded hash k1 k2 hs2) in Hresp;
      [|done|apply (party_node _ _ PB)|by rewrite Hpend|done..].
    cbv zeta in Hresp. do 2 (case_match; [done|]). apply (inj (pair true)) in Hresp as <-.
    assert (manager_inv envA (set_pending (delete sid)
      (purge_incomplete_handshakes_locked n1 mA2))) as Hi.
    { eapply shrink_inv; [by apply reachable_inv|done..|].
      etrans; [apply delete_subseteq|apply purge_incomplete_subset]. }
    destruct (open_session_spec envA _ (node_id (identity envB)) sid
      (mkSplit (dh_public kb) hash k1 k2) true n2 n3 Hi) as (-> & _).
    by rewrite lookup_insert_eq.
  - pose proof (admit_arbitrate_inv _ _ _ _ _ _ _ _ _ _ _ (reachable_inv _ _ HrB) Ead Ear)
      as Hi. by rewrite (init_install_sessions _ _ _ _ _ _ _ _ _ Hi Ein), lookup_insert_eq.
Qed.

Lemma init_admit_inv `{OpenSSL, RandomSource, NoiseC} env key sid now m b m' :
  manager_inv env m -> init_admit key sid now m = (b, m') -> manager_inv env m'.
Proof.
  intros Hi Ha. assert (m' = snd (init_admit key sid now m)) as -> by by rewrite Ha.
  eapply shrink_inv; [done..|]. apply map_filter_subseteq.
Qed.

(** The whole handler keeps the invariant. *)
Lemma handle_init_inv `{OpenSSL, RandomSource, NoiseC} env msg sid clk m r out m' r' :
  manager_inv env m -> handle_handshake_init env msg sid clk m r = (out, m', r') ->
  manager_inv env m'.
Proof.
  intros Hi. unfold handle_handshake_init.
  destruct (parse_handshake_v2_init msg) as [frame|] eqn:Ef; [|by intros [= _ <- _]].
  apply parse_init_inv in Ef as [(Hu & Hn & _) _].
  destruct (_ || _); [by intros [= _ <- _]|].
  destruct (transcript_hash _ _) as [key|]; [|by intros [= _ <- _]].
  destruct (init_admit _ _ _ _) as [b1 m1] eqn:E1. apply (init_admit_inv env) in E1; [|done].
  destruct b1; [|by intros [= _ <- _]].
  destruct (make_handshake_v2_prologue _ _); [|by intros [= _ <- _]].
  destruct (create_responder _ _ r) as [[hs|] r1]; [|by intros [= _ <- _]].
  destruct (read_message hs _ 0) as [[rd ?] hs1].
  destruct (negb _); [by intros [= _ <- _]|].
  destruct (remote_static_public_key hs1) as [ps|]; [|by intros [= _ <- _]].
  destruct (all_zero ps); [by intros [= _ <- _]|].
  pose proof (init_arbitrate_step env m1 key (hash_public_key ps) (clk2 clk)) as Ht.
  destruct (init_arbitrate _ _ _ _ _) as [b2 m2]. apply table_step_inv in Ht; [|done].
  destruct b2; [|by intros [= _ <- _]].
  destruct (write_message hs1 [] _) as [[w nm] hs2].
  destruct (_ || _); [by intros [= _ <- _]|].
  destruct (split hs2) as [[keys|] hs3]; [|by intros [= _ <- _]].
  destruct (serialize_handshake_v2_response _) as [enc|]; [|by intros [= _ <- _]].
  pose proof (init_install_step env m2 (init_session_id frame) (hash_public_key ps) keys
    (clk3 clk) (clk4 clk) (clk5 clk) Ht Hu Hn) as Hin.
  destruct (init_install _ _ _ _ _ _ _ _) as [b3 m3].
  intros [= _ <- _]. by eapply table_step_inv.
Qed.

(** With priority and an attempt of its own towards the sender, a manager
    refuses the sender's INIT and keeps its attempt. *)
Lemma refuse_init `{OpenSSL, RandomSource, NoiseC, !NoiseLaws}
    envA envB ka kb sid hs noise msg clk m r e r' id p :
  party envA ka -> party envB kb ->
  network_id (identity envB) = network_id (identity envA) -> u32 sid ->
  first_message kb (dh_public ka) (network_id (identity envB)) sid hs noise ->
  serialize_handshake_v2_init (mkInitFrame sid (network_id (identity envB)) noise) =
    Some msg ->
  rng_fill X25519_KEY_SIZE r = (Some e, r') ->
  bytes_ltb (node_id (identity envA)) (node_id (identity envB)) = true ->
  pending_initiators m !! id = Some p -> expected_peer_id p = node_id (identity envB) ->
  clk1 clk < pend_expires p -> clk2 clk < pend_expires p ->
  exists m' r2, handle_handshake_init envA msg sid clk m r = (None, m', r2) /\
    sessions m' = sessions m /\ session_to_peer m' = session_to_peer m /\
    retired m' = retired m /\ pending_initiators m' !! id = Some p.
Proof.
  intros PA PB Hnet Hu Hf Hs Hr Hlt Hp Hpeer Hc1 Hc2.
  destruct (respond_to_init envB envA kb ka sid hs noise msg r e r')
    as (? & ? & ? & ? & ? & ? & _ & _ & _ & _ & _ & Heq); [done..|]. rewrite Heq.
  destruct (transcript_hash _ _) as [key|]; [|by do 2 eexists].
  assert (pending_initiators (snd (init_admit key sid (clk1 clk) m)) !! id = Some p) as Hp1.
  { simpl. apply map_lookup_filter_Some. split; [done|]. simpl. lia. }
  assert (sessions (snd (init_admit key sid (clk1 clk) m)) = sessions m /\
    session_to_peer (snd (init_admit key sid (clk1 clk) m)) = session_to_peer m /\
    retired (snd (init_admit key sid (clk1 clk) m)) = retired m) as (Hs1 & Hx1 & Hr1) by done.
  destruct (init_admit key sid (clk1 clk) m) as [[] m1]; simpl in *; [|by do 2 eexists].
  destruct (init_arbitrate_refuses envA key (node_id (identity envB)) (clk2 clk) m1 id p)
    as (m2 & -> & Hs2 & Hx2 & Hr2 & Hp2); [done..|].
  do 2 eexists. split; [done|]. split_and!; congruence.
Qed.

Lemma commit_pending_inv `{OpenSSL, RandomSource, NoiseC} env k rs sid hs noise peer now m m' :
  reachable env m -> u32 sid ->
  first_message k rs (network_id (identity env)) sid hs noise ->
  commit_pending env sid peer rs (mkHandshake (Some hs)) now m = (true, m') ->
  manager_inv env m'.
Proof.
  intros Hr Hu (prologue & ? & ? & Hp & _) Hc.
  pose proof (commit_pending_step env m sid peer rs (mkHandshake (Some hs)) now Hu) as Ht.
  rewrite Hc in Ht. eapply table_step_inv; [by apply reachable_inv|]. apply Ht.
  intros ->. by rewrite make_prologue_bytes, decide_False in Hp by tauto.
Qed.

(** A responder without priority, with room and a fresh id, installs the session. *)
Lemma yielding_respond `{OpenSSL, RandomSource, NoiseC} env peer key sid keys clk m :
  manager_inv env m -> handshake_replays m !! key = None -> session_id_taken m sid = false ->
  bytes_ltb (node_id (identity env)) peer = false -> room env m peer ->
  exists m1 m2 m3, init_admit key sid (clk1 clk) m = (true, m1) /\
    init_arbitrate env key peer (clk2 clk) m1 = (true, m2) /\
    init_install env sid peer keys (clk3 clk) (clk4 clk) (clk5 clk) m2 = (true, m3) /\
    sessions m3 !! peer = Some (opened peer sid keys false (clk5 clk)).
Proof.
  intros Hi Hk Ht Hlt Hroom. pose proof (init_admit_ok key sid (clk1 clk) m Hk Ht) as Had.
  set (m1 := purge_handshake_replays_locked _ _) in *.
  assert (handshake_replays m1 !! key = None) as Hk1
    by (simpl; by rewrite map_lookup_filter, Hk).
  destruct (init_arbitrate_yields env key peer (clk2 clk) m1)
    as (m2 & Har & Hs & Hx & Hr & Hp); [done..|].
  pose proof (admit_arbitrate_inv _ _ _ _ _ _ _ _ _ _ _ Hi Had Har) as Hi2.
  destruct (init_install_ok env sid peer keys (clk3 clk) (clk4 clk) (clk5 clk) m2)
    as (m3 & Hin & Hs3 & _); [done| |by unfold room; rewrite Hs|].
  { apply session_id_free in Ht as (Hx0 & Hr0 & Hp0). apply session_id_free.
    rewrite Hx, Hr. split; [done|]. split; [done|]. eapply lookup_weaken_None; [|done].
    simpl. by rewrite map_lookup_filter, Hp0. }
  exists m1, m2, m3. split_and!; try done. by rewrite Hs3, lookup_insert_eq.
Qed.

(** C15: Simultaneous open: when two nodes each start a handshake with the other
    and both INITs arrive, the one with the lower node id refuses and the other
    answers; the lower one completes, and both end with one session, the lower
    node's, with exchanged keys. *)
Theorem simultaneous_open_converges `{OpenSSL, RandomSource, NoiseC, !NoiseLaws}
    envA envB ka kb sA sB tA tB mA mB rA rB msgA msgB mA1 mB1 rA1 rB1
    key eA eB rA2 rB2 clkA clkB n1 n2 n3 :
  party envA ka -> party envB kb ->
  network_id (identity envA) = network_id (identity envB) -> u32 sA -> u32 sB ->
  bytes_ltb (node_id (identity envA)) (node_id (identity envB)) = true ->
  reachable envA mA -> reachable envB mB ->
  create_handshake_init envA sA (node_id (identity envB)) (dh_public kb) tA mA rA =
    (Some msgA, mA1, rA1) ->
  create_handshake_init envB sB (node_id (identity envA)) (dh_public ka) tB mB rB =
    (Some msgB, mB1, rB1) ->
  transcript_hash Blake2s256 [msgA] = Some key -> handshake_replays mB1 !! key = None ->
  session_id_taken mB1 sA = false ->
  room envA mA1 (node_id (identity envB)) -> room envB mB1 (node_id (identity envA)) ->
  rng_fill X25519_KEY_SIZE rA1 = (Some eA, rA2) ->
  rng_fill X25519_KEY_SIZE rB1 = (Some eB, rB2) ->
  clk1 clkA < tA + ms (handshake_timeout mA) -> clk2 clkA < tA + ms (handshake_timeout mA) ->
  n1 < tA + ms (handshake_timeout mA) ->
  exists mA2 rA' mB2 rB' resp mA3 keys,
    handle_handshake_init envA msgB sB clkA mA1 rA1 = (None, mA2, rA') /\
    handle_handshake_init envB msgA sA clkB mB1 rB1 = (Some resp, mB2, rB') /\
    handle_handshake_resp envA (response_message resp) sA n1 n2 n3 mA2 = (true, mA3) /\
    sessions mA3 !! node_id (identity envB) =
      Some (opened (node_id (identity envB)) sA keys true n3) /\
    sessions mB2 !! node_id (identity envA) =
      Some (opened (node_id (identity envA)) sA
        (mkSplit (dh_public ka) (split_handshake_hash keys) (split_receive_key keys)
           (split_send_key keys)) false (clk5 clkB)).
Proof.
  intros PA PB Hnet HuA HuB Hlt HrA HrB HciA HciB Hkey Hrep Hfree HroomA HroomB
    HfA HfB Hc1 Hc2 Hn1.
  apply create_init_inv in HciA as (hsA & noiseA & HfirstA & HserA & HcA).
  apply create_init_inv in HciB as (hsB & noiseB & HfirstB & HserB & HcB).
  rewrite (party_key _ _ PA) in HfirstA. rewrite (party_key _ _ PB) in HfirstB.
  pose proof (commit_pending_entry _ _ _ _ _ _ _ _ HcA) as (HentA & _).
  pose proof (commit_pending_inv _ _ _ _ _ _ _ _ _ _ HrA HuA HfirstA HcA) as HiA.
  pose proof (commit_pending_inv _ _ _ _ _ _ _ _ _ _ HrB HuB HfirstB HcB) as HiB.
  destruct (refuse_init envA envB ka kb sB hsB noiseB msgB clkA mA1 rA1 eA rA2 sA _
    PA PB (eq_sym Hnet) HuB HfirstB HserB HfA Hlt HentA eq_refl Hc1 Hc2)
    as (mA2 & rA' & HhA & HsA2 & HxA2 & HreA2 & HpA2).
  destruct (respond_to_init envA envB ka kb sA hsA noiseA msgA rB1 eB rB2)
    as (noise2 & encoded & hash & k1 & k2 & hs2 & Henc & Hl2 & Hrd & Ha & Hs & Heq);
    [done..|].
  destruct (yielding_respond envB (node_id (identity envA)) key sA
    (mkSplit (dh_public ka) hash k2 k1) clkB mB1)
    as (m1 & m2 & mB2 & Had & Har & Hin & HsB2); [done..|by apply bytes_ltb_asym|done|].
  specialize (Heq clkB mB1). rewrite Hkey, Had, Har, Hin in Heq.
  pose proof (handle_init_inv _ _ _ _ _ _ _ _ _ HiA HhA) as HiA2.
  exists mA2, rA', mB2, rB2, (mkResponse encoded (node_id (identity envA)) (dh_public ka)).
  pose proof (complete_handshake envA kb (node_id (identity envB)) sA hsA
    (tA + ms (handshake_timeout mA)) noise2 encoded hash k1 k2 hs2 n1 n2 n3 mA2
    HuA (party_node _ _ PB) HpA2 Hn1 Henc Hl2 Hrd Ha Hs) as Hresp.
  cbv zeta in Hresp. rewrite (bytes_ltb_asym _ _ Hlt) in Hresp.
  set (m4 := set_pending (delete sA) (purge_incomplete_handshakes_locked n1 mA2)) in *.
  assert (manager_inv envA m4) as Hi4.
  { eapply shrink_inv; [exact HiA2|done..|].
    etrans; [apply delete_subseteq|apply purge_incomplete_subset]. }
  rewrite (room_guard envA m4) in Hresp by (unfold room; change (sessions m4) with
    (sessions mA2); by rewrite HsA2).
  eexists _, (mkSplit (dh_public kb) hash k1 k2).
  split; [done|]. split; [exact Heq|]. cbn [response_message]. rewrite Hresp.
  split; [|split; [|exact HsB2]].
  - destruct (sessions m4 !! _); [|done]. by rewrite andb_false_r.
  - destruct (open_session_spec envA m4 (node_id (identity envB)) sA
      (mkSplit (dh_public kb) hash k1 k2) true n2 n3 Hi4) as (-> & _).
    by rewrite lookup_insert_eq.
Qed.

(** ** Replayed INITs *)

Section replays.
Context `{OpenSSL, RandomSource, NoiseC}.

(** Critical sections of any threads with clocks below [t]. *)
Inductive steps_before (env : SessionEnv) (t : Z) : SessionManager -> SessionManager -> Prop :=
  | before_refl m : steps_before env t m m
  | before_step m m' t0 t1 m'' :
      steps_before env t m m' -> mgr_step env t0 t1 m' m'' -> t1 < t ->
      steps_before env t m m''.

(** [retire_session_locked] and [create_session] leave the replay cache alone. *)
Lemma open_session_replays env peer id keys local n2 n3 m :
  handshake_replays (install_noise_keys peer keys local n3 (create_session env peer id n2 m)) =
  handshake_replays m.
Proof.
  unfold install_noise_keys, create_session. cbv zeta.
  destruct (sessions m !! peer) as [s|]; simpl; [|done].
  destruct (established s); simpl; [|done].
  by destruct (retire_session_spec env s n2 m) as (_ & _ & _ & -> & _).
Qed.

(** A transcript stays in the cache until its time. *)
Lemma step_keeps_replay env t0 t1 m m' key e :
  mgr_step env t0 t1 m m' -> t1 < e ->
  handshake_replays m !! key = Some e -> handshake_replays m' !! key = Some e.
Proof.
  assert (forall now, now < e -> handshake_replays m !! key = Some e ->
    filter (λ '(_, expires), ~ expires <= now) (handshake_replays m) !! key = Some e)
    as Hf.
  { intros now Hlt Hl. apply map_lookup_filter_Some. split; [done|]. simpl. lia. }
  intros Hstep Ht Hl. destruct Hstep; try (apply Hf; [lia|done]); try done.
  - unfold remove_session. by destruct (sessions m !! peer).
  - unfold commit_pending. by repeat case_match.
  - unfold init_arbitrate. cbv zeta.
    assert (handshake_replays (purge_handshake_replays_locked now
      (purge_incomplete_handshakes_locked now m)) !! key = Some e) as Hl'
      by (apply Hf; [lia|done]).
    destruct (contains _ key0) eqn:Ec; [done|]. apply contains_false in Ec.
    assert (key0 <> key) by congruence.
    repeat case_match; simpl; by rewrite lookup_insert_ne.
  - unfold init_install. repeat (case_match; try done). cbn [snd].
    by rewrite open_session_replays.
  - unfold handle_handshake_resp. repeat (case_match; try done); cbn [snd];
      by rewrite open_session_replays.
  - unfold encrypt_message. by repeat (case_match; try done).
  - match goal with Hd : decrypt_message _ _ = _ |- _ => apply decrypt_cases in Hd
      as [[_ ->]|(? & ref & ? & ? & ? & _ & _ & _ & _ & _ & -> & _)] end; [done|].
    by destruct ref.
Qed.

Lemma steps_keep_replay env t m m' key e :
  steps_before env t m m' -> t <= e ->
  handshake_replays m !! key = Some e -> handshake_replays m' !! key = Some e.
Proof.
  induction 1 as [|m m' t0 t1 m'' _ IH Hs Hlt]; intros; [done|].
  eapply step_keeps_replay; [done|lia|by apply IH].
Qed.

(** An answered INIT is in the replay cache. *)
Lemma answered_init_cached env msg sid clk m r resp m1 r1 :
  handle_handshake_init env msg sid clk m r = (Some resp, m1, r1) ->
  exists key, transcript_hash Blake2s256 [msg] = Some key /\
    handshake_replays m1 !! key = Some (clk2 clk + ms (handshake_replay_ttl m)).
Proof.
  unfold handle_handshake_init. intros Hh.
  destruct (parse_handshake_v2_init msg) as [frame|]; [|done].
  destruct (_ || _); [done|].
  destruct (transcript_hash Blake2s256 [msg]) as [key|]; [|done].
  exists key. split; [done|].
  assert (handshake_replay_ttl (snd (init_admit key (init_session_id frame) (clk1 clk) m)) =
    handshake_replay_ttl m) as Httl by done.
  destruct (init_admit _ _ _ _) as [[] m2]; [|done]. cbn [snd] in Httl.
  destruct (make_handshake_v2_prologue _ _); [|done].
  destruct (create_responder _ _ r) as [[hs|] r2]; [|done].
  destruct (read_message hs _ 0) as [[rd ?] hs1]. destruct (negb (op_ok rd)); [done|].
  destruct (remote_static_public_key hs1) as [ps|]; [|done].
  destruct (all_zero ps); [done|].
  destruct (init_arbitrate _ _ _ _ _) as [[] m3] eqn:Ea; [|done].
  assert (handshake_replays m3 !! key = Some (clk2 clk + ms (handshake_replay_ttl m))) as Hk.
  { revert Ea. unfold init_arbitrate. cbv zeta. destruct (contains _ key); [done|].
    destruct (_ && (_ || _)); [done|].
    repeat (case_match; try done); intros [= <-]; simpl; by rewrite lookup_insert_eq, Httl. }
  destruct (write_message hs1 [] _) as [[w nm] hs2]. destruct (_ || _); [done|].
  destruct (split hs2) as [[keys|] hs3]; [|done].
  destruct (serialize_handshake_v2_response _) as [enc|]; [|done].
  destruct (init_install _ _ _ _ _ _ _ _) as [[] m4] eqn:Ei; [|done].
  assert (m1 = m4) as -> by (clear - Hh; congruence).
  revert Ei. unfold init_install. repeat (case_match; try done). intros [= <-].
  by rewrite open_session_replays.
Qed.
End replays.

(** C35: A handshake INIT that was answered is not answered again while its
    transcript is cached (two minutes by default), whatever the manager does in
    between, also after the session it opened was torn down.  The replay touches
    nothing but expired entries and uses no randomness. *)
Theorem answered_init_not_replayed `{OpenSSL, RandomSource, NoiseC}
    env msg sid clk m r resp m1 r1 m2 sid' clk' r2 :
  handle_handshake_init env msg sid clk m r = (Some resp, m1, r1) ->
  steps_before env (clk2 clk + ms (handshake_replay_ttl m)) m1 m2 ->
  clk1 clk' < clk2 clk + ms (handshake_replay_ttl m) ->
  exists m3, handle_handshake_init env msg sid' clk' m2 r2 = (None, m3, r2) /\
    (m3 = m2 \/ m3 = purge_handshake_replays (clk1 clk')
                      (purge_incomplete_handshakes (clk1 clk') m2)).
Proof.
  intros Hh Hs Hc. destruct (answered_init_cached _ _ _ _ _ _ _ _ _ Hh) as (key & Hkey & Hl).
  apply (steps_keep_replay _ _ _ _ key _ Hs) in Hl; [|lia].
  unfold handle_handshake_init.
  destruct (parse_handshake_v2_init msg) as [frame|]; [|by eauto].
  destruct (_ || _); [by eauto|]. rewrite Hkey.
  assert (init_admit key (init_session_id frame) (clk1 clk') m2 =
    (false, purge_handshake_replays (clk1 clk')
              (purge_incomplete_handshakes (clk1 clk') m2))) as ->; [|by eauto].
  unfold init_admit. f_equal. apply andb_false_iff. left.
  apply negb_false_iff, contains_spec. exists (clk2 clk + ms (handshake_replay_ttl m)).
  apply map_lookup_filter_Some. split; [done|]. simpl. lia.
Qed.

(** ** Witnesses *)

#[local] Existing Instances toy_openssl toy_random toy_noise toy_noise_laws.

Definition toy_node (k : Key) : SessionEnv :=
  mkEnv (mkIdentity no_keypair (mkKeyPair (toy_public k) k) zero_signature
    (hash_public_key (toy_public k)) (replicate 32 x2a) zero32) default_limits 64.

Lemma toy_party k : length k = 32%nat -> party (toy_node k) k.
Proof. intros Hk. by split. Qed.

Definition key_a : Key := replicate 32 x03.
Definition key_b : Key := replicate 32 x04.
Definition node_a : SessionEnv := toy_node key_a.
Definition node_b : SessionEnv := toy_node key_b.
Definition seed_a : @rng toy_random := 11.
Definition seed_b : @rng toy_random := 77.

(** Both nodes start a handshake, sessions 5 and 6. *)
Definition run_a : option (list byte) * SessionManager * rng :=
  create_handshake_init node_a 5 (node_id (identity node_b)) (toy_public key_b) 100
    manager_init seed_a.
Definition run_b : option (list byte) * SessionManager * rng :=
  create_handshake_init node_b 6 (node_id (identity node_a)) (toy_public key_a) 100
    manager_init seed_b.
Definition init_a : list byte := default [] (fst (fst run_a)).
Definition init_b : list byte := default [] (fst (fst run_b)).

Definition clocks : Clocks := mkClocks 200 201 202 203 204.

Definition answer_b (m : SessionManager) : option HandshakeResponse * SessionManager * rng :=
  handle_handshake_init node_b init_a 5 clocks m seed_b.
Definition response_b (m : SessionManager) : HandshakeResponse :=
  default (mkResponse [] [] []) (fst (fst (answer_b m))).

Lemma node_a_started : reachable node_a (snd (fst run_a)).
Proof.
  apply (created_reachable node_a 5 (node_id (identity node_b)) (toy_public key_b) 100
    manager_init seed_a init_a (snd (fst run_a)) (snd run_a)).
  - apply run_fst3. vm_compute. reflexivity.
  - apply reach_init.
  - split; vm_compute; done.
Qed.

Lemma handshake_agreement_witness :
  exists keys,
    sessions (snd (handle_handshake_resp node_a (response_message (response_b manager_init))
      5 300 301 302 (snd (fst run_a)))) !! node_id (identity node_b) =
      Some (opened (node_id (identity node_b)) 5 keys true 302) /\
    sessions (snd (fst (answer_b manager_init))) !! node_id (identity node_a) =
      Some (opened (node_id (identity node_a)) 5
        (mkSplit (toy_public key_a) (split_handshake_hash keys) (split_receive_key keys)
           (split_send_key keys)) false 204).
Proof.
  refine (proj2 (handshake_agreement node_a node_b key_a key_b 5 100 manager_init seed_a
    init_a (snd (fst run_a)) (snd run_a) clocks manager_init seed_b
    (response_b manager_init) (snd (fst (answer_b manager_init)))
    (snd (answer_b manager_init)) (snd (fst run_a)) 300 301 302 _
    (toy_party key_a eq_refl) (toy_party key_b eq_refl) eq_refl _ _ (reach_init node_b) _
    node_a_started eq_refl _ _)).
  - split; vm_compute; done.
  - apply run_fst3. vm_compute. reflexivity.
  - apply run_fst3. vm_compute. reflexivity.
  - vm_compute. reflexivity.
  - assert (fst (handle_handshake_resp node_a (response_message (response_b manager_init))
      5 300 301 302 (snd (fst run_a))) = true) as Hok by (vm_compute; reflexivity).
    revert Hok. destruct (handle_handshake_resp _ _ _ _ _ _ _) as [ok m].
    cbn [fst snd]. intros ->. reflexivity.
Defined.

Lemma simultaneous_open_converges_witness :
  exists mA2 rA' mB2 rB' resp mA3 keys,
    handle_handshake_init node_a init_b 6 clocks (snd (fst run_a)) (snd run_a) =
      (None, mA2, rA') /\
    handle_handshake_init node_b init_a 5 clocks (snd (fst run_b)) (snd run_b) =
      (Some resp, mB2, rB') /\
    handle_handshake_resp node_a (response_message resp) 5 300 301 302 mA2 = (true, mA3) /\
    sessions mA3 !! node_id (identity node_b) =
      Some (opened (node_id (identity node_b)) 5 keys true 302) /\
    sessions mB2 !! node_id (identity node_a) =
      Some (opened (node_id (identity node_a)) 5
        (mkSplit (toy_public key_a) (split_handshake_hash keys) (split_receive_key keys)
           (split_send_key keys)) false 204).
Proof.
  apply (simultaneous_open_converges node_a node_b key_a key_b 5 6 100 100 manager_init
    manager_init seed_a seed_b init_a init_b (snd (fst run_a)) (snd (fst run_b))
    (snd run_a) (snd run_b) (default [] (transcript_hash Blake2s256 [init_a]))
    (default [] (fst (rng_fill 32 (snd run_a)))) (default [] (fst (rng_fill 32 (snd run_b))))
    (snd (rng_fill 32 (snd run_a))) (snd (rng_fill 32 (snd run_b))) clocks clocks 300 301 302
    (toy_party key_a eq_refl) (toy_party key_b eq_refl) eq_refl).
  - split; vm_compute; done.
  - split; vm_compute; done.
  - vm_compute. reflexivity.
  - apply reach_init.
  - apply reach_init.
  - apply run_fst3. vm_compute. reflexivity.
  - apply run_fst3. vm_compute. reflexivity.
  - vm_compute. reflexivity.
  - vm_compute. reflexivity.
  - vm_compute. reflexivity.
  - right. vm_compute. lia.
  - right. vm_compute. lia.
  - vm_compute. reflexivity.
  - vm_compute. reflexivity.
  - vm_compute. reflexivity.
  - vm_compute. reflexivity.
  - vm_compute. reflexivity.
Defined.

Lemma answered_init_not_replayed_witness :
  exists m3,
    handle_handshake_init node_b init_a 5 (mkClocks 900 901 902 903 904)
      (remove_session (node_id (identity node_a)) (snd (fst (answer_b manager_init)))) seed_b
      = (None, m3, seed_b) /\
    (m3 = remove_session (node_id (identity node_a)) (snd (fst (answer_b manager_init))) \/
     m3 = purge_handshake_replays 900 (purge_incomplete_handshakes 900
       (remove_session (node_id (identity node_a)) (snd (fst (answer_b manager_init)))))).
Proof.
  apply (answered_init_not_replayed node_b init_a 5 clocks manager_init seed_b
    (response_b manager_init) (snd (fst (answer_b manager_init)))
    (snd (answer_b manager_init)) _ 5 (mkClocks 900 901 902 903 904) seed_b).
  - apply run_fst3. vm_compute. reflexivity.
  - eapply (before_step node_b _ (snd (fst (answer_b manager_init))) _ 500 500).
    + apply before_refl.
    + apply step_remove.
    + vm_compute. reflexivity.
  - vm_compute. reflexivity.
Defined.
