(* ===== verification/IpAddress.v ===== *)
(** * Addresses and prefixes ([include/aegis/net/ip_address.hpp])

    [IPAddress] and [IPPrefix], and what prefix containment and canonicalisation
    mean for the address as an integer. *)

From stdpp Require Import base numbers list option.
From Stdlib Require Import ZArith Lia Bool.
From Stdlib.Strings Require Import Byte.
From S2P Require Import Prelude.

(** [enum class IPAddressFamily : uint8_t]; a cast can give any byte. *)
Inductive IPAddressFamily := IPv4 | IPv6 | UnknownFamily (raw : Z).

#[export] Instance family_eq_dec : EqDecision IPAddressFamily.
Proof. solve_decision. Defined.

Record IPAddress := mkIP { family : IPAddressFamily; ip_bytes : list byte }.

#[export] Instance ip_eq_dec : EqDecision IPAddress.
Proof. solve_decision. Defined.

Definition family_value (f : IPAddressFamily) : Z :=
  match f with IPv4 => 4 | IPv6 => 6 | UnknownFamily raw => raw end.
Definition family_of (raw : Z) : IPAddressFamily :=
  if raw =? 4 then IPv4 else if raw =? 6 then IPv6 else UnknownFamily raw.

(** [IPAddress{}]. *)
Definition no_ip : IPAddress := mkIP IPv4 (zeros 16).

Definition from_ipv4 (network_order : Z) : IPAddress :=
  mkIP IPv4 ([b8 (Z.shiftr network_order 24); b8 (Z.shiftr network_order 16);
              b8 (Z.shiftr network_order 8); b8 network_order] ++ zeros 12).

Definition from_ipv6 (value : list byte) : IPAddress := mkIP IPv6 value.

Definition valid_family (a : IPAddress) : bool :=
  bool_decide (family a = IPv4) || bool_decide (family a = IPv6).

Definition bit_width (a : IPAddress) : Z :=
  match family a with IPv4 => 32 | IPv6 => 128 | UnknownFamily _ => 0 end.

Definition ip_at (a : IPAddress) (i : nat) : Z := bval (nth i (ip_bytes a) x00).

Definition ipv4_value (a : IPAddress) : Z :=
  match family a with
  | IPv4 => Z.lor (Z.lor (Z.lor (Z.shiftl (ip_at a 0) 24) (Z.shiftl (ip_at a 1) 16))
                         (Z.shiftl (ip_at a 2) 8)) (ip_at a 3)
  | _ => 0
  end.

(** ** Prefixes *)

Record IPPrefix := mkPrefix { prefix_address : IPAddress; prefix_len : Z }.

#[export] Instance prefix_eq_dec : EqDecision IPPrefix.
Proof. solve_decision. Defined.

Definition prefix_valid (p : IPPrefix) : bool :=
  valid_family (prefix_address p) && (prefix_len p <=? bit_width (prefix_address p)).

(** [static_cast<uint8_t>(0xffu << (8 - remaining_bits))]. *)
Definition prefix_mask (remaining_bits : Z) : Z :=
  wrap 8 (Z.shiftl 255 (8 - remaining_bits)).

(** [for (i = lo; i < hi; ++i) bytes[i] = 0]. *)
Definition zero_range (lo hi : nat) (bs : list byte) : list byte :=
  imap (λ i b, if Nat.leb lo i && Nat.ltb i hi then x00 else b) bs.

Definition canonicalize (p : IPPrefix) : IPPrefix :=
  let width := bit_width (prefix_address p) in
  if width <? prefix_len p then p else
  let full_bytes := Z.to_nat (prefix_len p / 8) in
  let remaining_bits := prefix_len p mod 8 in
  let bs := ip_bytes (prefix_address p) in
  let bs := if negb (remaining_bits =? 0)
            then alter (λ b, b8 (Z.land (bval b) (prefix_mask remaining_bits))) full_bytes bs
            else bs in
  let zero_from := (full_bytes + (if negb (remaining_bits =? 0)%Z then 1 else 0))%nat in
  let bs := zero_range zero_from (Z.to_nat (width / 8)) bs in
  let bs := zero_range (Z.to_nat (width / 8)) (length bs) bs in
  mkPrefix (mkIP (family (prefix_address p)) bs) (prefix_len p).

(** The constructor [IPPrefix(network, length)]. *)
Definition make_prefix (network : IPAddress) (prefix_length : Z) : IPPrefix :=
  canonicalize (mkPrefix network prefix_length).

Definition prefix_contains (p : IPPrefix) (candidate : IPAddress) : bool :=
  if negb (prefix_valid p) ||
     negb (bool_decide (family candidate = family (prefix_address p))) then false else
  let full_bytes := Z.to_nat (prefix_len p / 8) in
  let remaining_bits := prefix_len p mod 8 in
  if negb (bool_decide (take full_bytes (ip_bytes (prefix_address p)) =
                        take full_bytes (ip_bytes candidate))) then false else
  if negb (remaining_bits =? 0) then
    let mask := prefix_mask remaining_bits in
    Z.land (ip_at (prefix_address p) full_bytes) mask =?
    Z.land (ip_at candidate full_bytes) mask
  else true.

(** ** What they mean *)

(** An address with its 16-byte array. *)
Definition ip_wf (a : IPAddress) : Prop := length (ip_bytes a) = 16%nat.

(** The address as an integer of [bit_width] bits, network order. *)
Definition addr_value (a : IPAddress) : Z :=
  be_combine (take (Z.to_nat (bit_width a / 8)) (ip_bytes a)).

Lemma be_combine_app a b :
  be_combine (a ++ b) = be_combine a * 256 ^ Z.of_nat (length b) + be_combine b.
Proof.
  unfold be_combine at 1. rewrite foldl_app. fold (be_combine a).
  apply be_combine_foldl. pose proof (be_combine_range a). lia.
Qed.

Lemma prefix_mask_land r x :
  0 < r < 8 -> u8 x -> Z.land x (prefix_mask r) = x / 2 ^ (8 - r) * 2 ^ (8 - r).
Proof.
  intros Hr Hx. unfold prefix_mask, wrap.
  rewrite <- Z.land_ones by lia.
  rewrite (Z.land_comm (Z.shiftl _ _)), Z.land_assoc, Z.land_ones by lia.
  rewrite (Z.mod_small x) by exact Hx.
  rewrite <- Z.shiftr_div_pow2, <- Z.shiftl_mul_pow2 by lia.
  apply Z.bits_inj'. intros i Hi.
  rewrite Z.land_spec, Z.shiftl_spec, Z.shiftl_spec by lia.
  destruct (Z.ltb_spec i (8 - r)).
  { by rewrite !(Z.testbit_neg_r _ (i - (8 - r))), andb_false_r by lia. }
  rewrite Z.shiftr_spec by lia. replace (i - (8 - r) + (8 - r)) with i by lia.
  change 255 with (Z.ones 8). destruct (Z.ltb_spec (i - (8 - r)) 8).
  { by rewrite Z.ones_spec_low, andb_true_r by lia. }
  rewrite Z.ones_spec_high, andb_false_r by lia.
  rewrite <- (Z.mod_small x (2 ^ 8)) by exact Hx. by rewrite Z.mod_pow2_bits_high by lia.
Qed.

(** Dropping the bits after a prefix of [full] bytes and [r] bits. *)
Lemma be_combine_div pre x post r :
  0 < r < 8 ->
  be_combine (pre ++ x :: post) / 2 ^ (8 * Z.of_nat (length post) + (8 - r)) =
    be_combine pre * 2 ^ r + bval x / 2 ^ (8 - r).
Proof.
  intros Hr. rewrite be_combine_app, be_combine_cons. rewrite length_cons, Nat2Z.inj_succ.
  pose proof (be_combine_range post) as Hp.
  rewrite Z.pow_succ_r by lia. rewrite Z.pow_add_r by lia. rewrite <- pow256.
  rewrite <- Z.div_div by (try apply Z.pow_nonzero; lia).
  replace (be_combine pre * (256 * 256 ^ Z.of_nat (length post)) +
    (bval x * 256 ^ Z.of_nat (length post) + be_combine post))
    with ((be_combine pre * 256 + bval x) * 256 ^ Z.of_nat (length post) + be_combine post)
    by ring.
  rewrite Z.div_add_l by (apply Z.pow_nonzero; lia).
  rewrite (Z.div_small (be_combine post)) by lia. rewrite Z.add_0_r.
  replace 256 with (2 ^ r * 2 ^ (8 - r))
    by (rewrite <- Z.pow_add_r by lia; by replace (r + (8 - r)) with 8 by lia).
  rewrite Z.mul_assoc, Z.div_add_l by (apply Z.pow_nonzero; lia). done.
Qed.

Lemma be_combine_div0 pre post :
  be_combine (pre ++ post) / 2 ^ (8 * Z.of_nat (length post)) = be_combine pre.
Proof.
  rewrite be_combine_app, <- pow256. pose proof (be_combine_range post) as Hp.
  rewrite Z.div_add_l, Z.div_small by (try apply Z.pow_nonzero; lia). lia.
Qed.

(** The byte at the boundary of a prefix of [len] bits. *)
Lemma split_boundary (bs : list byte) full :
  (full < length bs)%nat ->
  bs = take full bs ++ nth full bs x00 :: drop (S full) bs.
Proof.
  intros Hf. rewrite <- (take_drop full bs) at 1. f_equal.
  destruct (lookup_lt_is_Some_2 bs full Hf) as [b Hb].
  rewrite (drop_S bs b full Hb). f_equal. symmetry. by apply nth_lookup_Some.
Qed.

(** The bits of a [len]-bit prefix. *)
Lemma prefix_bits bs w len :
  length bs = w -> 0 <= len <= 8 * Z.of_nat w ->
  let full := Z.to_nat (len / 8) in
  be_combine bs / 2 ^ (8 * Z.of_nat w - len) =
    if decide (len mod 8 = 0) then be_combine (take full bs)
    else be_combine (take full bs) * 2 ^ (len mod 8) +
         bval (nth full bs x00) / 2 ^ (8 - len mod 8).
Proof.
  intros Hw Hlen. cbv zeta. set (full := Z.to_nat (len / 8)).
  pose proof (Z.div_mod len 8 ltac:(lia)) as Hd.
  pose proof (Z.mod_pos_bound len 8 ltac:(lia)) as Hm.
  assert (0 <= len / 8) by (apply Z.div_pos; lia).
  assert (Z.of_nat full = len / 8) as Hfull by (unfold full; lia).
  case_decide as Hr.
  - assert (length (drop full bs) = (w - full)%nat) as L by (rewrite length_drop; lia).
    rewrite <- (take_drop full bs) at 1.
    replace (8 * Z.of_nat w - len) with (8 * Z.of_nat (length (drop full bs))) by lia.
    apply be_combine_div0.
  - assert (length (drop (S full) bs) = (w - S full)%nat) as L by (rewrite length_drop; lia).
    rewrite (split_boundary bs full) at 1 by lia.
    replace (8 * Z.of_nat w - len)
      with (8 * Z.of_nat (length (drop (S full) bs)) + (8 - len mod 8)) by lia.
    apply be_combine_div. lia.
Qed.

(** The comparison of [IPPrefix::contains] on the significant bytes. *)
Lemma prefix_compare bs1 bs2 w len :
  length bs1 = w -> length bs2 = w -> 0 <= len <= 8 * Z.of_nat w ->
  let full := Z.to_nat (len / 8) in
  (take full bs1 = take full bs2 /\
   (len mod 8 <> 0 ->
    Z.land (bval (nth full bs1 x00)) (prefix_mask (len mod 8)) =
    Z.land (bval (nth full bs2 x00)) (prefix_mask (len mod 8)))) <->
  be_combine bs1 / 2 ^ (8 * Z.of_nat w - len) = be_combine bs2 / 2 ^ (8 * Z.of_nat w - len).
Proof.
  intros H1 H2 Hlen. cbv zeta. rewrite !prefix_bits by done.
  set (full := Z.to_nat (len / 8)).
  pose proof (Z.mod_pos_bound len 8 ltac:(lia)) as Hm.
  assert (length (take full bs1) = length (take full bs2)) as Hl
    by (rewrite !length_take; lia).
  set (r := len mod 8) in *. case_decide as Hr.
  { split; [by intros [-> _]|]. intros Heq. split; [by apply be_combine_inj|done]. }
  rewrite !prefix_mask_land by (apply bval_range || lia).
  assert (0 < 2 ^ (8 - r)) by (apply Z.pow_pos_nonneg; lia).
  assert (forall b : byte, 0 <= bval b / 2 ^ (8 - r) < 2 ^ r) as Hb.
  { intros b. pose proof (bval_range b) as Hb. split; [apply Z.div_pos; [apply Hb|lia]|].
    apply Z.div_lt_upper_bound; [lia|]. rewrite <- Z.pow_add_r by lia.
    replace (8 - r + r) with 8 by lia. apply Hb. }
  pose proof (Hb (nth full bs1 x00)). pose proof (Hb (nth full bs2 x00)). split.
  - intros [-> Heq]. specialize (Heq Hr). nia.
  - intros Heq.
    assert (be_combine (take full bs1) = be_combine (take full bs2)) by nia.
    split; [by apply be_combine_inj|nia].
Qed.

(** The two clearing loops of [canonicalize]. *)
Lemma zero_ranges lo mid (bs : list byte) :
  (lo <= mid)%nat -> (mid <= length bs)%nat ->
  zero_range mid (length bs) (zero_range lo mid bs) = take lo bs ++ zeros (length bs - lo).
Proof.
  intros Hl Hh. unfold zero_range, zeros. apply list_eq. intros i.
  rewrite !list_lookup_imap. destruct (decide (i < length bs)%nat) as [Hi|Hi].
  - destruct (lookup_lt_is_Some_2 bs i Hi) as [b Hb]. rewrite Hb; simpl.
    destruct (decide (i < lo)%nat).
    + rewrite lookup_app_l by (rewrite length_take; lia). rewrite lookup_take_lt by done.
      rewrite Hb. by destruct (Nat.leb_spec mid i), (Nat.leb_spec lo i); try lia.
    + rewrite lookup_app_r by (rewrite length_take; lia).
      rewrite lookup_replicate_2 by (rewrite length_take; lia).
      destruct (Nat.leb_spec mid i), (Nat.ltb_spec i (length bs)), (Nat.leb_spec lo i),
        (Nat.ltb_spec i mid); done || lia.
  - rewrite lookup_ge_None_2 by lia. symmetry. apply lookup_ge_None_2.
    rewrite length_app, length_take, length_replicate. lia.
Qed.

Lemma be_combine_zeros n : be_combine (zeros n) = 0.
Proof.
  induction n as [|n IH]; [done|]. change (zeros (S n)) with (x00 :: zeros n).
  rewrite be_combine_cons, IH. done.
Qed.

(** The bytes of a canonical prefix. *)
Lemma canonical_bytes p :
  ip_wf (prefix_address p) -> prefix_valid p = true -> 0 <= prefix_len p ->
  let full := Z.to_nat (prefix_len p / 8) in
  let r := prefix_len p mod 8 in
  let bs := ip_bytes (prefix_address p) in
  ip_bytes (prefix_address (canonicalize p)) =
    if r =? 0 then take full bs ++ zeros (16 - full)
    else take full bs ++ b8 (Z.land (bval (nth full bs x00)) (prefix_mask r)) ::
         zeros (16 - S full).
Proof.
  intros Hwf Hv Hlen. cbv zeta. unfold canonicalize. cbv zeta.
  apply andb_true_iff in Hv as [Hv Hl]. apply Z.leb_le in Hl.
  destruct (Z.ltb_spec (bit_width (prefix_address p)) (prefix_len p)); [lia|].
  cbn [prefix_address ip_bytes]. unfold ip_wf in Hwf.
  pose proof (Z.div_mod (prefix_len p) 8 ltac:(lia)) as Hd.
  pose proof (Z.mod_pos_bound (prefix_len p) 8 ltac:(lia)) as Hm.
  set (full := Z.to_nat (prefix_len p / 8)). set (r := prefix_len p mod 8) in *.
  set (W := Z.to_nat (bit_width (prefix_address p) / 8)).
  assert ((W = 4 \/ W = 16)%nat /\ bit_width (prefix_address p) = 8 * Z.of_nat W) as [HW Hbw].
  { unfold W, bit_width. unfold valid_family in Hv.
    destruct (family (prefix_address p)); [split; [by left|done]|split; [by right|done]|done]. }
  assert (0 <= prefix_len p / 8) by (apply Z.div_pos; lia).
  assert (Z.of_nat full = prefix_len p / 8) as Hfull by (unfold full; lia).
  set (bs := ip_bytes (prefix_address p)) in *.
  destruct (Z.eqb_spec r 0) as [Hr|Hr]; cbn [negb].
  - rewrite Nat.add_0_r.
    replace (length (zero_range full W bs)) with (length bs)
      by (unfold zero_range; by rewrite length_imap).
    rewrite zero_ranges by lia. by rewrite Hwf.
  - set (f := λ b, b8 (Z.land (bval b) (prefix_mask r))).
    replace (length (zero_range (full + 1) W (alter f full bs))) with (length (alter f full bs))
      by (unfold zero_range; by rewrite length_imap).
    assert (length (alter f full bs) = 16%nat) as Hla by by rewrite length_alter.
    rewrite zero_ranges by lia. rewrite Hla, Nat.add_1_r.
    rewrite (split_boundary bs full) at 1 by lia.
    assert (length (take full bs) = full) as Ht by (rewrite length_take; lia).
    rewrite alter_app_r_alt by lia. rewrite Ht, Nat.sub_diag. cbn [alter list_alter].
    rewrite (app_assoc _ [_] _ : _ ++ _ :: _ = _).
    rewrite take_app_length' by (rewrite length_app, Ht; simpl; lia).
    rewrite <- app_assoc. done.
Qed.

(** The width of a valid address in bytes. *)
Lemma valid_width a :
  valid_family a = true -> exists w, (w = 4 \/ w = 16)%nat /\ bit_width a = 8 * Z.of_nat w /\
    Z.to_nat (bit_width a / 8) = w.
Proof.
  unfold valid_family, bit_width.
  destruct (family a); intros Hv; [exists 4%nat|exists 16%nat|done]; auto.
Qed.

Lemma family_width a b : family a = family b -> bit_width a = bit_width b.
Proof. unfold bit_width. by intros ->. Qed.

(** The network part of an address: its [len] high bits. *)
Definition network_part (a : IPAddress) (len : Z) : Z :=
  addr_value a / 2 ^ (bit_width a - len).

Lemma prefix_contains_value p a :
  ip_wf (prefix_address p) -> ip_wf a -> 0 <= prefix_len p ->
  prefix_contains p a = true <->
  prefix_valid p = true /\ family a = family (prefix_address p) /\
  network_part a (prefix_len p) = network_part (prefix_address p) (prefix_len p).
Proof.
  intros Hp Ha Hlen. unfold prefix_contains, network_part, addr_value.
  destruct (prefix_valid p) eqn:Hv; cbn [negb orb]; [|intuition congruence].
  case_bool_decide as Hfam; cbn [negb]; [|intuition congruence].
  apply andb_true_iff in Hv as [Hv Hl]. apply Z.leb_le in Hl.
  rewrite (family_width a (prefix_address p) Hfam).
  destruct (valid_width _ Hv) as (w & Hw & Hbw & ->). rewrite Hbw in *.
  pose proof (Z.div_mod (prefix_len p) 8 ltac:(lia)) as Hd.
  pose proof (Z.mod_pos_bound (prefix_len p) 8 ltac:(lia)) as Hm.
  assert (0 <= prefix_len p / 8) by (apply Z.div_pos; lia).
  set (full := Z.to_nat (prefix_len p / 8)).
  assert (Z.of_nat full = prefix_len p / 8) as Hfull by (unfold full; lia).
  unfold ip_wf in *.
  pose proof (prefix_compare (take w (ip_bytes (prefix_address p))) (take w (ip_bytes a))
    w (prefix_len p) ltac:(rewrite length_take; lia) ltac:(rewrite length_take; lia)
    ltac:(lia)) as Hc. cbv zeta in Hc. fold full in Hc.
  rewrite !take_take, !Nat.min_l in Hc by lia. unfold ip_at.
  case_bool_decide as Ht; cbn [negb].
  2:{ split; [done|]. intros (_ & _ & Heq). symmetry in Heq. apply Hc in Heq as [? _]. done. }
  destruct (Z.eqb_spec (prefix_len p mod 8) 0) as [Hr|Hr]; cbn [negb].
  - split; [|done]. intros _. split; [done|]. split; [done|]. symmetry. by apply Hc.
  - assert (forall bs : list byte, length bs = 16%nat -> nth full (take w bs) x00 = nth full bs x00)
      as Hn.
    { intros bs Hbs. rewrite <- (take_drop w bs) at 2.
      rewrite app_nth1; [done|]. rewrite length_take. lia. }
    rewrite !Hn in Hc by done. rewrite Z.eqb_eq. split.
    + intros Heq. split; [done|]. split; [done|]. symmetry. by apply Hc.
    + intros (_ & _ & Heq). symmetry in Heq. by apply Hc.
Qed.

(** Prefix membership is agreement of the network bits: a well-formed
    address is in a prefix exactly when the prefix is valid, the families agree
    and the first [length] bits of both, as integers, are equal. *)
Theorem prefix_contains_spec p a :
  ip_wf (prefix_address p) -> ip_wf a -> 0 <= prefix_len p ->
  prefix_contains p a = true <->
  prefix_valid p = true /\ family a = family (prefix_address p) /\
  network_part a (prefix_len p) = network_part (prefix_address p) (prefix_len p).
Proof. apply prefix_contains_value. Qed.

Lemma canonicalize_shape p :
  family (prefix_address (canonicalize p)) = family (prefix_address p) /\
  prefix_len (canonicalize p) = prefix_len p.
Proof. unfold canonicalize. cbv zeta. by case_match. Qed.

Lemma canonicalize_valid p : prefix_valid (canonicalize p) = prefix_valid p.
Proof.
  destruct (canonicalize_shape p) as [Hf Hl].
  unfold prefix_valid, valid_family, bit_width. by rewrite Hf, Hl.
Qed.

(** Canonical form keeps the network bits and clears every other bit. *)
Lemma canonicalize_value p :
  ip_wf (prefix_address p) -> prefix_valid p = true -> 0 <= prefix_len p ->
  ip_wf (prefix_address (canonicalize p)) /\
  addr_value (prefix_address (canonicalize p)) =
    network_part (prefix_address p) (prefix_len p) *
    2 ^ (bit_width (prefix_address p) - prefix_len p).
Proof.
  intros Hwf Hv Hlen. pose proof (canonical_bytes p Hwf Hv Hlen) as Hb. cbv zeta in Hb.
  destruct (canonicalize_shape p) as [Hf _]. apply family_width in Hf.
  unfold addr_value, network_part, addr_value, ip_wf. rewrite Hf, Hb.
  apply andb_true_iff in Hv as [Hv Hl]. apply Z.leb_le in Hl.
  destruct (valid_width _ Hv) as (w & Hw & Hbw & Hw'). rewrite Hw', Hbw in *. clear Hb.
  unfold ip_wf in Hwf. set (bs := ip_bytes (prefix_address p)) in *.
  pose proof (Z.div_mod (prefix_len p) 8 ltac:(lia)) as Hd.
  pose proof (Z.mod_pos_bound (prefix_len p) 8 ltac:(lia)) as Hm.
  assert (0 <= prefix_len p / 8) by (apply Z.div_pos; lia).
  rewrite (prefix_bits (take w bs)) by (rewrite ?length_take; lia).
  set (full := Z.to_nat (prefix_len p / 8)).
  assert (Z.of_nat full = prefix_len p / 8) as Hfull by (unfold full; lia).
  assert (length (take full bs) = full) as Ht by (rewrite length_take; lia).
  rewrite take_take, Nat.min_l by lia.
  destruct (Z.eqb_spec (prefix_len p mod 8) 0) as [Hr|Hr].
  - rewrite decide_True by done. split.
    { rewrite length_app, Ht, length_zeros. lia. }
    rewrite take_app, Ht, take_ge by lia. unfold zeros. rewrite take_replicate.
    fold (zeros ((w - full) `min` (16 - full))). rewrite Nat.min_l by lia.
    rewrite be_combine_app, be_combine_zeros, length_zeros, pow256, Z.add_0_r.
    do 2 f_equal. lia.
  - rewrite decide_False by done. split.
    { rewrite length_app, length_cons, Ht, length_zeros. lia. }
    assert (full < w)%nat by lia.
    assert (nth full (take w bs) x00 = nth full bs x00) as ->.
    { rewrite <- (take_drop w bs) at 2. rewrite app_nth1; [done|]. rewrite length_take. lia. }
    rewrite take_app, Ht, (take_ge (take full bs)) by lia.
    destruct (w - full)%nat as [|k] eqn:Ek; [lia|]. cbn [take]. unfold zeros.
    rewrite take_replicate. fold (zeros (k `min` (16 - S full))). rewrite Nat.min_l by lia.
    rewrite be_combine_app, be_combine_cons, be_combine_zeros, length_cons, length_zeros.
    rewrite prefix_mask_land by (apply bval_range || lia).
    set (x := bval (nth full bs x00)). set (r := prefix_len p mod 8) in *.
    assert (0 < 2 ^ (8 - r)) by (apply Z.pow_pos_nonneg; lia).
    assert (u8 (x / 2 ^ (8 - r) * 2 ^ (8 - r))) as Hu.
    { pose proof (bval_range (nth full bs x00)) as [? ?].
      pose proof (Z.mul_div_le x (2 ^ (8 - r)) ltac:(lia)).
      assert (0 <= x / 2 ^ (8 - r)) by (apply Z.div_pos; unfold x; lia).
      unfold in_width, x in *. nia. }
    rewrite bval_b8, wrap_small by done. rewrite Nat2Z.inj_succ, Z.pow_succ_r by lia.
    replace (8 * Z.of_nat w - prefix_len p) with (8 * Z.of_nat k + (8 - r)) by lia.
    rewrite Z.pow_add_r, <- pow256 by lia.
    replace 256 with (2 ^ r * 2 ^ (8 - r)) at 1
      by (rewrite <- Z.pow_add_r by lia; by replace (r + (8 - r)) with 8 by lia).
    ring.
Qed.

Lemma canonicalize_network p :
  ip_wf (prefix_address p) -> prefix_valid p = true -> 0 <= prefix_len p ->
  network_part (prefix_address (canonicalize p)) (prefix_len p) =
  network_part (prefix_address p) (prefix_len p).
Proof.
  intros Hwf Hv Hlen. destruct (canonicalize_value p Hwf Hv Hlen) as [_ Hval].
  unfold network_part at 1. rewrite Hval.
  rewrite (family_width _ _ (proj1 (canonicalize_shape p))).
  apply andb_true_iff in Hv as [_ Hl]. apply Z.leb_le in Hl.
  apply Z.div_mul, Z.pow_nonzero; lia.
Qed.

Lemma canonicalize_eq p q :
  ip_wf (prefix_address p) -> ip_wf (prefix_address q) ->
  prefix_valid p = true -> 0 <= prefix_len p ->
  family (prefix_address p) = family (prefix_address q) -> prefix_len p = prefix_len q ->
  network_part (prefix_address p) (prefix_len p) =
    network_part (prefix_address q) (prefix_len q) ->
  canonicalize p = canonicalize q.
Proof.
  intros Hp Hq Hv Hlen Hfam Hl Hnet.
  assert (prefix_valid q = true) as Hvq.
  { revert Hv. unfold prefix_valid, valid_family, bit_width. by rewrite Hfam, Hl. }
  pose proof (canonical_bytes p Hp Hv Hlen) as Bp.
  pose proof (canonical_bytes q Hq Hvq ltac:(lia)) as Bq. cbv zeta in Bp, Bq.
  destruct (canonicalize_shape p) as [Fp Lp], (canonicalize_shape q) as [Fq Lq].
  destruct (canonicalize p) as [[fp bp] lp], (canonicalize q) as [[fq bq] lq]; simpl in *.
  assert (bp = bq) as ->; [|congruence]. rewrite Bp, Bq, <- Hl. clear Bp Bq.
  apply andb_true_iff in Hv as [Hv Hle]. apply Z.leb_le in Hle.
  unfold network_part, addr_value in Hnet. rewrite <- (family_width _ _ Hfam), <- Hl in Hnet.
  destruct (valid_width _ Hv) as (w & Hw & Hbw & Hw'). rewrite Hw', Hbw in *.
  unfold ip_wf in *.
  pose proof (Z.div_mod (prefix_len p) 8 ltac:(lia)) as Hd.
  pose proof (Z.mod_pos_bound (prefix_len p) 8 ltac:(lia)) as Hm.
  assert (0 <= prefix_len p / 8) by (apply Z.div_pos; lia).
  apply prefix_compare in Hnet as [Ht Hb]; [|rewrite ?length_take; lia..].
  set (full := Z.to_nat (prefix_len p / 8)) in *.
  assert (Z.of_nat full = prefix_len p / 8) as Hfull by (unfold full; lia).
  rewrite !take_take, !Nat.min_l in Ht by lia. rewrite Ht.
  destruct (Z.eqb_spec (prefix_len p mod 8) 0) as [|Hr]; [done|]. specialize (Hb Hr).
  assert (forall bs : list byte, length bs = 16%nat -> nth full (take w bs) x00 = nth full bs x00)
    as Hn.
  { intros bs Hbs. rewrite <- (take_drop w bs) at 2.
    rewrite app_nth1; [done|]. rewrite length_take. lia. }
  rewrite !Hn in Hb by done. by rewrite Hb.
Qed.

(** Canonical prefixes identify networks: two valid prefixes of one family
    and length have the same canonical form exactly when they denote the same
    network, and canonicalisation is idempotent.  Route tables may therefore
    compare prefixes by equality. *)
Theorem canonical_prefix_identifies_network p q :
  ip_wf (prefix_address p) -> ip_wf (prefix_address q) ->
  prefix_valid p = true -> 0 <= prefix_len p ->
  family (prefix_address p) = family (prefix_address q) -> prefix_len p = prefix_len q ->
  (canonicalize p = canonicalize q <->
   network_part (prefix_address p) (prefix_len p) =
   network_part (prefix_address q) (prefix_len q)) /\
  canonicalize (canonicalize p) = canonicalize p.
Proof.
  intros Hp Hq Hv Hlen Hfam Hl. split.
  - split; [|by apply canonicalize_eq]. intros Heq.
    assert (prefix_valid q = true) as Hvq.
    { rewrite <- canonicalize_valid, <- Heq. by rewrite canonicalize_valid. }
    rewrite <- (canonicalize_network p), <- (canonicalize_network q) by (done || lia).
    by rewrite Heq, Hl.
  - destruct (canonicalize_value p Hp Hv Hlen) as [Hwf _].
    destruct (canonicalize_shape p) as [Hf Hle].
    apply canonicalize_eq; try done; try by rewrite ?Hle, ?canonicalize_valid.
    rewrite Hle. by apply canonicalize_network.
Qed.

Lemma prefix_contains_spec_witness :
  prefix_contains (mkPrefix (from_ipv4 167772160) 12) (from_ipv4 168820737) = true <->
  prefix_valid (mkPrefix (from_ipv4 167772160) 12) = true /\ IPv4 = IPv4 /\
  network_part (from_ipv4 168820737) 12 = network_part (from_ipv4 167772160) 12.
Proof.
  apply (prefix_contains_spec (mkPrefix (from_ipv4 167772160) 12) (from_ipv4 168820737)).
  - reflexivity.
  - reflexivity.
  - vm_compute. discriminate.
Defined.

Lemma canonical_prefix_identifies_network_witness :
  (canonicalize (mkPrefix (from_ipv4 167772161) 8) =
   canonicalize (mkPrefix (from_ipv4 167837697) 8) <->
   network_part (from_ipv4 167772161) 8 = network_part (from_ipv4 167837697) 8) /\
  canonicalize (canonicalize (mkPrefix (from_ipv4 167772161) 8)) =
    canonicalize (mkPrefix (from_ipv4 167772161) 8).
Proof.
  apply (canonical_prefix_identifies_network (mkPrefix (from_ipv4 167772161) 8)
    (mkPrefix (from_ipv4 167837697) 8)).
  - reflexivity.
  - reflexivity.
  - reflexivity.
  - vm_compute. discriminate.
  - reflexivity.
  - reflexivity.
Defined.
