(* ===== verification/Endpoint.v ===== *)
(** * Endpoints and endpoint candidates

    [include/aegis/net/endpoint.hpp] and the candidate list a node sends to its peers
    ([src/protocol/endpoint_candidate.cpp]).  Ports and IPv4 addresses are kept in
    network order in fields the host reads in little-endian order, so [ntohs] and
    [ntohl] swap bytes. *)

From Stdlib Require Import ZArith Lia Bool.
From Stdlib.Strings Require Import Byte.
From stdpp Require Import base numbers option list.
From S2P Require Import Prelude Wire Crypto IpAddress.

Definition ntohs (x : Z) : Z := be_combine (le_split 2 x).
Definition ntohl (x : Z) : Z := be_combine (le_split 4 x).

Record Endpoint := mkEndpoint {
  address : IPAddress;
  port : Z;  (** network order *)
}.

#[export] Instance endpoint_eq_dec : EqDecision Endpoint.
Proof. solve_decision. Defined.

(** The constructor [Endpoint(uint32_t, uint16_t)]. *)
Definition ipv4_endpoint (ipv4_network_order port_network_order : Z) : Endpoint :=
  mkEndpoint (from_ipv4 (ntohl ipv4_network_order)) port_network_order.

Definition is_ipv4 (e : Endpoint) : bool := bool_decide (family (address e) = IPv4).
Definition is_ipv6 (e : Endpoint) : bool := bool_decide (family (address e) = IPv6).

Definition ipv4_network (e : Endpoint) : Z :=
  if is_ipv4 e then ntohl (ipv4_value (address e)) else 0.

Definition unspecified (e : Endpoint) : bool :=
  forallb (λ i, ip_at (address e) i =? 0) (seq 0 (Z.to_nat (bit_width (address e) / 8))).

Definition from_parts (a b c d port : Z) : Endpoint :=
  ipv4_endpoint (ntohl (Z.lor (Z.lor (Z.lor (Z.shiftl a 24) (Z.shiftl b 16))
                                     (Z.shiftl c 8)) d)) (ntohs port).

(** ** Endpoint candidates *)

Definition ENDPOINT_CANDIDATE_VERSION : Z := 1.
Definition ENDPOINT_CANDIDATE_MAX_COUNT : Z := 8.
Definition ENDPOINT_CANDIDATE_HEADER_SIZE : nat := 36.
Definition ENDPOINT_CANDIDATE_ENTRY_SIZE : nat := 12.

(** [enum class EndpointCandidateType : uint8_t]; a cast can give any byte. *)
Inductive EndpointCandidateType :=
  Host | ServerReflexive | PeerObserved | OtherType (raw : Z).

#[export] Instance candidate_type_eq_dec : EqDecision EndpointCandidateType.
Proof. solve_decision. Defined.

Definition type_value (t : EndpointCandidateType) : Z :=
  match t with Host => 1 | ServerReflexive => 2 | PeerObserved => 3 | OtherType raw => raw end.
Definition type_of (raw : Z) : EndpointCandidateType :=
  if raw =? 1 then Host else if raw =? 2 then ServerReflexive
  else if raw =? 3 then PeerObserved else OtherType raw.

Definition known_type (t : EndpointCandidateType) : bool :=
  bool_decide (t = Host) || bool_decide (t = ServerReflexive) || bool_decide (t = PeerObserved).

Record EndpointCandidate := mkCandidate {
  cand_type : EndpointCandidateType;
  cand_endpoint : Endpoint;
  priority : Z;
}.

#[export] Instance candidate_eq_dec : EqDecision EndpointCandidate.
Proof. solve_decision. Defined.

Record EndpointCandidateMessage := mkCandidates {
  subject : NodeId;
  candidates : list EndpointCandidate;
}.

Definition valid_endpoint_candidate (c : EndpointCandidate) : bool :=
  if negb (known_type (cand_type c)) || negb (is_ipv4 (cand_endpoint c)) ||
     unspecified (cand_endpoint c) || (port (cand_endpoint c) =? 0) || (priority c =? 0)
  then false
  else
    let ip := ntohl (ipv4_network (cand_endpoint c)) in
    negb (ip =? 4294967295) && negb (Z.land ip 4026531840 =? 3758096384).

(** [endpoints.emplace(address, port).second] for each candidate in turn, together with
    the validity check of the same loop. *)
Fixpoint valid_distinct (seen : list (IPAddress * Z)) (cs : list EndpointCandidate) : bool :=
  match cs with
  | [] => true
  | c :: cs =>
      let key := (address (cand_endpoint c), port (cand_endpoint c)) in
      if negb (valid_endpoint_candidate c) || bool_decide (key ∈ seen) then false
      else valid_distinct (key :: seen) cs
  end.

Definition write_candidate (c : EndpointCandidate) : WriteOp :=
  write_u8 (type_value (cand_type c)) &> write_u8 0 &>
  write_u16 (ntohs (port (cand_endpoint c))) &>
  write_u32 (ntohl (ipv4_network (cand_endpoint c))) &> write_u32 (priority c).

Definition serialize_endpoint_candidates (m : EndpointCandidateMessage) : option (list byte) :=
  let count := Z.of_nat (length (candidates m)) in
  if bool_decide (subject m = zero32) || (count =? 0) ||
     (ENDPOINT_CANDIDATE_MAX_COUNT <? count) then None
  else if negb (valid_distinct [] (candidates m)) then None
  else
    encode_exact
      (ENDPOINT_CANDIDATE_HEADER_SIZE + length (candidates m) * ENDPOINT_CANDIDATE_ENTRY_SIZE)
      (write_u8 ENDPOINT_CANDIDATE_VERSION &> write_u8 count &> write_u16 0 &>
       write_bytes (subject m) &> write_each write_candidate (candidates m)).

(** One iteration of the read loop, without the checks on the candidate. *)
Definition read_candidate (r : WireReader) : option EndpointCandidate * WireReader :=
  let '(type, r) := read_u8 r in
  let '(entry_reserved, r) := read_u8 r in
  let '(port, r) := read_u16 r in
  let '(ip, r) := read_u32 r in
  let '(priority, r) := read_u32 r in
  match type, entry_reserved, port, ip, priority with
  | Some type, Some entry_reserved, Some port, Some ip, Some priority =>
      if entry_reserved =? 0
      then (Some (mkCandidate (type_of type) (ipv4_endpoint (ntohl ip) (ntohs port)) priority), r)
      else (None, r)
  | _, _, _, _, _ => (None, r)
  end.

Fixpoint read_candidates (count : nat) (seen : list (IPAddress * Z)) (r : WireReader)
    : option (list EndpointCandidate) * WireReader :=
  match count with
  | O => (Some [], r)
  | S count =>
      match read_candidate r with
      | (None, r) => (None, r)
      | (Some c, r) =>
          let key := (address (cand_endpoint c), port (cand_endpoint c)) in
          if negb (valid_endpoint_candidate c) || bool_decide (key ∈ seen) then (None, r)
          else
            match read_candidates count (key :: seen) r with
            | (None, r) => (None, r)
            | (Some cs, r) => (Some (c :: cs), r)
            end
      end
  end.

Definition deserialize_endpoint_candidates (payload : list byte)
    : option EndpointCandidateMessage :=
  let r := wire_reader payload in
  let '(version, r) := read_u8 r in
  let '(count, r) := read_u8 r in
  let '(reserved, r) := read_u16 r in
  let '(subject, r) := read_bytes NODE_ID_SIZE r in
  match version, count, reserved, subject with
  | Some version, Some count, Some reserved, Some subject =>
      if negb (version =? ENDPOINT_CANDIDATE_VERSION) || (count =? 0) ||
         (ENDPOINT_CANDIDATE_MAX_COUNT <? count) || negb (reserved =? 0) ||
         negb (Nat.eqb (length payload)
           (ENDPOINT_CANDIDATE_HEADER_SIZE + Z.to_nat count * ENDPOINT_CANDIDATE_ENTRY_SIZE))
      then None
      else if bool_decide (subject = zero32) then None
      else
        match read_candidates (Z.to_nat count) [] r with
        | (None, _) => None
        | (Some cs, r) => if rd_finished r then Some (mkCandidates subject cs) else None
        end
  | _, _, _, _ => None
  end.

(** [gather_host_candidates] on the addresses the resolver returned, in order. *)
Fixpoint gather_from (local_port : Z) (addresses : list Z) (seen : list Z)
    (acc : list EndpointCandidate) : list EndpointCandidate :=
  match addresses with
  | [] => acc
  | a :: addresses =>
      if negb (Z.of_nat (length acc) <? ENDPOINT_CANDIDATE_MAX_COUNT) then acc else
      let c := mkCandidate Host (ipv4_endpoint a (ntohs local_port))
                 (300 - Z.of_nat (length acc)) in
      if valid_endpoint_candidate c && negb (bool_decide (ipv4_network (cand_endpoint c) ∈ seen))
      then gather_from local_port addresses (ipv4_network (cand_endpoint c) :: seen) (acc ++ [c])
      else gather_from local_port addresses seen acc
  end.

(** ** Byte order *)

Lemma swap_range n x : in_width (8 * Z.of_nat n) (be_combine (le_split n x)).
Proof.
  pose proof (be_combine_range (le_split n x)) as H.
  rewrite length_le_split, pow256 in H. done.
Qed.

Lemma swap_involutive n x :
  in_width (8 * Z.of_nat n) x ->
  be_combine (le_split n (be_combine (le_split n x))) = x.
Proof.
  intros Hx. unfold le_split at 1. rewrite be_split_combine by apply length_le_split.
  unfold le_split. rewrite rev_involutive, be_combine_split. by apply wrap_small.
Qed.

Lemma ntohs_range x : u16 (ntohs x).
Proof. apply (swap_range 2). Qed.
Lemma ntohl_range x : u32 (ntohl x).
Proof. apply (swap_range 4). Qed.
Lemma ntohs_involutive x : u16 x -> ntohs (ntohs x) = x.
Proof. apply (swap_involutive 2). Qed.
Lemma ntohl_involutive x : u32 x -> ntohl (ntohl x) = x.
Proof. apply (swap_involutive 4). Qed.

Lemma from_ipv4_bytes v : ip_bytes (from_ipv4 v) = be_split 4 v ++ zeros 12.
Proof. unfold from_ipv4, be_split. simpl. by rewrite Z.shiftr_0_r. Qed.

Lemma ipv4_value_from v : u32 v -> ipv4_value (from_ipv4 v) = v.
Proof.
  intros Hv. unfold ipv4_value. cbn [family from_ipv4].
  transitivity (be_combine (be_split 4 v)).
  - rewrite <- be_combine_4 by apply length_be_split. unfold ip_at. by rewrite from_ipv4_bytes.
  - rewrite be_combine_split. by apply wrap_small.
Qed.

(** ** The candidate list on the wire *)

(** What a candidate must be for the wire format to carry all of it: an IPv4 address
    with nothing beyond its four bytes, and fields of their declared width. *)
Definition candidate_wf (c : EndpointCandidate) : Prop :=
  (exists v, u32 v /\ address (cand_endpoint c) = from_ipv4 v) /\
  u16 (port (cand_endpoint c)) /\ u32 (priority c) /\
  u8 (type_value (cand_type c)) /\ type_of (type_value (cand_type c)) = cand_type c.

Definition candidate_bytes (c : EndpointCandidate) : list byte :=
  be_split 1 (type_value (cand_type c)) ++ be_split 1 0 ++
  be_split 2 (ntohs (port (cand_endpoint c))) ++
  be_split 4 (ntohl (ipv4_network (cand_endpoint c))) ++ be_split 4 (priority c).

Arguments candidate_bytes : simpl never.

Lemma emits_candidate c : Emits (write_candidate c) (candidate_bytes c).
Proof. unfold write_candidate, candidate_bytes. solve_emits. Qed.

Lemma length_candidate_bytes c : length (candidate_bytes c) = 12%nat.
Proof. unfold candidate_bytes. by rewrite !length_app, !length_be_split. Qed.

Lemma network_ipv4_endpoint v p : u32 v -> ntohl (ipv4_network (mkEndpoint (from_ipv4 v) p)) = v.
Proof.
  intros Hv. unfold ipv4_network, is_ipv4. cbn [address family from_ipv4].
  rewrite bool_decide_eq_true_2 by done. rewrite ipv4_value_from by done.
  by apply ntohl_involutive.
Qed.

Lemma type_of_range v : u8 v -> u8 (type_value (type_of v)) /\ type_value (type_of v) = v.
Proof. intros Hv. unfold type_of. repeat case_match; simpl; split; try done; lia. Qed.

#[export] Instance reads_candidate : Reads read_candidate candidate_bytes candidate_wf.
Proof.
  split.
  - intros [t [a p] pr] pre post ((v & Hv & Ha) & Hp & Hpr & Ht & Hty).
    cbn [cand_type cand_endpoint priority port address] in *. subst a.
    unfold read_candidate, candidate_bytes. rewrite <- !app_assoc.
    cbn [cand_type cand_endpoint priority port]. pose proof (ntohs_range p) as Hr.
    rewrite network_ipv4_endpoint by done. rd_run. simpl.
    rewrite Hty, ntohs_involutive by done. unfold ipv4_endpoint.
    rewrite ntohl_involutive by done. by rewrite <- !app_assoc.
  - intros c pre post r' H. unfold read_candidate in H.
    rd_inv_step H. rd_inv_step H. rd_inv_step H. rd_inv_step H. rd_inv_step H.
    case_match eqn:Hz; [|done]. apply Z.eqb_eq in Hz as ->.
    apply pair_eq in H as [<-%(inj Some) <-]. unfold candidate_wf, candidate_bytes, ipv4_endpoint.
    cbn [cand_type cand_endpoint priority port address].
    destruct (type_of_range _ W) as [Ht Htv].
    rewrite ntohs_involutive, Htv, ntohl_involutive, network_ipv4_endpoint by done.
    split_and!; try done; [by eauto|apply ntohs_range|].
    eexists. split; [by rewrite <- !app_assoc|]. by rewrite <- !app_assoc.
Qed.

(** The read loop accepts exactly the encodings of candidates that pass the checks. *)
Lemma read_candidates_ok cs seen pre post :
  Forall candidate_wf cs -> valid_distinct seen cs = true ->
  read_candidates (length cs) seen (rd_at pre (flat_map candidate_bytes cs ++ post)) =
    (Some cs, rd_at (pre ++ flat_map candidate_bytes cs) post).
Proof.
  intros Hwf. revert seen pre. induction Hwf as [|c cs Hc Hcs IH]; intros seen pre.
  { simpl. by rewrite app_nil_r. }
  cbn [length read_candidates valid_distinct flat_map].
  destruct (negb _ || _) eqn:Hg; [done|]. intros Hv.
  rewrite <- app_assoc, (reads_ok (f := read_candidate)) by done. rewrite Hg, IH by done.
  by rewrite app_assoc.
Qed.

Lemma read_candidates_inv n seen pre post cs r' :
  read_candidates n seen (rd_at pre post) = (Some cs, r') ->
  length cs = n /\ Forall candidate_wf cs /\ valid_distinct seen cs = true /\
  exists post', post = flat_map candidate_bytes cs ++ post' /\
    r' = rd_at (pre ++ flat_map candidate_bytes cs) post'.
Proof.
  revert seen pre post cs r'. induction n as [|n IH]; intros seen pre post cs r'; simpl.
  { intros [= <- <-]. split_and!; [done|constructor|done|]. exists post. by rewrite app_nil_r. }
  destruct (read_candidate _) as [[c|] r1] eqn:E; [|done].
  apply (reads_inv (f := read_candidate)) in E as [Hc (p1 & -> & ->)].
  destruct (negb _ || _) eqn:Hg; [done|].
  destruct (read_candidates _ _ _) as [[cs1|] r2] eqn:E; [|done].
  apply IH in E as (Hn & Hwf & Hv & p2 & -> & ->). intros [= <- <-]. simpl. rewrite Hg.
  split_and!; [by f_equal|by constructor|done|]. exists p2. by rewrite <- !app_assoc.
Qed.

Definition message_wf (m : EndpointCandidateMessage) : Prop :=
  is32 (subject m) /\ Forall candidate_wf (candidates m).

Definition candidates_bytes (m : EndpointCandidateMessage) : list byte :=
  be_split 1 1 ++ be_split 1 (Z.of_nat (length (candidates m))) ++ be_split 2 0 ++
  subject m ++ flat_map candidate_bytes (candidates m).

Lemma length_flat_candidates cs :
  length (flat_map candidate_bytes cs) = (length cs * 12)%nat.
Proof.
  induction cs as [|c cs IH]; [done|]. cbn [flat_map length].
  rewrite length_app, length_candidate_bytes, IH. lia.
Qed.

Definition sendable_message (m : EndpointCandidateMessage) : Prop :=
  subject m <> zero32 /\ 1 <= Z.of_nat (length (candidates m)) <= 8 /\
  valid_distinct [] (candidates m) = true.

Lemma serialize_candidates_eq m :
  is32 (subject m) ->
  serialize_endpoint_candidates m = Some (candidates_bytes m) /\ sendable_message m \/
  serialize_endpoint_candidates m = None /\ ~ sendable_message m.
Proof.
  intros Hs. unfold serialize_endpoint_candidates, sendable_message,
    ENDPOINT_CANDIDATE_MAX_COUNT.
  case_bool_decide as Hz; [right; split; [done|tauto]|].
  destruct (_ =? 0) eqn:H0; [right; split; [done|lia]|].
  destruct (8 <? _) eqn:H8; [right; split; [done|lia]|]. cbn [orb].
  destruct (valid_distinct [] _); cbn [negb]; [|right; split; [done|naive_solver]].
  left. split; [|split_and!; [done|lia|lia|done]].
  erewrite encode_exact_emits
    by (repeat (simple eapply emits_and; [solve_emits|]);
        apply emits_each; intros; apply emits_candidate).
  rewrite decide_True; [done|].
  rewrite !length_app, !length_be_split, length_flat_candidates, Hs.
  unfold ENDPOINT_CANDIDATE_HEADER_SIZE, ENDPOINT_CANDIDATE_ENTRY_SIZE. lia.
Qed.

Lemma deserialize_candidates_ok m :
  message_wf m -> sendable_message m ->
  deserialize_endpoint_candidates (candidates_bytes m) = Some m.
Proof.
  intros [Hs Hwf] (Hz & Hn & Hv). unfold deserialize_endpoint_candidates.
  assert (length (candidates_bytes m) = 36 + length (candidates m) * 12)%nat as Hlen
    by (unfold candidates_bytes; rewrite !length_app, !length_be_split,
          length_flat_candidates, Hs; lia).
  rewrite Hlen. unfold candidates_bytes. rewrite wire_reader_at.
  assert (u8 (Z.of_nat (length (candidates m)))) by (unfold in_width; lia).
  rewrite (reads_ok (f := read_u8)) by done. rewrite (reads_ok (f := read_u8)) by done.
  rewrite (reads_ok (f := read_u16)) by done. rewrite read_bytes_ok by done.
  rewrite Nat2Z.id, <- (app_nil_r (flat_map candidate_bytes _)).
  rewrite read_candidates_ok by done. rewrite rd_finished_at, (bool_decide_eq_true_2 ([] = [])) by done.
  rewrite (bool_decide_eq_false_2 (subject m = zero32)) by done.
  unfold ENDPOINT_CANDIDATE_MAX_COUNT. rewrite (proj2 (Z.eqb_neq _ 0)) by lia.
  rewrite (proj2 (Z.ltb_ge 8 _)) by lia.
  rewrite (proj2 (Nat.eqb_eq _ _)) by done. by destruct m.
Qed.

Lemma deserialize_candidates_inv bs m :
  deserialize_endpoint_candidates bs = Some m ->
  message_wf m /\ sendable_message m /\ bs = candidates_bytes m.
Proof.
  unfold deserialize_endpoint_candidates. rewrite wire_reader_at. intros H.
  do 4 rd_inv_step H. case_match eqn:Hg; [done|]. case_bool_decide as Hz; [done|].
  destruct (read_candidates _ _ _) as [[cs|] r'] eqn:E; [|done].
  apply read_candidates_inv in E as (Hn & Hwf & Hv & p & -> & ->).
  rewrite rd_finished_at in H. case_bool_decide; [|done]. subst p. injection H as <-.
  unfold ENDPOINT_CANDIDATE_MAX_COUNT, ENDPOINT_CANDIDATE_VERSION in *.
  destruct (Z.eqb_spec v 1), (Z.eqb_spec v0 0), (Z.ltb_spec 8 v0), (Z.eqb_spec v1 0); try done.
  subst. unfold in_width in *. unfold message_wf, sendable_message, candidates_bytes. simpl.
  rewrite app_nil_r, Hn, Z2Nat.id by lia. split_and!; try done; lia.
Qed.

(** ** Properties *)

(** Endpoint candidate lists: a payload decodes to a message exactly when the message is
    in range and encodes to that payload.  Whatever a peer sends, a decoded list has a
    non-zero subject and one to eight pairwise distinct, usable IPv4 endpoints, and no
    two payloads decode to the same message. *)
Theorem endpoint_candidates_codec bs m :
  deserialize_endpoint_candidates bs = Some m <->
  message_wf m /\ sendable_message m /\ serialize_endpoint_candidates m = Some bs.
Proof.
  split.
  - intros (Hwf & Hs & ->)%deserialize_candidates_inv. split_and!; [done..|].
    by destruct (serialize_candidates_eq m (proj1 Hwf)) as [[Hb _]|[_ []]].
  - intros (Hwf & Hs & He).
    destruct (serialize_candidates_eq m (proj1 Hwf)) as [[Hb _]|[_ []]]; [|done].
    rewrite Hb in He. injection He as <-. by apply deserialize_candidates_ok.
Qed.
