(* ===== verification/Text.v ===== *)
(** * Text forms of addresses and endpoints ([include/aegis/net], [src/main.cpp])

    [IPAddress::parse], [IPPrefix::parse] and [IPInterfaceAddress::parse] of
    [ip_address.hpp], [endpoint_to_string] of [endpoint.hpp], [parse_endpoint] of [main.cpp]
    and the integers and hexadecimal strings they are made of.  Text is a list of bytes.  The
    theorems: what is printed parses back, and what parses is well formed. *)

From Stdlib Require Import ZArith Lia Bool.
From Stdlib.Strings Require Import Byte String.
From stdpp Require Import base numbers option list.
From S2P Require Import Prelude Wire Crypto IpAddress Endpoint.

(** ** Characters *)

Definition lit (s : string) : list byte := list_byte_of_string s.
Arguments lit s%_string_scope.

Definition DOT : byte := x2e.
Definition COLON : byte := x3a.
Definition SLASH : byte := x2f.

Definition decimal_digit (c : byte) : option Z :=
  if (48 <=? bval c) && (bval c <=? 57) then Some (bval c - 48) else None.

Definition hexval (c : byte) : option Z :=
  let v := bval c in
  if (48 <=? v) && (v <=? 57) then Some (v - 48)
  else if (97 <=? v) && (v <=? 102) then Some (v - 97 + 10)
  else if (65 <=? v) && (v <=? 70) then Some (v - 65 + 10)
  else None.

Definition hex_char (nibble : Z) : byte := nth (Z.to_nat nibble) (lit "0123456789abcdef") x00.

(** ** Searching *)

(** The pieces a loop [while (start < size)] over [find(sep, start)] visits, which are those
    [std::getline] reads: a separator at the end does not open another piece. *)
Fixpoint pieces (sep : byte) (s : list byte) : list (list byte) :=
  match s with
  | [] => []
  | c :: s =>
      if decide (c = sep) then [] :: pieces sep s
      else match pieces sep s with [] => [[c]] | p :: ps => (c :: p) :: ps end
  end.

(** The text before and after the first [sep]. *)
Fixpoint split_first (sep : byte) (s : list byte) : option (list byte * list byte) :=
  match s with
  | [] => None
  | c :: s =>
      if decide (c = sep) then Some ([], s)
      else match split_first sep s with Some (a, b) => Some (c :: a, b) | None => None end
  end.

(** The text before and after the last [sep]. *)
Definition split_last (sep : byte) (s : list byte) : option (list byte * list byte) :=
  match split_first sep (rev s) with Some (b, a) => Some (rev a, rev b) | None => None end.

(** The text before and after the first pair [sep sep]. *)
Fixpoint split_pair (sep : byte) (s : list byte) : option (list byte * list byte) :=
  match s with
  | [] => None
  | c :: s' =>
      match s' with
      | d :: s'' =>
          if decide (c = sep /\ d = sep) then Some ([], s'')
          else match split_pair sep s' with Some (a, b) => Some (c :: a, b) | None => None end
      | [] => None
      end
  end.

(** The text from [find_first_not_of(set)] on; empty when there is no such character. *)
Fixpoint skip_of (set s : list byte) : list byte :=
  match s with
  | [] => []
  | c :: s' => if bool_decide (c ∈ set) then skip_of set s' else s
  end.

(** The text between the first and the last character outside [set]. *)
Definition trim_of (set s : list byte) : option (list byte) :=
  match skip_of set s with
  | [] => None
  | s' => Some (rev (skip_of set (rev s')))
  end.

(** ** Integers *)

(** The value of a string of digits; [None] at the first other character. *)
Fixpoint decimal_from (acc : Z) (s : list byte) : option Z :=
  match s with
  | [] => Some acc
  | c :: s =>
      match decimal_digit c with Some d => decimal_from (acc * 10 + d) s | None => None end
  end.

(** [std::to_string] on unsigned integers; [fuel] digits are enough below [10 ^ fuel]. *)
Fixpoint print_dec (fuel : nat) (n : Z) (acc : list byte) : list byte :=
  match fuel with
  | O => acc
  | S fuel =>
      let acc := b8 (48 + n mod 10) :: acc in
      if n <? 10 then acc else print_dec fuel (n / 10) acc
  end.
Definition to_string (n : Z) : list byte := print_dec 20 n [].

(** ** Addresses *)

Definition parse_octet (field : list byte) : option byte :=
  if Nat.eqb (length field) 0 || Nat.ltb 3 (length field) then None
  else match decimal_from 0 field with
       | Some value => if 255 <? value then None else Some (b8 value)
       | None => None
       end.

Definition parse_ipv4 (text : list byte) : option IPAddress :=
  if bool_decide (last text = Some DOT) then None
  else match mapM parse_octet (pieces DOT text) with
       | Some octets =>
           if Nat.eqb (length octets) 4 then Some (mkIP IPv4 (octets ++ zeros 12)) else None
       | None => None
       end.

Fixpoint hex_from (acc : Z) (s : list byte) : option Z :=
  match s with
  | [] => Some acc
  | c :: s =>
      match hexval c with
      | Some d => hex_from (wrap 16 (Z.lor (Z.shiftl acc 4) d)) s
      | None => None
      end
  end.

Definition parse_group (field : list byte) : option Z :=
  if Nat.eqb (length field) 0 || Nat.ltb 4 (length field) then None else hex_from 0 field.

(** At most eight groups. *)
Definition parse_side (side : list byte) : option (list Z) :=
  match mapM parse_group (pieces COLON side) with
  | Some groups => if Nat.leb (length groups) 8 then Some groups else None
  | None => None
  end.

Definition group_bytes (g : Z) : list byte := [b8 (Z.shiftr g 8); b8 g].

Definition parse_groups (text : list byte) : option (list Z) :=
  match split_pair COLON text with
  | None =>
      match parse_side text with
      | Some groups => if Nat.eqb (length groups) 8 then Some groups else None
      | None => None
      end
  | Some (before, behind) =>
      match parse_side before, parse_side behind with
      | Some lefts, Some rights =>
          if Nat.leb 8 (length lefts + length rights) then None
          else Some (lefts ++ replicate (8 - length rights - length lefts) 0 ++ rights)
      | _, _ => None
      end
  end.

Definition parse_ipv6 (text : list byte) : option IPAddress :=
  if bool_decide (last text = Some COLON) &&
     negb (bool_decide (is_Some (split_pair COLON text)) &&
           bool_decide (drop (length text - 2) text = [COLON; COLON]))
  then None
  else if match split_pair COLON text with
          | Some (_, behind) => bool_decide (is_Some (split_pair COLON behind))
          | None => false
          end then None
  else match parse_groups text with
       | Some groups => Some (mkIP IPv6 (flat_map group_bytes groups))
       | None => None
       end.

Definition parse_address (text : list byte) : option IPAddress :=
  match text with
  | [] => None
  | _ => if bool_decide (COLON ∈ text) then parse_ipv6 text else parse_ipv4 text
  end.

(** ** Prefixes *)

(** The digits after the slash, refused as soon as the value exceeds [limit]. *)
Fixpoint length_from (limit acc : Z) (s : list byte) : option Z :=
  match s with
  | [] => Some acc
  | c :: s =>
      match decimal_digit c with
      | Some d => if limit <? acc * 10 + d then None else length_from limit (acc * 10 + d) s
      | None => None
      end
  end.

(** An address and what follows the only slash. *)
Definition split_cidr (text : list byte) : option (IPAddress * list byte) :=
  match split_first SLASH text with
  | Some (before, behind) =>
      if Nat.eqb (length before) 0 || Nat.eqb (length behind) 0 ||
         bool_decide (SLASH ∈ behind) then None
      else match parse_address before with Some a => Some (a, behind) | None => None end
  | None => None
  end.

Definition parse_prefix (text : list byte) : option IPPrefix :=
  match split_cidr text with
  | Some (a, digits) =>
      match length_from 128 0 digits with
      | Some len => if bit_width a <? len then None else Some (make_prefix a (wrap 8 len))
      | None => None
      end
  | None => None
  end.

(** [IPInterfaceAddress]: the host bits are kept. *)
Definition parse_interface (text : list byte) : option (IPAddress * Z) :=
  match split_cidr text with
  | Some (a, digits) =>
      match length_from (bit_width a) 0 digits with
      | Some len => Some (a, wrap 8 len)
      | None => None
      end
  | None => None
  end.

(** ** Printing endpoints *)

Definition groups_of (bs : list byte) : list Z :=
  map (λ i, Z.lor (Z.shiftl (bval (nth (i * 2) bs x00)) 8) (bval (nth (i * 2 + 1) bs x00))) (seq 0 8).

(** The end of the run of zeros at [i]. *)
Fixpoint run_end (fuel i : nat) (groups : list Z) : nat :=
  match fuel with
  | O => i
  | S fuel => if Nat.ltb i 8 && (nth i groups 0 =? 0) then run_end fuel (S i) groups else i
  end.

(** The first longest run of at least two zeros: start and length, [(8, 0)] without one. *)
Fixpoint longest_run (fuel i : nat) (best : nat * nat) (groups : list Z) : nat * nat :=
  match fuel with
  | O => best
  | S fuel =>
      if Nat.leb 8 i then best
      else if negb (nth i groups 0 =? 0) then longest_run fuel (S i) best groups
      else
        let j := run_end 8 i groups in
        let best := if Nat.ltb (snd best) (j - i) && Nat.leb 2 (j - i) then (i, j - i)%nat else best in
        longest_run fuel j best groups
  end.

(** A group without leading zeros. *)
Definition hex_group (g : Z) : list byte :=
  let nib shift := Z.land (Z.shiftr g shift) 15 in
  let digit (started : bool) shift :=
    if negb (nib shift =? 0) || started || (shift =? 0)
    then ([hex_char (nib shift)], true) else ([], started) in
  let '(d12, started) := digit false 12 in
  let '(d8, started) := digit started 8 in
  let '(d4, started) := digit started 4 in
  let '(d0, _) := digit started 0 in
  d12 ++ d8 ++ d4 ++ d0.

(** The loop over the groups; [text] is what was written so far. *)
Fixpoint print_groups (fuel i : nat) (best : nat * nat) (groups : list Z) (text : list byte)
    : list byte :=
  match fuel with
  | O => text
  | S fuel =>
      if Nat.leb 8 i then text
      else if Nat.eqb i (fst best)
      then print_groups fuel (i + snd best) best groups (text ++ [COLON; COLON])
      else
        let text :=
          match last text with
          | Some c => if bool_decide (c = COLON) || bool_decide (c = x5b) then text
                      else text ++ [COLON]
          | None => text
          end in
        print_groups fuel (S i) best groups (text ++ hex_group (nth i groups 0))
  end.

Definition address_text (a : IPAddress) : list byte :=
  if bool_decide (family a = IPv4) then
    to_string (ip_at a 0) ++ [DOT] ++ to_string (ip_at a 1) ++ [DOT] ++
    to_string (ip_at a 2) ++ [DOT] ++ to_string (ip_at a 3)
  else
    let groups := groups_of (ip_bytes a) in
    print_groups 8 0 (longest_run 8 0 (8, 0)%nat groups) groups [x5b] ++ [x5d].

Definition endpoint_to_string (e : Endpoint) : list byte :=
  address_text (address e) ++ [COLON] ++ to_string (ntohs (port e)).

(** ** Reading endpoints *)

Definition is_space (c : byte) : bool := (bval c =? 32) || ((9 <=? bval c) && (bval c <=? 13)).

Definition ULONG_MAX : Z := 4294967295.

(** The digits [strtoul] reads, and whether there were any. *)
Fixpoint take_digits (acc : Z) (any : bool) (s : list byte) : Z * bool :=
  match s with
  | [] => (acc, any)
  | c :: s =>
      match decimal_digit c with Some d => take_digits (acc * 10 + d) true s | None => (acc, any) end
  end.

Fixpoint skip_space (s : list byte) : list byte :=
  match s with [] => [] | c :: s' => if is_space c then skip_space s' else s end.

(** [strtoul] in base 10 with the 32-bit [unsigned long] of Windows: white space, a sign,
    digits; the value saturates, and a minus sign negates it.  [None]: nothing was read. *)
Definition strtoul (s : list byte) : option Z :=
  let '(negative, s) :=
    match skip_space s with
    | c :: s' => if bool_decide (c = x2d) then (true, s')
                 else if bool_decide (c = x2b) then (false, s') else (false, c :: s')
    | [] => (false, [])
    end in
  match take_digits 0 false s with
  | (_, false) => None
  | (v, true) =>
      Some (if ULONG_MAX <? v then ULONG_MAX else if negative : bool then wrap 32 (- v) else v)
  end.

(** [parse_endpoint]; [resolve] is [getaddrinfo] for IPv4. *)
Definition parse_endpoint (resolve : list byte -> option Z) (s : list byte) : option Endpoint :=
  match split_last COLON s with
  | None => None
  | Some (host, digits) =>
      if Nat.eqb (length digits) 0 then None
      else
        let host :=
          if Nat.leb 2 (length host) && bool_decide (head host = Some x5b) &&
             bool_decide (last host = Some x5d)
          then take (length host - 2) (drop 1 host) else host in
        match strtoul digits with
        | None => None
        | Some p =>
            if (p =? 0) || (65535 <? p) then None
            else match parse_address host with
                 | Some a => Some (mkEndpoint a (ntohs (wrap 16 p)))
                 | None =>
                     match resolve host with
                     | Some s_addr => Some (ipv4_endpoint s_addr (ntohs (wrap 16 p)))
                     | None => None
                     end
                 end
        end
  end.

(** ** Hexadecimal strings *)

(** [parse_hex_bytes] of [config.cpp]. *)
Fixpoint parse_hex_bytes (s : list byte) : option (list byte) :=
  match s with
  | [] => Some []
  | hi :: lo :: s =>
      match hexval hi, hexval lo, parse_hex_bytes s with
      | Some h, Some l, Some bs => Some (b8 (Z.lor (Z.shiftl h 4) l) :: bs)
      | _, _, _ => None
      end
  | [_] => None
  end.

(** [to_hex] of [commands.cpp]. *)
Definition to_hex (bs : list byte) : list byte :=
  flat_map (λ b, [hex_char (Z.land (Z.shiftr (bval b) 4) 15); hex_char (Z.land (bval b) 15)]) bs.

(** ** Lemmas on text *)

Fixpoint join (sep : byte) (ps : list (list byte)) : list byte :=
  match ps with
  | [] => []
  | [p] => p
  | p :: ps => p ++ sep :: join sep ps
  end.

(** A nonempty piece without separator. *)
Definition field_of (sep : byte) (p : list byte) : Prop := p <> [] /\ sep ∉ p.

Lemma join_cons sep p ps : ps <> [] -> join sep (p :: ps) = p ++ sep :: join sep ps.
Proof. by destruct ps. Qed.

Lemma pieces_one sep p : field_of sep p -> pieces sep p = [p].
Proof.
  intros [Hne Hs]. induction p as [|c p IH]; [done|]. cbn [pieces].
  apply not_elem_of_cons in Hs as [Hc Hs]. rewrite decide_False by congruence.
  destruct p as [|d p]; [done|]. by rewrite IH.
Qed.

Lemma pieces_cons sep p s : sep ∉ p -> pieces sep (p ++ sep :: s) = p :: pieces sep s.
Proof.
  intros Hs. induction p as [|c p IH]; cbn [app pieces]; [by rewrite decide_True|].
  apply not_elem_of_cons in Hs as [Hc Hs]. rewrite decide_False by congruence. by rewrite IH.
Qed.

Lemma pieces_field sep p s : field_of sep p -> pieces sep (p ++ sep :: s) = p :: pieces sep s.
Proof. intros [_ Hs]. by apply pieces_cons. Qed.

Lemma pieces_join sep ps : Forall (field_of sep) ps -> pieces sep (join sep ps) = ps.
Proof.
  induction 1 as [|p ps Hp Hps IH]; [done|]. destruct ps as [|q ps]; [by apply pieces_one|].
  rewrite join_cons by done. by rewrite pieces_field, IH.
Qed.

Lemma last_field sep p : field_of sep p -> last p <> Some sep.
Proof.
  intros [_ Hs] Hl. apply last_Some in Hl as [q ->]. apply Hs, elem_of_app. right. by left.
Qed.

Lemma last_join sep ps : Forall (field_of sep) ps -> last (join sep ps) <> Some sep.
Proof.
  induction 1 as [|p ps Hp Hps IH]; [done|]. destruct ps as [|q ps]; [by apply last_field|].
  rewrite join_cons by done. rewrite last_app, last_cons.
  destruct (last (join sep (q :: ps))) eqn:E; [done|]. apply last_None in E.
  apply Forall_cons in Hps as [[Hq _] _]. destruct q as [|c q]; [done|]. by destruct ps.
Qed.

Lemma join_nil sep ps : Forall (field_of sep) ps -> join sep ps = [] -> ps = [].
Proof.
  intros [|p ps' [Hp _] _]; [done|]. destruct p; [done|]. by destruct ps'.
Qed.

Lemma split_first_prefix sep p s :
  sep ∉ p -> split_first sep (p ++ sep :: s) = Some (p, s).
Proof.
  induction p as [|c p IH]; cbn [app split_first]; [by rewrite decide_True|].
  intros [Hc Hp]%not_elem_of_cons. rewrite decide_False by congruence. by rewrite IH.
Qed.

Lemma split_last_suffix sep s p :
  sep ∉ p -> split_last sep (s ++ sep :: p) = Some (s, p).
Proof.
  intros Hp. unfold split_last. rewrite rev_app_distr. cbn [rev]. rewrite <- app_assoc.
  cbn [app]. rewrite split_first_prefix by (by rewrite list_elem_of_In, <- in_rev, <- list_elem_of_In).
  by rewrite !rev_involutive.
Qed.

Lemma split_pair_prefix sep p s :
  sep ∉ p -> split_pair sep (p ++ s) = (λ '(a, b), (p ++ a, b)) <$> split_pair sep s.
Proof.
  induction p as [|c p IH]; [intros _; cbn [app]; by destruct (split_pair sep s) as [[]|]|].
  intros [Hc Hp]%not_elem_of_cons. specialize (IH Hp). cbn [app split_pair].
  destruct (p ++ s) as [|d t] eqn:E.
  - apply app_eq_nil in E as [-> ->]. done.
  - rewrite decide_False by (intros [? _]; congruence). rewrite IH. by destruct (split_pair sep s) as [[]|].
Qed.

Lemma split_pair_app sep t s :
  split_pair sep t = None -> last t <> Some sep ->
  split_pair sep (t ++ sep :: sep :: s) = Some (t, s).
Proof.
  induction t as [|c t IH]; intros Hn Hl; cbn [app]; [cbn; by rewrite decide_True|].
  destruct t as [|d t].
  - cbn. rewrite decide_False by (intros [-> _]; done). by rewrite decide_True.
  - cbn [split_pair app] in *. destruct (decide (c = sep /\ d = sep)) as [?|]; [done|].
    cbn [split_pair app] in IH. rewrite IH; [done| |].
    + by destruct (match t with [] => None | _ => _ end) as [[]|].
    + by rewrite last_cons_cons in Hl.
Qed.

Lemma split_pair_join sep ps : Forall (field_of sep) ps -> split_pair sep (join sep ps) = None.
Proof.
  induction 1 as [|p ps [Hne Hp] Hps IH]; [done|]. destruct ps as [|q ps].
  - cbn [join]. rewrite <- (app_nil_r p), split_pair_prefix by done. done.
  - rewrite join_cons by done. rewrite split_pair_prefix by done.
    assert (exists d t, join sep (q :: ps) = d :: t /\ d <> sep) as (d & t & E & Hd).
    { apply Forall_cons in Hps as [[Hq Hs] _]. destruct q as [|d q]; [done|].
      apply not_elem_of_cons in Hs as [Hd _]. exists d. destruct ps; eexists; split; try done; congruence. }
    rewrite E in *. cbn [split_pair]. rewrite decide_False by naive_solver.
    change (match t with [] => _ | _ => _ end) with (split_pair sep (d :: t)). by rewrite IH.
Qed.

(** ** Lemmas on integers *)

Definition digits (s : list byte) : Prop := Forall (λ c, is_Some (decimal_digit c)) s.

Lemma digit_char d : 0 <= d < 10 -> decimal_digit (b8 (48 + d)) = Some d.
Proof.
  intros Hd. unfold decimal_digit. rewrite bval_b8, wrap_small by (unfold in_width; lia).
  rewrite (proj2 (Z.leb_le _ _)), (proj2 (Z.leb_le _ _)) by lia. cbn [andb]. f_equal. lia.
Qed.

Lemma decimal_from_app a s t :
  decimal_from a (s ++ t) = decimal_from a s ≫= λ v, decimal_from v t.
Proof.
  revert a. induction s as [|c s IH]; intros a; cbn [app decimal_from mbind option_bind]; [done|].
  by destruct (decimal_digit c).
Qed.

Lemma print_dec_spec fuel : forall n acc, 0 <= n < 10 ^ Z.of_nat fuel -> (0 < fuel)%nat ->
  exists ds, print_dec fuel n acc = ds ++ acc /\ ds <> [] /\ digits ds /\ decimal_from 0 ds = Some n.
Proof.
  induction fuel as [|fuel IH]; intros n acc Hn Hf; [lia|]. cbn [print_dec].
  pose proof (Z.mod_pos_bound n 10 ltac:(lia)) as Hm. pose proof (digit_char (n mod 10) Hm) as Hd.
  assert (digits [b8 (48 + n mod 10)]) as Hd1.
  { constructor; [|constructor]. rewrite Hd. by eexists. }
  destruct (Z.ltb_spec n 10) as [Hs|Hs].
  - exists [b8 (48 + n mod 10)]. split_and!; try done. cbn. rewrite Hd. f_equal.
    rewrite Z.mod_small; lia.
  - rewrite Nat2Z.inj_succ, Z.pow_succ_r in Hn by lia.
    assert (fuel <> 0%nat) by (intros ->; cbn in Hn; lia).
    destruct (IH (n / 10) (b8 (48 + n mod 10) :: acc)) as (ds & E & Hne & Hds & Hv); [|lia|].
    { split; [apply Z.div_pos; lia|apply Z.div_lt_upper_bound; lia]. }
    exists (ds ++ [b8 (48 + n mod 10)]). split_and!.
    + by rewrite E, <- app_assoc.
    + by destruct ds.
    + by apply Forall_app.
    + rewrite decimal_from_app, Hv. cbn [mbind option_bind decimal_from]. rewrite Hd. f_equal.
      rewrite (Z.div_mod n 10) at 3 by lia. lia.
Qed.

Lemma to_string_spec n : 0 <= n < 10 ^ 20 ->
  to_string n <> [] /\ digits (to_string n) /\ decimal_from 0 (to_string n) = Some n.
Proof.
  intros Hn. destruct (print_dec_spec 20 n [] Hn ltac:(lia)) as (ds & E & H1 & H2 & H3).
  unfold to_string. by rewrite E, app_nil_r.
Qed.

Lemma digits_not_elem c s : decimal_digit c = None -> digits s -> c ∉ s.
Proof.
  intros Hc Hs Hin. unfold digits in Hs. rewrite Forall_forall in Hs.
  destruct (Hs c Hin). congruence.
Qed.

Lemma take_digits_decimal s : forall a any v,
  decimal_from a s = Some v -> take_digits a any s = (v, any || bool_decide (s <> [])).
Proof.
  induction s as [|c s IH]; intros a any v; cbn [decimal_from take_digits].
  - intros [= ->]. by rewrite orb_false_r.
  - destruct (decimal_digit c) as [d|]; [|done]. intros Hv. rewrite (IH _ true v Hv).
    rewrite (bool_decide_eq_true_2 (c :: s <> [])) by done. by rewrite orb_true_r.
Qed.

Lemma digits_head s c s' : digits s -> s = c :: s' ->
  is_space c = false /\ c <> x2d /\ c <> x2b /\ c <> x5b.
Proof.
  intros Hd ->. apply Forall_cons in Hd as [[d Hd] _]. unfold decimal_digit in Hd.
  case_match eqn:E; [|done]. apply andb_true_iff in E as [E1 E2].
  apply Z.leb_le in E1, E2. unfold is_space.
  split; [apply orb_false_iff; split; [apply Z.eqb_neq; lia|apply andb_false_iff; right; apply Z.leb_gt; lia]|].
  split_and!; intros ->; cbn in *; lia.
Qed.

Lemma strtoul_to_string n : 0 <= n <= ULONG_MAX -> strtoul (to_string n) = Some n.
Proof.
  intros Hn. destruct (to_string_spec n) as (Hne & Hd & Hv); [unfold ULONG_MAX in Hn; lia|].
  unfold strtoul. destruct (to_string n) as [|c s] eqn:E; [done|].
  destruct (digits_head _ c s Hd eq_refl) as (Hsp & Hm & Hp & _).
  cbn [skip_space]. rewrite Hsp, !bool_decide_eq_false_2 by done. cbn iota.
  rewrite (take_digits_decimal _ _ _ _ Hv). rewrite bool_decide_eq_true_2 by done. cbn [orb].
  rewrite (proj2 (Z.ltb_ge _ _)) by lia. done.
Qed.

Lemma octet_round_trip b : parse_octet (to_string (bval b)) = Some b.
Proof. by destruct b. Qed.

Lemma to_string_field sep n :
  decimal_digit sep = None -> 0 <= n < 10 ^ 20 -> field_of sep (to_string n).
Proof.
  intros Hs Hn. destruct (to_string_spec n Hn) as (Hne & Hd & _). split; [done|].
  by apply digits_not_elem.
Qed.

(** ** Hexadecimal groups *)

Definition plain (c : byte) : Prop := c <> COLON /\ c <> x5b /\ c <> x5d.

Lemma hex_char_spec n : 0 <= n < 16 -> hexval (hex_char n) = Some n /\ plain (hex_char n).
Proof.
  intros Hn. replace n with (Z.of_nat (Z.to_nat n)) by lia.
  assert (Z.to_nat n < 16)%nat as Hk by lia. revert Hk. generalize (Z.to_nat n). intros k Hk.
  do 16 (destruct k as [|k]; [by split|]). lia.
Qed.

Lemma push_nibble a d : 0 <= a < 4096 -> 0 <= d < 16 ->
  wrap 16 (Z.lor (Z.shiftl a 4) d) = a * 16 + d.
Proof.
  intros Ha Hd. assert (Z.lor (Z.shiftl a 4) d = a * 16 + d) as ->.
  { rewrite Z.shiftl_mul_pow2 by lia. pose proof (Z.add_lor_land (a * 2 ^ 4) d) as E.
    assert (Z.land (a * 2 ^ 4) d = 0) as Hz; [|lia]. clear E. apply Z.bits_inj'. intros i Hi.
    rewrite Z.land_spec, Z.bits_0. destruct (Z.ltb_spec i 4).
    - rewrite Z.mul_pow2_bits_low by lia. done.
    - rewrite (Z.bits_above_log2 d i); [apply andb_false_r|lia|].
      destruct (Z.eq_dec d 0) as [->|]; [cbn; lia|]. apply Z.log2_lt_pow2; [lia|].
      apply Z.lt_le_trans with (2 ^ 4); [lia|]. apply Z.pow_le_mono_r; lia. }
  apply wrap_small. unfold in_width. lia.
Qed.

Lemma nibble_at g k : 0 <= k -> Z.land (Z.shiftr g k) 15 = g / 2 ^ k mod 16.
Proof.
  intros Hk. change 15 with (Z.ones 4). rewrite Z.land_ones, Z.shiftr_div_pow2 by lia. done.
Qed.

Lemma hex_group_spec g : u16 g ->
  parse_group (hex_group g) = Some g /\ hex_group g <> [] /\ Forall plain (hex_group g).
Proof.
  intros Hg. unfold in_width in Hg. unfold hex_group. cbv beta zeta. rewrite !nibble_at by lia.
  set (a := g / 2 ^ 12 mod 16). set (b := g / 2 ^ 8 mod 16). set (c := g / 2 ^ 4 mod 16).
  set (d := g / 2 ^ 0 mod 16).
  assert (0 <= a < 16) as Ha by (apply Z.mod_pos_bound; lia).
  assert (0 <= b < 16) as Hb by (apply Z.mod_pos_bound; lia).
  assert (0 <= c < 16) as Hc by (apply Z.mod_pos_bound; lia).
  assert (0 <= d < 16) as Hd by (apply Z.mod_pos_bound; lia).
  assert (g = a * 4096 + b * 256 + c * 16 + d) as Eg.
  { subst a b c d. clear Ha Hb Hc Hd. Z.div_mod_to_equations. lia. }
  destruct (hex_char_spec a Ha) as [Pa Qa], (hex_char_spec b Hb) as [Pb Qb],
    (hex_char_spec c Hc) as [Pc Qc], (hex_char_spec d Hd) as [Pd Qd].
  destruct (Z.eqb_spec a 0) as [Ea|Ea], (Z.eqb_spec b 0) as [Eb|Eb], (Z.eqb_spec c 0) as [Ec|Ec];
    cbn [negb orb app Z.eqb Pos.eqb]; rewrite ?orb_true_r; cbn [app]; (split; [|split; [done|repeat (apply Forall_cons_2; [assumption|]); apply Forall_nil_2]]);
    cbn [parse_group length Nat.eqb Nat.ltb Nat.leb orb hex_from];
    rewrite ?Pa, ?Pb, ?Pc, ?Pd;
    repeat match goal with |- context [wrap 16 (Z.lor (Z.shiftl ?x 4) ?y)] =>
      lazymatch x with context [wrap] => fail | _ => rewrite (push_nibble x y) by lia end end;
    f_equal; lia.
Qed.

Lemma plain_field s : s <> [] -> Forall plain s -> field_of COLON s.
Proof.
  intros Hne Hp. split; [done|]. intros Hin. rewrite Forall_forall in Hp. by destruct (Hp _ Hin).
Qed.

Lemma hex_groups_fields gs : Forall u16 gs -> Forall (field_of COLON) (map hex_group gs).
Proof.
  induction 1 as [|g gs Hg _ IH]; [constructor|]. constructor; [|exact IH].
  destruct (hex_group_spec g Hg) as (_ & Hne & Hp). by apply plain_field.
Qed.

Lemma parse_side_groups gs :
  Forall u16 gs -> (length gs <= 8)%nat -> parse_side (join COLON (map hex_group gs)) = Some gs.
Proof.
  intros Hg Hl. unfold parse_side. rewrite pieces_join by by apply hex_groups_fields.
  assert (mapM parse_group (map hex_group gs) = Some gs) as ->.
  { apply mapM_Some. rewrite Forall2_fmap_l. apply Forall_Forall2_diag.
    eapply Forall_impl; [exact Hg|]. intros g Hu. by apply hex_group_spec. }
  by rewrite (proj2 (Nat.leb_le _ _)).
Qed.

(** ** Runs of zeros *)

Definition zero_run (gs : list Z) (best : nat * nat) : Prop :=
  best = (8, 0)%nat \/
  ((2 <= snd best)%nat /\ (fst best + snd best <= 8)%nat /\
   forall k, (fst best <= k < fst best + snd best)%nat -> nth k gs 0 = 0).

Lemma run_end_spec gs : forall fuel i, (i <= 8)%nat ->
  (i <= run_end fuel i gs <= 8)%nat /\ forall k, (i <= k < run_end fuel i gs)%nat -> nth k gs 0 = 0.
Proof.
  induction fuel as [|fuel IH]; intros i Hi; cbn [run_end]; [split; [lia|intros; lia]|].
  destruct (Nat.ltb_spec i 8) as [Hl|]; cbn [andb]; [|split; [lia|intros; lia]].
  destruct (Z.eqb_spec (nth i gs 0) 0) as [Hz|]; [|split; [lia|intros; lia]].
  destruct (IH (S i)) as [Hb Hk]; [lia|]. split; [lia|]. intros k Hr.
  destruct (decide (k = i)) as [->|]; [done|]. apply Hk. lia.
Qed.

Lemma longest_run_spec gs : forall fuel i best, (i <= 8)%nat ->
  zero_run gs best -> zero_run gs (longest_run fuel i best gs).
Proof.
  induction fuel as [|fuel IH]; intros i best Hi Hb; cbn [longest_run]; [done|].
  destruct (Nat.leb_spec 8 i); [done|]. destruct (negb _); [apply IH; [lia|done]|].
  destruct (run_end_spec gs 8 i) as [Hj Hk]; [lia|]. apply IH; [lia|].
  case_match eqn:E; [|done]. apply andb_true_iff in E as [_ E%Nat.leb_le].
  right. cbn [fst snd]. split_and!; [done|lia|]. intros k Hr. apply Hk. lia.
Qed.

(** ** The printed groups *)

Definition fresh (t : list byte) : bool :=
  match last t with
  | Some c => bool_decide (c = COLON) || bool_decide (c = x5b)
  | None => true
  end.

(** [s] after [t], with a colon between them where one is needed. *)
Definition glue (t s : list byte) : list byte :=
  match s with [] => [] | _ => if fresh t then s else COLON :: s end.

Lemma fresh_plain t h : h <> [] -> Forall plain h -> fresh (t ++ h) = false.
Proof.
  intros Hne Hp. unfold fresh. rewrite last_app.
  destruct (last h) as [c|] eqn:E; [|by apply last_None in E].
  apply last_Some in E as [h' ->]. apply Forall_app in Hp as [_ Hp].
  apply Forall_cons in Hp as [(H1 & H2 & _) _]. by rewrite !bool_decide_eq_false_2.
Qed.

Lemma glue_step t h ps :
  h <> [] -> Forall plain h -> Forall (field_of COLON) ps ->
  t ++ glue t (join COLON (h :: ps)) =
    ((if fresh t then t else t ++ [COLON]) ++ h) ++
    glue ((if fresh t then t else t ++ [COLON]) ++ h) (join COLON ps).
Proof.
  intros Hne Hp Hps. rewrite <- app_assoc.
  assert (glue ((if fresh t then t else t ++ [COLON]) ++ h) (join COLON ps) =
    match ps with [] => [] | _ => COLON :: join COLON ps end) as ->.
  { unfold glue at 1. rewrite fresh_plain by done. destruct (join COLON ps) eqn:E.
    - by rewrite (join_nil _ _ Hps E).
    - by destruct ps. }
  assert (join COLON (h :: ps) = h ++ match ps with [] => [] | _ => COLON :: join COLON ps end) as ->.
  { destruct ps; [by rewrite app_nil_r|done]. }
  unfold glue. destruct h as [|c h]; [done|]. cbn [app].
  destruct (fresh t); [done|]. by rewrite <- app_assoc.
Qed.

Lemma print_step fuel i best gs t :
  (i < 8)%nat -> i <> fst best ->
  print_groups (S fuel) i best gs t =
    print_groups fuel (S i) best gs
      ((if fresh t then t else t ++ [COLON]) ++ hex_group (nth i gs 0)).
Proof.
  intros Hi Hb. cbn [print_groups]. rewrite (proj2 (Nat.leb_gt _ _)), (proj2 (Nat.eqb_neq _ _)) by done.
  unfold fresh. destruct (last t) as [c|]; [|done]. by destruct (_ || _).
Qed.

Section groups.
Context (gs : list Z) (Hlen : length gs = 8%nat) (Hu : Forall u16 gs).

Lemma drop_group i : (i < 8)%nat -> drop i gs = nth i gs 0 :: drop (S i) gs /\ u16 (nth i gs 0).
Proof.
  intros Hi. destruct (lookup_lt_is_Some_2 gs i) as [g Hg]; [lia|].
  rewrite (nth_lookup_Some gs i 0 g Hg). split; [by apply drop_S|].
  rewrite Forall_lookup in Hu. by eapply Hu.
Qed.

Lemma print_tail : forall fuel i best t,
  (8 <= fuel + i)%nat -> (fst best < i \/ 8 <= fst best)%nat ->
  print_groups fuel i best gs t = t ++ glue t (join COLON (map hex_group (drop i gs))).
Proof.
  induction fuel as [|fuel IH]; intros i best t Hf Hb.
  - rewrite drop_ge by lia. cbn. by rewrite app_nil_r.
  - destruct (Nat.leb_spec 8 i) as [Hi|Hi].
    + cbn [print_groups]. rewrite (proj2 (Nat.leb_le _ _)) by done. rewrite drop_ge by lia.
      cbn. by rewrite app_nil_r.
    + rewrite print_step by lia. destruct (drop_group i Hi) as [-> Hg].
      destruct (hex_group_spec _ Hg) as (_ & Hne & Hp). rewrite IH by lia. cbn [map].
      symmetry. apply glue_step; [done|done|]. apply hex_groups_fields. by apply Forall_drop.
Qed.

Lemma print_run b l : (2 <= l)%nat -> (b + l <= 8)%nat -> forall fuel i t,
  (8 <= fuel + i)%nat -> (i <= b)%nat ->
  print_groups fuel i (b, l) gs t =
    t ++ glue t (join COLON (map hex_group (take (b - i) (drop i gs)))) ++
    [COLON; COLON] ++ join COLON (map hex_group (drop (b + l) gs)).
Proof.
  intros Hl Hbl. induction fuel as [|fuel IH]; intros i t Hf Hi; [lia|].
  destruct (decide (i = b)) as [->|Hne].
  - cbn [print_groups]. rewrite (proj2 (Nat.leb_gt _ _)), Nat.eqb_refl by lia.
    rewrite print_tail by (cbn; lia). rewrite Nat.sub_diag, take_0. cbn [map join glue app snd].
    rewrite <- app_assoc. f_equal. cbn [app]. do 2 f_equal. unfold glue.
    destruct (join _ _); [done|]. unfold fresh. by rewrite last_app.
  - rewrite print_step by (cbn; lia). destruct (drop_group i) as [Ed Hg]; [lia|].
    destruct (hex_group_spec _ Hg) as (_ & Hn & Hp). rewrite IH by lia.
    rewrite Ed. replace (b - i)%nat with (S (b - S i)) by lia. cbn [take map].
    rewrite !(app_assoc _ (glue _ _)). f_equal. symmetry. apply glue_step; [done|done|].
    apply hex_groups_fields. by apply Forall_take, Forall_drop.
Qed.
End groups.

(** ** What is printed parses *)

Lemma parse_plain_groups gs :
  length gs = 8%nat -> Forall u16 gs ->
  parse_ipv6 (join COLON (map hex_group gs)) = Some (mkIP IPv6 (flat_map group_bytes gs)).
Proof.
  intros Hl Hu. pose proof (hex_groups_fields gs Hu) as Hf. unfold parse_ipv6, parse_groups.
  rewrite (split_pair_join _ _ Hf), bool_decide_eq_false_2 by (by apply last_join). cbn [andb].
  by rewrite parse_side_groups, Hl by (done || lia).
Qed.

Lemma parse_compressed_groups ls rs :
  Forall u16 ls -> Forall u16 rs -> (length ls + length rs < 8)%nat ->
  parse_ipv6 (join COLON (map hex_group ls) ++ [COLON; COLON] ++ join COLON (map hex_group rs)) =
    Some (mkIP IPv6 (flat_map group_bytes (ls ++ replicate (8 - length rs - length ls) 0 ++ rs))).
Proof.
  intros Hl Hr Hn. pose proof (hex_groups_fields ls Hl) as Fl.
  pose proof (hex_groups_fields rs Hr) as Fr.
  set (l := join COLON (map hex_group ls)). set (r := join COLON (map hex_group rs)).
  assert (split_pair COLON (l ++ [COLON; COLON] ++ r) = Some (l, r)) as Hs.
  { apply split_pair_app; [by apply split_pair_join|by apply last_join]. }
  assert (split_pair COLON r = None) as Hr0 by by apply split_pair_join.
  unfold parse_ipv6, parse_groups. rewrite Hs. cbn iota beta. rewrite Hr0.
  rewrite (bool_decide_eq_true_2 (is_Some (Some (l, r)))) by done.
  replace (bool_decide (last _ = _) && _) with false.
  2:{ symmetry. apply andb_false_iff. destruct rs as [|g rs].
      - right. apply negb_false_iff, andb_true_iff. split; [done|]. apply bool_decide_eq_true_2.
        subst r. cbn [map join]. rewrite app_nil_r, length_app. cbn [length].
        replace (length l + 2 - 2)%nat with (length l) by lia. by rewrite drop_app_length.
      - left. apply bool_decide_eq_false_2. rewrite !last_app.
        destruct (last r) as [c|] eqn:E; [intros [= ->]; by apply (last_join _ _ Fr)|].
        apply last_None in E. by apply (join_nil _ _ Fr) in E. }
  rewrite bool_decide_eq_false_2 by (by intros [? ?]).
  subst l r. rewrite !parse_side_groups by (done || lia).
  by rewrite (proj2 (Nat.leb_gt _ _)).
Qed.

Lemma groups_of_u16 bs : Forall u16 (groups_of bs).
Proof.
  unfold groups_of. apply Forall_map, Forall_forall. intros i _.
  pose proof (bval_range (nth (i * 2) bs x00)) as H1.
  pose proof (bval_range (nth (i * 2 + 1) bs x00)) as H2.
  rewrite lor_shift8 by (unfold in_width in *; lia). unfold in_width in *. lia.
Qed.

Lemma group_bytes_of a b :
  group_bytes (Z.lor (Z.shiftl (bval a) 8) (bval b)) = [a; b].
Proof.
  pose proof (bval_range a) as Ha. pose proof (bval_range b) as Hb. unfold group_bytes.
  rewrite lor_shift8 by (unfold in_width in *; lia). unfold in_width in Ha, Hb.
  rewrite Z.shiftr_div_pow2 by lia. f_equal; [|f_equal]; apply bval_inj; rewrite bval_b8;
    unfold wrap; Z.div_mod_to_equations; lia.
Qed.

Lemma groups_of_bytes bs : length bs = 16%nat -> flat_map group_bytes (groups_of bs) = bs.
Proof.
  intros Hl. do 16 (destruct bs as [|? bs]; [done|]). destruct bs; [|done].
  cbn [groups_of map seq Nat.mul Nat.add nth flat_map]. by rewrite !group_bytes_of.
Qed.

(** The text between the brackets. *)
Definition ipv6_text (bs : list byte) : list byte :=
  let groups := groups_of bs in
  let '(b, l) := longest_run 8 0 (8, 0)%nat groups in
  if Nat.eqb b 8 then join COLON (map hex_group groups)
  else join COLON (map hex_group (take b groups)) ++ [COLON; COLON] ++
       join COLON (map hex_group (drop (b + l) groups)).

Lemma groups_run gs b l :
  length gs = 8%nat -> (b + l <= 8)%nat ->
  (forall k, (b <= k < b + l)%nat -> nth k gs 0 = 0) ->
  take b gs ++ replicate l 0 ++ drop (b + l) gs = gs.
Proof.
  intros Hl Hb Hz. rewrite <- (take_drop b gs) at 3. f_equal.
  rewrite <- (take_drop l (drop b gs)), drop_drop. f_equal.
  apply replicate_as_Forall. split; [rewrite length_take, length_drop; lia|].
  apply Forall_lookup. intros i x Hi. rewrite lookup_take_Some, lookup_drop in Hi.
  destruct Hi as [Hi Hlt]. rewrite <- (nth_lookup_Some gs (b + i) 0 x Hi). symmetry. apply Hz. lia.
Qed.

Lemma ipv6_text_spec bs : length bs = 16%nat ->
  print_groups 8 0 (longest_run 8 0 (8, 0)%nat (groups_of bs)) (groups_of bs) [x5b] =
    x5b :: ipv6_text bs /\
  parse_ipv6 (ipv6_text bs) = Some (mkIP IPv6 bs).
Proof.
  intros Hl. pose proof (groups_of_u16 bs) as Hu. assert (length (groups_of bs) = 8%nat) as H8 by done.
  pose proof (groups_of_bytes bs Hl) as Hb. unfold ipv6_text.
  destruct (longest_run_spec (groups_of bs) 8 0 (8, 0)%nat) as [E|(H2 & Hbl & Hz)]; [lia|by left|..].
  - rewrite E. rewrite print_tail by (done || cbn; lia). cbn [Nat.eqb]. split.
    + cbn [app]. f_equal. unfold glue. cbn [drop]. by destruct (join _ _).
    + rewrite <- Hb at 2. by apply parse_plain_groups.
  - destruct (longest_run 8 0 (8, 0)%nat (groups_of bs)) as [b l]. cbn [fst snd] in *.
    rewrite (proj2 (Nat.eqb_neq _ _)) by lia. rewrite print_run by (done || lia).
    rewrite Nat.sub_0_r, drop_0. split.
    + cbn [app]. f_equal. f_equal. unfold glue. by destruct (join _ _).
    + rewrite parse_compressed_groups by (try (by apply Forall_take || by apply Forall_drop);
        rewrite length_take, length_drop; lia).
      rewrite length_take, length_drop, H8. replace (8 - (8 - (b + l)) - b `min` 8)%nat with l by lia.
      rewrite groups_run by done. by rewrite Hb.
Qed.

(** Addresses of either family as the code builds them: four bytes padded with zeros, or
    sixteen. *)
Definition host_address (a : IPAddress) : Prop :=
  (family a = IPv4 /\ exists q, length q = 4%nat /\ ip_bytes a = q ++ zeros 12) \/
  (family a = IPv6 /\ length (ip_bytes a) = 16%nat).

Lemma colon_in_join p q ps : COLON ∈ join COLON (p :: q :: ps).
Proof. rewrite join_cons by done. apply elem_of_app. right. by left. Qed.

Lemma colon_in_ipv6 bs : COLON ∈ ipv6_text bs.
Proof.
  unfold ipv6_text. destruct (longest_run _ _ _ _) as [b l]. destruct (Nat.eqb b 8).
  - apply colon_in_join.
  - apply elem_of_app. right. by left.
Qed.

Lemma ipv4_text_spec q0 q1 q2 q3 :
  let text := join DOT (map (λ q, to_string (bval q)) [q0; q1; q2; q3]) in
  parse_address text = Some (mkIP IPv4 ([q0; q1; q2; q3] ++ zeros 12)) /\
  COLON ∉ text /\ exists c, head text = Some c /\ c <> x5b.
Proof.
  cbv zeta. assert (forall q, 0 <= bval q < 10 ^ 20) as Hq.
  { intros q. pose proof (bval_range q) as Hr. unfold in_width in Hr. lia. }
  assert (Forall (field_of DOT) (map (λ q, to_string (bval q)) [q0; q1; q2; q3])) as Hf.
  { cbn [map]. repeat (apply Forall_cons_2; [by apply to_string_field|]). apply Forall_nil_2. }
  assert (COLON ∉ join DOT (map (λ q, to_string (bval q)) [q0; q1; q2; q3])) as Hc.
  { cbn [map join]. rewrite !not_elem_of_app, !not_elem_of_cons, !not_elem_of_app, !not_elem_of_cons,
      !not_elem_of_app, !not_elem_of_cons. split_and!; try done; by apply to_string_field. }
  destruct (to_string_spec (bval q0) (Hq q0)) as (Hne & Hd & _).
  split_and!; [|done|].
  - assert (parse_ipv4 (join DOT (map (λ q, to_string (bval q)) [q0; q1; q2; q3])) =
      Some (mkIP IPv4 ([q0; q1; q2; q3] ++ zeros 12))) as Hp.
    { unfold parse_ipv4. rewrite bool_decide_eq_false_2 by (by apply last_join).
      rewrite pieces_join by done. cbn [map mapM]. by rewrite !octet_round_trip. }
    unfold parse_address. rewrite bool_decide_eq_false_2 by done.
    destruct (join DOT _) as [|c t] eqn:E; [|done]. by apply (join_nil DOT) in E.
  - cbn [map join]. destruct (to_string (bval q0)) as [|c s]; [done|].
    exists c. split; [done|]. by destruct (digits_head _ c s Hd eq_refl) as (_ & _ & _ & ?).
Qed.

Lemma address_text_spec a : host_address a ->
  exists text, parse_address text = Some a /\
    if bool_decide (family a = IPv4)
    then address_text a = text /\ exists c, head text = Some c /\ c <> x5b
    else address_text a = x5b :: text ++ [x5d].
Proof.
  destruct a as [f bs]. intros [(Hf & q & Hq & Hb)|[Hf Hb]]; cbn [family ip_bytes] in *; subst f.
  - do 4 (destruct q as [|? q]; [done|]). destruct q; [|done]. subst bs. cbn [bool_decide].
    destruct (ipv4_text_spec b b0 b1 b2) as (Hp & _ & Hc). eexists. split; [exact Hp|].
    rewrite bool_decide_eq_true_2 by done. by split.
  - destruct (ipv6_text_spec bs Hb) as [Ht Hp]. exists (ipv6_text bs).
    rewrite bool_decide_eq_false_2 by done. unfold address_text. cbn [family ip_bytes].
    rewrite bool_decide_eq_false_2 by done. rewrite Ht, <- app_comm_cons. split; [|reflexivity].
    unfold parse_address. rewrite bool_decide_eq_true_2 by apply colon_in_ipv6.
    destruct (ipv6_text bs) eqn:E; [|done]. pose proof (colon_in_ipv6 bs) as Hc. rewrite E in Hc.
    by apply elem_of_nil in Hc.
Qed.

(** ** What parses is well formed *)

Lemma parse_side_length side gs : parse_side side = Some gs -> (length gs <= 8)%nat.
Proof.
  unfold parse_side. destruct (mapM _ _) as [l|]; [|done].
  destruct (Nat.leb_spec (length l) 8); [|done]. by intros [= <-].
Qed.

Lemma parse_groups_length text gs : parse_groups text = Some gs -> length gs = 8%nat.
Proof.
  unfold parse_groups. destruct (split_pair COLON text) as [[l r]|].
  - destruct (parse_side l) as [ls|]; [|done]. destruct (parse_side r) as [rs|]; [|done].
    destruct (Nat.leb_spec 8 (length ls + length rs)); [done|]. intros [= <-].
    rewrite !length_app, length_replicate. lia.
  - destruct (parse_side text) as [ls|]; [|done].
    destruct (Nat.eqb_spec (length ls) 8); [|done]. by intros [= <-].
Qed.

Lemma parse_address_host text a : parse_address text = Some a -> host_address a.
Proof.
  unfold parse_address. destruct text as [|c t]; [done|]. case_bool_decide.
  - intros E. assert (exists gs, parse_groups (c :: t) = Some gs /\ a = mkIP IPv6 (flat_map group_bytes gs))
      as (gs & Eg & ->) by (unfold parse_ipv6 in E; repeat case_match; simplify_eq; eauto).
    right.
    split; [done|]. cbn [ip_bytes]. apply parse_groups_length in Eg.
    do 8 (destruct gs as [|? gs]; [done|]). by destruct gs.
  - unfold parse_ipv4. case_bool_decide; [done|]. destruct (mapM _ _) as [q|]; [|done].
    destruct (Nat.eqb_spec (length q) 4); [|done]. intros [= <-]. left. split; [done|]. by exists q.
Qed.

Lemma host_address_wf a : host_address a -> ip_wf a /\ valid_family a = true.
Proof.
  unfold ip_wf, valid_family. intros [(-> & q & Hq & ->)|[-> H]]; [|done].
  by rewrite length_app, Hq.
Qed.

Lemma split_cidr_host text a digits : split_cidr text = Some (a, digits) -> host_address a.
Proof.
  unfold split_cidr. destruct (split_first _ _) as [[l r]|]; [|done].
  destruct (_ || _) in |- *; [done|]. destruct (parse_address l) as [b|] eqn:E; [|done].
  intros [= <- <-]. by apply parse_address_host in E.
Qed.

Lemma decimal_digit_range c d : decimal_digit c = Some d -> 0 <= d <= 9.
Proof.
  unfold decimal_digit. destruct (_ && _) eqn:E; [|done]. intros [= <-].
  apply andb_true_iff in E as [E1 E2]. apply Z.leb_le in E1, E2. lia.
Qed.

Lemma length_from_range limit s : forall acc len,
  0 <= acc <= limit -> length_from limit acc s = Some len -> 0 <= len <= limit.
Proof.
  induction s as [|c s IH]; cbn [length_from]; intros acc len Ha; [by intros [= <-]|].
  destruct (decimal_digit c) as [d|] eqn:E; [|done]. apply decimal_digit_range in E.
  destruct (Z.ltb_spec limit (acc * 10 + d)); [done|]. apply IH. lia.
Qed.

Lemma bit_width_range a : 0 <= bit_width a <= 128.
Proof. unfold bit_width. case_match; lia. Qed.

Lemma canonicalize_idem p :
  ip_wf (prefix_address p) -> prefix_valid p = true -> 0 <= prefix_len p ->
  ip_wf (prefix_address (canonicalize p)) /\ canonicalize (canonicalize p) = canonicalize p.
Proof.
  intros Hwf Hv Hl. destruct (canonicalize_value p Hwf Hv Hl) as [Hw _]. split; [exact Hw|].
  destruct (canonicalize_shape p) as [Hf Hn].
  apply canonicalize_eq; try done; rewrite ?canonicalize_valid, ?Hn; try done.
  by apply canonicalize_network.
Qed.

(** A prefix that parses is valid and in canonical form. *)
Lemma parse_prefix_ok text p :
  parse_prefix text = Some p ->
  ip_wf (prefix_address p) /\ prefix_valid p = true /\ 0 <= prefix_len p /\ canonicalize p = p.
Proof.
  unfold parse_prefix. destruct (split_cidr text) as [[a digits]|] eqn:E; [|done].
  apply split_cidr_host, host_address_wf in E as [Hwf Hv].
  destruct (length_from 128 0 digits) as [len|] eqn:El; [|done].
  apply length_from_range in El; [|lia].
  destruct (Z.ltb_spec (bit_width a) len) as [|Hb]; [done|]. intros [= <-].
  rewrite wrap_small by (unfold in_width; lia). unfold make_prefix.
  assert (prefix_valid (mkPrefix a len) = true) as Hp.
  { unfold prefix_valid. cbn [prefix_address prefix_len]. rewrite Hv. by apply Z.leb_le. }
  destruct (canonicalize_idem (mkPrefix a len)) as [Hc Hi]; [done|done|cbn; lia|].
  rewrite canonicalize_valid. destruct (canonicalize_shape (mkPrefix a len)) as [_ ->].
  split_and!; try done. cbn. lia.
Qed.

Lemma parse_interface_ok text a len :
  parse_interface text = Some (a, len) ->
  host_address a /\ 0 <= len <= bit_width a.
Proof.
  unfold parse_interface. destruct (split_cidr text) as [[b digits]|] eqn:E; [|done].
  apply split_cidr_host in E. pose proof (bit_width_range b) as Hb.
  destruct (length_from (bit_width b) 0 digits) as [l|] eqn:El; [|done].
  apply length_from_range in El; [|lia]. intros [= <- <-].
  by rewrite wrap_small by (unfold in_width; lia).
Qed.

(** The characters of addresses and prefixes. *)
Definition address_char (c : byte) : Prop :=
  is_Some (hexval c) \/ c = DOT \/ c = COLON \/ c = SLASH.

Lemma pieces_chars (P : byte -> Prop) sep s :
  P sep -> Forall (Forall P) (pieces sep s) -> Forall P s.
Proof.
  intros Hsep. induction s as [|c s IH]; [constructor|]. cbn [pieces].
  destruct (decide (c = sep)) as [->|].
  - intros [_ Hp]%Forall_cons_1. constructor; auto.
  - destruct (pieces sep s) as [|p ps].
    + intros [Hc _]%Forall_cons_1. apply Forall_cons_1 in Hc as [Hc _]. constructor; auto.
    + intros [Hc Hp]%Forall_cons_1. apply Forall_cons_1 in Hc as [Hc Hp'].
      constructor; [done|]. apply IH. by constructor.
Qed.

Lemma split_first_eq sep s a b : split_first sep s = Some (a, b) -> s = a ++ sep :: b /\ sep ∉ a.
Proof.
  revert a. induction s as [|c s IH]; cbn [split_first]; intros a; [done|].
  destruct (decide (c = sep)) as [->|Hc].
  - intros [= <- <-]. split; [done|apply not_elem_of_nil].
  - destruct (split_first sep s) as [[a' b']|]; [|done]. intros [= <- <-].
    destruct (IH a' eq_refl) as [-> Ha]. split; [done|]. apply not_elem_of_cons. by split.
Qed.

Lemma split_pair_eq sep s a b : split_pair sep s = Some (a, b) -> s = a ++ sep :: sep :: b.
Proof.
  revert a. induction s as [|c s IH]; cbn [split_pair]; intros a; [done|].
  destruct s as [|d s]; [done|]. destruct (decide (c = sep /\ d = sep)) as [[-> ->]|].
  - by intros [= <- <-].
  - destruct (split_pair sep (d :: s)) as [[a' b']|]; [|done]. intros [= <- <-].
    by rewrite (IH a' eq_refl).
Qed.

Lemma digit_is_hex c : is_Some (decimal_digit c) -> is_Some (hexval c).
Proof. unfold decimal_digit, hexval. intros [d Hd]. destruct (_ && _) in *; [by eexists|done]. Qed.

Lemma decimal_from_chars s : forall acc, is_Some (decimal_from acc s) -> Forall address_char s.
Proof.
  induction s as [|c s IH]; intros acc; [constructor|]. cbn [decimal_from].
  destruct (decimal_digit c) as [d|] eqn:E; [|by intros []]. intros Hs.
  constructor; [left; apply digit_is_hex; by eexists|by apply (IH _ Hs)].
Qed.

Lemma hex_from_chars s : forall acc, is_Some (hex_from acc s) -> Forall address_char s.
Proof.
  induction s as [|c s IH]; intros acc; [constructor|]. cbn [hex_from].
  destruct (hexval c) as [d|] eqn:E; [|by intros []]. intros Hs.
  constructor; [left; by eexists|by apply (IH _ Hs)].
Qed.

Lemma mapM_chars {A} (f : list byte -> option A) sep s r :
  address_char sep -> (forall p x, f p = Some x -> Forall address_char p) ->
  mapM f (pieces sep s) = Some r -> Forall address_char s.
Proof.
  intros Hs Hf Hm. apply (pieces_chars _ sep); [done|]. apply mapM_Some in Hm.
  apply Forall_forall. intros p Hp. destruct (list_elem_of_lookup_1 _ _ Hp) as [i Hi].
  destruct (Forall2_lookup_l _ _ _ _ _ Hm Hi) as (x & _ & Hx). by apply (Hf p x).
Qed.

Lemma parse_side_chars s gs : parse_side s = Some gs -> Forall address_char s.
Proof.
  unfold parse_side. destruct (mapM _ _) as [l|] eqn:E; [|done]. intros _.
  apply (mapM_chars parse_group COLON _ l); [right; right; by left| |done].
  intros p x. unfold parse_group. destruct (_ || _); [done|]. intros Hx.
  apply (hex_from_chars _ 0). by eexists.
Qed.

Lemma parse_address_chars s a : parse_address s = Some a -> Forall address_char s.
Proof.
  unfold parse_address. destruct s as [|c t]; [done|]. case_bool_decide.
  - intros E. assert (is_Some (parse_groups (c :: t))) as [gs Eg]
      by (unfold parse_ipv6 in E; repeat case_match; simplify_eq; eauto).
    unfold parse_groups in Eg. destruct (split_pair COLON (c :: t)) as [[l r]|] eqn:Es.
    + apply split_pair_eq in Es as ->. destruct (parse_side l) eqn:E1; [|done].
      destruct (parse_side r) eqn:E2; [|done]. apply parse_side_chars in E1, E2.
      apply Forall_app. split; [done|]. repeat constructor; try done; right; right; by left.
    + destruct (parse_side (c :: t)) eqn:E1; [|done]. by apply parse_side_chars in E1.
  - unfold parse_ipv4. case_bool_decide; [done|]. destruct (mapM _ _) as [q|] eqn:E; [|done].
    intros _. apply (mapM_chars parse_octet DOT _ q); [right; by left| |done].
    intros p x. unfold parse_octet. destruct (_ || _); [done|].
    destruct (decimal_from 0 p) eqn:Ed; [|done]. intros _. apply (decimal_from_chars _ 0). by eexists.
Qed.

Lemma length_from_chars limit s : forall acc, is_Some (length_from limit acc s) -> Forall address_char s.
Proof.
  induction s as [|c s IH]; intros acc; [constructor|]. cbn [length_from].
  destruct (decimal_digit c) as [d|] eqn:E; [|by intros []]. destruct (_ <? _); [by intros []|].
  intros Hs. constructor; [left; apply digit_is_hex; by eexists|by apply (IH _ Hs)].
Qed.

Lemma split_cidr_chars s a digits :
  split_cidr s = Some (a, digits) -> Forall address_char digits -> s <> [] /\ Forall address_char s.
Proof.
  unfold split_cidr. destruct (split_first SLASH s) as [[l r]|] eqn:E; [|done].
  apply split_first_eq in E as [-> _]. destruct (_ || _); [done|].
  destruct (parse_address l) as [b|] eqn:Ea; [|done]. intros [= <- <-] Hd. split; [by destruct l|].
  apply Forall_app. split; [by apply parse_address_chars in Ea|].
  constructor; [right; right; by right|done].
Qed.

Lemma parse_interface_chars s r : parse_interface s = Some r -> s <> [] /\ Forall address_char s.
Proof.
  unfold parse_interface. destruct (split_cidr s) as [[a digits]|] eqn:E; [|done].
  destruct (length_from _ _ _) eqn:El; [|done]. intros _. apply (split_cidr_chars _ _ _ E).
  apply (length_from_chars (bit_width a) _ 0). by eexists.
Qed.

Lemma parse_prefix_chars s p : parse_prefix s = Some p -> s <> [] /\ Forall address_char s.
Proof.
  unfold parse_prefix. destruct (split_cidr s) as [[a digits]|] eqn:E; [|done].
  destruct (length_from _ _ _) eqn:El; [|done]. intros _. apply (split_cidr_chars _ _ _ E).
  apply (length_from_chars 128 _ 0). by eexists.
Qed.

(** A hexadecimal string reads back as the bytes it was written from. *)
Lemma parse_hex_to_hex bs : parse_hex_bytes (to_hex bs) = Some bs.
Proof.
  induction bs as [|b bs IH]; [done|]. change (to_hex (b :: bs)) with
    (hex_char (Z.land (Z.shiftr (bval b) 4) 15) :: hex_char (Z.land (bval b) 15) :: to_hex bs).
  cbn [parse_hex_bytes]. rewrite IH. clear IH. by destruct b.
Qed.

Lemma length_to_hex bs : length (to_hex bs) = (2 * length bs)%nat.
Proof. induction bs as [|b bs IH]; [done|]. change (S (S (length (to_hex bs))) = 2 * S (length bs))%nat. lia. Qed.

(** ** Properties *)

(** C30: Printed endpoints read back as themselves.  [parse_endpoint] applied to what
    [endpoint_to_string] writes for an IPv4 or IPv6 endpoint with a nonzero port returns the
    endpoint, and does not consult the resolver: the zero compression, the omitted leading
    zeros and the brackets of the IPv6 form are undone exactly. *)
Theorem endpoint_text_round_trip resolve e :
  host_address (address e) -> u16 (port e) -> port e <> 0 ->
  parse_endpoint resolve (endpoint_to_string e) = Some e.
Proof.
  intros Ha Hp Hz. destruct e as [a p]. cbn [address port] in *.
  pose proof (ntohs_range p) as Hr. unfold in_width in Hr.
  assert (ntohs p <> 0) as Hn.
  { intros E. apply Hz. rewrite <- (ntohs_involutive p Hp), E. done. }
  destruct (to_string_spec (ntohs p)) as (Hne & Hd & _); [lia|].
  unfold parse_endpoint, endpoint_to_string. cbn [address port app].
  rewrite split_last_suffix by (by apply (digits_not_elem COLON)).
  rewrite (proj2 (Nat.eqb_neq _ _)) by (by destruct (to_string (ntohs p))).
  rewrite strtoul_to_string by (unfold ULONG_MAX; lia).
  rewrite (proj2 (Z.eqb_neq _ _)), (proj2 (Z.ltb_ge _ _)) by lia. cbn [orb].
  rewrite wrap_small, ntohs_involutive by (unfold in_width; lia || done).
  destruct (address_text_spec a Ha) as (text & Hpa & Ht). case_bool_decide.
  - destruct Ht as [-> (c & Hc & Hne')]. rewrite (bool_decide_eq_false_2 (head _ = _)) by congruence.
    rewrite andb_false_r. cbn [andb]. by rewrite Hpa.
  - rewrite Ht. cbn [length head]. rewrite length_app. cbn [length].
    rewrite bool_decide_eq_true_2 by done.
    rewrite (bool_decide_eq_true_2 (last _ = _)) by (by rewrite app_comm_cons, last_snoc).
    rewrite (proj2 (Nat.leb_le _ _)) by lia. cbn [andb skipn].
    replace (S (length text + 1) - 2)%nat with (length text) by lia.
    by rewrite drop_0, take_app_length, Hpa.
Qed.

(** An address whose compressed form starts with a group and ends with one. *)
Definition sample_v6 : Endpoint :=
  mkEndpoint (mkIP IPv6 [x20; x01; x0d; xb8; x00; x00; x00; x00; x00; x00; x00; x00; x00; x00; x00; x2a])
             (ntohs 51820).

Lemma endpoint_text_round_trip_witness :
  endpoint_to_string sample_v6 = lit "[2001:db8::2a]:51820" /\
  parse_endpoint (λ _, None) (endpoint_to_string sample_v6) = Some sample_v6.
Proof.
  split; [by vm_compute|].
  apply endpoint_text_round_trip; [by right|by vm_compute|by vm_compute].
Defined.
