(* ===== verification/Adapter.v ===== *)
(** * The virtual network adapter

    [include/aegis/adapter/adapter.hpp] and [src/adapter/adapter.cpp].  [Adapter] owns a library
    handle, a Wintun adapter and a Wintun session.  Windows and the driver are the class
    [Windows]: what they answer to each call, over a state of their own.  Every operation of
    the object appends the calls it makes, with their results, to a trace; [driver_step] is the
    contract of the driver as an automaton over such traces (which handles and packet buffers
    are live, which functions are resolved), and the theorems show that every use of the object
    keeps to it and gives everything back. *)

From Stdlib Require Import String.
From stdpp Require Import base numbers list option gmap fin_sets.
From Stdlib Require Import ZArith Lia Bool.
From Stdlib.Strings Require Import Byte.
From S2P Require Import Prelude Wire Packet IpAddress Endpoint Text.

Set Default Goal Selector "!".

(** ** Windows and the Wintun driver *)

(** The functions [load_wintun_dll] resolves, in its order. *)
Inductive Proc :=
  | CreateAdapter | CloseAdapter | StartSession | EndSession | ReceivePacket
  | ReleaseReceivePacket | AllocateSendPacket | SendPacket | GetReadWaitEvent
  | GetAdapterLUID | SetLogger.

#[export] Instance proc_eq_dec : EqDecision Proc.
Proof. solve_decision. Defined.

Definition wintun_procs : list Proc :=
  [CreateAdapter; CloseAdapter; StartSession; EndSession; ReceivePacket;
   ReleaseReceivePacket; AllocateSendPacket; SendPacket; GetReadWaitEvent;
   GetAdapterLUID; SetLogger].

(** The fields of [IP_ADAPTER_ADDRESSES] the code reads. *)
Record AdapterRow := mkAdapterRow { Luid : Z; IfIndex : Z; Ipv6IfIndex : Z }.

(** [MIB_UNICASTIPADDRESS_ROW]: family and bytes of the socket address, prefix length, state
    of the duplicate address detection, interface. *)
Record UnicastRow := mkUnicastRow {
  sin_family : Z;
  sin_addr : list byte;
  OnLinkPrefixLength : Z;
  DadState : Z;
  UnicastInterface : Z;
}.

(** The fields of [MIB_IPINTERFACE_ROW] the code reads or writes. *)
Record InterfaceRow := mkInterfaceRow {
  InterfaceFamily : Z;
  InterfaceIndex : Z;
  SitePrefixLength : Z;
  NlMtu : Z;
}.

Definition AF_INET : Z := 2.
Definition AF_INET6 : Z := 23.
Definition NO_ERROR : Z := 0.
Definition ERROR_NO_MORE_ITEMS : Z := 259.
Definition ERROR_OBJECT_ALREADY_EXISTS : Z := 5010.
Definition WAIT_OBJECT_0 : Z := 0.
Definition IpDadStatePreferred : Z := 4.

(** What Windows and the driver answer.  Handles and packet buffers are integers, a null
    pointer is [None] (or [false] for the library). *)
Class Windows := {
  windows : Type;
  LoadLibraryExW : windows -> bool * windows;
  GetProcAddress : Proc -> windows -> bool * windows;
  FreeLibrary : windows -> windows;
  WintunSetLogger : windows -> windows;
  WintunCreateAdapter : list byte -> windows -> option Z * windows;
  WintunGetAdapterLUID : Z -> windows -> Z * windows;
  WintunCloseAdapter : Z -> windows -> windows;
  WintunStartSession : Z -> Z -> windows -> option Z * windows;
  WintunEndSession : Z -> windows -> windows;
  WintunReceivePacket : Z -> windows -> option (Z * list byte) * windows;
  WintunReleaseReceivePacket : Z -> Z -> windows -> windows;
  WintunAllocateSendPacket : Z -> Z -> windows -> option Z * windows;
  WintunSendPacket : Z -> Z -> list byte -> windows -> windows;
  WintunGetReadWaitEvent : Z -> windows -> Z * windows;
  (** the buffer size of the first call, then the rows ([None]: an error code) *)
  GetAdaptersAddresses_size : windows -> Z * windows;
  GetAdaptersAddresses : Z -> windows -> option (list AdapterRow) * windows;
  CreateUnicastIpAddressEntry : UnicastRow -> windows -> Z * windows;
  (** family and interface; an error code or the row *)
  GetIpInterfaceEntry : Z -> Z -> windows -> (Z + InterfaceRow) * windows;
  SetIpInterfaceEntry : InterfaceRow -> windows -> Z * windows;
  WaitForSingleObject : Z -> Z -> windows -> Z * windows;
  GetLastError : windows -> Z;
  Sleep : Z -> windows -> windows;
}.

(** The calls of the object, with what they returned. *)
Inductive Event :=
  | ELoadLibrary (ok : bool)
  | EGetProcAddress (p : Proc) (ok : bool)
  | EFreeLibrary
  | ESetLogger
  | ECreateAdapter (h : option Z)
  | EGetAdapterLUID (h : Z)
  | ECloseAdapter (h : Z)
  | EGetAdaptersAddresses
  | ESleep (ms : Z)
  | ECreateUnicastIpAddressEntry (row : UnicastRow) (ret : Z)
  | EGetIpInterfaceEntry (index : Z)
  | ESetIpInterfaceEntry (row : InterfaceRow) (ret : Z)
  | EStartSession (h : Z) (s : option Z)
  | EEndSession (s : Z)
  | EReceivePacket (s : Z) (buffer : option Z)
  | EReleaseReceivePacket (s buffer : Z)
  | EWaitForPacket (s ms : Z)
  | EAllocateSendPacket (s size : Z) (buffer : option Z)
  | ESendPacket (s buffer : Z) (data : list byte).

(** The function pointer a call goes through. *)
Definition proc_of (e : Event) : option Proc :=
  match e with
  | ESetLogger => Some SetLogger
  | ECreateAdapter _ => Some CreateAdapter
  | EGetAdapterLUID _ => Some GetAdapterLUID
  | ECloseAdapter _ => Some CloseAdapter
  | EStartSession _ _ => Some StartSession
  | EEndSession _ => Some EndSession
  | EReceivePacket _ _ => Some ReceivePacket
  | EReleaseReceivePacket _ _ => Some ReleaseReceivePacket
  | EWaitForPacket _ _ => Some GetReadWaitEvent
  | EAllocateSendPacket _ _ _ => Some AllocateSendPacket
  | ESendPacket _ _ _ => Some SendPacket
  | _ => None
  end.

(** ** The object *)

Record Adapter := mkAdapter {
  wintun_dll : bool;
  adapter_handle : option Z;
  session_handle : option Z;
  if_index : Z;
  adapter_mtu : Z;
}.

Definition new_adapter : Adapter := mkAdapter false None None 0 0.

Definition is_open (a : Adapter) : bool := bool_decide (is_Some (adapter_handle a)).

(** [row = {}], [InitializeUnicastIpAddressEntry], then the fields; [None] where the function
    returns false. *)
Definition build_unicast_address_row (address : IPPrefix) (interface_index : Z)
    : option UnicastRow :=
  if negb (prefix_valid address) || (interface_index =? 0) then None else
  match family (prefix_address address) with
  | IPv4 =>
      let v := ipv4_value (prefix_address address) in
      Some (mkUnicastRow AF_INET
              [b8 (Z.shiftr v 24); b8 (Z.shiftr v 16); b8 (Z.shiftr v 8); b8 v]
              (prefix_len address) IpDadStatePreferred interface_index)
  | IPv6 =>
      Some (mkUnicastRow AF_INET6 (take 16 (ip_bytes (prefix_address address)))
              (prefix_len address) IpDadStatePreferred interface_index)
  | UnknownFamily _ => None
  end.

Section adapter.
Context `{Windows}.

(** The object, the rest of the machine, and the calls so far, latest first. *)
Record World := mkWorld { obj : Adapter; host : windows; trace : list Event }.

Definition act (A : Type) : Type := World -> A * World.

#[export] Instance act_ret : MRet act := λ A a w, (a, w).
#[export] Instance act_bind : MBind act := λ A B k m w, let '(a, w) := m w in k a w.

(** A member of the object, and an assignment to its members. *)
Definition get {A} (f : Adapter -> A) : act A := λ w, (f (obj w), w).
Definition put (f : Adapter -> Adapter) : act unit :=
  λ w, ((), mkWorld (f (obj w)) (host w) (trace w)).

(** A call whose result is part of its event, and a call without one. *)
Definition call {A} (e : A -> Event) (f : windows -> A * windows) : act A :=
  λ w, let '(a, h) := f (host w) in (a, mkWorld (obj w) h (e a :: trace w)).
Definition call_ (e : Event) (f : windows -> windows) : act unit :=
  λ w, ((), mkWorld (obj w) (f (host w)) (e :: trace w)).

Definition last_error : act Z := λ w, (GetLastError (host w), w).

Definition set_dll (x : bool) (a : Adapter) : Adapter :=
  mkAdapter x (adapter_handle a) (session_handle a) (if_index a) (adapter_mtu a).
Definition set_adapter (x : option Z) (a : Adapter) : Adapter :=
  mkAdapter (wintun_dll a) x (session_handle a) (if_index a) (adapter_mtu a).
Definition set_session (x : option Z) (a : Adapter) : Adapter :=
  mkAdapter (wintun_dll a) (adapter_handle a) x (if_index a) (adapter_mtu a).
Definition set_if_index (x : Z) (a : Adapter) : Adapter :=
  mkAdapter (wintun_dll a) (adapter_handle a) (session_handle a) x (adapter_mtu a).
Definition set_mtu (x : Z) (a : Adapter) : Adapter :=
  mkAdapter (wintun_dll a) (adapter_handle a) (session_handle a) (if_index a) x.

(** [LOAD_FN] for each name, up to the first that is missing. *)
Fixpoint load_fns (ps : list Proc) : act bool :=
  match ps with
  | [] => mret true
  | p :: ps =>
      ok ← call (EGetProcAddress p) (GetProcAddress p);
      if negb ok then mret false else load_fns ps
  end.

Definition load_wintun_dll : act bool :=
  ok ← call ELoadLibrary LoadLibraryExW;
  put (set_dll ok);;
  if negb ok then mret false else load_fns wintun_procs.

Definition adapter_close : act unit :=
  s ← get session_handle;
  match s with
  | Some s => call_ (EEndSession s) (WintunEndSession s);; put (set_session None)
  | None => mret ()
  end;;
  h ← get adapter_handle;
  match h with
  | Some h => call_ (ECloseAdapter h) (WintunCloseAdapter h);; put (set_adapter None)
  | None => mret ()
  end;;
  dll ← get wintun_dll;
  (if dll : bool then call_ EFreeLibrary FreeLibrary;; put (set_dll false) else mret ());;
  put (set_if_index 0);; put (set_mtu 0).

Definition configure_mtu (mtu family : Z) : act bool :=
  index ← get if_index;
  r ← call (λ _, EGetIpInterfaceEntry index) (GetIpInterfaceEntry family index);
  match r with
  | inl _ => mret false
  | inr row =>
      let row := mkInterfaceRow (InterfaceFamily row) (InterfaceIndex row) 0 mtu in
      ret ← call (ESetIpInterfaceEntry row) (SetIpInterfaceEntry row);
      if negb (ret =? NO_ERROR) then mret false else
      put (set_mtu mtu);; mret true
  end.

Definition configure_ip (address : IPPrefix) : act bool :=
  index ← get if_index;
  match build_unicast_address_row address index with
  | None => mret false
  | Some row =>
      ret ← call (ECreateUnicastIpAddressEntry row) (CreateUnicastIpAddressEntry row);
      mret ((ret =? NO_ERROR) || (ret =? ERROR_OBJECT_ALREADY_EXISTS))
  end.

(** The rows of one enumeration; true when the interface has an index. *)
Fixpoint find_interface (ipv6 : bool) (luid : Z) (rows : list AdapterRow) : act bool :=
  match rows with
  | [] => mret false
  | a :: rows =>
      if negb (Luid a =? luid) then find_interface ipv6 luid rows else
      (if ipv6 && negb (Ipv6IfIndex a =? 0) then put (set_if_index (Ipv6IfIndex a))
       else if negb ipv6 && negb (IfIndex a =? 0) then put (set_if_index (IfIndex a))
       else mret ());;
      index ← get if_index;
      if negb (index =? 0) then mret true else find_interface ipv6 luid rows
  end.

Fixpoint wait_interface (rounds : nat) (ipv6 : bool) (luid : Z) : act bool :=
  match rounds with
  | O => mret false
  | S rounds =>
      size ← call (λ _, EGetAdaptersAddresses) GetAdaptersAddresses_size;
      rows ← call (λ _, EGetAdaptersAddresses) (GetAdaptersAddresses size);
      found ← match rows with
              | Some rows => find_interface ipv6 luid rows
              | None => mret false
              end;
      if found : bool then mret true else
      call_ (ESleep 100) (Sleep 100);; wait_interface rounds ipv6 luid
  end.

(** The two checks of [create] on its arguments. *)
Definition create_arguments (address : IPPrefix) (mtu : Z) : bool :=
  prefix_valid address &&
  let minimum_mtu :=
    if bool_decide (family (prefix_address address) = IPv6) then 1280 else MINIMUM_IPV4_MTU in
  negb ((mtu <? minimum_mtu) || (MAXIMUM_IPV4_MTU <? mtu)).

Definition adapter_create (address : IPPrefix) (adapter_name : list byte) (mtu : Z) : act bool :=
  if negb (create_arguments address mtu) then mret false else
  let ipv6 := bool_decide (family (prefix_address address) = IPv6) in
  loaded ← load_wintun_dll;
  if negb loaded then mret false else
  call_ ESetLogger WintunSetLogger;;
  created ← call ECreateAdapter (WintunCreateAdapter adapter_name);
  put (set_adapter created);;
  match created with
  | None => mret false
  | Some handle =>
      luid ← call (λ _, EGetAdapterLUID handle) (WintunGetAdapterLUID handle);
      ready ← wait_interface 50 ipv6 luid;
      if negb ready then
        call_ (ECloseAdapter handle) (WintunCloseAdapter handle);;
        put (set_adapter None);; mret false
      else
      addressed ← configure_ip address;
      if negb addressed then adapter_close;; mret false else
      sized ← configure_mtu mtu (if ipv6 then AF_INET6 else AF_INET);
      if negb sized then adapter_close;; mret false else
      session ← call (EStartSession handle) (WintunStartSession handle 4194304);
      put (set_session session);;
      match session with
      | None =>
          call_ (ECloseAdapter handle) (WintunCloseAdapter handle);;
          put (set_adapter None);; mret false
      | Some _ => mret true
      end
  end.

(** [create(uint32_t, ...)]: the address is in network byte order. *)
Definition adapter_create_ipv4 (ip prefix : Z) (adapter_name : list byte) (mtu : Z) : act bool :=
  adapter_create (mkPrefix (from_ipv4 (ntohl ip)) prefix) adapter_name mtu.

(** [WintunReceivePacket_], its event carrying the buffer only. *)
Definition receive_packet (s : Z) : act (option (Z * list byte)) :=
  call (λ r, EReceivePacket s (fst <$> r)) (WintunReceivePacket s).

(** The result and what [out] is assigned, [None] where it is left alone. *)
Definition read_packet (timeout_ms : Z) : act (option (list byte)) :=
  session ← get session_handle;
  match session with
  | None => mret None
  | Some s =>
      data ← receive_packet s;
      data ← match data with
             | Some _ => mret data
             | None =>
                 err ← last_error;
                 if negb (err =? ERROR_NO_MORE_ITEMS) then mret None else
                 waited ← call (λ _, EWaitForPacket s timeout_ms)
                            (λ h, let '(ev, h) := WintunGetReadWaitEvent s h in
                                  WaitForSingleObject ev timeout_ms h);
                 if waited =? WAIT_OBJECT_0 then receive_packet s else mret None
             end;
      match data with
      | None => mret None
      | Some (buffer, bytes) =>
          call_ (EReleaseReceivePacket s buffer) (WintunReleaseReceivePacket s buffer);;
          mret (Some bytes)
      end
  end.

Definition write_packet (data : list byte) : act bool :=
  session ← get session_handle;
  match session with
  | None => mret false
  | Some s =>
      let size := wrap 32 (Z.of_nat (length data)) in
      buffer ← call (EAllocateSendPacket s size) (WintunAllocateSendPacket s size);
      match buffer with
      | None => mret false
      | Some buffer =>
          call_ (ESendPacket s buffer data) (WintunSendPacket s buffer data);; mret true
      end
  end.
End adapter.

(** ** The packet dump *)

(** The lambda [ip_str]. *)
Definition ip_str (ip : Z) : list byte :=
  to_string (Z.land (Z.shiftr ip 24) 255) ++ lit "." ++
  to_string (Z.land (Z.shiftr ip 16) 255) ++ lit "." ++
  to_string (Z.land (Z.shiftr ip 8) 255) ++ lit "." ++ to_string (Z.land ip 255).

Definition proto_name (protocol : Z) : list byte :=
  if protocol =? 1 then lit "ICMP" else if protocol =? 6 then lit "TCP"
  else if protocol =? 17 then lit "UDP" else lit "???".

(** The text [print_packet] prints. *)
Definition print_packet (data : list byte) : list byte :=
  let len := Z.of_nat (length data) in
  let dump := to_hex (take (if 64 <? len then 64 else length data) data) ++ [x0a] in
  match IPPacket_parse data with
  | None =>
      lit "[pkt] non-IPv4 (ver=" ++
      to_string (if 1 <=? len then Z.shiftr (bval (nth 0 data x00)) 4 else 0) ++
      lit "  len=" ++ to_string len ++ lit ") | raw=" ++ dump
  | Some pkt =>
      lit "[pkt] " ++ ip_str (source_ip pkt) ++ lit " -> " ++ ip_str (dest_ip pkt) ++
      lit " | " ++ proto_name (protocol pkt) ++ lit " | len=" ++
      to_string (total_length pkt) ++ lit " | hdr=" ++
      to_string (Z.land (version_ihl pkt) 15 * 4) ++ lit " | raw=" ++ dump
  end.

(** ** The contract of the driver *)

(** What is live on the driver's side: references to the library, functions resolved in it,
    adapters, sessions with their adapter, packets received and not yet released, packets
    allocated and not yet sent (with their size), and whether the open adapter has been given
    its address and its MTU. *)
Record Driver := mkDriver {
  loaded : nat;
  resolved : list Proc;
  adapters : gset Z;
  sessions : gmap Z Z;
  received : gset (Z * Z);
  allocated : gmap (Z * Z) Z;
  addressed : bool;
  sized : bool;
}.

Definition driver_idle : Driver := mkDriver 0 [] ∅ ∅ ∅ ∅ false false.

(** The next state for a call the contract allows, [None] for one it does not: a function is
    called only while the library is loaded and after it was resolved; the library is not
    unloaded while an adapter, a session or a buffer of it is live; a session is started on an
    open adapter that has its address and MTU, ended once, and only when none of its buffers is
    out; an adapter is closed once and after its sessions; a received packet is released once,
    in its session; an allocated packet is sent once, with as many bytes as were allocated. *)
Definition driver_rule (d : Driver) (e : Event) : option Driver :=
  let '(mkDriver n ps ads ss rs al ad sz) := d in
  match e with
  | ELoadLibrary ok => Some (mkDriver (if ok then S n else n) ps ads ss rs al ad sz)
  | EGetProcAddress p ok =>
      if Nat.eqb n 0 then None
      else Some (mkDriver n (if ok then p :: ps else ps) ads ss rs al ad sz)
  | EFreeLibrary =>
      match n with
      | O => None
      | S O =>
          if bool_decide (ads = ∅) && bool_decide (ss = ∅) && bool_decide (rs = ∅) &&
             bool_decide (al = ∅)
          then Some (mkDriver 0 [] ads ss rs al ad sz) else None
      | S n => Some (mkDriver n ps ads ss rs al ad sz)
      end
  | ECreateAdapter (Some h) => Some (mkDriver n ps ({[h]} ∪ ads) ss rs al false false)
  | EGetAdapterLUID h => if bool_decide (h ∈ ads) then Some d else None
  | ECloseAdapter h =>
      if bool_decide (h ∈ ads) && bool_decide (map_Forall (λ _ a, a <> h) ss)
      then Some (mkDriver n ps (ads ∖ {[h]}) ss rs al false false) else None
  | ECreateUnicastIpAddressEntry _ ret =>
      Some (mkDriver n ps ads ss rs al
              (ad || (ret =? NO_ERROR) || (ret =? ERROR_OBJECT_ALREADY_EXISTS)) sz)
  | ESetIpInterfaceEntry _ ret => Some (mkDriver n ps ads ss rs al ad (sz || (ret =? NO_ERROR)))
  | EStartSession h s =>
      if bool_decide (h ∈ ads) && ad && sz then
        Some (match s with
              | Some s => mkDriver n ps ads (<[s := h]> ss) rs al ad sz
              | None => d
              end)
      else None
  | EEndSession s =>
      if bool_decide (is_Some (ss !! s)) && bool_decide (set_Forall (λ b, b.1 <> s) rs) &&
         bool_decide (map_Forall (λ b _, b.1 <> s) al)
      then Some (mkDriver n ps ads (delete s ss) rs al ad sz) else None
  | EReceivePacket s b =>
      if bool_decide (is_Some (ss !! s)) then
        Some (match b with
              | Some b => mkDriver n ps ads ss ({[(s, b)]} ∪ rs) al ad sz
              | None => d
              end)
      else None
  | EReleaseReceivePacket s b =>
      if bool_decide ((s, b) ∈ rs)
      then Some (mkDriver n ps ads ss (rs ∖ {[(s, b)]}) al ad sz) else None
  | EWaitForPacket s _ => if bool_decide (is_Some (ss !! s)) then Some d else None
  | EAllocateSendPacket s size b =>
      if bool_decide (is_Some (ss !! s)) then
        Some (match b with
              | Some b => mkDriver n ps ads ss rs (<[(s, b) := size]> al) ad sz
              | None => d
              end)
      else None
  | ESendPacket s b data =>
      if bool_decide (al !! (s, b) = Some (Z.of_nat (length data)))
      then Some (mkDriver n ps ads ss rs (delete (s, b) al) ad sz) else None
  | _ => Some d
  end.

Definition driver_step (d : Driver) (e : Event) : option Driver :=
  match proc_of e with
  | Some p =>
      if negb (Nat.eqb (loaded d) 0) && bool_decide (p ∈ resolved d)
      then driver_rule d e else None
  | None => driver_rule d e
  end.

(** The driver after a trace (latest first), [None] if some call broke the contract. *)
Fixpoint driver_after (es : list Event) : option Driver :=
  match es with
  | [] => Some driver_idle
  | e :: es => d ← driver_after es; driver_step d e
  end.

(** ** Reasoning about the operations *)

(** Weakest precondition of an operation, over the object and the driver's state: the calls
    it makes are allowed, and [Q] holds of its result and of the states after it. *)
Section wp.
Context `{Windows}.

Definition wp {A} (m : act A) (Q : A -> Adapter -> Driver -> Prop) (o : Adapter) (d : Driver)
    : Prop :=
  forall w, obj w = o -> driver_after (trace w) = Some d ->
  exists d', driver_after (trace (snd (m w))) = Some d' /\
             Q (fst (m w)) (obj (snd (m w))) d'.

Lemma wp_ret {A} (a : A) Q o d : Q a o d -> wp (mret a) Q o d.
Proof. intros Hq w <- Hd. by exists d. Qed.

Lemma wp_act_bind {A B} (m : act A) (k : A -> act B) Q o d :
  wp m (λ a, wp (k a) Q) o d -> wp (m ≫= k) Q o d.
Proof.
  intros Hm w Ho Hd. destruct (Hm w Ho Hd) as (d' & Hd' & Hk).
  unfold mbind, act_bind. destruct (m w) as [a w'] eqn:E. simpl in *. by apply Hk.
Qed.

Lemma wp_get {A} (f : Adapter -> A) Q o d : Q (f o) o d -> wp (get f) Q o d.
Proof. intros Hq w <- Hd. by exists d. Qed.

Lemma wp_put f Q o d : Q () (f o) d -> wp (put f) Q o d.
Proof. intros Hq w <- Hd. by exists d. Qed.

Lemma wp_last_error Q o d : (forall e, Q e o d) -> wp last_error Q o d.
Proof. intros Hq w <- Hd. by exists d. Qed.

Lemma wp_call {A} (e : A -> Event) f Q o d :
  (forall a, exists d', driver_step d (e a) = Some d' /\ Q a o d') -> wp (call e f) Q o d.
Proof.
  intros Hq w <- Hd. unfold call. destruct (f (host w)) as [a h]. simpl.
  destruct (Hq a) as (d' & Hs & Ha). exists d'. by rewrite Hd.
Qed.

Lemma wp_call_ e f Q o d d' : driver_step d e = Some d' -> Q () o d' -> wp (call_ e f) Q o d.
Proof. intros Hs Hq w <- Hd. exists d'. simpl. by rewrite Hd. Qed.

Lemma wp_act_mono {A} (m : act A) (Q Q' : A -> Adapter -> Driver -> Prop) o d :
  wp m Q o d -> (forall a o' d', Q a o' d' -> Q' a o' d') -> wp m Q' o d.
Proof. intros Hm Hq w Ho Hd. destruct (Hm w Ho Hd) as (d' & ? & ?). eauto. Qed.
End wp.

(** The driver with the library loaded, with an adapter, and with a session on it. *)
Definition library_only (ps : list Proc) : Driver := mkDriver 1 ps ∅ ∅ ∅ ∅ false false.
Definition with_adapter (ps : list Proc) (h : Z) (ad sz : bool) : Driver :=
  mkDriver 1 ps {[h]} ∅ ∅ ∅ ad sz.
Definition with_session (ps : list Proc) (h s : Z) : Driver :=
  mkDriver 1 ps {[h]} {[s := h]} ∅ ∅ true true.

(** How the object and the driver fit together between two operations of a client: nothing
    held; after a refused [create], at most the library; an open adapter with its session,
    whose interface is known. *)
Inductive phase : Adapter -> Driver -> Prop :=
  | phase_closed i m : phase (mkAdapter false None None i m) driver_idle
  | phase_library ps i m : phase (mkAdapter true None None i m) (library_only ps)
  | phase_open ps h s i m : wintun_procs ⊆ ps -> i <> 0 ->
      phase (mkAdapter true (Some h) (Some s) i m) (with_session ps h s).

Lemma all_procs (p : Proc) : p ∈ wintun_procs.
Proof. unfold wintun_procs. destruct p; set_solver. Qed.

(** A call through a resolved function, while the library is loaded. *)
Lemma driver_step_resolved d e d' :
  wintun_procs ⊆ resolved d -> loaded d = 1%nat -> driver_rule d e = Some d' ->
  driver_step d e = Some d'.
Proof.
  intros Hp Hl Hr. unfold driver_step. destruct (proc_of e) as [p|]; [|done].
  rewrite Hl, bool_decide_eq_true_2 by (apply Hp, all_procs). done.
Qed.

(** Closing the adapter, and ending the session on it. *)
Lemma rule_close_adapter ps h ad sz :
  driver_rule (with_adapter ps h ad sz) (ECloseAdapter h) = Some (library_only ps).
Proof.
  simpl. rewrite bool_decide_eq_true_2 by set_solver.
  rewrite bool_decide_eq_true_2 by (intros ? ? ?%lookup_empty_Some; done). simpl.
  unfold library_only. do 2 f_equal. set_solver.
Qed.

Lemma rule_end_session ps h s :
  driver_rule (with_session ps h s) (EEndSession s) = Some (with_adapter ps h true true).
Proof.
  simpl. rewrite bool_decide_eq_true_2 by (rewrite lookup_singleton_eq; by eexists).
  rewrite bool_decide_eq_true_2 by (intros ?; set_solver).
  rewrite bool_decide_eq_true_2 by (intros ? ? ?%lookup_empty_Some; done). simpl.
  unfold with_adapter. by rewrite delete_singleton_eq.
Qed.

(** One step of an operation. *)
Ltac wp_step :=
  first [ apply wp_ret | apply wp_get | apply wp_put | apply wp_act_bind ]; simpl.

(** A call whose event needs a resolved function. *)
Ltac wp_driver := eapply wp_call_; [apply driver_step_resolved; [done|done|]|].

Section operations.
Context `{Windows}.

Lemma wp_load_fns todo ps Q o :
  (forall ps, Q false o (library_only ps)) ->
  (forall ps', ps ⊆ ps' -> todo ⊆ ps' -> Q true o (library_only ps')) ->
  wp (load_fns todo) Q o (library_only ps).
Proof.
  intros Hf. revert ps. induction todo as [|p todo IH]; intros ps Ht; simpl.
  - apply wp_ret, Ht; set_solver.
  - wp_step. apply wp_call. intros ok.
    exists (library_only (if ok then p :: ps else ps)). split; [done|].
    destruct ok; simpl; [|by apply wp_ret].
    apply IH. intros ps' Hps' Htodo. apply Ht; set_solver.
Qed.

Lemma wp_load_wintun_dll Q o :
  Q false (set_dll false o) driver_idle ->
  (forall ps, Q false (set_dll true o) (library_only ps)) ->
  (forall ps, wintun_procs ⊆ ps -> Q true (set_dll true o) (library_only ps)) ->
  wp load_wintun_dll Q o driver_idle.
Proof.
  intros Hn Hf Ht. unfold load_wintun_dll. wp_step. apply wp_call. intros ok.
  exists (if ok then library_only [] else driver_idle). split; [by destruct ok|].
  wp_step. wp_step. destruct ok; simpl; [|by apply wp_ret].
  apply (wp_load_fns wintun_procs); [done|]. intros ps' _ Hps. by apply Ht.
Qed.

(** [close] from a state with an adapter and no session, and from every phase. *)
Lemma wp_close_adapter ps h ad sz i m Q :
  wintun_procs ⊆ ps -> Q () new_adapter driver_idle ->
  wp adapter_close Q (mkAdapter true (Some h) None i m) (with_adapter ps h ad sz).
Proof.
  intros Hp Hq. unfold adapter_close. repeat wp_step.
  wp_driver; [apply rule_close_adapter|]. repeat wp_step.
  eapply wp_call_; [done|]. by repeat wp_step.
Qed.

Lemma wp_close o d Q : phase o d -> Q () new_adapter driver_idle -> wp adapter_close Q o d.
Proof.
  intros Hph Hq. destruct Hph as [i m|ps i m|ps h s i m Hp Hi]; unfold adapter_close;
    repeat wp_step; [done|eapply wp_call_; [done|]; by repeat wp_step|].
  wp_driver; [apply rule_end_session|]. repeat wp_step.
  wp_driver; [apply rule_close_adapter|]. repeat wp_step.
  eapply wp_call_; [done|]. by repeat wp_step.
Qed.

(** The search leaves the members other than the index alone; when it succeeds the index is
    not zero, and when it fails the index is what it was. *)
Lemma wp_find_interface v6 luid rows o d Q :
  (forall i, i <> 0 -> Q true (set_if_index i o) d) ->
  (if_index o = 0 -> Q false o d) ->
  if_index o = 0 -> wp (find_interface v6 luid rows) Q o d.
Proof.
  intros Ht Hf Hi. induction rows as [|a rows IH]; simpl; [by apply wp_ret, Hf|].
  destruct (Luid a =? luid); simpl; [|exact IH].
  wp_step. destruct v6, (Z.eqb_spec (Ipv6IfIndex a) 0), (Z.eqb_spec (IfIndex a) 0); simpl;
    repeat wp_step; rewrite ?Hi, ?(proj2 (Z.eqb_neq _ _)) by done; simpl;
    first [exact IH | apply wp_ret, Ht; done].
Qed.

Lemma wp_wait_interface rounds v6 luid o d Q :
  (forall i, i <> 0 -> Q true (set_if_index i o) d) ->
  (if_index o = 0 -> Q false o d) ->
  if_index o = 0 -> wp (wait_interface rounds v6 luid) Q o d.
Proof.
  intros Ht Hf Hi. induction rounds as [|rounds IH]; simpl; [by apply wp_ret, Hf|].
  wp_step. apply wp_call. intros size. exists d. split; [by destruct d|].
  wp_step. apply wp_call. intros rows. exists d. split; [by destruct d|].
  assert (forall b : bool, b = false -> wp (if b then mret true else
    call_ (ESleep 100) (Sleep 100);; wait_interface rounds v6 luid) Q o d) as Hn.
  { intros ? ->. wp_step. eapply wp_call_; [by destruct d|]. exact IH. }
  wp_step. destruct rows as [rows|]; [|apply wp_ret; by apply (Hn false)].
  apply wp_find_interface; [|intros; by apply (Hn false)|done]. intros i Hne. by apply wp_ret, Ht.
Qed.

Lemma wp_configure_ip address o ps h Q :
  (forall ad, Q false o (with_adapter ps h ad false)) ->
  (is_Some (build_unicast_address_row address (if_index o)) ->
     Q true o (with_adapter ps h true false)) ->
  wp (configure_ip address) Q o (with_adapter ps h false false).
Proof.
  intros Hf Ht. unfold configure_ip. do 2 wp_step.
  destruct (build_unicast_address_row address (if_index o)) as [row|]; [|apply wp_ret, Hf].
  wp_step. apply wp_call. intros ret. eexists. split; [done|]. apply wp_ret. simpl.
  destruct ((ret =? NO_ERROR) || (ret =? ERROR_OBJECT_ALREADY_EXISTS)); [|apply Hf].
  apply Ht. by eexists.
Qed.

Lemma wp_configure_mtu mtu fam o ps h Q :
  (forall o' sz, wintun_dll o' = wintun_dll o -> adapter_handle o' = adapter_handle o ->
     session_handle o' = session_handle o -> Q false o' (with_adapter ps h true sz)) ->
  Q true (set_mtu mtu o) (with_adapter ps h true true) ->
  wp (configure_mtu mtu fam) Q o (with_adapter ps h true false).
Proof.
  intros Hf Ht. unfold configure_mtu. do 2 wp_step. wp_step. apply wp_call. intros r.
  eexists. split; [done|]. destruct r as [code|row]; [by apply wp_ret, Hf|].
  wp_step. apply wp_call. intros ret. eexists. split; [done|]. simpl.
  destruct (ret =? NO_ERROR); simpl; [|by apply wp_ret, Hf]. by repeat wp_step.
Qed.
End operations.

(** What [create] leaves behind on a closed object. *)
Definition create_post (address : IPPrefix) (mtu : Z) (ok : bool) (o : Adapter) (d : Driver)
    : Prop :=
  phase o d /\ is_open o = ok /\
  (ok = true -> create_arguments address mtu = true /\ adapter_mtu o = mtu).

Lemma create_post_refused address mtu o d :
  phase o d -> adapter_handle o = None -> create_post address mtu false o d.
Proof. intros Hp Ha. split; [done|]. unfold is_open. by rewrite Ha. Qed.

#[local] Arguments wait_interface : simpl never.

Section client.
Context `{Windows}.

Lemma wp_create address name mtu :
  wp (adapter_create address name mtu) (create_post address mtu) new_adapter driver_idle.
Proof.
  unfold adapter_create. destruct (create_arguments address mtu) eqn:Ea; simpl;
    [|apply wp_ret, create_post_refused; [constructor|done]].
  set (v6 := bool_decide _). apply wp_act_bind, wp_load_wintun_dll; simpl;
    [|intros ps|intros ps Hp]; [apply wp_ret, create_post_refused; [constructor|done]..|].
  wp_step. wp_driver; [done|]. wp_step. apply wp_call. intros created.
  exists (match created with Some h => with_adapter ps h false false | None => library_only ps end).
  split.
  { apply driver_step_resolved; [done..|]. destruct created; [|done]. simpl.
    unfold with_adapter. by rewrite union_empty_r_L. }
  do 2 wp_step. destruct created as [h|];
    [|apply wp_ret, create_post_refused; [constructor|done]].
  wp_step. apply wp_call. intros luid. eexists. split.
  { apply driver_step_resolved; [done..|]. simpl. by rewrite bool_decide_eq_true_2 by set_solver. }
  wp_step. apply wp_wait_interface; [|intros _|done].
  2:{ simpl. wp_step. wp_driver; [apply rule_close_adapter|]. repeat wp_step.
      apply create_post_refused; [constructor|done]. }
  intros i Hi. simpl. wp_step. apply wp_configure_ip; [intros ad|intros _]; simpl.
  { wp_step. apply wp_close_adapter; [done|]. apply wp_ret, create_post_refused; [constructor|done]. }
  wp_step. apply wp_configure_mtu; [intros o' sz Hd Hh Hs|]; simpl.
  { wp_step. destruct o'; simpl in *; subst. apply wp_close_adapter; [done|].
    apply wp_ret, create_post_refused; [constructor|done]. }
  wp_step. apply wp_call. intros session.
  exists (match session with Some s => with_session ps h s | None => with_adapter ps h true true end).
  split.
  { apply driver_step_resolved; [done..|]. simpl. rewrite bool_decide_eq_true_2 by set_solver.
    by destruct session. }
  do 2 wp_step. destruct session as [s|].
  - apply wp_ret. split; [by constructor|]. done.
  - wp_step. wp_driver; [apply rule_close_adapter|]. repeat wp_step.
    apply create_post_refused; [constructor|done].
Qed.

(** A packet received in an open session and its release. *)
Lemma wp_receive ps h s Q o :
  wintun_procs ⊆ ps -> Q None o (with_session ps h s) ->
  (forall b bytes, Q (Some (b, bytes)) o
     (mkDriver 1 ps {[h]} {[s := h]} {[(s, b)]} ∅ true true)) ->
  wp (receive_packet s) Q o (with_session ps h s).
Proof.
  intros Hp Hn Hs. apply wp_call. intros r. eexists. split.
  { apply driver_step_resolved; [done..|]. simpl.
    rewrite bool_decide_eq_true_2 by (rewrite lookup_singleton_eq; by eexists). done. }
  destruct r as [[b bytes]|]; simpl; [|done].
  rewrite union_empty_r_L. apply Hs.
Qed.

(** The tail of [read_packet]: the packet, if there is one, is handed back. *)
Lemma wp_release ps h s (r : option (Z * list byte)) Q o :
  wintun_procs ⊆ ps -> (forall out, Q out o (with_session ps h s)) ->
  wp (match r with
      | None => mret None
      | Some (b, bytes) =>
          call_ (EReleaseReceivePacket s b) (WintunReleaseReceivePacket s b);;
          mret (Some bytes)
      end) Q o
    (match r with
     | None => with_session ps h s
     | Some (b, _) => mkDriver 1 ps {[h]} {[s := h]} {[(s, b)]} ∅ true true
     end).
Proof.
  intros Hp Hq. destruct r as [[b bytes]|]; [|by apply wp_ret].
  wp_step. wp_driver; [|apply wp_ret, Hq]. simpl.
  rewrite bool_decide_eq_true_2 by set_solver. unfold with_session. do 2 f_equal. set_solver.
Qed.

Lemma rule_session_live ps h s : is_Some (sessions (with_session ps h s) !! s).
Proof. simpl. rewrite lookup_singleton_eq. by eexists. Qed.

Lemma wp_read timeout o d :
  phase o d -> wp (read_packet timeout) (λ _ o' d', o' = o /\ phase o' d') o d.
Proof.
  intros Hph. unfold read_packet. do 2 wp_step.
  destruct Hph as [i m|ps i m|ps h s i m Hp Hi]; simpl;
    [apply wp_ret; split; [done|constructor]..|].
  pose proof (λ r, wp_release ps h s r
    (λ _ o' d', o' = mkAdapter true (Some h) (Some s) i m /\ phase o' d')
    (mkAdapter true (Some h) (Some s) i m) Hp
    (λ _, conj eq_refl (phase_open ps h s i m Hp Hi))) as Hrest.
  wp_step. apply wp_receive; [done| |].
  - wp_step. apply wp_act_bind, wp_last_error. intros err.
    destruct (err =? ERROR_NO_MORE_ITEMS); [|apply wp_ret, (Hrest None)]. simpl.
    apply wp_act_bind, wp_call. intros waited. eexists. split.
    { apply driver_step_resolved; [done..|]. simpl.
      by rewrite bool_decide_eq_true_2 by apply (rule_session_live ps h). }
    destruct (waited =? WAIT_OBJECT_0); [|apply wp_ret, (Hrest None)].
    apply wp_receive; [done|apply (Hrest None)|]. intros b bytes. apply (Hrest (Some (b, bytes))).
  - intros b bytes. apply wp_act_bind, wp_ret, (Hrest (Some (b, bytes))).
Qed.

Lemma wp_write data o d :
  Z.of_nat (length data) < 2 ^ 32 -> phase o d ->
  wp (write_packet data) (λ _ o' d', o' = o /\ phase o' d') o d.
Proof.
  intros Hlen Hph. unfold write_packet. do 2 wp_step.
  destruct Hph as [i m|ps i m|ps h s i m Hp Hi]; simpl;
    [apply wp_ret; split; [done|constructor]..|].
  rewrite wrap_small by (unfold in_width; lia). wp_step. apply wp_call. intros buffer.
  eexists. split.
  { apply driver_step_resolved; [done..|]. simpl.
    by rewrite bool_decide_eq_true_2 by apply (rule_session_live ps h). }
  destruct buffer as [b|]; [|apply wp_ret; split; [done|by constructor]].
  wp_step. wp_driver; [simpl|apply wp_ret; split; [done|apply phase_open; done]].
  rewrite lookup_insert_eq, bool_decide_eq_true_2 by done.
  by rewrite delete_insert_id.
Qed.
End client.

(** ** Clients of the object *)

(** What a client may call. *)
Inductive ClientCall :=
  | ClientCreate (address : IPPrefix) (name : list byte) (mtu : Z)
  | ClientClose
  | ClientRead (timeout_ms : Z)
  | ClientWrite (data : list byte).

(** [create] only on an object that is new or was closed since the last [create], and packets
    whose size fits the driver's [DWORD]. *)
Fixpoint well_used (fresh : bool) (cs : list ClientCall) : bool :=
  match cs with
  | [] => true
  | ClientCreate _ _ _ :: cs => fresh && well_used false cs
  | ClientClose :: cs => well_used true cs
  | ClientRead _ :: cs => well_used fresh cs
  | ClientWrite data :: cs => (Z.of_nat (length data) <? 2 ^ 32) && well_used fresh cs
  end.

Section clients.
Context `{Windows}.

Definition client_call (c : ClientCall) : act unit :=
  match c with
  | ClientCreate address name mtu => _ ← adapter_create address name mtu; mret ()
  | ClientClose => adapter_close
  | ClientRead timeout => _ ← read_packet timeout; mret ()
  | ClientWrite data => _ ← write_packet data; mret ()
  end.

Fixpoint client_run (cs : list ClientCall) : act unit :=
  match cs with
  | [] => mret ()
  | c :: cs => client_call c;; client_run cs
  end.

(** The object from its construction to its destructor, which closes it. *)
Definition adapter_lifetime (cs : list ClientCall) (h : windows) : World :=
  snd ((client_run cs;; adapter_close) (mkWorld new_adapter h [])).

Lemma wp_client_run cs fresh o d :
  well_used fresh cs = true -> phase o d -> (fresh = true -> o = new_adapter /\ d = driver_idle) ->
  wp (client_run cs) (λ _, phase) o d.
Proof.
  revert fresh o d. induction cs as [|c cs IH]; intros fresh o d Hu Hp Hf; simpl;
    [by apply wp_ret|].
  assert (phase new_adapter driver_idle) as Hnew by constructor.
  wp_step. destruct c as [address name mtu| |timeout|data]; simpl in *.
  - apply andb_true_iff in Hu as [-> Hu]. destruct (Hf eq_refl) as [-> ->].
    wp_step. eapply wp_act_mono; [apply wp_create|]. intros ok o' d' (Hp' & _).
    apply wp_ret. by apply (IH false).
  - eapply wp_close; [done|]. by apply (IH true).
  - wp_step. eapply wp_act_mono; [by apply wp_read|]. intros out o' d' [-> Hp'].
    apply wp_ret. apply (IH fresh); [done..|]. intros Hfr. destruct (Hf Hfr) as [-> ->].
    by inversion Hp'.
  - apply andb_true_iff in Hu as [Hlen%Z.ltb_lt Hu].
    wp_step. eapply wp_act_mono; [by apply wp_write|]. intros ok o' d' [-> Hp'].
    apply wp_ret. apply (IH fresh); [done..|]. intros Hfr. destruct (Hf Hfr) as [-> ->].
    by inversion Hp'.
Qed.
End clients.

(** C20: The adapter object keeps to the driver's contract: whatever Windows and the driver
    answer, a client that closes the object before it creates again makes - through the object
    and finally its destructor - only calls the contract allows (no call through an unresolved
    function or after the library is gone, sessions only on an open adapter that has its address
    and MTU, every packet buffer handed back exactly once and filled to its allocated size), and
    at the end of the object's life every library reference, adapter, session and buffer has
    been given back.  In between an object that reports itself open has a session on a known
    interface. *)
Theorem adapter_keeps_driver_contract `{Windows} cs h :
  well_used true cs = true ->
  driver_after (trace (adapter_lifetime cs h)) = Some driver_idle /\
  obj (adapter_lifetime cs h) = new_adapter /\
  (let w := snd (client_run cs (mkWorld new_adapter h [])) in
   is_open (obj w) = true ->
   is_Some (session_handle (obj w)) /\ if_index (obj w) <> 0).
Proof.
  intros Hu. assert (phase new_adapter driver_idle) as Hnew by constructor.
  pose proof (wp_client_run cs true new_adapter driver_idle Hu Hnew ltac:(done)) as Hrun.
  assert (wp (client_run cs;; adapter_close) (λ _ o d, o = new_adapter /\ d = driver_idle)
            new_adapter driver_idle) as Hall.
  { apply wp_act_bind. eapply wp_act_mono; [exact Hrun|]. intros ? o d Hp. by apply (wp_close o d). }
  destruct (Hall (mkWorld new_adapter h []) eq_refl eq_refl) as (d & Hd & Ho & ->).
  split_and!; [exact Hd|exact Ho|].
  destruct (Hrun (mkWorld new_adapter h []) eq_refl eq_refl) as (d & _ & Hp). simpl.
  destruct Hp as [i m|ps i m|ps h' s i m Hps Hi]; simpl; [by intros ?%bool_decide_eq_true_1%is_Some_None..|].
  intros _. split; [by eexists|done].
Qed.

(** ** A concrete Windows

    The packets waiting in the ring; sessions can be refused. *)

Record ToyWindows := mkToyWindows { toy_ring : list (list byte); toy_sessions : bool }.

#[local] Instance toy_windows : Windows := {|
  windows := ToyWindows;
  LoadLibraryExW h := (true, h);
  GetProcAddress p h := (true, h);
  FreeLibrary h := h;
  WintunSetLogger h := h;
  WintunCreateAdapter name h := (Some 1, h);
  WintunGetAdapterLUID a h := (7, h);
  WintunCloseAdapter a h := h;
  WintunStartSession a ring h := (if toy_sessions h then Some 2 else None, h);
  WintunEndSession s h := h;
  WintunReceivePacket s h :=
    match toy_ring h with
    | [] => (None, h)
    | p :: ps => (Some (3, p), mkToyWindows ps (toy_sessions h))
    end;
  WintunReleaseReceivePacket s b h := h;
  WintunAllocateSendPacket s size h := (Some 4, h);
  WintunSendPacket s b data h := h;
  WintunGetReadWaitEvent s h := (5, h);
  GetAdaptersAddresses_size h := (100, h);
  GetAdaptersAddresses size h := (Some [mkAdapterRow 6 9 9; mkAdapterRow 7 11 12], h);
  CreateUnicastIpAddressEntry row h := (NO_ERROR, h);
  GetIpInterfaceEntry fam index h := (inr (mkInterfaceRow fam index 64 1500), h);
  SetIpInterfaceEntry row h := (NO_ERROR, h);
  WaitForSingleObject ev ms h := (258, h);
  GetLastError h := ERROR_NO_MORE_ITEMS;
  Sleep ms h := h;
|}.

Definition sample_calls : list ClientCall :=
  [ClientCreate (mkPrefix (from_ipv4 167772161) 24) (lit "Aegis Tunnel") 1300;
   ClientRead 100; ClientWrite [x45; x00]; ClientRead 100; ClientClose;
   ClientCreate (mkPrefix (from_ipv4 167772161) 24) (lit "Aegis Tunnel") 100; ClientRead 100].

Lemma adapter_keeps_driver_contract_witness :
  driver_after (trace (adapter_lifetime sample_calls (mkToyWindows [[x45; x01]] true)))
    = Some driver_idle /\
  obj (adapter_lifetime sample_calls (mkToyWindows [[x45; x01]] true)) = new_adapter.
Proof.
  destruct (@adapter_keeps_driver_contract toy_windows sample_calls (mkToyWindows [[x45; x01]] true)
    ltac:(vm_compute; reflexivity)) as (Hd & Ho & _).
  exact (conj Hd Ho).
Defined.

(** The premise is needed: when [WintunStartSession] fails, [create] closes the adapter but
    keeps the library and the interface index; a second [create] loads the library again, and
    the one [FreeLibrary] of [close] leaves a reference behind. *)
Example recreate_keeps_library :
  let address := mkPrefix (from_ipv4 167772161) 24 in
  let create := ClientCreate address (lit "Aegis Tunnel") 1300 in
  let h := mkToyWindows [] false in
  let once := snd (client_run [create] (mkWorld new_adapter h [])) in
  is_open (obj once) = false /\ if_index (obj once) = 11 /\ wintun_dll (obj once) = true /\
  loaded <$> driver_after (trace (adapter_lifetime [create; create] h)) = Some 1%nat.
Proof. vm_compute. done. Qed.

(** The row carries the address itself, in network byte order, with its prefix length. *)
Lemma unicast_row_spec address index row :
  length (ip_bytes (prefix_address address)) = 16%nat ->
  build_unicast_address_row address index = Some row ->
  OnLinkPrefixLength row = prefix_len address /\ UnicastInterface row = index /\
  match family (prefix_address address) with
  | IPv4 => sin_family row = AF_INET /\ sin_addr row = take 4 (ip_bytes (prefix_address address))
  | _ => sin_family row = AF_INET6 /\ sin_addr row = ip_bytes (prefix_address address)
  end.
Proof.
  intros Hlen. unfold build_unicast_address_row.
  destruct (negb _ || _); [done|]. destruct address as [[fam bs] len]. simpl in *.
  destruct fam; intros [= <-]; simpl; (split_and!; [done..|]); [|by rewrite take_ge by lia].
  set (v := ipv4_value _). transitivity (be_split 4 v); [unfold be_split; by rewrite Z.shiftr_0_r|].
  do 4 (destruct bs as [|? bs]; [done|]). subst v. unfold ipv4_value, ip_at. cbn [family].
  change (take 4 _) with [b; b0; b1; b2].
  rewrite <- (be_split_combine 4 [b; b0; b1; b2]) by done. f_equal.
  by rewrite <- (be_combine_4 [b; b0; b1; b2]).
Qed.
