(* ===== verification/IdentityStore.v ===== *)
(** * The identity file ([src/cli/identity_store.cpp])

    The stored form of an identity, the atomic replacement of the file and
    [load_or_create_identity].  The file system is a map from paths to contents, and the
    outcomes of its calls are a record, so that every failure is covered.  The theorems: a node
    keeps its keys and its id across restarts and across the migration of the old format, and
    no failure, at any point, damages the file. *)

From Stdlib Require Import ZArith Lia Bool.
From Stdlib.Strings Require Import Byte String.
From stdpp Require Import base numbers gmap option list.
From S2P Require Import Prelude Wire Crypto Identity IpAddress Endpoint Text.
#[local] Open Scope Z_scope.

Definition IDENTITY_STORE_MAGIC : list byte := lit "AEGISID".
Definition IDENTITY_STORE_VERSION : byte := x01.
Definition IDENTITY_STORE_X25519_OFFSET : nat := 8.
Definition IDENTITY_STORE_SIGNING_OFFSET : nat := IDENTITY_STORE_X25519_OFFSET + KEY_SIZE.
Definition IDENTITY_STORE_BINDING_OFFSET : nat := IDENTITY_STORE_SIGNING_OFFSET + KEY_SIZE.
Definition IDENTITY_STORE_CHECKSUM_OFFSET : nat :=
  IDENTITY_STORE_BINDING_OFFSET + IDENTITY_SIGNATURE_SIZE.
Definition IDENTITY_STORE_V1_SIZE : nat := IDENTITY_STORE_CHECKSUM_OFFSET + 32.
Definition LEGACY_IDENTITY_SIZE : nat := KEY_SIZE.

(** ** Files *)

Abbreviation Path := (list byte) (only parsing).
Abbreviation Files := (gmap (list byte) (list byte)) (only parsing).

(** The outcomes of the calls: what the process id is, whether the attributes of an existing
    path can be read, which [CREATE_NEW] of a free name succeeds, what reaches the disk when
    the write fails, whether the rename, the deletion, the open and the read succeed. *)
Record StoreIo := mkStoreIo {
  process_id : Z;
  attributes_ok : bool;
  create_ok : nat -> bool;
  write_ok : bool;
  partial_write : list byte;
  move_ok : bool;
  delete_ok : bool;
  open_ok : bool;
  read_ok : bool;
}.

Definition temporary_path (io : StoreIo) (path : Path) (attempt : nat) : Path :=
  path ++ lit ".tmp." ++ to_string (process_id io) ++ lit "." ++ to_string (Z.of_nat attempt).

(** The sixteen attempts: [None] is the exception, for a failure other than an existing file
    and for the exhaustion of the names. *)
Fixpoint create_temporary (io : StoreIo) (path : Path) (remaining attempt : nat) (fs : Files) : option Path :=
  match remaining with
  | O => None
  | S remaining =>
      let tmp := temporary_path io path attempt in
      if bool_decide (is_Some (fs !! tmp)) then create_temporary io path remaining (S attempt) fs
      else if create_ok io attempt then Some tmp else None
  end.

Definition delete_file (io : StoreIo) (path : Path) (fs : Files) : Files :=
  if delete_ok io then delete path fs else fs.

Section store.
Context `{OpenSSL}.

(** The raw X25519 public key of a private key, in OpenSSL. *)
Context (evp_x25519_public : Key -> option Key).

Definition checksum (bytes : list byte) : option (list byte) :=
  match evp_sha256 bytes with
  | Some digest => if Nat.eqb (length digest) 32 then Some digest else None
  | None => None
  end.

Definition identity_body (id : Identity) : list byte :=
  IDENTITY_STORE_MAGIC ++ [IDENTITY_STORE_VERSION] ++ private_key (keypair id) ++
  private_key (signing_keypair id) ++ key_agreement_binding id.

Definition encode_identity (id : Identity) : option (list byte) :=
  if negb (verify_key_agreement_binding id) ||
     negb (bool_decide (node_id id = hash_public_key (public_key (keypair id)))) then None
  else match checksum (identity_body id) with
       | Some digest => Some (identity_body id ++ digest)
       | None => None
       end.

(** The flag is false for an exception. *)
Definition write_identity_atomic (io : StoreIo) (path : Path) (id : Identity) (fs : Files)
    : bool * Files :=
  match encode_identity id with
  | None => (false, fs)
  | Some bytes =>
      match create_temporary io path 16 0 fs with
      | None => (false, fs)
      | Some tmp =>
          if negb (write_ok io) then (false, delete_file io tmp (<[tmp := partial_write io]> fs))
          else
            let fs := <[tmp := bytes]> fs in
            if negb (move_ok io) then (false, delete_file io tmp fs)
            else (true, <[path := bytes]> (delete tmp fs))
      end
  end.

Definition read_identity_file (io : StoreIo) (path : Path) (fs : Files) : option (list byte) :=
  match fs !! path with
  | None => None
  | Some bytes =>
      if negb (open_ok io) || Nat.ltb IDENTITY_STORE_V1_SIZE (length bytes) || negb (read_ok io)
      then None else Some bytes
  end.

Definition derive_x25519_public (private : Key) : option Key :=
  match evp_x25519_public private with
  | Some pk => if Nat.eqb (length pk) KEY_SIZE then Some pk else None
  | None => None
  end.

Definition decode_legacy_identity (bytes : list byte) (network : NetworkId) (generated : option KeyPair)
    : option Identity :=
  match derive_x25519_public bytes with
  | None => None
  | Some pk =>
      let id := mkIdentity no_keypair (mkKeyPair pk bytes) zero_signature (hash_public_key pk)
                  network zero32 in
      match bind_identity_keys id generated with (true, id) => Some id | (false, _) => None end
  end.

Definition slice (offset count : nat) (bytes : list byte) : list byte := take count (drop offset bytes).

Definition decode_v1_identity (bytes : list byte) (network : NetworkId) : option Identity :=
  if negb (Nat.eqb (length bytes) IDENTITY_STORE_V1_SIZE) ||
     negb (bool_decide (take 7 bytes = IDENTITY_STORE_MAGIC)) ||
     negb (bool_decide (nth 7 bytes x00 = IDENTITY_STORE_VERSION)) then None
  else
    match checksum (take IDENTITY_STORE_CHECKSUM_OFFSET bytes) with
    | None => None
    | Some expected =>
        if negb (bool_decide (expected = slice IDENTITY_STORE_CHECKSUM_OFFSET 32 bytes)) then None
        else
          let private := slice IDENTITY_STORE_X25519_OFFSET KEY_SIZE bytes in
          match derive_x25519_public private with
          | None => None
          | Some pk =>
              let id := mkIdentity no_keypair (mkKeyPair pk private) zero_signature
                          (hash_public_key pk) network zero32 in
              let signing_private := slice IDENTITY_STORE_SIGNING_OFFSET KEY_SIZE bytes in
              let stored_binding := slice IDENTITY_STORE_BINDING_OFFSET IDENTITY_SIGNATURE_SIZE bytes in
              match bind_identity_keys_with id signing_private with
              | (false, _) => None
              | (true, id) =>
                  if negb (bool_decide (key_agreement_binding id = stored_binding)) ||
                     negb (verify_key_agreement_binding id) then None
                  else Some id
              end
          end
    end.

(** [None] is the exception. *)
Definition identity_file_exists (io : StoreIo) (path : Path) (fs : Files) : option bool :=
  if negb (attributes_ok io) then None else Some (bool_decide (is_Some (fs !! path))).

(** [load_or_create_identity] on the resolved path; the key pairs are the outcomes of the
    library's key generation. *)
Definition load_or_create_identity (io : StoreIo) (network : NetworkId) (path : Path)
    (generated_x : KeyPair) (generated : option KeyPair) (fs : Files) : option Identity * Files :=
  let save id := match write_identity_atomic io path id fs with
                 | (true, fs) => (Some id, fs)
                 | (false, fs) => (None, fs)
                 end in
  match identity_file_exists io path fs with
  | None => (None, fs)
  | Some true =>
      match read_identity_file io path fs with
      | None => (None, fs)
      | Some bytes =>
          if Nat.eqb (length bytes) LEGACY_IDENTITY_SIZE then
            match decode_legacy_identity bytes network generated with
            | None => (None, fs)
            | Some id => save id
            end
          else (decode_v1_identity bytes network, fs)
      end
  | Some false =>
      match Identity_create network generated_x generated with
      | None => (None, fs)
      | Some id => save id
      end
  end.
End store.

(** ** What is stored is read back *)

Definition set_network (network : NetworkId) (id : Identity) : Identity :=
  mkIdentity (signing_keypair id) (keypair id) (key_agreement_binding id) (node_id id) network
    (creator_node_id id).

Section laws.
Context `{OpenSSL}.
Context (evp_x25519_public : Key -> option Key).
#[local] Notation derive := (derive_x25519_public evp_x25519_public).

(** The identity before its signing key is bound. *)
Definition unbound (private pk : Key) (network : NetworkId) : Identity :=
  mkIdentity no_keypair (mkKeyPair pk private) zero_signature (hash_public_key pk) network zero32.

(** The identities the program makes: the keys are pairs and the binding is the signature. *)
Definition consistent (id : Identity) : Prop :=
  exists private pk network signing,
    is32 private /\ is32 signing /\ derive private = Some pk /\
    bind_identity_keys_with (unbound private pk network) signing = (true, id).

Lemma bind_network private pk n n' signing id :
  bind_identity_keys_with (unbound private pk n) signing = (true, id) ->
  bind_identity_keys_with (unbound private pk n') signing = (true, set_network n' id).
Proof.
  unfold bind_identity_keys_with. cbn [unbound keypair public_key].
  destruct (evp_ed25519_public signing) as [spk|]; [|done]. destruct (negb _); [done|].
  destruct (sign_fixed _ _); [|done]. by intros [= <-].
Qed.

Lemma bind_fields private pk n signing id :
  bind_identity_keys_with (unbound private pk n) signing = (true, id) ->
  keypair id = mkKeyPair pk private /\ private_key (signing_keypair id) = signing /\
  length (key_agreement_binding id) = 64%nat /\ node_id id = hash_public_key pk /\ network_id id = n.
Proof.
  unfold bind_identity_keys_with, sign_fixed. cbn [unbound keypair public_key].
  destruct (evp_ed25519_public signing) as [spk|]; [|done]. destruct (negb _); [done|].
  destruct (evp_ed25519_sign _ _) as [s|]; [|done].
  destruct (Nat.eqb_spec (length s) IDENTITY_SIGNATURE_SIZE); [|done]. by intros [= <-].
Qed.

(** Generating the signing key first makes no difference. *)
Lemma bind_generated private pk n generated id :
  bind_identity_keys (unbound private pk n) generated = (true, id) ->
  exists kp, generated = Some kp /\
    bind_identity_keys_with (unbound private pk n) (private_key kp) = (true, id).
Proof.
  destruct generated as [kp|]; [|done]. cbn [bind_identity_keys]. intros E. exists kp. split; [done|].
  revert E. unfold bind_identity_keys_with. cbn [unbound set_signing keypair public_key].
  destruct (evp_ed25519_public _) as [spk|]; [|done]. destruct (negb _); [done|].
  by destruct (sign_fixed _ _).
Qed.

Lemma checksum_length bytes d : checksum bytes = Some d -> length d = 32%nat.
Proof.
  unfold checksum. destruct (evp_sha256 bytes) as [e|]; [|done].
  destruct (Nat.eqb_spec (length e) 32); [|done]. by intros [= <-].
Qed.

(** The parts of a stored identity. *)
Lemma stored_parts (head private signing binding digest : list byte) :
  length head = 8%nat -> is32 private -> is32 signing -> length binding = 64%nat ->
  length digest = 32%nat ->
  let bytes := (head ++ private ++ signing ++ binding) ++ digest in
  length bytes = IDENTITY_STORE_V1_SIZE /\ take 8 bytes = head /\
  take IDENTITY_STORE_CHECKSUM_OFFSET bytes = head ++ private ++ signing ++ binding /\
  slice IDENTITY_STORE_CHECKSUM_OFFSET 32 bytes = digest /\
  slice IDENTITY_STORE_X25519_OFFSET KEY_SIZE bytes = private /\
  slice IDENTITY_STORE_SIGNING_OFFSET KEY_SIZE bytes = signing /\
  slice IDENTITY_STORE_BINDING_OFFSET IDENTITY_SIGNATURE_SIZE bytes = binding.
Proof.
  intros H1 H2 H3 H4 H5 bytes. unfold is32 in *.
  assert (length (head ++ private ++ signing ++ binding) = IDENTITY_STORE_CHECKSUM_OFFSET) as Hb
    by (by rewrite !length_app, H1, H2, H3, H4).
  unfold slice, bytes. split_and!.
  - by rewrite length_app, Hb, H5.
  - rewrite <- app_assoc. by apply take_app_length'.
  - by apply take_app_length'.
  - rewrite drop_app_length' by done. by apply take_ge; lia.
  - rewrite <- !app_assoc, drop_app_length' by done. by apply take_app_length'.
  - replace (_ ++ digest) with ((head ++ private) ++ signing ++ binding ++ digest)
      by (by rewrite <- !app_assoc).
    rewrite drop_app_length' by (by rewrite length_app, H1, H2). by apply take_app_length'.
  - replace (_ ++ digest) with ((head ++ private ++ signing) ++ binding ++ digest)
      by (by rewrite <- !app_assoc).
    rewrite drop_app_length' by (by rewrite !length_app, H1, H2, H3). by apply take_app_length'.
Qed.

Lemma decode_encode id bytes n : consistent id -> encode_identity id = Some bytes ->
  length bytes = IDENTITY_STORE_V1_SIZE /\
  decode_v1_identity evp_x25519_public bytes n = Some (set_network n id).
Proof.
  intros (private & pk & n0 & signing & Hp & Hs & Hd & Hb) He.
  destruct (bind_fields _ _ _ _ _ Hb) as (Hk & Hsk & Hl & Hn & _).
  unfold encode_identity in He. destruct (verify_key_agreement_binding id) eqn:Hv; [|done].
  cbn [negb orb] in He. destruct (negb _); [done|].
  destruct (checksum (identity_body id)) as [digest|] eqn:Hc; [|done]. apply (inj Some) in He as <-.
  assert (identity_body id = (IDENTITY_STORE_MAGIC ++ [IDENTITY_STORE_VERSION]) ++ private ++ signing ++
    key_agreement_binding id) as Ebody
    by (unfold identity_body; rewrite Hk, Hsk; cbn [private_key]; by rewrite <- app_assoc).
  rewrite Ebody in *.
  destruct (stored_parts (IDENTITY_STORE_MAGIC ++ [IDENTITY_STORE_VERSION]) private signing
    (key_agreement_binding id) digest eq_refl Hp Hs Hl (checksum_length _ _ Hc))
    as (E1 & _ & E3 & E4 & E5 & E6 & E7). split; [done|].
  unfold decode_v1_identity. rewrite E1, E3, E4, E5, E6, E7, Hc, Nat.eqb_refl.
  rewrite !bool_decide_eq_true_2 by done. cbn [negb orb]. rewrite Hd. fold (unbound private pk n).
  rewrite (bind_network _ _ _ n _ _ Hb). cbn [set_network key_agreement_binding].
  rewrite bool_decide_eq_true_2 by done. cbn [negb orb].
  change (verify_key_agreement_binding _) with (verify_key_agreement_binding id). by rewrite Hv.
Qed.

Lemma decode_v1_network bytes n n' id :
  decode_v1_identity evp_x25519_public bytes n = Some id ->
  decode_v1_identity evp_x25519_public bytes n' = Some (set_network n' id).
Proof.
  unfold decode_v1_identity. destruct (_ || _) in |- *; [done|].
  destruct (checksum _); [|done]. destruct (negb _); [done|].
  destruct (derive _) as [pk|]; [|done]. cbv zeta.
  fold (unbound (slice IDENTITY_STORE_X25519_OFFSET KEY_SIZE bytes) pk n)
    (unbound (slice IDENTITY_STORE_X25519_OFFSET KEY_SIZE bytes) pk n').
  destruct (bind_identity_keys_with _ _) as [[] id0] eqn:E; [|done].
  rewrite (bind_network _ _ _ n' _ _ E). cbn [set_network key_agreement_binding].
  change (verify_key_agreement_binding (mkIdentity _ _ _ _ n' _)) with (verify_key_agreement_binding id0).
  destruct (_ || _) in |- *; [done|]. by intros [= <-].
Qed.

(** ** The file system *)

Lemma temporary_not_path io path k : temporary_path io path k <> path.
Proof.
  unfold temporary_path. intros E. apply (f_equal length) in E. rewrite length_app in E. cbn in E. lia.
Qed.

Lemma create_temporary_fresh io path remaining : forall k fs tmp,
  create_temporary io path remaining k fs = Some tmp ->
  fs !! tmp = None /\ exists j, (k <= j < k + remaining)%nat /\ tmp = temporary_path io path j.
Proof.
  induction remaining as [|remaining IH]; intros k fs tmp; cbn [create_temporary]; [done|].
  case_bool_decide as Hb.
  - intros (Hn & j & Hj & Ht)%IH. split; [done|]. exists j. split; [lia|done].
  - destruct (create_ok io k); [|done]. intros [= <-]. split; [by apply eq_None_not_Some|].
    exists k. split; [lia|done].
Qed.

(** What a call may leave behind: the old file or the complete new one, and temporary files. *)
Definition only_replaced (io : StoreIo) (path : Path) (id : Identity) (fs fs' : Files) : Prop :=
  (fs' !! path = fs !! path \/ (is_Some (encode_identity id) /\ fs' !! path = encode_identity id)) /\
  forall q, q <> path -> (forall k, (k < 16)%nat -> q <> temporary_path io path k) -> fs' !! q = fs !! q.

Lemma write_identity_spec io path id fs ok fs' :
  write_identity_atomic io path id fs = (ok, fs') ->
  only_replaced io path id fs fs' /\
  (ok = true -> is_Some (encode_identity id) /\ fs' !! path = encode_identity id) /\
  (ok = false -> fs' !! path = fs !! path).
Proof.
  unfold write_identity_atomic, only_replaced.
  destruct (encode_identity id) as [bytes|]; [|intros [= <- <-]; split_and!; auto; by intros].
  destruct (create_temporary _ _ _ _ _) as [tmp|] eqn:Et; [|intros [= <- <-]; split_and!; auto; by intros].
  apply create_temporary_fresh in Et as (Hf & j & Hj & ->).
  pose proof (temporary_not_path io path j) as Hne.
  assert (forall q content, q <> temporary_path io path j ->
    delete_file io (temporary_path io path j) (<[temporary_path io path j := content]> fs) !! q = fs !! q) as Hdel.
  { intros q content Hq. unfold delete_file. case_match; [rewrite lookup_delete_ne by done|];
      by rewrite lookup_insert_ne by done. }
  assert (forall q, (forall k, (k < 16)%nat -> q <> temporary_path io path k) -> q <> temporary_path io path j) as Hq
    by (intros q Hq; apply Hq; lia).
  destruct (negb (write_ok io)); [|destruct (negb (move_ok io))]; intros [= <- <-].
  - split_and!; [left; by apply Hdel| |done|intros _; by apply Hdel]. intros q _ Hk. by apply Hdel, Hq.
  - split_and!; [left; by apply Hdel| |done|intros _; by apply Hdel]. intros q _ Hk. by apply Hdel, Hq.
  - split_and!; [right; by rewrite lookup_insert_eq| |intros _; by rewrite lookup_insert_eq|done].
    intros q Hp Hk. rewrite lookup_insert_ne, lookup_delete_ne, lookup_insert_ne by (auto; intros <-; by eapply Hq).
    done.
Qed.

(** ** Loading *)

Context (generated_x : KeyPair) (generated : option KeyPair).

(** Documented behaviour of the key generation: raw keys of 32 bytes, the public key that of
    the private one. *)
Definition generation_ok : Prop :=
  is32 (private_key generated_x) /\ derive (private_key generated_x) = Some (public_key generated_x) /\
  forall kp, generated = Some kp -> is32 (private_key kp).

Lemma created_consistent n id : generation_ok ->
  Identity_create n generated_x generated = Some id -> consistent id.
Proof.
  intros (Hx & Hd & Hg). unfold Identity_create.
  replace (mkIdentity no_keypair generated_x zero_signature _ n zero32)
    with (unbound (private_key generated_x) (public_key generated_x) n) by (by destruct generated_x).
  destruct (bind_identity_keys _ _) as [[] id'] eqn:E; [|done]. intros [= <-].
  apply bind_generated in E as (kp & -> & E).
  exists (private_key generated_x), (public_key generated_x), n, (private_key kp). split_and!; auto.
Qed.

Lemma legacy_consistent bytes n id : (forall kp, generated = Some kp -> is32 (private_key kp)) ->
  is32 bytes -> decode_legacy_identity evp_x25519_public bytes n generated = Some id ->
  consistent id /\ exists pk, derive bytes = Some pk /\ keypair id = mkKeyPair pk bytes /\
    node_id id = hash_public_key pk.
Proof.
  intros Hg Hl. unfold decode_legacy_identity. destruct (derive bytes) as [pk|] eqn:Ed; [|done].
  fold (unbound bytes pk n). destruct (bind_identity_keys _ _) as [[] id'] eqn:E; [|done].
  intros [= <-]. apply bind_generated in E as (kp & -> & E). split.
  - exists bytes, pk, n, (private_key kp). split_and!; auto.
  - destruct (bind_fields _ _ _ _ _ E) as (Hk & _ & _ & Hn & _). by exists pk.
Qed.

(** The identity a load returns is in the file afterwards, in the current format. *)
Definition holds (fs : Files) (path : Path) (id : Identity) : Prop :=
  exists bytes, fs !! path = Some bytes /\ length bytes <> LEGACY_IDENTITY_SIZE /\
    (length bytes <= IDENTITY_STORE_V1_SIZE)%nat /\
    forall n, decode_v1_identity evp_x25519_public bytes n = Some (set_network n id).

Lemma saved_holds io path id fs fs' : consistent id ->
  write_identity_atomic io path id fs = (true, fs') -> holds fs' path id.
Proof.
  intros Hc Hw. apply write_identity_spec in Hw as (_ & Hok & _). destruct (Hok eq_refl) as [[bytes He] Hf].
  rewrite He in Hf. exists bytes. destruct (decode_encode id bytes [] Hc He) as [Hl _].
  rewrite Hl. split_and!; [done|done|done|]. intros n. by apply decode_encode.
Qed.

Lemma load_holds io n path fs id fs' : generation_ok ->
  load_or_create_identity evp_x25519_public io n path generated_x generated fs = (Some id, fs') ->
  holds fs' path id.
Proof.
  intros Hgen. unfold load_or_create_identity.
  assert (forall id0, consistent id0 ->
    match write_identity_atomic io path id0 fs with (true, fs) => (Some id0, fs) | (false, fs) => (None, fs) end
      = (Some id, fs') -> holds fs' path id) as Hsave.
  { intros id0 Hc. destruct (write_identity_atomic io path id0 fs) as [[] fs1] eqn:E; [|done].
    intros [= <- <-]. by eapply saved_holds. }
  destruct (identity_file_exists io path fs) as [[]|]; [| |done].
  - unfold read_identity_file. destruct (fs !! path) as [bytes|] eqn:Ef; [|done].
    destruct (_ || _) eqn:Hr in |- *; [done|].
    apply orb_false_iff in Hr as [[_ Hr]%orb_false_iff _]. apply Nat.ltb_ge in Hr.
    destruct (Nat.eqb_spec (length bytes) LEGACY_IDENTITY_SIZE) as [Hl|Hl].
    + destruct (decode_legacy_identity _ _ _ _) as [id0|] eqn:Ed; [|done]. apply Hsave.
      apply legacy_consistent in Ed; [by destruct Ed|by destruct Hgen as (_ & _ & ?)|done].
    + intros [= Hd <-]. exists bytes. split_and!; try done. intros n'. by eapply decode_v1_network.
  - destruct (Identity_create _ _ _) as [id0|] eqn:Ec; [|done]. apply Hsave. by eapply created_consistent.
Qed.

Lemma holds_load io n path fs id kx kg :
  holds fs path id -> attributes_ok io = true -> open_ok io = true -> read_ok io = true ->
  load_or_create_identity evp_x25519_public io n path kx kg fs = (Some (set_network n id), fs).
Proof.
  intros (bytes & Hf & Hl & Hm & Hd) Ha Ho Hr.
  unfold load_or_create_identity, identity_file_exists, read_identity_file.
  rewrite Ha, Hf, bool_decide_eq_true_2 by (by eexists). cbn [negb]. rewrite Ho, Hr.
  rewrite (proj2 (Nat.ltb_ge _ _)) by done. cbn [negb orb].
  rewrite (proj2 (Nat.eqb_neq _ _)) by done. by rewrite Hd.
Qed.
End laws.

(** ** Properties *)

(** C25: A node keeps its identity.  When [load_or_create_identity] returns an identity, by
    creating it, reading it or migrating it from the old format, every later call that can
    open and read the file returns the same keys, binding and node id, for whatever network,
    and writes nothing; and a migrated identity is that of the key the old file held. *)
Theorem identity_survives_restart `{OpenSSL} xpub kx kg io n path fs id fs' :
  generation_ok xpub kx kg ->
  load_or_create_identity xpub io n path kx kg fs = (Some id, fs') ->
  (forall io' n' kx' kg', attributes_ok io' = true -> open_ok io' = true -> read_ok io' = true ->
     load_or_create_identity xpub io' n' path kx' kg' fs' = (Some (set_network n' id), fs')) /\
  (forall key, fs !! path = Some key -> is32 key ->
     exists pk, derive_x25519_public xpub key = Some pk /\ keypair id = mkKeyPair pk key /\
       node_id id = hash_public_key pk).
Proof.
  intros Hgen Hl. split.
  - intros io' n' kx' kg' Ha Ho Hr. apply holds_load; try done. by eapply load_holds.
  - intros key Hk Hlen. unfold load_or_create_identity, identity_file_exists, read_identity_file in Hl.
    rewrite Hk, bool_decide_eq_true_2 in Hl by (by eexists).
    destruct (negb (attributes_ok io)); [done|]. destruct (_ || _) in Hl; [done|].
    destruct (Nat.eqb_spec (length key) LEGACY_IDENTITY_SIZE) as [_|]; [|done].
    destruct (decode_legacy_identity _ _ _ _) as [id0|] eqn:Ed; [|done].
    apply legacy_consistent in Ed as [_ Ed]; [|by destruct Hgen as (_ & _ & ?)|done].
    by destruct (write_identity_atomic io path id0 fs) as [[] ?]; simplify_eq.
Qed.

(** C29: No failure damages the identity file.  Whatever fails, and whether or not the call
    ends in an exception, [load_or_create_identity] leaves the file as it was or replaces it
    as a whole by the checked encoding of the identity it made; only an attempt that returned
    replaces it; and no other file is touched but the temporary ones. *)
Theorem identity_file_never_damaged `{OpenSSL} xpub kx kg io n path fs :
  let '(r, fs') := load_or_create_identity xpub io n path kx kg fs in
  (fs' !! path = fs !! path \/
   exists id bytes, r = Some id /\ encode_identity id = Some bytes /\ fs' !! path = Some bytes) /\
  (forall q, q <> path -> (forall k, (k < 16)%nat -> q <> temporary_path io path k) -> fs' !! q = fs !! q).
Proof.
  assert (forall id0,
    let '(r, fs') := match write_identity_atomic io path id0 fs with
                     | (true, fs) => (Some id0, fs) | (false, fs) => (None, fs) end in
    (fs' !! path = fs !! path \/
     exists id bytes, r = Some id /\ encode_identity id = Some bytes /\ fs' !! path = Some bytes) /\
    (forall q, q <> path -> (forall k, (k < 16)%nat -> q <> temporary_path io path k) -> fs' !! q = fs !! q)) as Hsave.
  { intros id0. destruct (write_identity_atomic io path id0 fs) as [ok fs1] eqn:E.
    apply write_identity_spec in E as ([_ Hq] & Ht & Hf). destruct ok.
    - destruct (Ht eq_refl) as [[bytes He] Hp]. split; [|exact Hq]. right. exists id0, bytes.
      by rewrite <- He.
    - split; [|exact Hq]. left. auto. }
  unfold load_or_create_identity.
  destruct (identity_file_exists io path fs) as [[]|]; [| |by split; [left|]].
  - destruct (read_identity_file io path fs) as [bytes|]; [|by split; [left|]].
    destruct (Nat.eqb _ _); [|by split; [left|]].
    destruct (decode_legacy_identity _ _ _ _); [|by split; [left|]]. apply Hsave.
  - destruct (Identity_create _ _ _); [|by split; [left|]]. apply Hsave.
Qed.

(** ** A concrete instance *)

Section store_witness.
#[local] Existing Instance toy_openssl.

Definition good_io : StoreIo := mkStoreIo 4242 true (λ _, true) true [] true true true true.
Definition store_path : Path := lit "identity.bin".
Definition legacy_key : Key := replicate 32 x06.
Definition store_keys : KeyPair := mkKeyPair (replicate 32 x03) (replicate 32 x03).
Definition store_signing : option KeyPair :=
  Some (mkKeyPair (toy_digest 32 (replicate 32 x05)) (replicate 32 x05)).
Definition legacy_files : Files := {[ store_path := legacy_key ]}.

Definition migrated : option Identity * Files :=
  load_or_create_identity Some good_io (replicate 32 x09) store_path store_keys store_signing legacy_files.
Definition migrated_id : Identity := default no_identity (fst migrated).

Lemma identity_survives_restart_witness :
  load_or_create_identity Some good_io (replicate 32 x0a) store_path store_keys None (snd migrated) =
    (Some (set_network (replicate 32 x0a) migrated_id), snd migrated) /\
  keypair migrated_id = mkKeyPair legacy_key legacy_key.
Proof.
  assert (generation_ok Some store_keys store_signing) as Hgen.
  { split_and!; [reflexivity|reflexivity|]. intros kp [= <-]. reflexivity. }
  assert (load_or_create_identity Some good_io (replicate 32 x09) store_path store_keys store_signing
    legacy_files = (Some migrated_id, snd migrated)) as E.
  { change (migrated = (Some migrated_id, snd migrated)). rewrite (surjective_pairing migrated) at 1.
    f_equal. }
  destruct (identity_survives_restart Some store_keys store_signing good_io (replicate 32 x09) store_path
    legacy_files migrated_id (snd migrated) Hgen E) as [Hagain Hlegacy].
  split; [by apply Hagain|].
  destruct (Hlegacy legacy_key) as (pk & [= <-] & Hk & _); [by apply lookup_singleton_eq|reflexivity|exact Hk].
Defined.
End store_witness.
