(* ===== verification/Invite.v ===== *)
(** * Invites and membership grants ([src/invite/invite.cpp])

    The base64url coder, the unsigned [AEGIS1:] invites and the signed [AEGIS2:] membership
    grants.  The theorems: the coder round-trips, each accepted text is the one text of what
    it decodes to, and a grant that is accepted was issued, field by field, by the holder of
    the issuer key, whatever other messages that key signed. *)

From Stdlib Require Import ZArith Lia Bool.
From Stdlib.Strings Require Import Byte String.
From stdpp Require Import base numbers option list.
From S2P Require Import Prelude Wire Crypto Identity Revocation IpAddress Endpoint Text.

(** ** base64url *)

Definition BASE64URL_CHARS : list byte :=
  lit "ABCDEFGHIJKLMNOPQRSTUVWXYZabcdefghijklmnopqrstuvwxyz0123456789-_".

Definition b64_char (i : Z) : byte := nth (Z.to_nat i) BASE64URL_CHARS x00.

(** [while (valb >= 0)]: at most twice, since [valb] is at most 7. *)
Fixpoint encode_while (fuel : nat) (val valb : Z) (out : list byte) : Z * list byte :=
  match fuel with
  | O => (valb, out)
  | S fuel =>
      if 0 <=? valb
      then encode_while fuel val (valb - 6) (out ++ [b64_char (Z.land (Z.shiftr val valb) 63)])
      else (valb, out)
  end.

Fixpoint encode_from (val valb : Z) (out data : list byte) : list byte :=
  match data with
  | [] =>
      if -6 <? valb
      then out ++ [b64_char (Z.land (Z.shiftr (wrap 32 (Z.shiftl val 8)) (valb + 8)) 63)]
      else out
  | b :: data =>
      let val := wrap 32 (wrap 32 (Z.shiftl val 8) + bval b) in
      let '(valb, out) := encode_while 2 val (valb + 8) out in
      encode_from val valb out data
  end.

Definition base64url_encode (data : list byte) : list byte := encode_from 0 (-6) [] data.

(** The entry of the table [T]; [None] for -1. *)
Definition sextet (c : byte) : option Z :=
  match list_find (eq c) BASE64URL_CHARS with Some (i, _) => Some (Z.of_nat i) | None => None end.

Fixpoint decode_from (val valb : Z) (out s : list byte) : option (list byte) :=
  match s with
  | [] => Some out
  | c :: s =>
      match sextet c with
      | None => None
      | Some t =>
          let val := wrap 32 (wrap 32 (Z.shiftl val 6) + t) in
          let valb := valb + 6 in
          if 0 <=? valb
          then decode_from val (valb - 8) (out ++ [b8 (Z.land (Z.shiftr val valb) 255)]) s
          else decode_from val valb out s
      end
  end.

Definition base64url_decode (s : list byte) : option (list byte) := decode_from 0 (-8) [] s.

(** Space, tab, carriage return, line feed and the double quote. *)
Definition INVITE_BLANKS : list byte := [x20; x09; x0d; x0a; x22].

(** ** Invites *)

Record InvitePayload := mkInvite {
  iv_network_id : NetworkId;
  bootstrap_pubkey : Key;
  iv_creator_node_id : NodeId;
  bootstrap_endpoint : Endpoint;
  bootstrap_prefix : Z;
  bootstrap_prefix_len : Z;
  network_name : list byte;
}.

#[export] Instance invite_eq_dec : EqDecision InvitePayload.
Proof. solve_decision. Defined.

Definition INVITE_PREFIX : list byte := lit "AEGIS1:".
Definition INVITE_FIXED_SIZE : nat := 108.
Definition INVITE_MAX_NAME_SIZE : nat := 64.

Definition encode_invite (p : InvitePayload) : list byte :=
  let name_len := Nat.min (length (network_name p)) INVITE_MAX_NAME_SIZE in
  let name := take name_len (network_name p) in
  match encode_exact (INVITE_FIXED_SIZE + name_len)
    (write_bytes (iv_network_id p) &> write_bytes (bootstrap_pubkey p) &>
     write_bytes (iv_creator_node_id p) &> write_when (is_ipv4 (bootstrap_endpoint p)) &>
     write_u32 (ipv4_network (bootstrap_endpoint p)) &> write_u16 (port (bootstrap_endpoint p)) &>
     write_u32 (bootstrap_prefix p) &> write_u8 (bootstrap_prefix_len p) &>
     write_u8 (Z.of_nat name_len) &> write_bytes name) with
  | Some buf => INVITE_PREFIX ++ base64url_encode buf
  | None => []
  end.

Definition read_invite (bytes : list byte) : option InvitePayload :=
  let r := wire_reader bytes in
  let '(network_id, r) := read_bytes NETWORK_ID_SIZE r in
  let '(pubkey, r) := read_bytes KEY_SIZE r in
  let '(creator, r) := read_bytes NODE_ID_SIZE r in
  let '(endpoint_ip, r) := read_u32 r in
  let '(endpoint_port, r) := read_u16 r in
  let '(prefix, r) := read_u32 r in
  let '(prefix_len, r) := read_u8 r in
  let '(name_len, r) := read_u8 r in
  match network_id, pubkey, creator, endpoint_ip, endpoint_port, prefix, prefix_len, name_len with
  | Some network_id, Some pubkey, Some creator, Some ip, Some port, Some prefix,
    Some prefix_len, Some name_len =>
      if (32 <? prefix_len) || (Z.of_nat INVITE_MAX_NAME_SIZE <? name_len) then None
      else
        let '(name, r) := read_bytes (Z.to_nat name_len) r in
        match name with
        | Some name =>
            if rd_finished r
            then Some (mkInvite network_id pubkey creator (ipv4_endpoint ip port) prefix prefix_len name)
            else None
        | None => None
        end
  | _, _, _, _, _, _, _, _ => None
  end.

Definition decode_invite (invite_str : list byte) : option InvitePayload :=
  match trim_of INVITE_BLANKS invite_str with
  | None => None
  | Some clean =>
      let prefix_len := length INVITE_PREFIX in
      if Nat.leb (length clean) prefix_len ||
         negb (bool_decide (take prefix_len clean = INVITE_PREFIX)) then None
      else
        let b64 := drop prefix_len clean in
        match base64url_decode b64 with
        | None => None
        | Some bytes =>
            if Nat.ltb (length bytes) INVITE_FIXED_SIZE ||
               negb (bool_decide (base64url_encode bytes = b64)) then None
            else read_invite bytes
        end
  end.

(** ** Membership grants *)

Record Aegis2PrefixGrant := mkPrefixGrant { pg_prefix : Z; pg_prefix_len : Z }.

Record Aegis2BootstrapCandidate := mkBootstrap { bc_public_key : Key; bc_endpoint : Endpoint }.

Record Aegis2MembershipGrant := mkGrant {
  gr_network_id : NetworkId;
  gr_issuer_key : Key;
  gr_issuer_node_id : NodeId;
  gr_enrollment_nonce : Key;
  gr_issued_at : Z;
  gr_expires_at : Z;
  gr_capabilities : Z;
  gr_revocation_epoch : Z;
  gr_prefixes : list Aegis2PrefixGrant;
  gr_bootstrap : list Aegis2BootstrapCandidate;
  gr_signature : list byte;
}.

#[export] Instance prefix_grant_eq_dec : EqDecision Aegis2PrefixGrant.
Proof. solve_decision. Defined.
#[export] Instance bootstrap_eq_dec : EqDecision Aegis2BootstrapCandidate.
Proof. solve_decision. Defined.
#[export] Instance grant_eq_dec : EqDecision Aegis2MembershipGrant.
Proof. solve_decision. Defined.

Definition AEGIS2_PREFIX : list byte := lit "AEGIS2:".
Definition AEGIS2_SIGNING_DOMAIN : list byte := lit "aegis-membership-grant-v2".
Definition AEGIS2_MAX_PREFIXES : nat := 16.
Definition AEGIS2_MAX_BOOTSTRAP_CANDIDATES : nat := 4.
Definition AEGIS2_FIXED_SIZE : nat := 32 + 32 + 32 + 32 + 8 * 4 + 2 + 64.
Definition AEGIS2_MAX_SIZE : nat :=
  AEGIS2_FIXED_SIZE + AEGIS2_MAX_PREFIXES * 5 + AEGIS2_MAX_BOOTSTRAP_CANDIDATES * 38.

(** Join, route, relay and admin. *)
Definition AEGIS2_KNOWN_CAPABILITIES : Z :=
  Z.lor (Z.lor (Z.lor (Z.shiftl 1 0) (Z.shiftl 1 1)) (Z.shiftl 1 2)) (Z.shiftl 1 3).

Definition write_prefix_grant (p : Aegis2PrefixGrant) : WriteOp :=
  write_when (negb (32 <? pg_prefix_len p)) &> write_u32 (pg_prefix p) &> write_u8 (pg_prefix_len p).

Definition bootstrap_usable (c : Aegis2BootstrapCandidate) : bool :=
  negb (bool_decide (bc_public_key c = zero32)) && is_ipv4 (bc_endpoint c) &&
  negb (ipv4_network (bc_endpoint c) =? 0) && negb (port (bc_endpoint c) =? 0).

Definition write_bootstrap (c : Aegis2BootstrapCandidate) : WriteOp :=
  write_when (bootstrap_usable c) &> write_bytes (bc_public_key c) &>
  write_u32 (ipv4_network (bc_endpoint c)) &> write_u16 (port (bc_endpoint c)).

Definition aegis2_signed_bytes (g : Aegis2MembershipGrant) : option (list byte) :=
  if Nat.ltb AEGIS2_MAX_PREFIXES (length (gr_prefixes g)) ||
     Nat.ltb AEGIS2_MAX_BOOTSTRAP_CANDIDATES (length (gr_bootstrap g)) then None
  else encode_exact
    (AEGIS2_FIXED_SIZE - 64 + length (gr_prefixes g) * 5 + length (gr_bootstrap g) * 38)
    (write_bytes (gr_network_id g) &> write_bytes (gr_issuer_key g) &>
     write_bytes (gr_issuer_node_id g) &> write_bytes (gr_enrollment_nonce g) &>
     write_u64 (gr_issued_at g) &> write_u64 (gr_expires_at g) &>
     write_u64 (gr_capabilities g) &> write_u64 (gr_revocation_epoch g) &>
     write_u8 (wrap 8 (Z.of_nat (length (gr_prefixes g)))) &>
     write_each write_prefix_grant (gr_prefixes g) &>
     write_u8 (wrap 8 (Z.of_nat (length (gr_bootstrap g)))) &>
     write_each write_bootstrap (gr_bootstrap g)).

Definition set_signature (g : Aegis2MembershipGrant) (s : list byte) : Aegis2MembershipGrant :=
  mkGrant (gr_network_id g) (gr_issuer_key g) (gr_issuer_node_id g) (gr_enrollment_nonce g)
    (gr_issued_at g) (gr_expires_at g) (gr_capabilities g) (gr_revocation_epoch g)
    (gr_prefixes g) (gr_bootstrap g) s.

Definition read_prefix_grant (r : WireReader) : option Aegis2PrefixGrant * WireReader :=
  let '(prefix, r) := read_u32 r in
  let '(len, r) := read_u8 r in
  match prefix, len with
  | Some prefix, Some len =>
      if 32 <? len then (None, r) else (Some (mkPrefixGrant prefix len), r)
  | _, _ => (None, r)
  end.

Definition read_bootstrap (r : WireReader) : option Aegis2BootstrapCandidate * WireReader :=
  let '(key, r) := read_bytes 32 r in
  let '(ip, r) := read_u32 r in
  let '(port, r) := read_u16 r in
  match key, ip, port with
  | Some key, Some ip, Some port =>
      if (ip =? 0) || (port =? 0) || forallb (λ b, bval b =? 0) key then (None, r)
      else (Some (mkBootstrap key (ipv4_endpoint ip port)), r)
  | _, _, _ => (None, r)
  end.

(** The reads of [decode_aegis2_grant]. *)
Definition read_grant (bytes : list byte) : option Aegis2MembershipGrant :=
  let r := wire_reader bytes in
  let '(network, r) := read_bytes 32 r in
  let '(issuer_key, r) := read_bytes 32 r in
  let '(issuer_node, r) := read_bytes 32 r in
  let '(nonce, r) := read_bytes 32 r in
  let '(issued, r) := read_u64 r in
  let '(expires, r) := read_u64 r in
  let '(capabilities, r) := read_u64 r in
  let '(epoch, r) := read_u64 r in
  let '(prefix_count, r) := read_u8 r in
  match network, issuer_key, issuer_node, nonce, issued, expires, capabilities, epoch,
        prefix_count with
  | Some network, Some issuer_key, Some issuer_node, Some nonce, Some issued, Some expires,
    Some capabilities, Some epoch, Some prefix_count =>
      if Z.of_nat AEGIS2_MAX_PREFIXES <? prefix_count then None
      else match read_each read_prefix_grant (Z.to_nat prefix_count) r with
           | (None, _) => None
           | (Some prefixes, r) =>
               let '(candidate_count, r) := read_u8 r in
               match candidate_count with
               | None => None
               | Some candidate_count =>
                   if Z.of_nat AEGIS2_MAX_BOOTSTRAP_CANDIDATES <? candidate_count then None
                   else match read_each read_bootstrap (Z.to_nat candidate_count) r with
                        | (None, _) => None
                        | (Some candidates, r) =>
                            let '(signature, r) := read_bytes 64 r in
                            match signature with
                            | Some signature =>
                                if rd_finished r
                                then Some (mkGrant network issuer_key issuer_node nonce issued
                                             expires capabilities epoch prefixes candidates signature)
                                else None
                            | None => None
                            end
                        end
               end
           end
  | _, _, _, _, _, _, _, _, _ => None
  end.

Section grants.
Context `{OpenSSL}.

Definition sign_aegis2 (message private_key : list byte) : option (list byte) :=
  sign_fixed private_key (AEGIS2_SIGNING_DOMAIN ++ message).

Definition verify_aegis2 (message public_key signature : list byte) : bool :=
  evp_ed25519_verify public_key (AEGIS2_SIGNING_DOMAIN ++ message) signature.

Definition encode_aegis2_grant (g : Aegis2MembershipGrant) (issuer_signing_private_key : Key)
    : list byte :=
  match aegis2_signed_bytes g with
  | None => []
  | Some message =>
      match sign_aegis2 message issuer_signing_private_key with
      | None => []
      | Some signature =>
          if negb (verify_aegis2 message (gr_issuer_key g) signature) then []
          else AEGIS2_PREFIX ++ base64url_encode (message ++ signature)
      end
  end.

Definition verify_aegis2_grant_signature (g : Aegis2MembershipGrant) : bool :=
  match aegis2_signed_bytes g with
  | Some message => verify_aegis2 message (gr_issuer_key g) (gr_signature g)
  | None => false
  end.

Definition validate_aegis2_grant (g : Aegis2MembershipGrant)
    (now_utc_seconds required_capabilities : Z) : bool :=
  let unknown := Z.ldiff (Z.ones 64) AEGIS2_KNOWN_CAPABILITIES in
  if negb (Z.land (gr_capabilities g) unknown =? 0) ||
     negb (Z.land required_capabilities unknown =? 0) ||
     negb (Z.land (gr_capabilities g) required_capabilities =? required_capabilities) ||
     Nat.eqb (length (gr_bootstrap g)) 0 || (gr_expires_at g <=? gr_issued_at g) ||
     (now_utc_seconds <? gr_issued_at g) || (gr_expires_at g <=? now_utc_seconds)
  then false
  else verify_aegis2_grant_signature g.

Definition decode_aegis2_grant (invite_str : list byte) : option Aegis2MembershipGrant :=
  match trim_of INVITE_BLANKS invite_str with
  | None => None
  | Some clean =>
      let prefix_len := length AEGIS2_PREFIX in
      if Nat.leb (length clean) prefix_len ||
         Nat.ltb (prefix_len + (AEGIS2_MAX_SIZE + 2) / 3 * 4) (length clean) ||
         negb (bool_decide (take prefix_len clean = AEGIS2_PREFIX)) then None
      else
        let b64 := drop prefix_len clean in
        match base64url_decode b64 with
        | None => None
        | Some bytes =>
            if Nat.ltb (length bytes) AEGIS2_FIXED_SIZE || Nat.ltb AEGIS2_MAX_SIZE (length bytes) ||
               negb (bool_decide (base64url_encode bytes = b64)) then None
            else match read_grant bytes with
                 | Some g => if verify_aegis2_grant_signature g then Some g else None
                 | None => None
                 end
        end
  end.
End grants.

(** ** The coder *)

(** The groups of three bytes and the shorter last one. *)
Fixpoint b64 (bs : list byte) : list byte :=
  match bs with
  | [] => []
  | [a] => [b64_char (bval a / 4); b64_char (bval a mod 4 * 16)]
  | [a; b] => [b64_char (bval a / 4); b64_char (bval a mod 4 * 16 + bval b / 16);
               b64_char (bval b mod 16 * 4)]
  | a :: b :: c :: bs =>
      b64_char (bval a / 4) :: b64_char (bval a mod 4 * 16 + bval b / 16) ::
      b64_char (bval b mod 16 * 4 + bval c / 64) :: b64_char (bval c mod 64) :: b64 bs
  end.

Lemma triples_ind (P : list byte -> Prop) :
  P [] -> (forall a, P [a]) -> (forall a b, P [a; b]) ->
  (forall a b c bs, P bs -> P (a :: b :: c :: bs)) -> forall bs, P bs.
Proof.
  intros H0 H1 H2 H3 bs. remember (length bs) as n eqn:Hn. revert bs Hn.
  induction (lt_wf n) as [n _ IH]. intros [|a [|b [|c bs]]] Hn; auto.
  apply H3. apply (IH (length bs)); [cbn in Hn; lia|done].
Qed.

Lemma shift_in v s x : 0 <= s ->
  wrap 32 (wrap 32 (Z.shiftl v s) + x) = (v * 2 ^ s + x) mod 2 ^ 32.
Proof. intros Hs. unfold wrap. by rewrite Z.shiftl_mul_pow2, Zplus_mod_idemp_l by lia. Qed.

(** The [m] bits at [k] of an accumulator of 32 bits. *)
Lemma bits_at z k m : 0 <= k -> 0 <= m -> k + m <= 32 ->
  Z.land (Z.shiftr (z mod 2 ^ 32) k) (Z.ones m) = z / 2 ^ k mod 2 ^ m.
Proof.
  intros Hk Hm Hl. rewrite Z.land_ones, Z.shiftr_div_pow2 by lia.
  rewrite <- (Z.shiftr_div_pow2 (_ mod _)), <- !Z.land_ones, <- Z.shiftr_div_pow2 by lia.
  apply Z.bits_inj'. intros i Hi. rewrite !Z.land_spec, !Z.shiftr_spec, Z.land_spec by lia.
  destruct (Z.ltb_spec i m).
  - by rewrite (Z.ones_spec_low 32), andb_true_r by lia.
  - by rewrite (Z.ones_spec_high m), !andb_false_r by lia.
Qed.

#[local] Arguments Z.land : simpl never.
#[local] Arguments Z.shiftr : simpl never.

Lemma byte_bounds b : 0 <= bval b < 256.
Proof. pose proof (bval_range b) as Hb. by unfold in_width in Hb. Qed.

(** Arithmetic on the digits of base 64. *)
Ltac sextets :=
  repeat match goal with b : byte |- _ => lazymatch goal with
    | _ : 0 <= bval b < 256 |- _ => fail | _ => pose proof (byte_bounds b) end end;
  change (2 ^ 32) with 4294967296 in *; change (2 ^ 6) with 64; change (2 ^ 4) with 16;
  change (2 ^ 2) with 4; Z.div_mod_to_equations; lia.

Section encode.
Variables (v : Z) (out data : list byte) (b : byte).
Let next : Z := (v * 256 + bval b) mod 2 ^ 32.

Lemma encode_step_6 :
  encode_from v (-6) out (b :: data) = encode_from next (-4) (out ++ [b64_char (bval b / 4)]) data.
Proof.
  cbn [encode_from encode_while]. rewrite (shift_in v 8) by lia.
  change 63 with (Z.ones 6). change (-6 + 8) with 2. cbn [Z.leb Z.compare Z.sub Z.add Z.opp Z.pos_sub Pos.pred_double].
  rewrite bits_at by lia. do 4 f_equal. sextets.
Qed.

Lemma encode_step_4 :
  encode_from v (-4) out (b :: data) =
  encode_from next (-2) (out ++ [b64_char (v mod 4 * 16 + bval b / 16)]) data.
Proof.
  cbn [encode_from encode_while]. rewrite (shift_in v 8) by lia.
  change 63 with (Z.ones 6). change (-4 + 8) with 4. cbn [Z.leb Z.compare Z.sub Z.add Z.opp Z.pos_sub Pos.pred_double].
  rewrite bits_at by lia. do 4 f_equal. sextets.
Qed.

Lemma encode_step_2 :
  encode_from v (-2) out (b :: data) =
  encode_from next (-6)
    (out ++ [b64_char (v mod 16 * 4 + bval b / 64); b64_char (bval b mod 64)]) data.
Proof.
  cbn [encode_from encode_while]. rewrite (shift_in v 8) by lia.
  change 63 with (Z.ones 6). change (-2 + 8) with 6.
  cbn [Z.leb Z.compare Z.sub Z.add Z.opp Z.pos_sub Pos.pred_double].
  rewrite !bits_at by lia. rewrite <- app_assoc. cbn [app]. do 3 f_equal; [|f_equal]; f_equal; sextets.
Qed.
End encode.

Lemma encode_end_4 v out : encode_from v (-4) out [] = out ++ [b64_char (v mod 4 * 16)].
Proof.
  cbn [encode_from]. change (-6 <? -4) with true. cbv iota. change (-4 + 8) with 4.
  unfold wrap. rewrite Z.shiftl_mul_pow2 by lia. change 63 with (Z.ones 6).
  rewrite bits_at by lia. change (2 ^ 8) with 256. do 3 f_equal. sextets.
Qed.

Lemma encode_end_2 v out : encode_from v (-2) out [] = out ++ [b64_char (v mod 16 * 4)].
Proof.
  cbn [encode_from]. change (-6 <? -2) with true. cbv iota. change (-2 + 8) with 6.
  unfold wrap. rewrite Z.shiftl_mul_pow2 by lia. change 63 with (Z.ones 6).
  rewrite bits_at by lia. change (2 ^ 8) with 256. do 3 f_equal. sextets.
Qed.

Lemma encode_from_b64 bs : forall v out, encode_from v (-6) out bs = out ++ b64 bs.
Proof.
  induction bs as [|a|a b|a b c bs IH] using triples_ind; intros v out;
    rewrite ?encode_step_6, ?encode_step_4, ?encode_step_2.
  - cbn. by rewrite app_nil_r.
  - rewrite encode_end_4, <- app_assoc. cbn [b64 app]. do 3 f_equal. f_equal. sextets.
  - rewrite encode_end_2, <- !app_assoc. cbn [b64 app].
    do 3 f_equal; [|f_equal]; f_equal; sextets.
  - rewrite IH, <- !app_assoc. cbn [b64 app].
    do 3 f_equal; [|f_equal]; f_equal; sextets.
Qed.

Lemma sextet_char t : 0 <= t < 64 -> sextet (b64_char t) = Some t.
Proof.
  intros Ht. replace t with (Z.of_nat (Z.to_nat t)) by lia.
  assert (Z.to_nat t < 64)%nat as Hk by lia. revert Hk. generalize (Z.to_nat t). intros k Hk.
  do 64 (destruct k as [|k]; [by vm_compute|]). lia.
Qed.

Section decode.
Variables (v t : Z) (out s : list byte).
Hypothesis Ht : 0 <= t < 64.
Let next : Z := (v * 64 + t) mod 2 ^ 32.

Lemma decode_step_8 :
  decode_from v (-8) out (b64_char t :: s) = decode_from next (-2) out s.
Proof. cbn [decode_from]. by rewrite sextet_char, (shift_in v 6) by (done || lia). Qed.

(** [k] bits of the accumulator are left over. *)
Lemma decode_step k : k = 4 \/ k = 2 \/ k = 0 ->
  decode_from v (k - 6) out (b64_char t :: s) =
  decode_from next (k - 8) (out ++ [b8 (next / 2 ^ k)]) s.
Proof.
  intros Hk. cbn [decode_from]. rewrite sextet_char, (shift_in v 6) by (done || lia).
  replace (k - 6 + 6) with k by lia. rewrite (proj2 (Z.leb_le _ _)) by lia. cbv zeta.
  fold next. do 3 f_equal. change 255 with (Z.ones 8).
  rewrite Z.land_ones, Z.shiftr_div_pow2 by lia. apply bval_inj. rewrite !bval_b8. unfold wrap.
  by rewrite Zmod_mod.
Qed.
End decode.

Lemma b8_digit z b : z mod 256 = bval b -> b8 z = b.
Proof. intros Hz. apply bval_inj. by rewrite bval_b8. Qed.

Lemma decode_from_b64 bs : forall v out, decode_from v (-8) out (b64 bs) = Some (out ++ bs).
Proof.
  induction bs as [|a|a b|a b c bs IH] using triples_ind; intros v out; cbn [b64];
    [cbn; by rewrite app_nil_r|rewrite decode_step_8 by sextets;
     change (-2) with (4 - 6); rewrite decode_step by (lia || sextets)..].
  - cbn [decode_from]. do 3 f_equal. apply b8_digit. sextets.
  - change (4 - 8) with (2 - 6). rewrite decode_step by (lia || sextets).
    cbn [decode_from]. rewrite <- app_assoc. cbn [app]. do 3 f_equal; [|f_equal]; apply b8_digit; sextets.
  - change (4 - 8) with (2 - 6). rewrite decode_step by (lia || sextets).
    change (2 - 8) with (0 - 6). rewrite decode_step by (lia || sextets).
    change (0 - 8) with (-8). rewrite IH, <- !app_assoc. cbn [app].
    do 3 f_equal; [|f_equal; [|f_equal]]; apply b8_digit; sextets.
Qed.

Lemma base64url_encode_b64 bs : base64url_encode bs = b64 bs.
Proof. apply encode_from_b64. Qed.

Lemma base64url_round_trip bs : base64url_decode (base64url_encode bs) = Some bs.
Proof. rewrite base64url_encode_b64. apply decode_from_b64. Qed.

Lemma length_b64 bs : (3 * length (b64 bs) <= 4 * length bs + 2 /\ length bs <= length (b64 bs))%nat.
Proof. induction bs as [|a|a b|a b c bs IH] using triples_ind; cbn [b64 length]; lia. Qed.

(** ** The invite as bytes *)

Lemma read_bytes_all n bs pre :
  length bs = n -> read_bytes n (rd_at pre bs) = (Some bs, rd_at (pre ++ bs) []).
Proof. intros Hn. rewrite <- (app_nil_r bs) at 1. by apply read_bytes_ok. Qed.

Lemma emits_guard c b out : c = true -> Emits b out -> Emits (write_when c &> b) out.
Proof. intros -> Hb. by apply (emits_and _ _ [] out emits_true). Qed.

(** An endpoint the six bytes of the wire format carry. *)
Definition ipv4_endpoint_wf (e : Endpoint) : Prop :=
  (exists v, u32 v /\ address e = from_ipv4 v) /\ u16 (port e).

Lemma ipv4_endpoint_ok ip p : u32 ip -> u16 p ->
  ipv4_endpoint_wf (ipv4_endpoint ip p) /\ ipv4_network (ipv4_endpoint ip p) = ip.
Proof.
  intros Hi Hp. pose proof (ntohl_range ip) as Hr. split; [split; [by exists (ntohl ip)|done]|].
  rewrite <- (ntohl_involutive ip Hi) at 2. rewrite <- (network_ipv4_endpoint (ntohl ip) p) by done.
  rewrite ntohl_involutive; [done|]. unfold ipv4_network. case_match; [apply ntohl_range|done].
Qed.

Lemma ipv4_endpoint_wf_inv e : ipv4_endpoint_wf e ->
  is_ipv4 e = true /\ u32 (ipv4_network e) /\ ipv4_endpoint (ipv4_network e) (port e) = e.
Proof.
  destruct e as [a p]. intros [(v & Hv & Ha) Hp]. cbn [address port] in *. subst a. split; [done|].
  pose proof (network_ipv4_endpoint v p Hv) as Hn. split.
  - unfold ipv4_network. case_match; [apply ntohl_range|done].
  - unfold ipv4_endpoint. by rewrite Hn.
Qed.

Definition invite_wf (p : InvitePayload) : Prop :=
  is32 (iv_network_id p) /\ is32 (bootstrap_pubkey p) /\ is32 (iv_creator_node_id p) /\
  ipv4_endpoint_wf (bootstrap_endpoint p) /\ u32 (bootstrap_prefix p) /\
  0 <= bootstrap_prefix_len p <= 32 /\ (length (network_name p) <= INVITE_MAX_NAME_SIZE)%nat.

Definition invite_bytes (p : InvitePayload) : list byte :=
  iv_network_id p ++ bootstrap_pubkey p ++ iv_creator_node_id p ++
  be_split 4 (ipv4_network (bootstrap_endpoint p)) ++ be_split 2 (port (bootstrap_endpoint p)) ++
  be_split 4 (bootstrap_prefix p) ++ be_split 1 (bootstrap_prefix_len p) ++
  be_split 1 (Z.of_nat (length (network_name p))) ++ network_name p.

Lemma length_invite_bytes p : invite_wf p ->
  length (invite_bytes p) = (INVITE_FIXED_SIZE + length (network_name p))%nat.
Proof.
  intros (H1 & H2 & H3 & _). unfold invite_bytes, is32 in *.
  rewrite !length_app, H1, H2, H3, !length_be_split. unfold INVITE_FIXED_SIZE. lia.
Qed.

Lemma encode_invite_wf p : invite_wf p ->
  encode_invite p = INVITE_PREFIX ++ base64url_encode (invite_bytes p).
Proof.
  intros Hwf. pose proof (length_invite_bytes p Hwf) as Hl.
  destruct Hwf as (_ & _ & _ & He & _ & _ & Hn). apply ipv4_endpoint_wf_inv in He as (He & _ & _).
  unfold encode_invite. rewrite Nat.min_l, firstn_all by done. cbv zeta.
  erewrite (encode_exact_emits _ _ (invite_bytes p)).
  - by rewrite decide_True.
  - unfold invite_bytes. do 3 (apply emits_and; [solve_emits|]).
    apply emits_guard; [done|]. solve_emits.
Qed.

Lemma read_invite_spec bs p : read_invite bs = Some p <-> invite_wf p /\ bs = invite_bytes p.
Proof.
  unfold read_invite. rewrite wire_reader_at. cbv zeta. split.
  - intros Hd. do 8 rd_inv_step Hd.
    destruct (_ || _) eqn:Hg; [done|]. apply orb_false_iff in Hg as [Hg1 Hg2].
    apply Z.ltb_ge in Hg1, Hg2. rd_inv_step Hd. rewrite rd_finished_at in Hd.
    case_bool_decide; [|done]. subst. injection Hd as <-.
    destruct (ipv4_endpoint_ok v v0) as [He Hn]; [done|done|].
    unfold in_width in *. unfold invite_wf, invite_bytes.
    cbn [iv_network_id bootstrap_pubkey iv_creator_node_id bootstrap_endpoint bootstrap_prefix
         bootstrap_prefix_len network_name]. rewrite Hn.
    split.
    + unfold INVITE_MAX_NAME_SIZE in *. split_and!; done || lia.
    + rewrite W7, Z2Nat.id by lia. by rewrite app_nil_r.
  - intros [(H1 & H2 & H3 & H4 & H5 & H6 & H7) ->]. destruct p as [n k c e pf pl nm].
    unfold invite_bytes. cbn [iv_network_id bootstrap_pubkey iv_creator_node_id bootstrap_endpoint
      bootstrap_prefix bootstrap_prefix_len network_name] in *.
    pose proof H4 as [_ Hp]. apply ipv4_endpoint_wf_inv in H4 as (_ & Hi & He).
    unfold INVITE_MAX_NAME_SIZE in *.
    rewrite (read_bytes_ok NETWORK_ID_SIZE), (read_bytes_ok KEY_SIZE), (read_bytes_ok NODE_ID_SIZE) by done.
    rewrite (reads_ok (f := read_u32)) by done. rewrite (reads_ok (f := read_u16)) by done.
    rewrite (reads_ok (f := read_u32)) by done. rewrite (reads_ok (f := read_u8)) by (unfold in_width; lia).
    rewrite (reads_ok (f := read_u8)) by (unfold in_width; lia).
    rewrite (proj2 (Z.ltb_ge _ _)), (proj2 (Z.ltb_ge _ _)) by lia. cbn [orb].
    rewrite read_bytes_all by lia.
    by rewrite rd_finished_at, bool_decide_eq_true_2, He.
Qed.

(** ** Text around the bytes *)

Lemma skip_of_plain set s : Forall (λ c, c ∉ set) s -> skip_of set s = s.
Proof.
  destruct s as [|c s]; intros Hs; [done|]. apply Forall_cons_1 in Hs as [Hc _]. cbn [skip_of].
  by rewrite bool_decide_eq_false_2.
Qed.

Lemma trim_of_plain set s : s <> [] -> Forall (λ c, c ∉ set) s -> trim_of set s = Some s.
Proof.
  intros Hne Hs. unfold trim_of. rewrite skip_of_plain by done. destruct s as [|c s]; [done|].
  rewrite skip_of_plain by (by apply Forall_rev). by rewrite rev_involutive.
Qed.

Lemma b64_char_plain t : b64_char t ∉ INVITE_BLANKS.
Proof.
  unfold b64_char. destruct (nth_in_or_default (Z.to_nat t) BASE64URL_CHARS x00) as [Hin| ->];
    [|by apply (bool_decide_unpack _)].
  assert (Forall (λ c, c ∉ INVITE_BLANKS) BASE64URL_CHARS) as Hall
    by (by apply (bool_decide_unpack _)).
  rewrite Forall_forall in Hall. by apply Hall, list_elem_of_In.
Qed.

Lemma b64_plain bs : Forall (λ c, c ∉ INVITE_BLANKS) (b64 bs).
Proof.
  induction bs as [|a|a b|a b c bs IH] using triples_ind; cbn [b64];
    repeat (apply Forall_cons_2; [apply b64_char_plain|]); done || apply Forall_nil_2.
Qed.

Lemma framed_text (prefix clean text : list byte) :
  take (length prefix) clean = prefix -> text = drop (length prefix) clean ->
  clean = prefix ++ text.
Proof. intros Hp ->. pose proof (take_drop (length prefix) clean) as E. by rewrite Hp in E. Qed.

Lemma framed_plain prefix bytes :
  prefix <> [] -> Forall (λ c, c ∉ INVITE_BLANKS) prefix ->
  trim_of INVITE_BLANKS (prefix ++ base64url_encode bytes) = Some (prefix ++ base64url_encode bytes).
Proof.
  intros Hne Hp. apply trim_of_plain; [by destruct prefix|].
  rewrite base64url_encode_b64. apply Forall_app. split; [done|apply b64_plain].
Qed.

Lemma decode_invite_spec t p :
  decode_invite t = Some p <->
  invite_wf p /\ trim_of INVITE_BLANKS t = Some (encode_invite p).
Proof.
  unfold decode_invite. destruct (trim_of _ t) as [clean|]; [|naive_solver]. cbv zeta. split.
  - destruct (_ || _) eqn:Hg; [done|]. apply orb_false_iff in Hg as [_ Hg].
    apply negb_false_iff, bool_decide_eq_true in Hg.
    destruct (base64url_decode _) as [bytes|] eqn:Hd; [|done].
    destruct (_ || negb _) eqn:Hg2; [done|]. apply orb_false_iff in Hg2 as [_ Hg2].
    apply negb_false_iff, bool_decide_eq_true in Hg2.
    rewrite read_invite_spec. intros [Hwf ->]. split; [done|]. f_equal.
    rewrite encode_invite_wf by done. by apply framed_text.
  - intros [Hwf [= ->]]. rewrite encode_invite_wf, take_app_length, drop_app_length by done.
    rewrite base64url_round_trip, !bool_decide_eq_true_2 by done.
    pose proof (length_invite_bytes p Hwf) as Hl. unfold INVITE_FIXED_SIZE in *.
    rewrite length_app, base64url_encode_b64. pose proof (length_b64 (invite_bytes p)).
    rewrite (proj2 (Nat.leb_gt _ _)), (proj2 (Nat.ltb_ge _ _)) by lia. cbn [negb orb].
    by apply read_invite_spec.
Qed.

(** ** The grant as bytes *)

Definition prefix_grant_wf (p : Aegis2PrefixGrant) : Prop :=
  u32 (pg_prefix p) /\ 0 <= pg_prefix_len p <= 32.

Definition prefix_grant_bytes (p : Aegis2PrefixGrant) : list byte :=
  be_split 4 (pg_prefix p) ++ be_split 1 (pg_prefix_len p).

Definition bootstrap_wf (c : Aegis2BootstrapCandidate) : Prop :=
  is32 (bc_public_key c) /\ ipv4_endpoint_wf (bc_endpoint c) /\ bootstrap_usable c = true.

Definition bootstrap_bytes (c : Aegis2BootstrapCandidate) : list byte :=
  bc_public_key c ++ be_split 4 (ipv4_network (bc_endpoint c)) ++ be_split 2 (port (bc_endpoint c)).

#[export] Instance reads_prefix_grant : Reads read_prefix_grant prefix_grant_bytes prefix_grant_wf.
Proof.
  split.
  - intros [p l] pre post [Hp Hl]. cbn [pg_prefix pg_prefix_len] in *.
    unfold read_prefix_grant, prefix_grant_bytes. rewrite <- app_assoc.
    rewrite (reads_ok (f := read_u32)) by done.
    rewrite (reads_ok (f := read_u8)) by (unfold in_width; cbn; lia).
    cbn [pg_prefix pg_prefix_len]. rewrite (proj2 (Z.ltb_ge _ _)) by lia. by rewrite <- app_assoc.
  - intros p pre post r' Hd. unfold read_prefix_grant in Hd. do 2 rd_inv_step Hd.
    destruct (Z.ltb_spec 32 v0); [done|]. apply pair_eq in Hd as [<-%(inj Some) <-].
    unfold prefix_grant_wf, prefix_grant_bytes, in_width in *. cbn [pg_prefix pg_prefix_len].
    split; [split; [done|lia]|]. eexists. split; by rewrite <- !app_assoc.
Qed.

Lemma all_zero_key key : is32 key -> forallb (λ b, bval b =? 0) key = bool_decide (key = zero32).
Proof.
  intros Hl. unfold zero32. rewrite <- Hl. clear Hl. induction key as [|b key IH]; [done|].
  cbn [forallb length]. rewrite IH. change (zeros (S (length key))) with (x00 :: zeros (length key)).
  destruct (Z.eqb_spec (bval b) 0) as [E|E].
  - symmetry in E. apply (b8_digit 0 b) in E as <-. cbn [andb].
    apply bool_decide_ext. change (b8 0) with x00. split; intros E; [by f_equal|by injection E].
  - symmetry. apply bool_decide_eq_false_2. intros [= -> _]. by apply E.
Qed.

#[export] Instance reads_bootstrap : Reads read_bootstrap bootstrap_bytes bootstrap_wf.
Proof.
  split.
  - intros [k e] pre post (Hk & He & Hu). unfold bootstrap_usable in Hu.
    cbn [bc_public_key bc_endpoint] in *.
    pose proof He as [_ Hp]. apply ipv4_endpoint_wf_inv in He as (Hi & Hn & He).
    rewrite Hi, andb_true_r, !andb_true_iff, !negb_true_iff in Hu. destruct Hu as [[Hz Hz1] Hz2].
    unfold read_bootstrap, bootstrap_bytes. rewrite <- !app_assoc. cbn [bc_public_key bc_endpoint].
    rewrite (read_bytes_ok 32 k) by done. rewrite (reads_ok (f := read_u32)) by done.
    rewrite (reads_ok (f := read_u16)) by done.
    rewrite all_zero_key, Hz, Hz1, Hz2, He by done. by rewrite <- !app_assoc.
  - intros c pre post r' Hd. unfold read_bootstrap in Hd. do 3 rd_inv_step Hd.
    rewrite all_zero_key in Hd by done. destruct (_ || _) eqn:Hg; [done|].
    apply orb_false_iff in Hg as [[Hg1 Hg2]%orb_false_iff Hg3].
    apply pair_eq in Hd as [<-%(inj Some) <-].
    destruct (ipv4_endpoint_ok v v0) as [He Hn]; [done|done|].
    unfold bootstrap_wf, bootstrap_bytes, bootstrap_usable. cbn [bc_public_key bc_endpoint].
    rewrite Hn, Hg3. change (port (ipv4_endpoint v v0)) with v0. rewrite Hg1, Hg2.
    destruct (ipv4_endpoint_wf_inv _ He) as (-> & _). split; [by split|].
    eexists. split; by rewrite <- !app_assoc.
Qed.

Definition grant_wf (g : Aegis2MembershipGrant) : Prop :=
  (is32 (gr_network_id g) /\ is32 (gr_issuer_key g) /\ is32 (gr_issuer_node_id g) /\
   is32 (gr_enrollment_nonce g)) /\
  (u64 (gr_issued_at g) /\ u64 (gr_expires_at g) /\ u64 (gr_capabilities g) /\
   u64 (gr_revocation_epoch g)) /\
  ((length (gr_prefixes g) <= AEGIS2_MAX_PREFIXES)%nat /\ Forall prefix_grant_wf (gr_prefixes g)) /\
  ((length (gr_bootstrap g) <= AEGIS2_MAX_BOOTSTRAP_CANDIDATES)%nat /\
   Forall bootstrap_wf (gr_bootstrap g)).

Definition grant_message (g : Aegis2MembershipGrant) : list byte :=
  gr_network_id g ++ gr_issuer_key g ++ gr_issuer_node_id g ++ gr_enrollment_nonce g ++
  be_split 8 (gr_issued_at g) ++ be_split 8 (gr_expires_at g) ++ be_split 8 (gr_capabilities g) ++
  be_split 8 (gr_revocation_epoch g) ++ be_split 1 (Z.of_nat (length (gr_prefixes g))) ++
  flat_map prefix_grant_bytes (gr_prefixes g) ++ be_split 1 (Z.of_nat (length (gr_bootstrap g))) ++
  flat_map bootstrap_bytes (gr_bootstrap g).

Lemma length_flat_map_const {A} (f : A -> list byte) n l :
  (forall x, x ∈ l -> length (f x) = n) -> length (flat_map f l) = (length l * n)%nat.
Proof.
  induction l as [|x l IH]; intros Hf; [done|]. cbn [flat_map length]. rewrite length_app, Hf by (by left).
  rewrite IH; [lia|]. intros y Hy. apply Hf. by right.
Qed.

Lemma length_grant_message g : grant_wf g ->
  length (grant_message g) =
  (AEGIS2_FIXED_SIZE - 64 + length (gr_prefixes g) * 5 + length (gr_bootstrap g) * 38)%nat.
Proof.
  intros ((H1 & H2 & H3 & H4) & _ & _ & (_ & Hb)). unfold grant_message, is32 in *.
  rewrite !length_app, H1, H2, H3, H4, !length_be_split.
  rewrite (length_flat_map_const _ 5), (length_flat_map_const _ 38).
  - unfold AEGIS2_FIXED_SIZE. lia.
  - intros c Hc. rewrite Forall_forall in Hb. destruct (Hb c Hc) as (Hk & _).
    unfold bootstrap_bytes, is32 in *. by rewrite !length_app, Hk, !length_be_split.
  - intros p _. unfold prefix_grant_bytes. by rewrite length_app, !length_be_split.
Qed.

Lemma signed_bytes_wf g : grant_wf g -> aegis2_signed_bytes g = Some (grant_message g).
Proof.
  intros Hwf. pose proof (length_grant_message g Hwf) as Hl.
  destruct Hwf as (_ & _ & (Hp & Hps) & (Hb & Hbs)). unfold aegis2_signed_bytes.
  rewrite (proj2 (Nat.ltb_ge _ _)), (proj2 (Nat.ltb_ge _ _)) by done. cbn [orb].
  unfold AEGIS2_MAX_PREFIXES, AEGIS2_MAX_BOOTSTRAP_CANDIDATES in *.
  rewrite !wrap_small by (unfold in_width; lia).
  rewrite Forall_forall in Hps. rewrite Forall_forall in Hbs.
  rewrite (encode_exact_emits _ _ (grant_message g)).
  - by rewrite decide_True.
  - unfold grant_message. do 9 (simple eapply emits_and; [solve_emits|]).
    simple eapply emits_and; [|simple eapply emits_and; [solve_emits|]]; apply emits_each.
    + intros p Hp'. apply emits_guard; [|unfold prefix_grant_bytes; solve_emits].
      destruct (Hps p Hp') as [_ ?]. apply negb_true_iff, Z.ltb_ge. lia.
    + intros c Hc. apply emits_guard; [by destruct (Hbs c Hc) as (_ & _ & ?)|].
      unfold bootstrap_bytes. solve_emits.
Qed.

Ltac grant_fields :=
  cbn [gr_network_id gr_issuer_key gr_issuer_node_id gr_enrollment_nonce gr_issued_at gr_expires_at
    gr_capabilities gr_revocation_epoch gr_prefixes gr_bootstrap gr_signature] in *.

Lemma read_grant_spec bs g :
  read_grant bs = Some g <->
  grant_wf g /\ length (gr_signature g) = 64%nat /\ bs = grant_message g ++ gr_signature g.
Proof.
  unfold read_grant. rewrite wire_reader_at. cbv zeta. split.
  - intros Hd. do 9 rd_inv_step Hd.
    destruct (Z.ltb_spec (Z.of_nat AEGIS2_MAX_PREFIXES) v3) as [|Hp]; [done|].
    destruct (read_each read_prefix_grant _ _) as [[ps|] r1] eqn:E1; [|done].
    apply (reads_inv (f := read_each read_prefix_grant _)) in E1 as [[Hpl Hps] (post' & -> & ->)].
    rd_inv_step Hd. destruct (Z.ltb_spec (Z.of_nat AEGIS2_MAX_BOOTSTRAP_CANDIDATES) v4) as [|Hb]; [done|].
    destruct (read_each read_bootstrap _ _) as [[cs|] r2] eqn:E2; [|done].
    apply (reads_inv (f := read_each read_bootstrap _)) in E2 as [[Hbl Hbs] (post'' & -> & ->)].
    rd_inv_step Hd. rewrite rd_finished_at in Hd. case_bool_decide; [|done]. subst. injection Hd as <-.
    unfold AEGIS2_MAX_PREFIXES, AEGIS2_MAX_BOOTSTRAP_CANDIDATES, in_width in *.
    unfold grant_wf, grant_message. grant_fields.
    unfold AEGIS2_MAX_PREFIXES, AEGIS2_MAX_BOOTSTRAP_CANDIDATES.
    rewrite Hpl, Hbl, !Z2Nat.id by lia.
    split; [|split; [done|]]; [split_and!; done || lia|].
    rewrite <- !app_assoc. by rewrite app_nil_r.
  - intros (((H1 & H2 & H3 & H4) & (H5 & H6 & H7 & H8) & (H9 & H10) & (H11 & H12)) & H13 & ->).
    destruct g as [n ik inode nonce is_ ex ca ep ps cs sg].
    unfold grant_message. grant_fields.
    unfold AEGIS2_MAX_PREFIXES, AEGIS2_MAX_BOOTSTRAP_CANDIDATES in *. rewrite <- !app_assoc.
    rewrite (read_bytes_ok 32 n), (read_bytes_ok 32 ik), (read_bytes_ok 32 inode),
      (read_bytes_ok 32 nonce) by done.
    do 4 rewrite (reads_ok (f := read_u64)) by done.
    rewrite (reads_ok (f := read_u8)) by (unfold in_width; lia).
    rewrite (proj2 (Z.ltb_ge _ _)), Nat2Z.id by lia.
    rewrite (reads_ok (f := read_each read_prefix_grant (length ps))) by done.
    rewrite (reads_ok (f := read_u8)) by (unfold in_width; lia).
    rewrite (proj2 (Z.ltb_ge _ _)), Nat2Z.id by lia.
    rewrite (reads_ok (f := read_each read_bootstrap (length cs))) by done.
    rewrite read_bytes_all by done. by rewrite rd_finished_at, bool_decide_eq_true_2.
Qed.

(** The signed bytes determine every field. *)
Lemma grant_message_inj g1 g2 :
  grant_wf g1 -> grant_wf g2 -> grant_message g1 = grant_message g2 ->
  g1 = set_signature g2 (gr_signature g1).
Proof.
  intros H1 H2 E.
  assert (read_grant (grant_message g1 ++ zero_signature) = Some (set_signature g1 zero_signature)) as R1
    by (apply read_grant_spec; by split).
  assert (read_grant (grant_message g2 ++ zero_signature) = Some (set_signature g2 zero_signature)) as R2
    by (apply read_grant_spec; by split).
  rewrite E, R2 in R1. apply (inj Some), (f_equal (λ g, set_signature g (gr_signature g1))) in R1.
  transitivity (set_signature g1 (gr_signature g1)); [by destruct g1|symmetry; exact R1].
Qed.

Section grant_theorems.
Context `{OpenSSL}.

Definition grant_text (g : Aegis2MembershipGrant) : list byte :=
  AEGIS2_PREFIX ++ base64url_encode (grant_message g ++ gr_signature g).

Lemma decode_grant_spec t g :
  decode_aegis2_grant t = Some g <->
  grant_wf g /\ length (gr_signature g) = 64%nat /\ verify_aegis2_grant_signature g = true /\
  trim_of INVITE_BLANKS t = Some (grant_text g).
Proof.
  unfold decode_aegis2_grant, grant_text.
  destruct (trim_of _ t) as [clean|]; [|naive_solver]. cbv zeta. split.
  - destruct (_ || _) eqn:Hg; [done|]. apply orb_false_iff in Hg as [_ Hg].
    apply negb_false_iff, bool_decide_eq_true in Hg.
    destruct (base64url_decode _) as [bytes|] eqn:Hd; [|done].
    destruct (_ || negb _) eqn:Hg2; [done|]. apply orb_false_iff in Hg2 as [_ Hg2].
    apply negb_false_iff, bool_decide_eq_true in Hg2.
    destruct (read_grant bytes) as [g'|] eqn:Hr; [|done].
    apply read_grant_spec in Hr as (Hwf & Hs & ->).
    destruct (verify_aegis2_grant_signature g') eqn:Hv; [|done]. intros [= <-].
    split_and!; try done. f_equal. by apply framed_text.
  - intros (Hwf & Hs & Hv & ->%(inj Some)). rewrite take_app_length, drop_app_length.
    rewrite base64url_round_trip, !bool_decide_eq_true_2 by done.
    pose proof (length_grant_message g Hwf) as Hl. destruct Hwf as (Hk & Hu & [Hp Hps] & [Hb Hbs]).
    assert (AEGIS2_FIXED_SIZE <= length (grant_message g ++ gr_signature g) <= AEGIS2_MAX_SIZE)%nat as Hsz.
    { rewrite length_app, Hl, Hs. unfold AEGIS2_MAX_SIZE, AEGIS2_FIXED_SIZE, AEGIS2_MAX_PREFIXES,
        AEGIS2_MAX_BOOTSTRAP_CANDIDATES in *. lia. }
    rewrite (length_app AEGIS2_PREFIX), base64url_encode_b64.
    pose proof (length_b64 (grant_message g ++ gr_signature g)) as Hb64.
    rewrite (proj2 (Nat.leb_gt _ _)), (proj2 (Nat.ltb_ge _ (_ + length (b64 _)))),
      (proj2 (Nat.ltb_ge _ _)), (proj2 (Nat.ltb_ge _ _)).
    + cbn [negb orb]. rewrite (proj2 (read_grant_spec _ g)); [by rewrite Hv|]. by split.
    + lia.
    + lia.
    + change AEGIS2_MAX_SIZE with 458%nat in *. cbn [Nat.add Nat.div]. cbn. lia.
    + change AEGIS2_FIXED_SIZE with 226%nat in *. lia.
Qed.

Lemma verify_wf g : grant_wf g ->
  verify_aegis2_grant_signature g =
  evp_ed25519_verify (gr_issuer_key g) (AEGIS2_SIGNING_DOMAIN ++ grant_message g) (gr_signature g).
Proof. intros Hwf. unfold verify_aegis2_grant_signature. by rewrite signed_bytes_wf. Qed.

(** What a grant must say for the policy to accept it: known capabilities only, all those
    required among them, someone to join through, and a validity interval around [now]. *)
Definition policy (g : Aegis2MembershipGrant) (now required : Z) : Prop :=
  (gr_capabilities g < 16 /\ required < 16 /\
   forall i, Z.testbit required i = true -> Z.testbit (gr_capabilities g) i = true) /\
  gr_bootstrap g <> [] /\ gr_issued_at g <= now < gr_expires_at g.

Lemma known_capabilities c : u64 c ->
  Z.land c (Z.ldiff (Z.ones 64) AEGIS2_KNOWN_CAPABILITIES) = 0 <-> c < 16.
Proof.
  intros [Hc0 Hc]. change (Z.ldiff (Z.ones 64) AEGIS2_KNOWN_CAPABILITIES) with (Z.shiftl (Z.ones 60) 4).
  assert (Z.land c (Z.shiftl (Z.ones 60) 4) = Z.shiftl (c / 16) 4) as ->.
  { apply Z.bits_inj'. intros i Hi. rewrite Z.land_spec.
    destruct (Z.ltb_spec i 4).
    { rewrite !Z.shiftl_spec_low by done. apply andb_false_r. }
    rewrite !Z.shiftl_spec by lia. change 16 with (2 ^ 4).
    rewrite <- Z.shiftr_div_pow2, Z.shiftr_spec by lia. replace (i - 4 + 4) with i by lia.
    destruct (Z.ltb_spec i 64); [by rewrite Z.ones_spec_low, andb_true_r by lia|].
    rewrite <- (Z.mod_small c (2 ^ 64)), Z.mod_pow2_bits_high by lia. done. }
  rewrite Z.shiftl_mul_pow2 by lia. split; intros E; [|rewrite Z.div_small by lia; done].
  Z.div_mod_to_equations. lia.
Qed.

Lemma land_subset c r : Z.land c r = r <-> (forall i, Z.testbit r i = true -> Z.testbit c i = true).
Proof.
  split.
  - intros E i Hi. rewrite <- E, Z.land_spec, andb_true_iff in Hi. by destruct Hi.
  - intros Hs. apply Z.bits_inj'. intros i _. rewrite Z.land_spec. specialize (Hs i).
    destruct (Z.testbit r i); [by rewrite Hs|apply andb_false_r].
Qed.

Lemma validate_spec g now required :
  u64 (gr_capabilities g) -> u64 required ->
  validate_aegis2_grant g now required = true <->
  policy g now required /\ verify_aegis2_grant_signature g = true.
Proof.
  intros Hc Hr. unfold validate_aegis2_grant, policy. cbv zeta.
  rewrite <- land_subset, <- (known_capabilities _ Hc), <- (known_capabilities _ Hr).
  assert ((length (gr_bootstrap g) =? 0)%nat = bool_decide (gr_bootstrap g = [])) as ->
    by (by destruct (gr_bootstrap g)).
  destruct (_ || _) eqn:E.
  - rewrite !orb_true_iff, !negb_true_iff, !Z.eqb_neq, bool_decide_eq_true, !Z.leb_le, Z.ltb_lt in E.
    split; [done|]. intros [((? & ? & ?) & ? & ?) _]. exfalso. intuition lia.
  - rewrite !orb_false_iff, !negb_false_iff, !Z.eqb_eq, bool_decide_eq_false, !Z.leb_gt, Z.ltb_ge in E.
    intuition lia.
Qed.
End grant_theorems.

(** ** What the issuer key signs *)

(** The messages of the protocol an Ed25519 identity key signs. *)
Inductive IssuerMessage :=
  | GrantMessage (g : Aegis2MembershipGrant)
  | RevocationMessage (r : MembershipRevocation)
  | BindingMessage (public_key : Key)
  | RotationMessage (c : IdentityRotationCertificate).

Definition issuer_message (m : IssuerMessage) : list byte :=
  match m with
  | GrantMessage g => AEGIS2_SIGNING_DOMAIN ++ default [] (aegis2_signed_bytes g)
  | RevocationMessage r => revocation_message r
  | BindingMessage k => key_binding_message k
  | RotationMessage c => rotation_message c
  end.

Lemma rotation_domain c :
  rotation_message c = [] \/ exists rest, rotation_message c = ROTATION_DOMAIN ++ rest.
Proof.
  unfold rotation_message. erewrite encode_exact_emits by solve_emits.
  case_decide; [right; by eexists|by left].
Qed.

(** No other kind of message is a grant. *)
Lemma grant_domain m body :
  issuer_message m = AEGIS2_SIGNING_DOMAIN ++ body ->
  exists g, m = GrantMessage g /\ default [] (aegis2_signed_bytes g) = body.
Proof.
  destruct m as [g|r|k|c]; cbn [issuer_message].
  - intros E%app_inv_head. eauto.
  - intros E. apply (f_equal (take 20)) in E. vm_compute in E. discriminate.
  - intros E. apply (f_equal (take 20)) in E. vm_compute in E. discriminate.
  - destruct (rotation_domain c) as [->|[rest ->]]; [done|].
    intros E. apply (f_equal (take 20)) in E. vm_compute in E. discriminate.
Qed.

Lemma decode_encode_invite p : invite_wf p -> decode_invite (encode_invite p) = Some p.
Proof.
  intros Hwf. apply decode_invite_spec. split; [done|]. rewrite encode_invite_wf by done.
  apply framed_plain; [done|]. by apply (bool_decide_unpack _).
Qed.

(** ** Properties *)

(** An invite has one text.  The text [decode_invite] accepts is, once the blanks and
    quotes around it are removed, exactly what [encode_invite] writes for the payload it
    returns; and it returns every payload with 32-byte ids, an IPv4 endpoint, a prefix length
    of at most 32 and a name of at most 64 bytes from the text written for it. *)
Theorem invite_codec p :
  (forall t, decode_invite t = Some p <->
             invite_wf p /\ trim_of INVITE_BLANKS t = Some (encode_invite p)) /\
  (invite_wf p -> decode_invite (encode_invite p) = Some p).
Proof.
  split; [intros t; apply decode_invite_spec|apply decode_encode_invite].
Qed.

(** C39: A grant the issuer writes is accepted, and validates exactly while its policy holds.
    When the signing key is that of the issuer named in the grant, [decode_aegis2_grant] of
    the text [encode_aegis2_grant] writes returns the grant with its signature, and
    [validate_aegis2_grant] accepts it at a time in its validity interval when the required
    capabilities are known and granted and it names a bootstrap node. *)
Theorem issued_grant_is_accepted `{OpenSSL, !SignatureLaws} g sk s :
  grant_wf g -> evp_ed25519_public sk = Some (gr_issuer_key g) ->
  evp_ed25519_sign sk (AEGIS2_SIGNING_DOMAIN ++ grant_message g) = Some s ->
  let signed := set_signature g s in
  decode_aegis2_grant (encode_aegis2_grant g sk) = Some signed /\
  forall now required, u64 required ->
    validate_aegis2_grant signed now required = true <-> policy g now required.
Proof.
  intros Hwf Hpk Hs signed. pose proof (ed25519_sign_length _ _ _ Hs) as Hl.
  pose proof (ed25519_verify_sign _ _ _ _ Hpk Hs) as Hv.
  assert (grant_wf signed) as Hwf' by exact Hwf.
  assert (verify_aegis2_grant_signature signed = true) as Hv' by (by rewrite verify_wf).
  split.
  - assert (encode_aegis2_grant g sk = grant_text signed) as ->.
    { unfold encode_aegis2_grant, sign_aegis2, sign_fixed. rewrite signed_bytes_wf, Hs by done.
      rewrite Hl, Nat.eqb_refl. unfold verify_aegis2. by rewrite Hv. }
    apply decode_grant_spec. split_and!; try done.
    apply framed_plain; [done|]. by apply (bool_decide_unpack _).
  - intros now required Hr. rewrite validate_spec; [|by destruct Hwf as (_ & (_ & _ & ? & _) & _)|done].
    by intuition.
Qed.


(** ** Concrete instances *)

Definition sample_invite : InvitePayload :=
  mkInvite (replicate 32 x01) (replicate 32 x02) (replicate 32 x03) (from_parts 192 0 2 7 51820)
    167772160 8 (lit "home").

Lemma sample_invite_wf : invite_wf sample_invite.
Proof.
  split_and!; [done..| |done|cbn; lia|cbn; lia|unfold INVITE_MAX_NAME_SIZE; cbn; lia].
  split; [|by vm_compute]. exists 3221225991. split; [by vm_compute|by vm_compute].
Qed.

Lemma invite_codec_witness :
  decode_invite (encode_invite sample_invite) = Some sample_invite /\
  decode_invite (encode_invite sample_invite ++ lit "A") <> Some sample_invite.
Proof.
  destruct (invite_codec sample_invite) as [Hspec Hrt]. split; [apply Hrt, sample_invite_wf|].
  rewrite (Hspec _). intros [_ E]. by vm_compute in E.
Defined.

Section grant_witness.
#[local] Existing Instances toy_openssl toy_signature_laws.

Definition sample_secret : Key := replicate 32 x07.
Definition sample_grant : Aegis2MembershipGrant :=
  mkGrant (replicate 32 x01) (toy_digest 32 sample_secret) (replicate 32 x04) (replicate 32 x05)
    1000 2000 5 1 [mkPrefixGrant 10 8] [mkBootstrap (replicate 32 x02) (from_parts 192 0 2 7 51820)] [].

Definition sample_signature : list byte :=
  toy_digest 32 sample_secret ++ toy_digest 32 (AEGIS2_SIGNING_DOMAIN ++ grant_message sample_grant).

Lemma sample_grant_wf : grant_wf sample_grant.
Proof.
  unfold grant_wf. split_and!; try done.
  - unfold AEGIS2_MAX_PREFIXES. cbn. lia.
  - apply Forall_cons_2; [|apply Forall_nil_2]. split; [by vm_compute|cbn; lia].
  - unfold AEGIS2_MAX_BOOTSTRAP_CANDIDATES. cbn. lia.
  - apply Forall_cons_2; [|apply Forall_nil_2]. split_and!; [done| |by vm_compute].
    split; [|by vm_compute]. exists 3221225991. split; [by vm_compute|by vm_compute].
Qed.

Lemma issued_grant_is_accepted_witness :
  exists s, decode_aegis2_grant (encode_aegis2_grant sample_grant sample_secret) =
    Some (set_signature sample_grant s) /\
  validate_aegis2_grant (set_signature sample_grant s) 1500 1 = true.
Proof.
  exists sample_signature.
  destruct (@issued_grant_is_accepted toy_openssl toy_signature_laws sample_grant sample_secret
    sample_signature sample_grant_wf eq_refl eq_refl) as [Hd Hv]. split; [exact Hd|]. assert (u64 1) as H1 by (unfold in_width; lia).
  specialize (Hv 1500 1 H1). apply Hv. clear Hd Hv. unfold policy. split_and!; [done|done| |done|cbn; lia|cbn; lia].
  intros i. change (gr_capabilities sample_grant) with 5. intros Hi.
  destruct i as [|i|i]; [done|by destruct i|done].
Defined.
End grant_witness.

(** A library under which only the messages of [issued] verify. *)
Definition recording_openssl (issued : list IssuerMessage) : OpenSSL := {|
  evp_blake2b512 _ := None; evp_sha256 _ := None; evp_blake2s256 _ := None;
  evp_x25519 _ _ := None; evp_chacha_seal _ _ _ _ := None; evp_chacha_open _ _ _ _ _ := None;
  evp_ed25519_public _ := None; evp_ed25519_sign _ _ := None;
  evp_ed25519_verify _ m _ := bool_decide (m ∈ issuer_message <$> issued);
|}.

Definition sample_issued : list IssuerMessage :=
  [BindingMessage (replicate 32 x02); GrantMessage sample_grant].
Definition sample_signed : Aegis2MembershipGrant := set_signature sample_grant zero_signature.

