(* ===== verification/Config.v ===== *)
(** * Configuration files ([src/config/config.cpp], the export of [src/cli/commands.cpp])

    The configuration records, the line-by-line reader of the YAML subset and the writer
    behind [/config export].  The theorems: what is exported is read back as the same
    configuration, what is read satisfies the ranges the tunnel relies on, and an IPv6 prefix
    in an [allowed_ips] list is refused in every state of the reader. *)

From Stdlib Require Import ZArith Lia Bool.
From Stdlib.Strings Require Import Byte String.
From stdpp Require Import base numbers option list.
From S2P Require Import Prelude Wire Packet Crypto IpAddress Endpoint Text.

Record PeerConfig := mkPeerConfig {
  pc_endpoint : list byte;
  pc_public_key : Key;
  pc_allowed_ips : list (list byte);
}.

Record InterfaceConfig := mkInterface {
  if_address : list byte;
  if_listen_port : Z;
  if_underlay_mtu : Z;
  if_max_relay_depth : Z;
  if_padding_bucket_size : Z;
  if_stun_server : option (list byte);
}.

Record AppConfig := mkAppConfig {
  iface : InterfaceConfig;
  cf_network_id : option NetworkId;
  cf_invite : option (list byte);
  cf_peers : list PeerConfig;
}.

Definition DEFAULT_UNDERLAY_MTU : Z := 1500.

(** [PeerConfig{}], [InterfaceConfig{}] and [AppConfig{}]. *)
Definition no_peer_config : PeerConfig := mkPeerConfig [] zero32 [].
Definition default_interface : InterfaceConfig :=
  mkInterface [] 0 DEFAULT_UNDERLAY_MTU ONION_MAX_HOPS SESSION_PADDING_BUCKET_SIZE None.
Definition default_app : AppConfig := mkAppConfig default_interface None None [].

(** ** Lines *)

Definition NEWLINE : byte := x0a.
Definition YAML_BLANKS : list byte := [x20; x09].
Definition YAML_TRAILING : list byte := [x20; x09; x0d; x0a].

(** [-1] for a blank line or a comment. *)
Fixpoint indent_from (i : Z) (line : list byte) : Z :=
  match line with
  | [] => -1
  | c :: line =>
      if bool_decide (c ∈ YAML_BLANKS) then indent_from (i + 1) line
      else if bool_decide (c = x23) then -1 else i
  end.
Definition yaml_indent (line : list byte) : Z := indent_from 0 line.

Definition yaml_trim (s : list byte) : list byte :=
  rev (skip_of YAML_TRAILING (rev (skip_of YAML_BLANKS s))).

Definition yaml_split_key_value (line : list byte) : option (list byte * list byte) :=
  match split_first COLON line with
  | Some (key, value) => Some (yaml_trim key, yaml_trim value)
  | None => None
  end.

(** ** Values *)

Definition parse_key32 (value : list byte) : option Key :=
  match parse_hex_bytes value with
  | Some bytes => if Nat.eqb (length bytes) 32 then Some bytes else None
  | None => None
  end.
Definition parse_network_id (value : list byte) : option NetworkId := parse_key32 value.
Definition parse_public_key (value : list byte) : option Key := parse_key32 value.

Definition all_digits (value : list byte) : bool :=
  forallb (λ c, bool_decide (is_Some (decimal_digit c))) value.

Definition parse_port (value : list byte) : option Z :=
  if Nat.eqb (length value) 0 || negb (all_digits value) then None
  else
    let v := default 0 (strtoul value) in
    if (v =? 0) || (65535 <? v) then None else Some (wrap 16 v).

Definition parse_bounded_uint32 (value : list byte) (minimum maximum : Z) : option Z :=
  if Nat.eqb (length value) 0 || negb (all_digits value) then None
  else
    let parsed := default 0 (strtoul value) in
    if (parsed <? minimum) || (maximum <? parsed) then None else Some (wrap 32 parsed).

(** ** The reader *)

Inductive YamlSection := SectionRoot | SectionInterface | SectionIdentity | SectionPeers.

#[export] Instance section_eq_dec : EqDecision YamlSection.
Proof. solve_decision. Defined.

Record YamlState := mkYaml {
  y_config : AppConfig;
  y_section : YamlSection;
  in_peer_item : bool;
  in_allowed : bool;
}.

Definition yaml_init : YamlState := mkYaml default_app SectionRoot false false.

Definition set_config (c : AppConfig) (y : YamlState) : YamlState :=
  mkYaml c (y_section y) (in_peer_item y) (in_allowed y).
Definition set_iface (i : InterfaceConfig) (y : YamlState) : YamlState :=
  let c := y_config y in
  set_config (mkAppConfig i (cf_network_id c) (cf_invite c) (cf_peers c)) y.
Definition set_peers (ps : list PeerConfig) (y : YamlState) : YamlState :=
  let c := y_config y in
  set_config (mkAppConfig (iface c) (cf_network_id c) (cf_invite c) ps) y.

(** [cfg.peers.back()], on a list that is not empty. *)
Definition update_back (f : PeerConfig -> PeerConfig) (ps : list PeerConfig) : list PeerConfig :=
  alter f (pred (length ps)) ps.

Definition top_level_line (line : list byte) (y : YamlState) : option YamlState :=
  let enter s := Some (mkYaml (y_config y) s false false) in
  if bool_decide (line = lit "interface:") then enter SectionInterface
  else if bool_decide (line = lit "identity:") then enter SectionIdentity
  else if bool_decide (line = lit "peer:") then enter SectionPeers
  else None.

Definition interface_line (line : list byte) (y : YamlState) : option YamlState :=
  let i := iface (y_config y) in
  match yaml_split_key_value line with
  | None => None
  | Some (key, value) =>
      if bool_decide (key = lit "address") then
        match parse_interface value with
        | Some _ => Some (set_iface (mkInterface value (if_listen_port i) (if_underlay_mtu i)
                      (if_max_relay_depth i) (if_padding_bucket_size i) (if_stun_server i)) y)
        | None => None
        end
      else if bool_decide (key = lit "listen_port") then
        match parse_port value with
        | Some p => Some (set_iface (mkInterface (if_address i) p (if_underlay_mtu i)
                      (if_max_relay_depth i) (if_padding_bucket_size i) (if_stun_server i)) y)
        | None => None
        end
      else if bool_decide (key = lit "underlay_mtu") then
        match parse_bounded_uint32 value 1 MAXIMUM_IPV4_MTU with
        | Some mtu => Some (set_iface (mkInterface (if_address i) (if_listen_port i) mtu
                        (if_max_relay_depth i) (if_padding_bucket_size i) (if_stun_server i)) y)
        | None => None
        end
      else if bool_decide (key = lit "max_relay_depth") then
        match parse_bounded_uint32 value DIRECT_ROUTE_DEPTH ONION_MAX_HOPS with
        | Some depth => Some (set_iface (mkInterface (if_address i) (if_listen_port i)
                          (if_underlay_mtu i) (wrap 8 depth) (if_padding_bucket_size i)
                          (if_stun_server i)) y)
        | None => None
        end
      else if bool_decide (key = lit "padding_bucket_size") then
        match parse_bounded_uint32 value 32 256 with
        | Some bucket_size =>
            if negb (is_supported_session_padding_bucket bucket_size) then None
            else Some (set_iface (mkInterface (if_address i) (if_listen_port i)
                         (if_underlay_mtu i) (if_max_relay_depth i) (wrap 16 bucket_size)
                         (if_stun_server i)) y)
        | None => None
        end
      else if bool_decide (key = lit "stun_server") then
        if Nat.eqb (length value) 0 then None
        else Some (set_iface (mkInterface (if_address i) (if_listen_port i) (if_underlay_mtu i)
                     (if_max_relay_depth i) (if_padding_bucket_size i) (Some value)) y)
      else None
  end.

Definition identity_line (line : list byte) (y : YamlState) : option YamlState :=
  let c := y_config y in
  match yaml_split_key_value line with
  | None => None
  | Some (key, value) =>
      if bool_decide (key = lit "network_id") then
        match parse_network_id value with
        | Some nid => Some (set_config (mkAppConfig (iface c) (Some nid) (cf_invite c) (cf_peers c)) y)
        | None => None
        end
      else if bool_decide (key = lit "invite") then
        if Nat.eqb (length value) 0 then None
        else Some (set_config (mkAppConfig (iface c) (cf_network_id c) (Some value) (cf_peers c)) y)
      else None
  end.

Definition set_endpoint (value : list byte) (p : PeerConfig) : PeerConfig :=
  mkPeerConfig value (pc_public_key p) (pc_allowed_ips p).
Definition set_public_key (key : Key) (p : PeerConfig) : PeerConfig :=
  mkPeerConfig (pc_endpoint p) key (pc_allowed_ips p).
Definition push_allowed (ip : list byte) (p : PeerConfig) : PeerConfig :=
  mkPeerConfig (pc_endpoint p) (pc_public_key p) (pc_allowed_ips p ++ [ip]).

(** A list item: a new peer with its first key, or an entry of [allowed_ips]. *)
Definition peer_item_line (item : list byte) (y : YamlState) : option YamlState :=
  let ps := cf_peers (y_config y) in
  if Nat.eqb (length item) 0 then None
  else
    match yaml_split_key_value item with
    | Some (key, value) =>
        let ps := ps ++ [no_peer_config] in
        let y := mkYaml (y_config y) (y_section y) true false in
        if bool_decide (key = lit "endpoint") then
          if Nat.eqb (length value) 0 then None
          else Some (set_peers (update_back (set_endpoint value) ps) y)
        else if bool_decide (key = lit "public_key") then
          match parse_public_key value with
          | Some k => Some (set_peers (update_back (set_public_key k) ps) y)
          | None => None
          end
        else None
    | None =>
        if in_allowed y && in_peer_item y && negb (Nat.eqb (length ps) 0)
        then Some (set_peers (update_back (push_allowed item) ps) y) else None
    end.

Definition peer_line (line : list byte) (y : YamlState) : option YamlState :=
  let ps := cf_peers (y_config y) in
  if bool_decide (take 2 line = lit "- ") then peer_item_line (yaml_trim (drop 2 line)) y
  else if negb (in_peer_item y) || Nat.eqb (length ps) 0 then None
  else
    match yaml_split_key_value line with
    | None => None
    | Some (key, value) =>
        if bool_decide (key = lit "endpoint") then
          if Nat.eqb (length value) 0 then None
          else Some (set_peers (update_back (set_endpoint value) ps) y)
        else if bool_decide (key = lit "public_key") then
          match parse_public_key value with
          | Some k => Some (set_peers (update_back (set_public_key k) ps) y)
          | None => None
          end
        else if bool_decide (key = lit "allowed_ips") then
          Some (mkYaml (y_config y) (y_section y) (in_peer_item y) true)
        else None
    end.

(** One iteration of the loop over the lines; [None] is [return false]. *)
Definition yaml_line (y : YamlState) (raw : list byte) : option YamlState :=
  let indent := yaml_indent raw in
  if indent <? 0 then Some y
  else
    let line := yaml_trim raw in
    if Nat.eqb (length line) 0 then Some y
    else if indent =? 0 then top_level_line line y
    else match y_section y with
         | SectionInterface => interface_line line y
         | SectionIdentity => identity_line line y
         | SectionPeers => peer_line line y
         | SectionRoot => None
         end.

Fixpoint yaml_lines (y : YamlState) (lines : list (list byte)) : option YamlState :=
  match lines with
  | [] => Some y
  | raw :: lines =>
      match yaml_line y raw with Some y => yaml_lines y lines | None => None end
  end.

Definition peer_complete (p : PeerConfig) : bool :=
  negb (Nat.eqb (length (pc_endpoint p)) 0) && negb (bool_decide (pc_public_key p = zero32)).

(** The checks after the loop. *)
Definition complete_config (c : AppConfig) : bool :=
  let i := iface c in
  negb (Nat.eqb (length (if_address i)) 0) && negb (if_listen_port i =? 0) &&
  bool_decide (is_Some (safe_overlay_mtu (if_underlay_mtu i) (if_max_relay_depth i)
                          (if_padding_bucket_size i))) &&
  forallb peer_complete (cf_peers c).

(** [Config::parse_yaml]; [None] leaves the configuration as it was. *)
Definition parse_yaml (content : list byte) : option AppConfig :=
  match yaml_lines yaml_init (pieces NEWLINE content) with
  | Some y => if complete_config (y_config y) then Some (y_config y) else None
  | None => None
  end.

(** ** The writer *)

Definition line (text : list byte) : list byte := text ++ [NEWLINE].

Definition export_peer (p : PeerConfig) : list byte :=
  line (lit "  - endpoint: " ++ pc_endpoint p) ++
  line (lit "    public_key: " ++ to_hex (pc_public_key p)) ++
  line (lit "    allowed_ips:") ++
  flat_map (λ ip, line (lit "      - " ++ ip)) (pc_allowed_ips p).

(** [/config export]: [network_id] is that of the identity of the session. *)
Definition export_config (c : AppConfig) (network_id : NetworkId) : list byte :=
  let i := iface c in
  line (lit "interface:") ++
  line (lit "  address: " ++
    if Nat.eqb (length (if_address i)) 0 then lit "10.10.0.1/24" else if_address i) ++
  line (lit "  listen_port: " ++
    to_string (if if_listen_port i =? 0 then 51820 else if_listen_port i)) ++
  line (lit "  underlay_mtu: " ++ to_string (if_underlay_mtu i)) ++
  line (lit "  max_relay_depth: " ++ to_string (if_max_relay_depth i)) ++
  line (lit "  padding_bucket_size: " ++ to_string (if_padding_bucket_size i)) ++
  match if_stun_server i with Some s => line (lit "  stun_server: " ++ s) | None => [] end ++
  line [] ++ line (lit "identity:") ++
  line (lit "  network_id: " ++ to_hex network_id) ++
  match cf_invite c with Some s => line (lit "  invite: " ++ s) | None => [] end ++
  match cf_peers c with
  | [] => []
  | ps => line [] ++ line (lit "peer:") ++ flat_map export_peer ps
  end.

(** ** Lines the reader takes apart *)

Definition trimmed (s : list byte) : Prop :=
  match s with c :: _ => c ∉ YAML_TRAILING | [] => False end /\
  match last s with Some c => c ∉ YAML_TRAILING | None => False end.

(** A value a line can hold. *)
Definition yaml_value (s : list byte) : Prop := trimmed s /\ NEWLINE ∉ s.

Definition clean_chars (s : list byte) : Prop := Forall (λ c, c ∉ YAML_TRAILING) s.

Lemma clean_value s : s <> [] -> clean_chars s -> yaml_value s.
Proof.
  intros Hne Hs. unfold clean_chars in Hs. rewrite Forall_forall in Hs. split; [split|].
  - destruct s as [|c s]; [done|]. apply Hs. by left.
  - destruct (last s) as [c|] eqn:E; [|by apply last_None in E].
    apply last_Some in E as [t ->]. apply Hs, elem_of_app. right. by left.
  - intros Hn. apply (Hs _ Hn). by apply (bool_decide_unpack _).
Qed.

Lemma blanks_trailing c : c ∉ YAML_TRAILING -> c ∉ YAML_BLANKS.
Proof. unfold YAML_TRAILING, YAML_BLANKS. rewrite !not_elem_of_cons. tauto. Qed.

Lemma skip_spaces k s : skip_of YAML_BLANKS (replicate k x20 ++ s) = skip_of YAML_BLANKS s.
Proof. induction k as [|k IH]; [done|]. cbn [replicate app skip_of]. done. Qed.

Lemma trim_padded k s : trimmed s -> yaml_trim (replicate k x20 ++ s) = s.
Proof.
  intros [Hh Hl]. unfold yaml_trim. rewrite skip_spaces. destruct s as [|c s]; [done|].
  cbn [skip_of]. rewrite bool_decide_eq_false_2 by (by apply blanks_trailing).
  destruct (last (c :: s)) as [d|] eqn:E; [|done]. apply last_Some in E as [t Ht]. rewrite Ht.
  rewrite rev_app_distr. cbn [rev app skip_of]. rewrite bool_decide_eq_false_2 by done.
  cbn [rev]. by rewrite rev_involutive.
Qed.

Lemma trim_value s : trimmed s -> yaml_trim s = s.
Proof. apply (trim_padded 0). Qed.

Lemma indent_padded k s i : 0 <= i -> trimmed s -> head s <> Some x23 ->
  indent_from i (replicate k x20 ++ s) = i + Z.of_nat k.
Proof.
  intros Hi [Hh _] Hc. revert i Hi. induction k as [|k IH]; intros i Hi.
  - destruct s as [|c s]; [done|]. cbn [replicate app indent_from].
    rewrite !bool_decide_eq_false_2; [lia|naive_solver|by apply blanks_trailing].
  - cbn [replicate app indent_from]. rewrite bool_decide_eq_true_2 by (by apply (bool_decide_unpack _)).
    rewrite IH by lia. lia.
Qed.

Lemma trimmed_app a b : trimmed a -> trimmed b -> trimmed (a ++ b).
Proof.
  intros [Ha _] [Hb Hb']. split; [by destruct a|]. rewrite last_app. by destruct (last b).
Qed.

(** An indented line goes to its section, trimmed. *)
Lemma indented_line y k s : trimmed s -> head s <> Some x23 ->
  yaml_line y (replicate (S k) x20 ++ s) =
  match y_section y with
  | SectionInterface => interface_line s y
  | SectionIdentity => identity_line s y
  | SectionPeers => peer_line s y
  | SectionRoot => None
  end.
Proof.
  intros Ht Hc. unfold yaml_line, yaml_indent. rewrite indent_padded by (done || lia).
  rewrite (proj2 (Z.ltb_ge _ _)), trim_padded, (proj2 (Z.eqb_neq (_ + _) _)) by (done || lia).
  rewrite (proj2 (Nat.eqb_neq _ _)); [done|]. destruct Ht. by destruct s.
Qed.

(** A key and its value. *)
Definition pair_text (key value : list byte) : list byte := key ++ [COLON; x20] ++ value.

Definition key_text (key : list byte) : Prop := trimmed key /\ COLON ∉ key /\ head key <> Some x23.

Lemma split_pair_text key value :
  key_text key -> trimmed value -> yaml_split_key_value (pair_text key value) = Some (key, value).
Proof.
  intros (Hk & Hc & _) Hv. unfold yaml_split_key_value, pair_text. cbn [app].
  rewrite split_first_prefix by done. rewrite (trim_value key) by done.
  change (x20 :: value) with (replicate 1 x20 ++ value). by rewrite trim_padded.
Qed.

Lemma pair_text_ok key value : key_text key -> trimmed value ->
  trimmed (pair_text key value) /\ head (pair_text key value) <> Some x23.
Proof.
  intros (Hk & Hc & Hh) Hv. destruct key as [|c key]; [by destruct Hk|]. split; [|done].
  destruct Hk as [Hk _]. destruct Hv as [_ Hv]. unfold pair_text. split; [done|].
  rewrite app_assoc, last_app. by destruct (last value).
Qed.

(** Keys written in the program. *)
Ltac solve_key := split_and!; [split|..]; by apply (bool_decide_unpack _).

(** ** Values written in the program *)

Lemma address_char_clean c : address_char c -> c ∉ YAML_TRAILING.
Proof.
  intros Hc Hin. unfold YAML_TRAILING in Hin. rewrite !elem_of_cons in Hin.
  destruct Hin as [->|[->|[->|[->|Hin]]]]; [..|by apply not_elem_of_nil in Hin];
    destruct Hc as [[? Hc]|[Hc|[Hc|Hc]]]; done.
Qed.

Lemma address_value s : s <> [] -> Forall address_char s -> yaml_value s.
Proof.
  intros Hne Hs. apply clean_value; [done|]. apply (Forall_impl _ _ _ Hs), address_char_clean.
Qed.

Lemma digits_address s : digits s -> Forall address_char s.
Proof. intros Hs. apply (Forall_impl _ _ _ Hs). intros c Hc. left. by apply digit_is_hex. Qed.

Lemma number_value n : 0 <= n < 10 ^ 20 -> yaml_value (to_string n).
Proof.
  intros Hn. destruct (to_string_spec n Hn) as (Hne & Hd & _).
  apply address_value; [done|]. by apply digits_address.
Qed.

Lemma all_digits_true s : digits s -> all_digits s = true.
Proof.
  intros Hs. apply forallb_forall. intros c Hc. apply bool_decide_eq_true_2.
  unfold digits in Hs. rewrite Forall_forall in Hs. by apply Hs, list_elem_of_In.
Qed.

Lemma parse_port_to_string p : 1 <= p <= 65535 -> parse_port (to_string p) = Some p.
Proof.
  intros Hp. unfold parse_port. destruct (to_string_spec p) as (Hne & Hd & _); [lia|].
  rewrite (proj2 (Nat.eqb_neq _ _)) by (by destruct (to_string p)). rewrite all_digits_true by done.
  rewrite strtoul_to_string by (unfold ULONG_MAX; lia). cbn [orb negb from_option id].
  rewrite (proj2 (Z.eqb_neq _ _)), (proj2 (Z.ltb_ge _ _)) by lia. cbn [orb].
  by rewrite wrap_small by (unfold in_width; lia).
Qed.

Lemma parse_bounded_to_string n lo hi : 0 <= lo <= n -> n <= hi -> hi <= 65535 ->
  parse_bounded_uint32 (to_string n) lo hi = Some n.
Proof.
  intros Hl Hh Hm. unfold parse_bounded_uint32. destruct (to_string_spec n) as (Hne & Hd & _); [lia|].
  rewrite (proj2 (Nat.eqb_neq _ _)) by (by destruct (to_string n)). rewrite all_digits_true by done.
  rewrite strtoul_to_string by (unfold ULONG_MAX; lia). cbn [orb negb from_option id].
  rewrite (proj2 (Z.ltb_ge _ _)), (proj2 (Z.ltb_ge _ _)) by lia. cbn [orb].
  by rewrite wrap_small by (unfold in_width; lia).
Qed.

Lemma hex_value k : is32 k -> yaml_value (to_hex k).
Proof.
  intros Hl. apply address_value.
  - intros E. apply (f_equal length) in E. rewrite length_to_hex, Hl in E. done.
  - clear Hl. induction k as [|b k IH]; [constructor|].
    change (to_hex (b :: k)) with (hex_char (Z.land (Z.shiftr (bval b) 4) 15) ::
      hex_char (Z.land (bval b) 15) :: to_hex k).
    assert (forall n, hexval (hex_char (Z.land n 15)) = Some (Z.land n 15)) as Hn.
    { intros n. apply hex_char_spec. change 15 with (Z.ones 4). rewrite Z.land_ones by lia.
      apply Z.mod_pos_bound. lia. }
    repeat (apply Forall_cons_2; [left; rewrite Hn; by eexists|]). done.
Qed.

Lemma parse_key_to_hex k : is32 k -> parse_key32 (to_hex k) = Some k.
Proof. intros Hl. unfold parse_key32. by rewrite parse_hex_to_hex, Hl. Qed.

(** ** What is exported is read back *)

Definition peer_exportable (p : PeerConfig) : Prop :=
  yaml_value (pc_endpoint p) /\ is32 (pc_public_key p) /\ pc_public_key p <> zero32 /\
  Forall (λ ip, yaml_value ip /\ COLON ∉ ip) (pc_allowed_ips p).

Definition exportable (c : AppConfig) : Prop :=
  let i := iface c in
  (if_address i = [] \/ is_Some (parse_interface (if_address i))) /\
  0 <= if_listen_port i <= 65535 /\
  is_Some (safe_overlay_mtu (if_underlay_mtu i) (if_max_relay_depth i) (if_padding_bucket_size i)) /\
  (forall s, if_stun_server i = Some s -> yaml_value s) /\
  (forall s, cf_invite c = Some s -> yaml_value s) /\
  Forall peer_exportable (cf_peers c).

Definition exported_address (i : InterfaceConfig) : list byte :=
  if Nat.eqb (length (if_address i)) 0 then lit "10.10.0.1/24" else if_address i.
Definition exported_port (i : InterfaceConfig) : Z :=
  if if_listen_port i =? 0 then 51820 else if_listen_port i.

(** The configuration the exported text stands for. *)
Definition exported (c : AppConfig) (network_id : NetworkId) : AppConfig :=
  let i := iface c in
  mkAppConfig
    (mkInterface (exported_address i) (exported_port i) (if_underlay_mtu i) (if_max_relay_depth i)
       (if_padding_bucket_size i) (if_stun_server i))
    (Some network_id) (cf_invite c) (cf_peers c).

Definition peer_lines (p : PeerConfig) : list (list byte) :=
  [lit "  - endpoint: " ++ pc_endpoint p; lit "    public_key: " ++ to_hex (pc_public_key p);
   lit "    allowed_ips:"] ++ map (λ ip, lit "      - " ++ ip) (pc_allowed_ips p).

Definition export_lines (c : AppConfig) (network_id : NetworkId) : list (list byte) :=
  let i := iface c in
  [lit "interface:"; lit "  address: " ++ exported_address i;
   lit "  listen_port: " ++ to_string (exported_port i);
   lit "  underlay_mtu: " ++ to_string (if_underlay_mtu i);
   lit "  max_relay_depth: " ++ to_string (if_max_relay_depth i);
   lit "  padding_bucket_size: " ++ to_string (if_padding_bucket_size i)] ++
  match if_stun_server i with Some s => [lit "  stun_server: " ++ s] | None => [] end ++
  [[]; lit "identity:"; lit "  network_id: " ++ to_hex network_id] ++
  match cf_invite c with Some s => [lit "  invite: " ++ s] | None => [] end ++
  match cf_peers c with [] => [] | ps => [[]; lit "peer:"] ++ flat_map peer_lines ps end.

Lemma export_peer_lines p : export_peer p = flat_map line (peer_lines p).
Proof.
  unfold export_peer, peer_lines. rewrite flat_map_app. cbn [flat_map]. rewrite <- !app_assoc, app_nil_l.
  do 3 f_equal. induction (pc_allowed_ips p) as [|ip ips IH]; [done|]. cbn [flat_map map]. by rewrite IH.
Qed.

Lemma export_config_lines c nid : export_config c nid = flat_map line (export_lines c nid).
Proof.
  unfold export_config, export_lines. cbv zeta. rewrite !flat_map_app. cbn [flat_map].
  rewrite <- !app_assoc, !app_nil_l. do 6 f_equal.
  f_equal; [destruct (if_stun_server _); cbn [flat_map]; by rewrite ?app_nil_r|]. do 3 f_equal.
  f_equal; [destruct (cf_invite c); cbn [flat_map]; by rewrite ?app_nil_r|].
  destruct (cf_peers c) as [|p ps]; [done|]. rewrite flat_map_app. cbn [flat_map].
  rewrite <- app_assoc. do 2 f_equal. rewrite flat_map_app, export_peer_lines. f_equal.
  induction ps as [|q ps IH]; [done|]. cbn [flat_map]. by rewrite flat_map_app, export_peer_lines, IH.
Qed.

Lemma pieces_lines ls : Forall (λ l, NEWLINE ∉ l) ls -> pieces NEWLINE (flat_map line ls) = ls.
Proof.
  induction 1 as [|l ls Hl _ IH]; [done|]. cbn [flat_map]. unfold line at 1. rewrite <- app_assoc.
  cbn [app]. by rewrite pieces_cons, IH.
Qed.

Lemma yaml_lines_cons y y' l ls : yaml_line y l = Some y' -> yaml_lines y (l :: ls) = yaml_lines y' ls.
Proof. intros E. cbn [yaml_lines]. by rewrite E. Qed.

(** Decide the comparisons of literal keys. *)
Ltac eval_keys :=
  repeat match goal with |- context [bool_decide (lit ?a = lit ?b)] =>
    let r := eval vm_compute in (bool_decide (lit a = lit b)) in
    change (bool_decide (lit a = lit b)) with r
  end; cbv iota.

Lemma section_pair y k key v : key_text key -> trimmed v ->
  yaml_line y (replicate (S k) x20 ++ pair_text key v) =
  match y_section y with
  | SectionInterface => interface_line (pair_text key v) y
  | SectionIdentity => identity_line (pair_text key v) y
  | SectionPeers => peer_line (pair_text key v) y
  | SectionRoot => None
  end.
Proof. intros Hk Hv. destruct (pair_text_ok key v Hk Hv). by rewrite indented_line. Qed.

Section read_interface.
Variables (y : YamlState) (i : InterfaceConfig).
Hypothesis Hs : y_section y = SectionInterface.
Hypothesis Hi : iface (y_config y) = i.

Lemma read_address v : is_Some (parse_interface v) ->
  yaml_line y (lit "  address: " ++ v) =
  Some (set_iface (mkInterface v (if_listen_port i) (if_underlay_mtu i) (if_max_relay_depth i)
    (if_padding_bucket_size i) (if_stun_server i)) y).
Proof.
  intros [r Hr]. destruct (parse_interface_chars _ _ Hr) as [Hne Hc].
  destruct (address_value v Hne Hc) as [Hv _].
  change (lit "  address: " ++ v) with (replicate 2 x20 ++ pair_text (lit "address") v).
  rewrite section_pair, Hs by (done || solve_key). unfold interface_line.
  rewrite split_pair_text, Hi by (done || solve_key). eval_keys. by rewrite Hr.
Qed.

Lemma read_listen_port p : 1 <= p <= 65535 ->
  yaml_line y (lit "  listen_port: " ++ to_string p) =
  Some (set_iface (mkInterface (if_address i) p (if_underlay_mtu i) (if_max_relay_depth i)
    (if_padding_bucket_size i) (if_stun_server i)) y).
Proof.
  intros Hp. destruct (number_value p) as [Hv _]; [lia|].
  change (lit "  listen_port: " ++ ?v) with (replicate 2 x20 ++ pair_text (lit "listen_port") v).
  rewrite section_pair, Hs by (done || solve_key). unfold interface_line.
  rewrite split_pair_text, Hi by (done || solve_key). eval_keys. by rewrite parse_port_to_string.
Qed.

Lemma read_underlay_mtu n : 1 <= n <= MAXIMUM_IPV4_MTU ->
  yaml_line y (lit "  underlay_mtu: " ++ to_string n) =
  Some (set_iface (mkInterface (if_address i) (if_listen_port i) n (if_max_relay_depth i)
    (if_padding_bucket_size i) (if_stun_server i)) y).
Proof.
  unfold MAXIMUM_IPV4_MTU. intros Hp. destruct (number_value n) as [Hv _]; [lia|].
  change (lit "  underlay_mtu: " ++ ?v) with (replicate 2 x20 ++ pair_text (lit "underlay_mtu") v).
  rewrite section_pair, Hs by (done || solve_key). unfold interface_line.
  rewrite split_pair_text, Hi by (done || solve_key). eval_keys.
  by rewrite parse_bounded_to_string by (unfold MAXIMUM_IPV4_MTU; lia).
Qed.

Lemma read_max_relay_depth n : DIRECT_ROUTE_DEPTH <= n <= ONION_MAX_HOPS ->
  yaml_line y (lit "  max_relay_depth: " ++ to_string n) =
  Some (set_iface (mkInterface (if_address i) (if_listen_port i) (if_underlay_mtu i) n
    (if_padding_bucket_size i) (if_stun_server i)) y).
Proof.
  unfold DIRECT_ROUTE_DEPTH, ONION_MAX_HOPS. intros Hp. destruct (number_value n) as [Hv _]; [lia|].
  change (lit "  max_relay_depth: " ++ ?v) with (replicate 2 x20 ++ pair_text (lit "max_relay_depth") v).
  rewrite section_pair, Hs by (done || solve_key). unfold interface_line.
  rewrite split_pair_text, Hi by (done || solve_key). eval_keys.
  rewrite parse_bounded_to_string by (unfold DIRECT_ROUTE_DEPTH, ONION_MAX_HOPS; lia).
  by rewrite wrap_small by (unfold in_width; lia).
Qed.

Lemma read_bucket n : is_supported_session_padding_bucket n = true ->
  yaml_line y (lit "  padding_bucket_size: " ++ to_string n) =
  Some (set_iface (mkInterface (if_address i) (if_listen_port i) (if_underlay_mtu i)
    (if_max_relay_depth i) n (if_stun_server i)) y).
Proof.
  intros Hb. pose proof (supported_bucket_cases n Hb) as Hp. destruct (number_value n) as [Hv _]; [lia|].
  change (lit "  padding_bucket_size: " ++ ?v)
    with (replicate 2 x20 ++ pair_text (lit "padding_bucket_size") v).
  rewrite section_pair, Hs by (done || solve_key). unfold interface_line.
  rewrite split_pair_text, Hi by (done || solve_key). eval_keys.
  rewrite parse_bounded_to_string, Hb by lia. cbn [negb].
  by rewrite wrap_small by (unfold in_width; lia).
Qed.

Lemma read_stun_server v : yaml_value v ->
  yaml_line y (lit "  stun_server: " ++ v) =
  Some (set_iface (mkInterface (if_address i) (if_listen_port i) (if_underlay_mtu i)
    (if_max_relay_depth i) (if_padding_bucket_size i) (Some v)) y).
Proof.
  intros [Hv _].
  change (lit "  stun_server: " ++ v) with (replicate 2 x20 ++ pair_text (lit "stun_server") v).
  rewrite section_pair, Hs by (done || solve_key). unfold interface_line.
  rewrite split_pair_text, Hi by (done || solve_key). eval_keys.
  destruct Hv as [Hv _]. by destruct v.
Qed.
End read_interface.

Lemma blank_line y : yaml_line y [] = Some y.
Proof. done. Qed.

Lemma update_back_snoc f ps p : update_back f (ps ++ [p]) = ps ++ [f p].
Proof.
  unfold update_back. rewrite length_app. cbn [length]. rewrite Nat.add_1_r. cbn [pred].
  by rewrite alter_app_r_alt, Nat.sub_diag by lia.
Qed.

Section read_rest.
Variables (y : YamlState) (c : AppConfig).
Hypothesis Hc : y_config y = c.

Lemma read_network_id k : y_section y = SectionIdentity -> is32 k ->
  yaml_line y (lit "  network_id: " ++ to_hex k) =
  Some (set_config (mkAppConfig (iface c) (Some k) (cf_invite c) (cf_peers c)) y).
Proof.
  intros Hs Hk. destruct (hex_value k Hk) as [Hv _].
  change (lit "  network_id: " ++ ?v) with (replicate 2 x20 ++ pair_text (lit "network_id") v).
  rewrite section_pair, Hs by (done || solve_key). unfold identity_line.
  rewrite split_pair_text, Hc by (done || solve_key). eval_keys.
  unfold parse_network_id. by rewrite parse_key_to_hex.
Qed.

Lemma read_invite_line v : y_section y = SectionIdentity -> yaml_value v ->
  yaml_line y (lit "  invite: " ++ v) =
  Some (set_config (mkAppConfig (iface c) (cf_network_id c) (Some v) (cf_peers c)) y).
Proof.
  intros Hs [Hv _].
  change (lit "  invite: " ++ v) with (replicate 2 x20 ++ pair_text (lit "invite") v).
  rewrite section_pair, Hs by (done || solve_key). unfold identity_line.
  rewrite split_pair_text, Hc by (done || solve_key). eval_keys.
  destruct Hv as [Hv _]. by destruct v.
Qed.

Lemma read_peer_endpoint v : y_section y = SectionPeers -> yaml_value v ->
  yaml_line y (lit "  - endpoint: " ++ v) =
  Some (set_peers (cf_peers c ++ [mkPeerConfig v zero32 []]) (mkYaml c SectionPeers true false)).
Proof.
  intros Hs [Hv _]. assert (key_text (lit "endpoint")) as Hk by solve_key.
  destruct (pair_text_ok _ v Hk Hv) as [Ht _].
  change (lit "  - endpoint: " ++ v) with
    (replicate 2 x20 ++ lit "- " ++ pair_text (lit "endpoint") v).
  rewrite indented_line; [|split; [by apply (bool_decide_unpack _)|]|done].
  2:{ rewrite last_app. destruct Ht as [_ Ht]. by destruct (last (pair_text _ _)). }
  rewrite Hs. unfold peer_line.
  change (take 2 (lit "- " ++ pair_text (lit "endpoint") v)) with (lit "- ").
  change (drop 2 (lit "- " ++ pair_text (lit "endpoint") v)) with (pair_text (lit "endpoint") v).
  rewrite bool_decide_eq_true_2, (trim_value _ Ht) by done. unfold peer_item_line.
  rewrite split_pair_text, Hc, Hs by done. eval_keys.
  change (length (pair_text (lit "endpoint") v)) with (10 + length v)%nat. cbn [Nat.add Nat.eqb].
  rewrite (proj2 (Nat.eqb_neq _ _)) by (destruct Hv as [Hv _]; by destruct v).
  by rewrite update_back_snoc.
Qed.
End read_rest.

(** The reader inside the entry of a peer. *)
Definition in_peer (c : AppConfig) (ps : list PeerConfig) (allowed : bool) : YamlState :=
  mkYaml (mkAppConfig (iface c) (cf_network_id c) (cf_invite c) ps) SectionPeers true allowed.

Lemma read_peer_key c ps p allowed k : is32 k ->
  yaml_line (in_peer c (ps ++ [p]) allowed) (lit "    public_key: " ++ to_hex k) =
  Some (in_peer c (ps ++ [set_public_key k p]) allowed).
Proof.
  intros Hk. destruct (hex_value k Hk) as [Hv _].
  change (lit "    public_key: " ++ ?v) with (replicate 4 x20 ++ pair_text (lit "public_key") v).
  rewrite section_pair by (done || solve_key). unfold peer_line. cbn [y_section in_peer].
  rewrite bool_decide_eq_false_2 by (intros E; by vm_compute in E).
  rewrite split_pair_text by (done || solve_key). eval_keys.
  unfold parse_public_key. rewrite parse_key_to_hex by done.
  cbn [in_peer y_config cf_peers in_peer_item negb orb]. rewrite length_app, Nat.add_1_r. cbn [Nat.eqb].
  by rewrite update_back_snoc.
Qed.

Lemma read_allowed_key c ps p allowed :
  yaml_line (in_peer c (ps ++ [p]) allowed) (lit "    allowed_ips:") =
  Some (in_peer c (ps ++ [p]) true).
Proof.
  change (lit "    allowed_ips:") with (replicate 4 x20 ++ lit "allowed_ips:").
  rewrite indented_line by (done || (split; by apply (bool_decide_unpack _))).
  unfold peer_line. cbn [in_peer y_section y_config cf_peers in_peer_item negb orb].
  rewrite length_app, Nat.add_1_r. done.
Qed.

Lemma read_allowed_ip c ps p ip : yaml_value ip -> COLON ∉ ip ->
  yaml_line (in_peer c (ps ++ [p]) true) (lit "      - " ++ ip) =
  Some (in_peer c (ps ++ [push_allowed ip p]) true).
Proof.
  intros [Hv _] Hc. change (lit "      - " ++ ip) with (replicate 6 x20 ++ lit "- " ++ ip).
  rewrite indented_line; [|split; [by apply (bool_decide_unpack _)|]|done].
  2:{ rewrite last_app. destruct Hv as [_ Hv]. by destruct (last ip). }
  unfold peer_line. cbn [in_peer y_section].
  change (take 2 (lit "- " ++ ip)) with (lit "- "). change (drop 2 (lit "- " ++ ip)) with ip.
  rewrite bool_decide_eq_true_2, (trim_value _ Hv) by done. unfold peer_item_line, yaml_split_key_value.
  assert (split_first COLON ip = None) as ->.
  { destruct (split_first COLON ip) as [[a b]|] eqn:E; [|done]. apply split_first_eq in E as [-> _].
    exfalso. apply Hc, elem_of_app. right. by left. }
  rewrite (proj2 (Nat.eqb_neq _ _)) by (destruct Hv as [Hv _]; by destruct ip).
  cbn [in_peer y_config cf_peers in_peer_item in_allowed negb andb].
  rewrite length_app, Nat.add_1_r. cbn [Nat.eqb negb]. by rewrite update_back_snoc.
Qed.

Lemma read_allowed_ips c ps ips : forall p rest,
  Forall (λ ip, yaml_value ip /\ COLON ∉ ip) ips ->
  yaml_lines (in_peer c (ps ++ [p]) true) (map (λ ip, lit "      - " ++ ip) ips ++ rest) =
  yaml_lines (in_peer c (ps ++ [mkPeerConfig (pc_endpoint p) (pc_public_key p)
                                  (pc_allowed_ips p ++ ips)]) true) rest.
Proof.
  induction ips as [|ip ips IH]; intros p rest Hips; cbn [map app].
  { rewrite app_nil_r. by destruct p. }
  apply Forall_cons_1 in Hips as [[Hv Hc] Hips].
  rewrite (yaml_lines_cons _ _ _ _ (read_allowed_ip c ps p ip Hv Hc)), IH by done.
  cbn [pc_endpoint pc_public_key pc_allowed_ips push_allowed]. by rewrite <- app_assoc.
Qed.

Lemma read_peer c y ps p rest : peer_exportable p ->
  y_config y = mkAppConfig (iface c) (cf_network_id c) (cf_invite c) ps -> y_section y = SectionPeers ->
  yaml_lines y (peer_lines p ++ rest) = yaml_lines (in_peer c (ps ++ [p]) true) rest.
Proof.
  intros (He & Hk & _ & Ha) Hy Hs. unfold peer_lines. cbn [app].
  rewrite (yaml_lines_cons _ _ _ _ (read_peer_endpoint y _ Hy _ Hs He)).
  unfold set_peers, set_config. cbn [y_config cf_peers iface cf_network_id cf_invite y_section in_peer_item in_allowed].
  fold (in_peer c (ps ++ [mkPeerConfig (pc_endpoint p) zero32 []]) false).
  rewrite (yaml_lines_cons _ _ _ _ (read_peer_key c ps _ false _ Hk)).
  rewrite (yaml_lines_cons _ _ _ _ (read_allowed_key c ps _ false)).
  rewrite read_allowed_ips by done. by destruct p.
Qed.

Lemma read_peers c qs : forall y ps, Forall peer_exportable qs ->
  y_config y = mkAppConfig (iface c) (cf_network_id c) (cf_invite c) ps -> y_section y = SectionPeers ->
  exists y', yaml_lines y (flat_map peer_lines qs) = Some y' /\
    y_config y' = mkAppConfig (iface c) (cf_network_id c) (cf_invite c) (ps ++ qs).
Proof.
  induction qs as [|q qs IH]; intros y ps Hq Hy Hs; cbn [flat_map].
  { exists y. by rewrite app_nil_r. }
  apply Forall_cons_1 in Hq as [Hq Hqs]. rewrite (read_peer c y ps q) by done.
  destruct (IH (in_peer c (ps ++ [q]) true) (ps ++ [q]) Hqs eq_refl eq_refl) as (y' & -> & Hy').
  exists y'. split; [done|]. by rewrite Hy', <- app_assoc.
Qed.

Lemma safe_mtu_bounds m d b : is_Some (safe_overlay_mtu m d b) ->
  OUTER_IPV4_UDP_OVERHEAD < m <= MAXIMUM_IPV4_MTU /\ DIRECT_ROUTE_DEPTH <= d <= ONION_MAX_HOPS /\
  is_supported_session_padding_bucket b = true.
Proof.
  unfold safe_overlay_mtu. destruct (Z.ltb_spec MAXIMUM_IPV4_MTU m); [by intros []|].
  destruct (wire_overhead_for_route_depth d b) as [o|] eqn:E; [|by intros []].
  destruct (Z.ltb_spec m (o + MINIMUM_IPV4_MTU)); [by intros []|]. intros _.
  unfold wire_overhead_for_route_depth in E.
  destruct (Z.ltb_spec d DIRECT_ROUTE_DEPTH); [done|]. destruct (Z.ltb_spec ONION_MAX_HOPS d); [done|].
  destruct (is_supported_session_padding_bucket b) eqn:Hb; [|done]. cbn [orb negb] in E.
  unfold session_frame_overhead, session_max_padding_for_bucket in E. rewrite Hb in E.
  apply supported_bucket_cases in Hb.
  unfold MAXIMUM_IPV4_MTU, DIRECT_ROUTE_DEPTH, ONION_MAX_HOPS, MINIMUM_IPV4_MTU, PACKET_HEADER_SIZE,
    SESSION_LENGTH_PREFIX_SIZE, OUTER_IPV4_UDP_OVERHEAD, RELAY_SOURCE_OVERHEAD, ONION_OVERHEAD in *.
  destruct (1 <? d); injection E as <-; split_and!; done || lia.
Qed.

(** The inner MTU granted is one an IPv4 interface can have. *)
Lemma safe_mtu_range m d b mtu :
  safe_overlay_mtu m d b = Some mtu -> MINIMUM_IPV4_MTU <= mtu <= MAXIMUM_IPV4_MTU.
Proof.
  intros Hm. destruct (safe_mtu_bounds m d b ltac:(by eexists)) as (_ & Hd & Hb).
  unfold safe_overlay_mtu, wire_overhead_for_route_depth in Hm.
  rewrite Hb, (proj2 (Z.ltb_ge d _)), (proj2 (Z.ltb_ge _ d)) in Hm by lia. cbn [orb negb] in Hm.
  unfold session_frame_overhead, session_max_padding_for_bucket in Hm. rewrite Hb in Hm.
  apply supported_bucket_cases in Hb.
  unfold MAXIMUM_IPV4_MTU, DIRECT_ROUTE_DEPTH, ONION_MAX_HOPS, MINIMUM_IPV4_MTU, PACKET_HEADER_SIZE,
    SESSION_LENGTH_PREFIX_SIZE, OUTER_IPV4_UDP_OVERHEAD, RELAY_SOURCE_OVERHEAD, ONION_OVERHEAD in *.
  repeat case_match; simplify_eq; lia.
Qed.

Lemma safe_mtu_ranges m d b : is_Some (safe_overlay_mtu m d b) ->
  1 <= m <= MAXIMUM_IPV4_MTU /\ DIRECT_ROUTE_DEPTH <= d <= ONION_MAX_HOPS /\
  is_supported_session_padding_bucket b = true.
Proof. intros (Hm & Hd & Hb)%safe_mtu_bounds. unfold OUTER_IPV4_UDP_OVERHEAD in Hm. split_and!; done || lia. Qed.

Lemma default_address_parses : is_Some (parse_interface (lit "10.10.0.1/24")).
Proof. apply (bool_decide_unpack _). by vm_compute. Qed.

Lemma exported_address_parses c : exportable c -> is_Some (parse_interface (exported_address (iface c))).
Proof.
  intros (Ha & _). unfold exported_address. destruct Ha as [->|Ha]; [apply default_address_parses|].
  destruct (Nat.eqb_spec (length (if_address (iface c))) 0); [apply default_address_parses|done].
Qed.

Lemma exported_port_range c : exportable c -> 1 <= exported_port (iface c) <= 65535.
Proof.
  intros (_ & Hp & _). unfold exported_port. destruct (Z.eqb_spec (if_listen_port (iface c)) 0); lia.
Qed.

(** Read the next line with its lemma. *)
Ltac read_line lemma := erewrite yaml_lines_cons; [|by apply lemma].

(** The interface section. *)
Lemma read_interface_section c rest : exportable c ->
  let i := iface c in
  yaml_lines yaml_init
    ([lit "interface:"; lit "  address: " ++ exported_address i;
      lit "  listen_port: " ++ to_string (exported_port i);
      lit "  underlay_mtu: " ++ to_string (if_underlay_mtu i);
      lit "  max_relay_depth: " ++ to_string (if_max_relay_depth i);
      lit "  padding_bucket_size: " ++ to_string (if_padding_bucket_size i)] ++
     match if_stun_server i with Some s => [lit "  stun_server: " ++ s] | None => [] end ++ rest) =
  yaml_lines (mkYaml (mkAppConfig (iface (exported c [])) None None []) SectionInterface false false) rest.
Proof.
  intros Hx i. pose proof (exported_address_parses c Hx) as Ha. pose proof (exported_port_range c Hx) as Hp.
  destruct Hx as (_ & _ & Hm & Hst & _). apply safe_mtu_ranges in Hm as (Hm & Hd & Hb).
  cbn [app]. set (tail := _ ++ rest). 
  rewrite (yaml_lines_cons yaml_init (mkYaml default_app SectionInterface false false)) by done.
  read_line read_address.
  read_line read_listen_port.
  read_line read_underlay_mtu.
  read_line read_max_relay_depth.
  read_line read_bucket.
  subst tail. unfold exported. cbn [iface]. subst i. destruct (if_stun_server (iface c)) as [s|]; [|done].
  cbn [app]. specialize (Hst s eq_refl). by read_line read_stun_server.
Qed.

(** The identity section. *)
Lemma read_identity_section c y nid rest : exportable c -> is32 nid ->
  y_config y = mkAppConfig (iface (exported c [])) None None [] ->
  yaml_lines y ([[]; lit "identity:"; lit "  network_id: " ++ to_hex nid] ++
    match cf_invite c with Some s => [lit "  invite: " ++ s] | None => [] end ++ rest) =
  yaml_lines (mkYaml (mkAppConfig (iface (exported c [])) (Some nid) (cf_invite c) [])
                SectionIdentity false false) rest.
Proof.
  intros (_ & _ & _ & _ & Hin & _) Hn Hy. cbn [app]. set (tail := _ ++ rest).
  rewrite (yaml_lines_cons _ _ _ _ (blank_line y)).
  rewrite (yaml_lines_cons y (mkYaml (y_config y) SectionIdentity false false)) by done.
  rewrite Hy. clear Hy. read_line read_network_id.
  subst tail. destruct (cf_invite c) as [s|]; [|done]. cbn [app].
  specialize (Hin s eq_refl). by read_line read_invite_line.
Qed.

Lemma no_newline_app a b : bool_decide (NEWLINE ∉ a) = true -> yaml_value b -> NEWLINE ∉ a ++ b.
Proof. intros Ha%bool_decide_eq_true [_ Hb]. rewrite not_elem_of_app. by split. Qed.

Lemma export_lines_clean c nid : exportable c -> is32 nid -> Forall (λ l, NEWLINE ∉ l) (export_lines c nid).
Proof.
  intros Hx Hn. destruct (exported_address_parses c Hx) as [r Ha].
  destruct (parse_interface_chars _ _ Ha) as [Hane Hac]. pose proof (exported_port_range c Hx) as Hp.
  destruct Hx as (_ & _ & Hm & Hst & Hin & Hps). apply safe_mtu_ranges in Hm as (Hm & Hd & Hb).
  apply supported_bucket_cases in Hb.
  unfold MAXIMUM_IPV4_MTU, DIRECT_ROUTE_DEPTH, ONION_MAX_HOPS in *. unfold export_lines. cbv zeta.
  repeat (apply Forall_app; split).
  - repeat (apply Forall_cons_2; [|]); [by apply (bool_decide_unpack _)|..|apply Forall_nil_2];
      apply no_newline_app; try done; [by apply address_value|apply number_value; lia..].
  - destruct (if_stun_server (iface c)) as [s|]; [|constructor]. apply Forall_singleton.
    apply no_newline_app; [done|auto].
  - repeat (apply Forall_cons_2; [|]); [by apply (bool_decide_unpack _)..| |apply Forall_nil_2].
    apply no_newline_app; [done|by apply hex_value].
  - destruct (cf_invite c) as [s|]; [|constructor]. apply Forall_singleton.
    apply no_newline_app; [done|auto].
  - destruct (cf_peers c) as [|p ps]; [constructor|]. apply Forall_app. split.
    { repeat (apply Forall_cons_2; [by apply (bool_decide_unpack _)|]). apply Forall_nil_2. }
    apply Forall_flat_map, (Forall_impl _ _ _ Hps). intros q (He & Hk & _ & Hi). unfold peer_lines.
    apply Forall_app. split.
    + repeat (apply Forall_cons_2; [|]); [apply no_newline_app; [done|]..|by apply (bool_decide_unpack _)|apply Forall_nil_2];
        [done|by apply hex_value].
    + apply Forall_fmap, (Forall_impl _ _ _ Hi). intros ip [Hv _]. by apply no_newline_app.
Qed.

Lemma peers_complete ps : Forall peer_exportable ps -> forallb peer_complete ps = true.
Proof.
  intros Hps. apply forallb_forall. intros p Hp%list_elem_of_In. rewrite Forall_forall in Hps.
  destruct (Hps p Hp) as ([[He _] _] & _ & Hk & _). unfold peer_complete.
  rewrite bool_decide_eq_false_2 by done. by destruct (pc_endpoint p).
Qed.

Lemma exported_complete c nid : exportable c -> complete_config (exported c nid) = true.
Proof.
  intros Hx. destruct (exported_address_parses c Hx) as [r Ha].
  destruct (parse_interface_chars _ _ Ha) as [Hne _]. pose proof (exported_port_range c Hx) as Hp.
  destruct Hx as (_ & _ & Hm & _ & _ & Hps). unfold complete_config, exported.
  cbn [iface if_address if_listen_port if_underlay_mtu if_max_relay_depth if_padding_bucket_size cf_peers].
  rewrite (proj2 (Nat.eqb_neq _ _)) by (by destruct (exported_address (iface c))).
  rewrite (proj2 (Z.eqb_neq _ _)) by lia. rewrite bool_decide_eq_true_2, peers_complete by done. done.
Qed.

(** ** What is read is in range *)

(** The values [parse_yaml] lets through, field by field. *)
Definition interface_ok (i : InterfaceConfig) : Prop :=
  (if_address i = [] \/ is_Some (parse_interface (if_address i))) /\ u16 (if_listen_port i) /\
  (forall s, if_stun_server i = Some s -> s <> []).

Definition peer_ok (p : PeerConfig) : Prop := is32 (pc_public_key p).

Definition app_ok (c : AppConfig) : Prop :=
  interface_ok (iface c) /\ (forall k, cf_network_id c = Some k -> is32 k) /\
  (forall s, cf_invite c = Some s -> s <> []) /\ Forall peer_ok (cf_peers c).

Lemma wrap_u16 n : u16 (wrap 16 n).
Proof. apply Z.mod_pos_bound. lia. Qed.

Lemma parse_port_u16 v p : parse_port v = Some p -> u16 p.
Proof. unfold parse_port. repeat case_match; try done. intros [= <-]. apply wrap_u16. Qed.

Lemma parse_key_is32 v k : parse_key32 v = Some k -> is32 k.
Proof.
  unfold parse_key32. destruct (parse_hex_bytes v) as [bs|]; [|done].
  destruct (Nat.eqb_spec (length bs) 32); [|done]. by intros [= <-].
Qed.

Lemma nonempty_text (s : list byte) : Nat.eqb (length s) 0 = false -> s <> [].
Proof. by destruct s. Qed.

Lemma app_ok_peers c f : app_ok c -> (forall p, peer_ok p -> peer_ok (f p)) ->
  Forall peer_ok (update_back f (cf_peers c)).
Proof.
  intros (_ & _ & _ & Hp) Hf. unfold update_back. apply Forall_alter; [done|]. intros p _. apply Hf.
Qed.

Lemma interface_line_ok l y y' : app_ok (y_config y) -> interface_line l y = Some y' -> app_ok (y_config y').
Proof.
  intros ((Ha & Hp & Hs) & Hrest) E. unfold interface_line in E.
  repeat case_match; try done; injection E as <-; (split; [|exact Hrest]);
    unfold set_iface, interface_ok; cbn; split_and!; try done; eauto using parse_port_u16.
  intros s [= <-]. by apply nonempty_text.
Qed.

Lemma identity_line_ok l y y' : app_ok (y_config y) -> identity_line l y = Some y' -> app_ok (y_config y').
Proof.
  intros (Hi & Hn & Hv & Hp) E. unfold identity_line, parse_network_id in E.
  repeat case_match; try done; injection E as <-; unfold app_ok; cbn; split_and!; try done.
  - intros k [= <-]. eauto using parse_key_is32.
  - intros s [= <-]. by apply nonempty_text.
Qed.

Lemma peer_line_ok l y y' : app_ok (y_config y) -> peer_line l y = Some y' -> app_ok (y_config y').
Proof.
  intros Hok E. pose proof Hok as (Hi & Hn & Hv & Hp).
  assert (forall ps, Forall peer_ok ps -> app_ok (mkAppConfig (iface (y_config y)) (cf_network_id (y_config y))
    (cf_invite (y_config y)) ps)) as Hset by (intros ps Hps; unfold app_ok; by cbn).
  assert (forall k f v, parse_public_key v = Some k -> app_ok f ->
    Forall peer_ok (update_back (set_public_key k) (cf_peers f))) as Hkey.
  { intros k f v Hk Hf. apply app_ok_peers; [done|]. intros p _. by apply parse_key_is32 in Hk. }
  assert (app_ok (mkAppConfig (iface (y_config y)) (cf_network_id (y_config y)) (cf_invite (y_config y))
    (cf_peers (y_config y) ++ [no_peer_config]))) as Hnew.
  { apply Hset, Forall_app. split; [done|]. apply Forall_singleton. done. }
  unfold peer_line, peer_item_line in E. repeat case_match; try done; injection E as <-;
    unfold set_peers, set_config; cbn [y_config]; try done; apply Hset.
  all: first [by apply (app_ok_peers _ _ Hok)|by apply (app_ok_peers _ _ Hnew)
             |by eapply (Hkey _ _ _ ltac:(eassumption) Hok)|by eapply (Hkey _ _ _ ltac:(eassumption) Hnew)].
Qed.

Lemma yaml_line_ok l y y' : app_ok (y_config y) -> yaml_line y l = Some y' -> app_ok (y_config y').
Proof.
  intros Hok. unfold yaml_line. destruct (_ <? _); [by intros [= <-]|].
  destruct (Nat.eqb _ _); [by intros [= <-]|]. destruct (_ =? _).
  - unfold top_level_line. repeat case_match; try done; by intros [= <-].
  - destruct (y_section y); [done|by apply interface_line_ok|by apply identity_line_ok|by apply peer_line_ok].
Qed.

Lemma yaml_lines_ok ls : forall y y', app_ok (y_config y) -> yaml_lines y ls = Some y' -> app_ok (y_config y').
Proof.
  induction ls as [|l ls IH]; intros y y' Hok; cbn [yaml_lines]; [by intros [= <-]|].
  destruct (yaml_line y l) as [y1|] eqn:E; [|done]. apply IH. by apply (yaml_line_ok l y).
Qed.

Lemma default_app_ok : app_ok default_app.
Proof. unfold app_ok, interface_ok. cbn. split_and!; try done. by left. Qed.

(** A configuration a node can be started from. *)
Definition config_in_range (c : AppConfig) : Prop :=
  let i := iface c in
  is_Some (parse_interface (if_address i)) /\ 1 <= if_listen_port i <= 65535 /\
  is_Some (safe_overlay_mtu (if_underlay_mtu i) (if_max_relay_depth i) (if_padding_bucket_size i)) /\
  (forall s, if_stun_server i = Some s -> s <> []) /\
  (forall k, cf_network_id c = Some k -> is32 k) /\ (forall s, cf_invite c = Some s -> s <> []) /\
  Forall (λ p, pc_endpoint p <> [] /\ is32 (pc_public_key p) /\ pc_public_key p <> zero32) (cf_peers c).

Lemma parse_yaml_in_range text c : parse_yaml text = Some c -> config_in_range c.
Proof.
  unfold parse_yaml. destruct (yaml_lines _ _) as [y|] eqn:E; [|done].
  destruct (complete_config _) eqn:Hc; [|done]. intros [= <-].
  apply (yaml_lines_ok _ yaml_init _ default_app_ok) in E as ((Ha & Hp & Hs) & Hn & Hv & Hps).
  unfold complete_config in Hc. rewrite !andb_true_iff, !negb_true_iff, Z.eqb_neq, bool_decide_eq_true in Hc.
  destruct Hc as [[[Hne Hp0] Hm] Hall]. apply nonempty_text in Hne. unfold in_width in Hp.
  unfold config_in_range. split_and!; try done; try lia; [by destruct Ha as [Ha|Ha]|].
  rewrite forallb_forall in Hall. apply Forall_forall. intros p Hin. rewrite Forall_forall in Hps.
  specialize (Hall p (proj1 (list_elem_of_In _ _) Hin)). unfold peer_complete in Hall.
  rewrite andb_true_iff, !negb_true_iff, bool_decide_eq_false in Hall. destruct Hall as [He Hk].
  split_and!; [by apply nonempty_text|by apply Hps|done].
Qed.

Lemma skip_of_subset set s c : c ∈ skip_of set s -> c ∈ s.
Proof.
  induction s as [|d s IH]; [done|]. cbn [skip_of]. case_bool_decide; [|done]. intros Hc. right. auto.
Qed.

Lemma yaml_trim_subset s c : c ∈ yaml_trim s -> c ∈ s.
Proof.
  unfold yaml_trim. rewrite list_elem_of_In, <- in_rev, <- list_elem_of_In.
  intros Hc%skip_of_subset. rewrite list_elem_of_In, <- in_rev, <- list_elem_of_In in Hc.
  by apply skip_of_subset in Hc.
Qed.

Lemma split_first_none sep s : split_first sep s = None -> sep ∉ s.
Proof.
  induction s as [|c s IH]; cbn [split_first]; [intros _; apply not_elem_of_nil|].
  destruct (decide (c = sep)); [done|]. destruct (split_first sep s) as [[]|]; [done|].
  intros _. apply not_elem_of_cons. split; [congruence|auto].
Qed.

(** The text of an IPv6 prefix contains a colon. *)
Lemma ipv6_has_colon text p :
  parse_prefix text = Some p -> family (prefix_address p) = IPv6 -> ~ (COLON ∉ text).
Proof.
  unfold parse_prefix, split_cidr. destruct (split_first SLASH text) as [[l r]|] eqn:E; [|done].
  apply split_first_eq in E as [-> _]. destruct (_ || _) in |- *; [done|].
  destruct (parse_address l) as [a|] eqn:Ea; [|done]. destruct (length_from _ _ _); [|done].
  destruct (_ <? _); [done|]. intros [= <-]. unfold make_prefix.
  destruct (canonicalize_shape (mkPrefix a (wrap 8 z))) as [-> _]. cbn [prefix_address].
  intros Hf Hc. rewrite not_elem_of_app in Hc. destruct Hc as [Hc _].
  unfold parse_address in Ea. destruct l as [|c l]; [done|]. rewrite bool_decide_eq_false_2 in Ea by done.
  unfold parse_ipv4 in Ea. by repeat case_match; simplify_eq.
Qed.

(** ** Properties *)

(** C27: An exported configuration loads as itself.  When the text values are free of line
    breaks and surrounding blanks, the address is a CIDR address and no [allowed_ips] entry
    contains a colon, [parse_yaml] of what [/config export] writes returns the configuration,
    with the network id of the identity, and the default address and port where they were
    unset. *)
Theorem exported_config_loads c network_id :
  exportable c -> is32 network_id ->
  parse_yaml (export_config c network_id) = Some (exported c network_id).
Proof.
  intros Hx Hn. unfold parse_yaml. rewrite export_config_lines, pieces_lines by (by apply export_lines_clean).
  unfold export_lines. cbv zeta. rewrite read_interface_section by done.
  rewrite (read_identity_section c) by done. pose proof (exported_complete c network_id Hx) as Hc.
  pose proof Hx as (_ & _ & _ & _ & _ & Hps).
  assert (forall ps, cf_peers c = ps -> exported c network_id = mkAppConfig (iface (exported c []))
    (Some network_id) (cf_invite c) ps) as He by (intros ps <-; done).
  destruct (cf_peers c) as [|p ps].
  { cbn [yaml_lines y_config]. rewrite <- He by done. by rewrite Hc. }
  cbn [app]. erewrite yaml_lines_cons; [|apply blank_line].
  erewrite (yaml_lines_cons _ (mkYaml _ SectionPeers false false) (lit "peer:")); [|reflexivity].
  match goal with |- context [yaml_lines ?y (flat_map peer_lines _)] =>
    destruct (read_peers (exported c network_id) (p :: ps) y [] Hps eq_refl eq_refl) as (y' & -> & Hy')
  end.
  replace (y_config y') with (exported c network_id); [by rewrite Hc|]. rewrite Hy'. by apply He.
Qed.

(** Only configurations in range are loaded.  What [parse_yaml] accepts has an interface
    address that is a CIDR address, a port between 1 and 65535, an MTU, relay depth and
    padding bucket for which the MTU contract holds, and peers with an endpoint and a nonzero
    32-byte key: on any other file it returns an error and keeps the old configuration. *)
Theorem loaded_config_in_range text c : parse_yaml text = Some c -> config_in_range c.
Proof. apply parse_yaml_in_range. Qed.

(** No file can give a peer an IPv6 prefix.  In every state of the reader inside the peer
    section, a list item that is the text of an IPv6 prefix is taken for a new peer with an
    unknown key, and the whole file is refused. *)
Theorem ipv6_allowed_ip_is_refused y k text p rest :
  y_section y = SectionPeers -> parse_prefix text = Some p -> family (prefix_address p) = IPv6 ->
  yaml_lines y ((replicate (S k) x20 ++ lit "- " ++ text) :: rest) = None.
Proof.
  intros Hs Hp Hf. destruct (parse_prefix_chars _ _ Hp) as [Hne Hc].
  destruct (address_value text Hne Hc) as [Hv _]. cbn [yaml_lines].
  rewrite indented_line; [|split; [by apply (bool_decide_unpack _)|]|done].
  2:{ rewrite last_app. destruct Hv as [_ Hv]. by destruct (last text). }
  rewrite Hs. unfold peer_line.
  change (take 2 (lit "- " ++ text)) with (lit "- "). change (drop 2 (lit "- " ++ text)) with text.
  rewrite bool_decide_eq_true_2, (trim_value _ Hv) by done.
  destruct (split_first COLON text) as [[key v]|] eqn:E.
  - unfold peer_item_line, yaml_split_key_value. rewrite E.
    apply split_first_eq in E as [-> _]. apply Forall_app in Hc as [Hk _].
    destruct (Nat.eqb _ _); [done|].
    assert (x6e ∉ yaml_trim key /\ x75 ∉ yaml_trim key) as [Hn Hu].
    { split; intros Hin%yaml_trim_subset; rewrite Forall_forall in Hk; apply Hk in Hin;
        destruct Hin as [[? Hh]|[?|[?|?]]]; done. }
    rewrite !bool_decide_eq_false_2; [done|..].
    + intros Ek. apply Hu. rewrite Ek. by apply (bool_decide_unpack _).
    + intros Ek. apply Hn. rewrite Ek. by apply (bool_decide_unpack _).
  - exfalso. apply (ipv6_has_colon _ _ Hp Hf). by apply split_first_none.
Qed.

(** ** Concrete instances *)

Definition sample_app : AppConfig :=
  mkAppConfig
    (mkInterface (lit "fd00::1/64") 51820 1500 3 64 (Some (lit "stun.example.net:3478"))) None None
    [mkPeerConfig (lit "203.0.113.2:51821") (replicate 32 x02) [lit "10.20.0.0/24"; lit "10.30.0.0/16"]].

Lemma sample_exportable : exportable sample_app.
Proof.
  unfold exportable. cbn [iface sample_app if_address if_listen_port if_underlay_mtu if_max_relay_depth
    if_padding_bucket_size if_stun_server cf_invite cf_peers].
  split_and!; [right|lia..| | |done|].
  - apply (bool_decide_unpack _). by vm_compute.
  - apply (bool_decide_unpack _). by vm_compute.
  - intros s [= <-]. apply clean_value; [done|]. apply (bool_decide_unpack _). by vm_compute.
  - apply Forall_singleton. unfold peer_exportable. cbn [pc_endpoint pc_public_key pc_allowed_ips].
    split_and!; [|done|done|].
    + apply clean_value; [done|]. apply (bool_decide_unpack _). by vm_compute.
    + repeat (apply Forall_cons_2; [|]); [..|apply Forall_nil_2];
        (split; [apply clean_value; [done|]|]); apply (bool_decide_unpack _); by vm_compute.
Qed.

Lemma exported_config_loads_witness :
  parse_yaml (export_config sample_app (replicate 32 x09)) =
  Some (mkAppConfig (iface sample_app) (Some (replicate 32 x09)) None (cf_peers sample_app)).
Proof. apply (exported_config_loads sample_app); [apply sample_exportable|reflexivity]. Defined.

Lemma loaded_config_in_range_witness :
  exists c, parse_yaml (export_config sample_app (replicate 32 x09)) = Some c /\ config_in_range c.
Proof.
  exists (exported sample_app (replicate 32 x09)).
  assert (parse_yaml (export_config sample_app (replicate 32 x09)) =
    Some (exported sample_app (replicate 32 x09))) as E by (by vm_compute).
  split; [exact E|]. apply (loaded_config_in_range _ _ E).
Defined.

Lemma ipv6_allowed_ip_is_refused_witness :
  is_Some (parse_prefix (lit "fd00:20::/32")) /\
  yaml_lines (in_peer sample_app (cf_peers sample_app) true) [lit "      - fd00:20::/32"] = None.
Proof.
  assert (is_Some (parse_prefix (lit "fd00:20::/32"))) as Hp
    by (apply (bool_decide_unpack _); by vm_compute). split; [exact Hp|].
  destruct Hp as [p Hp]. apply (ipv6_allowed_ip_is_refused _ 5 (lit "fd00:20::/32") p []);
    [reflexivity|exact Hp|]. vm_compute in Hp. injection Hp as <-. reflexivity.
Defined.
