(* ===== verification/Discovery.v ===== *)
(** * LAN discovery ([src/discovery/discovery.cpp])

    The presence frames a node broadcasts, the table of presences it has heard, and the service
    that announces: [start], [stop] and the rounds of the announcing thread.  What the socket
    answers is an argument, and so is a frame that arrives. *)

From Stdlib Require Import ZArith Lia Bool.
From Stdlib.Strings Require Import Byte.
From stdpp Require Import base numbers gmap option list.
From S2P Require Import Prelude Wire Packet Crypto Identity IpAddress Endpoint.

Definition DISCOVERY_PORT : Z := 45950.
Definition DISCOVERY_PAYLOAD_SIZE : Z := 102.
Definition DISCOVERY_FRAME_SIZE : nat := 118.

Record Presence := mkPresence {
  pr_node_id : NodeId;
  pr_network_id : NetworkId;
  pr_creator : NodeId;
  pr_endpoint : Endpoint;
  reachable_endpoint : Endpoint;
  last_seen_ms : Z;
}.

(** [Endpoint{}]. *)
Definition no_endpoint : Endpoint := mkEndpoint no_ip 0.

Definition presence_header : PacketHeader :=
  mkPacketHeader PACKET_VERSION TYPE_DISCOVERY 0 0 0 0 DISCOVERY_PAYLOAD_SIZE.

(** An empty buffer when the endpoint has no IPv4 address. *)
Definition build_presence (id : Identity) (e : Endpoint) : list byte :=
  if negb (is_ipv4 e) then []
  else default [] (encode_exact DISCOVERY_FRAME_SIZE
    (write_bytes (serialize_packet_header presence_header) &> write_bytes (node_id id) &>
     write_bytes (network_id id) &> write_bytes (creator_node_id id) &>
     write_u32 (ntohl (ipv4_network e)) &> write_u16 (ntohs (port e)))).

(** [htonl] and [htons] are [ntohl] and [ntohs]. *)
Definition parse_presence (data : list byte) : option Presence :=
  if negb (Nat.eqb (length data) DISCOVERY_FRAME_SIZE) then None
  else
    let '(header_bytes, r) := read_bytes (Z.to_nat PACKET_HEADER_SIZE) (wire_reader data) in
    match header_bytes with
    | None => None
    | Some header_bytes =>
        match parse_packet_header header_bytes with
        | None => None
        | Some h =>
            if negb (version h =? PACKET_VERSION) || negb (packet_type h =? TYPE_DISCOVERY) ||
               negb (flags h =? 0) || negb (reserved h =? 0) || negb (session_id h =? 0) ||
               negb (sequence_number h =? 0) ||
               negb (payload_length h =? DISCOVERY_PAYLOAD_SIZE) then None
            else
              let '(node, r) := read_bytes NODE_ID_SIZE r in
              let '(network, r) := read_bytes NETWORK_ID_SIZE r in
              let '(creator, r) := read_bytes NODE_ID_SIZE r in
              let '(ip, r) := read_u32 r in
              let '(prt, r) := read_u16 r in
              match node, network, creator, ip, prt with
              | Some node, Some network, Some creator, Some ip, Some prt =>
                  if negb (rd_finished r) then None
                  else Some (mkPresence node network creator
                               (ipv4_endpoint (ntohl ip) (ntohs prt)) no_endpoint 0)
              | _, _, _, _, _ => None
              end
        end
    end.

Definition parse_received_presence (data : list byte) (sender : Endpoint) (self : NodeId)
    (observed_at_ms : Z) : option Presence :=
  match parse_presence data with
  | None => None
  | Some p =>
      if bool_decide (pr_node_id p = self) then None
      else Some (mkPresence (pr_node_id p) (pr_network_id p) (pr_creator p) (pr_endpoint p)
                   (mkEndpoint (address sender) (port (pr_endpoint p))) observed_at_ms)
  end.

(** The receive callback; [now] is the clock in nanoseconds. *)
Definition on_presence (self : NodeId) (data : list byte) (sender : Endpoint) (now : Z)
    (presences : gmap NodeId Presence) : gmap NodeId Presence :=
  match parse_received_presence data sender self (to_ms now) with
  | None => presences
  | Some p => <[pr_node_id p := p]> presences
  end.

(** ** The frame *)

Definition presence_bytes (node network creator : list byte) (ip prt : Z) : list byte :=
  header_bytes presence_header ++ node ++ network ++ creator ++ be_split 4 ip ++ be_split 2 prt.

Lemma parse_presence_spec bs p :
  parse_presence bs = Some p <->
  exists node network creator ip prt,
    is32 node /\ is32 network /\ is32 creator /\ u32 ip /\ u16 prt /\
    bs = presence_bytes node network creator ip prt /\
    p = mkPresence node network creator (ipv4_endpoint (ntohl ip) (ntohs prt)) no_endpoint 0.
Proof.
  unfold parse_presence. rewrite wire_reader_at. split.
  - case_match; [done|]. intros H1. rd_inv_step H1.
    destruct (parse_packet_header _) as [h|] eqn:Hp; [|done].
    apply parse_packet_header_inv in Hp as [Hw ->].
    destruct (_ || _ || _ || _ || _ || _ || _) eqn:Hg; [done|].
    rewrite !orb_false_iff, !negb_false_iff, !Z.eqb_eq in Hg.
    do 5 rd_inv_step H1. rewrite rd_finished_at in H1.
    case_bool_decide; [|done]. cbn [negb] in H1. injection H1 as <-. subst.
    unfold presence_bytes. exists bs, bs0, bs1, v, v0. split_and!; try done.
    rewrite app_nil_r.
    replace h with presence_header; [done|]. destruct h; unfold presence_header. simpl in Hg.
    naive_solver.
  - intros (node & network & creator & ip & prt & Hn & Hne & Hc & Hi & Hp & -> & ->).
    unfold presence_bytes, is32 in *.
    rewrite (proj2 (Nat.eqb_eq _ _)); [|by rewrite !length_app, Hn, Hne, Hc]. cbn [negb].
    rewrite (read_bytes_ok (Z.to_nat PACKET_HEADER_SIZE)) by done.
    rewrite parse_packet_header_ok by (vm_compute; intuition discriminate).
    rewrite <- (app_nil_r (be_split 2 prt)).
    unfold NODE_ID_SIZE, NETWORK_ID_SIZE.
    match goal with |- (if ?b then _ else _) = _ => change b with false end.
    rd_run. by rewrite rd_finished_at.
Qed.

(** An IPv4 endpoint as the program builds them. *)
Definition announceable (e : Endpoint) : Prop :=
  exists ip prt, u32 ip /\ u16 prt /\ e = mkEndpoint (from_ipv4 ip) (ntohs prt).

Lemma build_presence_bytes id ip prt :
  is32 (node_id id) -> is32 (network_id id) -> is32 (creator_node_id id) -> u32 ip -> u16 prt ->
  build_presence id (mkEndpoint (from_ipv4 ip) (ntohs prt)) =
    presence_bytes (node_id id) (network_id id) (creator_node_id id) ip prt.
Proof.
  unfold is32. intros Hn Hw Hc Hi Hp. unfold build_presence.
  change (negb (is_ipv4 _)) with false. cbv iota.
  rewrite network_ipv4_endpoint by done. cbn [port]. rewrite ntohs_involutive by done.
  rewrite serialize_packet_header_bytes. unfold presence_bytes.
  erewrite encode_exact_emits by solve_emits.
  rewrite decide_True; [done|]. by rewrite !length_app, Hn, Hw, Hc.
Qed.

(** A node that hears the presence another one broadcasts records who it is and where it
    can be reached: the source address of the datagram with the announced port.  Its own
    presence, and every frame that is not a presence, leaves the table as it is. *)
Theorem presence_is_heard self data sender now presences :
  on_presence self data sender now presences =
    match parse_presence data with
    | Some p =>
        if bool_decide (pr_node_id p = self) then presences
        else <[pr_node_id p :=
               mkPresence (pr_node_id p) (pr_network_id p) (pr_creator p) (pr_endpoint p)
                 (mkEndpoint (address sender) (port (pr_endpoint p))) (to_ms now)]> presences
    | None => presences
    end /\
  forall id e, is32 (node_id id) -> is32 (network_id id) -> is32 (creator_node_id id) ->
    announceable e ->
    parse_presence (build_presence id e) =
      Some (mkPresence (node_id id) (network_id id) (creator_node_id id) e no_endpoint 0).
Proof.
  split.
  - unfold on_presence, parse_received_presence. destruct (parse_presence data); [|done].
    by case_bool_decide.
  - intros id e Hn Hw Hc (ip & prt & Hi & Hp & ->). rewrite build_presence_bytes by done.
    apply parse_presence_spec. exists (node_id id), (network_id id), (creator_node_id id), ip, prt.
    split_and!; try done. unfold ipv4_endpoint. by rewrite ntohl_involutive.
Qed.

(** ** The service *)

(** What the service does to its socket and its thread. *)
Inductive DiscoveryEvent :=
  | DBind (port : Z) (ok : bool)
  | DStartReceive (ok : bool)
  | DSpawn
  | DStopReceive
  | DJoin
  | DClose
  | DSend (data : list byte) (dest : Endpoint) (ok : bool).

Record DiscoveryService := mkService {
  ds_running : bool; ds_joinable : bool; ds_endpoint : Endpoint; ds_port : Z }.

Definition new_service : DiscoveryService := mkService false false no_endpoint DISCOVERY_PORT.

(** [bound] and [receiving] are the answers of the socket. *)
Definition discovery_start (bound receiving : bool) (e : Endpoint) (prt : Z)
    (s : DiscoveryService) : bool * list DiscoveryEvent * DiscoveryService :=
  if ds_running s then (true, [], s) else
  let s := mkService false (ds_joinable s) e prt in
  if negb bound then (false, [DBind prt false], s) else
  if negb receiving then (false, [DBind prt true; DStartReceive false], s) else
  (true, [DBind prt true; DStartReceive true; DSpawn], mkService true true e prt).

Definition discovery_stop (s : DiscoveryService) : list DiscoveryEvent * DiscoveryService :=
  ([DStopReceive] ++ (if ds_joinable s then [DJoin] else []) ++ [DClose],
   mkService false false (ds_endpoint s) (ds_port s)).

(** One round of the announcing thread: the loopback broadcast follows only when the first send
    went out. *)
Definition announce_round (id : Identity) (s : DiscoveryService) (first second : bool)
    : list DiscoveryEvent :=
  let packet := build_presence id (ds_endpoint s) in
  DSend packet (from_parts 255 255 255 255 (ds_port s)) first ::
  (if first then [DSend packet (from_parts 127 255 255 255 (ds_port s)) second] else []).

(** A service that ran and was stopped has closed what it opened, and can start again; the
    datagrams of its rounds are presences that every other node records. *)
Lemma discovery_lifecycle bound receiving e prt s ok es s' :
  ds_running s = false -> discovery_start bound receiving e prt s = (ok, es, s') ->
  ds_running s' = ok /\ (ok = true -> DSpawn ∈ es) /\
  ds_running (snd (discovery_stop s')) = false /\ DClose ∈ fst (discovery_stop s') /\
  (DSpawn ∈ es -> DJoin ∈ fst (discovery_stop s')).
Proof.
  intros Hr Hs. unfold discovery_start in Hs. rewrite Hr in Hs.
  destruct bound, receiving; simplify_eq/=; unfold discovery_stop;
    cbn [ds_running ds_joinable fst snd]; split_and!; try done;
    rewrite ?list_elem_of_In; destruct (ds_joinable s); cbn; naive_solver.
Qed.

Lemma announcement_is_presence id s first second data dest ok :
  is32 (node_id id) -> is32 (network_id id) -> is32 (creator_node_id id) ->
  announceable (ds_endpoint s) -> DSend data dest ok ∈ announce_round id s first second ->
  parse_presence data =
    Some (mkPresence (node_id id) (network_id id) (creator_node_id id) (ds_endpoint s) no_endpoint 0).
Proof.
  intros Hn Hw Hc He Hin. rewrite list_elem_of_In in Hin.
  assert (data = build_presence id (ds_endpoint s)) as ->.
  { unfold announce_round in Hin. destruct first; cbn in Hin; intuition congruence. }
  destruct He as (ip & prt & Hi & Hp & ->). rewrite build_presence_bytes by done.
  apply parse_presence_spec. exists (node_id id), (network_id id), (creator_node_id id), ip, prt.
  split_and!; try done. unfold ipv4_endpoint. by rewrite ntohl_involutive.
Qed.
