(* ===== verification/Probe.v ===== *)
(** * Path probes and endpoint punches

    The challenge/response exchanges of [src/routing/path_probe.cpp] and
    [src/protocol/endpoint_punch.cpp]: their messages and the trackers of the challenges
    in flight.  Both trackers are the same table of pending challenges, keyed by a
    non-zero identifier, with different targets and different checks on a reply. *)

From Stdlib Require Import ZArith Lia Bool.
From Stdlib.Strings Require Import Byte.
From stdpp Require Import base numbers gmap option sorting list.
From S2P Require Import Prelude Wire Crypto IpAddress Endpoint.

(** ** Messages *)

(** [PathProbeKind] and [EndpointPunchKind]; a cast can give any byte. *)
Inductive ProbeKind := Challenge | Response | OtherKind (raw : Z).

#[export] Instance probe_kind_eq_dec : EqDecision ProbeKind.
Proof. solve_decision. Defined.

Definition kind_value (k : ProbeKind) : Z :=
  match k with Challenge => 1 | Response => 2 | OtherKind raw => raw end.
Definition kind_of (raw : Z) : ProbeKind :=
  if raw =? 1 then Challenge else if raw =? 2 then Response else OtherKind raw.

Record PathProbeMessage := mkProbe {
  probe_kind : ProbeKind;
  probe_id : Z;
  probe_route_sequence : Z;
}.

Record EndpointPunchMessage := mkPunch {
  punch_kind : ProbeKind;
  transaction_id : Z;
}.

Definition PATH_PROBE_WIRE_SIZE : nat := 20.
Definition ENDPOINT_PUNCH_WIRE_SIZE : nat := 12.

Definition serialize_path_probe (p : PathProbeMessage) : option (list byte) :=
  let kind := kind_value (probe_kind p) in
  if (negb (kind =? 1) && negb (kind =? 2)) || (probe_id p =? 0) ||
     (probe_route_sequence p =? 0) then None
  else encode_exact PATH_PROBE_WIRE_SIZE
         (write_u8 1 &> write_u8 kind &> write_u16 0 &> write_u64 (probe_id p) &>
          write_u64 (probe_route_sequence p)).

Definition deserialize_path_probe (payload : list byte) : option PathProbeMessage :=
  let r := wire_reader payload in
  let '(version, r) := read_u8 r in
  let '(kind, r) := read_u8 r in
  let '(reserved, r) := read_u16 r in
  let '(id, r) := read_u64 r in
  let '(route_sequence, r) := read_u64 r in
  match version, kind, reserved, id, route_sequence with
  | Some version, Some kind, Some reserved, Some id, Some route_sequence =>
      if negb (rd_finished r) || negb (version =? 1) || negb (reserved =? 0) ||
         (negb (kind =? 1) && negb (kind =? 2)) || (id =? 0) || (route_sequence =? 0)
      then None
      else Some (mkProbe (kind_of kind) id route_sequence)
  | _, _, _, _, _ => None
  end.

Definition serialize_endpoint_punch (m : EndpointPunchMessage) : option (list byte) :=
  let kind := kind_value (punch_kind m) in
  if (negb (kind =? 1) && negb (kind =? 2)) || (transaction_id m =? 0) then None
  else encode_exact ENDPOINT_PUNCH_WIRE_SIZE
         (write_u8 1 &> write_u8 kind &> write_u16 0 &> write_u64 (transaction_id m)).

Definition deserialize_endpoint_punch (payload : list byte) : option EndpointPunchMessage :=
  let r := wire_reader payload in
  let '(version, r) := read_u8 r in
  let '(kind, r) := read_u8 r in
  let '(reserved, r) := read_u16 r in
  let '(id, r) := read_u64 r in
  match version, kind, reserved, id with
  | Some version, Some kind, Some reserved, Some id =>
      if negb (rd_finished r) || negb (version =? 1) || negb (reserved =? 0) ||
         (negb (kind =? 1) && negb (kind =? 2)) || (id =? 0)
      then None
      else Some (mkPunch (kind_of kind) id)
  | _, _, _, _ => None
  end.

(** ** The table of pending challenges *)

Section tracker.
Context {T : Type} `{EqDecision T}.

Record Pending := mkPending { target : T; sent_at : Z }.

Record Tracker := mkTracker {
  maximum_ : Z;
  timeout_ : Z;
  pending_ : gmap Z Pending;
}.

Definition tracker_init (maximum timeout : Z) : Tracker := mkTracker maximum timeout ∅.

Definition set_pending (m : gmap Z Pending) (t : Tracker) : Tracker :=
  mkTracker (maximum_ t) (timeout_ t) m.

(** [std::map] iteration: by increasing key. *)
Definition key_le (a b : Z * Pending) : Prop := fst a <= fst b.
#[export] Instance key_le_dec : RelDecision key_le := λ a b, Z.le_dec (fst a) (fst b).
Definition in_key_order (m : gmap Z Pending) : list (Z * Pending) :=
  merge_sort key_le (map_to_list m).

Definition contains_target (tg : T) (t : Tracker) : bool :=
  existsb (λ e, bool_decide (target (snd e) = tg)) (in_key_order (pending_ t)).

(** [begin]: [usable] are the checks on the identifier and the target. *)
Definition tracker_begin (usable : bool) (id : Z) (tg : T) (now : Z) (t : Tracker)
    : bool * Tracker :=
  if negb usable || (maximum_ t =? 0) || (timeout_ t <=? 0) then (false, t)
  else if (maximum_ t <=? Z.of_nat (size (pending_ t))) || contains (pending_ t) id
  then (false, t)
  else if contains_target tg t then (false, t)
  else (true, set_pending (<[id := mkPending tg now]> (pending_ t)) t).

(** [acknowledge]: [answers] are the checks of the reply against the target. *)
Definition tracker_acknowledge (answers : T -> bool) (id now : Z) (t : Tracker)
    : option Pending * Tracker :=
  match pending_ t !! id with
  | None => (None, t)
  | Some p =>
      if negb (answers (target p)) || (now <? sent_at p) ||
         (timeout_ t <=? now - sent_at p)
      then (None, t)
      else (Some p, set_pending (delete id (pending_ t)) t)
  end.

Definition timed_out (now timeout : Z) (p : Pending) : bool :=
  (sent_at p <=? now) && (timeout <=? now - sent_at p).

Definition tracker_expire (now : Z) (t : Tracker) : list (Z * Pending) * Tracker :=
  (filter (λ e, timed_out now (timeout_ t) (snd e) = true) (in_key_order (pending_ t)),
   set_pending (filter (λ e, timed_out now (timeout_ t) (snd e) = false) (pending_ t)) t).

Definition tracker_cancel (id : Z) (t : Tracker) : Tracker :=
  set_pending (delete id (pending_ t)) t.

Definition tracker_reset (t : Tracker) : Tracker := set_pending ∅ t.

End tracker.
Arguments Tracker : clear implicits.
Arguments Pending : clear implicits.

(** *** [PathProbeTracker] *)

Record PathProbeTarget := mkProbeTarget {
  destination : NodeId;
  next_hop : NodeId;
  prefix : IPAddress;
  prefix_length : Z;
  route_sequence : Z;
}.

#[export] Instance probe_target_eq_dec : EqDecision PathProbeTarget.
Proof. solve_decision. Defined.

Record PathProbeObservation := mkObservation {
  observed_target : PathProbeTarget;
  rtt : Z;
}.

Definition PathProbeTracker := Tracker PathProbeTarget.

Definition probe_begin (id : Z) (tg : PathProbeTarget) (now : Z) (t : PathProbeTracker)
    : bool * PathProbeTracker :=
  tracker_begin (negb (id =? 0) && negb (route_sequence tg =? 0)) id tg now t.

Definition probe_acknowledge (id : Z) (responder : NodeId) (sequence now : Z)
    (t : PathProbeTracker) : option PathProbeObservation * PathProbeTracker :=
  let '(found, t) :=
    tracker_acknowledge
      (λ tg, bool_decide (destination tg = responder) && (route_sequence tg =? sequence))
      id now t in
  ((λ p, mkObservation (target p) (now - sent_at p)) <$> found, t).

Definition probe_expire (now : Z) (t : PathProbeTracker)
    : list PathProbeTarget * PathProbeTracker :=
  let '(expired, t) := tracker_expire now t in (map (λ e, target (snd e)) expired, t).

Definition probe_contains_target (tg : PathProbeTarget) (t : PathProbeTracker) : bool :=
  contains_target tg t.
Definition probe_cancel (id : Z) (t : PathProbeTracker) : PathProbeTracker :=
  tracker_cancel id t.
Definition probe_reset (t : PathProbeTracker) : PathProbeTracker := tracker_reset t.

(** *** [EndpointPunchTracker] *)

Record EndpointPunchTarget := mkPunchTarget {
  punch_peer : NodeId;
  punch_endpoint : Endpoint;
}.

#[export] Instance punch_target_eq_dec : EqDecision EndpointPunchTarget.
Proof. solve_decision. Defined.

Definition EndpointPunchTracker := Tracker EndpointPunchTarget.

Definition punch_begin (id : Z) (tg : EndpointPunchTarget) (now : Z)
    (t : EndpointPunchTracker) : bool * EndpointPunchTracker :=
  tracker_begin
    (negb (id =? 0) && negb (bool_decide (punch_peer tg = zero32)) &&
     valid_endpoint_candidate (mkCandidate PeerObserved (punch_endpoint tg) 1)) id tg now t.

Definition punch_acknowledge (id : Z) (peer : NodeId) (source : Endpoint) (now : Z)
    (t : EndpointPunchTracker) : option EndpointPunchTarget * EndpointPunchTracker :=
  let '(found, t) :=
    tracker_acknowledge
      (λ tg, bool_decide (punch_peer tg = peer) && bool_decide (punch_endpoint tg = source))
      id now t in
  (target <$> found, t).

Definition punch_expire (now : Z) (t : EndpointPunchTracker)
    : list Z * EndpointPunchTracker :=
  let '(expired, t) := tracker_expire now t in (map fst expired, t).

Definition punch_cancel (id : Z) (t : EndpointPunchTracker) : EndpointPunchTracker :=
  tracker_cancel id t.
Definition punch_reset (t : EndpointPunchTracker) : EndpointPunchTracker := tracker_reset t.

(** ** The messages on the wire *)

Definition probe_wf (m : PathProbeMessage) : Prop :=
  (probe_kind m = Challenge \/ probe_kind m = Response) /\
  u64 (probe_id m) /\ probe_id m <> 0 /\
  u64 (probe_route_sequence m) /\ probe_route_sequence m <> 0.

Definition punch_wf (m : EndpointPunchMessage) : Prop :=
  (punch_kind m = Challenge \/ punch_kind m = Response) /\
  u64 (transaction_id m) /\ transaction_id m <> 0.

Definition probe_bytes (m : PathProbeMessage) : list byte :=
  be_split 1 1 ++ be_split 1 (kind_value (probe_kind m)) ++ be_split 2 0 ++
  be_split 8 (probe_id m) ++ be_split 8 (probe_route_sequence m).

Definition punch_bytes (m : EndpointPunchMessage) : list byte :=
  be_split 1 1 ++ be_split 1 (kind_value (punch_kind m)) ++ be_split 2 0 ++
  be_split 8 (transaction_id m).

Lemma kind_wf k : k = Challenge \/ k = Response ->
  u8 (kind_value k) /\ negb (kind_value k =? 1) && negb (kind_value k =? 2) = false /\
  kind_of (kind_value k) = k.
Proof. by intros [-> | ->]. Qed.

Lemma kind_known v :
  negb (v =? 1) && negb (v =? 2) = false ->
  (kind_of v = Challenge \/ kind_of v = Response) /\ kind_value (kind_of v) = v.
Proof. intros Hv. assert (v = 1 \/ v = 2) as [-> | ->] by lia; split; auto. Qed.

Lemma serialize_probe_wf m : probe_wf m -> serialize_path_probe m = Some (probe_bytes m).
Proof.
  intros ((_ & Hk & _)%kind_wf & _ & Hi & _ & Hs). unfold serialize_path_probe.
  rewrite Hk, (proj2 (Z.eqb_neq _ _) Hi), (proj2 (Z.eqb_neq _ _) Hs). cbn [orb].
  erewrite encode_exact_emits by solve_emits.
  by rewrite decide_True by (by rewrite !length_app, !length_be_split).
Qed.

Lemma serialize_punch_wf m : punch_wf m -> serialize_endpoint_punch m = Some (punch_bytes m).
Proof.
  intros ((_ & Hk & _)%kind_wf & _ & Hi). unfold serialize_endpoint_punch.
  rewrite Hk, (proj2 (Z.eqb_neq _ _) Hi). cbn [orb].
  erewrite encode_exact_emits by solve_emits.
  by rewrite decide_True by (by rewrite !length_app, !length_be_split).
Qed.

Lemma deserialize_probe_spec bs m :
  deserialize_path_probe bs = Some m <-> probe_wf m /\ bs = probe_bytes m.
Proof.
  unfold deserialize_path_probe. rewrite wire_reader_at. split.
  - intros H. do 5 rd_inv_step H. rewrite rd_finished_at in H.
    case_bool_decide; [|done]. subst. cbn [negb orb] in H.
    destruct (Z.eqb_spec v 1), (Z.eqb_spec v1 0), (Z.eqb_spec v2 0), (Z.eqb_spec v3 0);
      subst; cbn [negb orb] in H; rewrite ?orb_true_r, ?orb_false_r in H; try done.
    destruct (negb _ && _) eqn:Hk; [done|]. injection H as <-.
    destruct (kind_known _ Hk) as [Hk1 Hk2]. unfold probe_wf, probe_bytes.
    cbn [probe_kind probe_id probe_route_sequence].
    rewrite Hk2, app_nil_r. tauto.
  - intros [((Hku & Hk & Hkk)%kind_wf & Hiu & Hi & Hsu & Hs) ->]. unfold probe_bytes.
    rewrite <- (app_nil_r (be_split 8 (probe_route_sequence m))). rd_run.
    rewrite rd_finished_at, Hk, Hkk, (proj2 (Z.eqb_neq _ _) Hi), (proj2 (Z.eqb_neq _ _) Hs).
    by destruct m.
Qed.

Lemma deserialize_punch_spec bs m :
  deserialize_endpoint_punch bs = Some m <-> punch_wf m /\ bs = punch_bytes m.
Proof.
  unfold deserialize_endpoint_punch. rewrite wire_reader_at. split.
  - intros H. do 4 rd_inv_step H. rewrite rd_finished_at in H.
    case_bool_decide; [|done]. subst. cbn [negb orb] in H.
    destruct (Z.eqb_spec v 1), (Z.eqb_spec v1 0), (Z.eqb_spec v2 0);
      subst; cbn [negb orb] in H; rewrite ?orb_true_r, ?orb_false_r in H; try done.
    destruct (negb _ && _) eqn:Hk; [done|]. injection H as <-.
    destruct (kind_known _ Hk) as [Hk1 Hk2]. unfold punch_wf, punch_bytes.
    cbn [punch_kind transaction_id].
    rewrite Hk2, app_nil_r. tauto.
  - intros [((Hku & Hk & Hkk)%kind_wf & Hiu & Hi) ->]. unfold punch_bytes.
    rewrite <- (app_nil_r (be_split 8 (transaction_id m))). rd_run.
    rewrite rd_finished_at, Hk, Hkk, (proj2 (Z.eqb_neq _ _) Hi). by destruct m.
Qed.

(** ** The invariant of a tracker *)

Section tracker_invariant.
Context {T : Type} `{EqDecision T}.
Implicit Types t : Tracker T.

Lemma elem_in_key_order (m : gmap Z (Pending T)) id p :
  (id, p) ∈ in_key_order m <-> m !! id = Some p.
Proof. unfold in_key_order. by rewrite merge_sort_Permutation, elem_of_map_to_list. Qed.

Lemma contains_target_spec tg t :
  contains_target tg t = true <-> exists id p, pending_ t !! id = Some p /\ target p = tg.
Proof.
  unfold contains_target. rewrite existsb_exists. split.
  - intros ([id p] & Hin & Heq%bool_decide_eq_true). exists id, p. split; [|done].
    by apply elem_in_key_order, list_elem_of_In.
  - intros (id & p & Hp & Heq). exists (id, p). split; [|by apply bool_decide_eq_true].
    by apply list_elem_of_In, elem_in_key_order.
Qed.

(** At most [maximum_] challenges are in flight, at most one for a target, and each
    of them is usable. *)
Record tracker_ok (usable : Z -> T -> bool) t : Prop := {
  tracker_bound : Z.of_nat (size (pending_ t)) <= Z.max 0 (maximum_ t);
  tracker_one_per_target id1 id2 p1 p2 :
    pending_ t !! id1 = Some p1 -> pending_ t !! id2 = Some p2 ->
    target p1 = target p2 -> id1 = id2;
  tracker_usable id p : pending_ t !! id = Some p -> usable id (target p) = true;
}.

Lemma tracker_init_ok usable maximum timeout : tracker_ok usable (tracker_init maximum timeout).
Proof. split; simpl; [rewrite map_size_empty; lia|..]; intros *; by rewrite lookup_empty. Qed.

Lemma tracker_ok_sub usable t m :
  tracker_ok usable t -> m ⊆ pending_ t -> tracker_ok usable (set_pending m t).
Proof.
  intros [Hb Ho Hu] Hs. split; simpl.
  - apply map_subseteq_size in Hs. lia.
  - intros id1 id2 p1 p2 H1 H2. apply (Ho id1 id2); by eapply lookup_weaken.
  - intros id p Hp. by apply Hu; eapply lookup_weaken.
Qed.

Lemma tracker_begin_ok usable id tg now t b t' :
  tracker_ok usable t -> tracker_begin (usable id tg) id tg now t = (b, t') ->
  tracker_ok usable t'.
Proof.
  intros [Hb Ho Hu]. unfold tracker_begin.
  destruct (negb _ || _ || _) eqn:Hg; [by intros [= _ <-]|].
  destruct (_ || contains _ _) eqn:Hf; [by intros [= _ <-]|].
  destruct (contains_target tg t) eqn:Hc; [by intros [= _ <-]|].
  intros [= _ <-]. apply orb_false_iff in Hg as [Hg _]. apply orb_false_iff in Hg as [Hg _].
  apply negb_false_iff in Hg. apply orb_false_iff in Hf as [Hsz Hid%contains_false].
  assert (forall id' p, pending_ t !! id' = Some p -> target p <> tg) as Hnt.
  { intros id' p Hp Heq.
    assert (contains_target tg t = true) by (apply contains_target_spec; eauto). congruence. }
  split; simpl.
  - rewrite map_size_insert_None by done. lia.
  - intros id1 id2 p1 p2 [[<- <-]|[? H1]]%lookup_insert_Some [[<- <-]|[? H2]]%lookup_insert_Some;
      simpl; intros Heq; [done|by destruct (Hnt _ _ H2)|by destruct (Hnt _ _ H1)|by eapply Ho].
  - intros id' p [[<- <-]|[? Hp]]%lookup_insert_Some; [done|by eapply Hu].
Qed.

Lemma tracker_acknowledge_spec answers id now t :
  match tracker_acknowledge answers id now t with
  | (Some p, t') =>
      pending_ t !! id = Some p /\ answers (target p) = true /\
      sent_at p <= now < sent_at p + timeout_ t /\ t' = tracker_cancel id t
  | (None, t') =>
      t' = t /\ forall p, pending_ t !! id = Some p -> answers (target p) = true ->
        ~ sent_at p <= now < sent_at p + timeout_ t
  end.
Proof.
  unfold tracker_acknowledge. destruct (pending_ t !! id) as [p|]; [|done].
  destruct (negb _ || _ || _) eqn:Hg.
  - split; [done|]. intros p' <-%(inj Some) Ha. rewrite Ha in Hg. simpl in Hg. lia.
  - apply orb_false_iff in Hg as [Hg H3]. apply orb_false_iff in Hg as [H1%negb_false_iff H2].
    split_and!; [done|done|lia|lia|done].
Qed.

Lemma sorted_filter {A} (R : relation A) (P : A -> Prop) `{!forall x, Decision (P x)} l :
  StronglySorted R l -> StronglySorted R (filter P l).
Proof.
  induction 1 as [|x l Hl IH Hx]; [constructor|]. rewrite filter_cons.
  case_decide; [|done]. constructor; [done|].
  eapply Forall_sublist; [apply sublist_filter|done].
Qed.

Lemma tracker_expire_spec now t :
  (forall id p, (id, p) ∈ fst (tracker_expire now t) <->
     pending_ t !! id = Some p /\ timed_out now (timeout_ t) p = true) /\
  StronglySorted key_le (fst (tracker_expire now t)) /\
  (forall id p, pending_ (snd (tracker_expire now t)) !! id = Some p <->
     pending_ t !! id = Some p /\ timed_out now (timeout_ t) p = false).
Proof.
  unfold tracker_expire. cbn [fst snd set_pending pending_]. split_and!.
  - intros id p. rewrite list_elem_of_filter, elem_in_key_order. simpl. tauto.
  - apply sorted_filter, StronglySorted_merge_sort.
    + intros ???; unfold key_le; lia.
    + intros [x ?] [y ?]. unfold key_le. simpl. lia.
  - intros id p. rewrite map_lookup_filter_Some. done.
Qed.

End tracker_invariant.

(** ** Runs of the path probe tracker *)

Inductive probe_op :=
  | ProbeBegin (id : Z) (tg : PathProbeTarget) (now : Z)
  | ProbeAcknowledge (id : Z) (responder : NodeId) (sequence now : Z)
  | ProbeExpire (now : Z)
  | ProbeCancel (id : Z)
  | ProbeReset.

Definition probe_step (op : probe_op) (t : PathProbeTracker) : PathProbeTracker :=
  match op with
  | ProbeBegin id tg now => snd (probe_begin id tg now t)
  | ProbeAcknowledge id responder sequence now => snd (probe_acknowledge id responder sequence now t)
  | ProbeExpire now => snd (probe_expire now t)
  | ProbeCancel id => probe_cancel id t
  | ProbeReset => probe_reset t
  end.

Definition probe_run (ops : list probe_op) (t : PathProbeTracker) : PathProbeTracker :=
  foldl (λ t op, probe_step op t) t ops.

Definition probe_usable (id : Z) (tg : PathProbeTarget) : bool :=
  negb (id =? 0) && negb (route_sequence tg =? 0).

Lemma probe_expire_state now t : snd (probe_expire now t) = snd (tracker_expire now t).
Proof. done. Qed.

Lemma probe_acknowledge_state id responder sequence now t :
  snd (probe_acknowledge id responder sequence now t) = t \/
  snd (probe_acknowledge id responder sequence now t) = tracker_cancel id t.
Proof.
  unfold probe_acknowledge.
  pose proof (tracker_acknowledge_spec (λ tg, bool_decide (destination tg = responder) &&
    (route_sequence tg =? sequence)) id now t) as Hs.
  destruct (tracker_acknowledge _ _ _ _) as [[p|] t']; simpl; naive_solver.
Qed.

Lemma probe_step_ok op t : tracker_ok probe_usable t -> tracker_ok probe_usable (probe_step op t).
Proof.
  intros Ht. destruct op as [id tg now|id responder sequence now|now|id|]; cbn [probe_step].
  - unfold probe_begin. destruct (tracker_begin _ _ _ _ _) as [b t'] eqn:E.
    by eapply tracker_begin_ok.
  - destruct (probe_acknowledge_state id responder sequence now t) as [-> | ->]; [done|].
    apply tracker_ok_sub, delete_subseteq; done.
  - rewrite probe_expire_state. apply tracker_ok_sub, map_filter_subseteq; done.
  - apply tracker_ok_sub, delete_subseteq; done.
  - apply tracker_ok_sub, map_empty_subseteq; done.
Qed.

Lemma probe_run_ok ops t : tracker_ok probe_usable t -> tracker_ok probe_usable (probe_run ops t).
Proof.
  revert t. induction ops as [|op ops IH]; intros t Ht; [done|]. by apply IH, probe_step_ok.
Qed.

(** An identifier that is not pending stays so until a probe is begun under it. *)
Lemma probe_run_absent ops id t :
  pending_ t !! id = None -> (forall tg now, ProbeBegin id tg now ∉ ops) ->
  pending_ (probe_run ops t) !! id = None.
Proof.
  revert t. induction ops as [|op ops IH]; intros t Ht Hno; [done|].
  apply IH; [|intros tg now Hin; by apply (Hno tg now), elem_of_cons, or_intror].
  destruct op as [id' tg now|id' responder sequence now|now|id'|]; cbn [probe_step].
  - assert (id' <> id) by (intros ->; apply (Hno tg now), elem_of_cons; by left).
    unfold probe_begin, tracker_begin. do 3 (case_match; [done|]). simpl.
    by rewrite lookup_insert_ne.
  - destruct (probe_acknowledge_state id' responder sequence now t) as [-> | ->]; [done|].
    simpl. apply lookup_delete_None. auto.
  - rewrite probe_expire_state. simpl. apply map_lookup_filter_None. auto.
  - simpl. apply lookup_delete_None. auto.
  - simpl. apply lookup_empty.
Qed.

Lemma probe_run_maximum ops maximum timeout :
  maximum_ (probe_run ops (tracker_init maximum timeout)) = maximum.
Proof.
  assert (forall t, maximum_ (probe_run ops t) = maximum_ t) as Hm; [|apply Hm].
  induction ops as [|op ops IH]; intros t; [done|]. cbn [probe_run foldl]. etrans; [apply IH|].
  destruct op as [id tg now|id responder sequence now|now|id|]; cbn [probe_step]; try done.
  - unfold probe_begin, tracker_begin. by repeat case_match.
  - by destruct (probe_acknowledge_state id responder sequence now t) as [-> | ->].
Qed.

(** After an accepted acknowledgement, or past the timeout, an acknowledgement followed
    by an expiry leaves nothing pending under the identifier. *)
Lemma resolved_absent id responder sequence now t :
  (exists obs, fst (probe_acknowledge id responder sequence now t) = Some obs) \/
  (exists p, pending_ t !! id = Some p /\ timed_out now (timeout_ t) p = true) ->
  pending_ (probe_run [ProbeAcknowledge id responder sequence now; ProbeExpire now] t) !! id = None.
Proof.
  intros Hres. cbn [probe_run foldl probe_step]. rewrite probe_expire_state.
  cbn [snd tracker_expire set_pending pending_]. apply map_lookup_filter_None.
  destruct Hres as [[obs Hobs]|(p & Hp & Ht)].
  - left. revert Hobs. unfold probe_acknowledge.
    pose proof (tracker_acknowledge_spec (λ tg, bool_decide (destination tg = responder) &&
      (route_sequence tg =? sequence)) id now t) as Hs.
    destruct (tracker_acknowledge _ _ _ _) as [[p|] t']; [|done].
    destruct Hs as (_ & _ & _ & ->). intros _. simpl. apply lookup_delete_eq.
  - right. intros p'. destruct (probe_acknowledge_state id responder sequence now t) as [-> | ->].
    + rewrite Hp. intros <-%(inj Some). simpl. congruence.
    + simpl. by rewrite lookup_delete_eq.
Qed.

(** ** Properties *)

(** Probe and punch messages: a payload decodes to a message exactly when the message is
    in range (a known kind, non-zero identifiers) and encodes to that payload. *)
Theorem challenge_messages_codec bs probe punch :
  (deserialize_path_probe bs = Some probe <->
   probe_wf probe /\ serialize_path_probe probe = Some bs) /\
  (deserialize_endpoint_punch bs = Some punch <->
   punch_wf punch /\ serialize_endpoint_punch punch = Some bs).
Proof.
  rewrite deserialize_probe_spec, deserialize_punch_spec. split; split; intros [Hwf He].
  - subst. split; [done|]. by apply serialize_probe_wf.
  - rewrite serialize_probe_wf in He by done. by injection He as <-.
  - subst. split; [done|]. by apply serialize_punch_wf.
  - rewrite serialize_punch_wf in He by done. by injection He as <-.
Qed.

(** A path probe is resolved at most once, and only by its destination in time.  In
    every run of the tracker, an acknowledgement that is accepted comes from the
    destination and the route sequence of a pending probe, before its timeout, and
    reports the time since it was sent; the challenges in flight never exceed the
    maximum and never share a target; and once acknowledged or expired, no reply to
    that identifier is accepted until a new probe is begun under it. *)
Theorem path_probe_resolved_once maximum timeout before id responder sequence now later now' :
  let t := probe_run before (tracker_init maximum timeout) in
  Z.of_nat (size (pending_ t)) <= Z.max 0 maximum /\
  (forall id1 id2 p1 p2, pending_ t !! id1 = Some p1 -> pending_ t !! id2 = Some p2 ->
     target p1 = target p2 -> id1 = id2) /\
  (forall obs, fst (probe_acknowledge id responder sequence now t) = Some obs ->
     destination (observed_target obs) = responder /\
     route_sequence (observed_target obs) = sequence /\
     pending_ t !! id = Some (mkPending (observed_target obs) (now - rtt obs)) /\
     0 <= rtt obs < timeout_ t) /\
  ((exists obs, fst (probe_acknowledge id responder sequence now t) = Some obs) \/
   (exists p, pending_ t !! id = Some p /\ timed_out now (timeout_ t) p = true) ->
   (forall tg at_, ProbeBegin id tg at_ ∉ later) ->
   let resolved := probe_run [ProbeAcknowledge id responder sequence now; ProbeExpire now] t in
   forall responder' sequence',
     fst (probe_acknowledge id responder' sequence' now' (probe_run later resolved)) = None).
Proof.
  intros t. destruct (probe_run_ok before _ (tracker_init_ok probe_usable maximum timeout))
    as [Hb Ho _].
  assert (maximum_ t = maximum) as Hmax by apply probe_run_maximum. fold t in Hb, Ho.
  rewrite Hmax in Hb. split_and!; [done|done| |].
  - intros obs. unfold probe_acknowledge.
    pose proof (tracker_acknowledge_spec (λ tg, bool_decide (destination tg = responder) &&
      (route_sequence tg =? sequence)) id now t) as Hs.
    destruct (tracker_acknowledge _ _ _ _) as [[p|] t']; simpl; [|done].
    destruct Hs as (Hp & Ha & Ht & _). intros <-%(inj Some). cbn [observed_target rtt].
    apply andb_true_iff in Ha as [?%bool_decide_eq_true ?%Z.eqb_eq].
    split_and!; try done; [|lia..]. rewrite Hp. destruct p; simpl. do 2 f_equal. lia.
  - intros Hres Hno resolved responder' sequence'.
    assert (pending_ (probe_run later resolved) !! id = None) as Hn.
    { apply probe_run_absent; [|done]. subst resolved. by apply resolved_absent. }
    unfold probe_acknowledge, tracker_acknowledge. by rewrite Hn.
Qed.

(** ** Witness *)

Definition toy_target : PathProbeTarget :=
  mkProbeTarget (replicate 32 x02) (replicate 32 x01) no_ip 0 5.

Lemma path_probe_resolved_once_witness :
  let t := probe_run [ProbeBegin 7 toy_target 100] (tracker_init 256 1000) in
  fst (probe_acknowledge 7 (replicate 32 x02) 5 300 t) = Some (mkObservation toy_target 200) /\
  fst (probe_acknowledge 7 (replicate 32 x02) 5 310
    (probe_run [ProbeReset] (probe_run [ProbeAcknowledge 7 (replicate 32 x02) 5 300;
                                        ProbeExpire 300] t))) = None.
Proof.
  intros t. assert (fst (probe_acknowledge 7 (replicate 32 x02) 5 300 t) =
    Some (mkObservation toy_target 200)) as Ha by (vm_compute; reflexivity).
  split; [exact Ha|].
  destruct (path_probe_resolved_once 256 1000 [ProbeBegin 7 toy_target 100] 7
    (replicate 32 x02) 5 300 [ProbeReset] 310) as (_ & _ & _ & Hr).
  apply Hr; [left; eexists; exact Ha|].
  intros tg at_ [=]%list_elem_of_singleton.
Defined.
