(* ===== verification/Admission.v ===== *)
(** * Admission of unauthenticated handshakes

    [src/transport/handshake_rate_limiter.cpp] bounds how many first messages are
    processed per window, per source and overall; [src/transport/handshake_cookie.cpp]
    issues the retry cookies that prove a sender receives at its endpoint.  Both hold a
    mutex over their public operations, each of which is one function of the clock. *)

From Stdlib Require Import ZArith Lia Bool.
From Stdlib.Strings Require Import Byte.
From stdpp Require Import base numbers gmap option list.
From S2P Require Import Prelude Wire Crypto IpAddress Endpoint.

(** ** The rate limiter *)

Record HandshakeRateLimitConfig := mkRateConfig {
  per_source_limit : Z;
  global_limit : Z;
  max_sources : Z;
  window : Z;  (** ns *)
}.

Record Bucket := mkBucket { window_start : Z; count : Z }.

(** The IP family and the address bytes, of which an IPv6 source keeps 64 bits. *)
Definition SourceKey : Type := Z * list byte.

Record HandshakeRateLimiter := mkLimiter {
  rate_config : HandshakeRateLimitConfig;
  global_window_start : Z;
  global_count : Z;
  sources : gmap SourceKey Bucket;
}.

(** A window of zero or less becomes one millisecond. *)
Definition limiter_init (c : HandshakeRateLimitConfig) (now : Z) : HandshakeRateLimiter :=
  let c := if window c <=? 0
           then mkRateConfig (per_source_limit c) (global_limit c) (max_sources c) 1000000
           else c in
  mkLimiter c now 0 ∅.

Definition expired (r : HandshakeRateLimiter) (start now : Z) : bool :=
  (now <? start) || (window (rate_config r) <=? now - start).

Definition reset_global_if_expired (now : Z) (r : HandshakeRateLimiter)
    : HandshakeRateLimiter :=
  if negb (expired r (global_window_start r) now) then r
  else mkLimiter (rate_config r) now 0 (sources r).

Definition purge_expired_sources (now : Z) (r : HandshakeRateLimiter)
    : HandshakeRateLimiter :=
  mkLimiter (rate_config r) (global_window_start r) (global_count r)
    (filter (λ e, expired r (window_start (snd e)) now = false) (sources r)).

Definition source_key (source : Endpoint) : SourceKey :=
  let bytes := ip_bytes (address source) in
  (family_value (family (address source)),
   if is_ipv6 source then take 8 bytes ++ zeros (length bytes - 8) else bytes).

(** [++source_it->second.count; ++global_count_] for the bucket [b] of source [key]. *)
Definition grant (key : SourceKey) (b : Bucket) (r : HandshakeRateLimiter)
    : HandshakeRateLimiter :=
  mkLimiter (rate_config r) (global_window_start r) (wrap 64 (global_count r + 1))
    (<[key := mkBucket (window_start b) (wrap 64 (count b + 1))]> (sources r)).

Definition allow (source : Endpoint) (now : Z) (r : HandshakeRateLimiter)
    : bool * HandshakeRateLimiter :=
  let r := reset_global_if_expired now r in
  let r := purge_expired_sources now r in
  let found := sources r !! source_key source in
  if from_option (λ b, per_source_limit (rate_config r) <=? count b) false found then (false, r)
  else if global_limit (rate_config r) <=? global_count r then (false, r)
  else
    match found with
    | Some b => (true, grant (source_key source) b r)
    | None =>
        if max_sources (rate_config r) <=? Z.of_nat (size (sources r)) then (false, r)
        else (true, grant (source_key source) (mkBucket now 0) r)
    end.

Definition tracked_sources (r : HandshakeRateLimiter) : Z := Z.of_nat (size (sources r)).

(** ** Retry cookies *)

Definition HANDSHAKE_COOKIE_SIZE : nat := 32.
Definition COOKIE_DOMAIN : list byte :=
  [x61; x65; x67; x69; x73; x2d; x72; x65; x74; x72; x79; x2d;
   x63; x6f; x6f; x6b; x69; x65; x2d; x76; x31].

Record HandshakeCookieManager := mkCookies {
  rotation_interval : Z;  (** ns *)
  current_secret : list byte;
  previous_secret : list byte;
  rotated_at : Z;
  has_current : bool;
  has_previous : bool;
}.

(** Cleared secrets are zero bytes. *)
Definition cookies_init (interval : Z) : HandshakeCookieManager :=
  mkCookies (if interval <=? 0 then 1000000 else interval)
    (zeros HANDSHAKE_COOKIE_SIZE) (zeros HANDSHAKE_COOKIE_SIZE) 0 false false.

Section cookies.
Context `{OpenSSL, RandomSource}.

Definition rotate_if_needed (now : Z) (m : HandshakeCookieManager) (r : rng)
    : bool * HandshakeCookieManager * rng :=
  if has_current m && (rotated_at m <=? now) && (now - rotated_at m <? rotation_interval m)
  then (true, m, r)
  else
    match rng_fill HANDSHAKE_COOKIE_SIZE r with
    | (None, r) => (false, m, r)
    | (Some replacement, r) =>
        let '(previous, has_prev) :=
          if has_current m && (rotated_at m <=? now) &&
             (now - rotated_at m <? 2 * rotation_interval m)
          then (current_secret m, true)
          else (zeros HANDSHAKE_COOKIE_SIZE, false) in
        (true, mkCookies (rotation_interval m) replacement previous now true has_prev, r)
    end.

(** The message the cookie authenticates, for a given hash of the first frame. *)
Definition cookie_context (source : Endpoint) (session_id : Z) (init_hash : list byte)
    : option (list byte) :=
  encode_exact (length COOKIE_DOMAIN + 1 + 16 + 2 + 4 + 32)
    (write_bytes COOKIE_DOMAIN &> write_u8 (family_value (family (address source))) &>
     write_bytes (ip_bytes (address source)) &> write_u16 (ntohs (port source)) &>
     write_u32 session_id &> write_bytes init_hash).

Definition derive (secret : list byte) (source : Endpoint) (session_id : Z)
    (init_frame : list byte) : option (list byte) :=
  match transcript_hash Blake2s256 [init_frame] with
  | None => None
  | Some init_hash =>
      match cookie_context source session_id init_hash with
      | None => None
      | Some context => hmac_hash Blake2s256 secret context
      end
  end.

Definition issue (source : Endpoint) (session_id : Z) (init_frame : list byte) (now : Z)
    (m : HandshakeCookieManager) (r : rng)
    : option (list byte) * HandshakeCookieManager * rng :=
  match rotate_if_needed now m r with
  | (false, m, r) => (None, m, r)
  | (true, m, r) => (derive (current_secret m) source session_id init_frame, m, r)
  end.

Definition derives (cookie secret : list byte) (source : Endpoint) (session_id : Z)
    (init_frame : list byte) : bool :=
  match derive secret source session_id init_frame with
  | Some c => constant_time_equal cookie c
  | None => false
  end.

Definition verify (cookie : list byte) (source : Endpoint) (session_id : Z)
    (init_frame : list byte) (now : Z) (m : HandshakeCookieManager) (r : rng)
    : bool * HandshakeCookieManager * rng :=
  match rotate_if_needed now m r with
  | (false, m, r) => (false, m, r)
  | (true, m, r) =>
      (if derives cookie (current_secret m) source session_id init_frame then true
       else if negb (has_previous m) then false
       else derives cookie (previous_secret m) source session_id init_frame, m, r)
  end.

End cookies.

(** ** The rate limiter over time *)

(** The per-source bound: a source without a bucket is admitted before its count is
    compared with the limit, so that a limit of zero acts as one. *)
Definition source_bound (c : HandshakeRateLimitConfig) : Z := Z.max 1 (per_source_limit c).

Definition config_ok (c : HandshakeRateLimitConfig) : Prop :=
  u64 (per_source_limit c) /\ u64 (global_limit c) /\ u64 (max_sources c) /\ 0 < window c.

Record limiter_ok (now : Z) (r : HandshakeRateLimiter) : Prop := {
  limiter_config : config_ok (rate_config r);
  limiter_start : global_window_start r <= now;
  limiter_global : 0 <= global_count r <= global_limit (rate_config r);
  limiter_buckets k b : sources r !! k = Some b ->
    window_start b <= now /\ 0 <= count b <= source_bound (rate_config r);
  limiter_tracked : tracked_sources r <= max_sources (rate_config r);
}.

(** How many more admissions the limiter can grant before time [until]: what is left
    of the running window, and a full window if that one ends before. *)
Definition global_budget (until : Z) (r : HandshakeRateLimiter) : Z :=
  let c := rate_config r in
  global_limit c - global_count r +
  (if global_window_start r + window c <? until then global_limit c else 0).

Definition bucket_budget (until : Z) (c : HandshakeRateLimitConfig) (b : option Bucket) : Z :=
  match b with
  | None => source_bound c
  | Some b => source_bound c - count b +
              (if window_start b + window c <? until then source_bound c else 0)
  end.

Definition source_budget (until : Z) (k : SourceKey) (r : HandshakeRateLimiter) : Z :=
  bucket_budget until (rate_config r) (sources r !! k).

Lemma limiter_ok_later t t' r : t <= t' -> limiter_ok t r -> limiter_ok t' r.
Proof.
  intros Ht [Hc Hs Hg Hb Hn]. split; try done; [lia|]. intros k b Hk.
  destruct (Hb k b Hk). split; [lia|done].
Qed.

Lemma reset_global_spec now until r :
  limiter_ok now r -> now < until <= now + window (rate_config r) ->
  let r' := reset_global_if_expired now r in
  limiter_ok now r' /\ rate_config r' = rate_config r /\ sources r' = sources r /\
  expired r' (global_window_start r') now = false /\
  global_budget until r' <= global_budget until r.
Proof.
  intros [Hc Hs Hg Hb Hn] Hu. unfold reset_global_if_expired.
  destruct (expired r (global_window_start r) now) eqn:He; cbn [negb]; [|by split_and!].
  pose proof Hc as (? & ? & ? & ?). unfold in_width in *.
  split_and!; try done.
  - split; simpl; try done; lia.
  - unfold expired. simpl. lia.
  - unfold global_budget, expired in *. simpl. repeat case_match; lia.
Qed.

Lemma purge_sources_spec now until r :
  limiter_ok now r -> now < until ->
  let r' := purge_expired_sources now r in
  limiter_ok now r' /\ rate_config r' = rate_config r /\
  global_window_start r' = global_window_start r /\ global_count r' = global_count r /\
  (forall k, source_budget until k r' <= source_budget until k r).
Proof.
  intros [Hc Hs Hg Hb Hn] Hu. unfold purge_expired_sources. split_and!; try done.
  - split; simpl; try done.
    + intros k b [Hk _]%map_lookup_filter_Some. by eapply Hb.
    + unfold tracked_sources in *. simpl.
      pose proof (map_subseteq_size _ _ (map_filter_subseteq
        (λ e, expired r (window_start (snd e)) now = false) (sources r))). lia.
  - intros k. unfold source_budget, bucket_budget. simpl. rewrite map_lookup_filter.
    destruct (sources r !! k) as [b|] eqn:Hk; [|done]. simpl.
    destruct (Hb k b Hk) as [Hbs Hbc]. case_guard as He; simpl; [done|].
    unfold expired in He. repeat case_match; lia.
Qed.

Lemma grant_spec key b now until r :
  limiter_ok now r -> window_start b <= now -> 0 <= count b < source_bound (rate_config r) ->
  global_count r < global_limit (rate_config r) ->
  (is_Some (sources r !! key) \/ tracked_sources r < max_sources (rate_config r)) ->
  bucket_budget until (rate_config r) (Some b) <= source_budget until key r ->
  let r' := grant key b r in
  limiter_ok now r' /\ rate_config r' = rate_config r /\
  global_budget until r' + 1 <= global_budget until r /\
  (forall k, source_budget until k r' + (if decide (k = key) then 1 else 0) <=
     source_budget until k r).
Proof.
  intros [Hc Hs Hg Hb Hn] Hbs Hbc Hgl Hroom Hbud.
  pose proof Hc as (H1 & H2 & H3 & H4). unfold in_width in *.
  assert (count b + 1 < 2 ^ 64) by (unfold source_bound in Hbc; lia).
  unfold grant. rewrite !wrap_small by (unfold in_width; lia). split_and!; try done.
  - split; simpl; try done; [lia| |].
    + intros k b' [[<- <-]|[_ Hk]]%lookup_insert_Some; simpl; [lia|by eapply Hb].
    + unfold tracked_sources in *. simpl. rewrite map_size_insert.
      destruct (sources r !! key) eqn:Hk; unfold id; [lia|]. destruct Hroom as [[? ?]|]; [done|lia].
  - unfold global_budget. simpl. lia.
  - intros k. unfold source_budget in *. simpl. destruct (decide (k = key)) as [->|Hne].
    + rewrite lookup_insert_eq. simpl in *. lia.
    + rewrite lookup_insert_ne by done. lia.
Qed.

Lemma allow_spec source now until r b r' :
  limiter_ok now r -> now < until <= now + window (rate_config r) ->
  allow source now r = (b, r') ->
  limiter_ok now r' /\ rate_config r' = rate_config r /\
  global_budget until r' + (if b then 1 else 0) <= global_budget until r /\
  (forall k, source_budget until k r' +
     (if b then if decide (k = source_key source) then 1 else 0 else 0) <=
   source_budget until k r).
Proof.
  intros Hr Hu Ha. unfold allow in Ha.
  destruct (reset_global_spec now until r Hr Hu) as (Hr1 & Hc1 & Hs1 & _ & Hb1).
  set (r1 := reset_global_if_expired now r) in *. clearbody r1.
  destruct (purge_sources_spec now until r1 Hr1 ltac:(lia)) as (Hr2 & Hc2 & Hw2 & Hg2 & Hb2).
  set (r2 := purge_expired_sources now r1) in *. clearbody r2.
  rewrite Hc1 in Hc2. rewrite <- Hc2 in Hu.
  assert (global_budget until r2 <= global_budget until r) as Hgb.
  { unfold global_budget in *. rewrite Hc1 in Hb1. rewrite Hc2, Hw2, Hg2. done. }
  assert (forall k, source_budget until k r2 <= source_budget until k r) as Hsb.
  { intros k. specialize (Hb2 k). unfold source_budget in *. by rewrite Hs1, Hc1 in Hb2. }
  assert (limiter_ok now r2 /\ rate_config r2 = rate_config r /\
    global_budget until r2 + 0 <= global_budget until r /\
    forall k, source_budget until k r2 + 0 <= source_budget until k r) as Hsame
    by (split_and!; try done; [lia|intros k; specialize (Hsb k); lia]).
  destruct (from_option _ _ _) eqn:Hl; [by injection Ha as <- <-|].
  case_match eqn:Hg; [by injection Ha as <- <-|]. apply Z.leb_gt in Hg.
  set (key := source_key source) in *.
  destruct (sources r2 !! key) as [bk|] eqn:Hk.
  - injection Ha as <- <-. destruct (limiter_buckets _ _ Hr2 key bk Hk) as [Hb0 Hbc].
    simpl in Hl. apply Z.leb_gt in Hl.
    destruct (grant_spec key bk now until r2) as (? & Hc3 & ? & Hs3); try done.
    + unfold source_bound. lia.
    + left. by eexists.
    + unfold source_budget. by rewrite Hk.
    + split_and!; [done|by rewrite Hc3|lia|].
      intros k. specialize (Hs3 k). specialize (Hsb k). lia.
  - case_match eqn:Hsz; [by injection Ha as <- <-|]. apply Z.leb_gt in Hsz.
    injection Ha as <- <-.
    destruct (grant_spec key (mkBucket now 0) now until r2) as (? & Hc3 & ? & Hs3); try done.
    + simpl. unfold source_bound. lia.
    + by right.
    + unfold source_budget. rewrite Hk. simpl. rewrite (proj2 (Z.ltb_ge _ _)) by lia. lia.
    + split_and!; [done|by rewrite Hc3|lia|].
      intros k. specialize (Hs3 k). specialize (Hsb k). lia.
Qed.

(** A run of requests, with the keys of the admitted sources. *)
Fixpoint run_limiter (reqs : list (Endpoint * Z)) (r : HandshakeRateLimiter)
    : list SourceKey * HandshakeRateLimiter :=
  match reqs with
  | [] => ([], r)
  | (source, now) :: reqs =>
      let '(b, r) := allow source now r in
      let '(keys, r) := run_limiter reqs r in
      (if b then source_key source :: keys else keys, r)
  end.

(** Request times do not go back before [t]. *)
Fixpoint times_from (t : Z) (reqs : list (Endpoint * Z)) : Prop :=
  match reqs with
  | [] => True
  | (_, now) :: reqs => t <= now /\ times_from now reqs
  end.

Lemma run_limiter_budget reqs t until r keys r' :
  limiter_ok t r -> times_from t reqs ->
  Forall (λ q, snd q < until <= snd q + window (rate_config r)) reqs ->
  run_limiter reqs r = (keys, r') ->
  Z.of_nat (length keys) <= global_budget until r - global_budget until r' /\
  (forall k, Z.of_nat (length (filter (λ k', k' = k) keys)) <=
     source_budget until k r - source_budget until k r') /\
  exists t', limiter_ok t' r' /\ rate_config r' = rate_config r.
Proof.
  revert t r keys. induction reqs as [|[src now] reqs IH]; intros t r keys Hr Ht Hf; simpl.
  { intros [= <- <-]. simpl. split_and!; [lia|intros k; lia|by exists t]. }
  destruct Ht as [Hle Ht]. apply Forall_cons in Hf as [Hu Hf].
  destruct (allow src now r) as [b r1] eqn:Ha.
  destruct (run_limiter reqs r1) as [keys1 r2] eqn:Hrun. intros [= <- <-].
  apply (limiter_ok_later _ _ _ Hle) in Hr.
  destruct (allow_spec _ _ until _ _ _ Hr Hu Ha) as (Hr1 & Hc1 & Hg1 & Hs1).
  rewrite <- Hc1 in Hf. destruct (IH now r1 keys1 Hr1 Ht Hf Hrun) as (Hg & Hs & t' & Hok & Hc).
  split_and!.
  - destruct b; simpl; lia.
  - intros k. specialize (Hs1 k). specialize (Hs k). destruct b; [|lia].
    rewrite filter_cons. destruct (decide (source_key src = k)) as [<-|Hne].
    + rewrite decide_True in Hs1 by done. simpl. lia.
    + rewrite decide_False in Hs1 by naive_solver. lia.
  - exists t'. by rewrite Hc, Hc1.
Qed.

Lemma run_limiter_ok reqs t r :
  limiter_ok t r -> times_from t reqs ->
  exists t', limiter_ok t' (snd (run_limiter reqs r)) /\
    rate_config (snd (run_limiter reqs r)) = rate_config r /\
    forall more, times_from t (reqs ++ more) -> times_from t' more.
Proof.
  revert t r. induction reqs as [|[src now] reqs IH]; intros t r Hr Ht; simpl.
  { by exists t. }
  destruct Ht as [Hle Ht]. destruct (allow src now r) as [b r1] eqn:Ha.
  apply (limiter_ok_later _ _ _ Hle) in Hr.
  pose proof (limiter_config _ _ Hr) as (_ & _ & _ & Hw).
  destruct (allow_spec _ _ (now + 1) _ _ _ Hr ltac:(lia) Ha) as (Hr1 & Hc1 & _).
  destruct (IH now r1 Hr1 Ht) as (t' & Hok & Hc & Hmore).
  destruct (run_limiter reqs r1) as [keys r2]. simpl in *.
  exists t'. split_and!; [done|by rewrite Hc|]. intros more [_ Hm]. auto.
Qed.

Lemma times_from_app t before burst : times_from t (before ++ burst) -> times_from t before.
Proof.
  revert t. induction before as [|[src now] before IH]; intros t; simpl; [done|].
  intros [? ?]. auto.
Qed.

Lemma limiter_init_ok c now :
  u64 (per_source_limit c) -> u64 (global_limit c) -> u64 (max_sources c) ->
  limiter_ok now (limiter_init c now).
Proof.
  intros H1 H2 H3. unfold limiter_init. unfold in_width in *.
  destruct (Z.leb_spec (window c) 0); split; simpl; try done; try lia;
    try (intros k b; by rewrite lookup_empty);
    unfold tracked_sources; simpl; rewrite ?map_size_empty; lia.
Qed.

Lemma budgets_bounded t until r :
  limiter_ok t r ->
  0 <= global_budget until r <= 2 * global_limit (rate_config r) /\
  forall k, 0 <= source_budget until k r <= 2 * source_bound (rate_config r).
Proof.
  intros [Hc Hs Hg Hb Hn]. split.
  - unfold global_budget. case_match; lia.
  - intros k. unfold source_budget, bucket_budget.
    destruct (sources r !! k) as [b|] eqn:Hk; [|unfold source_bound; lia].
    destruct (Hb k b Hk). case_match; lia.
Qed.

(** ** The cookies over time *)

Section cookie_proofs.
Context `{OpenSSL, RandomSource}.

(** [secret] became current at time [R] and is still accepted. *)
Definition holds_secret (secret : list byte) (R : Z) (m : HandshakeCookieManager) : Prop :=
  has_current m = true /\
  (current_secret m = secret /\ rotated_at m = R \/
   has_previous m = true /\ previous_secret m = secret /\
   R + rotation_interval m <= rotated_at m < R + 2 * rotation_interval m).

(** Until two intervals have passed a rotation keeps the secret. *)
Lemma rotate_holds secret R now m r :
  fst (rng_fill HANDSHAKE_COOKIE_SIZE r) <> None ->
  holds_secret secret R m -> rotated_at m <= now < R + 2 * rotation_interval m ->
  0 < rotation_interval m ->
  exists m' r', rotate_if_needed now m r = (true, m', r') /\ holds_secret secret R m' /\
    rotation_interval m' = rotation_interval m /\ rotated_at m' <= now.
Proof.
  intros Hrng [Hcur Hs] Hnow HI. unfold rotate_if_needed. rewrite Hcur. cbn [andb].
  rewrite (proj2 (Z.leb_le _ _)) by lia. cbn [andb].
  destruct (Z.ltb_spec (now - rotated_at m) (rotation_interval m)) as [Hlt|Hge].
  { exists m, r. split_and!; try done. lia. }
  destruct Hs as [[Hc HR]|(_ & _ & HR)]; [|lia].
  destruct (rng_fill _ r) as [[replacement|] r1]; [|done].
  rewrite (proj2 (Z.ltb_lt _ _)) by lia. do 2 eexists. split; [done|].
  split_and!; [|done|simpl; lia]. split; [done|]. right. simpl. split_and!; [done|done|lia|lia].
Qed.

(** What [issue] leaves behind. *)
Lemma issue_holds source sid frame now m r c m' r' :
  0 < rotation_interval m ->
  issue source sid frame now m r = (Some c, m', r') ->
  exists secret R, holds_secret secret R m' /\ derive secret source sid frame = Some c /\
    rotated_at m' = R /\ R <= now < R + rotation_interval m' /\
    rotation_interval m' = rotation_interval m.
Proof.
  intros HI. unfold issue, rotate_if_needed.
  destruct (has_current m && _ && _) eqn:Hg.
  - intros [[Hd <-]%pair_eq _]%pair_eq. exists (current_secret m), (rotated_at m).
    split_and!; try done; [|lia..]. split; [|by left]. by destruct (has_current m).
  - destruct (rng_fill _ r) as [[replacement|] r1]; [|done].
    destruct (if has_current m && _ && _ then _ else _) as [previous has_prev].
    intros [[Hd <-]%pair_eq _]%pair_eq. exists replacement, now.
    split_and!; try done; [by split; [|left]|simpl; lia..].
Qed.

Inductive cookie_call :=
  | CallIssue (source : Endpoint) (sid : Z) (frame : list byte)
  | CallVerify (cookie : list byte) (source : Endpoint) (sid : Z) (frame : list byte).

(** Calls at given times; the random source is shared with the rest of the process, so
    that each call finds it in any state. *)
Fixpoint run_cookies (calls : list (cookie_call * Z * rng)) (m : HandshakeCookieManager)
    : HandshakeCookieManager :=
  match calls with
  | [] => m
  | (CallIssue source sid frame, now, r) :: calls =>
      run_cookies calls (snd (fst (issue source sid frame now m r)))
  | (CallVerify cookie source sid frame, now, r) :: calls =>
      run_cookies calls (snd (fst (verify cookie source sid frame now m r)))
  end.

Fixpoint call_times (t : Z) (calls : list (cookie_call * Z * rng)) (t' : Z) : Prop :=
  match calls with
  | [] => t <= t'
  | (_, now, _) :: calls => t <= now /\ call_times now calls t'
  end.

Lemma call_times_le t calls t' : call_times t calls t' -> t <= t'.
Proof.
  revert t. induction calls as [|[[c now] r] calls IH]; intros t; simpl; [done|].
  intros [? ?%IH]. lia.
Qed.

Lemma run_cookies_holds secret R calls t t' m :
  (forall r, fst (rng_fill HANDSHAKE_COOKIE_SIZE r) <> None) ->
  holds_secret secret R m -> rotated_at m <= t -> 0 < rotation_interval m ->
  call_times t calls t' -> t' < R + 2 * rotation_interval m ->
  let m' := run_cookies calls m in
  holds_secret secret R m' /\ rotated_at m' <= t' /\ rotation_interval m' = rotation_interval m.
Proof.
  intros Hrng. revert t m. induction calls as [|[[c now] r] calls IH]; intros t m Hh Hr HI Ht Hu.
  { simpl in *. split_and!; [done|lia|done]. }
  simpl in Ht. destruct Ht as [Hle Ht]. pose proof (call_times_le _ _ _ Ht) as Hle'.
  destruct (rotate_holds secret R now m r (Hrng r) Hh ltac:(lia) HI)
    as (m1 & r1 & Hrot & Hh1 & HI1 & Hr1).
  assert (run_cookies ((c, now, r) :: calls) m = run_cookies calls m1) as ->.
  { destruct c; simpl; unfold issue, verify; by rewrite Hrot. }
  rewrite <- HI1. apply (IH now); try done; lia.
Qed.

Lemma cookie_context_inj source sid h source' sid' h' ctx :
  ip_wf (address source) -> u16 (port source) -> u32 sid -> is32 h ->
  ip_wf (address source') -> u16 (port source') -> u32 sid' -> is32 h' ->
  u8 (family_value (family (address source))) -> u8 (family_value (family (address source'))) ->
  cookie_context source sid h = Some ctx -> cookie_context source' sid' h' = Some ctx ->
  family_value (family (address source)) = family_value (family (address source')) /\
  ip_bytes (address source) = ip_bytes (address source') /\
  port source = port source' /\ sid = sid' /\ h = h'.
Proof.
  intros Hw Hp Hs Hh Hw' Hp' Hs' Hh' Hf Hf'. unfold cookie_context.
  erewrite encode_exact_emits by solve_emits. case_decide as Hl; [|done].
  erewrite encode_exact_emits by solve_emits. case_decide as Hl'; [|done].
  intros <-%(inj Some) Heq%(inj Some). unfold ip_wf in *.
  apply app_inj_1 in Heq as [_ Heq]; [|done].
  apply app_inj_1 in Heq as [Hfam Heq]; [|done].
  apply app_inj_1 in Heq as [Hip Heq]; [|by rewrite Hw, Hw'].
  apply app_inj_1 in Heq as [Hport Heq]; [|done].
  apply app_inj_1 in Heq as [Hsid Hhash]; [|done].
  apply (be_split_inj 1) in Hfam; [|done..]. apply (be_split_inj 4) in Hsid; [|done..].
  apply (be_split_inj 2) in Hport; [|apply ntohs_range..].
  apply (f_equal ntohs) in Hport. rewrite !ntohs_involutive in Hport by done. done.
Qed.

End cookie_proofs.

(** ** Properties *)

(** C36: whatever the sources send, the handshakes admitted in any interval no longer than
    the window stay within twice the global limit, and within twice the per-source
    limit (at least one) for every source, where an IPv6 source is its /64 network; the
    table of sources never exceeds its capacity. *)
Theorem handshake_admissions_bounded c start before burst first :
  u64 (per_source_limit c) -> u64 (global_limit c) -> u64 (max_sources c) ->
  times_from start (before ++ burst) ->
  let r := snd (run_limiter before (limiter_init c start)) in
  Forall (λ q, first <= snd q < first + window (rate_config r)) burst ->
  let admitted := fst (run_limiter burst r) in
  Z.of_nat (length admitted) <= 2 * global_limit c /\
  (forall k, Z.of_nat (length (filter (λ k', k' = k) admitted)) <= 2 * source_bound c) /\
  tracked_sources (snd (run_limiter burst r)) <= max_sources c.
Proof.
  intros H1 H2 H3 Ht r Hf admitted.
  pose proof (limiter_init_ok c start H1 H2 H3) as H0.
  destruct (run_limiter_ok before start _ H0) as (t' & Hr & Hc & Hmore);
    [by eapply times_from_app|].
  fold r in Hr, Hc. apply Hmore in Ht.
  assert (global_limit (rate_config r) = global_limit c /\
    source_bound (rate_config r) = source_bound c /\
    max_sources (rate_config r) = max_sources c) as (Hg & Hs & Hm)
    by (rewrite Hc; unfold limiter_init, source_bound; by destruct (window c <=? 0)).
  set (until := first + window (rate_config r)).
  destruct (run_limiter burst r) as [keys r'] eqn:Hrun.
  destruct (run_limiter_budget burst t' until r keys r' Hr Ht) as (Hb1 & Hb2 & t2 & Hr' & Hc');
    [|done|].
  { eapply Forall_impl; [exact Hf|]. simpl. intros q Hq. subst until. lia. }
  destruct (budgets_bounded t' until r Hr) as [Hbr Hbs].
  destruct (budgets_bounded t2 until r' Hr') as [Hbr' Hbs'].
  subst admitted. simpl. rewrite Hc', Hg, Hs in *. split_and!.
  - lia.
  - intros k. specialize (Hb2 k). specialize (Hbs k). specialize (Hbs' k). lia.
  - pose proof (limiter_tracked _ _ Hr') as Hn. rewrite Hc', Hm in Hn. done.
Qed.

(** A retry cookie stays valid for at least one rotation interval: a cookie issued for
    an endpoint, a session and a first frame is accepted from the same endpoint with
    the same session and frame at any later time within the interval, whatever cookies
    were issued and checked in between (the random source being available). *)
Theorem cookie_survives_rotation `{OpenSSL, RandomSource}
    source sid frame t m r cookie m1 r1 calls t' r2 :
  (forall r, fst (rng_fill HANDSHAKE_COOKIE_SIZE r) <> None) -> 0 < rotation_interval m ->
  issue source sid frame t m r = (Some cookie, m1, r1) ->
  call_times t calls t' -> t' < t + rotation_interval m ->
  fst (fst (verify cookie source sid frame t' (run_cookies calls m1) r2)) = true.
Proof.
  intros Hrng HI Hiss Hc Ht.
  destruct (issue_holds _ _ _ _ _ _ _ _ _ HI Hiss) as (s & R & Hh & Hd & HR & Hn & HI1).
  destruct (run_cookies_holds s R calls t t' m1 Hrng Hh ltac:(lia) ltac:(lia) Hc ltac:(lia))
    as (Hh2 & Hr2 & HI2).
  destruct (rotate_holds s R t' _ r2 (Hrng r2) Hh2 ltac:(lia) ltac:(lia))
    as (m3 & r3 & Hrot & [_ Hh3] & _).
  unfold verify. rewrite Hrot. cbn [fst].
  assert (derives cookie s source sid frame = true) as Hder
    by (unfold derives, constant_time_equal; rewrite Hd; by apply bool_decide_eq_true).
  destruct Hh3 as [[-> _]|(Hp & -> & _)]; [by rewrite Hder|].
  rewrite Hp, Hder. by case_match.
Qed.


(** ** Witnesses *)

Section witnesses.
#[local] Existing Instances toy_openssl toy_random.

Definition toy_endpoint : Endpoint := from_parts 192 0 2 1 4500.
Definition toy_other : Endpoint := from_parts 192 0 2 2 4500.
Definition toy_rate : HandshakeRateLimitConfig := mkRateConfig 1 2 8 1000.
Definition toy_cookies : HandshakeCookieManager := cookies_init 1000.
Definition toy_rng : @rng toy_random := 1.
Definition toy_issued := issue toy_endpoint 7 [x01; x02] 10 toy_cookies toy_rng.

Lemma handshake_admissions_bounded_witness :
  let r := snd (run_limiter [(toy_endpoint, 5)] (limiter_init toy_rate 0)) in
  let burst := [(toy_endpoint, 900); (toy_other, 901); (toy_endpoint, 1100); (toy_other, 1101)] in
  length (fst (run_limiter burst r)) = 2%nat /\
  Z.of_nat (length (fst (run_limiter burst r))) <= 2 * global_limit toy_rate.
Proof.
  intros r burst. split; [vm_compute; reflexivity|].
  apply (handshake_admissions_bounded toy_rate 0 [(toy_endpoint, 5)] burst 900);
    [vm_compute; split; (discriminate || reflexivity)..| |].
  - simpl. lia.
  - vm_compute. repeat constructor; discriminate.
Defined.

Lemma cookie_survives_rotation_witness :
  fst (fst (verify (default [] (fst (fst toy_issued))) toy_endpoint 7 [x01; x02] 1009
    (run_cookies [(CallIssue toy_other 8 [x05], 1008, toy_rng)] (snd (fst toy_issued))) toy_rng)) = true.
Proof.
  apply (cookie_survives_rotation toy_endpoint 7 [x01; x02] 10 toy_cookies toy_rng _
    (snd (fst toy_issued)) (snd toy_issued)).
  - intros r. discriminate.
  - reflexivity.
  - apply run_fst3. vm_compute. reflexivity.
  - simpl. lia.
  - reflexivity.
Defined.


End witnesses.
