(* ===== verification/Routing.v ===== *)
(** * The routing table ([src/routing/routing.cpp])

    Candidate routes with leases and end-to-end probes.  Time points are
    nanoseconds, leases seconds. *)

From Stdlib Require Import ZArith Lia Bool.
From Stdlib.Strings Require Import Byte.
From stdpp Require Import base numbers gmap option list.
From S2P Require Import Prelude Crypto IpAddress.

Inductive NextHopType := Direct | Relay | Unknown.
#[export] Instance next_hop_type_eq_dec : EqDecision NextHopType.
Proof. solve_decision. Defined.

Record Route := mkRoute {
  prefix : IPAddress;
  prefix_length : Z;
  type : NextHopType;
  next_hop : NodeId;
  destination : NodeId;
  path : list NodeId;
  origin : NodeId;
  advertiser : NodeId;
  sequence_number : Z;
  lease : Z;
  metric : Z;
  validated_at : Z;
  last_probe_sent_at : option Z;
  last_probe_validated_at : option Z;
  last_probe_rtt : option Z;
  probe_failed : bool;
  consecutive_probe_failures : Z;
  probe_hold_down_until : option Z;
}.

Definition ROUTING_MAX_ROUTES : nat := 2048.
Definition ROUTING_MAX_CANDIDATES_PER_PREFIX : nat := 8.
Definition ROUTE_MAX_LEASE : Z := 600.
Definition ROUTE_MAX_METRIC : Z := 1000000.
Definition ROUTE_PROBE_HOLD_DOWN : Z := 30.

Record RoutingEngine := mkEngine { routes : list Route; max_routes : nat }.

Definition valid_prefix_length (p : IPAddress) (len : Z) : bool :=
  valid_family p && (len <=? bit_width p).

Definition canonical_prefix (p : IPAddress) (len : Z) : IPAddress :=
  prefix_address (make_prefix p (wrap 8 len)).

Definition learned_route_lease_expired (route : Route) (now : Z) : bool :=
  bool_decide (type route = Relay) && (validated_at route <=? now) &&
  (secs (lease route) <=? now - validated_at route).

(** The loop over a path with the set of hops seen so far: no hop repeats. *)
Fixpoint loop_free (seen : gset NodeId) (hops : list NodeId) : bool :=
  match hops with
  | [] => true
  | hop :: hops =>
      if bool_decide (hop ∈ seen) then false else loop_free ({[hop]} ∪ seen) hops
  end.

(** The relay checks shared by [add_route] and [find_route]. *)
Definition complete_path (route : Route) : bool :=
  Nat.leb 2 (length (path route)) &&
  bool_decide (head (path route) = Some (next_hop route)) &&
  bool_decide (last (path route) = Some (destination route)) &&
  loop_free ∅ (path route).

(** Whether [add_route] admits the hops of a route. *)
Definition valid_hops (route : Route) : bool :=
  match type route with
  | Relay => negb (bool_decide (next_hop route = destination route)) && complete_path route
  | _ => bool_decide (next_hop route = destination route) &&
         Nat.eqb (length (path route)) 1 &&
         bool_decide (head (path route) = Some (destination route))
  end.

(** The route with its prefix canonical and its defaults filled in. *)
Definition make_candidate (route : Route) : Route :=
  mkRoute (canonical_prefix (prefix route) (prefix_length route)) (prefix_length route)
    (type route) (next_hop route) (destination route) (path route)
    (if bool_decide (origin route = zero32) then destination route else origin route)
    (if bool_decide (advertiser route = zero32) then next_hop route else advertiser route)
    (sequence_number route) (lease route) (metric route) (validated_at route)
    (last_probe_sent_at route) (last_probe_validated_at route) (last_probe_rtt route)
    (probe_failed route) (consecutive_probe_failures route) (probe_hold_down_until route).

(** Probe history carried over from [existing]. *)
Definition keep_probe_state (candidate existing : Route) : Route :=
  mkRoute (prefix candidate) (prefix_length candidate) (type candidate)
    (next_hop candidate) (destination candidate) (path candidate) (origin candidate)
    (advertiser candidate) (sequence_number candidate) (lease candidate)
    (metric candidate) (validated_at candidate)
    (last_probe_sent_at existing) (last_probe_validated_at existing)
    (last_probe_rtt existing) (probe_failed existing)
    (consecutive_probe_failures existing) (probe_hold_down_until existing).

Definition same_candidate (r candidate : Route) : Prop :=
  prefix r = prefix candidate /\ prefix_length r = prefix_length candidate /\
  type r = type candidate /\ next_hop r = next_hop candidate /\
  destination r = destination candidate.

Definition same_prefix (r candidate : Route) : Prop :=
  prefix r = prefix candidate /\ prefix_length r = prefix_length candidate.

#[export] Instance same_candidate_dec r c : Decision (same_candidate r c).
Proof. unfold same_candidate. apply _. Defined.
#[export] Instance same_prefix_dec r c : Decision (same_prefix r c).
Proof. unfold same_prefix. apply _. Defined.

Definition with_routes (e : RoutingEngine) (rs : list Route) : RoutingEngine :=
  mkEngine rs (max_routes e).

Definition add_route (route : Route) (e : RoutingEngine) : bool * RoutingEngine :=
  if negb (valid_prefix_length (prefix route) (prefix_length route)) ||
     bool_decide (type route = Unknown) then (false, e) else
  if negb (valid_hops route) then (false, e) else
  let candidate := make_candidate route in
  if (sequence_number candidate =? 0) || (lease candidate <=? 0) ||
     (ROUTE_MAX_LEASE <? lease candidate) || (ROUTE_MAX_METRIC <? metric candidate)
  then (false, e) else
  match list_find (λ r, same_candidate r candidate) (routes e) with
  | Some (i, existing) =>
      let candidate :=
        if sequence_number candidate =? sequence_number existing
        then keep_probe_state candidate existing else candidate in
      (true, with_routes e (<[i := candidate]> (routes e)))
  | None =>
      if Nat.leb (max_routes e) (length (routes e)) then (false, e) else
      let prefix_candidates := length (filter (λ r, same_prefix r candidate) (routes e)) in
      if Nat.leb ROUTING_MAX_CANDIDATES_PER_PREFIX prefix_candidates then (false, e) else
      (true, with_routes e (routes e ++ [candidate]))
  end.

(** [std::erase_if] with a boolean predicate. *)
Definition erase_if (f : Route -> bool) (e : RoutingEngine) : RoutingEngine :=
  with_routes e (filter (λ r, f r = false) (routes e)).

Definition remove_route (peer_id : NodeId) (e : RoutingEngine) : RoutingEngine :=
  erase_if (λ r, bool_decide (destination r = peer_id) || bool_decide (next_hop r = peer_id)) e.

Definition remove_older_learned_routes (orig : NodeId) (p : IPAddress) (len minimum_sequence : Z)
    (e : RoutingEngine) : nat * RoutingEngine :=
  if negb (valid_prefix_length p len) then (0%nat, e) else
  let canonical := canonical_prefix p len in
  let e' := erase_if (λ r, bool_decide (type r = Relay) && bool_decide (origin r = orig) &&
              bool_decide (prefix r = canonical) && (prefix_length r =? len) &&
              (sequence_number r <? minimum_sequence)) e in
  ((length (routes e) - length (routes e'))%nat, e').

Definition expire_learned_routes (now : Z) (e : RoutingEngine) : nat * RoutingEngine :=
  let e' := erase_if (λ r, learned_route_lease_expired r now) e in
  ((length (routes e) - length (routes e'))%nat, e').

(** The candidate a probe refers to. *)
Record ProbeKey := mkProbeKey {
  pk_destination : NodeId; pk_next_hop : NodeId; pk_prefix : IPAddress;
  pk_prefix_length : Z; pk_sequence : Z }.

Definition probe_matches (k : ProbeKey) (canonical : IPAddress) (r : Route) : Prop :=
  destination r = pk_destination k /\ next_hop r = pk_next_hop k /\
  prefix r = canonical /\ prefix_length r = pk_prefix_length k /\
  sequence_number r = pk_sequence k.

#[export] Instance probe_matches_dec k c r : Decision (probe_matches k c r).
Proof. unfold probe_matches. apply _. Defined.

(** Find the candidate and assign to it. *)
Definition update_probed (k : ProbeKey) (f : Route -> Route) (e : RoutingEngine)
    : bool * RoutingEngine :=
  if negb (valid_prefix_length (pk_prefix k) (pk_prefix_length k)) then (false, e) else
  let canonical := canonical_prefix (pk_prefix k) (pk_prefix_length k) in
  match list_find (probe_matches k canonical) (routes e) with
  | None => (false, e)
  | Some (i, r) => (true, with_routes e (<[i := f r]> (routes e)))
  end.

Definition set_probe (r : Route) (sent validated rtt : option Z) (failed : bool)
    (failures : Z) (hold : option Z) : Route :=
  mkRoute (prefix r) (prefix_length r) (type r) (next_hop r) (destination r) (path r)
    (origin r) (advertiser r) (sequence_number r) (lease r) (metric r) (validated_at r)
    sent validated rtt failed failures hold.

Definition mark_probe_sent (k : ProbeKey) (now : Z) (e : RoutingEngine)
    : bool * RoutingEngine :=
  update_probed k (λ r, set_probe r (Some now) (last_probe_validated_at r)
    (last_probe_rtt r) (probe_failed r) (consecutive_probe_failures r)
    (probe_hold_down_until r)) e.

(** The assignments of a successful probe. *)
Definition probe_success (now rtt : Z) (r : Route) : Route :=
  let held := match probe_hold_down_until r with
              | Some t => t <=? now
              | None => false
              end in
  if negb (probe_failed r) || held
  then set_probe r (last_probe_sent_at r) (Some now) (Some (to_ms rtt)) false 0 None
  else set_probe r (last_probe_sent_at r) (Some now) (Some (to_ms rtt)) (probe_failed r)
         (consecutive_probe_failures r) (probe_hold_down_until r).

Definition record_probe_success (k : ProbeKey) (now rtt : Z) (e : RoutingEngine)
    : bool * RoutingEngine :=
  if rtt <? 0 then (false, e) else update_probed k (probe_success now rtt) e.

(** The assignments of a failed probe. *)
Definition probe_failure (now : Z) (r : Route) : Route :=
  set_probe r (last_probe_sent_at r) (last_probe_validated_at r) (last_probe_rtt r) true
    (if consecutive_probe_failures r <? 2 ^ 32 - 1
     then consecutive_probe_failures r + 1 else consecutive_probe_failures r)
    (Some (now + secs ROUTE_PROBE_HOLD_DOWN)).

Definition record_probe_failure (k : ProbeKey) (now : Z) (e : RoutingEngine)
    : bool * RoutingEngine :=
  update_probed k (probe_failure now) e.

Definition clear_routes (e : RoutingEngine) : RoutingEngine := with_routes e [].

(** ** Lookup *)

Definition route_matches (dest_ip : IPAddress) (r : Route) : bool :=
  negb (probe_failed r) && prefix_contains (make_prefix (prefix r) (wrap 8 (prefix_length r))) dest_ip.

(** Whether the loop replaces [best] by [route]. *)
Definition replaces (route best : Route) : bool :=
  if prefix_length best <? prefix_length route then true
  else if prefix_length route =? prefix_length best then
    match type route, type best with
    | Direct, Relay => true
    | Relay, Relay => Nat.ltb (length (path route)) (length (path best))
    | _, _ => false
    end
  else false.

Fixpoint best_route (dest_ip : IPAddress) (best : option Route) (rs : list Route)
    : option Route :=
  match rs with
  | [] => best
  | route :: rs =>
      if negb (route_matches dest_ip route) then best_route dest_ip best rs
      else match best with
           | None => best_route dest_ip (Some route) rs
           | Some b => best_route dest_ip (Some (if replaces route b then route else b)) rs
           end
  end.

Definition find_route (dest_ip : IPAddress) (e : RoutingEngine) : option Route :=
  match best_route dest_ip None (routes e) with
  | None => None
  | Some best =>
      match type best with
      | Relay => if complete_path best then Some best else None
      | _ => Some best
      end
  end.

Definition find_peer (dest_ip : IPAddress) (e : RoutingEngine) : option NodeId :=
  destination <$> find_route dest_ip e.
Definition find_next_hop (dest_ip : IPAddress) (e : RoutingEngine) : option NodeId :=
  next_hop <$> find_route dest_ip e.
Definition routes_to (dest : NodeId) (e : RoutingEngine) : list Route :=
  filter (λ r, destination r = dest) (routes e).

(** ** Invariant *)

(** What identifies a candidate, and the prefix it is for. *)
Definition candidate_key (r : Route) : (IPAddress * Z) * (NextHopType * NodeId * NodeId) :=
  ((prefix r, prefix_length r), (type r, next_hop r, destination r)).

Lemma same_candidate_key r c : same_candidate r c <-> candidate_key r = candidate_key c.
Proof.
  unfold same_candidate, candidate_key. split; [by intros (-> & -> & -> & -> & ->)|].
  intros Heq. by simplify_eq.
Qed.

(** The number of candidates for a prefix. *)
Definition prefix_count (pk : IPAddress * Z) (rs : list Route) : nat :=
  length (filter (λ k, fst k = pk) (candidate_key <$> rs)).

Record route_wf (r : Route) : Prop := {
  wf_ip : ip_wf (prefix r);
  wf_len : 0 <= prefix_length r;
  wf_valid : valid_prefix_length (prefix r) (prefix_length r) = true;
  wf_canonical : canonical_prefix (prefix r) (prefix_length r) = prefix r;
  wf_type : type r <> Unknown;
  wf_hops : valid_hops r = true;
  wf_sequence : sequence_number r <> 0;
  wf_lease : 0 < lease r <= ROUTE_MAX_LEASE;
  wf_metric : metric r <= ROUTE_MAX_METRIC;
}.

(** Every route is well-formed, the table and each prefix are within their
    limits, and a candidate occurs once. *)
Record engine_inv (e : RoutingEngine) : Prop := {
  inv_wf : Forall route_wf (routes e);
  inv_max : (length (routes e) <= max_routes e)%nat;
  inv_candidates : NoDup (candidate_key <$> routes e);
  inv_prefix pk : (prefix_count pk (routes e) <= ROUTING_MAX_CANDIDATES_PER_PREFIX)%nat;
}.

(** The typing of a route passed to [add_route]. *)
Definition route_typed (r : Route) : Prop := ip_wf (prefix r) /\ 0 <= prefix_length r.

(** One call of a public operation; clock arguments lie in [lo, hi). *)
Inductive engine_step (lo hi : Z) (e : RoutingEngine) : RoutingEngine -> Prop :=
  | es_add r : route_typed r -> engine_step lo hi e (snd (add_route r e))
  | es_remove peer : engine_step lo hi e (remove_route peer e)
  | es_older o p len s : engine_step lo hi e (snd (remove_older_learned_routes o p len s e))
  | es_expire now : lo <= now < hi -> engine_step lo hi e (snd (expire_learned_routes now e))
  | es_sent k now : lo <= now < hi -> engine_step lo hi e (snd (mark_probe_sent k now e))
  | es_success k now rtt : lo <= now < hi -> engine_step lo hi e (snd (record_probe_success k now rtt e))
  | es_failure k now : lo <= now < hi -> engine_step lo hi e (snd (record_probe_failure k now e))
  | es_clear : engine_step lo hi e (clear_routes e).

Inductive engine_reachable (limit : nat) : RoutingEngine -> Prop :=
  | er_init : engine_reachable limit (mkEngine [] limit)
  | er_step e lo hi e' : engine_reachable limit e -> engine_step lo hi e e' ->
      engine_reachable limit e'.

(** *** Canonical prefixes *)

Lemma valid_prefix_bounds p len :
  valid_prefix_length p len = true -> 0 <= len -> wrap 8 len = len /\
  prefix_valid (mkPrefix p len) = true.
Proof.
  intros Hv Hl. unfold valid_prefix_length in Hv. split; [|exact Hv].
  apply andb_true_iff in Hv as [Hv Hle]. apply Z.leb_le in Hle.
  apply wrap_small. unfold in_width. destruct (valid_width _ Hv) as (w & Hw & Hbw & _). lia.
Qed.

Lemma canonical_prefix_wf p len :
  ip_wf p -> 0 <= len -> valid_prefix_length p len = true ->
  let c := canonical_prefix p len in
  ip_wf c /\ valid_prefix_length c len = true /\ canonical_prefix c len = c /\
  family c = family p /\ network_part c len = network_part p len.
Proof.
  intros Hp Hl Hv. destruct (valid_prefix_bounds p len Hv Hl) as [Hw Hpv].
  cbv zeta. unfold canonical_prefix, make_prefix. rewrite Hw.
  set (q := mkPrefix p len) in *.
  destruct (canonicalize_value q Hp Hpv Hl) as [Hwf _].
  destruct (canonicalize_shape q) as [Hf Hlen].
  pose proof (canonicalize_network q Hp Hpv Hl) as Hnet.
  pose proof (canonicalize_valid q) as Hcv. rewrite Hpv in Hcv.
  assert (canonicalize q = mkPrefix (prefix_address (canonicalize q)) len) as Hq
    by (destruct (canonicalize q); by simplify_eq/=).
  split; [done|]. split; [by rewrite Hq in Hcv|]. split; [|done].
  rewrite <- Hq. f_equal. apply canonicalize_eq; try done; rewrite ?Hlen; done.
Qed.

(** *** Preservation *)

Lemma make_candidate_wf r :
  route_typed r -> valid_prefix_length (prefix r) (prefix_length r) = true ->
  type r <> Unknown -> valid_hops r = true -> sequence_number r <> 0 ->
  0 < lease r <= ROUTE_MAX_LEASE -> metric r <= ROUTE_MAX_METRIC ->
  route_wf (make_candidate r).
Proof.
  intros [Hip Hlen] Hv Ht Hh Hs Hle Hm.
  destruct (canonical_prefix_wf _ _ Hip Hlen Hv) as (? & ? & ? & _). by split.
Qed.

(** Only the probe history differs. *)
Definition same_static (r r' : Route) : Prop :=
  exists sent validated rtt failed failures hold,
    r' = set_probe r sent validated rtt failed failures hold.

Lemma same_static_wf r r' : same_static r r' -> route_wf r -> route_wf r'.
Proof. intros (? & ? & ? & ? & ? & ? & ->) []. by split. Qed.

Lemma same_static_key r r' : same_static r r' -> candidate_key r' = candidate_key r.
Proof. by intros (? & ? & ? & ? & ? & ? & ->). Qed.

(** Replacing a candidate in place. *)
Lemma replace_inv e i r r' :
  engine_inv e -> routes e !! i = Some r -> route_wf r' ->
  candidate_key r' = candidate_key r -> engine_inv (with_routes e (<[i := r']> (routes e))).
Proof.
  intros [Hwf Hmax Hnd Hpc] Hi Hr' Hk.
  assert (candidate_key <$> <[i := r']> (routes e) = candidate_key <$> routes e) as Hkeys.
  { rewrite list_fmap_insert, Hk. apply list_insert_id. by rewrite list_lookup_fmap, Hi. }
  split; simpl.
  - by apply Forall_insert.
  - by rewrite length_insert.
  - by rewrite Hkeys.
  - intros pk. unfold prefix_count. rewrite Hkeys. apply Hpc.
Qed.

Lemma erase_inv f e : engine_inv e -> engine_inv (erase_if f e).
Proof.
  intros [Hwf Hmax Hnd Hpc]. unfold erase_if.
  set (rs := filter (λ r, f r = false) (routes e)).
  assert (rs `sublist_of` routes e) as Hsub by apply sublist_filter.
  split; simpl.
  - by eapply Forall_sublist.
  - apply sublist_length in Hsub. lia.
  - eapply sublist_NoDup; [exact Hnd|]. by apply fmap_sublist.
  - intros pk. etrans; [|apply (Hpc pk)]. unfold prefix_count.
    apply sublist_length, filter_sublist_mono, fmap_sublist, Hsub.
Qed.

Lemma count_filter c rs :
  length (filter (λ r, same_prefix r c) rs) = prefix_count (prefix c, prefix_length c) rs.
Proof.
  unfold prefix_count. induction rs as [|r rs IH]; [done|].
  rewrite fmap_cons, !filter_cons. unfold same_prefix in *.
  destruct (decide (prefix r = prefix c /\ prefix_length r = prefix_length c)) as [[H1 H2]|Hn];
    [rewrite decide_True by (simpl; congruence)|rewrite decide_False];
    simpl; try congruence.
  intros Heq. simpl in Heq. apply Hn. by simplify_eq.
Qed.

Lemma prefix_count_app pk rs r :
  prefix_count pk (rs ++ [r]) =
  (prefix_count pk rs + (if decide (fst (candidate_key r) = pk) then 1 else 0))%nat.
Proof.
  unfold prefix_count. rewrite fmap_app, filter_app, length_app. f_equal.
  change (candidate_key <$> [r]) with [candidate_key r].
  rewrite filter_cons, filter_nil. by case_decide.
Qed.

Lemma add_route_inv r e : route_typed r -> engine_inv e -> engine_inv (snd (add_route r e)).
Proof.
  intros Ht Hi. unfold add_route.
  destruct (negb _ || _) eqn:E1; [done|]. apply orb_false_iff in E1 as [E1 E2].
  apply negb_false_iff in E1. apply bool_decide_eq_false in E2.
  destruct (negb (valid_hops r)) eqn:E3; [done|]. apply negb_false_iff in E3.
  cbv zeta. cbn [sequence_number lease metric make_candidate].
  destruct (_ || _ || _ || _) eqn:E4; [done|].
  rewrite !orb_false_iff, Z.eqb_neq, Z.leb_gt, !Z.ltb_ge in E4.
  destruct E4 as (((Hs & Hl) & Hl') & Hm).
  assert (route_wf (make_candidate r)) as Hwf by (apply make_candidate_wf; auto).
  destruct (list_find _ _) as [[i x]|] eqn:Ef; cbn [snd].
  - apply list_find_Some in Ef as (Hx & Hsame & _). apply same_candidate_key in Hsame.
    apply (replace_inv e i x); [done|done| |by case_match].
    case_match; [|done]. destruct Hwf. by split.
  - apply list_find_None in Ef.
    destruct (Nat.leb_spec (max_routes e) (length (routes e))); [done|].
    rewrite count_filter.
    destruct (Nat.leb_spec ROUTING_MAX_CANDIDATES_PER_PREFIX
      (prefix_count (prefix (make_candidate r), prefix_length (make_candidate r)) (routes e)));
      [done|]. cbn [snd]. destruct Hi as [Hw Hmax Hnd Hpc]. split; simpl.
    + apply Forall_app. by split; [|constructor].
    + rewrite length_app. simpl. lia.
    + rewrite fmap_app. apply NoDup_app. split; [done|].
      split; [|apply NoDup_singleton]. intros k Hk Hk'.
      apply list_elem_of_singleton in Hk' as ->. apply list_elem_of_fmap in Hk as (x & Hx & Hin).
      rewrite Forall_forall in Ef. apply (Ef x Hin). by apply same_candidate_key.
    + intros pk. rewrite prefix_count_app. case_decide as Hd; [|specialize (Hpc pk); lia].
      rewrite <- Hd. change (fst (candidate_key (make_candidate r))) with
        (prefix (make_candidate r), prefix_length (make_candidate r)). lia.
Qed.

Lemma update_probed_inv k f e :
  (forall r, same_static r (f r)) -> engine_inv e -> engine_inv (snd (update_probed k f e)).
Proof.
  intros Hf Hi. unfold update_probed. destruct (negb _); [done|].
  destruct (list_find _ _) as [[i r]|] eqn:El; [|done].
  apply list_find_Some in El as (Hr & _ & _). cbn [snd].
  apply (replace_inv e i r); [done|done| |by apply same_static_key].
  eapply same_static_wf; [done|]. eapply Forall_lookup_1; [apply Hi|done].
Qed.

Lemma probe_success_static now rtt r : same_static r (probe_success now rtt r).
Proof. unfold probe_success, same_static. case_match; eauto 10. Qed.

Lemma engine_step_inv lo hi e e' : engine_step lo hi e e' -> engine_inv e -> engine_inv e'.
Proof.
  intros [r Ht|peer|o p len s|now ?|k now ?|k now rtt ?|k now ?|] Hi.
  - by apply add_route_inv.
  - by apply erase_inv.
  - unfold remove_older_learned_routes. case_match; [done|]. by apply erase_inv.
  - by apply erase_inv.
  - apply update_probed_inv; [|done]. intros r. unfold same_static. eauto 10.
  - unfold record_probe_success. case_match; [done|].
    apply update_probed_inv; [|done]. apply probe_success_static.
  - apply update_probed_inv; [|done]. intros r. unfold same_static, probe_failure. eauto 10.
  - split; simpl; [done|lia|by apply NoDup_nil|]. intros pk. unfold prefix_count. simpl. lia.
Qed.

Lemma engine_reachable_inv limit e : engine_reachable limit e -> engine_inv e.
Proof.
  induction 1 as [|e lo hi e' _ IH Hs]; [|by eapply engine_step_inv].
  split; simpl; [done|lia|by apply NoDup_nil|]. intros pk. unfold prefix_count. simpl. lia.
Qed.

(** ** Lookup is longest-prefix match *)

(** The address lies in the route's network. *)
Definition covers (r : Route) (dest : IPAddress) : Prop :=
  family dest = family (prefix r) /\
  network_part dest (prefix_length r) = network_part (prefix r) (prefix_length r).

Lemma route_matches_spec dest r :
  ip_wf dest -> route_wf r ->
  route_matches dest r = true <-> probe_failed r = false /\ covers r dest.
Proof.
  intros Hd Hwf. unfold route_matches, covers.
  destruct (valid_prefix_bounds _ _ (wf_valid _ Hwf) (wf_len _ Hwf)) as [Hw Hpv].
  pose proof (wf_canonical _ Hwf) as Hc. unfold canonical_prefix in Hc.
  assert (make_prefix (prefix r) (wrap 8 (prefix_length r)) = mkPrefix (prefix r) (prefix_length r))
    as ->.
  { unfold make_prefix in *. rewrite Hw in *.
    destruct (canonicalize_shape (mkPrefix (prefix r) (prefix_length r))) as [_ Hl].
    destruct (canonicalize _); by simplify_eq/=. }
  rewrite andb_true_iff, negb_true_iff, prefix_contains_value by (apply Hwf || done).
  simpl. tauto.
Qed.

Lemma loop_free_spec seen hops :
  loop_free seen hops = true <-> NoDup hops /\ (forall h, h ∈ hops -> h ∉ seen).
Proof.
  revert seen. induction hops as [|h hops IH]; intros seen; simpl.
  { split; [|done]. intros _. split; [apply NoDup_nil; done|set_solver]. }
  case_bool_decide as Hh.
  - split; [done|]. intros [_ Hn]. exfalso. apply (Hn h); [by left|done].
  - rewrite IH, NoDup_cons. split.
    + intros [Hnd Hn]. split; [split; [|done]|].
      * intros Hin. apply (Hn h Hin). set_solver.
      * intros x [->|Hx]%elem_of_cons; [done|]. specialize (Hn x Hx). set_solver.
    + intros [[Hni Hnd] Hn]. split; [done|]. intros x Hx.
      assert (x <> h) by congruence. specialize (Hn x ltac:(by right)). set_solver.
Qed.

(** The hops of a stored route: from [next_hop] to [destination] without
    repetition; a direct route has exactly one. *)
Lemma route_path_spec r :
  route_wf r ->
  NoDup (path r) /\ head (path r) = Some (next_hop r) /\
  last (path r) = Some (destination r) /\
  (type r = Direct /\ length (path r) = 1%nat \/
   type r = Relay /\ (2 <= length (path r))%nat).
Proof.
  intros Hwf. pose proof (wf_hops _ Hwf) as Hh. pose proof (wf_type _ Hwf) as Ht.
  unfold valid_hops, complete_path in Hh. destruct (type r) eqn:Ety; [| |done].
  - apply andb_true_iff in Hh as [[Hn Hl]%andb_true_iff Hhd].
    apply bool_decide_eq_true in Hn, Hhd. apply Nat.eqb_eq in Hl.
    destruct (path r) as [|h [|]]; try done. injection Hhd as ->.
    split; [apply NoDup_singleton|]. simpl. rewrite Hn. auto.
  - rewrite !andb_true_iff, !bool_decide_eq_true, loop_free_spec in Hh.
    destruct Hh as (_ & ((Hl & Hhd) & Hla) & Hnd & _). apply Nat.leb_le in Hl.
    split_and!; auto.
Qed.

(** Strict preference: the longer prefix, then the shorter path. *)
Definition better (r b : Route) : Prop :=
  prefix_length b < prefix_length r \/
  prefix_length r = prefix_length b /\ (length (path r) < length (path b))%nat.

Lemma replaces_better r b : route_wf r -> route_wf b -> replaces r b = true <-> better r b.
Proof.
  intros Hr Hb. destruct (route_path_spec r Hr) as (_ & _ & _ & Pr).
  destruct (route_path_spec b Hb) as (_ & _ & _ & Pb).
  unfold replaces, better. destruct (Z.ltb_spec (prefix_length b) (prefix_length r)); [by split; [left|]|].
  destruct (Z.eqb_spec (prefix_length r) (prefix_length b)) as [He|].
  - destruct Pr as [[-> Lr]|[-> Lr]], Pb as [[-> Lb]|[-> Lb]]; rewrite ?Lr, ?Lb, ?Nat.ltb_lt;
      split; intros; try done; try lia.
  - split; [done|]. lia.
Qed.

Lemma best_route_spec dest best rs :
  Forall route_wf rs -> (forall b, best = Some b -> route_wf b) ->
  match best_route dest best rs with
  | None => best = None /\ Forall (λ r, route_matches dest r = false) rs
  | Some b =>
      (best = Some b \/ b ∈ rs /\ route_matches dest b = true) /\ route_wf b /\
      (forall r, best = Some r \/ r ∈ rs /\ route_matches dest r = true -> ~ better r b)
  end.
Proof.
  intros Hrs. revert best. induction Hrs as [|r rs Hr Hrs IH]; intros best Hb; simpl.
  { destruct best as [b|]; [|done]. split; [by left|]. split; [by apply Hb|].
    intros r [[= ->]|[Hin _]]; [unfold better; lia|by apply not_elem_of_nil in Hin]. }
  destruct (route_matches dest r) eqn:Em; simpl.
  2:{ specialize (IH best Hb). destruct (best_route dest best rs) as [b|].
      - destruct IH as (Hin & Hwf & Hbest). split; [set_solver|]. split; [done|].
        intros x [->|[[->|Hx]%elem_of_cons Hm]]; [by apply Hbest; left|congruence|].
        apply Hbest. auto.
      - destruct IH as [-> Hn]. by split; [|constructor]. }
  set (best' := match best with Some b => if replaces r b then r else b | None => r end).
  assert (forall b, Some best' = Some b -> route_wf b) as Hb'.
  { intros b [= <-]. unfold best'. destruct best as [b0|]; [|done].
    destruct (replaces r b0); [done|by apply Hb]. }
  specialize (IH (Some best') Hb').
  replace (match best with
    | Some b => best_route dest (Some (if replaces r b then r else b)) rs
    | None => best_route dest (Some r) rs end) with (best_route dest (Some best') rs)
    by (unfold best'; by destruct best).
  destruct (best_route dest (Some best') rs) as [b|]; [|by destruct IH].
  destruct IH as (Hin & Hwf & Hbest).
  assert (~ better best' b) as Hnb by (apply Hbest; by left).
  assert (forall x, x = r \/ best = Some x -> ~ better x best') as Hx.
  { intros x Hx. unfold best'. destruct best as [b0|].
    - pose proof (replaces_better r b0 Hr (Hb b0 eq_refl)) as Hrb.
      destruct (replaces r b0).
      + pose proof (proj1 Hrb eq_refl) as Hbt. unfold better in *.
        destruct Hx as [->|[= ->]]; lia.
      + destruct Hx as [->|[= ->]]; [|unfold better; lia]. intros Hbt%Hrb. done.
    - destruct Hx as [->|?]; [unfold better; lia|done]. }
  split.
  - destruct Hin as [[= <-]|[Hin Hm]]; [|right; split; [by right|done]].
    unfold best'. destruct best as [b0|]; [|right; split; [left|done]].
    destruct (replaces r b0); [right; split; [left|done]|by left].
  - split; [done|]. intros x [Hxb|[[->|Hxin]%elem_of_cons Hm]].
    + specialize (Hx x (or_intror Hxb)). unfold better in *. lia.
    + specialize (Hx r (or_introl eq_refl)). unfold better in *. lia.
    + apply Hbest. auto.
Qed.

Lemma find_route_spec dest e :
  engine_inv e -> ip_wf dest ->
  match find_route dest e with
  | None => forall r, r ∈ routes e -> probe_failed r = true \/ ~ covers r dest
  | Some b => b ∈ routes e /\ probe_failed b = false /\ covers b dest /\
      forall r, r ∈ routes e -> probe_failed r = false -> covers r dest -> ~ better r b
  end.
Proof.
  intros Hi Hd. unfold find_route. pose proof (inv_wf _ Hi) as Hwf.
  pose proof (best_route_spec dest None (routes e) Hwf ltac:(done)) as Hb.
  rewrite Forall_forall in Hwf.
  destruct (best_route dest None (routes e)) as [b|].
  - destruct Hb as ([?|[Hin Hm]] & Hbwf & Hbest); [done|].
    apply route_matches_spec in Hm as [Hnf Hc]; [|done..].
    assert (match type b with
            | Relay => if complete_path b then Some b else None
            | _ => Some b
            end = Some b) as ->.
    { pose proof (wf_hops _ Hbwf) as Hh. unfold valid_hops in Hh.
      destruct (type b); [done| |done]. by apply andb_true_iff in Hh as [_ ->]. }
    split; [done|]. split; [done|]. split; [done|].
    intros r Hr Hrf Hrc. apply Hbest. right. split; [done|].
    apply route_matches_spec; [done|by apply Hwf|done].
  - destruct Hb as [_ Hn]. intros r Hr. rewrite Forall_forall in Hn. specialize (Hn r Hr).
    destruct (probe_failed r) eqn:Ef; [by left|]. right. intros Hc.
    assert (route_matches dest r = true); [|congruence].
    apply route_matches_spec; [done|by apply Hwf|done].
Qed.

(** The routing table stays consistent under every sequence of operations:
    all stored routes are canonical, valid and loop-free with a bounded lease and
    metric, the table and every prefix stay within their limits, and no candidate
    is stored twice. *)
Theorem routing_table_invariant limit e : engine_reachable limit e -> engine_inv e.
Proof. apply engine_reachable_inv. Qed.

(** C32: [find_route] is longest-prefix match over the live candidates: it returns
    a stored candidate that is not suppressed by a failed probe and whose network
    contains the address, with the longest prefix and, among those, the fewest
    hops; its path leads without a loop from the next hop to the destination; and
    it returns nothing only when no live candidate covers the address. *)
Theorem find_route_longest_prefix limit e dest :
  engine_reachable limit e -> ip_wf dest ->
  match find_route dest e with
  | None => forall r, r ∈ routes e -> probe_failed r = true \/ ~ covers r dest
  | Some b =>
      (b ∈ routes e /\ probe_failed b = false /\ covers b dest) /\
      (forall r, r ∈ routes e -> probe_failed r = false -> covers r dest ->
         prefix_length r <= prefix_length b /\
         (prefix_length r = prefix_length b -> (length (path b) <= length (path r))%nat)) /\
      NoDup (path b) /\ head (path b) = Some (next_hop b) /\
      last (path b) = Some (destination b)
  end.
Proof.
  intros Hi%engine_reachable_inv Hd. pose proof (find_route_spec dest e Hi Hd) as Hf.
  destruct (find_route dest e) as [b|]; [|done].
  destruct Hf as (Hin & Hnf & Hc & Hbest). split; [done|]. split.
  - intros r Hr Hrf Hrc. specialize (Hbest r Hr Hrf Hrc). unfold better in Hbest. lia.
  - assert (route_wf b) as Hwf by (pose proof (inv_wf _ Hi) as Hw;
      rewrite Forall_forall in Hw; by apply Hw).
    destruct (route_path_spec b Hwf) as (? & ? & ? & _). auto.
Qed.

(** Lease expiry removes exactly the relay routes whose lease has run out,
    keeps every other route in its order and returns how many it removed;
    afterwards no expired learned route can be selected. *)
Theorem expire_removes_exactly_expired now e :
  let '(n, e') := expire_learned_routes now e in
  routes e' = filter (λ r, learned_route_lease_expired r now = false) (routes e) /\
  (n + length (routes e'))%nat = length (routes e) /\
  (forall r, r ∈ routes e' <-> r ∈ routes e /\ learned_route_lease_expired r now = false) /\
  (forall dest r, find_route dest e' = Some r -> learned_route_lease_expired r now = false).
Proof.
  unfold expire_learned_routes, erase_if; simpl.
  assert (forall r, r ∈ filter (λ r, learned_route_lease_expired r now = false) (routes e) <->
    r ∈ routes e /\ learned_route_lease_expired r now = false) as Hin
    by (intros r; rewrite list_elem_of_filter; tauto).
  split; [done|]. split; [|split; [done|]].
  - pose proof (sublist_length _ _ (sublist_filter
      (λ r, learned_route_lease_expired r now = false) (routes e))). lia.
  - intros dest r. unfold find_route; simpl. intros Hf.
    assert (forall best rs b, best_route dest best rs = Some b -> best = Some b \/ b ∈ rs) as Hb.
    { intros best rs. revert best. induction rs as [|x rs IH]; intros best b; simpl; [by auto|].
      destruct (route_matches dest x); simpl.
      - destruct best as [b0|]; intros [[= <-]|Hx]%IH; [|by right; right| |by right; right].
        + destruct (replaces x b0); [right; left|by left].
        + right; left.
      - intros [?|Hx]%IH; [by left|by right; right]. }
    destruct (best_route _ _ _) as [b|] eqn:Eb; [|done].
    apply Hb in Eb as [?|Eb]; [done|]. apply Hin in Eb as [_ Hexp].
    repeat case_match; by simplify_eq.
Qed.

(** ** Probe hold-down *)

(** The candidate [k] with sequence number [s] is in the table. *)
Definition stored (k : (IPAddress * Z) * (NextHopType * NodeId * NodeId)) (s : Z)
    (e : RoutingEngine) (r : Route) : Prop :=
  r ∈ routes e /\ candidate_key r = k /\ sequence_number r = s.

(** Operations with clocks in [lo, hi) during which it stays in the table. *)
Inductive stays_stored (lo hi : Z) k s : RoutingEngine -> RoutingEngine -> Prop :=
  | stays_refl e : stays_stored lo hi k s e e
  | stays_step e e' e'' :
      stays_stored lo hi k s e e' -> engine_step lo hi e' e'' ->
      (exists r, stored k s e'' r) -> stays_stored lo hi k s e e''.

(** The candidate is suppressed until [t] at least. *)
Definition held (t : Z) (r : Route) : Prop :=
  probe_failed r = true /\ exists u, probe_hold_down_until r = Some u /\ t <= u.

Lemma stored_unique k s s' e r r' :
  engine_inv e -> stored k s e r -> stored k s' e r' -> r = r'.
Proof.
  intros Hi (Hin & Hk & _) (Hin' & Hk' & _).
  apply list_elem_of_lookup_1 in Hin as [i Hi1]. apply list_elem_of_lookup_1 in Hin' as [j Hj].
  assert (i = j) as ->; [|congruence].
  eapply NoDup_lookup; [apply (inv_candidates _ Hi)| |].
  - rewrite list_lookup_fmap, Hi1. simpl. reflexivity.
  - rewrite list_lookup_fmap, Hj. simpl. by rewrite Hk, Hk'.
Qed.

(** Replacing one route by another with the same key that keeps the hold. *)
Lemma replace_held t k s e i x x' r :
  routes e !! i = Some x -> candidate_key x' = candidate_key x ->
  sequence_number x' = sequence_number x ->
  (forall r0, stored k s e r0 -> held t r0) -> (held t x -> held t x') ->
  stored k s (with_routes e (<[i := x']> (routes e))) r -> held t r.
Proof.
  intros Hx Hk Hs Hall Hx' (Hin & Hkr & Hsr). simpl in Hin.
  apply list_elem_of_lookup_1 in Hin as [j Hj].
  apply list_lookup_insert_Some in Hj as [(-> & <- & _)|[_ Hj]].
  - apply Hx', Hall. split; [by eapply list_elem_of_lookup_2|]. by rewrite <- Hk, <- Hs.
  - apply Hall. split; [by eapply list_elem_of_lookup_2|done].
Qed.

Lemma update_probed_held t k s key f e r :
  (forall x, candidate_key (f x) = candidate_key x) ->
  (forall x, sequence_number (f x) = sequence_number x) ->
  (forall x, held t x -> held t (f x)) -> (forall r0, stored k s e r0 -> held t r0) ->
  stored k s (snd (update_probed key f e)) r -> held t r.
Proof.
  intros Hk Hs Hf Hall. unfold update_probed. destruct (negb _); [apply Hall|].
  destruct (list_find _ _) as [[i x]|] eqn:El; [|apply Hall].
  apply list_find_Some in El as (Hx & _ & _). apply (replace_held t k s e i x); auto.
Qed.

Lemma erase_held t k s f e r :
  (forall r0, stored k s e r0 -> held t r0) -> stored k s (erase_if f e) r -> held t r.
Proof.
  intros Hall (Hin & Hk & Hs). apply Hall. unfold erase_if in Hin. simpl in Hin.
  apply list_elem_of_filter in Hin as [_ Hin]. done.
Qed.

Lemma add_route_held t k s x e r :
  engine_inv e -> (exists r0, stored k s e r0) -> (forall r0, stored k s e r0 -> held t r0) ->
  stored k s (snd (add_route x e)) r -> held t r.
Proof.
  intros Hi [r0 Hr0] Hall. unfold add_route. cbv zeta.
  destruct (negb _ || _); [apply Hall|]. destruct (negb _); [apply Hall|].
  destruct (_ || _ || _ || _); [apply Hall|].
  set (c := make_candidate x).
  destruct (list_find _ _) as [[i y]|] eqn:El; cbn [snd].
  - apply list_find_Some in El as (Hy & Hsame & _). apply same_candidate_key in Hsame.
    destruct (Z.eqb_spec (sequence_number c) (sequence_number y)) as [Hseq|Hseq].
    + by apply (replace_held t k s e i y).
    + intros (Hin & Hk & Hs). simpl in Hin. apply list_elem_of_lookup_1 in Hin as [j Hj].
      apply list_lookup_insert_Some in Hj as [(-> & <- & _)|[_ Hj]].
      * exfalso. apply Hseq.
        assert (r0 = y) as <-; [|destruct Hr0 as (_ & _ & ->); congruence].
        eapply (stored_unique k s (sequence_number y)); [done..|].
        split; [by eapply list_elem_of_lookup_2|]. split; [congruence|done].
      * apply Hall. split; [by eapply list_elem_of_lookup_2|done].
  - apply list_find_None in El.
    destruct (Nat.leb _ _); [apply Hall|]. destruct (Nat.leb _ _); [apply Hall|].
    intros (Hin & Hk & Hs). simpl in Hin. apply elem_of_app in Hin as [Hin|Hin].
    { by apply Hall. }
    apply list_elem_of_singleton in Hin as ->. exfalso.
    rewrite Forall_forall in El. destruct Hr0 as (Hin0 & Hk0 & _).
    apply (El r0 Hin0), same_candidate_key. congruence.
Qed.

Lemma step_held lo k s e e' :
  let hi := lo + secs ROUTE_PROBE_HOLD_DOWN in
  engine_inv e -> engine_step lo hi e e' -> (exists r0, stored k s e r0) ->
  (forall r, stored k s e r -> held hi r) -> forall r, stored k s e' r -> held hi r.
Proof.
  cbv zeta.
  intros Hi [x Ht|peer|o p len q|now Hn|key now Hn|key now rtt Hn|key now Hn|] Hex Hall r.
  - by apply add_route_held.
  - by apply erase_held.
  - unfold remove_older_learned_routes. case_match; [apply Hall|]. by apply erase_held.
  - by apply erase_held.
  - by apply update_probed_held.
  - unfold record_probe_success. case_match; [apply Hall|].
    apply update_probed_held; auto; intros x; unfold probe_success; [by case_match..|].
    intros Hh. pose proof Hh as [Hf (u & Hu & Hle)]. rewrite Hf, Hu. simpl.
    destruct (Z.leb_spec u now); [lia|]. split; [done|]. by exists u.
  - apply update_probed_held; auto. intros x _. split; [done|].
    eexists. split; [reflexivity|]. lia.
  - intros (Hin & _). by apply not_elem_of_nil in Hin.
Qed.

(** A probe key denotes at most one stored candidate: the hops decide whether it
    is direct or relayed. *)
Lemma probe_match_unique key c e x y :
  engine_inv e -> x ∈ routes e -> y ∈ routes e ->
  probe_matches key c x -> probe_matches key c y -> x = y.
Proof.
  intros Hi Hx Hy (Dx & Nx & Px & Lx & _) (Dy & Ny & Py & Ly & _).
  pose proof (inv_wf _ Hi) as Hwf. rewrite Forall_forall in Hwf.
  assert (forall z, z ∈ routes e -> type z = Direct <-> next_hop z = destination z) as Ht.
  { intros z Hz. pose proof (wf_hops _ (Hwf z Hz)) as Hh. pose proof (wf_type _ (Hwf z Hz)).
    unfold valid_hops in Hh. destruct (type z); [| |done].
    - apply andb_true_iff in Hh as [[Hn _]%andb_true_iff _].
      apply bool_decide_eq_true in Hn. done.
    - apply andb_true_iff in Hh as [Hn _]. apply negb_true_iff, bool_decide_eq_false in Hn.
      done. }
  assert (type x = type y) as Hty.
  { pose proof (wf_type _ (Hwf x Hx)). pose proof (wf_type _ (Hwf y Hy)).
    pose proof (Ht x Hx) as Hxt. pose proof (Ht y Hy) as Hyt.
    rewrite Nx, Dx in Hxt. rewrite Ny, Dy in Hyt.
    destruct (type x), (type y); try done; exfalso; intuition congruence. }
  eapply (stored_unique (candidate_key x) (sequence_number x) (sequence_number y)); [done|done|].
  split; [done|]. split; [|done]. unfold candidate_key. congruence.
Qed.

(** Hold-down: after a failed probe a candidate is not selected for 30
    seconds, whatever is done to the table, as long as the same announcement of it
    stays stored; in particular a probe that succeeds earlier does not bring it
    back. *)
Theorem failed_candidate_is_held_down limit e key now e1 r e2 dest b :
  engine_reachable limit e -> record_probe_failure key now e = (true, e1) ->
  r ∈ routes e -> probe_matches key (canonical_prefix (pk_prefix key) (pk_prefix_length key)) r ->
  stays_stored now (now + secs ROUTE_PROBE_HOLD_DOWN) (candidate_key r) (sequence_number r)
    e1 e2 ->
  find_route dest e2 = Some b -> ip_wf dest ->
  ~ (candidate_key b = candidate_key r /\ sequence_number b = sequence_number r).
Proof.
  intros Hr0 Hfail Hr Hm Hstay Hfind Hd [Hbk Hbs].
  pose proof (engine_reachable_inv _ _ Hr0) as Hi.
  assert (engine_inv e1) as Hi1.
  { replace e1 with (snd (record_probe_failure key now e)) by by rewrite Hfail.
    eapply (engine_step_inv now (now + 1)); [|done]. constructor. lia. }
  assert ((exists x, stored (candidate_key r) (sequence_number r) e1 x) /\
    forall x, stored (candidate_key r) (sequence_number r) e1 x ->
      held (now + secs ROUTE_PROBE_HOLD_DOWN) x) as [Hex Hall].
  { revert Hfail. unfold record_probe_failure, update_probed. destruct (negb _); [done|].
    destruct (list_find _ _) as [[i x]|] eqn:El; [|done]. intros [= <-].
    apply list_find_Some in El as (Hx & Hxm & _).
    assert (x = r) as ->
      by (eapply probe_match_unique; [exact Hi|by eapply list_elem_of_lookup_2|done..]).
    assert (stored (candidate_key r) (sequence_number r)
      (with_routes e (<[i := probe_failure now r]> (routes e))) (probe_failure now r)) as Hst.
    { split; [|done]. eapply list_elem_of_lookup_2. apply list_lookup_insert_eq.
      by eapply lookup_lt_Some. }
    split; [eauto|]. intros y Hy.
    assert (y = probe_failure now r) as ->.
    { eapply stored_unique; [exact Hi1|exact Hy|exact Hst]. }
    split; [done|]. eexists. split; [reflexivity|done]. }
  assert (engine_inv e2 /\ (exists x, stored (candidate_key r) (sequence_number r) e2 x) /\
    forall x, stored (candidate_key r) (sequence_number r) e2 x ->
      held (now + secs ROUTE_PROBE_HOLD_DOWN) x) as (Hi2 & _ & Hall2).
  { clear Hfind. induction Hstay as [e0|e0 e3 e4 _ IH Hstep Hx]; [done|].
    destruct (IH Hfail Hi1 Hex Hall) as (Hi3 & Hex3 & Hall3).
    split; [by eapply engine_step_inv|]. split; [done|]. by eapply step_held. }
  pose proof (find_route_spec dest e2 Hi2 Hd) as Hf. rewrite Hfind in Hf.
  destruct Hf as (Hin & Hnf & _). destruct (Hall2 b) as [Hbf _]; [done|]. congruence.
Qed.

(** ** Witnesses *)

Definition hop_a : NodeId := replicate 32 x0a.
Definition hop_b : NodeId := replicate 32 x0b.

(** 10.0.0.0/8 directly at [hop_a]; 10.1.0.0/16 at [hop_b] behind [hop_a]. *)
Definition route_a : Route :=
  mkRoute (from_ipv4 167772160) 8 Direct hop_a hop_a [hop_a] zero32 zero32 1 90 0 0
    None None None false 0 None.
Definition route_b : Route :=
  mkRoute (from_ipv4 167837697) 16 Relay hop_a hop_b [hop_a; hop_b] zero32 zero32 7 90 0 0
    None None None false 0 None.

Definition table_ab : RoutingEngine :=
  snd (add_route route_b (snd (add_route route_a (mkEngine [] 8)))).

Lemma table_ab_reachable : engine_reachable 8 table_ab.
Proof.
  apply (er_step 8 (snd (add_route route_a (mkEngine [] 8))) 0 0).
  - apply (er_step 8 (mkEngine [] 8) 0 0); [apply er_init|].
    apply (es_add 0 0 _ route_a). split; [reflexivity|vm_compute; discriminate].
  - apply (es_add 0 0 _ route_b). split; [reflexivity|vm_compute; discriminate].
Qed.

Lemma routing_table_invariant_witness : engine_inv table_ab.
Proof. exact (routing_table_invariant 8 table_ab table_ab_reachable). Defined.

Lemma find_route_longest_prefix_witness :
  find_route (from_ipv4 167838000) table_ab = Some (make_candidate route_b) /\
  NoDup (path (make_candidate route_b)).
Proof.
  assert (find_route (from_ipv4 167838000) table_ab = Some (make_candidate route_b)) as Hf
    by (vm_compute; reflexivity).
  split; [exact Hf|].
  pose proof (find_route_longest_prefix 8 table_ab (from_ipv4 167838000) table_ab_reachable
    eq_refl) as Hs.
  rewrite Hf in Hs. exact (proj1 (proj2 (proj2 Hs))).
Defined.

Definition key_of_b : ProbeKey := mkProbeKey hop_b hop_a (from_ipv4 167837697) 16 7.

Definition table_failed : RoutingEngine := snd (record_probe_failure key_of_b 1000 table_ab).
Definition table_early : RoutingEngine :=
  snd (record_probe_success key_of_b 2000 5 table_failed).

(** The more specific candidate failed its probe, an early success does not bring
    it back, and traffic falls back to the /8. *)
Lemma failed_candidate_is_held_down_witness :
  find_route (from_ipv4 167838000) table_early = Some (make_candidate route_a) /\
  ~ (candidate_key (make_candidate route_a) = candidate_key (make_candidate route_b) /\
     sequence_number (make_candidate route_a) = sequence_number (make_candidate route_b)).
Proof.
  assert (find_route (from_ipv4 167838000) table_early = Some (make_candidate route_a)) as Hf
    by (vm_compute; reflexivity).
  split; [exact Hf|].
  refine (failed_candidate_is_held_down 8 table_ab key_of_b 1000 table_failed
    (make_candidate route_b) table_early (from_ipv4 167838000) (make_candidate route_a)
    table_ab_reachable _ _ _ _ Hf eq_refl).
  - vm_compute. reflexivity.
  - apply (list_elem_of_lookup_2 _ 1). vm_compute. reflexivity.
  - vm_compute. auto.
  - eapply stays_step; [apply stays_refl| |].
    + apply es_success. vm_compute. split; [discriminate|reflexivity].
    + exists (nth 1 (routes table_early) route_a). split.
      * apply (list_elem_of_lookup_2 _ 1). vm_compute. reflexivity.
      * split; vm_compute; reflexivity.
Defined.
