(* ===== verification/Onion.v ===== *)
(** * Relay onions and the MTU contract

    [src/packet/relay.cpp]: the layered envelope a source builds for a relayed
    packet and the layer each hop opens, and the sizes [include/aegis/packet/mtu.hpp]
    promises for it.  The process-wide nonce counter [g_onion_counter] is an explicit
    argument and result. *)

From Stdlib Require Import ZArith Lia Bool.
From Stdlib.Strings Require Import Byte String.
From stdpp Require Import base numbers option list.
From S2P Require Import Prelude Wire Packet Crypto Replay Identity HandshakeV2 NoiseIk.
From S2P Require Import Session SessionInv SessionMsg.

Definition ONION_NEXT_HOP_SIZE : nat := NODE_ID_SIZE.
Definition ONION_NONCE_SIZE : nat := 12.
Definition ONION_TAG_SIZE : nat := 16.
Definition RELAY_CONTENT_IP_PACKET : Z := 1.
Definition RELAY_CONTENT_PATH_PROBE : Z := 2.

Definition onion_label : list byte := list_byte_of_string "aegis-onion-v1".

Record PeeledOnion := mkPeeled {
  next_hop : NodeId;
  inner : list byte;
}.

(** The 12-byte nonce of counter value [c] and layer [i]: the counter in
    little-endian order, then the layer in big-endian order. *)
Definition onion_nonce (c layer : Z) : list byte :=
  map (λ i, b8 (Z.shiftr c (8 * i))) [0; 1; 2; 3; 4; 5; 6; 7] ++
  [b8 (Z.shiftr layer 24); b8 (Z.shiftr layer 16); b8 (Z.shiftr layer 8); b8 layer].

(** [fetch_add] returns the old value and wraps at 64 bits. *)
Definition make_nonce (layer counter : Z) : list byte * Z :=
  (onion_nonce counter layer, wrap 64 (counter + 1)).

Section relay.
Context `{OpenSSL}.

Definition layer_key (my_priv hop_pub : list byte) : option (list byte) :=
  match x25519_derive_shared_secret my_priv hop_pub with
  | None => None
  | Some shared =>
      match evp_sha256 (onion_label ++ shared) with
      | None => None
      | Some key => if Nat.eqb (length key) KEY_SIZE then Some key else None
      end
  end.

(** One iteration of the loop of [build_onion]: layer [i] around [inner]. *)
Definition build_layer (priv : list byte) (i : nat) (next_hop : NodeId) (hop_pub : Key)
    (inner : list byte) (counter : Z) : option (list byte) * Z :=
  match encode_exact (ONION_NEXT_HOP_SIZE + length inner)
          (write_and (write_bytes next_hop) (write_bytes inner)) with
  | None => (None, counter)
  | Some plaintext =>
      match layer_key priv hop_pub with
      | None => (None, counter)
      | Some key =>
          let '(nonce, counter) := make_nonce (wrap 32 (Z.of_nat i)) counter in
          match chacha20_poly1305_encrypt key nonce plaintext [] with
          | None => (None, counter)
          | Some (ct, tag) =>
              (encode_exact (ONION_NONCE_SIZE + length ct + ONION_TAG_SIZE)
                 (write_and (write_bytes nonce)
                    (write_and (write_bytes ct) (write_bytes tag))), counter)
          end
      end
  end.

(** The loop [for (size_t i = path.size(); i-- > 0;)], [todo] iterations left. *)
Fixpoint build_layers (priv : list byte) (path path_pubkeys : list (list byte))
    (todo : nat) (inner : list byte) (counter : Z) : option (list byte) * Z :=
  match todo with
  | O => (Some inner, counter)
  | S i =>
      let next_hop :=
        if Nat.ltb (i + 1) (length path) then nth (i + 1) path zero32 else zero32 in
      match build_layer priv i next_hop (nth i path_pubkeys zero32) inner counter with
      | (None, counter) => (None, counter)
      | (Some blob, counter) => build_layers priv path path_pubkeys i blob counter
      end
  end.

Definition build_onion (priv : list byte) (path path_pubkeys : list (list byte))
    (packet : list byte) (counter : Z) : option (list byte) * Z :=
  if Nat.eqb (length path) 0 || negb (Nat.eqb (length path) (length path_pubkeys)) ||
     (ONION_MAX_HOPS <? Z.of_nat (length path))
  then (None, counter)
  else if Nat.eqb (length packet) 0 then (None, counter)
  else build_layers priv path path_pubkeys (length path) packet counter.

Definition peel_onion (priv source_public_key blob : list byte) : option PeeledOnion :=
  if Z.of_nat (length blob) <? ONION_OVERHEAD then None
  else
    let ct_len := (length blob - ONION_NONCE_SIZE - ONION_TAG_SIZE)%nat in
    let r := wire_reader blob in
    let '(nonce, r) := read_bytes ONION_NONCE_SIZE r in
    let '(ciphertext, r) := read_bytes ct_len r in
    let '(tag, r) := read_bytes ONION_TAG_SIZE r in
    match nonce, ciphertext, tag with
    | Some nonce, Some ciphertext, Some tag =>
        if negb (rd_finished r) then None
        else
          match layer_key priv source_public_key with
          | None => None
          | Some key =>
              match chacha20_poly1305_decrypt key nonce ciphertext tag [] with
              | None => None
              | Some plain =>
                  let p := wire_reader plain in
                  let '(next_hop, p) := read_bytes ONION_NEXT_HOP_SIZE p in
                  let '(inner, p) := read_bytes (rd_remaining p) p in
                  match next_hop, inner with
                  | Some next_hop, Some inner =>
                      if rd_finished p then Some (mkPeeled next_hop inner) else None
                  | _, _ => None
                  end
              end
          end
    | _, _, _ => None
    end.

End relay.

(** The payload of a TYPE_RELAY frame. *)
Definition relay_payload (source : NodeId) (content_type : Z) (onion : list byte) : list byte :=
  source ++ [b8 content_type] ++ onion.

(** ** Nonces *)

Lemma length_onion_nonce c i : length (onion_nonce c i) = 12%nat.
Proof. done. Qed.

Lemma onion_nonce_le c i : onion_nonce c i = le_split 8 c ++ be_split 4 i.
Proof.
  unfold onion_nonce, le_split, be_split. cbn -[b8 Z.shiftr].
  by rewrite !Z.shiftr_0_r.
Qed.

Lemma onion_nonce_inj c i c' i' :
  u64 c -> u64 c' -> onion_nonce c i = onion_nonce c' i' -> c = c'.
Proof.
  intros Hc Hc'. rewrite !onion_nonce_le. intros [Hl _]%app_inj_1.
  - by apply le_split_inj in Hl.
  - by rewrite !length_le_split.
Qed.

(** The nonces of a sequence of layers, whichever onions they belong to. *)
Fixpoint draw_nonces (layers : list Z) (counter : Z) : list (list byte) :=
  match layers with
  | [] => []
  | layer :: layers =>
      let '(nonce, counter) := make_nonce layer counter in
      nonce :: draw_nonces layers counter
  end.

Lemma draw_nonces_elem layers c n :
  0 <= c -> c + Z.of_nat (length layers) <= 2 ^ 64 ->
  n ∈ draw_nonces layers c ->
  exists c' i, n = onion_nonce c' i /\ c <= c' < 2 ^ 64.
Proof.
  revert c. induction layers as [|i ls IH]; intros c H0 Hc; cbn -[Z.pow onion_nonce] in *.
  { by intros ?%not_elem_of_nil. }
  intros [->|Hin]%elem_of_cons; [exists c, i; split; [done|lia]|].
  destruct ls as [|j ls]; [by apply not_elem_of_nil in Hin|].
  rewrite wrap_small in Hin by (unfold in_width; cbn [length] in Hc; lia).
  destruct (IH (c + 1)) as (c' & i' & -> & ?); [lia|lia|done|].
  exists c', i'. split; [done|lia].
Qed.

(** ** Layers *)

Section layers.
Context `{OpenSSL, !AeadLaws}.

(** A layer around [inner]: what one iteration of the loop produces. *)
Lemma build_layer_eq priv i nh pub inner c :
  is32 nh ->
  build_layer priv i nh pub inner c =
    match layer_key priv pub with
    | None => (None, c)
    | Some key =>
        let nonce := onion_nonce c (wrap 32 (Z.of_nat i)) in
        match evp_chacha_seal key nonce (nh ++ inner) [] with
        | None => (None, wrap 64 (c + 1))
        | Some (ct, tag) => (Some (nonce ++ ct ++ tag), wrap 64 (c + 1))
        end
    end.
Proof.
  intros Hn. unfold build_layer, is32 in *.
  rewrite (encode_exact_emits _ _ (nh ++ inner)) by solve_emits.
  rewrite decide_True by (rewrite length_app, Hn; done).
  destruct (layer_key priv pub) as [key|]; [|done].
  unfold make_nonce, chacha20_poly1305_encrypt. cbv zeta.
  set (nonce := onion_nonce _ _). assert (length nonce = 12%nat) as Hl by done.
  clearbody nonce.
  destruct (evp_chacha_seal _ _ _ _) as [[ct tag]|] eqn:Es; [|done].
  destruct (seal_lengths _ _ _ _ _ _ Es) as [_ Ht].
  rewrite (encode_exact_emits _ _ (nonce ++ ct ++ tag)) by solve_emits.
  rewrite decide_True; [done|]. rewrite !length_app, Hl, Ht.
  unfold ONION_NONCE_SIZE, ONION_TAG_SIZE. lia.
Qed.

(** Opening a sealed layer gives the next hop and the rest back. *)
Lemma peel_onion_sealed priv pub key nonce nh inner ct tag :
  layer_key priv pub = Some key -> length nonce = 12%nat -> is32 nh ->
  evp_chacha_seal key nonce (nh ++ inner) [] = Some (ct, tag) ->
  peel_onion priv pub (nonce ++ ct ++ tag) = Some (mkPeeled nh inner).
Proof.
  intros Hk Hn Hnh Hs. destruct (seal_lengths _ _ _ _ _ _ Hs) as [Hc Ht].
  rewrite length_app in Hc. unfold is32 in Hnh.
  assert (length (nonce ++ ct ++ tag) = 28 + length ct)%nat as Hlen
    by (rewrite !length_app; lia).
  unfold peel_onion. rewrite Hlen, (proj2 (Z.ltb_ge _ _))
    by (unfold ONION_OVERHEAD; lia).
  rewrite wire_reader_at, (read_bytes_ok ONION_NONCE_SIZE) by done.
  rewrite read_bytes_ok by (unfold ONION_NONCE_SIZE, ONION_TAG_SIZE; lia).
  rewrite <- (app_nil_r tag) at 1. rewrite read_bytes_ok by done.
  rewrite rd_finished_at, Hk. cbn [bool_decide decide decide_rel negb].
  unfold chacha20_poly1305_decrypt. rewrite (open_seal _ _ _ _ _ _ Hs).
  rewrite wire_reader_at, read_bytes_ok by done.
  rewrite rd_remaining_at. rewrite <- (app_nil_r inner) at 2.
  rewrite read_bytes_ok by done. by rewrite rd_finished_at.
Qed.

End layers.

(** ** An onion on its way *)

Section path.
Context `{OpenSSL}.

(** The onion opened by the hops with private keys [privs], in order: the next hops
    each of them reads, and what the last one is left with. *)
Fixpoint peel_path (privs : list (list byte)) (source_pub blob : list byte)
    : option (list NodeId * list byte) :=
  match privs with
  | [] => Some ([], blob)
  | priv :: privs =>
      match peel_onion priv source_pub blob with
      | None => None
      | Some out =>
          match peel_path privs source_pub (inner out) with
          | None => None
          | Some (hops, packet) => Some (next_hop out :: hops, packet)
          end
      end
  end.

(** The next hop written into each layer: the rest of the path, and the all-zero
    identifier for the destination. *)
Definition layer_targets (path : list NodeId) : list NodeId := tail path ++ [zero32].

Lemma layer_target path i :
  (i < length path)%nat ->
  layer_targets path !! i =
    Some (if Nat.ltb (i + 1) (length path) then nth (i + 1) path zero32 else zero32).
Proof.
  intros Hi. destruct path as [|p path]; cbn [length] in Hi; [lia|].
  unfold layer_targets. cbn [tail length]. rewrite Nat.add_1_r. cbn [nth].
  destruct (Nat.ltb_spec (S i) (S (length path))) as [Hl|Hl].
  - rewrite lookup_app_l by lia. rewrite nth_lookup.
    destruct (lookup_lt_is_Some_2 path i ltac:(lia)) as [x Hx]. by rewrite Hx.
  - rewrite lookup_app_r by lia. by replace (i - length path)%nat with 0%nat by lia.
Qed.

Lemma layer_target_is32 path i x :
  Forall is32 path -> layer_targets path !! i = Some x -> is32 x.
Proof.
  intros Hp Hx%list_elem_of_lookup_2. revert Hx. unfold layer_targets.
  rewrite elem_of_app, list_elem_of_singleton. intros [Hx| ->]; [|done].
  eapply Forall_forall; [apply Forall_tail, Hp|done].
Qed.

Context `{!AeadLaws, !DhLaws}.

Lemma layer_key_agree a b : layer_key a (x25519_base b) = layer_key b (x25519_base a).
Proof. unfold layer_key, x25519_derive_shared_secret. by rewrite x25519_agree. Qed.

(** The loop invariant of [build_onion]: what is wrapped so far is opened by the hops
    from [todo] on. *)
Lemma build_layers_spec source path privs packet :
  Forall is32 path -> length privs = length path ->
  (forall h, h ∈ privs -> is_Some (layer_key source (x25519_base h))) ->
  (forall k n p a, is_Some (evp_chacha_seal k n p a)) ->
  forall todo blob0 c, (todo <= length path)%nat ->
  peel_path (drop todo privs) (x25519_base source) blob0 =
    Some (drop todo (layer_targets path), packet) ->
  exists blob,
    fst (build_layers source path (map x25519_base privs) todo blob0 c) = Some blob /\
    length blob = (length blob0 + 60 * todo)%nat /\
    peel_path privs (x25519_base source) blob = Some (layer_targets path, packet).
Proof.
  intros Hp Hlen Hkey Hseal. induction todo as [|i IH]; intros blob0 c Hi Hpeel.
  { exists blob0. cbn [build_layers fst]. rewrite !drop_0 in Hpeel.
    split_and!; [done|lia|done]. }
  destruct (lookup_lt_is_Some_2 privs i ltac:(lia)) as [h Hh].
  destruct (Hkey h ltac:(by eapply list_elem_of_lookup_2)) as [key Hk].
  pose proof (layer_target path i ltac:(lia)) as Ht.
  pose proof (layer_target_is32 _ _ _ Hp Ht) as Hnh.
  cbn [build_layers]. set (nh := if Nat.ltb _ _ then _ else _) in *. clearbody nh.
  rewrite build_layer_eq by done.
  replace (nth i (map x25519_base privs) zero32) with (x25519_base h)
    by (rewrite nth_lookup, (list_lookup_fmap x25519_base privs i : map _ _ !! _ = _), Hh; done).
  rewrite Hk. cbv zeta. set (nonce := onion_nonce _ _).
  assert (length nonce = 12%nat) as Hn by done. clearbody nonce.
  destruct (Hseal key nonce (nh ++ blob0) []) as [[ct tag] Es]. rewrite Es.
  destruct (seal_lengths _ _ _ _ _ _ Es) as [Hct Htag].
  destruct (IH (nonce ++ ct ++ tag) (wrap 64 (c + 1)) ltac:(lia)) as (blob & Hb & Hl & Hpp).
  - rewrite (drop_S privs h i Hh), (drop_S _ _ i Ht). cbn [peel_path].
    rewrite layer_key_agree in Hk.
    rewrite (peel_onion_sealed _ _ _ _ _ _ _ _ Hk Hn Hnh Es).
    cbn [inner next_hop]. by rewrite Hpeel.
  - exists blob. split_and!; [done| |done]. rewrite Hl.
    rewrite !length_app, Hct, Htag, Hn, length_app. unfold is32 in Hnh. lia.
Qed.

End path.

(** Whatever fails inside it, an onion that is built has 60 bytes per hop more than
    the packet. *)
Lemma build_layers_length `{OpenSSL, !AeadLaws} source path keys :
  Forall is32 path ->
  forall todo blob0 c blob c', (todo <= length path)%nat ->
  build_layers source path keys todo blob0 c = (Some blob, c') ->
  length blob = (length blob0 + 60 * todo)%nat.
Proof.
  intros Hp. induction todo as [|i IH]; intros blob0 c blob c' Hi; cbn [build_layers].
  { rewrite pair_eq. intros [<-%(inj Some) _]. lia. }
  pose proof (layer_target path i ltac:(lia)) as Ht.
  pose proof (layer_target_is32 _ _ _ Hp Ht) as Hnh.
  set (nh := if Nat.ltb _ _ then _ else _) in *. clearbody nh.
  rewrite build_layer_eq by done. destruct (layer_key _ _) as [key|]; [|done].
  cbv zeta. set (nonce := onion_nonce _ _).
  assert (length nonce = 12%nat) as Hn by done. clearbody nonce.
  destruct (evp_chacha_seal _ _ _ _) as [[ct tag]|] eqn:Es; [|done].
  destruct (seal_lengths _ _ _ _ _ _ Es) as [Hct Htag].
  intros ->%IH; [|lia]. rewrite !length_app, Hct, Htag, Hn, length_app.
  unfold is32 in Hnh. lia.
Qed.

Lemma build_onion_length `{OpenSSL, !AeadLaws} source path keys packet c blob c' :
  Forall is32 path ->
  build_onion source path keys packet c = (Some blob, c') ->
  Z.of_nat (length blob) = Z.of_nat (length packet) + ONION_OVERHEAD * Z.of_nat (length path).
Proof.
  intros Hp. unfold build_onion. do 2 (case_match; [done|]).
  intros Hb%(build_layers_length _ _ _ Hp); [|done]. rewrite Hb. unfold ONION_OVERHEAD. lia.
Qed.

Lemma sendable_bounds env p :
  sendable env p -> 0 <= Z.of_nat (length p) <= SESSION_MAX_LOGICAL_PAYLOAD_SIZE.
Proof. unfold sendable. lia. Qed.

Lemma build_onion_path `{OpenSSL, !AeadLaws, !DhLaws}
    source path privs packet counter :
  Forall is32 path -> (1 <= length path <= 8)%nat -> length privs = length path ->
  packet <> [] ->
  (forall h, h ∈ privs -> is_Some (layer_key source (x25519_base h))) ->
  (forall k n p a, is_Some (evp_chacha_seal k n p a)) ->
  exists blob,
    fst (build_onion source path (map x25519_base privs) packet counter) = Some blob /\
    length blob = (length packet + 60 * length path)%nat /\
    peel_path privs (x25519_base source) blob = Some (tail path ++ [zero32], packet).
Proof.
  intros Hp Hn Hlen Hpk Hkey Hseal. unfold build_onion, ONION_MAX_HOPS.
  rewrite length_map, Hlen, Nat.eqb_refl.
  replace (_ || _ || _) with false
    by (symmetry; rewrite !orb_false_iff; split_and!; [apply Nat.eqb_neq; lia|done|lia]).
  rewrite (proj2 (Nat.eqb_neq _ _)) by (by destruct packet).
  apply build_layers_spec; try done. rewrite drop_ge by lia. cbn [peel_path].
  rewrite drop_ge; [done|]. unfold layer_targets. rewrite length_app.
  destruct path; cbn [length tail] in *; lia.
Qed.

Lemma peel_onion_length `{OpenSSL, !AeadLaws} priv pub blob p :
  peel_onion priv pub blob = Some p ->
  length blob = (60 + length (inner p))%nat /\ is32 (next_hop p).
Proof.
  unfold peel_onion. case_match eqn:El; [done|]. unfold ONION_OVERHEAD in El.
  apply Z.ltb_ge in El. rewrite wire_reader_at. intros Hp. do 3 rd_inv_step Hp.
  rewrite rd_finished_at in Hp. case_bool_decide as Hfin; [|done]. cbn [negb] in Hp.
  case_match; [|done]. unfold chacha20_poly1305_decrypt in Hp.
  destruct (evp_chacha_open _ _ _ _ _) as [plain|] eqn:Eo; [|done]. apply open_length in Eo.
  rewrite wire_reader_at in Hp. do 2 rd_inv_step Hp. rewrite rd_finished_at in Hp.
  case_bool_decide; [|done]. injection Hp as <-. cbn [inner next_hop]. subst.
  rewrite ?length_app, ?app_nil_r in *. unfold ONION_NONCE_SIZE, ONION_TAG_SIZE, ONION_NEXT_HOP_SIZE in *.
  unfold NODE_ID_SIZE in *. cbn [length] in *. split; [lia|done].
Qed.

Lemma peel_path_length `{OpenSSL, !AeadLaws} privs pub : forall blob hops packet,
  peel_path privs pub blob = Some (hops, packet) ->
  length blob = (length packet + 60 * length privs)%nat.
Proof.
  induction privs as [|priv privs IH]; cbn [peel_path length]; intros blob hops packet Hp.
  - injection Hp as _ ->. lia.
  - destruct (peel_onion priv pub blob) as [out|] eqn:Eo; [|done].
    destruct (peel_path privs pub (inner out)) as [[hs p]|] eqn:Ep; [|done]. injection Hp as _ ->.
    apply peel_onion_length in Eo as [-> _]. rewrite (IH _ _ _ Ep). lia.
Qed.

(** ** Properties *)

(** C33: the onion a source builds for a path of at most eight hops reaches the end of
    that path.  When the primitives do not fail, [build_onion] returns an envelope 60
    bytes per hop longer than the packet; opened in turn with the private keys of the
    hops and the public key of the source, every layer names the following hop, the
    last one the all-zero identifier, and what is left at the end is the packet. *)
Theorem onion_travels_its_path `{OpenSSL, !AeadLaws, !DhLaws}
    source path privs packet counter :
  Forall is32 path -> (1 <= length path <= 8)%nat -> length privs = length path ->
  packet <> [] ->
  (forall h, h ∈ privs -> is_Some (layer_key source (x25519_base h))) ->
  (forall k n p a, is_Some (evp_chacha_seal k n p a)) ->
  exists blob,
    fst (build_onion source path (map x25519_base privs) packet counter) = Some blob /\
    length blob = (length packet + 60 * length path)%nat /\
    peel_path privs (x25519_base source) blob = Some (tail path ++ [zero32], packet).
Proof. apply build_onion_path. Qed.

(** Two layers never share a nonce: the nonces drawn by any sequence of layers, of
    one onion or of several, are distinct until the 64-bit counter is exhausted. *)
Theorem onion_nonces_unique layers counter :
  0 <= counter -> counter + Z.of_nat (length layers) <= 2 ^ 64 ->
  NoDup (draw_nonces layers counter).
Proof.
  revert counter. induction layers as [|i ls IH]; intros c H0 Hc; [constructor|].
  cbn [draw_nonces make_nonce length] in *. constructor.
  - destruct ls as [|j ls]; [by apply not_elem_of_nil|].
    rewrite wrap_small by (unfold in_width; cbn [length] in Hc; lia).
    intros (c' & i' & Heq & ?)%draw_nonces_elem; [|cbn [length] in *; lia..].
    apply onion_nonce_inj in Heq; unfold in_width; lia.
  - destruct ls as [|j ls]; [constructor|].
    rewrite wrap_small by (unfold in_width; cbn [length] in Hc; lia). apply IH; lia.
Qed.

(** The MTU contract.  When [safe_overlay_mtu] grants an inner MTU for an underlay and
    a route depth, every inner packet within it leaves as a datagram that fits the
    underlay, outer headers included: sent directly as a data message, or wrapped in
    an onion for any relay path of at least two and at most that many hops. *)
Theorem overlay_packets_fit_the_underlay `{OpenSSL, RandomSource, NoiseC, !AeadLaws}
    env underlay depth mtu packet :
  safe_overlay_mtu underlay depth (padding_bucket_size env) = Some mtu ->
  Z.of_nat (length packet) <= mtu ->
  (forall peer flags m r frame m' r',
     encrypt_message env peer TYPE_DATA packet flags m r = (Some frame, m', r') ->
     OUTER_IPV4_UDP_OVERHEAD + Z.of_nat (length frame) <= underlay) /\
  (forall source path keys node content c blob c' peer m r frame m' r',
     Forall is32 path -> is32 node -> 2 <= Z.of_nat (length path) <= depth ->
     build_onion source path keys packet c = (Some blob, c') ->
     encrypt_message env peer TYPE_RELAY (relay_payload node content blob) FLAG_RELAY m r =
       (Some frame, m', r') ->
     OUTER_IPV4_UDP_OVERHEAD + Z.of_nat (length frame) <= underlay).
Proof.
  unfold safe_overlay_mtu, wire_overhead_for_route_depth. case_match; [done|].
  destruct (_ || _ || _) eqn:Hg; [done|].
  apply orb_false_iff in Hg as [Hg Hb%negb_false_iff].
  apply orb_false_iff in Hg as [Hd1 Hd8].
  intros Hm Hl.
  assert (underlay - (28 + session_frame_overhead (padding_bucket_size env) +
            if DIRECT_ROUTE_DEPTH <? depth then 33 + depth * 60 else 0) = mtu) as Hmtu.
  { unfold OUTER_IPV4_UDP_OVERHEAD, RELAY_SOURCE_OVERHEAD, ONION_OVERHEAD in Hm.
    destruct (DIRECT_ROUTE_DEPTH <? depth); case_match; try done;
      apply (inj Some) in Hm; lia. }
  clear Hm. unfold session_frame_overhead, session_max_padding_for_bucket in Hmtu.
  rewrite Hb in Hmtu.
  unfold PACKET_HEADER_SIZE, SESSION_LENGTH_PREFIX_SIZE, DIRECT_ROUTE_DEPTH,
    OUTER_IPV4_UDP_OVERHEAD in *.
  split.
  - intros peer fl m r f m' r' [Hs Hf]%frame_length.
    pose proof (padded_size_spec _ _ Hb (sendable_bounds _ _ Hs)) as (_ & Hps & _).
    rewrite Hf. case_match; lia.
  - intros source path keys node content c blob c' peer m r f m' r' Hp Hnode Hpath Hbl
      [Hs Hf]%frame_length.
    pose proof (padded_size_spec _ _ Hb (sendable_bounds _ _ Hs)) as (_ & Hps & _).
    apply build_onion_length in Hbl; [|done].
    unfold relay_payload, ONION_OVERHEAD, is32 in *.
    rewrite !length_app, Hnode in *. cbn [length] in *.
    rewrite Hf. rewrite (proj2 (Z.ltb_lt 1 depth)) in Hmtu by lia. lia.
Qed.

(** An underlay beyond 4092 bytes and the overhead is granted an overlay MTU that cannot
    be used.  A session refuses every payload longer than 4092 bytes, so for the inner
    packets between that limit and the granted MTU [encrypt_message] returns nothing
    and leaves the sessions and the random source as they were. *)
Theorem jumbo_packets_are_refused `{OpenSSL, RandomSource, NoiseC} env underlay :
  is_supported_session_padding_bucket (padding_bucket_size env) = true ->
  SESSION_MAX_LOGICAL_PAYLOAD_SIZE <
    underlay - OUTER_IPV4_UDP_OVERHEAD - session_frame_overhead (padding_bucket_size env) ->
  underlay <= MAXIMUM_IPV4_MTU ->
  exists mtu,
    safe_overlay_mtu underlay DIRECT_ROUTE_DEPTH (padding_bucket_size env) = Some mtu /\
    SESSION_MAX_LOGICAL_PAYLOAD_SIZE < mtu /\
    forall packet peer flags m r,
      SESSION_MAX_LOGICAL_PAYLOAD_SIZE < Z.of_nat (length packet) <= mtu ->
      encrypt_message env peer TYPE_DATA packet flags m r = (None, m, r).
Proof.
  intros Hb Hu Hmax. eexists. split; [|split; [exact Hu|]].
  - unfold safe_overlay_mtu, wire_overhead_for_route_depth. rewrite Hb.
    rewrite (proj2 (Z.ltb_ge _ _)) by lia.
    change (DIRECT_ROUTE_DEPTH <? DIRECT_ROUTE_DEPTH) with false.
    change (ONION_MAX_HOPS <? DIRECT_ROUTE_DEPTH) with false. cbn [orb negb]; cbv zeta.
    rewrite (proj2 (Z.ltb_ge _ _)); [f_equal; lia|].
    unfold SESSION_MAX_LOGICAL_PAYLOAD_SIZE, SESSION_MAX_PAYLOAD_SIZE,
      SESSION_LENGTH_PREFIX_SIZE, MINIMUM_IPV4_MTU in *. lia.
  - intros packet peer flags m r Hl. rewrite encrypt_message_eq, decide_False; [done|].
    unfold sendable. lia.
Qed.

(** ** Witnesses *)

Section witnesses.
#[local] Existing Instances toy_openssl toy_random toy_noise toy_aead_laws toy_dh_laws.

Definition toy_path : list NodeId := [replicate 32 x11; replicate 32 x22; replicate 32 x33].
Definition toy_hops : list (list byte) := [replicate 32 x0a; replicate 32 x0b; replicate 32 x0c].
Definition toy_source : list byte := replicate 32 x01.
Definition toy_onion : list byte :=
  default [] (fst (build_onion toy_source toy_path toy_hops toy_text 0)).

Lemma toy_path_wf : Forall is32 toy_path.
Proof. vm_compute. repeat constructor. Qed.

Lemma onion_travels_its_path_witness :
  exists blob,
    fst (build_onion toy_source toy_path (map x25519_base toy_hops) toy_text 0) = Some blob /\
    length blob = (length toy_text + 60 * length toy_path)%nat /\
    peel_path toy_hops (x25519_base toy_source) blob =
      Some (tail toy_path ++ [zero32], toy_text).
Proof.
  apply (onion_travels_its_path toy_source toy_path toy_hops toy_text 0 toy_path_wf).
  - vm_compute. lia.
  - reflexivity.
  - vm_compute. discriminate.
  - intros h Hh. repeat (apply elem_of_cons in Hh as [->|Hh]; [vm_compute; by eexists|]).
    by apply not_elem_of_nil in Hh.
  - intros k n p a. by eexists.
Defined.

Lemma onion_nonces_unique_witness : NoDup (draw_nonces [2; 1; 0; 1; 0] (2 ^ 64 - 5)).
Proof. apply (onion_nonces_unique [2; 1; 0; 1; 0] (2 ^ 64 - 5)); vm_compute; discriminate. Defined.

Lemma overlay_packets_fit_the_underlay_witness :
  safe_overlay_mtu 1500 3 (padding_bucket_size toy_env) <> None /\
  OUTER_IPV4_UDP_OVERHEAD + Z.of_nat (length toy_frame) <= 1500 /\
  OUTER_IPV4_UDP_OVERHEAD + Z.of_nat (length (default [] (fst (fst
    (encrypt_message toy_env toy_peer TYPE_RELAY
       (relay_payload toy_peer RELAY_CONTENT_IP_PACKET toy_onion) FLAG_RELAY
       toy_manager toy_seed))))) <= 1500.
Proof.
  split; [vm_compute; discriminate|].
  assert (safe_overlay_mtu 1500 3 (padding_bucket_size toy_env) =
    Some (default 0 (safe_overlay_mtu 1500 3 (padding_bucket_size toy_env)))) as Hm
    by (vm_compute; reflexivity).
  assert (Z.of_nat (length toy_text) <=
    default 0 (safe_overlay_mtu 1500 3 (padding_bucket_size toy_env))) as Hl
    by (vm_compute; discriminate).
  pose proof (overlay_packets_fit_the_underlay toy_env 1500 3 _ toy_text Hm Hl) as [Hd Hr].
  split.
  - apply (Hd toy_peer 0 toy_manager toy_seed toy_frame (snd (fst toy_sent)) (snd toy_sent)).
    apply run_fst3. vm_compute. reflexivity.
  - set (sent := encrypt_message _ _ _ _ _ _ _).
    apply (Hr toy_source toy_path toy_hops toy_peer RELAY_CONTENT_IP_PACKET 0 toy_onion 3
      toy_peer toy_manager toy_seed _ (snd (fst sent)) (snd sent) toy_path_wf).
    + vm_compute. reflexivity.
    + vm_compute. split; discriminate.
    + vm_compute. reflexivity.
    + apply run_fst3. vm_compute. reflexivity.
Defined.

Lemma jumbo_packets_are_refused_witness :
  exists mtu,
    safe_overlay_mtu 9000 DIRECT_ROUTE_DEPTH (padding_bucket_size toy_env) = Some mtu /\
    SESSION_MAX_LOGICAL_PAYLOAD_SIZE < mtu /\
    forall packet peer flags m r,
      SESSION_MAX_LOGICAL_PAYLOAD_SIZE < Z.of_nat (length packet) <= mtu ->
      encrypt_message toy_env peer TYPE_DATA packet flags m r = (None, m, r).
Proof.
  apply (jumbo_packets_are_refused toy_env 9000); vm_compute; (reflexivity || discriminate).
Defined.

End witnesses.
