(* ===== verification/RelayLimiter.v ===== *)
(** * The relay quota

    [src/packet/relay_limiter.cpp]: token buckets that limit what a node forwards for each
    authenticated neighbour and overall.  Tokens are [double]s: binary64 as in the Standard
    Library's [SpecFloat], rounding to nearest even. *)

From Stdlib Require Import SpecFloat.
From Stdlib Require Import ZArith Lia Bool.
From Stdlib.Strings Require Import Byte.
From stdpp Require Import base numbers gmap option list.
From S2P Require Import Prelude Wire Crypto.
#[local] Open Scope Z_scope.

(** ** Doubles *)

Abbreviation double := spec_float (only parsing).
Definition double_of (z : Z) : double := binary_normalize 53 1024 z 0 false.
Definition dadd : double -> double -> double := SFadd 53 1024.
Definition dsub : double -> double -> double := SFsub 53 1024.
Definition dmul : double -> double -> double := SFmul 53 1024.
Definition ddiv : double -> double -> double := SFdiv 53 1024.
Definition isfinite (x : double) : bool :=
  match x with S754_zero _ | S754_finite _ _ _ => true | _ => false end.
(** [std::min(a, b)] *)
Definition dmin (a b : double) : double := if SFltb b a then b else a.

(** [std::chrono::duration<double>] of a number of nanoseconds. *)
Definition seconds_of (ns : Z) : double := ddiv (double_of ns) (double_of 1000000000).

(** ** State *)

Record RelayQuotaConfig := mkQuotaConfig {
  per_peer_packets_per_second : double;
  per_peer_packet_burst : Z;
  per_peer_bytes_per_second : double;
  per_peer_byte_burst : Z;
  global_packets_per_second : double;
  global_packet_burst : Z;
  global_bytes_per_second : double;
  global_byte_burst : Z;
  max_peers : Z;
  idle_ttl : Z;  (** ms *)
}.

Definition RELAY_QUOTA_MAX_PEERS : Z := 256.

Definition default_quota_config : RelayQuotaConfig :=
  mkQuotaConfig (double_of 200) 400 (double_of (512 * 1024)) (1024 * 1024)
    (double_of 1000) 2000 (double_of (4 * 1024 * 1024)) (8 * 1024 * 1024)
    RELAY_QUOTA_MAX_PEERS 300000.

Inductive RelayQuotaResult := Allowed | Invalid | PeerLimited | GlobalLimited | CapacityLimited.
#[export] Instance quota_result_eq_dec : EqDecision RelayQuotaResult.
Proof. solve_decision. Defined.

Record RelayQuotaStats := mkQuotaStats {
  admitted_packets : Z;
  admitted_bytes : Z;
  peer_drops : Z;
  global_drops : Z;
  capacity_drops : Z;
}.

Definition total_drops (s : RelayQuotaStats) : Z :=
  wrap 64 (peer_drops s + global_drops s + capacity_drops s).

Record TokenBucket := mkTokens {
  packet_tokens : double;
  byte_tokens : double;
  updated_at : Z;
}.

Record PeerBucket := mkPeerBucket { bucket : TokenBucket; pb_last_seen : Z }.

Record RelayForwardLimiter := mkRelayLimiter {
  quota_config : RelayQuotaConfig;
  valid_config_ : bool;
  global_ : TokenBucket;
  relay_peers : gmap (list byte) PeerBucket;
  quota_stats : RelayQuotaStats;
}.

(** ** Operations *)

Definition positive_rate (x : double) : bool := isfinite x && SFltb (double_of 0) x.

Definition valid_config (c : RelayQuotaConfig) : bool :=
  positive_rate (per_peer_packets_per_second c) && (0 <? per_peer_packet_burst c) &&
  positive_rate (per_peer_bytes_per_second c) && (0 <? per_peer_byte_burst c) &&
  positive_rate (global_packets_per_second c) && (0 <? global_packet_burst c) &&
  positive_rate (global_bytes_per_second c) && (0 <? global_byte_burst c) &&
  (0 <? max_peers c) && (0 <? idle_ttl c).

Definition make_bucket (packet_burst byte_burst : double) (now : Z) : TokenBucket :=
  mkTokens packet_burst byte_burst now.

Definition relay_reset (now : Z) (l : RelayForwardLimiter) : RelayForwardLimiter :=
  let c := quota_config l in
  mkRelayLimiter c (valid_config_ l)
    (make_bucket (double_of (global_packet_burst c)) (double_of (global_byte_burst c)) now)
    ∅ (mkQuotaStats 0 0 0 0 0).

(** The constructor. *)
Definition relay_init (c : RelayQuotaConfig) (now : Z) : RelayForwardLimiter :=
  relay_reset now (mkRelayLimiter c (valid_config c) (mkTokens (double_of 0) (double_of 0) 0)
                     ∅ (mkQuotaStats 0 0 0 0 0)).

Definition refill (now : Z) (packets_per_second packet_burst bytes_per_second byte_burst : double)
    (b : TokenBucket) : TokenBucket :=
  if now <=? updated_at b then b
  else
    let elapsed := seconds_of (now - updated_at b) in
    mkTokens (dmin packet_burst (dadd (packet_tokens b) (dmul elapsed packets_per_second)))
      (dmin byte_burst (dadd (byte_tokens b) (dmul elapsed bytes_per_second))) now.

Definition refill_global (now : Z) (c : RelayQuotaConfig) : TokenBucket -> TokenBucket :=
  refill now (global_packets_per_second c) (double_of (global_packet_burst c))
    (global_bytes_per_second c) (double_of (global_byte_burst c)).

Definition refill_peer (now : Z) (c : RelayQuotaConfig) : TokenBucket -> TokenBucket :=
  refill now (per_peer_packets_per_second c) (double_of (per_peer_packet_burst c))
    (per_peer_bytes_per_second c) (double_of (per_peer_byte_burst c)).

Definition purge_idle (now : Z) (l : RelayForwardLimiter) : RelayForwardLimiter :=
  mkRelayLimiter (quota_config l) (valid_config_ l) (global_ l)
    (filter (λ kp, (pb_last_seen kp.2 <=? now) &&
                   (ms (idle_ttl (quota_config l)) <=? now - pb_last_seen kp.2) = false)
       (relay_peers l)) (quota_stats l).

(** [bucket.packet_tokens < 1.0 || bucket.byte_tokens < byte_cost] *)
Definition lacks (byte_cost : double) (b : TokenBucket) : bool :=
  SFltb (packet_tokens b) (double_of 1) || SFltb (byte_tokens b) byte_cost.

Definition take_tokens (byte_cost : double) (b : TokenBucket) : TokenBucket :=
  mkTokens (dsub (packet_tokens b) (double_of 1)) (dsub (byte_tokens b) byte_cost) (updated_at b).

Definition bump_stats (r : RelayQuotaResult) (bytes : Z) (s : RelayQuotaStats)
    : RelayQuotaStats :=
  match r with
  | Allowed => mkQuotaStats (wrap 64 (admitted_packets s + 1)) (wrap 64 (admitted_bytes s + bytes))
                 (peer_drops s) (global_drops s) (capacity_drops s)
  | Invalid => s
  | PeerLimited => mkQuotaStats (admitted_packets s) (admitted_bytes s)
                     (wrap 64 (peer_drops s + 1)) (global_drops s) (capacity_drops s)
  | GlobalLimited => mkQuotaStats (admitted_packets s) (admitted_bytes s) (peer_drops s)
                       (wrap 64 (global_drops s + 1)) (capacity_drops s)
  | CapacityLimited => mkQuotaStats (admitted_packets s) (admitted_bytes s) (peer_drops s)
                         (global_drops s) (wrap 64 (capacity_drops s + 1))
  end.

(** Return with the statistics of the outcome. *)
Definition finish (r : RelayQuotaResult) (bytes : Z) (l : RelayForwardLimiter)
    : RelayQuotaResult * RelayForwardLimiter :=
  (r, mkRelayLimiter (quota_config l) (valid_config_ l) (global_ l) (relay_peers l)
        (bump_stats r bytes (quota_stats l))).

Definition set_global (b : TokenBucket) (l : RelayForwardLimiter) : RelayForwardLimiter :=
  mkRelayLimiter (quota_config l) (valid_config_ l) b (relay_peers l) (quota_stats l).
Definition set_peer (sender : list byte) (p : PeerBucket) (l : RelayForwardLimiter)
    : RelayForwardLimiter :=
  mkRelayLimiter (quota_config l) (valid_config_ l) (global_ l)
    (<[sender := p]> (relay_peers l)) (quota_stats l).

(** The bucket of the sender: found and refilled, or created; [None] when there is no room. *)
Definition sender_bucket (sender : list byte) (now : Z) (l : RelayForwardLimiter)
    : option PeerBucket * RelayForwardLimiter :=
  let c := quota_config l in
  match relay_peers l !! sender with
  | Some p =>
      let p := mkPeerBucket (refill_peer now c (bucket p)) now in
      (Some p, set_peer sender p l)
  | None =>
      let l := if max_peers c <=? Z.of_nat (size (relay_peers l)) then purge_idle now l else l in
      if max_peers c <=? Z.of_nat (size (relay_peers l)) then (None, l)
      else
        let p := mkPeerBucket (make_bucket (double_of (per_peer_packet_burst c))
                   (double_of (per_peer_byte_burst c)) now) now in
        (Some p, set_peer sender p l)
  end.

Definition relay_allow (sender : list byte) (forwarded_bytes now : Z) (l : RelayForwardLimiter)
    : RelayQuotaResult * RelayForwardLimiter :=
  let c := quota_config l in
  if negb (valid_config_ l) || (forwarded_bytes =? 0) then (Invalid, l)
  else
    let byte_cost := double_of forwarded_bytes in
    if SFltb (double_of (global_byte_burst c)) byte_cost then finish GlobalLimited forwarded_bytes l
    else if SFltb (double_of (per_peer_byte_burst c)) byte_cost
    then finish PeerLimited forwarded_bytes l
    else
      let l := set_global (refill_global now c (global_ l)) l in
      if lacks byte_cost (global_ l) then finish GlobalLimited forwarded_bytes l
      else match sender_bucket sender now l with
           | (None, l) => finish CapacityLimited forwarded_bytes l
           | (Some p, l) =>
               if lacks byte_cost (bucket p) then finish PeerLimited forwarded_bytes l
               else
                 let l := set_global (take_tokens byte_cost (global_ l)) l in
                 let l := set_peer sender
                            (mkPeerBucket (take_tokens byte_cost (bucket p)) (pb_last_seen p)) l in
                 finish Allowed forwarded_bytes l
           end.

Definition tracked_peers (l : RelayForwardLimiter) : nat := size (relay_peers l).

(** ** Properties *)

Lemma size_set_peer sender p l :
  (size (relay_peers (set_peer sender p l)) <=
   match relay_peers l !! sender with Some _ => 0 | None => 1 end + size (relay_peers l))%nat.
Proof. cbn. rewrite map_size_insert. case_match; unfold id; lia. Qed.

Lemma size_purge_idle now l : (size (relay_peers (purge_idle now l)) <= size (relay_peers l))%nat.
Proof. cbn. apply map_size_filter. Qed.

(** How the bucket of [k] in a table may differ after a call for [sender]: not at all, dropped
    for being idle, or that of the sender refilled or new. *)
Definition peer_refreshed (c : RelayQuotaConfig) (now : Z) (sender : list byte)
    (m m' : gmap (list byte) PeerBucket) : Prop :=
  forall k, m' !! k = m !! k \/
    (m' !! k = None /\ exists p, m !! k = Some p /\ ms (idle_ttl c) <= now - pb_last_seen p) \/
    (k = sender /\ exists b, m' !! k = Some (mkPeerBucket b now) /\
       match m !! k with
       | Some p => b = refill_peer now c (bucket p)
       | None => b = make_bucket (double_of (per_peer_packet_burst c))
                       (double_of (per_peer_byte_burst c)) now
       end).

Lemma peer_refreshed_refl c now sender m : peer_refreshed c now sender m m.
Proof. intros k. by left. Qed.

Lemma purge_idle_refreshed now sender l :
  peer_refreshed (quota_config l) now sender (relay_peers l) (relay_peers (purge_idle now l)).
Proof.
  intros k. cbn. rewrite map_lookup_filter. destruct (relay_peers l !! k) as [p|]; cbn; [|by left].
  case_guard as E; cbn; [by left|]. right. left. split; [done|]. exists p. split; [done|].
  apply not_false_iff_true, andb_true_iff in E as [_ E]. by apply Z.leb_le in E.
Qed.

Lemma sender_bucket_spec sender now l :
  let '(found, l') := sender_bucket sender now l in
  quota_config l' = quota_config l /\ valid_config_ l' = valid_config_ l /\
  global_ l' = global_ l /\ quota_stats l' = quota_stats l /\
  peer_refreshed (quota_config l) now sender (relay_peers l) (relay_peers l') /\
  (Z.of_nat (size (relay_peers l)) <= max_peers (quota_config l) ->
   Z.of_nat (size (relay_peers l')) <= max_peers (quota_config l)) /\
  match found with
  | Some p => relay_peers l' !! sender = Some p
  | None => max_peers (quota_config l) <= Z.of_nat (size (relay_peers l'))
  end.
Proof.
  unfold sender_bucket. destruct (relay_peers l !! sender) as [p|] eqn:Hp.
  - split_and!; try done.
    + intros k. cbn. destruct (decide (k = sender)) as [->|];
        [|left; by rewrite lookup_insert_ne].
      right. right. split; [done|]. rewrite Hp, lookup_insert_eq. eauto.
    + pose proof (size_set_peer sender (mkPeerBucket (refill_peer now (quota_config l) (bucket p)) now) l)
        as Hs. rewrite Hp in Hs. lia.
    + cbn. by rewrite lookup_insert_eq.
  - set (l1 := if _ <=? _ then purge_idle now l else l).
    assert (quota_config l1 = quota_config l /\ valid_config_ l1 = valid_config_ l /\
      global_ l1 = global_ l /\ quota_stats l1 = quota_stats l /\
      peer_refreshed (quota_config l) now sender (relay_peers l) (relay_peers l1) /\
      (size (relay_peers l1) <= size (relay_peers l))%nat /\ relay_peers l1 !! sender = None)
      as (E1 & E2 & E3 & E4 & Hr & Hs & Hn).
    { subst l1. destruct (_ <=? _); [|split_and!; try done; apply peer_refreshed_refl].
      split_and!; try done; [apply purge_idle_refreshed|apply size_purge_idle|].
      cbn. rewrite map_lookup_filter, Hp. done. }
    destruct (Z.leb_spec (max_peers (quota_config l)) (Z.of_nat (size (relay_peers l1)))).
    + split_and!; try done. lia.
    + split_and!; try done.
      * intros k. cbn. destruct (decide (k = sender)) as [->|]; [|rewrite lookup_insert_ne by done; apply Hr].
        right. right. split; [done|]. rewrite Hp, lookup_insert_eq. eauto.
      * pose proof (size_set_peer sender (mkPeerBucket (make_bucket
          (double_of (per_peer_packet_burst (quota_config l)))
          (double_of (per_peer_byte_burst (quota_config l))) now) now) l1) as Hs1.
        rewrite Hn in Hs1. lia.
      * cbn. by rewrite lookup_insert_eq.
Qed.

(** A refusal that leaves the tokens alone. *)
Lemma finish_refused sender bytes now l r0 l0 r l' (P : Prop) :
  r0 <> Allowed -> quota_config l0 = quota_config l -> quota_stats l0 = quota_stats l ->
  (global_ l0 = global_ l \/ global_ l0 = refill_global now (quota_config l) (global_ l)) ->
  peer_refreshed (quota_config l) now sender (relay_peers l) (relay_peers l0) ->
  (Z.of_nat (size (relay_peers l)) <= max_peers (quota_config l) ->
   Z.of_nat (size (relay_peers l0)) <= max_peers (quota_config l)) ->
  finish r0 bytes l0 = (r, l') ->
  quota_config l' = quota_config l /\ quota_stats l' = bump_stats r bytes (quota_stats l) /\
  (Z.of_nat (tracked_peers l) <= max_peers (quota_config l) ->
   Z.of_nat (tracked_peers l') <= max_peers (quota_config l)) /\
  if decide (r = Allowed) then P else
    (global_ l' = global_ l \/ global_ l' = refill_global now (quota_config l) (global_ l)) /\
    peer_refreshed (quota_config l) now sender (relay_peers l) (relay_peers l').
Proof.
  intros Hr0 Ec Es Hg Hp Hs [= <- <-]. rewrite decide_False by done. cbn. rewrite Ec, Es.
  split_and!; try done.
Qed.

(** Every call keeps the number of senders tracked within the limit. *)
Lemma relay_allow_bounded sender bytes now l :
  let l' := snd (relay_allow sender bytes now l) in
  quota_config l' = quota_config l /\
  (Z.of_nat (tracked_peers l) <= max_peers (quota_config l) ->
   Z.of_nat (tracked_peers l') <= max_peers (quota_config l)).
Proof.
  unfold relay_allow, tracked_peers. cbn zeta. do 4 (case_match; [done|]).
  set (l1 := set_global (refill_global now (quota_config l) (global_ l)) l).
  pose proof (sender_bucket_spec sender now l1) as Hsb.
  destruct (sender_bucket sender now l1) as [[p|] l2]; destruct Hsb as (E1 & _ & _ & _ & _ & Hs & Hf);
    [|by split]. case_match; [by split|]. split; [done|]. cbn. intros Hle.
  rewrite map_size_insert, Hf. by apply Hs.
Qed.

(** The relay quota charges exactly what it admits.  A packet is admitted only if, after
    refilling, both the global bucket and the bucket of its authenticated sender hold a packet
    token and its bytes, and these are what is taken; a refused packet takes nothing from any
    bucket.  Every call is counted under exactly one outcome, and the number of senders tracked
    never exceeds the limit. *)
Theorem relay_quota_charges_admitted sender bytes now l r l' :
  relay_allow sender bytes now l = (r, l') ->
  let c := quota_config l in
  let cost := double_of bytes in
  quota_config l' = c /\
  quota_stats l' = bump_stats r bytes (quota_stats l) /\
  (Z.of_nat (tracked_peers l) <= max_peers c -> Z.of_nat (tracked_peers l') <= max_peers c) /\
  if decide (r = Allowed) then
    let g := refill_global now c (global_ l) in
    lacks cost g = false /\ global_ l' = take_tokens cost g /\
    exists m p, peer_refreshed c now sender (relay_peers l) m /\ m !! sender = Some p /\
      lacks cost (bucket p) = false /\
      relay_peers l' = <[sender := mkPeerBucket (take_tokens cost (bucket p)) (pb_last_seen p)]> m
  else
    (global_ l' = global_ l \/ global_ l' = refill_global now c (global_ l)) /\
    peer_refreshed c now sender (relay_peers l) (relay_peers l').
Proof.
  pose proof (peer_refreshed_refl (quota_config l) now sender (relay_peers l)) as Hrefl.
  unfold relay_allow. cbn zeta. destruct (negb (valid_config_ l) || (bytes =? 0)).
  { intros [= <- <-]. rewrite decide_False by done. eauto 10. }
  destruct (SFltb (double_of (global_byte_burst (quota_config l))) (double_of bytes)).
  { intros H. eapply finish_refused, H; eauto. }
  destruct (SFltb (double_of (per_peer_byte_burst (quota_config l))) (double_of bytes)).
  { intros H. eapply finish_refused, H; eauto. }
  set (l1 := set_global (refill_global now (quota_config l) (global_ l)) l).
  destruct (lacks (double_of bytes) (global_ l1)) eqn:Hlack.
  { intros H. eapply finish_refused, H; eauto. }
  pose proof (sender_bucket_spec sender now l1) as Hsb.
  destruct (sender_bucket sender now l1) as [[p|] l2]; destruct Hsb as (E1 & E2 & E3 & E4 & Hr & Hs & Hf).
  2: { intros H. eapply finish_refused, H; eauto. }
  destruct (lacks (double_of bytes) (bucket p)) eqn:Hlack2.
  { intros H. eapply finish_refused, H; eauto. }
  intros [= <- <-]. rewrite decide_True by done. cbn. rewrite E1, E3, E4.
  split_and!; try done.
  - unfold tracked_peers. cbn. intros Hle. rewrite map_size_insert, Hf. by apply Hs.
  - exists (relay_peers l2), p. done.
Qed.

Lemma relay_quota_charges_admitted_witness :
  let l := relay_init default_quota_config 0 in
  let res := relay_allow (replicate 32 x01) 100 5 l in
  fst res = Allowed /\
  global_ (snd res) =
    take_tokens (double_of 100) (refill_global 5 default_quota_config (global_ l)) /\
  packet_tokens (global_ (snd res)) = double_of 1999.
Proof.
  intros l res.
  assert (fst res = Allowed) as E by (vm_compute; reflexivity).
  destruct (relay_quota_charges_admitted (replicate 32 x01) 100 5 l (fst res) (snd res)
    (surjective_pairing res)) as (_ & _ & _ & H).
  rewrite E, decide_True in H by reflexivity. destruct H as (_ & Hg & _).
  split; [exact E|]. split; [exact Hg|]. vm_compute. reflexivity.
Defined.
