(* ===== verification/SendQueue.v ===== *)
(** * The bounded send queue

    [include/aegis/transport/send_queue.hpp]: per-peer control and data FIFOs with
    item and byte limits per peer and per class.  Control traffic is popped first,
    and within a class the peers with queued datagrams take turns.  The owner holds a
    mutex around every call, so that a run of the queue is a sequence of operations. *)

From Stdlib Require Import ZArith Lia Bool.
From Stdlib.Strings Require Import Byte.
From stdpp Require Import base numbers gmap option list.
From S2P Require Import Prelude.

Record SendQueueClassLimits := mkClassLimits {
  max_items_per_peer : Z;
  max_bytes_per_peer : Z;
  max_items_global : Z;
  max_bytes_global : Z;
}.

Record SendQueueLimits := mkQueueLimits {
  data_limits : SendQueueClassLimits;
  control_limits : SendQueueClassLimits;
}.

Definition default_queue_limits : SendQueueLimits :=
  mkQueueLimits (mkClassLimits 48 (192 * 1024) 768 (3 * 1024 * 1024))
                (mkClassLimits 16 (64 * 1024) 256 (1024 * 1024)).

Inductive SendPriority := Data | Control.

#[global] Instance send_priority_eq_dec : EqDecision SendPriority.
Proof. solve_decision. Defined.

Inductive SendQueueResult :=
  Queued | Invalid | PerPeerItemLimit | PerPeerByteLimit | GlobalItemLimit | GlobalByteLimit.

Record QueueLane := mkLane {
  lane_items : list (list byte);
  lane_bytes : Z;
}.

Definition empty_lane : QueueLane := mkLane [] 0.

Section queue.
Context {K : Type} `{Countable K}.

Record QueuedDatagram := mkDatagram {
  dg_peer : K;
  dg_priority : SendPriority;
  dg_bytes : list byte;
}.

Record PeerQueue := mkPeerQueue {
  control_lane : QueueLane;
  data_lane : QueueLane;
}.

Definition lane (p : SendPriority) (pq : PeerQueue) : QueueLane :=
  match p with Control => control_lane pq | Data => data_lane pq end.

Definition set_lane (p : SendPriority) (l : QueueLane) (pq : PeerQueue) : PeerQueue :=
  match p with
  | Control => mkPeerQueue l (data_lane pq)
  | Data => mkPeerQueue (control_lane pq) l
  end.

(** The counters of one class: the active ring, the items and the bytes queued. *)
Record QueueClass := mkClass {
  active_peers : list K;
  class_items : Z;
  class_bytes : Z;
}.

Record BoundedSendQueue := mkQueue {
  limits_ : SendQueueLimits;
  peers_ : gmap K PeerQueue;
  control_class : QueueClass;
  data_class : QueueClass;
}.

Definition queue_class (p : SendPriority) (q : BoundedSendQueue) : QueueClass :=
  match p with Control => control_class q | Data => data_class q end.

Definition class_limits (p : SendPriority) (q : BoundedSendQueue) : SendQueueClassLimits :=
  match p with Control => control_limits (limits_ q) | Data => data_limits (limits_ q) end.

Definition set_class (p : SendPriority) (c : QueueClass) (q : BoundedSendQueue)
    : BoundedSendQueue :=
  match p with
  | Control => mkQueue (limits_ q) (peers_ q) c (data_class q)
  | Data => mkQueue (limits_ q) (peers_ q) (control_class q) c
  end.

Definition set_peers (m : gmap K PeerQueue) (q : BoundedSendQueue) : BoundedSendQueue :=
  mkQueue (limits_ q) m (control_class q) (data_class q).

Definition empty_class : QueueClass := mkClass [] 0 0.
Definition queue_init (limits : SendQueueLimits) : BoundedSendQueue :=
  mkQueue limits ∅ empty_class empty_class.

Definition valid_class (l : SendQueueClassLimits) : bool :=
  (0 <? max_items_per_peer l) && (0 <? max_bytes_per_peer l) &&
  (0 <? max_items_global l) && (0 <? max_bytes_global l).

Definition valid_limits (q : BoundedSendQueue) : bool :=
  valid_class (control_limits (limits_ q)) && valid_class (data_limits (limits_ q)).

(** [data] is [None] for a null pointer with a positive length.  The [size_t]
    subtractions and additions wrap at 64 bits. *)
Definition enqueue (peer_key : K) (data : option (list byte)) (p : SendPriority)
    (q : BoundedSendQueue) : SendQueueResult * BoundedSendQueue :=
  match data with
  | None => (Invalid, q)
  | Some bytes =>
      if negb (valid_limits q) then (Invalid, q) else
      let len := Z.of_nat (length bytes) in
      let existing := lane p <$> peers_ q !! peer_key in
      let peer_items := from_option (λ l, Z.of_nat (length (lane_items l))) 0 existing in
      let peer_bytes := from_option lane_bytes 0 existing in
      let limits := class_limits p q in
      let c := queue_class p q in
      if max_items_per_peer limits <=? peer_items then (PerPeerItemLimit, q) else
      if wrap 64 (max_bytes_per_peer limits - peer_bytes) <? len then (PerPeerByteLimit, q) else
      if max_items_global limits <=? class_items c then (GlobalItemLimit, q) else
      if wrap 64 (max_bytes_global limits - class_bytes c) <? len then (GlobalByteLimit, q) else
      let pq := default (mkPeerQueue empty_lane empty_lane) (peers_ q !! peer_key) in
      let l := lane p pq in
      let active :=
        match lane_items l with
        | [] => active_peers c ++ [peer_key]
        | _ => active_peers c
        end in
      let l := mkLane (lane_items l ++ [bytes]) (wrap 64 (lane_bytes l + len)) in
      (Queued,
       set_class p (mkClass active (wrap 64 (class_items c + 1)) (wrap 64 (class_bytes c + len)))
         (set_peers (<[peer_key := set_lane p l pq]> (peers_ q)) q))
  end.

(** [pop(SendPriority)], called on a class whose ring is not empty. *)
Definition pop_class (p : SendPriority) (q : BoundedSendQueue)
    : option QueuedDatagram * BoundedSendQueue :=
  let c := queue_class p q in
  match active_peers c with
  | [] => (None, q)
  | peer_key :: active =>
      let q := set_class p (mkClass active (class_items c) (class_bytes c)) q in
      match peers_ q !! peer_key with
      | None => (None, q)
      | Some pq =>
          let l := lane p pq in
          match lane_items l with
          | [] => (None, q)
          | bytes :: items =>
              let len := Z.of_nat (length bytes) in
              let pq := set_lane p (mkLane items (wrap 64 (lane_bytes l - len))) pq in
              let active := match items with [] => active | _ => active ++ [peer_key] end in
              let c := mkClass active (wrap 64 (class_items c - 1))
                         (wrap 64 (class_bytes c - len)) in
              let m :=
                match lane_items (control_lane pq), lane_items (data_lane pq) with
                | [], [] => delete peer_key (peers_ q)
                | _, _ => <[peer_key := pq]> (peers_ q)
                end in
              (Some (mkDatagram peer_key p bytes), set_class p c (set_peers m q))
          end
      end
  end.

Definition pop (q : BoundedSendQueue) : option QueuedDatagram * BoundedSendQueue :=
  match active_peers (control_class q), active_peers (data_class q) with
  | _ :: _, _ => pop_class Control q
  | [], _ :: _ => pop_class Data q
  | [], [] => (None, q)
  end.

Definition clear_queue (q : BoundedSendQueue) : BoundedSendQueue := queue_init (limits_ q).

Definition queue_size (q : BoundedSendQueue) : Z :=
  wrap 64 (class_items (control_class q) + class_items (data_class q)).
Definition queue_bytes (q : BoundedSendQueue) : Z :=
  wrap 64 (class_bytes (control_class q) + class_bytes (data_class q)).
Definition queue_empty (q : BoundedSendQueue) : bool := queue_size q =? 0.

End queue.
Arguments QueuedDatagram : clear implicits.
Arguments QueueClass : clear implicits.
Arguments BoundedSendQueue K {_ _}.

(** ** Sums over the active ring *)

Definition zsum {A} (f : A -> Z) (l : list A) : Z := foldr (λ x s, f x + s) 0 l.

Lemma zsum_app {A} (f : A -> Z) l1 l2 : zsum f (l1 ++ l2) = zsum f l1 + zsum f l2.
Proof. induction l1 as [|x l1 IH]; simpl; lia. Qed.

Lemma zsum_ext {A} (f g : A -> Z) l :
  (forall x, x ∈ l -> f x = g x) -> zsum f l = zsum g l.
Proof.
  induction l as [|x l IH]; intros Hf; [done|]. simpl.
  rewrite (Hf x) by apply elem_of_cons, or_introl, eq_refl.
  rewrite IH; [done|]. intros y Hy. by apply Hf, elem_of_cons, or_intror.
Qed.

Lemma zsum_nonneg {A} (f : A -> Z) l : (forall x, 0 <= f x) -> 0 <= zsum f l.
Proof. intros Hf. induction l as [|x l IH]; simpl; [lia|]. specialize (Hf x). lia. Qed.

Lemma zsum_elem {A} (f : A -> Z) l x :
  (forall y, 0 <= f y) -> x ∈ l -> f x <= zsum f l.
Proof.
  intros Hf. induction l as [|y l IH]; [by intros ?%not_elem_of_nil|].
  simpl. pose proof (zsum_nonneg f l Hf). specialize (Hf y).
  intros [->|?%IH]%elem_of_cons; lia.
Qed.

Definition bytes_of (items : list (list byte)) : Z :=
  zsum (λ b, Z.of_nat (length b)) items.

Lemma bytes_of_nonneg items : 0 <= bytes_of items.
Proof. apply zsum_nonneg. lia. Qed.

(** ** The invariant of one class *)

Section class_invariant.
Context {K : Type} `{Countable K}.

Definition update (f : K -> list (list byte)) (k : K) (v : list (list byte))
    (x : K) : list (list byte) := if decide (x = k) then v else f x.

Lemma update_eq f k v : update f k v k = v.
Proof. unfold update. by rewrite decide_True. Qed.
Lemma update_ne f k v x : x <> k -> update f k v x = f x.
Proof. intros. unfold update. by rewrite decide_False. Qed.

(** [cont k] are the datagrams queued for [k]: the ring lists the peers that have some,
    once each; the counters are the totals; and the limits hold. *)
Record class_ok (l : SendQueueClassLimits) (c : QueueClass K)
    (cont : K -> list (list byte)) : Prop := {
  class_ring : NoDup (active_peers c);
  class_active k : k ∈ active_peers c <-> cont k <> [];
  class_items_total :
    class_items c = zsum (λ k, Z.of_nat (length (cont k))) (active_peers c);
  class_bytes_total : class_bytes c = zsum (λ k, bytes_of (cont k)) (active_peers c);
  class_items_bound : class_items c <= max_items_global l;
  class_bytes_bound : class_bytes c <= max_bytes_global l;
  class_peer_items k : Z.of_nat (length (cont k)) <= max_items_per_peer l;
  class_peer_bytes k : bytes_of (cont k) <= max_bytes_per_peer l;
}.

Lemma class_ok_ext l c f g :
  (forall k, f k = g k) -> class_ok l c f -> class_ok l c g.
Proof.
  intros Hfg [H1 H2 H3 H4 H5 H6 H7 H8]. split; try done.
  - intros k. by rewrite H2, Hfg.
  - rewrite H3. apply zsum_ext. intros k _. by rewrite Hfg.
  - rewrite H4. apply zsum_ext. intros k _. by rewrite Hfg.
  - intros k. by rewrite <- Hfg.
  - intros k. by rewrite <- Hfg.
Qed.

(** Sums over the ring when only the contents of [k] change. *)
Lemma zsum_update (w : list (list byte) -> Z) f k v l :
  NoDup l ->
  zsum (λ x, w (update f k v x)) l =
    zsum (λ x, w (f x)) l + (if decide (k ∈ l) then w v - w (f k) else 0).
Proof.
  induction 1 as [|x l Hx Hl IH]; [done|]. cbn [zsum foldr]. fold (zsum (λ x, w (f x)) l).
  fold (zsum (λ x, w (update f k v x)) l). rewrite IH.
  destruct (decide (x = k)) as [->|Hne].
  - rewrite update_eq, (decide_False (P := k ∈ l)) by done.
    rewrite (decide_True (P := k ∈ k :: l)) by apply elem_of_cons, or_introl, eq_refl. lia.
  - rewrite update_ne by done.
    rewrite (decide_ext (k ∈ x :: l) (k ∈ l)); [lia|].
    rewrite elem_of_cons. naive_solver.
Qed.

Lemma class_ok_push l c cont k b :
  class_ok l c cont ->
  Z.of_nat (length (cont k)) < max_items_per_peer l ->
  bytes_of (cont k) + Z.of_nat (length b) <= max_bytes_per_peer l ->
  class_items c < max_items_global l ->
  class_bytes c + Z.of_nat (length b) <= max_bytes_global l ->
  class_ok l (mkClass (match cont k with [] => active_peers c ++ [k] | _ => active_peers c end)
                (class_items c + 1) (class_bytes c + Z.of_nat (length b)))
    (update cont k (cont k ++ [b])).
Proof.
  intros [Hr Ha Hi Hb Hig Hbg Hpi Hpb] H1 H2 H3 H4.
  assert (bytes_of (cont k ++ [b]) = bytes_of (cont k) + Z.of_nat (length b)) as Hw
    by (unfold bytes_of; rewrite zsum_app; simpl; lia).
  assert (Z.of_nat (length (cont k ++ [b])) = Z.of_nat (length (cont k)) + 1) as Hl
    by (rewrite length_app; simpl; lia).
  assert (cont k = [] -> k ∉ active_peers c) as Hnew by (rewrite Ha; naive_solver).
  split; simpl.
  - destruct (cont k) eqn:Ek; [|done]. apply NoDup_app. split_and!; [done| |apply NoDup_singleton].
    intros x Hx ->%list_elem_of_singleton. by apply Hnew.
  - intros x. destruct (decide (x = k)) as [->|Hne].
    + rewrite update_eq. split; [by destruct (cont k)|]. intros _.
      destruct (cont k) eqn:Ek; [|rewrite Ha, Ek; done].
      apply elem_of_app, or_intror, list_elem_of_singleton, eq_refl.
    + rewrite update_ne, <- Ha by done. destruct (cont k); [|done].
      rewrite elem_of_app, list_elem_of_singleton. naive_solver.
  - destruct (cont k) eqn:Ek; rewrite <- ?Ek in *.
    + rewrite zsum_app. cbn [zsum foldr]. rewrite (zsum_update (λ v, Z.of_nat (length v))) by done.
      rewrite decide_False by auto. rewrite update_eq. rewrite Ek in *. simpl in *. lia.
    + rewrite (zsum_update (λ v, Z.of_nat (length v))) by done.
      rewrite decide_True by (rewrite Ha, Ek; done). lia.
  - destruct (cont k) eqn:Ek; rewrite <- ?Ek in *.
    + rewrite zsum_app. cbn [zsum foldr]. rewrite (zsum_update bytes_of) by done.
      rewrite decide_False by auto. rewrite update_eq, Hw. rewrite Ek in *. cbn in *. lia.
    + rewrite (zsum_update bytes_of) by done. rewrite decide_True by (rewrite Ha, Ek; done). lia.
  - lia.
  - lia.
  - intros x. destruct (decide (x = k)) as [->|]; [rewrite update_eq|rewrite update_ne by done; apply Hpi]. lia.
  - intros x. destruct (decide (x = k)) as [->|]; [rewrite update_eq|rewrite update_ne by done; apply Hpb]. lia.
Qed.

Lemma class_ok_pop l c cont k active b items :
  class_ok l c cont -> active_peers c = k :: active -> cont k = b :: items ->
  class_ok l (mkClass (match items with [] => active | _ => active ++ [k] end)
                (class_items c - 1) (class_bytes c - Z.of_nat (length b)))
    (update cont k items).
Proof.
  intros [Hr Ha Hi Hb Hig Hbg Hpi Hpb] Hk Hc. rewrite Hk in *.
  apply NoDup_cons in Hr as [Hnk Hr].
  pose proof (Hpi k) as Hpik. pose proof (Hpb k) as Hpbk. rewrite Hc in Hpik, Hpbk.
  assert (bytes_of (b :: items) = Z.of_nat (length b) + bytes_of items) as Hw by done.
  cbn [zsum foldr] in Hi, Hb. rewrite Hc in Hi, Hb. cbn [length] in *.
  fold (zsum (λ k, Z.of_nat (length (cont k))) active) in Hi.
  fold (zsum (λ k, bytes_of (cont k)) active) in Hb.
  split; cbn [active_peers class_items class_bytes].
  - destruct items; [done|]. apply NoDup_app. split_and!; [done| |apply NoDup_singleton].
    by intros x Hx ->%list_elem_of_singleton.
  - intros x. destruct (decide (x = k)) as [->|Hne].
    + rewrite update_eq. destruct items; [by split|].
      rewrite elem_of_app, list_elem_of_singleton. naive_solver.
    + rewrite update_ne, <- Ha, elem_of_cons by done. destruct items; [naive_solver|].
      rewrite elem_of_app, list_elem_of_singleton. naive_solver.
  - destruct items as [|b' items]; rewrite ?zsum_app; cbn [zsum foldr];
      rewrite (zsum_update (λ v, Z.of_nat (length v))), decide_False by done;
      rewrite ?update_eq; cbn [length] in *; lia.
  - destruct items as [|b' items]; rewrite ?zsum_app; cbn [zsum foldr];
      rewrite (zsum_update bytes_of), decide_False by done; rewrite ?update_eq.
    + change (bytes_of []) with 0 in Hw. lia.
    + lia.
  - lia.
  - lia.
  - intros x. destruct (decide (x = k)) as [->|]; [rewrite update_eq; lia|].
    rewrite update_ne by done. apply Hpi.
  - intros x. destruct (decide (x = k)) as [->|]; [rewrite update_eq; lia|].
    rewrite update_ne by done. apply Hpb.
Qed.

End class_invariant.

(** ** The invariant of the queue *)

Section queue_invariant.
Context {K : Type} `{Countable K}.
Implicit Types (q : BoundedSendQueue K) (k : K) (p : SendPriority).

(** The datagrams queued for a peer in a class. *)
Definition contents p q k : list (list byte) :=
  from_option (λ pq, lane_items (lane p pq)) [] (peers_ q !! k).

Definition limits_ok (l : SendQueueClassLimits) : Prop :=
  u64 (max_items_per_peer l) /\ u64 (max_bytes_per_peer l) /\
  u64 (max_items_global l) /\ u64 (max_bytes_global l).

Record queue_ok q : Prop := {
  queue_classes p : class_ok (class_limits p q) (queue_class p q) (contents p q);
  queue_lane_bytes p k pq : peers_ q !! k = Some pq ->
    lane_bytes (lane p pq) = bytes_of (lane_items (lane p pq));
  queue_no_idle_peer k : is_Some (peers_ q !! k) ->
    contents Control q k <> [] \/ contents Data q k <> [];
  queue_limits p : limits_ok (class_limits p q);
}.

Lemma lane_set_lane p p' l pq :
  lane p (set_lane p' l pq) = if decide (p = p') then l else lane p pq.
Proof. by destruct p, p'. Qed.

Lemma queue_class_set p p' c q :
  queue_class p (set_class p' c q) = if decide (p = p') then c else queue_class p q.
Proof. by destruct p, p'. Qed.

Lemma peers_set_class p c q : peers_ (set_class p c q) = peers_ q.
Proof. by destruct p. Qed.
Lemma limits_set_class p c q : limits_ (set_class p c q) = limits_ q.
Proof. by destruct p. Qed.
Lemma queue_class_set_peers p m q : queue_class p (set_peers m q) = queue_class p q.
Proof. by destruct p. Qed.
Lemma class_limits_set p p' c m q :
  class_limits p (set_class p' c (set_peers m q)) = class_limits p q.
Proof. by destruct p, p'. Qed.

(** Replace the contents of [k] in class [p] by [v], and the class record by [c]:
    what [enqueue] and [pop] do. *)
Definition changes p k (v : list (list byte)) (c : QueueClass K) q q' : Prop :=
  limits_ q' = limits_ q /\
  (forall p', queue_class p' q' = if decide (p' = p) then c else queue_class p' q) /\
  (forall p' k', contents p' q' k' =
     if decide (p' = p /\ k' = k) then v else contents p' q k').

Lemma changes_ok p k v c q q' :
  queue_ok q -> changes p k v c q q' ->
  class_ok (class_limits p q) c (update (contents p q) k v) ->
  (forall p' k' pq, peers_ q' !! k' = Some pq ->
     lane_bytes (lane p' pq) = bytes_of (lane_items (lane p' pq))) ->
  (forall k', is_Some (peers_ q' !! k') ->
     contents Control q' k' <> [] \/ contents Data q' k' <> []) ->
  queue_ok q'.
Proof.
  intros [Hc _ _ Hl] (Hlim & Hcl & Hco) Hok Hb Hi.
  assert (forall p', class_limits p' q' = class_limits p' q) as Hlim'
    by (intros []; simpl; by rewrite Hlim).
  split; [|done|done|intros p'; by rewrite Hlim'].
  intros p'. rewrite Hlim', Hcl. destruct (decide (p' = p)) as [->|Hne].
  - eapply class_ok_ext, Hok. intros k'. rewrite Hco. unfold update.
    destruct (decide (k' = k)); destruct (decide _); naive_solver.
  - eapply class_ok_ext, Hc. intros k'. rewrite Hco. rewrite decide_False; naive_solver.
Qed.

Lemma queue_init_ok limits :
  limits_ok (data_limits limits) -> limits_ok (control_limits limits) ->
  queue_ok (queue_init limits).
Proof.
  intros Hd Hc.
  assert (forall p k, contents p (queue_init limits) k = []) as He
    by (intros p k; unfold contents; simpl; by rewrite lookup_empty).
  split; simpl.
  - intros p. assert (limits_ok (class_limits p (queue_init (K := K) limits))) as (H1 & H2 & H3 & H4)
      by (by destruct p).
    unfold in_width in *.
    assert (queue_class p (queue_init (K := K) limits) = empty_class) as -> by (by destruct p).
    split; simpl; try lia; try constructor.
    + by intros ?%not_elem_of_nil.
    + by rewrite He.
    + intros k. rewrite He. simpl. lia.
    + intros k. rewrite He. cbn. lia.
  - intros p k pq. by rewrite lookup_empty.
  - intros k. rewrite lookup_empty. by intros [? ?].
  - by intros [].
Qed.

(** The four limits of a class leave room for [b]. *)
Definition fits p k (b : list byte) q : Prop :=
  let l := class_limits p q in
  valid_limits q = true /\
  Z.of_nat (length (contents p q k)) < max_items_per_peer l /\
  bytes_of (contents p q k) + Z.of_nat (length b) <= max_bytes_per_peer l /\
  class_items (queue_class p q) < max_items_global l /\
  class_bytes (queue_class p q) + Z.of_nat (length b) <= max_bytes_global l.

Lemma class_totals_nonneg q p :
  queue_ok q -> 0 <= class_items (queue_class p q) /\ 0 <= class_bytes (queue_class p q).
Proof.
  intros Hq. pose proof (queue_classes _ Hq p) as Hc.
  rewrite (class_items_total _ _ _ Hc), (class_bytes_total _ _ _ Hc).
  split; apply zsum_nonneg; intros x; [lia|apply bytes_of_nonneg].
Qed.

(** The lanes of a peer, empty ones for a peer that is not in the map. *)
Definition peer_lanes k q : PeerQueue :=
  default (mkPeerQueue empty_lane empty_lane) (peers_ q !! k).

Lemma peer_lanes_items p k q : lane_items (lane p (peer_lanes k q)) = contents p q k.
Proof. unfold peer_lanes, contents. destruct (peers_ q !! k); by destruct p. Qed.

Lemma lane_of_existing {A} (f : QueueLane -> A) d p k q :
  f empty_lane = d ->
  f (lane p (peer_lanes k q)) = from_option f d (lane p <$> peers_ q !! k).
Proof. intros <-. unfold peer_lanes. destruct (peers_ q !! k); by destruct p. Qed.

Lemma peer_lanes_bytes p k q :
  queue_ok q -> lane_bytes (lane p (peer_lanes k q)) = bytes_of (contents p q k).
Proof.
  intros Hq. rewrite <- peer_lanes_items. unfold peer_lanes.
  destruct (peers_ q !! k) as [pq|] eqn:Ek; simpl; [by apply (queue_lane_bytes _ Hq p k)|].
  by destruct p.
Qed.

(** Storing a lane of [k]. *)
Definition store_lane p k l (c : QueueClass K) q : BoundedSendQueue K :=
  set_class p c (set_peers (<[k := set_lane p l (peer_lanes k q)]> (peers_ q)) q).

Lemma store_lane_changes p k l c q :
  changes p k (lane_items l) c q (store_lane p k l c q).
Proof.
  unfold store_lane. split_and!.
  - by rewrite limits_set_class.
  - intros p'. by rewrite queue_class_set, queue_class_set_peers.
  - intros p' k'. unfold contents at 1. rewrite peers_set_class. simpl.
    destruct (decide (k' = k)) as [->|Hne].
    + rewrite lookup_insert_eq. simpl. rewrite lane_set_lane.
      destruct (decide (p' = p)); destruct (decide (_ /\ _)); try naive_solver.
      apply peer_lanes_items.
    + rewrite lookup_insert_ne by done. by rewrite decide_False by naive_solver.
Qed.

Lemma store_lane_ok p k l c q :
  queue_ok q -> lane_items l <> [] \/ (exists p', p' <> p /\ contents p' q k <> []) ->
  lane_bytes l = bytes_of (lane_items l) ->
  class_ok (class_limits p q) c (update (contents p q) k (lane_items l)) ->
  queue_ok (store_lane p k l c q).
Proof.
  intros Hq Hbusy Hb Hc. pose proof (store_lane_changes p k l c q) as Hch.
  eapply changes_ok; [done|done|done| |].
  - intros p' k' pq'. unfold store_lane. rewrite peers_set_class. simpl.
    destruct (decide (k' = k)) as [->|Hne].
    + rewrite lookup_insert_eq. intros <-%(inj Some). rewrite lane_set_lane.
      destruct (decide (p' = p)) as [->|]; [done|].
      by rewrite peer_lanes_bytes, peer_lanes_items.
    + rewrite lookup_insert_ne by done. by apply (queue_lane_bytes _ Hq p' k').
  - destruct Hch as (_ & _ & Hco). intros k' Hk'. destruct (decide (k' = k)) as [->|Hne].
    + assert (exists p', contents p' (store_lane p k l c q) k <> []) as [[] ?]; [|by right|by left].
      destruct Hbusy as [?|(p' & Hp' & Hbusy)].
      * exists p. by rewrite Hco, decide_True.
      * exists p'. rewrite Hco, decide_False; [done|by intros [-> _]].
    + rewrite !Hco, !decide_False by (by intros [_ ->]). apply (queue_no_idle_peer _ Hq).
      unfold store_lane in Hk'. rewrite peers_set_class in Hk'. simpl in Hk'.
      by rewrite lookup_insert_ne in Hk'.
Qed.

(** What [enqueue] does on a queue that satisfies the invariant. *)
Lemma enqueue_spec k b p q :
  queue_ok q ->
  (fits p k b q /\ exists q', enqueue k (Some b) p q = (Queued, q') /\
     changes p k (contents p q k ++ [b])
       (mkClass (match contents p q k with
                 | [] => active_peers (queue_class p q) ++ [k]
                 | _ => active_peers (queue_class p q) end)
          (class_items (queue_class p q) + 1)
          (class_bytes (queue_class p q) + Z.of_nat (length b))) q q' /\
     queue_ok q') \/
  (~ fits p k b q /\ exists res, res <> Queued /\ enqueue k (Some b) p q = (res, q)).
Proof.
  intros Hq. pose proof (queue_classes _ Hq p) as Hc.
  pose proof (queue_limits _ Hq p) as (Hl1 & Hl2 & Hl3 & Hl4).
  pose proof (class_totals_nonneg _ p Hq) as [Hn1 Hn2].
  pose proof (class_items_bound _ _ _ Hc) as Hib. pose proof (class_bytes_bound _ _ _ Hc) as Hbb.
  pose proof (class_peer_bytes _ _ _ Hc k) as Hpb.
  pose proof (bytes_of_nonneg (contents p q k)) as Hn3.
  unfold enqueue, fits. cbv zeta. fold (peer_lanes k q). unfold in_width in *.
  replace (from_option lane_bytes 0 (lane p <$> peers_ q !! k)) with (bytes_of (contents p q k))
    by (rewrite <- peer_lanes_bytes by done; by apply lane_of_existing).
  replace (from_option _ 0 (lane p <$> peers_ q !! k)) with (Z.of_nat (length (contents p q k)))
    by (unfold contents; by destruct (peers_ q !! k)).
  rewrite (wrap_small 64 (max_bytes_per_peer _ - _)), (wrap_small 64 (max_bytes_global _ - _))
    by (unfold in_width; lia).
  destruct (valid_limits q); simpl; [|right; split; [by intros [? _]|eexists; split; [|reflexivity]; done]].
  do 4 (let E := fresh "Hg" in
        case_match eqn:E; [right; split; [lia|eexists; split; [|reflexivity]; done]|];
        apply Z.leb_gt in E || apply Z.ltb_ge in E).
  left. split; [lia|]. eexists. split; [done|].
  rewrite !peer_lanes_items, peer_lanes_bytes by done.
  rewrite !wrap_small by (unfold in_width; lia).
  set (l' := mkLane _ _). fold (store_lane p k l' (mkClass (match contents p q k with
     | [] => active_peers (queue_class p q) ++ [k] | _ => active_peers (queue_class p q) end)
     (class_items (queue_class p q) + 1) (class_bytes (queue_class p q) + Z.of_nat (length b))) q).
  split; [apply (store_lane_changes p k l')|].
  apply store_lane_ok; [done|left; simpl; by destruct (contents p q k)| |].
  - simpl. unfold bytes_of. rewrite zsum_app. simpl. lia.
  - apply class_ok_push; try done; lia.
Qed.

(** The counters of a class that gives up the datagram [b]. *)
Lemma pop_counters p q k b items :
  queue_ok q -> contents p q k = b :: items ->
  wrap 64 (class_items (queue_class p q) - 1) = class_items (queue_class p q) - 1 /\
  wrap 64 (class_bytes (queue_class p q) - Z.of_nat (length b)) =
    class_bytes (queue_class p q) - Z.of_nat (length b) /\
  wrap 64 (bytes_of (b :: items) - Z.of_nat (length b)) = bytes_of items.
Proof.
  intros Hq Ek. pose proof (queue_classes _ Hq p) as Hc.
  pose proof (queue_limits _ Hq p) as (Hl1 & Hl2 & Hl3 & Hl4).
  assert (k ∈ active_peers (queue_class p q)) as Hin
    by (apply (class_active _ _ _ Hc); by rewrite Ek).
  assert (forall k, 0 <= bytes_of (contents p q k)) as Hnn by (intros; apply bytes_of_nonneg).
  pose proof (zsum_elem (λ k, Z.of_nat (length (contents p q k))) _ _
    (λ k, Nat2Z.is_nonneg _) Hin) as H1.
  pose proof (zsum_elem (λ k, bytes_of (contents p q k)) _ _ Hnn Hin) as H2. cbv beta in H1, H2.
  rewrite <- (class_items_total _ _ _ Hc), Ek in H1. cbn [length] in H1.
  rewrite <- (class_bytes_total _ _ _ Hc), Ek in H2.
  pose proof (class_items_bound _ _ _ Hc). pose proof (class_bytes_bound _ _ _ Hc).
  change (bytes_of (b :: items)) with (Z.of_nat (length b) + bytes_of items) in *.
  pose proof (bytes_of_nonneg items). unfold in_width in *.
  rewrite !wrap_small by (unfold in_width; lia). lia.
Qed.

(** Removing a peer whose last datagram was popped. *)
Lemma delete_peer_ok p k c q :
  queue_ok q -> (forall p', p' <> p -> contents p' q k = []) ->
  class_ok (class_limits p q) c (update (contents p q) k []) ->
  let q' := set_class p c (set_peers (delete k (peers_ q)) q) in
  changes p k [] c q q' /\ queue_ok q'.
Proof.
  intros Hq Hidle Hc q'.
  assert (changes p k [] c q q') as Hch.
  { subst q'. split_and!.
    - by rewrite limits_set_class.
    - intros p'. by rewrite queue_class_set, queue_class_set_peers.
    - intros p' k'. unfold contents at 1. rewrite peers_set_class. simpl.
      destruct (decide (k' = k)) as [->|Hne].
      + rewrite lookup_delete_eq. simpl. destruct (decide (_ /\ _)); [done|].
        symmetry. apply Hidle. naive_solver.
      + rewrite lookup_delete_ne by done. by rewrite decide_False by naive_solver. }
  split; [done|]. eapply changes_ok; [done|done|done| |]; subst q'; rewrite peers_set_class; simpl.
  - intros p' k' pq [_ ?]%lookup_delete_Some. by apply (queue_lane_bytes _ Hq p' k').
  - destruct Hch as (_ & _ & Hco). intros k' [pq [Hne Hk]%lookup_delete_Some].
    rewrite !Hco, !decide_False by naive_solver. by apply (queue_no_idle_peer _ Hq).
Qed.

Lemma set_class_twice p c c' m q :
  set_class p c (set_peers m (set_class p c' q)) = set_class p c (set_peers m q).
Proof. by destruct p. Qed.

(** What [pop] does on a class whose ring is not empty. *)
Lemma pop_class_spec p q k active :
  queue_ok q -> active_peers (queue_class p q) = k :: active ->
  exists b items q', contents p q k = b :: items /\
    pop_class p q = (Some (mkDatagram k p b), q') /\
    changes p k items
      (mkClass (match items with [] => active | _ => active ++ [k] end)
         (class_items (queue_class p q) - 1)
         (class_bytes (queue_class p q) - Z.of_nat (length b))) q q' /\
    queue_ok q'.
Proof.
  intros Hq Hact. pose proof (queue_classes _ Hq p) as Hc.
  assert (contents p q k <> []) as Hne
    by (apply (class_active _ _ _ Hc); rewrite Hact; apply elem_of_cons; by left).
  destruct (contents p q k) as [|b items] eqn:Ek; [done|]. exists b, items.
  pose proof (class_ok_pop _ _ _ _ _ _ _ Hc Hact Ek) as Hok.
  pose proof (pop_counters _ _ _ _ _ Hq Ek) as (Hw1 & Hw2 & Hw3).
  unfold pop_class. cbv zeta. rewrite Hact, peers_set_class.
  destruct (peers_ q !! k) as [pq|] eqn:Hk;
    [|by unfold contents in Ek; rewrite Hk in Ek].
  assert (peer_lanes k q = pq) as Hpl by (unfold peer_lanes; by rewrite Hk).
  rewrite <- Hpl, peer_lanes_items, Ek, peer_lanes_bytes, Ek, Hw1, Hw2, Hw3 by done.
  eexists. split; [done|]. split; [done|]. rewrite set_class_twice.
  set (l := mkLane items (bytes_of items)). set (c := mkClass _ _ _) in *.
  set (other := match p with Control => Data | Data => Control end).
  assert (forall p', p' <> p -> p' = other) as Hother by (subst other; by destruct p, p').
  assert (lane other (set_lane p l (peer_lanes k q)) = lane other (peer_lanes k q)) as Hol
    by (subst other; by destruct p).
  replace (match lane_items (control_lane (set_lane p l (peer_lanes k q))) with _ => _ end)
    with (match items, contents other q k with
          | [], [] => delete k (peers_ q)
          | _, _ => <[k := set_lane p l (peer_lanes k q)]> (peers_ q) end).
  2:{ rewrite <- (peer_lanes_items other). subst other. destruct p; simpl; [|done].
      by destruct items, (lane_items (control_lane (peer_lanes k q))). }
  assert (items = [] /\ contents other q k = [] \/
          items <> [] \/ contents other q k <> []) as [[Hi Ho]|Hbusy]
    by (destruct items, (contents other q k); auto).
  - rewrite Ho, Hi in *. apply delete_peer_ok; [done| |done].
    by intros p' ->%Hother.
  - replace (match items with _ => _ end)
      with (<[k := set_lane p l (peer_lanes k q)]> (peers_ q))
      by (destruct items, (contents other q k); naive_solver).
    split; [apply (store_lane_changes p k l)|].
    apply (store_lane_ok p k l); [done| |done|done].
    destruct Hbusy; [by left|right]. exists other. split; [subst other; by destruct p|done].
Qed.

(** [pop] on a queue that satisfies the invariant: nothing when both rings are empty,
    otherwise the front of the control ring, or of the data ring when that is empty. *)
Lemma pop_spec q :
  queue_ok q ->
  (active_peers (control_class q) = [] /\ active_peers (data_class q) = [] /\
   pop q = (None, q)) \/
  exists p k active b items q',
    (p = Data -> active_peers (control_class q) = []) /\
    active_peers (queue_class p q) = k :: active /\ contents p q k = b :: items /\
    pop q = (Some (mkDatagram k p b), q') /\
    changes p k items
      (mkClass (match items with [] => active | _ => active ++ [k] end)
         (class_items (queue_class p q) - 1)
         (class_bytes (queue_class p q) - Z.of_nat (length b))) q q' /\
    queue_ok q'.
Proof.
  intros Hq. unfold pop.
  destruct (active_peers (control_class q)) as [|k active] eqn:Ec;
    [destruct (active_peers (data_class q)) as [|k active] eqn:Ed; [by left|]|]; right.
  - destruct (pop_class_spec Data q k active Hq Ed) as (b & items & q' & ?).
    exists Data, k, active, b, items, q'. naive_solver.
  - destruct (pop_class_spec Control q k active Hq Ec) as (b & items & q' & ?).
    exists Control, k, active, b, items, q'. naive_solver.
Qed.

(** ** Runs *)

Inductive queue_op :=
  | OpEnqueue (k : K) (data : option (list byte)) (p : SendPriority)
  | OpPop.

(** What an observer of the queue sees: datagrams accepted and datagrams handed out. *)
Inductive queue_event :=
  | Accepted (d : QueuedDatagram K)
  | Sent (d : QueuedDatagram K).

Definition step_queue (op : queue_op) q : list queue_event * BoundedSendQueue K :=
  match op with
  | OpEnqueue k data p =>
      match enqueue k data p q with
      | (Queued, q') => ([Accepted (mkDatagram k p (default [] data))], q')
      | (_, q') => ([], q')
      end
  | OpPop =>
      match pop q with
      | (Some d, q') => ([Sent d], q')
      | (None, q') => ([], q')
      end
  end.

Fixpoint run_queue (ops : list queue_op) q : list queue_event * BoundedSendQueue K :=
  match ops with
  | [] => ([], q)
  | op :: ops =>
      let '(ev, q) := step_queue op q in
      let '(evs, q) := run_queue ops q in (ev ++ evs, q)
  end.

Inductive queue_reachable (limits : SendQueueLimits) : BoundedSendQueue K -> Prop :=
  | queue_start : queue_reachable limits (queue_init limits)
  | queue_ran q op : queue_reachable limits q -> queue_reachable limits (snd (step_queue op q))
  | queue_cleared q : queue_reachable limits q -> queue_reachable limits (clear_queue q).

(** The datagrams of peer [k] and class [p] accepted, respectively sent, in order. *)
Definition accepted p k (evs : list queue_event) : list (list byte) :=
  omap (λ e, match e with
             | Accepted d => if decide (dg_priority d = p /\ dg_peer d = k)
                             then Some (dg_bytes d) else None
             | Sent _ => None end) evs.
Definition sent p k (evs : list queue_event) : list (list byte) :=
  omap (λ e, match e with
             | Sent d => if decide (dg_priority d = p /\ dg_peer d = k)
                         then Some (dg_bytes d) else None
             | Accepted _ => None end) evs.

(** How many datagrams of class [p] were sent. *)
Definition is_sent p (e : queue_event) : bool :=
  match e with Sent d => bool_decide (dg_priority d = p) | Accepted _ => false end.
Definition sent_count p (evs : list queue_event) : nat :=
  length (filter (λ e, is_sent p e = true) evs).

(** The three kinds of step. *)
Lemma step_queue_cases op q ev q' :
  queue_ok q -> step_queue op q = (ev, q') ->
  queue_ok q' /\
  ((ev = [] /\ q' = q) \/
   (exists k p b c, ev = [Accepted (mkDatagram k p b)] /\
      changes p k (contents p q k ++ [b]) c q q' /\
      active_peers c = match contents p q k with
                       | [] => active_peers (queue_class p q) ++ [k]
                       | _ => active_peers (queue_class p q) end) \/
   (exists k p b items active c, ev = [Sent (mkDatagram k p b)] /\
      contents p q k = b :: items /\ active_peers (queue_class p q) = k :: active /\
      changes p k items c q q' /\
      active_peers c = match items with [] => active | _ => active ++ [k] end)).
Proof.
  intros Hq. destruct op as [k [b|] p|]; cbn [step_queue].
  - destruct (enqueue_spec k b p q Hq) as [(_ & q1 & -> & Hch & Hok)|(_ & res & Hres & ->)].
    + intros [= <- <-]. split; [done|]. right; left. by do 4 eexists.
    + destruct res; try done; intros [= <- <-]; split; auto.
  - intros [= <- <-]. auto.
  - destruct (pop_spec q Hq) as [(_ & _ & ->)|(p & k & act & b & items & q1 & _ & Ha & Hc & -> & Hch & Hok)].
    + intros [= <- <-]. auto.
    + intros [= <- <-]. split; [done|]. right; right. by do 6 eexists.
Qed.

Lemma run_queue_ok ops q evs q' :
  queue_ok q -> run_queue ops q = (evs, q') -> queue_ok q'.
Proof.
  revert q evs. induction ops as [|op ops IH]; intros q evs Hq; simpl; [by intros [= _ <-]|].
  destruct (step_queue op q) as [ev q1] eqn:E1. destruct (run_queue ops q1) as [evs1 q2] eqn:E2.
  intros [= _ <-]. apply step_queue_cases in E1 as [Hq1 _]; [|done]. by eapply IH.
Qed.

Lemma reachable_queue_ok limits q :
  limits_ok (data_limits limits) -> limits_ok (control_limits limits) ->
  queue_reachable limits q -> queue_ok q /\ limits_ q = limits.
Proof.
  intros Hd Hc. induction 1 as [|q op _ [Hq Hl]|q _ [Hq Hl]].
  - split; [by apply queue_init_ok|done].
  - destruct (step_queue op q) as [ev q'] eqn:E. simpl.
    destruct (step_queue_cases _ _ _ _ Hq E) as [Hq' Hcase]. split; [done|].
    destruct Hcase as [[_ ->]|[(?&?&?&?&_&[Hlim _]&_)|(?&?&?&?&?&?&_&_&_&[Hlim _]&_)]];
      [done|by rewrite Hlim..].
  - unfold clear_queue. rewrite Hl. split; [by apply queue_init_ok|done].
Qed.

Lemma run_reachable limits ops q :
  queue_reachable limits q -> queue_reachable limits (snd (run_queue ops q)).
Proof.
  revert q. induction ops as [|op ops IH]; intros q Hq; [done|]. simpl.
  pose proof (IH _ (queue_ran _ _ op Hq)) as Hr.
  destruct (step_queue op q) as [ev q1]. simpl in Hr.
  destruct (run_queue ops q1) as [evs q2]. done.
Qed.

(** While fewer than [i] datagrams of its class were sent, the peer at position [i] of
    the ring moves up and loses nothing. *)
Lemma run_position ops p k i q evs q' :
  queue_ok q -> active_peers (queue_class p q) !! i = Some k ->
  run_queue ops q = (evs, q') -> (sent_count p evs <= i)%nat ->
  active_peers (queue_class p q') !! (i - sent_count p evs)%nat = Some k /\
  exists later, contents p q' k = contents p q k ++ later.
Proof.
  revert i q evs. induction ops as [|op ops IH]; intros i q evs Hq Hi; simpl.
  { intros [= <- <-] _. unfold sent_count. simpl. rewrite Nat.sub_0_r.
    split; [done|]. exists []. by rewrite app_nil_r. }
  destruct (step_queue op q) as [ev q1] eqn:E1. destruct (run_queue ops q1) as [evs1 q2] eqn:E2.
  intros [= <- <-]. destruct (step_queue_cases _ _ _ _ Hq E1) as [Hq1 Hcase].
  unfold sent_count. rewrite filter_app, length_app. fold (sent_count p evs1).
  destruct Hcase as [[-> ->]|[(k1 & p1 & b & c & -> & (_ & Hcl & Hco) & Hact)|
    (k1 & p1 & b & items & active & c & -> & Hk1 & Ha & (_ & Hcl & Hco) & Hact)]].
  - by apply IH.
  - rewrite filter_cons_False, filter_nil by done. simpl. intros Hn.
    destruct (IH i q1 evs1 Hq1) as [Hpos [later Hl]]; [|done|done|].
    + rewrite Hcl. destruct (decide (p = p1)) as [<-|]; [|done].
      rewrite Hact. destruct (contents p q k1); [|done]. by apply lookup_app_l_Some.
    + split; [done|]. rewrite Hl, Hco. destruct (decide _) as [[<- <-]|]; [|by exists later].
      exists ([b] ++ later). by rewrite app_assoc.
  - destruct (decide (p = p1)) as [<-|Hne].
    + rewrite filter_cons_True, filter_nil by (by apply bool_decide_eq_true). simpl. intros Hn.
      rewrite Ha in Hi. destruct i as [|i]; [lia|]. simpl in Hi.
      assert (k1 <> k) as Hkk.
      { pose proof (class_ring _ _ _ (queue_classes _ Hq p)) as Hnd. rewrite Ha in Hnd.
        apply NoDup_cons in Hnd as [Hnd _]. intros ->. apply Hnd. by eapply list_elem_of_lookup_2. }
      destruct (IH i q1 evs1 Hq1) as [Hpos [later Hl]]; [|done|lia|].
      * rewrite Hcl, decide_True, Hact by done. destruct items; [done|]. by apply lookup_app_l_Some.
      * split; [done|]. rewrite Hl, Hco, decide_False by naive_solver. by exists later.
    + rewrite filter_cons_False, filter_nil
        by (simpl; rewrite bool_decide_eq_true; congruence). simpl. intros Hn.
      destruct (IH i q1 evs1 Hq1) as [Hpos [later Hl]]; [|done|done|].
      * by rewrite Hcl, decide_False.
      * split; [done|]. rewrite Hl, Hco, decide_False by naive_solver. by exists later.
Qed.

End queue_invariant.

(** ** Properties *)

(** A reachable send queue is consistent and within its limits: each class's ring
    lists exactly the peers with queued datagrams, once each, its counters are the
    number and the total size of those datagrams, no peer and no class exceeds its
    limits, and no idle peer keeps an entry.  A datagram is accepted exactly when the
    four limits of its class leave room for it; a refused one changes nothing. *)
Theorem send_queue_bounded `{Countable K} limits (q : BoundedSendQueue K) :
  limits_ok (data_limits limits) -> limits_ok (control_limits limits) ->
  queue_reachable limits q ->
  limits_ q = limits /\ queue_ok q /\
  forall k b p,
    (fst (enqueue k (Some b) p q) = Queued <-> fits p k b q) /\
    (fst (enqueue k (Some b) p q) <> Queued -> snd (enqueue k (Some b) p q) = q).
Proof.
  intros Hd Hc [Hq Hl]%reachable_queue_ok; [|done..]. split; [done|]. split; [done|].
  intros k b p. destruct (enqueue_spec k b p q Hq) as [(Hf & q' & -> & _)|(Hf & res & Hr & ->)];
    simpl; naive_solver.
Qed.

(** No datagram is lost, duplicated or reordered: over any run of enqueues and pops,
    what was queued for a peer in a class followed by what was accepted for it is what
    was sent to it followed by what is still queued. *)
Theorem send_queue_is_fifo `{Countable K} ops (q : BoundedSendQueue K) evs q' p k :
  queue_ok q -> run_queue ops q = (evs, q') ->
  contents p q k ++ accepted p k evs = sent p k evs ++ contents p q' k.
Proof.
  revert q evs. induction ops as [|op ops IH]; intros q evs Hq; simpl.
  { intros [= <- <-]. by rewrite app_nil_r. }
  destruct (step_queue op q) as [ev q1] eqn:E1. destruct (run_queue ops q1) as [evs1 q2] eqn:E2.
  intros [= <- <-]. destruct (step_queue_cases _ _ _ _ Hq E1) as [Hq1 Hcase].
  specialize (IH _ _ Hq1 E2).
  destruct Hcase as [[-> ->]|[(k1 & p1 & b & c & -> & (_ & _ & Hco) & _)|
    (k1 & p1 & b & items & act & c & -> & Hk1 & _ & (_ & _ & Hco) & _)]]; [done|..];
    unfold accepted, sent; simpl; rewrite Hco in IH;
    rewrite (decide_ext (p = p1 /\ k = k1) (p1 = p /\ k1 = k)) in IH by naive_solver;
    destruct (decide (p1 = p /\ k1 = k)) as [[-> ->]|]; try done.
  - by rewrite <- app_assoc in IH.
  - rewrite Hk1. simpl. by f_equal.
Qed.

(** Round-robin service.  Whatever is enqueued in between, the peer at position [i] of
    the ring of a class is served as soon as [i] more datagrams of that class were
    sent, and receives its oldest datagram; a data peer additionally waits for the
    control ring to drain. *)
Theorem send_queue_round_robin `{Countable K} ops (q : BoundedSendQueue K) evs q' p k i :
  queue_ok q -> active_peers (queue_class p q) !! i = Some k ->
  run_queue ops q = (evs, q') -> sent_count p evs = i ->
  (p = Data -> active_peers (control_class q') = []) ->
  exists b rest, contents p q k = b :: rest /\ fst (pop q') = Some (mkDatagram k p b).
Proof.
  intros Hq Hi Hr Hn Hctl. pose proof (run_queue_ok _ _ _ _ Hq Hr) as Hq'.
  destruct (run_position _ _ _ _ _ _ _ Hq Hi Hr ltac:(lia)) as [Hpos [later Hl]].
  rewrite Hn, Nat.sub_diag in Hpos.
  assert (contents p q k <> []) as Hne
    by (eapply (class_active _ _ _ (queue_classes _ Hq p)), list_elem_of_lookup_2, Hi).
  destruct (contents p q k) as [|b rest]; [done|]. exists b, rest. split; [done|].
  destruct (pop_spec q' Hq') as
    [(Hc & Hd & _)|(p1 & k1 & act & b1 & items & q1 & Hp1 & Ha & Hb1 & -> & _)].
  { by destruct p; simpl in Hpos; rewrite ?Hc, ?Hd in Hpos. }
  assert (p1 = p) as ->.
  { destruct p, p1; try done; simpl in *.
    - by rewrite (Hctl eq_refl) in Ha.
    - by rewrite (Hp1 eq_refl) in Hpos. }
  rewrite Ha in Hpos. simpl in *. apply (inj Some) in Hpos as ->. rewrite Hl in Hb1. by simplify_eq.
Qed.

(** ** Witnesses *)

Definition tiny_limits : SendQueueLimits :=
  mkQueueLimits (mkClassLimits 2 8 3 12) (mkClassLimits 2 8 2 8).

Definition tiny_ops : list (queue_op (K := Z)) :=
  [OpEnqueue 1 (Some [x01]) Data; OpEnqueue 2 (Some [x02; x02]) Data;
   OpEnqueue 1 (Some [x03]) Data; OpEnqueue 1 (Some [x04]) Data].

Definition tiny_queue : BoundedSendQueue Z := snd (run_queue tiny_ops (queue_init tiny_limits)).

Lemma tiny_limits_ok : limits_ok (data_limits tiny_limits) /\ limits_ok (control_limits tiny_limits).
Proof. vm_compute. repeat split; discriminate. Qed.

Lemma tiny_queue_reachable : queue_reachable tiny_limits tiny_queue.
Proof. apply run_reachable, queue_start. Qed.

Lemma tiny_queue_ok : queue_ok tiny_queue.
Proof.
  destruct tiny_limits_ok as [Hd Hc].
  apply (reachable_queue_ok tiny_limits tiny_queue Hd Hc tiny_queue_reachable).
Qed.

Lemma send_queue_bounded_witness :
  fst (enqueue 2 (Some [x05]) Data tiny_queue) = GlobalItemLimit /\
  ~ fits Data 2 [x05] tiny_queue.
Proof.
  split; [vm_compute; reflexivity|].
  destruct (send_queue_bounded tiny_limits tiny_queue (proj1 tiny_limits_ok)
    (proj2 tiny_limits_ok) tiny_queue_reachable) as (_ & _ & H).
  intros Hf. destruct (H 2 [x05] Data) as [[_ Hx] _]. specialize (Hx Hf).
  vm_compute in Hx. discriminate.
Defined.

Lemma send_queue_is_fifo_witness :
  contents Data tiny_queue 1 = [[x01]; [x03]] /\
  contents Data tiny_queue 1 ++ accepted Data 1 (fst (run_queue [OpPop; OpPop; OpPop] tiny_queue)) =
  sent Data 1 (fst (run_queue [OpPop; OpPop; OpPop] tiny_queue)) ++
  contents Data (snd (run_queue [OpPop; OpPop; OpPop] tiny_queue)) 1.
Proof.
  split; [vm_compute; reflexivity|].
  apply (send_queue_is_fifo [OpPop; OpPop; OpPop] tiny_queue _ _ Data 1 tiny_queue_ok).
  apply surjective_pairing.
Defined.

Lemma send_queue_round_robin_witness :
  exists b rest, contents Data tiny_queue 2 = b :: rest /\
    fst (pop (snd (run_queue [OpPop; OpEnqueue 3 (Some []) Data] tiny_queue))) =
      Some (mkDatagram 2 Data b).
Proof.
  apply (send_queue_round_robin [OpPop; OpEnqueue 3 (Some []) Data] tiny_queue
    (fst (run_queue [OpPop; OpEnqueue 3 (Some []) Data] tiny_queue)) _ Data 2 1 tiny_queue_ok).
  - vm_compute. reflexivity.
  - apply surjective_pairing.
  - vm_compute. reflexivity.
  - intros _. vm_compute. reflexivity.
Defined.
