(* ===== verification/Transport.v ===== *)
(** * The UDP transport ([src/transport/transport.cpp])

    The state of a [Transport]: the bounded send queue, the socket it belongs to and the
    drop counters.  A region under [send_mutex_] is one function.  The socket calls
    themselves are the operating system's: what [recvfrom] returns is an argument and what
    is handed to [sendto] a result. *)

From Stdlib Require Import ZArith Lia Bool.
From Stdlib.Strings Require Import Byte.
From stdpp Require Import base numbers gmap option list.
From S2P Require Import Prelude Wire IpAddress Endpoint SendQueue.

#[export] Instance ip_family_countable : Countable IPAddressFamily.
Proof.
  refine (inj_countable' (λ f, match f with
      | IPv4 => inl true | IPv6 => inl false | UnknownFamily raw => inr raw end)
    (λ x, match x with
      | inl true => IPv4 | inl false => IPv6 | inr raw => UnknownFamily raw end) _).
  by intros [].
Defined.

#[export] Instance ip_countable : Countable IPAddress.
Proof.
  refine (inj_countable' (λ a, (family a, ip_bytes a)) (λ x, mkIP (fst x) (snd x)) _).
  by intros [].
Defined.

#[export] Instance endpoint_countable : Countable Endpoint.
Proof.
  refine (inj_countable' (λ e, (address e, port e)) (λ x, mkEndpoint (fst x) (snd x)) _).
  by intros [].
Defined.

(** ** Socket addresses *)

(** [sockaddr_in] with its address and port in network order, [sockaddr_in6] with its
    address bytes, and every other family. *)
Inductive SockAddr :=
  | SockIn (s_addr sin_port : Z)
  | SockIn6 (sin6_addr : list byte) (sin6_port : Z)
  | SockOther (sa_family : Z).

Definition SIZEOF_SOCKADDR_IN : Z := 16.
Definition SIZEOF_SOCKADDR_IN6 : Z := 28.

Definition mapped_prefix : list byte := zeros 10 ++ [xff; xff].

(** The address is [None] for a null pointer; [memcpy] into a [uint32_t] keeps the
    network order. *)
Definition endpoint_from_sockaddr (address : option SockAddr) (len : Z) : option Endpoint :=
  match address with
  | None => None
  | Some (SockIn s_addr sin_port) =>
      if SIZEOF_SOCKADDR_IN <=? len then Some (ipv4_endpoint s_addr sin_port) else None
  | Some (SockIn6 bytes sin6_port) =>
      if SIZEOF_SOCKADDR_IN6 <=? len then
        if bool_decide (take 12 bytes = mapped_prefix)
        then Some (ipv4_endpoint (ntohl (be_combine (take 4 (drop 12 bytes)))) sin6_port)
        else Some (mkEndpoint (from_ipv6 bytes) sin6_port)
      else None
  | Some (SockOther _) => None
  end.

(** The address and its length, or [None] where the code returns zero. *)
Definition endpoint_to_sockaddr (e : Endpoint) (ipv6_socket : bool) : option (SockAddr * Z) :=
  if is_ipv4 e && negb ipv6_socket
  then Some (SockIn (ipv4_network e) (port e), SIZEOF_SOCKADDR_IN)
  else if negb ipv6_socket then None
  else if negb (is_ipv4 e) && negb (is_ipv6 e) then None
  else if is_ipv4 e
  then Some (SockIn6 (mapped_prefix ++ take 4 (ip_bytes (address e))) (port e),
             SIZEOF_SOCKADDR_IN6)
  else Some (SockIn6 (take 16 (ip_bytes (address e))) (port e), SIZEOF_SOCKADDR_IN6).

(** ** The transport *)

Definition IPV4_UDP_MAX_DATAGRAM_SIZE : Z := 65507.

Record TransportQueueMetrics := mkMetrics { data_drops : Z; control_drops : Z }.

Definition record_drop (p : SendPriority) (m : TransportQueueMetrics) : TransportQueueMetrics :=
  match p with
  | Control => mkMetrics (data_drops m) (wrap 64 (control_drops m + 1))
  | Data => mkMetrics (wrap 64 (data_drops m + 1)) (control_drops m)
  end.

Record Transport := mkTransport {
  sock_open : bool;        (** [sock_ != INVALID_SOCKET] *)
  ipv6_socket : bool;
  local_port : Z;
  max_datagram_size : Z;
  send_running : bool;
  recv_running : bool;
  send_queue : BoundedSendQueue Endpoint;
  queue_metrics : TransportQueueMetrics;
  oversize_send_drops : Z;
  oversize_receive_drops : Z;
}.

Definition transport_init : Transport :=
  mkTransport false false 0 IPV4_UDP_MAX_DATAGRAM_SIZE false false
    (queue_init default_queue_limits) (mkMetrics 0 0) 0 0.

Definition set_queue (q : BoundedSendQueue Endpoint) (t : Transport) : Transport :=
  mkTransport (sock_open t) (ipv6_socket t) (local_port t) (max_datagram_size t)
    (send_running t) (recv_running t) q (queue_metrics t) (oversize_send_drops t)
    (oversize_receive_drops t).

Definition set_max_datagram_size (maximum : Z) (t : Transport) : bool * Transport :=
  if (maximum =? 0) || (IPV4_UDP_MAX_DATAGRAM_SIZE <? maximum) then (false, t)
  else (true, mkTransport (sock_open t) (ipv6_socket t) (local_port t) maximum
                (send_running t) (recv_running t) (send_queue t) (queue_metrics t)
                (oversize_send_drops t) (oversize_receive_drops t)).

Definition stop_receive (t : Transport) : Transport :=
  mkTransport (sock_open t) (ipv6_socket t) (local_port t) (max_datagram_size t)
    (send_running t) false (send_queue t) (queue_metrics t) (oversize_send_drops t)
    (oversize_receive_drops t).

Definition transport_close (t : Transport) : Transport :=
  mkTransport false false 0 (max_datagram_size t) false false (clear_queue (send_queue t))
    (queue_metrics t) (oversize_send_drops t) (oversize_receive_drops t).

(** The sockets a [bind] gets from the system: a dual-stack IPv6 one, else an IPv4 one. *)
Definition transport_bind (port : Z) (dual_stack broadcast : bool) (ipv6_ok ipv4_ok : bool)
    (t : Transport) : bool * Transport :=
  let t := if sock_open t then transport_close t else t in
  let ipv6 := dual_stack && negb broadcast && ipv6_ok in
  if negb ipv6 && negb ipv4_ok
  then (false, mkTransport false false 0 (max_datagram_size t) false false
                 (clear_queue (send_queue t)) (mkMetrics 0 0) 0 0)
  else (true, mkTransport true ipv6 port (max_datagram_size t) true (recv_running t)
                (clear_queue (send_queue t)) (mkMetrics 0 0) 0 0).

(** [start_receive] reads the socket and the flag. *)
Definition start_receive (t : Transport) : bool * Transport :=
  if negb (sock_open t) || recv_running t then (false, t)
  else (true, mkTransport (sock_open t) (ipv6_socket t) (local_port t) (max_datagram_size t)
                (send_running t) true (send_queue t) (queue_metrics t)
                (oversize_send_drops t) (oversize_receive_drops t)).

(** [data] is a buffer with its length, never a null pointer. *)
Definition transport_send (data : list byte) (dest : Endpoint) (p : SendPriority)
    (t : Transport) : bool * Transport :=
  if max_datagram_size t <? Z.of_nat (length data)
  then (false, mkTransport (sock_open t) (ipv6_socket t) (local_port t) (max_datagram_size t)
                 (send_running t) (recv_running t) (send_queue t) (queue_metrics t)
                 (wrap 64 (oversize_send_drops t + 1)) (oversize_receive_drops t))
  else if is_ipv6 dest && negb (ipv6_socket t) then (false, t)
  else if negb (sock_open t) || negb (send_running t) then (false, t)
  else
    match enqueue dest (Some data) p (send_queue t) with
    | (Queued, q) => (true, set_queue q t)
    | (_, q) =>
        (false, mkTransport (sock_open t) (ipv6_socket t) (local_port t) (max_datagram_size t)
                  (send_running t) (recv_running t) q (record_drop p (queue_metrics t))
                  (oversize_send_drops t) (oversize_receive_drops t))
    end.

(** One iteration of [send_loop] after the wait: the datagram handed to [sendto]. *)
Definition send_iteration (t : Transport) : option (list byte * SockAddr) * Transport :=
  if negb (send_running t) then (None, t)
  else
    let '(datagram, q) := pop (send_queue t) in
    let t := set_queue q t in
    match datagram with
    | None => (None, t)
    | Some d =>
        match endpoint_to_sockaddr (dg_peer d) (ipv6_socket t) with
        | None => (None, t)
        | Some (addr, _) => (Some (dg_bytes d, addr), t)
        end
    end.

(** What [recvfrom] returns. *)
Inductive RecvOutcome :=
  | RecvTimedOut
  | RecvReset  (** WSAECONNRESET or WSAENETRESET *)
  | RecvTooLong  (** WSAEMSGSIZE *)
  | RecvFailed
  | RecvFrom (data : list byte) (from : SockAddr) (from_len : Z).

(** What [recv_loop] does with it: leave, go on, or call the callback first. *)
Inductive RecvAction := RecvBreak | RecvContinue | RecvDeliver (data : list byte) (sender : Endpoint).

Definition recv_iteration (o : RecvOutcome) (t : Transport) : RecvAction * Transport :=
  match o with
  | RecvTimedOut | RecvReset => (RecvContinue, t)
  | RecvTooLong | RecvFailed => (RecvBreak, t)
  | RecvFrom data from len =>
      if max_datagram_size t <? Z.of_nat (length data)
      then (RecvContinue,
            mkTransport (sock_open t) (ipv6_socket t) (local_port t) (max_datagram_size t)
              (send_running t) (recv_running t) (send_queue t) (queue_metrics t)
              (oversize_send_drops t) (wrap 64 (oversize_receive_drops t + 1)))
      else
        match endpoint_from_sockaddr (Some from) len with
        | None => (RecvContinue, t)
        | Some e => (RecvDeliver data e, t)
        end
  end.

(** The receive loop of [exchange]: [clock i] is read before the [i]-th [recvfrom], and the
    list holds what the calls return. *)
Fixpoint exchange_loop (dest : Endpoint) (deadline : Z) (clock : nat -> Z) (i : nat)
    (outcomes : list RecvOutcome) : option (list byte * Endpoint) :=
  match outcomes with
  | [] => None
  | o :: outcomes =>
      if negb (clock i <? deadline) then None
      else
        match o with
        | RecvTimedOut | RecvFailed => None
        | RecvReset | RecvTooLong => exchange_loop dest deadline clock (S i) outcomes
        | RecvFrom data from len =>
            match endpoint_from_sockaddr (Some from) len with
            | None => exchange_loop dest deadline clock (S i) outcomes
            | Some source =>
                if negb (bool_decide (source = dest))
                then exchange_loop dest deadline clock (S i) outcomes
                else Some (data, source)
            end
        end
  end.

(** [sent] says whether [sendto] took the datagram. *)
Definition exchange (data : list byte) (dest : Endpoint) (timeout_ms : Z) (sent : bool)
    (clock : nat -> Z) (outcomes : list RecvOutcome) (t : Transport)
    : option (list byte * Endpoint) * Transport :=
  if negb (sock_open t) || recv_running t || Nat.eqb (length data) 0 || (timeout_ms <=? 0)
  then (None, t)
  else if max_datagram_size t <? Z.of_nat (length data)
  then (None, mkTransport (sock_open t) (ipv6_socket t) (local_port t) (max_datagram_size t)
                (send_running t) (recv_running t) (send_queue t) (queue_metrics t)
                (wrap 64 (oversize_send_drops t + 1)) (oversize_receive_drops t))
  else
    match endpoint_to_sockaddr dest (ipv6_socket t) with
    | None => (None, t)
    | Some _ =>
        if negb sent then (None, t)
        else (exchange_loop dest (clock 0%nat + ms timeout_ms) clock 1 outcomes, t)
    end.

(** ** Addresses survive the socket *)

(** An endpoint as the program builds them: sixteen bytes, an IPv4 address in the first
    four. *)
Definition endpoint_wf (e : Endpoint) : Prop :=
  length (ip_bytes (address e)) = 16%nat /\
  (is_ipv4 e = true -> drop 4 (ip_bytes (address e)) = zeros 12).

Definition v4_mapped (e : Endpoint) : bool :=
  is_ipv6 e && bool_decide (take 12 (ip_bytes (address e)) = mapped_prefix).

Lemma ipv4_endpoint_bytes (bs : list byte) p :
  length bs = 4%nat ->
  ipv4_endpoint (ntohl (be_combine bs)) p = mkEndpoint (mkIP IPv4 (bs ++ zeros 12)) p.
Proof.
  intros Hl. unfold ipv4_endpoint. rewrite ntohl_involutive.
  2:{ unfold in_width. pose proof (be_combine_range bs). rewrite Hl in *. lia. }
  f_equal. set (v := be_combine bs).
  transitivity (mkIP IPv4 (ip_bytes (from_ipv4 v))); [done|].
  rewrite from_ipv4_bytes. subst v. by rewrite <- Hl, be_split_combine.
Qed.

(** A datagram sent to an endpoint reaches the peer that hears from it: the address that
    [endpoint_to_sockaddr] writes is read back by [endpoint_from_sockaddr] as the same
    endpoint, on sockets of either family; an IPv6 endpoint that is a mapped IPv4 address
    comes back as that IPv4 endpoint.  Only an IPv6 endpoint on an IPv4 socket has no
    address. *)
Theorem sockaddr_round_trip e ipv6 :
  endpoint_wf e -> valid_family (address e) = true ->
  match endpoint_to_sockaddr e ipv6 with
  | None => is_ipv6 e = true /\ ipv6 = false
  | Some (addr, len) =>
      endpoint_from_sockaddr (Some addr) len =
        Some (if v4_mapped e
              then mkEndpoint (mkIP IPv4 (drop 12 (ip_bytes (address e)) ++ zeros 12)) (port e)
              else e)
  end.
Proof.
  destruct e as [[f bs] p]. intros [Hl Hz] Hv.
  unfold endpoint_to_sockaddr, v4_mapped, endpoint_from_sockaddr, is_ipv4, is_ipv6 in *.
  cbn [address family ip_bytes port] in *.
  destruct f as [| |raw]; [| |done].
  - rewrite (bool_decide_eq_true_2 (IPv4 = IPv4)) in * by done.
    rewrite (bool_decide_eq_false_2 (IPv4 = IPv6)) by done.
    specialize (Hz eq_refl). rewrite <- (take_drop 4 bs) in Hl |- *. rewrite Hz in *.
    set (b4 := take 4 bs) in *. assert (length b4 = 4%nat) as H4.
    { rewrite length_app, length_zeros in Hl. lia. } clearbody b4.
    destruct ipv6; cbn [andb negb].
    + rewrite (take_app_length' b4) by done. rewrite Z.leb_refl.
      rewrite (bool_decide_eq_true_2 (take 12 (mapped_prefix ++ b4) = mapped_prefix))
        by (by apply take_app_length').
      rewrite (drop_app_length' mapped_prefix) by done. rewrite (take_ge b4) by lia.
      by rewrite ipv4_endpoint_bytes.
    + rewrite Z.leb_refl. f_equal. etransitivity; [|apply (ipv4_endpoint_bytes b4 p H4)].
      f_equal. unfold ipv4_network, is_ipv4, ipv4_value, ip_at.
      cbn [address family ip_bytes]. rewrite bool_decide_eq_true_2 by done.
      f_equal. rewrite <- (be_combine_4 b4) by done.
      by destruct b4 as [|a [|b [|c [|d b4]]]].
  - rewrite (bool_decide_eq_false_2 (IPv6 = IPv4)) by done.
    rewrite (bool_decide_eq_true_2 (IPv6 = IPv6)) by done.
    destruct ipv6; cbn [andb negb]; [|done]. rewrite (take_ge bs) by lia.
    rewrite Z.leb_refl. destruct (decide (take 12 bs = mapped_prefix)) as [E|E];
      [rewrite !(bool_decide_eq_true_2 _ E)|by rewrite !(bool_decide_eq_false_2 _ E)].
    rewrite (take_ge (drop 12 bs)) by (rewrite length_drop; lia).
    rewrite ipv4_endpoint_bytes by (rewrite length_drop; lia). done.
Qed.
