(* ===== verification/Stun.v ===== *)
(** * The STUN client ([src/stun/stun.cpp])

    The binding request, the reading of a binding response and the discovery of the public
    endpoint over [Transport::exchange].  The theorems: a response that carries an endpoint in
    XOR-MAPPED-ADDRESS form yields that endpoint whatever other attributes it has, and what
    [stun_discover] returns was sent by the resolved server under the drawn transaction id. *)

From Stdlib Require Import ZArith Lia Bool.
From Stdlib.Strings Require Import Byte String.
From stdpp Require Import base numbers option list.
From S2P Require Import Prelude Wire Words Crypto IpAddress Endpoint Text SendQueue Transport.

Definition STUN_MAGIC_COOKIE : Z := 554869826.

(** [transaction_id] is never a null pointer where it is called. *)
Definition create_stun_binding_request (transaction_id : list byte) : list byte :=
  default [] (encode_exact 20
    (write_u16 1 &> write_u16 0 &> write_u32 STUN_MAGIC_COOKIE &> write_bytes transaction_id)).

(** The value of an XOR-MAPPED-ADDRESS attribute. *)
Definition read_mapped (transaction_id value : list byte) (attr_len : Z) : option Endpoint :=
  let '(reserved, r) := read_u8 (wire_reader value) in
  let '(family, r) := read_u8 r in
  let '(xor_port, r) := read_u16 r in
  match reserved, family, xor_port with
  | Some reserved, Some family, Some xor_port =>
      if negb (reserved =? 0) then None
      else if negb (family =? 1) && negb (family =? 2) then None
      else
        let port := ntohs (Z.lxor xor_port (wrap 16 (Z.shiftr STUN_MAGIC_COOKIE 16))) in
        if family =? 1 then
          if negb (attr_len =? 8) then None
          else
            let '(xor_ip, r) := read_u32 r in
            match xor_ip with
            | Some xor_ip =>
                if rd_finished r
                then Some (ipv4_endpoint (ntohl (Z.lxor xor_ip STUN_MAGIC_COOKIE)) port)
                else None
            | None => None
            end
        else if negb (attr_len =? 20) then None
        else
          let '(xor_ip, r) := read_bytes 16 r in
          match xor_ip with
          | Some xor_ip =>
              if negb (rd_finished r) then None
              else
                match encode_exact 16
                        (write_u32 STUN_MAGIC_COOKIE &> write_bytes transaction_id) with
                | Some mask =>
                    Some (mkEndpoint (from_ipv6 (zip_with (λ b m, bxor b (bval m)) xor_ip mask)) port)
                | None => None
                end
          | None => None
          end
  | _, _, _ => None
  end.

(** One iteration of the loop over the attributes, from the endpoint found so far; [None] is
    [return std::nullopt]. *)
Definition read_attribute (transaction_id : list byte) (mapped : option Endpoint) (r : WireReader)
    : option (option Endpoint * WireReader) :=
  let '(attr_type, r) := read_u16 r in
  let '(attr_len, r) := read_u16 r in
  match attr_type, attr_len with
  | Some attr_type, Some attr_len =>
      let '(value, r) := read_bytes (Z.to_nat attr_len) r in
      match value with
      | None => None
      | Some value =>
          let padded_len := Z.ldiff (attr_len + 3) 3 in
          let '(padding, r) := read_bytes (Z.to_nat (padded_len - attr_len)) r in
          match padding with
          | None => None
          | Some _ =>
              if negb (attr_type =? 32) then Some (mapped, r)
              else if bool_decide (is_Some mapped) then None
              else match read_mapped transaction_id value attr_len with
                   | Some e => Some (Some e, r)
                   | None => None
                   end
          end
      end
  | _, _ => None
  end.

(** [while (!reader.finished())]; an iteration that goes on has read four bytes. *)
Fixpoint read_attributes (fuel : nat) (transaction_id : list byte) (mapped : option Endpoint)
    (r : WireReader) : option Endpoint :=
  match fuel with
  | O => None
  | S fuel =>
      if rd_finished r then mapped
      else match read_attribute transaction_id mapped r with
           | Some (mapped, r) => read_attributes fuel transaction_id mapped r
           | None => None
           end
  end.

(** [expected_tx_id] is [None] for a null pointer. *)
Definition parse_stun_binding_response (data : list byte) (expected_tx_id : option (list byte))
    : option Endpoint :=
  if Nat.ltb (length data) 20 then None
  else
    let '(msg_type, r) := read_u16 (wire_reader data) in
    let '(msg_len, r) := read_u16 r in
    let '(cookie, r) := read_u32 r in
    let '(transaction_id, r) := read_bytes 12 r in
    match msg_type, msg_len, cookie, transaction_id with
    | Some msg_type, Some msg_len, Some cookie, Some transaction_id =>
        if (negb (msg_type =? 257) && negb (msg_type =? 273)) ||
           negb (cookie =? STUN_MAGIC_COOKIE) || negb (msg_len mod 4 =? 0) ||
           negb (Z.of_nat (length data) =? 20 + msg_len) then None
        else if match expected_tx_id with
                | Some expected => negb (bool_decide (transaction_id = take 12 expected))
                | None => false
                end then None
        else read_attributes (S (length data)) transaction_id None r
    | _, _, _, _ => None
    end.

Section discover.
Context `{RandomSource}.

(** The first resolved address the socket can send to. *)
Fixpoint reachable_server (ipv6_enabled : bool) (res : list (SockAddr * Z)) : option Endpoint :=
  match res with
  | [] => None
  | (addr, len) :: res =>
      match endpoint_from_sockaddr (Some addr) len with
      | Some candidate =>
          if is_ipv4 candidate || ipv6_enabled then Some candidate
          else reachable_server ipv6_enabled res
      | None => reachable_server ipv6_enabled res
      end
  end.

(** [resolve] is [getaddrinfo]; [sent], [clock] and [outcomes] are those of [exchange]. *)
Definition stun_discover (resolve : list byte -> Z -> option IPAddressFamily -> list (SockAddr * Z))
    (sent : bool) (clock : nat -> Z) (outcomes : list RecvOutcome)
    (stun_host : list byte) (stun_port timeout_ms : Z) (family : option IPAddressFamily)
    (g : rng) (t : Transport) : option Endpoint * rng * Transport :=
  if negb (sock_open t) || Nat.eqb (length stun_host) 0 || (stun_port =? 0) || (timeout_ms <=? 0)
  then (None, g, t)
  else
    match resolve stun_host stun_port family with
    | [] => (None, g, t)
    | res =>
        match rng_fill 12 g with
        | (None, g) => (None, g, t)
        | (Some tx_id, g) =>
            let req := create_stun_binding_request tx_id in
            match reachable_server (ipv6_socket t) res with
            | None => (None, g, t)
            | Some server =>
                match exchange req server timeout_ms sent clock outcomes t with
                | (None, t) => (None, g, t)
                | (Some (bytes, _), t) =>
                    (parse_stun_binding_response bytes (Some tx_id), g, t)
                end
            end
        end
    end.
End discover.

(** ** Binding responses as RFC 5389 describes them *)

Record StunAttribute := mkAttribute { at_type : Z; at_value : list byte; at_padding : list byte }.

(** The padding completes the value to a multiple of four bytes; its bytes are ignored. *)
Definition attribute_wf (a : StunAttribute) : Prop :=
  u16 (at_type a) /\ u16 (Z.of_nat (length (at_value a))) /\
  Z.of_nat (length (at_padding a)) = (- Z.of_nat (length (at_value a))) mod 4.

Definition attribute_bytes (a : StunAttribute) : list byte :=
  be_split 2 (at_type a) ++ be_split 2 (Z.of_nat (length (at_value a))) ++ at_value a ++ at_padding a.

Definition stun_response (kind : Z) (tx : list byte) (attributes : list StunAttribute) : list byte :=
  let body := flat_map attribute_bytes attributes in
  be_split 2 kind ++ be_split 2 (Z.of_nat (length body)) ++ be_split 4 STUN_MAGIC_COOKIE ++ tx ++ body.

(** The XOR-MAPPED-ADDRESS value: the port and the address under the mask of the cookie and
    the transaction id. *)
Definition xor_mapped (tx : list byte) (e : Endpoint) : list byte :=
  be_split 1 0 ++ be_split 1 (if is_ipv4 e then 1 else 2) ++
  be_split 2 (Z.lxor (ntohs (port e)) 8466) ++
  if is_ipv4 e then be_split 4 (Z.lxor (ntohl (ipv4_network e)) STUN_MAGIC_COOKIE)
  else zip_with (λ b m, bxor b (bval m)) (ip_bytes (address e)) (be_split 4 STUN_MAGIC_COOKIE ++ tx).

Definition other_attribute (a : StunAttribute) : Prop := attribute_wf a /\ at_type a <> 32.

(** A response to [tx] that says [e]: one XOR-MAPPED-ADDRESS among other attributes. *)
Definition says (tx : list byte) (e : Endpoint) (data : list byte) : Prop :=
  exists kind before a behind,
    (kind = 257 \/ kind = 273) /\ data = stun_response kind tx (before ++ a :: behind) /\
    u16 (Z.of_nat (length (flat_map attribute_bytes (before ++ a :: behind)))) /\
    Forall other_attribute before /\ Forall other_attribute behind /\ attribute_wf a /\
    at_type a = 32 /\ at_value a = xor_mapped tx e /\ host_address (address e) /\ u16 (port e).

(** ** Masks *)

Lemma lxor_cancel x m : Z.lxor (Z.lxor x m) m = x.
Proof. by rewrite Z.lxor_assoc, Z.lxor_nilpotent, Z.lxor_0_r. Qed.

Lemma bxor_cancel (b : byte) (m : byte) : bxor (bxor b (bval m)) (bval m) = b.
Proof.
  unfold bxor. rewrite bval_b8, wrap_small.
  - by rewrite lxor_cancel, b8_bval.
  - apply lxor_range; [lia|apply bval_range..].
Qed.

Lemma unmask (bs mask : list byte) : length bs = length mask ->
  zip_with (λ b m, bxor b (bval m)) (zip_with (λ b m, bxor b (bval m)) bs mask) mask = bs.
Proof.
  revert mask. induction bs as [|b bs IH]; intros [|m mask]; intros Hl; try done.
  cbn [zip_with]. rewrite bxor_cancel, IH by (by injection Hl). done.
Qed.

(** ** Reading one attribute *)

Lemma padding_length n : Z.ldiff (n + 3) 3 - n = (- n) mod 4.
Proof.
  change 3 with (Z.ones 2) at 2. rewrite Z.ldiff_ones_r by lia.
  rewrite Z.shiftl_mul_pow2, Z.shiftr_div_pow2 by lia. change (2 ^ 2) with 4.
  Z.div_mod_to_equations. lia.
Qed.

Lemma read_attribute_ok tx m a pre post : attribute_wf a ->
  read_attribute tx m (rd_at pre (attribute_bytes a ++ post)) =
  let r := rd_at (pre ++ attribute_bytes a) post in
  if negb (at_type a =? 32) then Some (m, r)
  else if bool_decide (is_Some m) then None
  else match read_mapped tx (at_value a) (Z.of_nat (length (at_value a))) with
       | Some e => Some (Some e, r)
       | None => None
       end.
Proof.
  destruct a as [ty v pad]. intros (H1 & H2 & H3). unfold read_attribute, attribute_bytes.
  cbn [at_type at_value at_padding] in *. rewrite <- !app_assoc.
  do 2 rewrite (reads_ok (f := read_u16)) by done. rewrite read_bytes_ok by lia.
  rewrite padding_length. rewrite (read_bytes_ok _ pad) by lia. by rewrite <- !app_assoc.
Qed.

Lemma read_attribute_inv tx m pre post res :
  read_attribute tx m (rd_at pre post) = Some res ->
  exists a post', attribute_wf a /\ post = attribute_bytes a ++ post'.
Proof.
  intros Hd. unfold read_attribute in Hd. do 2 rd_inv_step Hd.
  rd_inv_step Hd. rd_inv_step Hd. rewrite padding_length in *.
  exists (mkAttribute v bs bs0). eexists. unfold attribute_wf, attribute_bytes, in_width in *.
  cbn [at_type at_value at_padding]. split; [|rewrite <- !app_assoc, W1, Z2Nat.id by lia; done].
  rewrite W1, W2, !Z2Nat.id by (lia || apply Z.mod_pos_bound; lia). done.
Qed.

Lemma host_ipv4 e : is_ipv4 e = true -> host_address (address e) ->
  exists v, u32 v /\ e = mkEndpoint (from_ipv4 v) (port e).
Proof.
  destruct e as [[f bs] p]. unfold is_ipv4. cbn [address family port]. intros ->%bool_decide_eq_true.
  intros [(_ & q & Hq & Hb)|[? _]]; [|done]. cbn [ip_bytes] in Hb. subst bs. exists (be_combine q). split.
  - unfold in_width. pose proof (be_combine_range q). rewrite Hq in *. lia.
  - f_equal. unfold from_ipv4. f_equal. fold (from_ipv4 (be_combine q)).
    change (q ++ zeros 12 = ip_bytes (from_ipv4 (be_combine q))).
    by rewrite from_ipv4_bytes, <- Hq, be_split_combine.
Qed.

Lemma from_ipv4_host v : host_address (from_ipv4 v).
Proof.
  left. split; [done|]. exists (be_split 4 v). by rewrite from_ipv4_bytes, length_be_split.
Qed.

Lemma mask_bytes tx : length tx = 12%nat ->
  encode_exact 16 (write_u32 STUN_MAGIC_COOKIE &> write_bytes tx) =
  Some (be_split 4 STUN_MAGIC_COOKIE ++ tx).
Proof.
  intros Hl. erewrite encode_exact_emits by solve_emits.
  by rewrite decide_True by (by rewrite length_app, length_be_split, Hl).
Qed.

Lemma cookie_u32 : u32 STUN_MAGIC_COOKIE. Proof. by vm_compute. Qed.
Lemma cookie_high : wrap 16 (Z.shiftr STUN_MAGIC_COOKIE 16) = 8466. Proof. done. Qed.

Lemma read_mapped_ok tx e :
  length tx = 12%nat -> host_address (address e) -> u16 (port e) ->
  read_mapped tx (xor_mapped tx e) (Z.of_nat (length (xor_mapped tx e))) = Some e.
Proof.
  intros Htx Ha Hp. assert (u16 (Z.lxor (ntohs (port e)) 8466)) as Hx
    by (apply lxor_range; [lia|apply ntohs_range|by vm_compute]).
  unfold read_mapped. rewrite wire_reader_at, cookie_high. unfold xor_mapped.
  do 2 rewrite (reads_ok (f := read_u8)) by (unfold in_width; repeat case_match; lia).
  rewrite (reads_ok (f := read_u16)) by done. cbv zeta.
  rewrite lxor_cancel, ntohs_involutive by done.
  rewrite !length_app, !length_be_split. destruct (is_ipv4 e) eqn:Hf.
  - destruct (host_ipv4 e Hf Ha) as (v & Hv & He). rewrite He. cbn [port].
    rewrite network_ipv4_endpoint by done.
    assert (u32 (Z.lxor v STUN_MAGIC_COOKIE)) as Hm
      by (apply lxor_range; [lia|done|apply cookie_u32]).
    rewrite length_be_split. cbn [Z.eqb negb andb Pos.eqb Nat.add Z.of_nat Pos.of_succ_nat Pos.succ].
    rewrite <- (app_nil_r (be_split 4 _)), (reads_ok (f := read_u32)) by done.
    rewrite rd_finished_at, bool_decide_eq_true_2, lxor_cancel by done.
    unfold ipv4_endpoint. by rewrite ntohl_involutive.
  - destruct Ha as [(Hf' & _)|[Hf' Hl]].
    { unfold is_ipv4 in Hf. by rewrite Hf', bool_decide_eq_true_2 in Hf. }
    set (masked := zip_with _ _ _).
    assert (length masked = 16%nat) as Hml
      by (unfold masked; rewrite length_zip_with, length_app, length_be_split; lia).
    rewrite Hml. cbn [Z.eqb negb andb Pos.eqb Nat.add Z.of_nat Pos.of_succ_nat Pos.succ].
    rewrite <- (app_nil_r masked), read_bytes_ok by done.
    rewrite rd_finished_at, bool_decide_eq_true_2, mask_bytes by done. cbn [negb].
    unfold masked. rewrite unmask by (rewrite length_app, length_be_split; lia).
    destruct e as [[f bs] p]. cbn [address family ip_bytes port] in *. by subst f.
Qed.

Lemma read_mapped_inv tx value e :
  length tx = 12%nat -> read_mapped tx value (Z.of_nat (length value)) = Some e ->
  value = xor_mapped tx e /\ host_address (address e) /\ u16 (port e).
Proof.
  intros Htx Hd. unfold read_mapped in Hd. rewrite wire_reader_at, cookie_high in Hd.
  do 2 rd_inv_step Hd. rd_inv_step Hd. cbv zeta in Hd.
  destruct (Z.eqb_spec v 0) as [->|]; [|done]. cbn [negb] in Hd.
  destruct (_ && _) eqn:Hfam; [done|]. pose proof (ntohs_range (Z.lxor v1 8466)) as Hp.
  assert (u16 (Z.lxor v1 8466)) as Hx by (apply lxor_range; [lia|done|by vm_compute]).
  destruct (Z.eqb_spec v0 1) as [->|Hn1].
  - destruct (negb (_ =? 8)); [done|]. rd_inv_step Hd. rewrite rd_finished_at in Hd.
    case_bool_decide; [|done]. subst. injection Hd as <-.
    assert (u32 (Z.lxor v STUN_MAGIC_COOKIE)) as Hm
      by (apply lxor_range; [lia|done|apply cookie_u32]).
    unfold ipv4_endpoint. rewrite ntohl_involutive by done.
    split_and!; [|apply from_ipv4_host|done]. unfold xor_mapped.
    change (is_ipv4 _) with true. cbv iota. rewrite network_ipv4_endpoint by done. cbn [port].
    by rewrite ntohs_involutive, !lxor_cancel, app_nil_r by done.
  - apply andb_false_iff in Hfam as [?|Hv0]; [done|]. apply negb_false_iff, Z.eqb_eq in Hv0 as ->.
    destruct (negb (_ =? 20)); [done|]. rd_inv_step Hd. rewrite rd_finished_at in Hd.
    case_bool_decide; [|done]. cbn [negb] in Hd. subst. rewrite mask_bytes in Hd by done.
    apply (inj Some) in Hd as <-.
    assert (length bs = length (be_split 4 STUN_MAGIC_COOKIE ++ tx)) as Hl
      by (rewrite length_app, length_be_split; lia).
    split_and!; [|right; split; [done|]|done].
    + unfold xor_mapped. change (is_ipv4 _) with false. cbv iota. cbn [port address ip_bytes from_ipv6].
      by rewrite unmask, ntohs_involutive, lxor_cancel, app_nil_r by done.
    + cbn [address ip_bytes from_ipv6]. rewrite length_zip_with, <- Hl. lia.
Qed.

(** ** The loop *)

Lemma attribute_length a : attribute_wf a ->
  (4 <= length (attribute_bytes a))%nat /\ Z.of_nat (length (attribute_bytes a)) mod 4 = 0.
Proof.
  intros (_ & _ & Hp). unfold attribute_bytes. rewrite !length_app, !length_be_split, !Nat2Z.inj_add, Hp.
  split; [lia|]. Z.div_mod_to_equations. lia.
Qed.

Lemma body_length attrs : Forall attribute_wf attrs ->
  (length attrs <= length (flat_map attribute_bytes attrs))%nat /\
  Z.of_nat (length (flat_map attribute_bytes attrs)) mod 4 = 0.
Proof.
  induction 1 as [|a attrs Ha _ [IH1 IH2]]; [done|]. cbn [flat_map length].
  destruct (attribute_length a Ha) as [H1 H2]. rewrite length_app, Nat2Z.inj_add.
  split; [lia|]. rewrite Z.add_mod, H2, IH2 by lia. done.
Qed.

Lemma other_wf attrs : Forall other_attribute attrs -> Forall attribute_wf attrs.
Proof. intros Ho. apply (Forall_impl _ _ _ Ho). by intros a []. Qed.

Lemma skip_others tx m attrs : forall fuel pre post,
  Forall other_attribute attrs ->
  read_attributes (length attrs + fuel) tx m (rd_at pre (flat_map attribute_bytes attrs ++ post)) =
  read_attributes fuel tx m (rd_at (pre ++ flat_map attribute_bytes attrs) post).
Proof.
  induction attrs as [|a attrs IH]; intros fuel pre post Ho; cbn [flat_map length Nat.add app].
  { by rewrite app_nil_r. }
  apply Forall_cons_1 in Ho as [[Ha Hn] Ho]. destruct (attribute_length a Ha) as [H4 _].
  cbn [read_attributes]. rewrite rd_finished_at, bool_decide_eq_false_2.
  2:{ intros E. apply (f_equal length) in E. rewrite !length_app in E. cbn in E. lia. }
  rewrite <- app_assoc, read_attribute_ok by done. cbv zeta.
  rewrite (proj2 (Z.eqb_neq _ _)) by done. cbn [negb]. rewrite IH by done. by rewrite app_assoc.
Qed.

Lemma read_attributes_mapped tx e before a behind pre n :
  length tx = 12%nat -> Forall other_attribute before -> Forall other_attribute behind ->
  attribute_wf a -> at_type a = 32 -> at_value a = xor_mapped tx e ->
  host_address (address e) -> u16 (port e) ->
  (length before + length behind + 2 <= n)%nat ->
  read_attributes n tx None (rd_at pre (flat_map attribute_bytes (before ++ a :: behind))) = Some e.
Proof.
  intros Htx Hb Hbe Ha Ht Hv Hh Hp Hn. rewrite flat_map_app. cbn [flat_map].
  replace n with (length before + S (length behind + S (n - length before - length behind - 2)))%nat by lia.
  rewrite skip_others by done. cbn [read_attributes]. destruct (attribute_length a Ha) as [H4 _].
  rewrite rd_finished_at, bool_decide_eq_false_2.
  2:{ intros E. apply (f_equal length) in E. rewrite !length_app in E. cbn in E. lia. }
  rewrite read_attribute_ok by done. cbv zeta. rewrite Ht, Hv, Z.eqb_refl. cbn [negb].
  rewrite bool_decide_eq_false_2 by (by intros []). rewrite read_mapped_ok by done.
  rewrite <- (app_nil_r (flat_map _ behind)), skip_others by done. cbn [read_attributes].
  by rewrite rd_finished_at, bool_decide_eq_true_2.
Qed.

Lemma read_attributes_inv tx n : forall m pre post e,
  length tx = 12%nat -> read_attributes n tx m (rd_at pre post) = Some e ->
  match m with
  | Some found => found = e /\ exists behind, Forall other_attribute behind /\
      post = flat_map attribute_bytes behind
  | None => exists before a behind,
      Forall other_attribute before /\ Forall other_attribute behind /\
      post = flat_map attribute_bytes (before ++ a :: behind) /\ attribute_wf a /\
      at_type a = 32 /\ at_value a = xor_mapped tx e /\ host_address (address e) /\ u16 (port e)
  end.
Proof.
  induction n as [|n IH]; intros m pre post e Htx; [done|]. cbn [read_attributes].
  rewrite rd_finished_at. case_bool_decide as Hpost.
  { intros ->. split; [done|]. exists []. split; [constructor|done]. }
  destruct (read_attribute _ _ _) as [[m' r]|] eqn:E; [|done].
  destruct (read_attribute_inv _ _ _ _ _ E) as (a & post' & Ha & ->).
  rewrite read_attribute_ok in E by done. cbv zeta in E.
  destruct (Z.eqb_spec (at_type a) 32) as [Ht|Ht]; cbn [negb] in E.
  - destruct m as [found|]; [by rewrite bool_decide_eq_true_2 in E by done|].
    rewrite bool_decide_eq_false_2 in E by (by intros []).
    destruct (read_mapped _ _ _) as [e'|] eqn:Em; [|done]. apply (inj Some), pair_eq in E as [<- <-].
    intros Hr. apply IH in Hr as [-> (behind & Hb & ->)]; [|done].
    apply read_mapped_inv in Em as (Hv & Hh & Hp); [|done].
    exists [], a, behind. by split_and!.
  - apply (inj Some), pair_eq in E as [<- <-]. intros Hr. apply IH in Hr; [|done].
    destruct m as [found|].
    + destruct Hr as [-> (behind & Hb & ->)]. split; [done|]. exists (a :: behind).
      split; [by constructor|done].
    + destruct Hr as (before & b & behind & Hbe & Hrest & -> & Hr). exists (a :: before), b, behind.
      split_and!; [by constructor|done|done|apply Hr..].
Qed.

Lemma parse_says tx data e : length tx = 12%nat ->
  parse_stun_binding_response data (Some tx) = Some e <-> says tx e data.
Proof.
  intros Htx. unfold parse_stun_binding_response. rewrite wire_reader_at. split.
  - destruct (_ <? _)%nat; [done|]. intros Hd. do 4 rd_inv_step Hd.
    destruct (_ || _) eqn:Hg; [done|].
    rewrite !orb_false_iff, andb_false_iff, !negb_false_iff, !Z.eqb_eq in Hg.
    destruct Hg as [[[Hk ->] _] Hlen]. rewrite (take_ge tx) in Hd by lia.
    case_bool_decide as Ex; [|done]. subst bs. cbn [negb] in Hd.
    apply read_attributes_inv in Hd as (before & a & behind & Hb & Hbe & -> & Ha & Ht & Hv & Hh & Hp); [|done].
    exists v, before, a, behind. rewrite !length_app, !length_be_split, Htx in Hlen.
    assert (v0 = Z.of_nat (length (flat_map attribute_bytes (before ++ a :: behind)))) as -> by lia.
    by split_and!.
  - intros (kind & before & a & behind & Hk & -> & Hl & Hb & Hbe & Ha & Ht & Hv & Hh & Hp).
    assert (Forall attribute_wf (before ++ a :: behind)) as Hwf.
    { apply Forall_app. split; [by apply other_wf|]. constructor; [done|by apply other_wf]. }
    destruct (body_length _ Hwf) as [Hbl Hmod]. unfold stun_response. cbv zeta.
    set (body := flat_map attribute_bytes (before ++ a :: behind)) in *.
    rewrite !length_app, !length_be_split, Htx. rewrite (proj2 (Nat.ltb_ge _ _)) by lia.
    do 2 rewrite (reads_ok (f := read_u16)) by (done || (unfold in_width; lia)).
    rewrite (reads_ok (f := read_u32)) by apply cookie_u32. rewrite read_bytes_ok by done.
    rewrite Z.eqb_refl, Hmod, (take_ge tx), bool_decide_eq_true_2 by (done || lia).
    replace (Z.of_nat _ =? _) with true by (symmetry; apply Z.eqb_eq; lia).
    replace (negb (kind =? 257) && negb (kind =? 273)) with false
      by (destruct Hk as [-> | ->]; done).
    cbn [negb orb Z.eqb]. apply read_attributes_mapped; try done.
    rewrite length_app in Hbl. cbn [length] in Hbl. lia.
Qed.

(** ** Over the socket *)

Lemma exchange_loop_source dest deadline clock outcomes : forall i data source,
  exchange_loop dest deadline clock i outcomes = Some (data, source) ->
  exists from len, RecvFrom data from len ∈ outcomes /\
    endpoint_from_sockaddr (Some from) len = Some dest.
Proof.
  induction outcomes as [|o outcomes IH]; intros i data source; cbn [exchange_loop]; [done|].
  destruct (negb _); [done|].
  assert (exchange_loop dest deadline clock (S i) outcomes = Some (data, source) ->
    exists from len, RecvFrom data from len ∈ o :: outcomes /\
      endpoint_from_sockaddr (Some from) len = Some dest) as Hrec.
  { intros (from & len & Hin & Hs)%IH. exists from, len. split; [by right|done]. }
  destruct o as [| | | |d from len]; try done.
  destruct (endpoint_from_sockaddr (Some from) len) as [s|] eqn:Es; [|done].
  destruct (decide (s = dest)) as [->|Hne].
  - rewrite bool_decide_eq_true_2 by done. intros [= -> ->]. exists from, len. split; [by left|done].
  - by rewrite bool_decide_eq_false_2 by done.
Qed.

(** Datagrams that do not end the wait for [dest]. *)
Definition passed_over (dest : Endpoint) (o : RecvOutcome) : Prop :=
  match o with
  | RecvReset | RecvTooLong => True
  | RecvFrom _ from len => endpoint_from_sockaddr (Some from) len <> Some dest
  | RecvTimedOut | RecvFailed => False
  end.

Lemma exchange_loop_waits dest deadline clock noise : forall i data from len rest,
  Forall (passed_over dest) noise -> endpoint_from_sockaddr (Some from) len = Some dest ->
  (forall k, (i <= k <= i + length noise)%nat -> clock k < deadline) ->
  exchange_loop dest deadline clock i (noise ++ RecvFrom data from len :: rest) = Some (data, dest).
Proof.
  induction noise as [|o noise IH]; intros i data from len rest Hn Hs Hc; cbn [app exchange_loop];
    rewrite (proj2 (Z.ltb_lt _ _)) by (apply Hc; cbn [length]; lia); cbn [negb].
  { by rewrite Hs, bool_decide_eq_true_2. }
  apply Forall_cons_1 in Hn as [Ho Hn].
  assert (exchange_loop dest deadline clock (S i) (noise ++ RecvFrom data from len :: rest) =
    Some (data, dest)) as Hrec by (apply IH; [done|done|]; intros k Hk; apply Hc; cbn [length]; lia).
  destruct o as [| | | |d f l]; try done. cbn [passed_over] in Ho.
  destruct (endpoint_from_sockaddr (Some f) l) as [s|]; [|done].
  rewrite bool_decide_eq_false_2; [done|]. congruence.
Qed.

Lemma request_bytes tx : length tx = 12%nat ->
  create_stun_binding_request tx =
  be_split 2 1 ++ be_split 2 0 ++ be_split 4 STUN_MAGIC_COOKIE ++ tx.
Proof.
  intros Hl. unfold create_stun_binding_request. erewrite encode_exact_emits by solve_emits.
  by rewrite decide_True by (by rewrite !length_app, !length_be_split, Hl).
Qed.

(** ** Properties *)

(** C28: Exactly the well-formed responses are read.  With a transaction id of twelve bytes,
    [parse_stun_binding_response] returns [e] if and only if the datagram is a binding
    response under that id whose attributes fill it and are padded to four bytes, one of them
    and only one is an XOR-MAPPED-ADDRESS, and that one is the masked form of [e]. *)
Theorem stun_response_spec tx data e :
  length tx = 12%nat ->
  parse_stun_binding_response data (Some tx) = Some e <-> says tx e data.
Proof. apply parse_says. Qed.

(** The discovered endpoint is what the server said.  [stun_discover] returns an endpoint
    only if some datagram it received came from the first resolved address the socket can
    reach and says that endpoint under the transaction id drawn for this request.  And when
    that server answers before the deadline, after any number of resets, oversized datagrams
    and datagrams from elsewhere, the endpoint it says is returned. *)
Theorem stun_discover_spec `{RandomSource} resolve sent clock outcomes host p timeout fam g t tx g' server :
  rng_fill 12 g = (Some tx, g') ->
  reachable_server (ipv6_socket t) (resolve host p fam) = Some server ->
  (forall e g'' t', stun_discover resolve sent clock outcomes host p timeout fam g t = (Some e, g'', t') ->
     exists data from len, RecvFrom data from len ∈ outcomes /\
       endpoint_from_sockaddr (Some from) len = Some server /\ says tx e data) /\
  (forall noise data from len rest e,
     sock_open t = true -> recv_running t = false -> host <> [] -> p <> 0 -> 0 < timeout ->
     20 <= max_datagram_size t -> is_Some (endpoint_to_sockaddr server (ipv6_socket t)) ->
     sent = true -> outcomes = noise ++ RecvFrom data from len :: rest ->
     Forall (passed_over server) noise -> endpoint_from_sockaddr (Some from) len = Some server ->
     (forall k, (1 <= k <= 1 + length noise)%nat -> clock k < clock 0%nat + ms timeout) ->
     says tx e data ->
     stun_discover resolve sent clock outcomes host p timeout fam g t = (Some e, g', t)).
Proof.
  intros Hr Hs. pose proof (rng_fill_length _ _ _ _ Hr) as Htx. unfold stun_discover. split.
  - intros e g'' t'. destruct (_ || _) in |- *; [done|].
    destruct (resolve host p fam) as [|a res]; [done|]. rewrite Hr, Hs. unfold exchange.
    destruct (_ || _) in |- *; [done|]. destruct (_ <? _); [done|].
    destruct (endpoint_to_sockaddr _ _); [|done]. destruct (negb sent); [done|].
    destruct (exchange_loop _ _ _ _ _) as [[data source]|] eqn:E; [|done].
    intros [= Hp _ _]. apply exchange_loop_source in E as (from & len & Hin & Hf).
    exists data, from, len. split_and!; [done|done|]. by apply parse_says.
  - intros noise data from len rest e Ho Hi Hh Hp Ht Hm [addr Ha] -> -> Hn Hf Hc Hsay.
    rewrite Ho. rewrite (proj2 (Nat.eqb_neq (length host) 0)) by (by destruct host).
    rewrite (proj2 (Z.eqb_neq p 0)), (proj2 (Z.leb_gt _ _)) by done. cbn [negb orb].
    destruct (resolve host p fam) as [|a res]; [done|]. rewrite Hr, Hs. unfold exchange.
    rewrite Ho, Hi, request_bytes, Ha by done. rewrite !length_app, !length_be_split, Htx.
    rewrite (proj2 (Z.leb_gt _ _)), (proj2 (Z.ltb_ge _ _)) by lia. cbn [negb orb Nat.eqb Nat.add].
    rewrite exchange_loop_waits by done. by rewrite (proj2 (parse_says _ _ _ Htx) Hsay).
Qed.

(** ** Concrete instances *)

Section stun_witness.
#[local] Existing Instance toy_random.

Definition stun_tx : list byte := replicate 12 x09.
Definition stun_mapped : Endpoint := from_parts 203 0 113 9 40000.
Definition stun_server : SockAddr := SockIn (ntohl 3221225985) (ntohs 3478).
Definition software : StunAttribute := mkAttribute 32802 [x61; x62; x63] [x00].
Definition mapped_attribute : StunAttribute := mkAttribute 32 (xor_mapped stun_tx stun_mapped) [].
Definition stun_answer : list byte := stun_response 257 stun_tx [software; mapped_attribute].

Lemma stun_answer_says : says stun_tx stun_mapped stun_answer.
Proof.
  exists 257, [software], mapped_attribute, []. split_and!; try done; [by left| |].
  - apply Forall_cons_2; [|apply Forall_nil_2]. split; [by vm_compute|done].
  - left. split; [done|]. exists [xcb; x00; x71; x09]. by split.
Qed.

Lemma stun_response_spec_witness :
  parse_stun_binding_response stun_answer (Some stun_tx) = Some stun_mapped /\
  ~ says stun_tx stun_mapped (stun_response 257 stun_tx [mapped_attribute; mapped_attribute]).
Proof.
  assert (length stun_tx = 12%nat) as Hl by reflexivity. split.
  - apply (stun_response_spec stun_tx _ _ Hl), stun_answer_says.
  - intros Hs. apply (stun_response_spec stun_tx _ _ Hl) in Hs. by vm_compute in Hs.
Defined.

Definition stun_transport : Transport := snd (transport_bind 51820 false false false true transport_init).
Definition stun_resolve (_ : list byte) (_ : Z) (_ : option IPAddressFamily) : list (SockAddr * Z) :=
  [(stun_server, 16)].
Definition stun_noise : list RecvOutcome :=
  [RecvReset; RecvFrom [x01] (SockIn (ntohl 167772161) (ntohs 3478)) 16].

Lemma stun_discover_spec_witness :
  stun_discover stun_resolve true (λ k, Z.of_nat k)
    (stun_noise ++ [RecvFrom stun_answer stun_server 16]) (lit "stun") 3478 2000 (Some IPv4) 9
    stun_transport = (Some stun_mapped, 10, stun_transport).
Proof.
  destruct (@stun_discover_spec toy_random stun_resolve true (λ k, Z.of_nat k)
    (stun_noise ++ [RecvFrom stun_answer stun_server 16]) (lit "stun") 3478 2000 (Some IPv4) 9
    stun_transport stun_tx 10 (ipv4_endpoint (ntohl 3221225985) (ntohs 3478)) eq_refl eq_refl)
    as [_ Hfinds].
  apply (Hfinds stun_noise stun_answer stun_server 16 []); try reflexivity; try lia; try done.
  - apply Forall_cons_2; [done|]. apply Forall_cons_2; [by vm_compute|apply Forall_nil_2].
  - intros k Hk. cbn in Hk. unfold ms. lia.
  - apply stun_answer_says.
Defined.
End stun_witness.
