(* ===== verification/Peer.v ===== *)
(** * The peer manager

    [src/peer/peer.cpp]: the table of known peers, the binding of a node to its public
    key, trust, liveness and the endpoints learned for it.  Every public operation
    holds the mutex and is one function; the clock it reads is an argument. *)

From Stdlib Require Import ZArith Lia Bool.
From Stdlib.Strings Require Import Byte.
From stdpp Require Import base numbers gmap sorting option list.
From S2P Require Import Prelude Crypto IpAddress Endpoint NoiseIk Session.

Inductive PeerState := StateUnknown | Discovering | Connecting | Established | Dead.
Inductive PeerPath := PathUnknown | PathDirect | HolePunched.

#[export] Instance peer_state_eq_dec : EqDecision PeerState.
Proof. solve_decision. Defined.
#[export] Instance peer_path_eq_dec : EqDecision PeerPath.
Proof. solve_decision. Defined.

Inductive PeerUpsertResult :=
  Inserted | Updated | IdentityBound | IdentityConflict | CapacityRejected.

#[export] Instance upsert_result_eq_dec : EqDecision PeerUpsertResult.
Proof. solve_decision. Defined.

Definition PEER_MANAGER_MAX_PEERS : Z := 256.

Record Peer := mkPeer {
  node_id : NodeId;
  public_key : Key;
  endpoint : option Endpoint;
  endpoint_candidates : list EndpointCandidate;
  state : PeerState;
  path : PeerPath;
  created_at : Z;
  last_seen : Z;
  last_keepalive : Z;
  connected_since : Z;
  connect_attempts : Z;
  trusted : bool;
}.

Record PeerManager := mkPeers {
  peers : gmap NodeId Peer;
  max_peers : Z;
  keepalive_interval : Z;  (** ms *)
  dead_timeout : Z;  (** ms *)
}.

Definition peers_init (max : Z) : PeerManager := mkPeers ∅ max 25000 180000.

Definition with_peers (m : gmap NodeId Peer) (pm : PeerManager) : PeerManager :=
  mkPeers m (max_peers pm) (keepalive_interval pm) (dead_timeout pm).

Definition is_empty_key (key : Key) : bool := bool_decide (key = zero32).

Definition upsert (id : NodeId) (key : Key) (ep : option Endpoint) (trust : bool) (now : Z)
    (pm : PeerManager) : PeerUpsertResult * PeerManager :=
  match peers pm !! id with
  | Some p =>
      let existing_key_empty := is_empty_key (public_key p) in
      let incoming_key_empty := is_empty_key key in
      if negb existing_key_empty && negb incoming_key_empty &&
         negb (bool_decide (public_key p = key))
      then (IdentityConflict, pm)
      else
        let '(key', result) :=
          if existing_key_empty && negb incoming_key_empty
          then (key, IdentityBound) else (public_key p, Updated) in
        let p := mkPeer (node_id p) key'
                   (match ep with Some e => Some e | None => endpoint p end)
                   (endpoint_candidates p) (state p) (path p) (created_at p) (last_seen p)
                   (last_keepalive p) (connected_since p) (connect_attempts p)
                   (trusted p || trust) in
        (result, with_peers (<[id := p]> (peers pm)) pm)
  | None =>
      if max_peers pm <=? Z.of_nat (size (peers pm)) then (CapacityRejected, pm)
      else
        (Inserted,
         with_peers (<[id := mkPeer id key ep [] StateUnknown PathUnknown now 0 0 0 0 trust]>
                       (peers pm)) pm)
  end.

Definition add_peer (p : Peer) (pm : PeerManager) : bool * PeerManager :=
  if negb (contains (peers pm) (node_id p)) &&
     (max_peers pm <=? Z.of_nat (size (peers pm)))
  then (false, pm)
  else (true, with_peers (<[node_id p := p]> (peers pm)) pm).

Definition remove_peer (id : NodeId) (pm : PeerManager) : PeerManager :=
  with_peers (delete id (peers pm)) pm.

Definition get_peer (id : NodeId) (pm : PeerManager) : option Peer := peers pm !! id.
Definition has_peer (id : NodeId) (pm : PeerManager) : bool := contains (peers pm) id.
Definition all_peers (pm : PeerManager) : list Peer := (entries (peers pm)).*2.

(** Apply [f] to the record of [id], if there is one. *)
Definition update_peer (id : NodeId) (f : Peer -> Peer) (pm : PeerManager) : PeerManager :=
  match peers pm !! id with
  | None => pm
  | Some p => with_peers (<[id := f p]> (peers pm)) pm
  end.

(** [now] as the time of the last traffic: established, and connected since then if it
    was not. *)
Definition seen_at (now : Z) (ep : option Endpoint) (route : PeerPath) (p : Peer) : Peer :=
  mkPeer (node_id p) (public_key p) ep (endpoint_candidates p) Established route
    (created_at p) now now
    (if negb (bool_decide (state p = Established)) then now else connected_since p)
    (connect_attempts p) (trusted p).

Definition mark_seen (id : NodeId) (ep : option Endpoint) (now : Z) (pm : PeerManager)
    : PeerManager :=
  update_peer id (λ p,
    match ep with
    | None => seen_at now (endpoint p) (path p) p
    | Some e =>
        let same_endpoint := bool_decide (endpoint p = Some e) in
        seen_at now (Some e)
          (if negb same_endpoint || bool_decide (path p = PathUnknown)
           then PathDirect else path p) p
    end) pm.

Definition mark_hole_punched (id : NodeId) (e : Endpoint) (now : Z) (pm : PeerManager)
    : PeerManager :=
  update_peer id (seen_at now (Some e) HolePunched) pm.

Definition mark_connecting (id : NodeId) (pm : PeerManager) : PeerManager :=
  update_peer id (λ p,
    mkPeer (node_id p) (public_key p) (endpoint p) (endpoint_candidates p) Connecting (path p)
      (created_at p) (last_seen p) (last_keepalive p) (connected_since p)
      (wrap 32 (connect_attempts p + 1)) (trusted p)) pm.

Definition mark_dead (id : NodeId) (pm : PeerManager) : PeerManager :=
  update_peer id (λ p,
    mkPeer (node_id p) (public_key p) (endpoint p) (endpoint_candidates p) Dead PathUnknown
      (created_at p) (last_seen p) (last_keepalive p) (connected_since p)
      (connect_attempts p) (trusted p)) pm.

Definition update_endpoint (id : NodeId) (e : Endpoint) (now : Z) (pm : PeerManager)
    : PeerManager :=
  update_peer id (λ p,
    mkPeer (node_id p) (public_key p) (Some e) (endpoint_candidates p) (state p)
      (if negb (bool_decide (endpoint p = Some e)) then PathUnknown else path p)
      (created_at p) now (last_keepalive p) (connected_since p)
      (connect_attempts p) (trusted p)) pm.

Definition set_endpoint_candidates (id : NodeId) (cs : list EndpointCandidate)
    (pm : PeerManager) : bool * PeerManager :=
  let count := Z.of_nat (length cs) in
  if (count =? 0) || (ENDPOINT_CANDIDATE_MAX_COUNT <? count) then (false, pm)
  else if negb (valid_distinct [] cs) then (false, pm)
  else if negb (contains (peers pm) id) then (false, pm)
  else
    (true, update_peer id (λ p,
       mkPeer (node_id p) (public_key p) (endpoint p) cs (state p) (path p) (created_at p)
         (last_seen p) (last_keepalive p) (connected_since p) (connect_attempts p)
         (trusted p)) pm).

Definition peer_session `{OpenSSL, RandomSource, NoiseC} (sm : option SessionManager)
    (id : NodeId) (pm : PeerManager) : option SessionSnapshot :=
  match sm with
  | None => None
  | Some sm => if contains (peers pm) id then get_session sm id else None
  end.

Definition set_keepalive_interval (interval : Z) (pm : PeerManager) : PeerManager :=
  mkPeers (peers pm) (max_peers pm) interval (dead_timeout pm).
Definition set_dead_timeout (timeout : Z) (pm : PeerManager) : PeerManager :=
  mkPeers (peers pm) (max_peers pm) (keepalive_interval pm) timeout.

Definition is_stale (now : Z) (pm : PeerManager) (p : Peer) : bool :=
  if bool_decide (state p = Dead) then false
  else
    let reference := if negb (last_seen p =? 0) then last_seen p else created_at p in
    dead_timeout pm <=? to_ms (now - reference).

Definition stale_peers (now : Z) (pm : PeerManager) : list Peer :=
  filter (λ p, is_stale now pm p = true) (all_peers pm).

Definition needs_keepalive (now : Z) (pm : PeerManager) (p : Peer) : bool :=
  if negb (bool_decide (state p = Established)) then false
  else keepalive_interval pm <=? to_ms (now - last_keepalive p).

Definition peers_needing_keepalive (now : Z) (pm : PeerManager) : list Peer :=
  filter (λ p, needs_keepalive now pm p = true) (all_peers pm).

(** ** Runs *)

Inductive peer_op :=
  | PUpsert (id : NodeId) (key : Key) (ep : option Endpoint) (trust : bool) (now : Z)
  | PAdd (p : Peer)
  | PRemove (id : NodeId)
  | PSeen (id : NodeId) (ep : option Endpoint) (now : Z)
  | PHolePunched (id : NodeId) (e : Endpoint) (now : Z)
  | PConnecting (id : NodeId)
  | PDead (id : NodeId)
  | PEndpoint (id : NodeId) (e : Endpoint) (now : Z)
  | PCandidates (id : NodeId) (cs : list EndpointCandidate)
  | PKeepalive (interval : Z)
  | PDeadTimeout (timeout : Z).

Definition peer_step (op : peer_op) (pm : PeerManager) : PeerManager :=
  match op with
  | PUpsert id key ep trust now => snd (upsert id key ep trust now pm)
  | PAdd p => snd (add_peer p pm)
  | PRemove id => remove_peer id pm
  | PSeen id ep now => mark_seen id ep now pm
  | PHolePunched id e now => mark_hole_punched id e now pm
  | PConnecting id => mark_connecting id pm
  | PDead id => mark_dead id pm
  | PEndpoint id e now => update_endpoint id e now pm
  | PCandidates id cs => snd (set_endpoint_candidates id cs pm)
  | PKeepalive interval => set_keepalive_interval interval pm
  | PDeadTimeout timeout => set_dead_timeout timeout pm
  end.

Definition peer_run (ops : list peer_op) (pm : PeerManager) : PeerManager :=
  foldl (λ pm op, peer_step op pm) pm ops.

(** The operations that replace or drop the record of [id]. *)
Definition replaces_peer (id : NodeId) (op : peer_op) : bool :=
  match op with
  | PAdd p => bool_decide (node_id p = id)
  | PRemove id' => bool_decide (id' = id)
  | _ => false
  end.

(** The clock an operation reads. *)
Definition op_time (op : peer_op) : option Z :=
  match op with
  | PUpsert _ _ _ _ now | PSeen _ _ now | PHolePunched _ _ now | PEndpoint _ _ now => Some now
  | _ => None
  end.

(** How a record may change while it is neither replaced nor dropped: a key that is set
    stays, trust is not withdrawn, and the last sign of life is kept or is a clock
    value read by the operation. *)
Definition evolves (op : peer_op) (p p' : Peer) : Prop :=
  node_id p' = node_id p /\
  (public_key p <> zero32 -> public_key p' = public_key p) /\
  (trusted p = true -> trusted p' = true) /\
  created_at p' = created_at p /\
  (last_seen p' = last_seen p \/ op_time op = Some (last_seen p')).

Lemma evolves_refl op p : evolves op p p.
Proof. unfold evolves. naive_solver. Qed.

Lemma update_peer_lookup id f id' pm :
  peers (update_peer id f pm) !! id' =
    if decide (id' = id) then f <$> peers pm !! id else peers pm !! id'.
Proof.
  unfold update_peer. destruct (peers pm !! id) as [p|] eqn:Hp; simpl.
  - destruct (decide (id' = id)) as [->|]; [by rewrite lookup_insert_eq|by rewrite lookup_insert_ne].
  - destruct (decide (id' = id)) as [->|]; [by rewrite Hp|done].
Qed.

Lemma update_peer_config id f pm :
  max_peers (update_peer id f pm) = max_peers pm /\
  dead_timeout (update_peer id f pm) = dead_timeout pm /\
  size (peers (update_peer id f pm)) = size (peers pm).
Proof.
  unfold update_peer. destruct (peers pm !! id) as [p|] eqn:Hp; [|done]. split_and!; try done.
  simpl. rewrite map_size_insert, Hp. done.
Qed.

Lemma update_peer_evolves op id f id' p pm :
  (forall p, peers pm !! id = Some p -> evolves op p (f p)) -> peers pm !! id' = Some p ->
  exists p', peers (update_peer id f pm) !! id' = Some p' /\ evolves op p p'.
Proof.
  intros Hf Hp. rewrite update_peer_lookup. destruct (decide (id' = id)) as [->|].
  - rewrite Hp. simpl. eauto.
  - eauto using evolves_refl.
Qed.

Lemma upsert_cases id key ep trust now pm :
  (upsert id key ep trust now pm = (IdentityConflict, pm) /\
   exists p, peers pm !! id = Some p /\ public_key p <> zero32 /\ public_key p <> key) \/
  (upsert id key ep trust now pm = (CapacityRejected, pm) /\ peers pm !! id = None) \/
  (exists p res, peers pm !! id = None /\ upsert id key ep trust now pm = (res, with_peers (<[id := p]> (peers pm)) pm) /\
     res = Inserted /\ Z.of_nat (size (peers pm)) < max_peers pm /\
     node_id p = id /\ public_key p = key /\ created_at p = now /\ last_seen p = 0) \/
  (exists p p' res, peers pm !! id = Some p /\
     upsert id key ep trust now pm = (res, with_peers (<[id := p']> (peers pm)) pm) /\
     (res = Updated \/ res = IdentityBound) /\
     evolves (PUpsert id key ep trust now) p p' /\
     public_key p' = (if is_empty_key (public_key p) then key else public_key p) /\
     (key <> zero32 -> public_key p' = key)).
Proof.
  unfold upsert. destruct (peers pm !! id) as [p|] eqn:Hp.
  2:{ case_match; [right; left; by split|]. right; right; left.
      do 2 eexists. split_and!; try done. lia. }
  unfold is_empty_key.
  case_bool_decide as He; case_bool_decide as Hk; case_bool_decide as Hpk; cbn [negb andb];
    try (left; by split; [|exists p]);
    right; right; right; do 3 eexists;
    (split_and!; [done|done|auto| |cbn [public_key]; case_bool_decide; congruence|cbn [public_key]; naive_solver]);
    unfold evolves; cbn [node_id public_key trusted created_at last_seen];
    (split_and!; [done|naive_solver|by intros ->|done|by left]).
Qed.

Lemma peer_step_evolves op id p pm :
  replaces_peer id op = false -> peers pm !! id = Some p ->
  exists p', peers (peer_step op pm) !! id = Some p' /\ evolves op p p'.
Proof.
  intros Hrep Hp.
  destruct op as [i key ep trust now|q|i|i ep now|i e now|i|i|i e now|i cs|k|d];
    cbn [peer_step replaces_peer] in *;
    try (apply update_peer_evolves; [|done]; intros q Hq;
         unfold evolves; repeat case_match; simpl; naive_solver).
  - destruct (upsert_cases i key ep trust now pm)
      as [[-> _]|[[-> _]|[(q & r & Hn & -> & _)|(q & q' & r & Hq & -> & _ & Hev & _)]]]; simpl;
      [by eauto using evolves_refl|by eauto using evolves_refl| |];
      (destruct (decide (id = i)) as [->|Hne];
       [|rewrite lookup_insert_ne by done; eauto using evolves_refl]).
    + congruence.
    + rewrite lookup_insert_eq. assert (q = p) as -> by congruence. eauto.
  - unfold add_peer. case_match; simpl; [eauto using evolves_refl|].
    apply bool_decide_eq_false in Hrep. rewrite lookup_insert_ne by done.
    eauto using evolves_refl.
  - apply bool_decide_eq_false in Hrep. simpl. rewrite lookup_delete_ne by done.
    eauto using evolves_refl.
  - unfold set_endpoint_candidates. do 3 (case_match; [eauto using evolves_refl|]).
    apply update_peer_evolves; [|done]. intros q Hq. unfold evolves. simpl. naive_solver.
  - eauto using evolves_refl.
  - eauto using evolves_refl.
Qed.

(** The table is keyed by node and within its capacity. *)
Record peers_ok (pm : PeerManager) : Prop := {
  peers_keyed id p : peers pm !! id = Some p -> node_id p = id;
  peers_capacity : Z.of_nat (size (peers pm)) <= Z.max 0 (max_peers pm);
}.

Lemma peers_init_ok max : peers_ok (peers_init max).
Proof. split; simpl; [intros *; by rewrite lookup_empty|rewrite map_size_empty; lia]. Qed.

Lemma peers_insert_ok id p pm :
  peers_ok pm -> node_id p = id ->
  (is_Some (peers pm !! id) \/ Z.of_nat (size (peers pm)) < max_peers pm) ->
  peers_ok (with_peers (<[id := p]> (peers pm)) pm).
Proof.
  intros [Hk Hc] Hid Hroom. split; simpl.
  - intros id' p' [[<- <-]|[_ Hp]]%lookup_insert_Some; auto.
  - rewrite map_size_insert. destruct (peers pm !! id); cbn; [done|].
    destruct Hroom as [[? ?]|]; [done|lia].
Qed.

Lemma update_peer_ok id f pm :
  (forall p, node_id (f p) = node_id p) -> peers_ok pm -> peers_ok (update_peer id f pm).
Proof.
  intros Hf Hok. unfold update_peer. destruct (peers pm !! id) as [p|] eqn:Hp; [|done].
  apply peers_insert_ok; [done| |left; by eexists]. rewrite Hf. by eapply peers_keyed.
Qed.

Lemma peer_step_ok op pm : peers_ok pm -> peers_ok (peer_step op pm).
Proof.
  intros Hok.
  destruct op as [i key ep trust now|q|i|i ep now|i e now|i|i|i e now|i cs|k|d];
    cbn [peer_step];
    try (apply update_peer_ok; [intros; by repeat case_match|done]).
  - destruct (upsert_cases i key ep trust now pm)
      as [[-> _]|[[-> _]|[(q & r & Hn & -> & _ & Hc & Hid & _)|(q & q' & r & Hq & -> & _ & Hev & _)]]];
      [done|done| |]; apply peers_insert_ok; try done.
    + by right.
    + destruct Hev as [-> _]. by eapply peers_keyed.
    + left. by eexists.
  - unfold add_peer. case_match eqn:Hg; [done|]. apply peers_insert_ok; [done..|].
    destruct (peers pm !! node_id q) eqn:Hq; [left; by eexists|right].
    apply contains_false in Hq. rewrite Hq in Hg. simpl in Hg. lia.
  - destruct Hok as [Hk Hc]. split; simpl.
    + intros id' p [_ Hp]%lookup_delete_Some. auto.
    + pose proof (map_subseteq_size _ _ (delete_subseteq (peers pm) i)). lia.
  - unfold set_endpoint_candidates. do 3 (case_match; [done|]). by apply update_peer_ok.
  - by destruct Hok.
  - by destruct Hok.
Qed.

Lemma peer_run_ok ops pm : peers_ok pm -> peers_ok (peer_run ops pm).
Proof.
  revert pm. induction ops as [|op ops IH]; intros pm Hok; [done|].
  by apply IH, peer_step_ok.
Qed.

(** A run that neither replaces nor drops a record, record by record. *)
(** Only [remove_peer] forgets a peer, and the capacity is never changed. *)
Lemma peer_step_known op pm :
  (forall id, replaces_peer id op = false) ->
  dom (peers pm) ⊆ dom (peers (peer_step op pm)) /\ max_peers (peer_step op pm) = max_peers pm.
Proof.
  intros Hr. split.
  - intros id [p Hp]%elem_of_dom. apply elem_of_dom.
    destruct (peer_step_evolves op id p pm (Hr id) Hp) as (p' & Hp' & _). by exists p'.
  - destruct op; cbn [peer_step]; try done; try apply update_peer_config.
    + unfold upsert. repeat case_match; done.
    + by unfold add_peer; case_match.
    + unfold set_endpoint_candidates. do 3 (case_match; [done|]). apply update_peer_config.
Qed.

Lemma peer_run_evolves ops id p pm :
  Forall (λ op, replaces_peer id op = false) ops -> peers pm !! id = Some p ->
  exists p', peers (peer_run ops pm) !! id = Some p' /\
    (public_key p <> zero32 -> public_key p' = public_key p) /\
    (trusted p = true -> trusted p' = true) /\
    (last_seen p' = last_seen p \/ exists op, op ∈ ops /\ op_time op = Some (last_seen p')).
Proof.
  intros Hops. revert p pm. induction Hops as [|op ops Hop Hops IH]; intros p pm Hp.
  { exists p. naive_solver. }
  destruct (peer_step_evolves op id p pm Hop Hp) as (p1 & Hp1 & _ & Hk1 & Ht1 & _ & Hl1).
  destruct (IH p1 (peer_step op pm) Hp1) as (p2 & Hp2 & Hk2 & Ht2 & Hl2).
  exists p2. split_and!; [done| |by auto|].
  - intros Hne. rewrite Hk2; [by auto|]. by rewrite Hk1.
  - destruct Hl2 as [->|(op' & Hin & Ho)].
    + destruct Hl1 as [->|Ho]; [by left|right]. exists op.
      split; [apply elem_of_cons; by left|done].
    + right. exists op'. split; [apply elem_of_cons; by right|done].
Qed.

Lemma elem_of_stale now pm p :
  p ∈ stale_peers now pm <-> (exists id, peers pm !! id = Some p) /\ is_stale now pm p = true.
Proof.
  unfold stale_peers, all_peers. rewrite list_elem_of_filter, list_elem_of_fmap. split.
  - intros [Hs ([id q] & -> & Hin%elem_of_entries)]. eauto.
  - intros [[id Hid] Hs]. split; [done|]. exists (id, p). by rewrite elem_of_entries.
Qed.

(** ** Properties *)

(** A node's key is permanent.  In any run of the peer manager that does not remove or
    replace the record of a node, a non-empty public key never changes and trust is
    never withdrawn, whatever keys are offered for that node; and in every run the
    table stays within its capacity and keyed by node identifier. *)
Theorem peer_identity_is_permanent max before ops id p :
  let pm := peer_run before (peers_init max) in
  Forall (λ op, replaces_peer id op = false) ops ->
  peers pm !! id = Some p -> public_key p <> zero32 ->
  let pm' := peer_run ops pm in
  (exists p', peers pm' !! id = Some p' /\ node_id p' = id /\
     public_key p' = public_key p /\ (trusted p = true -> trusted p' = true)) /\
  Z.of_nat (size (peers pm')) <= Z.max 0 (max_peers pm').
Proof.
  intros pm Hops Hp Hk pm'. pose proof (peers_init_ok max) as H0.
  assert (peers_ok pm') as [Hkey Hcap] by (by apply peer_run_ok, peer_run_ok).
  destruct (peer_run_evolves ops id p pm Hops Hp) as (p' & Hp' & Hkp & Htr & _).
  split; [|done]. exists p'. split_and!; auto.
Qed.

(** No live peer is declared dead.  After traffic from a peer at time [t], and whatever
    happens next at times not before [t] as long as its record is not replaced or
    dropped, the peer is not among the stale peers before the dead timeout has passed
    since [t]; a peer that is not dead and was silent for the timeout is among them. *)
Theorem stale_peers_were_silent pm id ep t ops now :
  0 < t -> is_Some (peers pm !! id) ->
  Forall (λ op, replaces_peer id op = false) ops ->
  Forall (λ op, forall t', op_time op = Some t' -> t <= t') ops ->
  let pm' := peer_run ops (mark_seen id ep t pm) in
  exists p', peers pm' !! id = Some p' /\
    (now - t < ms (dead_timeout pm') -> 0 < dead_timeout pm' -> p' ∉ stale_peers now pm') /\
    (state p' <> Dead -> ms (dead_timeout pm') <= now - last_seen p' -> 0 <= dead_timeout pm' ->
     p' ∈ stale_peers now pm').
Proof.
  intros Ht [p Hp] Hrep Htimes pm'.
  assert (exists p1, peers (mark_seen id ep t pm) !! id = Some p1 /\ last_seen p1 = t)
    as (p1 & Hp1 & Hl1).
  { unfold mark_seen. rewrite update_peer_lookup, decide_True, Hp by done.
    eexists. split; [done|]. by destruct ep. }
  destruct (peer_run_evolves ops id p1 _ Hrep Hp1) as (p' & Hp' & _ & _ & Hl).
  assert (t <= last_seen p') as Hge.
  { destruct Hl as [->|(op & Hin & Ho)]; [lia|].
    rewrite Forall_forall in Htimes. by eapply Htimes. }
  exists p'. split; [done|]. unfold ms in *. split.
  - intros Hnow Hd [_ Hs]%elem_of_stale. unfold is_stale in Hs.
    case_bool_decide; [done|]. rewrite (proj2 (Z.eqb_neq (last_seen p') 0)) in Hs by lia.
    cbn [negb] in Hs. apply Z.leb_le in Hs. unfold to_ms in Hs.
    destruct (Z.leb_spec 0 (now - last_seen p')).
    + rewrite Z.quot_div_nonneg in Hs by lia.
      assert ((now - last_seen p') / 1000000 < dead_timeout pm')
        by (apply Z.div_lt_upper_bound; lia). lia.
    + pose proof (Z.quot_le_mono (now - last_seen p') 0 1000000 ltac:(lia) ltac:(lia)).
      rewrite Z.quot_0_l in * by lia. lia.
  - intros Hst Hnow Hd. apply elem_of_stale. split; [by exists id|]. unfold is_stale.
    rewrite bool_decide_eq_false_2 by done.
    rewrite (proj2 (Z.eqb_neq (last_seen p') 0)) by lia. cbn [negb].
    apply Z.leb_le. unfold to_ms. rewrite Z.quot_div_nonneg by lia.
    apply Z.div_le_lower_bound; lia.
Qed.

(** ** Witnesses *)

Definition toy_node : NodeId := replicate 32 x11.
Definition toy_key : Key := replicate 32 x22.
Definition toy_known : list peer_op := [PUpsert toy_node toy_key None true 5].

Lemma peer_identity_is_permanent_witness :
  let pm := peer_run toy_known (peers_init 4) in
  let pm' := peer_run [PUpsert toy_node (replicate 32 x33) None false 9; PDead toy_node] pm in
  exists p', peers pm' !! toy_node = Some p' /\ node_id p' = toy_node /\
    public_key p' = toy_key /\ trusted p' = true.
Proof.
  intros pm pm'.
  set (p := mkPeer toy_node toy_key None [] StateUnknown PathUnknown 5 0 0 0 0 true).
  destruct (peer_identity_is_permanent 4 toy_known
    [PUpsert toy_node (replicate 32 x33) None false 9; PDead toy_node] toy_node p)
    as [(p' & H1 & H2 & H3 & H4) _].
  - repeat constructor.
  - vm_compute. reflexivity.
  - vm_compute. discriminate.
  - exists p'. split; [exact H1|]. split; [exact H2|]. split; [exact H3|]. apply H4. reflexivity.
Defined.

Lemma stale_peers_were_silent_witness :
  let pm := peer_run toy_known (peers_init 4) in
  let pm' := peer_run [PConnecting toy_node] (mark_seen toy_node None (secs 10) pm) in
  exists p', peers pm' !! toy_node = Some p' /\ (p' ∉ stale_peers (secs 189) pm') /\
    (p' ∈ stale_peers (secs 190) pm').
Proof.
  intros pm pm'.
  destruct (stale_peers_were_silent pm toy_node None (secs 10) [PConnecting toy_node] (secs 189))
    as (p' & H1 & H2 & _);
    [reflexivity|vm_compute; by eexists|repeat constructor|repeat constructor; discriminate|].
  destruct (stale_peers_were_silent pm toy_node None (secs 10) [PConnecting toy_node] (secs 190))
    as (q' & H3 & _ & H4);
    [reflexivity|vm_compute; by eexists|repeat constructor|repeat constructor; discriminate|].
  fold pm' in H1, H2, H3, H4. exists p'. split; [exact H1|]. split.
  - apply H2; vm_compute; reflexivity.
  - assert (q' = p') as <- by congruence. vm_compute in H3. injection H3 as <-.
    apply H4; vm_compute; discriminate.
Defined.
