(* ===== verification/PeerTable.v ===== *)
(** * Peer table gossip messages

    [src/peer/peer_table.cpp]: the advertisement of known peers, its wire format, and how
    a received table is merged into the peer manager and the routing table. *)

From Stdlib Require Import ZArith Lia Bool.
From Stdlib.Strings Require Import Byte.
From stdpp Require Import base numbers gmap option list.
From S2P Require Import Prelude Wire Crypto IpAddress Endpoint Peer Routing.

Definition PEER_TABLE_MAX_WIRE_BYTES : Z := 60 * 1024.
Definition PEER_TABLE_MAX_PEERS : Z := 128.
Definition PEER_TABLE_MAX_PATH_HOPS : Z := 8.
Definition PEER_TABLE_MAX_PREFIXES : Z := 16.
Definition PEER_TABLE_VERSION : Z := 4.
Definition PEER_TABLE_PREFIX_BYTES : Z := 1 + 16 + 1 + 8 + 4 + 4.

Record AdvertisedPrefix := mkAdvPrefix {
  adv_prefix : IPAddress;
  adv_length : Z;
  adv_sequence : Z;
  adv_lease : Z;
  adv_metric : Z;
}.

Record AdvertisedPeer := mkAdvPeer {
  adv_node : NodeId;
  adv_key : Key;
  adv_path : list NodeId;
  adv_prefixes : list AdvertisedPrefix;
}.

#[export] Instance adv_prefix_eq_dec : EqDecision AdvertisedPrefix.
Proof. solve_decision. Defined.
#[export] Instance adv_peer_eq_dec : EqDecision AdvertisedPeer.
Proof. solve_decision. Defined.

(** ** Encoding *)

(** The loop that adds up the size; [None] where it returns. *)
Fixpoint encoded_size (peers : list AdvertisedPeer) (acc : Z) : option Z :=
  match peers with
  | [] => Some acc
  | p :: peers =>
      let hops := Z.of_nat (length (adv_path p)) in
      let count := Z.of_nat (length (adv_prefixes p)) in
      if (PEER_TABLE_MAX_PATH_HOPS <? hops) || (PEER_TABLE_MAX_PREFIXES <? count) then None
      else
        let peer_bytes := 32 + 32 + 1 + 1 + 1 + hops * 32 + count * PEER_TABLE_PREFIX_BYTES in
        if wrap 64 (PEER_TABLE_MAX_WIRE_BYTES - acc) <? peer_bytes then None
        else encoded_size peers (acc + peer_bytes)
  end.

Definition prefix_sendable (a : AdvertisedPrefix) : bool :=
  valid_family (adv_prefix a) && (adv_length a <=? bit_width (adv_prefix a)) &&
  negb (adv_sequence a =? 0) && negb (adv_lease a =? 0) &&
  (adv_lease a <=? ROUTE_MAX_LEASE) && (adv_metric a <=? ROUTE_MAX_METRIC).

Definition write_prefix (a : AdvertisedPrefix) : WriteOp :=
  write_when (prefix_sendable a) &>
  write_u8 (family_value (family (adv_prefix a))) &>
  write_bytes (ip_bytes (prefix_address (make_prefix (adv_prefix a) (adv_length a)))) &>
  write_u8 (adv_length a) &> write_u64 (adv_sequence a) &> write_u32 (adv_lease a) &>
  write_u32 (adv_metric a).

Definition write_peer (p : AdvertisedPeer) : WriteOp :=
  write_bytes (adv_node p) &> write_bytes (adv_key p) &>
  write_u8 (Z.of_nat (length (adv_path p))) &> write_each write_bytes (adv_path p) &>
  write_u8 0 &> write_u8 (Z.of_nat (length (adv_prefixes p))) &>
  write_each write_prefix (adv_prefixes p).

Definition serialize_peer_table (peers : list AdvertisedPeer) : option (list byte) :=
  if PEER_TABLE_MAX_PEERS <? Z.of_nat (length peers) then None
  else
    match encoded_size peers 3 with
    | None => None
    | Some size =>
        encode_exact (Z.to_nat size)
          (write_u8 PEER_TABLE_VERSION &> write_u16 (Z.of_nat (length peers)) &>
           write_each write_peer peers)
    end.

(** ** Decoding *)

Definition read_address (version : Z) (r : WireReader) : option IPAddress * WireReader :=
  if version =? 3 then
    let '(legacy_prefix, r) := read_u32 r in (from_ipv4 <$> legacy_prefix, r)
  else
    let '(fam, r) := read_u8 r in
    let '(bytes, r) := read_bytes 16 r in
    match fam, bytes with
    | Some fam, Some bytes =>
        if negb (fam =? 4) && negb (fam =? 6) then (None, r)
        else if bool_decide (family_of fam = IPv4) &&
                existsb (λ b, negb (bval b =? 0)) (drop 4 bytes) then (None, r)
        else (Some (mkIP (family_of fam) bytes), r)
    | _, _ => (None, r)
    end.

Definition read_prefix (version : Z) (r : WireReader) : option AdvertisedPrefix * WireReader :=
  match read_address version r with
  | (None, r) => (None, r)
  | (Some address, r) =>
      let '(len, r) := read_u8 r in
      let '(sequence, r) := read_u64 r in
      let '(lease, r) := read_u32 r in
      let '(metric, r) := read_u32 r in
      match len, sequence, lease, metric with
      | Some len, Some sequence, Some lease, Some metric =>
          if (bit_width address <? len) || (sequence =? 0) || (lease =? 0) ||
             (ROUTE_MAX_LEASE <? lease) || (ROUTE_MAX_METRIC <? metric)
          then (None, r) else (Some (mkAdvPrefix address len sequence lease metric), r)
      | _, _, _, _ => (None, r)
      end
  end.

Definition read_peer (version : Z) (r : WireReader) : option AdvertisedPeer * WireReader :=
  let '(node, r) := read_bytes 32 r in
  let '(key, r) := read_bytes 32 r in
  let '(path_count, r) := read_u8 r in
  match node, key, path_count with
  | Some node, Some key, Some path_count =>
      if PEER_TABLE_MAX_PATH_HOPS <? path_count then (None, r)
      else
        match read_each (read_bytes 32) (Z.to_nat path_count) r with
        | (None, r) => (None, r)
        | (Some hops, r) =>
            let '(flags, r) := read_u8 r in
            let '(prefix_count, r) := read_u8 r in
            match flags, prefix_count with
            | Some flags, Some prefix_count =>
                if negb (flags =? 0) || (PEER_TABLE_MAX_PREFIXES <? prefix_count)
                then (None, r)
                else
                  match read_each (read_prefix version) (Z.to_nat prefix_count) r with
                  | (None, r) => (None, r)
                  | (Some prefixes, r) => (Some (mkAdvPeer node key hops prefixes), r)
                  end
            | _, _ => (None, r)
            end
        end
  | _, _, _ => (None, r)
  end.

Definition deserialize_peer_table (data : list byte) : option (list AdvertisedPeer) :=
  let len := Z.of_nat (length data) in
  if (len <? 3) || (PEER_TABLE_MAX_WIRE_BYTES <? len) then None
  else
    let r := wire_reader data in
    let '(version, r) := read_u8 r in
    let '(count, r) := read_u16 r in
    match version, count with
    | Some version, Some count =>
        if (negb (version =? 3) && negb (version =? PEER_TABLE_VERSION)) ||
           (PEER_TABLE_MAX_PEERS <? count) then None
        else
          match read_each (read_peer version) (Z.to_nat count) r with
          | (None, _) => None
          | (Some out, r) => if rd_finished r then Some out else None
          end
    | _, _ => None
    end.

(** ** Merging *)

Record PeerTableMergeStats := mkStats {
  accepted : Z;
  peers_changed : Z;
  routes_installed : Z;
  malformed : Z;
  stale_rejected : Z;
  conflicting : Z;
  capacity_rejected : Z;
}.

Definition no_stats : PeerTableMergeStats := mkStats 0 0 0 0 0 0 0.

Definition stats_changed (s : PeerTableMergeStats) : bool :=
  (0 <? peers_changed s) || (0 <? routes_installed s).

Definition count_malformed (s : PeerTableMergeStats) : PeerTableMergeStats :=
  mkStats (accepted s) (peers_changed s) (routes_installed s) (malformed s + 1)
    (stale_rejected s) (conflicting s) (capacity_rejected s).
Definition count_stale (s : PeerTableMergeStats) : PeerTableMergeStats :=
  mkStats (accepted s) (peers_changed s) (routes_installed s) (malformed s)
    (stale_rejected s + 1) (conflicting s) (capacity_rejected s).
Definition count_conflicting (s : PeerTableMergeStats) : PeerTableMergeStats :=
  mkStats (accepted s) (peers_changed s) (routes_installed s) (malformed s)
    (stale_rejected s) (conflicting s + 1) (capacity_rejected s).
Definition count_capacity (s : PeerTableMergeStats) : PeerTableMergeStats :=
  mkStats (accepted s) (peers_changed s) (routes_installed s) (malformed s)
    (stale_rejected s) (conflicting s) (capacity_rejected s + 1).
Definition count_installed (s : PeerTableMergeStats) : PeerTableMergeStats :=
  mkStats (accepted s) (peers_changed s) (routes_installed s + 1) (malformed s)
    (stale_rejected s) (conflicting s) (capacity_rejected s).
Definition count_accepted (changed : bool) (s : PeerTableMergeStats) : PeerTableMergeStats :=
  mkStats (accepted s + 1) (if changed then peers_changed s + 1 else peers_changed s)
    (routes_installed s) (malformed s) (stale_rejected s) (conflicting s)
    (capacity_rejected s).

(** The path through the sender, and whether it is usable. *)
Definition merged_path (sender : NodeId) (p : AdvertisedPeer) : list NodeId :=
  sender :: adv_path p ++ (match adv_path p with [] => [adv_node p] | _ => [] end).

Fixpoint avoids (self : NodeId) (seen : gset NodeId) (hops : list NodeId) : bool :=
  match hops with
  | [] => true
  | hop :: hops =>
      if bool_decide (hop = self) || bool_decide (hop ∈ seen) then false
      else avoids self ({[hop]} ∪ seen) hops
  end.

Definition path_usable (self sender : NodeId) (p : AdvertisedPeer) : bool :=
  bool_decide (last (merged_path sender p) = Some (adv_node p)) &&
  avoids self ∅ (merged_path sender p).

(** The route for one advertised prefix. *)
Definition merged_route (sender : NodeId) (p : AdvertisedPeer) (a : AdvertisedPrefix)
    (validated : Z) : Route :=
  mkRoute (adv_prefix a) (adv_length a) Relay sender (adv_node p) (merged_path sender p)
    (adv_node p) sender (adv_sequence a) (adv_lease a) (wrap 32 (adv_metric a + 1)) validated
    None None None false 0 None.

(** Learned candidates for the prefix and origin. *)
Definition learned_for (canonical : IPAddress) (len : Z) (orig : NodeId) (r : Route) : bool :=
  bool_decide (type r = Relay) && bool_decide (prefix r = canonical) &&
  (prefix_length r =? len) && bool_decide (origin r = orig).

Definition highest_sequence (canonical : IPAddress) (len : Z) (orig : NodeId)
    (rs : list Route) : Z :=
  foldl (λ h r, if learned_for canonical len orig r then Z.max h (sequence_number r) else h)
    0 rs.

(** The body of the loop over the prefixes: the engine, the statistics and the flag
    [malformed_routing]. *)
Definition merge_prefix (self sender : NodeId) (p : AdvertisedPeer) (validated : Z)
    (a : AdvertisedPrefix) (acc : RoutingEngine * PeerTableMergeStats * bool)
    : RoutingEngine * PeerTableMergeStats * bool :=
  let '(re, stats, bad) := acc in
  if (bit_width (adv_prefix a) <? adv_length a) || (adv_sequence a =? 0) ||
     (adv_lease a =? 0) || (ROUTE_MAX_LEASE <? adv_lease a) ||
     (ROUTE_MAX_METRIC <=? adv_metric a) then (re, stats, true)
  else if negb (path_usable self sender p) then (re, stats, bad)
  else
    let route := merged_route sender p a validated in
    let canonical := prefix_address (make_prefix (adv_prefix a) (adv_length a)) in
    let highest := highest_sequence canonical (adv_length a) (adv_node p) (routes re) in
    if sequence_number route <? highest then (re, count_stale stats, bad)
    else
      let existing := list_find (λ r, prefix r = canonical /\ prefix_length r = adv_length a /\
        type r = Relay /\ next_hop r = sender /\ destination r = adv_node p) (routes re) in
      let insert (_ : unit) :=
        let re :=
          if highest <? sequence_number route
          then snd (remove_older_learned_routes (origin route) (prefix route)
                      (prefix_length route) (sequence_number route) re)
          else re in
        match add_route route re with
        | (true, re) => (re, count_installed stats, bad)
        | (false, re) => (re, count_capacity stats, bad)
        end in
      match existing with
      | Some (_, r) =>
          if sequence_number route =? sequence_number r then
            if negb (bool_decide (path route = path r)) || negb (metric route =? metric r)
            then (re, stats, true)
            else (snd (add_route route re), stats, bad)
          else insert tt
      | None => insert tt
      end.

Section merge.
Context `{OpenSSL}.

(** One advertised peer; [now] is the clock [upsert] reads. *)
Definition merge_peer (self sender : NodeId) (validated now : Z) (p : AdvertisedPeer)
    (pm : PeerManager) (re : RoutingEngine) (stats : PeerTableMergeStats)
    : PeerManager * RoutingEngine * PeerTableMergeStats :=
  if bool_decide (adv_node p = self) || bool_decide (adv_node p = sender) then (pm, re, stats)
  else if (PEER_TABLE_MAX_PATH_HOPS <? Z.of_nat (length (adv_path p))) ||
          (PEER_TABLE_MAX_PREFIXES <? Z.of_nat (length (adv_prefixes p)))
  then (pm, re, count_malformed stats)
  else if bool_decide (adv_key p = zero32) ||
          negb (bool_decide (hash_public_key (adv_key p) = adv_node p))
  then (pm, re, count_malformed stats)
  else
    match upsert (adv_node p) (adv_key p) None false now pm with
    | (IdentityConflict, pm) => (pm, re, count_conflicting stats)
    | (CapacityRejected, pm) => (pm, re, count_capacity stats)
    | (result, pm) =>
        let changed := bool_decide (result = Inserted) || bool_decide (result = IdentityBound) in
        let '(re, stats, bad) :=
          foldl (λ acc a, merge_prefix self sender p validated a acc)
            (re, count_accepted changed stats, negb (path_usable self sender p))
            (adv_prefixes p) in
        (pm, re, if bad then count_malformed stats else stats)
    end.

Fixpoint merge_peers (self sender : NodeId) (validated : Z) (clock : nat -> Z) (i : nat)
    (advertised : list AdvertisedPeer) (pm : PeerManager) (re : RoutingEngine)
    (stats : PeerTableMergeStats) : PeerManager * RoutingEngine * PeerTableMergeStats :=
  match advertised with
  | [] => (pm, re, stats)
  | p :: advertised =>
      let '(pm, re, stats) := merge_peer self sender validated (clock i) p pm re stats in
      merge_peers self sender validated clock (S i) advertised pm re stats
  end.

(** [clock i] is the time read while the [i]-th entry is merged. *)
Definition merge_peer_table (self sender : NodeId) (validated : Z) (clock : nat -> Z)
    (advertised : list AdvertisedPeer) (pm : PeerManager) (re : RoutingEngine)
    : PeerManager * RoutingEngine * PeerTableMergeStats :=
  merge_peers self sender validated clock 0 advertised pm re no_stats.

End merge.

(** ** The wire format *)

(** What version 4 can carry for a prefix. *)
Definition prefix_wf (a : AdvertisedPrefix) : Prop :=
  ip_wf (adv_prefix a) /\ valid_family (adv_prefix a) = true /\
  (family (adv_prefix a) = IPv4 -> drop 4 (ip_bytes (adv_prefix a)) = zeros 12) /\
  u8 (adv_length a) /\ adv_length a <= bit_width (adv_prefix a) /\
  u64 (adv_sequence a) /\ adv_sequence a <> 0 /\
  u32 (adv_lease a) /\ adv_lease a <> 0 /\ adv_lease a <= ROUTE_MAX_LEASE /\
  u32 (adv_metric a) /\ adv_metric a <= ROUTE_MAX_METRIC.

Definition prefix_bytes (a : AdvertisedPrefix) : list byte :=
  be_split 1 (family_value (family (adv_prefix a))) ++ ip_bytes (adv_prefix a) ++
  be_split 1 (adv_length a) ++ be_split 8 (adv_sequence a) ++ be_split 4 (adv_lease a) ++
  be_split 4 (adv_metric a).

Arguments prefix_bytes : simpl never.

Lemma zero_tail_check bs :
  existsb (λ b, negb (bval b =? 0)) bs = false <-> bs = zeros (length bs).
Proof.
  induction bs as [|b bs IH]; [done|]. cbn [existsb length]. rewrite orb_false_iff, IH.
  change (zeros (S (length bs))) with (x00 :: zeros (length bs)).
  rewrite negb_false_iff, Z.eqb_eq. split.
  - intros [Hb ->]. rewrite length_zeros. f_equal. rewrite <- (b8_bval b), Hb. done.
  - intros [= -> Hbs]. by split.
Qed.

#[export] Instance reads_prefix : Reads (read_prefix 4) prefix_bytes prefix_wf.
Proof.
  split.
  - intros a pre post (Hip & Hv & Htail & Hlu & Hlw & Hsu & Hs & Hlsu & Hls & Hlm & Hmu & Hm).
    destruct a as [[fam bs] len s l m]. cbn [adv_prefix adv_length adv_sequence adv_lease adv_metric
      family ip_bytes] in *. unfold ip_wf in Hip. cbn [ip_bytes] in Hip.
    unfold read_prefix, read_address, prefix_bytes. change (4 =? 3) with false. cbv iota.
    cbn [adv_prefix adv_length adv_sequence adv_lease adv_metric family ip_bytes].
    rewrite <- !app_assoc.
    assert (u8 (family_value fam) /\ negb (family_value fam =? 4) && negb (family_value fam =? 6) = false
      /\ family_of (family_value fam) = fam) as (Hfu & Hfk & Hff)
      by (unfold valid_family in Hv; by destruct fam).
    rewrite (reads_ok (f := read_u8)) by done. rewrite read_bytes_ok by done.
    rewrite Hfk, Hff.
    replace (bool_decide (fam = IPv4) && existsb (λ b, negb (bval b =? 0)) (drop 4 bs)) with false.
    2:{ case_bool_decide as Hf; [|done]. symmetry. apply zero_tail_check.
        by rewrite (Htail Hf). }
    rewrite (reads_ok (f := read_u8)) by done. rd_run.
    rewrite (proj2 (Z.ltb_ge _ _) Hlw), (proj2 (Z.eqb_neq _ _) Hs), (proj2 (Z.eqb_neq _ _) Hls).
    rewrite (proj2 (Z.ltb_ge _ _) Hlm), (proj2 (Z.ltb_ge _ _) Hm). simpl. by rewrite <- !app_assoc.
  - intros a pre post r' H. unfold read_prefix, read_address in H.
    change (4 =? 3) with false in H. cbv iota in H.
    rd_inv_step H. rd_inv_step H.
    destruct (negb (v =? 4) && negb (v =? 6)) eqn:Hk; [done|].
    destruct (bool_decide _ && _) eqn:Ht; [done|].
    rd_inv_step H. rd_inv_step H. rd_inv_step H. rd_inv_step H.
    case_match eqn:Hg; [done|]. apply pair_eq in H as [<-%(inj Some) <-].
    apply orb_false_iff in Hg as [Hg Hm%Z.ltb_ge]. apply orb_false_iff in Hg as [Hg Hlm%Z.ltb_ge].
    apply orb_false_iff in Hg as [Hg Hl%Z.eqb_neq]. apply orb_false_iff in Hg as [Hlw%Z.ltb_ge Hs%Z.eqb_neq].
    assert (v = 4 \/ v = 6) as Hv by lia. unfold prefix_wf, prefix_bytes, ip_wf.
    cbn [adv_prefix adv_length adv_sequence adv_lease adv_metric family ip_bytes] in *.
    assert (family_value (family_of v) = v /\ valid_family (mkIP (family_of v) bs) = true) as [-> Hvf]
      by (by destruct Hv as [-> | ->]).
    split.
    + split_and!; try done. intros Hf. rewrite bool_decide_eq_true_2 in Ht by done.
      apply zero_tail_check in Ht. by rewrite length_drop, W0 in Ht.
    + eexists. split; [by rewrite <- !app_assoc|]. by rewrite <- !app_assoc.
Qed.

Definition peer_wf (p : AdvertisedPeer) : Prop :=
  is32 (adv_node p) /\ is32 (adv_key p) /\
  (Forall is32 (adv_path p) /\ Z.of_nat (length (adv_path p)) <= 8) /\
  (Forall prefix_wf (adv_prefixes p) /\ Z.of_nat (length (adv_prefixes p)) <= 16).

Definition peer_bytes (p : AdvertisedPeer) : list byte :=
  adv_node p ++ adv_key p ++ be_split 1 (Z.of_nat (length (adv_path p))) ++
  flat_map id (adv_path p) ++ be_split 1 0 ++
  be_split 1 (Z.of_nat (length (adv_prefixes p))) ++ flat_map prefix_bytes (adv_prefixes p).

Arguments peer_bytes : simpl never.

Lemma read_peer_ok p pre post :
  peer_wf p ->
  read_peer 4 (rd_at pre (peer_bytes p ++ post)) = (Some p, rd_at (pre ++ peer_bytes p) post).
Proof.
  intros (Hn & Hk & [Hh Hhl] & Hp & Hpl). destruct p as [node key hops prefixes].
  cbn [adv_node adv_key adv_path adv_prefixes] in *. unfold read_peer, peer_bytes.
  cbn [adv_node adv_key adv_path adv_prefixes]. rewrite <- !app_assoc.
  assert (u8 (Z.of_nat (length hops))) by (unfold in_width; lia).
  assert (u8 (Z.of_nat (length prefixes))) by (unfold in_width; lia).
  rewrite (read_bytes_ok 32 node), (read_bytes_ok 32 key) by done.
  rewrite (reads_ok (f := read_u8)) by done.
  unfold PEER_TABLE_MAX_PATH_HOPS, PEER_TABLE_MAX_PREFIXES.
  rewrite (proj2 (Z.ltb_ge _ _) Hhl), Nat2Z.id.
  rewrite (reads_ok (f := read_each (read_bytes 32) (length hops))) by done.
  rewrite (reads_ok (f := read_u8)) by done. rewrite (reads_ok (f := read_u8)) by done.
  rewrite (proj2 (Z.ltb_ge _ _) Hpl), Nat2Z.id. cbn [Z.eqb negb orb].
  rewrite (reads_ok (f := read_each (read_prefix 4) (length prefixes))) by done.
  by rewrite <- !app_assoc.
Qed.

Lemma read_peers_ok ps pre post :
  Forall peer_wf ps ->
  read_each (read_peer 4) (length ps) (rd_at pre (flat_map peer_bytes ps ++ post)) =
    (Some ps, rd_at (pre ++ flat_map peer_bytes ps) post).
Proof.
  intros Hps. revert pre. induction Hps as [|p ps Hp Hps IH]; intros pre.
  { simpl. by rewrite app_nil_r. }
  cbn [length read_each flat_map]. rewrite <- app_assoc, read_peer_ok by done.
  rewrite IH. by rewrite app_assoc.
Qed.

(** *** The serializer writes the canonical form of each prefix. *)

Definition canonical_adv (a : AdvertisedPrefix) : AdvertisedPrefix :=
  mkAdvPrefix (prefix_address (make_prefix (adv_prefix a) (adv_length a))) (adv_length a)
    (adv_sequence a) (adv_lease a) (adv_metric a).

Definition canonical_peer (p : AdvertisedPeer) : AdvertisedPeer :=
  mkAdvPeer (adv_node p) (adv_key p) (adv_path p) (map canonical_adv (adv_prefixes p)).

(** The C++ types of an advertised peer. *)
Definition prefix_typed (a : AdvertisedPrefix) : Prop :=
  ip_wf (adv_prefix a) /\ u8 (adv_length a) /\ u64 (adv_sequence a) /\ u32 (adv_lease a) /\
  u32 (adv_metric a).
Definition peer_typed (p : AdvertisedPeer) : Prop :=
  is32 (adv_node p) /\ is32 (adv_key p) /\ Forall is32 (adv_path p) /\
  Forall prefix_typed (adv_prefixes p).

Lemma canonical_ipv4_tail p :
  ip_wf (prefix_address p) -> prefix_valid p = true -> 0 <= prefix_len p ->
  family (prefix_address p) = IPv4 ->
  drop 4 (ip_bytes (prefix_address (canonicalize p))) = zeros 12.
Proof.
  intros Hwf Hv Hl Hf. rewrite canonical_bytes by done. cbv zeta.
  apply andb_true_iff in Hv as [_ Hw]. unfold bit_width in Hw. rewrite Hf in Hw.
  apply Z.leb_le in Hw. unfold ip_wf in Hwf. set (bs := ip_bytes _) in *.
  pose proof (Z.div_mod (prefix_len p) 8 ltac:(lia)) as Hd.
  pose proof (Z.mod_pos_bound (prefix_len p) 8 ltac:(lia)) as Hm.
  set (full := Z.to_nat (prefix_len p / 8)).
  assert (0 <= prefix_len p / 8) by (apply Z.div_pos; lia).
  destruct (Z.eqb_spec (prefix_len p mod 8) 0) as [Hr|Hr].
  - assert (full <= 4)%nat by lia.
    rewrite drop_app_ge by (rewrite length_take; lia). rewrite length_take, Hwf.
    unfold zeros. rewrite drop_replicate. f_equal. lia.
  - assert (full < 4)%nat by lia.
    rewrite drop_app_ge by (rewrite length_take; lia). rewrite length_take, Hwf.
    replace (4 - full `min` 16)%nat with (S (3 - full)) by lia. cbn [drop].
    unfold zeros. rewrite drop_replicate. f_equal. lia.
Qed.

Lemma canonical_adv_wf a :
  prefix_typed a -> prefix_sendable a = true -> prefix_wf (canonical_adv a).
Proof.
  intros (Hip & Hl & Hs & Hle & Hm) Hsend. unfold prefix_sendable in Hsend.
  rewrite !andb_true_iff, !negb_true_iff, !Z.leb_le, !Z.eqb_neq in Hsend.
  destruct Hsend as (((((Hv & Hw) & Hs0) & Hl0) & Hlm) & Hmm).
  set (q := mkPrefix (adv_prefix a) (adv_length a)).
  assert (prefix_valid q = true) as Hq by (apply andb_true_iff; split; [done|by apply Z.leb_le]).
  assert (0 <= prefix_len q) as Hq0 by (unfold in_width in Hl; simpl; lia).
  destruct (canonicalize_value q Hip Hq Hq0) as [Hwf _].
  destruct (canonicalize_shape q) as [Hf _].
  unfold prefix_wf, canonical_adv, make_prefix. fold q.
  cbn [adv_prefix adv_length adv_sequence adv_lease adv_metric].
  rewrite Hf. unfold valid_family, bit_width in *. rewrite Hf. split_and!; try done.
  intros Hf4. by apply canonical_ipv4_tail.
Qed.

Lemma emits_prefix a :
  prefix_sendable a = true -> Emits (write_prefix a) (prefix_bytes (canonical_adv a)).
Proof.
  intros Hs. unfold write_prefix, prefix_bytes, canonical_adv. rewrite Hs.
  cbn [adv_prefix adv_length adv_sequence adv_lease adv_metric].
  destruct (canonicalize_shape (mkPrefix (adv_prefix a) (adv_length a))) as [Hf _].
  unfold make_prefix. rewrite Hf. cbn [prefix_address].
  rewrite <- (app_nil_l (be_split 1 _ ++ _)). solve_emits.
Qed.

Lemma refuses_prefix a : prefix_sendable a = false -> Refuses (write_prefix a).
Proof. intros Hs dn room. unfold write_prefix, write_and, write_when. by rewrite Hs. Qed.

Definition sendable_peer (p : AdvertisedPeer) : Prop :=
  Forall (λ a, prefix_sendable a = true) (adv_prefixes p).

Lemma emits_peer p :
  sendable_peer p -> Emits (write_peer p) (peer_bytes (canonical_peer p)).
Proof.
  intros Hs. unfold write_peer, peer_bytes, canonical_peer.
  cbn [adv_node adv_key adv_path adv_prefixes]. rewrite length_map.
  replace (flat_map prefix_bytes (map canonical_adv (adv_prefixes p)))
    with (flat_map (λ a, prefix_bytes (canonical_adv a)) (adv_prefixes p))
    by (rewrite !flat_map_concat_map, map_map; done).
  repeat (simple eapply emits_and; [solve_emits|]).
  - apply emits_each. intros hop _. apply emits_bytes.
  - apply emits_each. intros a Ha. apply emits_prefix.
    unfold sendable_peer in Hs. rewrite Forall_forall in Hs. auto.
Qed.

Lemma refuses_peer p : ~ sendable_peer p -> Refuses (write_peer p).
Proof.
  intros Hs. apply not_Forall_Exists in Hs; [|apply _].
  apply Exists_exists in Hs as (a & Ha & Hna). apply not_true_is_false in Hna.
  unfold write_peer.
  do 3 (eapply refuses_and_r; [solve_emits|]).
  eapply refuses_and_r; [apply (emits_each write_bytes id); intros; apply emits_bytes|].
  do 2 (eapply refuses_and_r; [solve_emits|]).
  eapply (refuses_each _ (λ a, prefix_bytes (canonical_adv a))); [|done|by apply refuses_prefix].
  intros y _. destruct (prefix_sendable y) eqn:Hy; [left; by apply emits_prefix|].
  right. by apply refuses_prefix.
Qed.

#[export] Instance sendable_peer_dec p : Decision (sendable_peer p).
Proof. unfold sendable_peer. apply _. Defined.

(** The size computed in advance is the size of the encoding. *)

Lemma length_canonical_bytes p :
  ip_wf (prefix_address p) -> length (ip_bytes (prefix_address (canonicalize p))) = 16%nat.
Proof.
  unfold ip_wf. intros Hl. unfold canonicalize. cbv zeta. case_match; [done|].
  cbn [prefix_address ip_bytes]. unfold zero_range. rewrite !length_imap.
  case_match; [by rewrite length_alter|done].
Qed.

Lemma length_peer_bytes p :
  peer_typed p ->
  Z.of_nat (length (peer_bytes (canonical_peer p))) =
    32 + 32 + 1 + 1 + 1 + Z.of_nat (length (adv_path p)) * 32 +
    Z.of_nat (length (adv_prefixes p)) * PEER_TABLE_PREFIX_BYTES.
Proof.
  intros (Hn & Hk & Hh & Hp). unfold peer_bytes, canonical_peer.
  cbn [adv_node adv_key adv_path adv_prefixes]. rewrite !length_app, !length_be_split, Hn, Hk.
  assert (length (flat_map id (adv_path p)) = 32 * length (adv_path p))%nat as ->.
  { induction Hh as [|h hs Hh1 Hh IH]; [done|]. cbn [flat_map length].
    rewrite length_app, IH. unfold id. rewrite Hh1. lia. }
  assert (length (flat_map prefix_bytes (map canonical_adv (adv_prefixes p))) =
          34 * length (adv_prefixes p))%nat as ->.
  { induction Hp as [|a l Ha Hp IH]; [done|]. cbn [map flat_map length].
    rewrite length_app, IH. unfold prefix_bytes, canonical_adv, make_prefix.
    cbn [adv_prefix adv_length adv_sequence adv_lease adv_metric].
    rewrite !length_app, !length_be_split, length_canonical_bytes by apply Ha. lia. }
  unfold PEER_TABLE_PREFIX_BYTES. lia.
Qed.

Definition counts_ok (p : AdvertisedPeer) : Prop :=
  Z.of_nat (length (adv_path p)) <= 8 /\ Z.of_nat (length (adv_prefixes p)) <= 16.

#[export] Instance counts_ok_dec p : Decision (counts_ok p).
Proof. unfold counts_ok. apply _. Defined.

Lemma encoded_size_spec ps acc size :
  Forall peer_typed ps -> 0 <= acc <= PEER_TABLE_MAX_WIRE_BYTES ->
  encoded_size ps acc = Some size <->
  Forall counts_ok ps /\
  size = acc + Z.of_nat (length (flat_map (λ p, peer_bytes (canonical_peer p)) ps)) /\
  size <= PEER_TABLE_MAX_WIRE_BYTES.
Proof.
  intros Hps. revert acc. induction Hps as [|p ps Hp Hps IH]; intros acc Hacc.
  { cbn. rewrite Z.add_0_r. split; [intros [= <-]; split_and!; [constructor|done|lia]|].
    by intros (_ & -> & _). }
  cbn [encoded_size flat_map]. rewrite length_app, Nat2Z.inj_add, length_peer_bytes by done.
  rewrite Forall_cons. unfold counts_ok at 1.
  rewrite wrap_small by (unfold in_width, PEER_TABLE_MAX_WIRE_BYTES in *; lia).
  set (n := 32 + 32 + 1 + 1 + 1 + _ * 32 + _) in *. assert (0 <= n) by (unfold n, PEER_TABLE_PREFIX_BYTES; lia).
  unfold PEER_TABLE_MAX_PATH_HOPS, PEER_TABLE_MAX_PREFIXES.
  destruct (Z.ltb_spec 8 (Z.of_nat (length (adv_path p))));
    [split; [done|intros [[[? ?] ?] ?]; lia]|].
  destruct (Z.ltb_spec 16 (Z.of_nat (length (adv_prefixes p))));
    [split; [done|intros [[[? ?] ?] ?]; lia]|]. cbn [orb].
  destruct (Z.ltb_spec (PEER_TABLE_MAX_WIRE_BYTES - acc) n); [split; [done|lia]|].
  rewrite IH by lia. rewrite Z.add_assoc. naive_solver.
Qed.

Definition table_bytes (peers : list AdvertisedPeer) : list byte :=
  be_split 1 4 ++ be_split 2 (Z.of_nat (length peers)) ++
  flat_map (λ p, peer_bytes (canonical_peer p)) peers.

Lemma emits_table peers :
  Forall sendable_peer peers ->
  Emits (write_u8 PEER_TABLE_VERSION &> write_u16 (Z.of_nat (length peers)) &>
         write_each write_peer peers) (table_bytes peers).
Proof.
  intros Hs. unfold table_bytes. repeat (simple eapply emits_and; [solve_emits|]).
  apply emits_each. intros p Hp. apply emits_peer. rewrite Forall_forall in Hs. auto.
Qed.

Lemma refuses_table peers :
  ~ Forall sendable_peer peers ->
  Refuses (write_u8 PEER_TABLE_VERSION &> write_u16 (Z.of_nat (length peers)) &>
           write_each write_peer peers).
Proof.
  intros Hs. apply not_Forall_Exists in Hs; [|apply _].
  apply Exists_exists in Hs as (p & Hp & Hn).
  do 2 (eapply refuses_and_r; [solve_emits|]).
  eapply (refuses_each _ (λ p, peer_bytes (canonical_peer p))); [|done|by apply refuses_peer].
  intros y _. destruct (decide (sendable_peer y)); [left; by apply emits_peer|].
  right. by apply refuses_peer.
Qed.

Lemma canonical_peers_wf peers :
  Forall peer_typed peers -> Forall sendable_peer peers ->
  Forall counts_ok peers ->
  Forall peer_wf (map canonical_peer peers).
Proof.
  rewrite !Forall_forall. intros Hty Hs Hc q Hq.
  apply list_elem_of_fmap in Hq as (p & -> & Hp).
  destruct (Hty p Hp) as (H1 & H2 & H3 & H4). destruct (Hc p Hp) as [Hl1 Hl2].
  specialize (Hs p Hp). unfold peer_wf, canonical_peer, sendable_peer in *.
  cbn [adv_node adv_key adv_path adv_prefixes]. rewrite length_map. split_and!; try done.
  apply Forall_forall. intros a' Ha'. apply list_elem_of_fmap in Ha' as (a & -> & Ha).
  rewrite Forall_forall in H4, Hs. apply canonical_adv_wf; auto.
Qed.

Lemma deserialize_table_bytes peers :
  Forall peer_wf (map canonical_peer peers) ->
  3 <= Z.of_nat (length (table_bytes peers)) <= PEER_TABLE_MAX_WIRE_BYTES ->
  Z.of_nat (length peers) <= 128 ->
  deserialize_peer_table (table_bytes peers) = Some (map canonical_peer peers).
Proof.
  intros Hwf Hlen Hc. unfold deserialize_peer_table.
  rewrite (proj2 (Z.ltb_ge _ _)), (proj2 (Z.ltb_ge _ _)) by lia. cbn [orb].
  unfold table_bytes. rewrite wire_reader_at.
  assert (u16 (Z.of_nat (length peers))) by (unfold in_width; lia).
  rewrite (reads_ok (f := read_u8)) by done. rewrite (reads_ok (f := read_u16)) by done.
  cbn [Z.eqb negb andb orb PEER_TABLE_VERSION]. unfold PEER_TABLE_MAX_PEERS.
  change (negb (Pos.eqb 4 3) && negb (Pos.eqb 4 4)) with false. cbn [orb].
  rewrite (proj2 (Z.ltb_ge _ _)) by lia.
  replace (flat_map (λ p, peer_bytes (canonical_peer p)) peers)
    with (flat_map peer_bytes (map canonical_peer peers))
    by (rewrite !flat_map_concat_map, map_map; done).
  rewrite <- (app_nil_r (flat_map peer_bytes _)), Nat2Z.id, <- (length_map canonical_peer peers).
  rewrite read_peers_ok by done. by rewrite rd_finished_at.
Qed.

Lemma serialize_table_eq peers :
  Forall peer_typed peers ->
  serialize_peer_table peers =
    if decide (Z.of_nat (length peers) <= PEER_TABLE_MAX_PEERS /\ Forall counts_ok peers /\
               Forall sendable_peer peers /\
               Z.of_nat (length (table_bytes peers)) <= PEER_TABLE_MAX_WIRE_BYTES)
    then Some (table_bytes peers) else None.
Proof.
  intros Hty. unfold serialize_peer_table.
  destruct (Z.ltb_spec PEER_TABLE_MAX_PEERS (Z.of_nat (length peers)));
    [rewrite decide_False; [done|lia]|].
  assert (Z.of_nat (length (table_bytes peers)) =
    3 + Z.of_nat (length (flat_map (λ p, peer_bytes (canonical_peer p)) peers))) as Hl
    by (unfold table_bytes; rewrite !length_app, !length_be_split; lia).
  pose proof (λ size, encoded_size_spec peers 3 size Hty) as Hsize.
  destruct (encoded_size peers 3) as [size|] eqn:E.
  - destruct (proj1 (Hsize size ltac:(unfold PEER_TABLE_MAX_WIRE_BYTES; lia)) eq_refl)
      as (Hc & Hsz & Hm).
    destruct (decide (Forall sendable_peer peers)) as [Hs|Hs].
    + rewrite (encode_exact_emits _ _ (table_bytes peers)) by (by apply emits_table).
      rewrite !decide_True; [done|split_and!; try done; lia|lia].
    + rewrite decide_False by tauto. by apply encode_exact_refuses, refuses_table.
  - rewrite decide_False; [done|]. intros (_ & Hc & _ & Hm).
    destruct (Hsize (Z.of_nat (length (table_bytes peers)))
      ltac:(unfold PEER_TABLE_MAX_WIRE_BYTES; lia)) as [_ Hx].
    discriminate Hx. split_and!; [done|lia|done].
Qed.

(** ** Properties *)

(** ** What is received is well typed *)

#[local] Instance yields_address version : Yields (read_address version) ip_wf.
Proof.
  intros r a r' H. unfold read_address in H. destruct (version =? 3).
  - destruct (read_u32 r) as [[v|] r1]; [|done]. injection H as <- <-.
    unfold ip_wf. by rewrite from_ipv4_bytes.
  - rd_yield H. repeat case_match; try done. by injection H as <- <-.
Qed.

#[local] Instance yields_prefix version : Yields (read_prefix version) prefix_typed.
Proof.
  intros r a r' H. unfold read_prefix in H. rd_yield H.
  case_match; [done|]. injection H as <- <-. by split_and!.
Qed.

#[local] Instance yields_peer version : Yields (read_peer version) peer_typed.
Proof.
  intros r p r' H. unfold read_peer in H. rd_yield H. case_match; [done|].
  rd_yield H. case_match; [done|]. rd_yield H. injection H as <- <-. by split_and!.
Qed.

Lemma deserialize_peer_table_typed data ps :
  deserialize_peer_table data = Some ps -> Forall peer_typed ps.
Proof.
  unfold deserialize_peer_table. case_match; [done|]. intros Hd.
  generalize dependent (wire_reader data). intros r Hd. rd_yield Hd.
  case_match; [done|]. rd_yield Hd. case_match; [|done]. by injection Hd as <-.
Qed.

(** C38: a peer table survives the wire.  Exactly the tables within the limits (at most 128
    peers with at most 8 hops and 16 valid prefixes each, 60 KiB in all) are serialized,
    and the receiver decodes the message to the same peers, keys, paths and prefixes,
    each prefix in canonical form. *)
Theorem peer_table_round_trip peers :
  Forall peer_typed peers ->
  (is_Some (serialize_peer_table peers) <->
   Z.of_nat (length peers) <= PEER_TABLE_MAX_PEERS /\ Forall counts_ok peers /\
   Forall sendable_peer peers /\
   Z.of_nat (length (table_bytes peers)) <= PEER_TABLE_MAX_WIRE_BYTES) /\
  (forall bs, serialize_peer_table peers = Some bs ->
   deserialize_peer_table bs = Some (map canonical_peer peers)).
Proof.
  intros Hty. rewrite serialize_table_eq by done.
  case_decide as Hd; split.
  - split; [done|by eexists].
  - intros bs <-%(inj Some). destruct Hd as (Hc & Hcnt & Hs & Hl).
    apply deserialize_table_bytes; [by apply canonical_peers_wf| |done].
    split; [|done]. unfold table_bytes. rewrite !length_app, !length_be_split. lia.
  - split; [by intros [? ?]|done].
  - done.
Qed.

(** ** What a merge does to the routing table *)

(** The parts of a candidate that [add_route] takes from the route. *)
Definition made_from (r c : Route) : Prop :=
  prefix c = canonical_prefix (prefix r) (prefix_length r) /\
  prefix_length c = prefix_length r /\ type c = type r /\ next_hop c = next_hop r /\
  destination c = destination r /\ path c = path r /\
  origin c = (if bool_decide (origin r = zero32) then destination r else origin r) /\
  sequence_number c = sequence_number r.

(** [add_route] either changes nothing, or stores a candidate made from the route in
    the place of the same candidate or at the end. *)
Lemma add_route_cases r e b e' :
  add_route r e = (b, e') ->
  (b = false /\ e' = e) \/
  (b = true /\ exists c, made_from r c /\
     ((exists i old, routes e !! i = Some old /\ same_candidate old c /\
        routes e' = <[i := c]> (routes e)) \/
      routes e' = routes e ++ [c])).
Proof.
  unfold add_route. do 3 (case_match; [by intros [= <- <-]; auto|]).
  destruct (list_find _ _) as [[i x]|] eqn:Ef.
  - apply list_find_Some in Ef as (Hx & Hsame & _). intros [= <- <-]. right. split; [done|].
    eexists. split; [|left; exists i, x; split; [done|]; split; [|done]]; by case_match.
  - do 2 (case_match; [by intros [= <- <-]; auto|]). intros [= <- <-]. right. split; [done|].
    eexists. split; [|by right]. done.
Qed.

(** A route with valid fields is stored when its candidate is new and there is room. *)
Lemma add_route_succeeds r e :
  valid_prefix_length (prefix r) (prefix_length r) = true -> type r = Relay ->
  valid_hops r = true -> sequence_number r <> 0 -> 0 < lease r <= ROUTE_MAX_LEASE ->
  metric r <= ROUTE_MAX_METRIC ->
  (length (routes e) < max_routes e)%nat ->
  (prefix_count (canonical_prefix (prefix r) (prefix_length r), prefix_length r) (routes e) <
   ROUTING_MAX_CANDIDATES_PER_PREFIX)%nat ->
  fst (add_route r e) = true.
Proof.
  intros Hv Ht Hh Hs Hl Hm Hroom Hcount. unfold add_route. rewrite Hv, Ht, Hh.
  cbv zeta. cbn [negb orb sequence_number lease metric make_candidate].
  rewrite bool_decide_eq_false_2 by done. rewrite (proj2 (Z.eqb_neq _ _) Hs).
  rewrite (proj2 (Z.leb_gt _ _)), (proj2 (Z.ltb_ge _ _)), (proj2 (Z.ltb_ge _ _)) by lia.
  cbn [orb]. destruct (list_find _ _) as [[i x]|]; [done|].
  rewrite (proj2 (Nat.leb_gt _ _)) by done. rewrite count_filter.
  rewrite (proj2 (Nat.leb_gt _ _)) by done. done.
Qed.

(** Learned routes come from their origin and avoid the node itself. *)
Definition learned_ok (self : NodeId) (r : Route) : Prop :=
  0 < sequence_number r /\ (type r = Relay -> origin r = destination r /\ self ∉ path r).

(** For every learned route there is still one for the same prefix and origin that is
    at least as fresh. *)
Definition fresher (rs rs' : list Route) : Prop :=
  forall r, r ∈ rs -> type r = Relay ->
  exists r', r' ∈ rs' /\ type r' = Relay /\ prefix r' = prefix r /\
    prefix_length r' = prefix_length r /\ origin r' = origin r /\
    sequence_number r <= sequence_number r'.

Lemma fresher_refl rs : fresher rs rs.
Proof. intros r Hr Ht. exists r. by split_and!. Qed.

Lemma fresher_trans rs1 rs2 rs3 : fresher rs1 rs2 -> fresher rs2 rs3 -> fresher rs1 rs3.
Proof.
  intros H12 H23 r Hr Ht. destruct (H12 r Hr Ht) as (r2 & Hr2 & Ht2 & E1 & E2 & E3 & Hs2).
  destruct (H23 r2 Hr2 Ht2) as (r3 & Hr3 & Ht3 & F1 & F2 & F3 & Hs3).
  exists r3. split_and!; try done; try congruence. lia.
Qed.

Lemma learned_for_spec c len o r :
  learned_for c len o r = true <->
  type r = Relay /\ prefix r = c /\ prefix_length r = len /\ origin r = o.
Proof.
  unfold learned_for. rewrite !andb_true_iff, !bool_decide_eq_true, Z.eqb_eq. tauto.
Qed.

Lemma highest_sequence_from c len o rs h :
  let H := foldl (λ h r, if learned_for c len o r then Z.max h (sequence_number r) else h) h rs in
  h <= H /\
  (forall r, r ∈ rs -> learned_for c len o r = true -> sequence_number r <= H) /\
  (H = h \/ exists r, r ∈ rs /\ learned_for c len o r = true /\ sequence_number r = H).
Proof.
  revert h. induction rs as [|x rs IH]; intros h; cbn [foldl].
  { split_and!; [lia|by intros r ?%not_elem_of_nil|by left]. }
  destruct (IH (if learned_for c len o x then Z.max h (sequence_number x) else h))
    as (H1 & H2 & H3).
  set (F := foldl _ _ rs) in *. split_and!.
  - case_match; lia.
  - intros r [->|Hr]%elem_of_cons Hl; [rewrite Hl in H1; lia|auto].
  - destruct H3 as [H3|(r & Hr & Hl & Hs)].
    + destruct (learned_for c len o x) eqn:Hx; [|by left].
      destruct (Z.max_spec h (sequence_number x)) as [[_ Hm]|[_ Hm]]; rewrite Hm in H3;
        [right; exists x; split_and!; [apply elem_of_cons; by left|done|done]|by left].
    + right. exists r. split_and!; [apply elem_of_cons; by right|done|done].
Qed.

Lemma highest_sequence_spec c len o rs :
  (forall r, r ∈ rs -> learned_for c len o r = true ->
     sequence_number r <= highest_sequence c len o rs) /\
  (highest_sequence c len o rs = 0 \/
   exists r, r ∈ rs /\ learned_for c len o r = true /\
     sequence_number r = highest_sequence c len o rs).
Proof. destruct (highest_sequence_from c len o rs 0) as (_ & H2 & H3). by split. Qed.

Lemma avoids_spec self seen hops :
  avoids self seen hops = true <->
  NoDup hops /\ (self ∉ hops) /\ (forall h, h ∈ hops -> h ∉ seen).
Proof.
  revert seen. induction hops as [|h hops IH]; intros seen; simpl.
  { split; [|done]. intros _. split_and!; [by constructor|apply not_elem_of_nil|].
    by intros h ?%not_elem_of_nil. }
  destruct (_ || _) eqn:Hg.
  - split; [done|]. intros (_ & Hs & Hn). apply orb_true_iff in Hg as [Hg|Hg];
      apply bool_decide_eq_true in Hg.
    + subst. destruct Hs. by apply elem_of_cons, or_introl.
    + exfalso. apply (Hn h); [by apply elem_of_cons, or_introl|done].
  - apply orb_false_iff in Hg as [H1%bool_decide_eq_false H2%bool_decide_eq_false].
    rewrite IH, NoDup_cons, not_elem_of_cons. split.
    + intros (Hnd & Hs & Hn). split_and!; try done.
      * intros Hin. apply (Hn h Hin). set_solver.
      * intros x [->|Hx]%elem_of_cons; [done|]. specialize (Hn x Hx). set_solver.
    + intros ((Hni & Hnd) & (Hs & Hs') & Hn). split_and!; try done. intros x Hx.
      specialize (Hn x ltac:(by apply elem_of_cons, or_intror)).
      assert (x <> h) by congruence. set_solver.
Qed.

(** Erasing a route makes room, in the table and for its prefix. *)
Lemma erase_strict f e x :
  x ∈ routes e -> f x = true ->
  (length (routes (erase_if f e)) < length (routes e))%nat /\
  (prefix_count (prefix x, prefix_length x) (routes (erase_if f e)) <
   prefix_count (prefix x, prefix_length x) (routes e))%nat.
Proof.
  unfold erase_if. cbn [with_routes routes]. set (pk := (prefix x, prefix_length x)).
  assert (forall l, (length (filter (λ r, f r = false) l) <= length l)%nat /\
    (prefix_count pk (filter (λ r, f r = false) l) <= prefix_count pk l)%nat) as Hle.
  { intros l. split; [apply length_filter|]. unfold prefix_count.
    apply sublist_length, filter_sublist_mono, fmap_sublist, sublist_filter. }
  assert (forall r l, prefix_count pk (r :: l) =
    ((if decide (fst (candidate_key r) = pk) then 1 else 0) + prefix_count pk l)%nat) as Hcons.
  { intros r l. unfold prefix_count. rewrite fmap_cons, filter_cons. by case_decide. }
  induction (routes e) as [|y l IH]; [by intros ?%not_elem_of_nil|].
  intros Hx Hf. specialize (Hle l) as [Hl1 Hl2]. apply elem_of_cons in Hx as [<-|Hx].
  - rewrite filter_cons_False by congruence. rewrite Hcons, decide_True by done.
    cbn [length]. lia.
  - destruct (IH Hx Hf) as [H1 H2]. rewrite filter_cons, !Hcons. case_decide.
    + rewrite Hcons. cbn [length]. lia.
    + cbn [length]. lia.
Qed.

Lemma merged_path_valid self sender p a validated :
  path_usable self sender p = true -> adv_node p <> sender ->
  valid_hops (merged_route sender p a validated) = true /\ self ∉ merged_path sender p.
Proof.
  intros Hu Hne. unfold path_usable in Hu.
  apply andb_true_iff in Hu as [Hlast%bool_decide_eq_true (Hnd & Hs & _)%avoids_spec].
  split; [|done]. unfold valid_hops, complete_path, merged_route.
  cbn [type next_hop destination path]. rewrite bool_decide_eq_false_2 by congruence.
  rewrite !andb_true_iff, !bool_decide_eq_true. cbn [negb]. split_and!; try done.
  - unfold merged_path. destruct (adv_path p); [done|]. rewrite app_nil_r. done.
  - apply loop_free_spec. split; [done|]. set_solver.
Qed.

Definition merge_inv (self : NodeId) (e : RoutingEngine) : Prop :=
  engine_inv e /\ Forall (learned_ok self) (routes e).

(** Storing the route of an advertised prefix that is not older than what is known. *)
Lemma add_merged self sender p a validated e b e' :
  merge_inv self e -> path_usable self sender p = true -> adv_node p <> sender ->
  prefix_typed a -> 0 < adv_sequence a ->
  let canonical := canonical_prefix (adv_prefix a) (adv_length a) in
  (forall r, r ∈ routes e -> learned_for canonical (adv_length a) (adv_node p) r = true ->
     sequence_number r <= adv_sequence a) ->
  add_route (merged_route sender p a validated) e = (b, e') ->
  merge_inv self e' /\ fresher (routes e) (routes e') /\
  (b = true -> exists c, c ∈ routes e' /\ type c = Relay /\ prefix c = canonical /\
     prefix_length c = adv_length a /\ origin c = adv_node p /\
     sequence_number c = adv_sequence a).
Proof.
  intros [Hinv Hlrn] Hu Hne (Hip & Hlen & _) Hseq canonical Hnew Hadd.
  destruct (merged_path_valid self sender p a validated Hu Hne) as [_ Hself].
  assert (engine_inv e') as Hinv'.
  { change e' with (snd (b, e')). rewrite <- Hadd. apply add_route_inv; [|done].
    split; [done|]. unfold in_width in Hlen. simpl. lia. }
  destruct (add_route_cases _ _ _ _ Hadd) as [[-> ->]|(-> & c & Hc & Hst)].
  { split_and!; [by split|apply fresher_refl|done]. }
  destruct Hc as (C1 & C2 & C3 & C4 & C5 & C6 & C7 & C8).
  cbn [merged_route prefix prefix_length type next_hop destination path origin sequence_number] in *.
  assert (origin c = adv_node p) as Ho by (rewrite C7; by case_bool_decide).
  assert (learned_ok self c) as Hlc.
  { split; [lia|]. intros _. rewrite Ho, C5, C6. done. }
  assert (c ∈ routes e') as Hin.
  { destruct Hst as [(i & old & Hi & _ & ->)| ->].
    - eapply list_elem_of_lookup_2. apply list_lookup_insert_eq. by eapply lookup_lt_Some.
    - apply elem_of_app. right. by apply list_elem_of_singleton. }
  split_and!; [split; [done|]| |intros _; by exists c].
  - destruct Hst as [(i & old & Hi & _ & ->)| ->].
    + by apply Forall_insert.
    + apply Forall_app. by split; [|constructor].
  - intros r Hr Ht. destruct Hst as [(i & old & Hi & (S1 & S2 & S3 & S4 & S5) & E)|E]; rewrite E in *.
    2:{ exists r. split_and!; try done. apply elem_of_app. by left. }
    apply list_elem_of_lookup_1 in Hr as [j Hj]. destruct (decide (j = i)) as [->|Hji].
    + assert (r = old) as -> by congruence.
      assert (origin old = adv_node p) as Hoo.
      { rewrite Forall_lookup in Hlrn. destruct (Hlrn i old Hi) as [_ Hx].
        destruct (Hx Ht) as [-> _]. congruence. }
      exists c. split_and!; [done|congruence..|]. rewrite C8. apply Hnew.
      * by eapply list_elem_of_lookup_2.
      * apply learned_for_spec. subst canonical. split_and!; congruence.
    + exists r. split_and!; try done. apply list_elem_of_lookup_2 with j.
      by rewrite list_lookup_insert_ne.
Qed.

(** Removing the older routes and storing a newer one: what was removed made the room
    the new route needs. *)
Lemma replace_older self sender p a validated e b e' :
  merge_inv self e -> path_usable self sender p = true -> adv_node p <> sender ->
  prefix_typed a -> 0 < adv_sequence a -> 0 < adv_lease a <= ROUTE_MAX_LEASE ->
  adv_metric a < ROUTE_MAX_METRIC ->
  let canonical := canonical_prefix (adv_prefix a) (adv_length a) in
  (forall r, r ∈ routes e -> learned_for canonical (adv_length a) (adv_node p) r = true ->
     sequence_number r < adv_sequence a) ->
  add_route (merged_route sender p a validated)
    (snd (remove_older_learned_routes (adv_node p) (adv_prefix a) (adv_length a)
            (adv_sequence a) e)) = (b, e') ->
  merge_inv self e' /\ fresher (routes e) (routes e').
Proof.
  intros Hm Hu Hne Hty Hseq Hlease Hmet canonical Hnew Hadd.
  unfold remove_older_learned_routes in Hadd. fold canonical in Hadd.
  destruct (valid_prefix_length (adv_prefix a) (adv_length a)) eqn:Hv; cbn [negb] in Hadd.
  2:{ destruct (add_merged self sender p a validated e b e') as (? & ? & _); try done.
      intros r Hr Hl. specialize (Hnew r Hr Hl). lia. }
  cbn [snd] in Hadd. set (f := λ r, _ && _ && _ && _ && _) in Hadd.
  assert (forall r, f r = true <-> learned_for canonical (adv_length a) (adv_node p) r = true /\
            sequence_number r < adv_sequence a) as Hf.
  { intros r. unfold f. rewrite learned_for_spec, !andb_true_iff, !bool_decide_eq_true,
      Z.eqb_eq, Z.ltb_lt. tauto. }
  set (e1 := erase_if f e) in *. assert (merge_inv self e1) as Hm1.
  { destruct Hm as [Hi Hl]. split; [by apply erase_inv|].
    eapply Forall_sublist; [apply sublist_filter|exact Hl]. }
  destruct (add_merged self sender p a validated e1 b e') as (Hm' & Hfr & Hc); try done.
  { intros r Hr Hl. apply list_elem_of_filter in Hr as [_ Hr]. specialize (Hnew r Hr Hl). lia. }
  split; [done|]. intros r Hr Ht. destruct (f r) eqn:Hfr1.
  - assert (b = true) as ->.
    { change b with (fst (b, e')). rewrite <- Hadd.
      destruct (erase_strict f e r Hr Hfr1) as [Hs1 Hs2].
      apply Hf in Hfr1 as [(_ & Hp & Hl & _)%learned_for_spec _].
      destruct Hm as [Hi _]. pose proof (inv_max _ Hi). pose proof (inv_prefix _ Hi (prefix r, prefix_length r)).
      rewrite Hp, Hl in *.
      assert (max_routes e1 = max_routes e) as Hmx by done. fold e1 in Hs1, Hs2.
      apply add_route_succeeds;
        cbn [merged_route prefix prefix_length type sequence_number lease metric];
        [done|done|by apply (merged_path_valid self)|lia|done| |lia|fold canonical; lia].
      destruct Hty as (_ & _ & _ & _ & Hmu). unfold in_width, ROUTE_MAX_METRIC in *.
      rewrite wrap_small by (unfold in_width; lia). lia. }
    destruct (Hc eq_refl) as (c & Hin & C1 & C2 & C3 & C4 & C5).
    apply Hf in Hfr1 as [(_ & Hp & Hl & Ho)%learned_for_spec Hs].
    exists c. split_and!; [done|done|by rewrite Hp|by rewrite Hl|by rewrite Ho|lia].
  - apply Hfr; [|done]. by apply list_elem_of_filter.
Qed.

(** One advertised prefix. *)
Lemma merge_prefix_inv self sender p validated a re stats bad re' stats' bad' :
  merge_inv self re -> adv_node p <> sender -> prefix_typed a ->
  merge_prefix self sender p validated a (re, stats, bad) = (re', stats', bad') ->
  merge_inv self re' /\ fresher (routes re) (routes re').
Proof.
  intros Hm Hne Hty Hmp.
  assert (forall b, (re, b, bad') = (re', stats', bad') ->
    merge_inv self re' /\ fresher (routes re) (routes re')) as Hsame
    by (intros b [= -> _]; split; [done|apply fresher_refl]).
  unfold merge_prefix in Hmp. case_match eqn:Hg; [by simplify_eq; eapply Hsame|].
  destruct (path_usable self sender p) eqn:Hu; cbn [negb] in Hmp;
    [|by simplify_eq; eapply Hsame].
  rewrite !orb_false_iff, !Z.ltb_ge, !Z.eqb_neq, Z.leb_gt in Hg.
  destruct Hg as ((((Hw & Hs0) & Hl0) & Hlm) & Hmm).
  pose proof Hty as (_ & Hlen & Hsu & Hlu & _). unfold in_width in Hlen, Hsu, Hlu.
  assert (0 < adv_sequence a) by lia. assert (0 < adv_lease a <= ROUTE_MAX_LEASE) by lia.
  cbv zeta in Hmp.
  cbn [merged_route prefix prefix_length sequence_number origin path metric] in Hmp.
  assert (prefix_address (make_prefix (adv_prefix a) (adv_length a)) =
          canonical_prefix (adv_prefix a) (adv_length a)) as Hcan
    by (unfold canonical_prefix; by rewrite wrap_small by (unfold in_width; lia)).
  rewrite Hcan in Hmp. set (canonical := canonical_prefix _ _) in *.
  destruct (highest_sequence_spec canonical (adv_length a) (adv_node p) (routes re)) as [Hhi _].
  set (highest := highest_sequence _ _ _ _) in *.
  destruct (Z.ltb_spec (adv_sequence a) highest); [by simplify_eq; eapply Hsame|].
  assert (forall r, r ∈ routes re -> learned_for canonical (adv_length a) (adv_node p) r = true ->
    sequence_number r <= adv_sequence a) as Hle
    by (intros r Hr Hl; specialize (Hhi r Hr Hl); lia).
  assert (forall b e', add_route (merged_route sender p a validated) re = (b, e') ->
    merge_inv self e' /\ fresher (routes re) (routes e')) as Hplain.
  { intros b e' Ha. by destruct (add_merged self sender p a validated re b e') as (? & ? & _). }
  assert (forall re2 s2 b2, match add_route (merged_route sender p a validated)
      (if highest <? adv_sequence a
       then snd (remove_older_learned_routes (adv_node p) (adv_prefix a) (adv_length a)
                   (adv_sequence a) re) else re) with
      | (true, re) => (re, count_installed stats, bad)
      | (false, re) => (re, count_capacity stats, bad) end = (re2, s2, b2) ->
    merge_inv self re2 /\ fresher (routes re) (routes re2)) as Hins.
  { intros re2 s2 b2. set (re1 := if highest <? adv_sequence a then _ else re).
    destruct (add_route _ re1) as [b e'] eqn:Ha. intros Heq.
    assert (e' = re2) as <- by (destruct b; congruence).
    subst re1. destruct (Z.ltb_spec highest (adv_sequence a)); [|by eapply Hplain].
    eapply replace_older; try done. intros r Hr Hl. specialize (Hhi r Hr Hl). lia. }
  destruct (list_find _ _) as [[i x]|]; [|by eapply Hins].
  destruct (adv_sequence a =? sequence_number x); [|by eapply Hins].
  destruct (negb _ || negb _); [by simplify_eq; eapply Hsame|].
  destruct (add_route _ re) as [b e'] eqn:Ha. apply pair_eq in Hmp as [[<- _]%pair_eq _].
  by eapply Hplain.
Qed.

Lemma merge_prefixes_inv self sender p validated l acc :
  adv_node p <> sender -> Forall prefix_typed l -> merge_inv self (fst (fst acc)) ->
  let acc' := foldl (λ acc a, merge_prefix self sender p validated a acc) acc l in
  merge_inv self (fst (fst acc')) /\ fresher (routes (fst (fst acc))) (routes (fst (fst acc'))).
Proof.
  intros Hne Hl. revert acc. induction Hl as [|a l Ha Hl IH]; intros acc Hm; simpl.
  { split; [done|apply fresher_refl]. }
  destruct acc as [[re stats] bad]. cbn [fst] in *.
  destruct (merge_prefix self sender p validated a (re, stats, bad)) as [[re1 s1] b1] eqn:E.
  destruct (merge_prefix_inv _ _ _ _ _ _ _ _ _ _ _ Hm Hne Ha E) as [Hm1 Hf1].
  destruct (IH (re1, s1, b1) Hm1) as [Hm2 Hf2]. split; [done|].
  eapply fresher_trans; [exact Hf1|exact Hf2].
Qed.

(** ** What a merge does to the peers *)

Section identities.
Context `{OpenSSL}.

(** A key on record hashes to the node it belongs to. *)
Definition identities_ok (pm : PeerManager) : Prop :=
  forall id p, peers pm !! id = Some p ->
  public_key p = zero32 \/ hash_public_key (public_key p) = id.

(** Gossip leaves the local knowledge about a peer alone: trust, endpoint, candidates,
    state and liveness; a peer it introduces is untrusted and has no endpoint. *)
Definition gossip_extends (pm pm' : PeerManager) : Prop :=
  (forall id p, peers pm !! id = Some p -> exists p', peers pm' !! id = Some p' /\
     trusted p' = trusted p /\ endpoint p' = endpoint p /\
     endpoint_candidates p' = endpoint_candidates p /\ state p' = state p /\
     last_seen p' = last_seen p /\ (public_key p <> zero32 -> public_key p' = public_key p)) /\
  (forall id p', peers pm !! id = None -> peers pm' !! id = Some p' ->
     trusted p' = false /\ endpoint p' = None).

Lemma gossip_extends_refl pm : gossip_extends pm pm.
Proof. split; [intros id p Hp; exists p; naive_solver|congruence]. Qed.

Lemma gossip_extends_trans pm1 pm2 pm3 :
  gossip_extends pm1 pm2 -> gossip_extends pm2 pm3 -> gossip_extends pm1 pm3.
Proof.
  intros [H1 N1] [H2 N2]. split.
  - intros id p Hp. destruct (H1 id p Hp) as (p2 & Hp2 & E1 & E2 & E3 & E4 & E5 & K1).
    destruct (H2 id p2 Hp2) as (p3 & Hp3 & F1 & F2 & F3 & F4 & F5 & K2).
    exists p3. split_and!; try congruence. intros Hk. specialize (K1 Hk).
    rewrite K2; congruence.
  - intros id p' Hn Hp'. destruct (peers pm2 !! id) as [p2|] eqn:Hp2; [|by eapply N2].
    destruct (N1 id p2 Hn Hp2) as [Ht He].
    destruct (H2 id p2 Hp2) as (p3 & Hp3 & F1 & F2 & _). split; congruence.
Qed.

Lemma upsert_gossip id key now pm res pm' :
  key <> zero32 -> hash_public_key key = id -> identities_ok pm ->
  upsert id key None false now pm = (res, pm') -> identities_ok pm' /\ gossip_extends pm pm'.
Proof.
  intros Hk Hh Hok. unfold upsert.
  destruct (peers pm !! id) as [p|] eqn:Hp.
  2:{ case_match; [by intros [= _ <-]; split; [|apply gossip_extends_refl]|].
      intros [= _ <-]. split.
      - intros i q. cbn [peers with_peers]. intros [[<- <-]|[_ Hq]]%lookup_insert_Some; [by right|by apply Hok].
      - split.
        + intros i q Hq. assert (i <> id) by congruence. exists q. simpl.
          rewrite lookup_insert_ne by done. naive_solver.
        + intros i q Hn. cbn [peers with_peers].
          intros [[<- <-]|[_ Hq]]%lookup_insert_Some; [done|congruence]. }
  case_match eqn:Hconf; [by intros [= _ <-]; split; [|apply gossip_extends_refl]|].
  set (kr := if _ && _ then _ else _). destruct kr as [key' r] eqn:Hkr. subst kr.
  intros [= _ <-].
  assert ((public_key p <> zero32 -> key' = public_key p) /\
          (key' = public_key p \/ key' = key)) as [Hk1 Hk2].
  { unfold is_empty_key in Hkr. case_bool_decide; case_bool_decide; simplify_eq/=; naive_solver. }
  split.
  - intros i q. cbn [peers with_peers].
    intros [[<- <-]|[_ Hq]]%lookup_insert_Some; [|by apply Hok]. simpl.
    destruct Hk2 as [-> | ->]; [by apply Hok|by right].
  - split.
    + intros i q Hq. destruct (decide (i = id)) as [->|Hne].
      * assert (q = p) as -> by congruence. eexists. simpl. rewrite lookup_insert_eq.
        split_and!; try done. simpl. by rewrite orb_false_r.
      * exists q. simpl. rewrite lookup_insert_ne by done. naive_solver.
    + intros i q Hn. cbn [peers with_peers].
      intros [[<- <-]|[_ Hq]]%lookup_insert_Some; congruence.
Qed.

Lemma upsert_identities id key ep trust now pm :
  hash_public_key key = id -> identities_ok pm ->
  identities_ok (snd (upsert id key ep trust now pm)).
Proof.
  intros Hh Hok. unfold upsert. destruct (peers pm !! id) as [p|] eqn:Hp.
  - case_match; [done|]. set (kr := if _ && _ then _ else _). destruct kr as [k r] eqn:Hkr.
    subst kr. intros i q. cbn [snd peers with_peers].
    intros [[<- <-]|[_ Hq]]%lookup_insert_Some; [|by apply Hok]. cbn [public_key].
    assert (k = public_key p \/ k = key) as [-> | ->]; [|by apply Hok|by right].
    destruct (is_empty_key (public_key p) && negb (is_empty_key key)); simplify_eq; auto.
  - case_match; [done|]. intros i q. cbn [snd peers with_peers].
    intros [[<- <-]|[_ Hq]]%lookup_insert_Some; [by right|by apply Hok].
Qed.

Lemma update_peer_identities id f pm :
  (forall p, public_key (f p) = public_key p) -> identities_ok pm ->
  identities_ok (update_peer id f pm).
Proof.
  intros Hf Hok i q. rewrite update_peer_lookup. case_decide; [|apply Hok]. subst i.
  rewrite fmap_Some. intros (p & Hp & ->). rewrite Hf. by apply Hok.
Qed.

(** Everything a merge preserves. *)
Definition merged_ok (self : NodeId) (s s' : PeerManager * RoutingEngine) : Prop :=
  identities_ok (fst s') /\ gossip_extends (fst s) (fst s') /\
  merge_inv self (snd s') /\ fresher (routes (snd s)) (routes (snd s')).

Lemma merge_peer_ok self sender validated now p pm re stats pm' re' stats' :
  peer_typed p -> identities_ok pm -> merge_inv self re ->
  merge_peer self sender validated now p pm re stats = (pm', re', stats') ->
  merged_ok self (pm, re) (pm', re').
Proof.
  intros Hty Hid Hm Hmp. unfold merge_peer in Hmp.
  assert (merged_ok self (pm, re) (pm, re)) as Hsame
    by (split_and!; [done|apply gossip_extends_refl|done|apply fresher_refl]).
  destruct (bool_decide _ || bool_decide _) eqn:Hs; [by simplify_eq|].
  apply orb_false_iff in Hs as [_ Hne%bool_decide_eq_false].
  do 2 (case_match; [by simplify_eq|]).
  match goal with H : bool_decide _ || negb _ = false |- _ =>
    apply orb_false_iff in H as [Hk%bool_decide_eq_false Hh%negb_false_iff%bool_decide_eq_true] end.
  destruct (upsert _ _ _ _ _ _) as [res pm1] eqn:Hu.
  destruct (upsert_gossip _ _ _ _ _ _ Hk Hh Hid Hu) as [Hid1 Hg1].
  destruct Hty as (_ & _ & _ & Hpf).
  pose proof (λ acc, merge_prefixes_inv self sender p validated (adv_prefixes p) acc Hne Hpf)
    as Hpre.
  assert (merged_ok self (pm, re) (pm1, re)) as Hsame1
    by (split_and!; [done|done|done|apply fresher_refl]).
  destruct res; try (by simplify_eq);
    match type of Hmp with context [foldl ?f ?acc ?l] =>
      specialize (Hpre acc Hm); destruct (foldl f acc l) as [[re1 s1] b1] end;
    apply pair_eq in Hmp as [[<- <-]%pair_eq _]; cbn [fst] in Hpre; destruct Hpre;
    by split_and!.
Qed.

Lemma merge_peers_ok self sender validated clock advertised i pm re stats pm' re' stats' :
  Forall peer_typed advertised -> identities_ok pm -> merge_inv self re ->
  merge_peers self sender validated clock i advertised pm re stats = (pm', re', stats') ->
  merged_ok self (pm, re) (pm', re').
Proof.
  intros Hty. revert i pm re stats. induction Hty as [|p ps Hp Hps IH]; intros i pm re stats Hid Hm.
  { simpl. intros [= <- <- <-].
    split_and!; [done|apply gossip_extends_refl|done|apply fresher_refl]. }
  cbn [merge_peers].
  destruct (merge_peer self sender validated (clock i) p pm re stats) as [[pm1 re1] s1] eqn:E.
  destruct (merge_peer_ok _ _ _ _ _ _ _ _ _ _ _ Hp Hid Hm E) as (Hid1 & Hg1 & Hm1 & Hf1).
  intros Hrest. destruct (IH _ _ _ _ Hid1 Hm1 Hrest) as (Hid2 & Hg2 & Hm2 & Hf2).
  split_and!; [done|by eapply gossip_extends_trans|done|by eapply fresher_trans].
Qed.

End identities.

(** The sizes of the tables stay what they are, and no peer is lost. *)
Definition same_capacity (s s' : PeerManager * RoutingEngine) : Prop :=
  (peers_ok (fst s) -> peers_ok (fst s')) /\ max_peers (fst s') = max_peers (fst s) /\
  dom (peers (fst s)) ⊆ dom (peers (fst s')) /\ max_routes (snd s') = max_routes (snd s).

Lemma add_route_max r e : max_routes (snd (add_route r e)) = max_routes e.
Proof. unfold add_route. repeat case_match; done. Qed.

Lemma remove_older_max o p len s e :
  max_routes (snd (remove_older_learned_routes o p len s e)) = max_routes e.
Proof. unfold remove_older_learned_routes. by case_match. Qed.

Lemma merge_prefix_max self sender p validated a acc :
  max_routes (fst (fst (merge_prefix self sender p validated a acc))) =
  max_routes (fst (fst acc)).
Proof.
  destruct acc as [[re stats] bad]. unfold merge_prefix. cbn [fst].
  do 3 (case_match; [done|]). repeat case_match; try done; try apply add_route_max.
  all: match goal with E : add_route ?r ?e = (_, _) |- _ =>
    pose proof (add_route_max r e) as Hm; rewrite E in Hm; cbn [fst snd] in *; rewrite Hm end.
  all: try apply remove_older_max; done.
Qed.

Lemma merge_peer_capacity `{OpenSSL} self sender validated now p pm re stats :
  let '(pm', re', _) := merge_peer self sender validated now p pm re stats in
  same_capacity (pm, re) (pm', re').
Proof.
  assert (same_capacity (pm, re) (pm, re)) as Hrefl by done.
  unfold merge_peer. do 3 (destruct (_ || _); [done|]).
  pose proof (peer_step_known (PUpsert (adv_node p) (adv_key p) None false now) pm
    (λ _, eq_refl)) as [Hd Hm].
  pose proof (peer_step_ok (PUpsert (adv_node p) (adv_key p) None false now) pm) as Hok.
  cbn [peer_step] in *. destruct (upsert _ _ _ _ _ pm) as [res pm'] eqn:E. cbn [snd] in *.
  assert (forall acc l, max_routes (fst (fst
    (foldl (λ acc a, merge_prefix self sender p validated a acc) acc l))) =
    max_routes (fst (fst acc))) as Hf.
  { intros acc l. revert acc. induction l as [|a l IH]; intros acc; [done|].
    cbn [foldl]. rewrite IH. apply merge_prefix_max. }
  destruct res; try done.
  all: match goal with |- context [foldl ?f ?acc ?l] =>
    specialize (Hf acc l); destruct (foldl f acc l) as [[re' stats'] bad'] end.
  all: by destruct bad'.
Qed.

Lemma merge_peers_capacity `{OpenSSL} self sender validated clock advertised : forall i pm re stats,
  let '(pm', re', _) := merge_peers self sender validated clock i advertised pm re stats in
  same_capacity (pm, re) (pm', re').
Proof.
  induction advertised as [|p l IH]; intros i pm re stats; cbn [merge_peers]; [done|].
  pose proof (merge_peer_capacity self sender validated (clock i) p pm re stats) as Hp.
  destruct (merge_peer _ _ _ _ _ _ _ _) as [[pm1 re1] stats1].
  specialize (IH (S i) pm1 re1 stats1).
  destruct (merge_peers _ _ _ _ _ _ _ _ _) as [[pm2 re2] stats2].
  destruct Hp as (? & ? & ? & ?), IH as (? & ? & ? & ?). cbn [fst snd] in *.
  split_and!; cbn [fst snd]; [auto|congruence|by etrans|congruence].
Qed.

(** C34: merging a gossiped peer table keeps the routing table sound and never makes it
    older: the table invariant holds, every learned route still comes from its origin
    and avoids this node, and for each learned route there is afterwards one for the
    same prefix and origin with at least its sequence number, even where older routes
    were removed to make room. *)
Theorem merge_keeps_routes_fresh `{OpenSSL} self sender validated clock advertised pm re
    pm' re' stats :
  Forall peer_typed advertised -> identities_ok pm ->
  engine_inv re -> Forall (learned_ok self) (routes re) ->
  merge_peer_table self sender validated clock advertised pm re = (pm', re', stats) ->
  engine_inv re' /\ Forall (learned_ok self) (routes re') /\ fresher (routes re) (routes re').
Proof.
  intros Hty Hid Hi Hl Hm.
  destruct (merge_peers_ok _ _ _ _ _ _ _ _ _ _ _ _ Hty Hid (conj Hi Hl) Hm)
    as (_ & _ & [? ?] & ?). by split_and!.
Qed.

(** Merging a gossiped peer table cannot forge an identity or touch local knowledge:
    every key on record still hashes to its node, no existing key changes, and trust,
    endpoints, candidates, state and liveness of known peers are as before; peers it
    introduces are untrusted and have no endpoint. *)
Theorem merge_respects_identities `{OpenSSL} self sender validated clock advertised pm re
    pm' re' stats :
  Forall peer_typed advertised -> identities_ok pm ->
  engine_inv re -> Forall (learned_ok self) (routes re) ->
  merge_peer_table self sender validated clock advertised pm re = (pm', re', stats) ->
  identities_ok pm' /\ gossip_extends pm pm'.
Proof.
  intros Hty Hid Hi Hl Hm.
  destruct (merge_peers_ok _ _ _ _ _ _ _ _ _ _ _ _ Hty Hid (conj Hi Hl) Hm)
    as (? & ? & _). done.
Qed.

(** ** Examples *)

Section examples.
#[local] Existing Instances toy_openssl.

Definition example_key : Key := replicate 32 x33.
Definition example_peer (seq : Z) : AdvertisedPeer :=
  mkAdvPeer (hash_public_key example_key) example_key []
    [mkAdvPrefix (from_ipv4 167772161) 8 seq 60 2].
Definition example_self : NodeId := replicate 32 x01.
Definition example_sender : NodeId := replicate 32 x02.

Lemma example_peer_typed seq : u64 seq -> peer_typed (example_peer seq).
Proof.
  intros Hs. split_and!; [reflexivity|reflexivity|constructor|].
  constructor; [|constructor].
  split_and!; [reflexivity| |exact Hs| |]; vm_compute; split; first [discriminate|reflexivity].
Qed.

Lemma example_table_typed : Forall peer_typed [example_peer 4; example_peer 5].
Proof.
  apply Forall_cons_2; [|apply Forall_cons_2; [|constructor]];
    apply example_peer_typed; vm_compute; split; first [discriminate|reflexivity].
Qed.

(** A host address inside the advertised /8: the receiver gets the network. *)
Lemma peer_table_round_trip_witness :
  exists bs, serialize_peer_table [example_peer 4] = Some bs /\
  deserialize_peer_table bs = Some [canonical_peer (example_peer 4)] /\
  adv_prefix <$> adv_prefixes (canonical_peer (example_peer 4)) = [from_ipv4 167772160].
Proof.
  assert (serialize_peer_table [example_peer 4] =
          Some (default [] (serialize_peer_table [example_peer 4]))) as E
    by (vm_compute; reflexivity).
  eexists. split; [exact E|]. split; [|vm_compute; reflexivity].
  refine (proj2 (peer_table_round_trip [example_peer 4] _) _ E).
  exact (Forall_take _ 1%nat _ example_table_typed).
Defined.

Definition example_merge : PeerManager * RoutingEngine * PeerTableMergeStats :=
  merge_peer_table example_self example_sender 100 (λ _, 100) [example_peer 4; example_peer 5]
    (peers_init 4) (mkEngine [] 8).
Definition example_pm : PeerManager := fst (fst example_merge).
Definition example_re : RoutingEngine := snd (fst example_merge).

Lemma no_identities max : identities_ok (peers_init max).
Proof. intros id p Hp. cbn in Hp. rewrite lookup_empty in Hp. discriminate. Qed.

(** The second entry of the table replaces the route of the first. *)
Lemma merge_keeps_routes_fresh_witness :
  sequence_number <$> routes example_re = [5] /\ engine_inv example_re.
Proof.
  split; [vm_compute; reflexivity|].
  apply (merge_keeps_routes_fresh example_self example_sender 100 (λ _, 100)
    [example_peer 4; example_peer 5] (peers_init 4) (mkEngine [] 8) example_pm example_re
    (snd example_merge)).
  - exact example_table_typed.
  - apply no_identities.
  - apply (engine_reachable_inv 8), er_init.
  - constructor.
  - exact (run_fst3 example_merge _ eq_refl).
Defined.

Lemma merge_respects_identities_witness :
  option_map trusted (get_peer (hash_public_key example_key) example_pm) = Some false /\
  identities_ok example_pm.
Proof.
  split; [vm_compute; reflexivity|].
  apply (merge_respects_identities example_self example_sender 100 (λ _, 100)
    [example_peer 4; example_peer 5] (peers_init 4) (mkEngine [] 8) example_pm example_re
    (snd example_merge)).
  - exact example_table_typed.
  - apply no_identities.
  - apply (engine_reachable_inv 8), er_init.
  - constructor.
  - exact (run_fst3 example_merge _ eq_refl).
Defined.

End examples.
