(* ===== verification/Gossip.v ===== *)
(** * Gossip of advertisements

    [src/peer/gossip.cpp]: which advertisements a recipient still has to be sent
    ([GossipDeltaTracker]), how they are packed into messages ([make_gossip_batches]), and
    the jitter of the gossip interval.  Every method of the tracker runs under its mutex. *)

From Stdlib Require Import ZArith Lia Bool.
From Stdlib.Strings Require Import Byte.
From stdpp Require Import base numbers gmap sorting option list.
From S2P Require Import Prelude Wire Crypto IpAddress Endpoint Peer Routing PeerTable.
#[local] Open Scope Z_scope.

(** ** Advertisements in canonical order *)

(** [AdvertisedPrefix::operator<]. *)
Definition adv_ltb (a b : AdvertisedPrefix) : bool :=
  let fa := family_value (family (adv_prefix a)) in
  let fb := family_value (family (adv_prefix b)) in
  if negb (fa =? fb) then fa <? fb
  else if negb (bool_decide (ip_bytes (adv_prefix a) = ip_bytes (adv_prefix b)))
  then bytes_ltb (ip_bytes (adv_prefix a)) (ip_bytes (adv_prefix b))
  else if negb (adv_length a =? adv_length b) then adv_length a <? adv_length b
  else if negb (adv_sequence a =? adv_sequence b) then adv_sequence a <? adv_sequence b
  else if negb (adv_lease a =? adv_lease b) then adv_lease a <? adv_lease b
  else adv_metric a <? adv_metric b.

Definition adv_le (a b : AdvertisedPrefix) : Prop := adv_ltb b a = false.
#[export] Instance adv_le_dec : RelDecision adv_le := λ a b, decide (_ = _).

(** [std::unique]: the first of each run of equal elements. *)
Fixpoint unique {A} `{EqDecision A} (l : list A) : list A :=
  match l with
  | [] => []
  | x :: l => match l with
              | [] => [x]
              | y :: _ => if decide (x = y) then unique l else x :: unique l
              end
  end.

Definition canonicalize (p : AdvertisedPeer) : AdvertisedPeer :=
  mkAdvPeer (adv_node p) (adv_key p) (adv_path p) (unique (merge_sort adv_le (adv_prefixes p))).

Definition same_advertisement (l r : AdvertisedPeer) : bool :=
  bool_decide (adv_node l = adv_node r) && bool_decide (adv_key l = adv_key r) &&
  bool_decide (adv_path l = adv_path r) && bool_decide (adv_prefixes l = adv_prefixes r).

(** ** The tracker *)

Record GossipUpdate := mkUpdate { up_peer : AdvertisedPeer; up_revision : Z }.

Record CurrentAdvertisement := mkCurrent { ca_peer : AdvertisedPeer; ca_revision : Z }.

Record GossipDeltaTracker := mkGossip {
  current_ : gmap (list byte) CurrentAdvertisement;
  sent_ : gmap (list byte) (gmap (list byte) Z);
  next_revision_ : Z;
}.

Definition gossip_init : GossipDeltaTracker := mkGossip ∅ ∅ 1.

(** The body of the loop over [canonical]: a new revision for what is new or has changed. *)
Definition refresh (acc : gmap (list byte) CurrentAdvertisement * Z)
    (np : list byte * AdvertisedPeer) : gmap (list byte) CurrentAdvertisement * Z :=
  let '(cur, next) := acc in
  let '(n, p) := np in
  let keep := match cur !! n with
              | Some ca => same_advertisement (ca_peer ca) p
              | None => false
              end in
  if keep then acc else (<[n := mkCurrent p next]> cur, wrap 64 (next + 1)).

Definition canonical_map (current : list AdvertisedPeer) : gmap (list byte) AdvertisedPeer :=
  foldl (λ m p, <[adv_node p := canonicalize p]> m) ∅ current.

Definition prepare (recipient : list byte) (current : list AdvertisedPeer) (force_full : bool)
    (t : GossipDeltaTracker) : list GossipUpdate * GossipDeltaTracker :=
  let canonical := canonical_map current in
  let kept := filter (λ kc, is_Some (canonical !! kc.1)) (current_ t) in
  let '(cur, next) := foldl refresh (kept, next_revision_ t) (entries canonical) in
  let sent := (λ revisions, filter (λ kr, is_Some (cur !! kr.1)) revisions) <$> sent_ t in
  let already_sent := λ n ca,
    match sent !! recipient with
    | Some revisions => bool_decide (revisions !! n = Some (ca_revision ca))
    | None => false
    end in
  ((λ nc, mkUpdate (ca_peer nc.2) (ca_revision nc.2)) <$>
     filter (λ nc, force_full || negb (already_sent nc.1 nc.2) = true) (entries cur),
   mkGossip cur sent next).

(** The body of the loop of [commit]; [operator[]] starts at 0. *)
Definition commit_revision (m : gmap (list byte) Z) (nr : list byte * Z) : gmap (list byte) Z :=
  <[nr.1 := Z.max (default 0 (m !! nr.1)) nr.2]> m.

Definition commit (recipient : list byte) (revisions : list (list byte * Z))
    (t : GossipDeltaTracker) : GossipDeltaTracker :=
  mkGossip (current_ t)
    (<[recipient := foldl commit_revision (default ∅ (sent_ t !! recipient)) revisions]>
       (sent_ t))
    (next_revision_ t).

Definition retain_recipients (recipients : gset (list byte)) (t : GossipDeltaTracker)
    : GossipDeltaTracker :=
  mkGossip (current_ t) (filter (λ kr, kr.1 ∈ recipients) (sent_ t)) (next_revision_ t).

Definition recipient_count (t : GossipDeltaTracker) : nat := size (sent_ t).

(** ** Batches *)

Record GossipBatch := mkBatch {
  batch_peers : list AdvertisedPeer;
  completed_revisions : list (list byte * Z);
}.

Definition MAX_PREFIXES : nat := Z.to_nat PEER_TABLE_MAX_PREFIXES.

Definition part_count (prefix_count : nat) : nat :=
  Nat.max 1 ((prefix_count + MAX_PREFIXES - 1) / MAX_PREFIXES).

Definition with_prefixes (p : AdvertisedPeer) (l : list AdvertisedPrefix) : AdvertisedPeer :=
  mkAdvPeer (adv_node p) (adv_key p) (adv_path p) l.

(** The chunk of one pass of the loop over the parts. *)
Definition peer_part (p : AdvertisedPeer) (part : nat) : AdvertisedPeer :=
  let begin := (part * MAX_PREFIXES)%nat in
  let end_ := Nat.min (length (adv_prefixes p)) (begin + MAX_PREFIXES) in
  with_prefixes p (if Nat.ltb begin end_ then take (end_ - begin) (drop begin (adv_prefixes p))
                   else []).

Definition fits (max_payload_bytes : Z) (peers : list AdvertisedPeer) : bool :=
  match serialize_peer_table peers with
  | Some bytes => Z.of_nat (length bytes) <=? max_payload_bytes
  | None => false
  end.

(** The loop over the parts: [None] when one does not fit. *)
Fixpoint split_parts (max : Z) (p : AdvertisedPeer) (parts : list nat)
    : option (list AdvertisedPeer) :=
  match parts with
  | [] => Some []
  | part :: parts =>
      let chunk := peer_part p part in
      if negb (fits max [chunk]) then None
      else chunks ← split_parts max p parts; Some (chunk :: chunks)
  end.

(** [flush]: the batches so far are kept in reverse. *)
Definition flush (batches : list GossipBatch) (current : GossipBatch)
    : list GossipBatch * GossipBatch :=
  match batch_peers current with
  | [] => (batches, current)
  | _ => (current :: batches, mkBatch [] [])
  end.

(** The loop that packs the chunks of one update. *)
Fixpoint pack_chunks (max : Z) (u : GossipUpdate) (chunks : list AdvertisedPeer)
    (st : list GossipBatch * GossipBatch) : list GossipBatch * GossipBatch :=
  match chunks with
  | [] => st
  | chunk :: chunks =>
      let '(batches, current) := st in
      let '(batches, current) :=
        if fits max (batch_peers current ++ [chunk]) then (batches, current)
        else flush batches current in
      let done_ := match chunks with
                   | [] => [(adv_node (up_peer u), up_revision u)]
                   | _ => []
                   end in
      pack_chunks max u chunks
        (batches, mkBatch (batch_peers current ++ [chunk]) (completed_revisions current ++ done_))
  end.

(** The chunks an update is sent as; [None] when it is skipped. *)
Definition update_chunks (max : Z) (u : GossipUpdate) : option (list AdvertisedPeer) :=
  if PEER_TABLE_MAX_PATH_HOPS <? Z.of_nat (length (adv_path (up_peer u))) then None
  else split_parts max (up_peer u) (seq 0 (part_count (length (adv_prefixes (up_peer u))))).

Fixpoint pack_updates (max : Z) (updates : list GossipUpdate)
    (st : list GossipBatch * GossipBatch) : list GossipBatch * GossipBatch :=
  match updates with
  | [] => st
  | u :: updates =>
      pack_updates max updates
        match update_chunks max u with
        | Some chunks => pack_chunks max u chunks st
        | None => st
        end
  end.

Definition make_gossip_batches (updates : list GossipUpdate) (max_payload_bytes : Z)
    : list GossipBatch :=
  let max := Z.min max_payload_bytes PEER_TABLE_MAX_WIRE_BYTES in
  if max <? 3 then []
  else
    let '(batches, current) := pack_updates max updates ([], mkBatch [] []) in
    rev (fst (flush batches current)).

(** ** The interval *)

Definition jittered_gossip_interval (sample : option Z) (base jitter : Z) : Z :=
  match sample with
  | None => base
  | Some x =>
      if (base <=? 0) || (jitter <? 0) || (base <? jitter) then base
      else
        let radius := wrap 64 jitter in
        if (2 ^ 64 - 1 - 1) / 2 <? radius then base
        else
          let span := wrap 64 (radius * 2 + 1) in
          base + (x mod span - radius)
  end.

(** ** What the batches contain *)

Definition peers_of (bs : list GossipBatch) : list AdvertisedPeer := flat_map batch_peers bs.
Definition revisions_of (bs : list GossipBatch) : list (list byte * Z) :=
  flat_map completed_revisions bs.

(** The updates that are sent, each with its chunks. *)
Definition sent_updates (max : Z) (updates : list GossipUpdate)
    : list (GossipUpdate * list AdvertisedPeer) :=
  omap (λ u, cs ← update_chunks max u; Some (u, cs)) updates.
Definition all_chunks (us : list (GossipUpdate * list AdvertisedPeer)) : list AdvertisedPeer :=
  flat_map snd us.
Definition all_revisions (us : list (GossipUpdate * list AdvertisedPeer)) : list (list byte * Z) :=
  (λ u, (adv_node (up_peer u.1), up_revision u.1)) <$> us.

(** The batches [bs] hold some of the updates completely, these are the ones they complete,
    and then part of one more. *)
Definition completes (us : list (GossipUpdate * list AdvertisedPeer)) (bs : list GossipBatch)
    : Prop :=
  exists m rest,
    peers_of bs = all_chunks (take m us) ++ rest /\ revisions_of bs = all_revisions (take m us) /\
    (rest = [] \/ exists u cs more, us !! m = Some (u, cs) /\ cs = rest ++ more /\ more <> []).

Lemma completes_extend us us' bs : completes us bs -> completes (us ++ us') bs.
Proof.
  intros (m & rest & Hp & Hr & Hrest). destruct (decide (m <= length us)%nat) as [Hle|Hgt].
  - exists m, rest. rewrite take_app_le by done. split_and!; [done|done|].
    destruct Hrest as [?|(u & cs & more & Hm & ? & ?)]; [by left|right].
    exists u, cs, more. split_and!; try done. by apply lookup_app_l_Some.
  - exists (length us), rest. rewrite take_ge in Hp, Hr by lia.
    rewrite take_app_length. split_and!; [done|done|].
    destruct Hrest as [?|(u & cs & more & Hm & _ & _)]; [by left|].
    apply lookup_lt_Some in Hm. lia.
Qed.

Definition batch_ok (max : Z) (b : GossipBatch) : Prop :=
  batch_peers b <> [] /\ fits max (batch_peers b) = true.

(** The batches flushed so far, the batch being filled, the updates dealt with and the chunks
    of the next one that are already in. *)
Record packed (max : Z) (us : list (GossipUpdate * list AdvertisedPeer))
    (part : list AdvertisedPeer) (st : list GossipBatch * GossipBatch) : Prop := {
  packed_ok : Forall (batch_ok max) st.1;
  packed_current : batch_peers st.2 = [] /\ completed_revisions st.2 = [] \/ batch_ok max st.2;
  packed_peers : peers_of (rev st.1 ++ [st.2]) = all_chunks us ++ part;
  packed_revisions : revisions_of (rev st.1 ++ [st.2]) = all_revisions us;
}.

Definition prefixes_complete (us : list (GossipUpdate * list AdvertisedPeer))
    (bs : list GossipBatch) : Prop := forall k, completes us (take k bs).

Lemma peers_of_app a b : peers_of (a ++ b) = peers_of a ++ peers_of b.
Proof. apply flat_map_app. Qed.
Lemma revisions_of_app a b : revisions_of (a ++ b) = revisions_of a ++ revisions_of b.
Proof. apply flat_map_app. Qed.
Lemma all_chunks_app a b : all_chunks (a ++ b) = all_chunks a ++ all_chunks b.
Proof. apply flat_map_app. Qed.

Lemma prefixes_complete_snoc us bs b :
  prefixes_complete us bs -> completes us (bs ++ [b]) -> prefixes_complete us (bs ++ [b]).
Proof.
  intros Hp Hb k. destruct (decide (k <= length bs)%nat).
  - rewrite take_app_le by done. apply Hp.
  - rewrite take_ge; [done|]. rewrite length_app. simpl. lia.
Qed.

Lemma prefixes_complete_extend us us' bs :
  prefixes_complete us bs -> prefixes_complete (us ++ us') bs.
Proof. intros H k. by apply completes_extend. Qed.

(** Flushing in the middle of an update. *)
Lemma flush_packed max us u part todo st :
  packed max us part st -> todo <> [] ->
  prefixes_complete (us ++ [(u, part ++ todo)]) (rev st.1) ->
  let st' := flush st.1 st.2 in
  packed max us part st' /\ prefixes_complete (us ++ [(u, part ++ todo)]) (rev st'.1) /\
  batch_peers st'.2 = [].
Proof.
  intros Hst Ht Hpre. unfold flush. destruct st as [bs cur].
  pose proof Hst as [Hok Hcur Hp Hr]. cbn [fst snd] in *.
  destruct (batch_peers cur) as [|x l] eqn:E; cbn [fst snd]; [done|].
  destruct Hcur as [[? _]|Hcur]; [congruence|]. cbn [rev].
  assert (packed max us part (cur :: bs, mkBatch [] [])) as Hpk.
  { split; cbn [fst snd rev]; [by constructor|by left| |].
    - rewrite peers_of_app, Hp. cbn. by rewrite !app_nil_r.
    - rewrite revisions_of_app, Hr. cbn. by rewrite !app_nil_r. }
  split_and!; [done| |done]. apply prefixes_complete_snoc; [done|].
  exists (length us), part. rewrite take_app_length. split_and!; [done|done|].
  right. exists u, (part ++ todo), todo. split_and!; try done. by apply list_lookup_middle.
Qed.

Lemma pack_chunks_packed max us u todo : forall part st,
  packed max us part st -> prefixes_complete (us ++ [(u, part ++ todo)]) (rev st.1) ->
  todo <> [] -> Forall (λ c, fits max [c] = true) todo ->
  let st' := pack_chunks max u todo st in
  packed max (us ++ [(u, part ++ todo)]) [] st' /\
  prefixes_complete (us ++ [(u, part ++ todo)]) (rev st'.1).
Proof.
  induction todo as [|c todo IH]; intros part st Hst Hpre Hne Hfit; [done|].
  apply Forall_cons in Hfit as [Hc Hfit]. cbn [pack_chunks].
  set (st1 := if fits max (batch_peers st.2 ++ [c]) then st else flush st.1 st.2).
  assert (packed max us part st1 /\
    prefixes_complete (us ++ [(u, part ++ c :: todo)]) (rev st1.1) /\
    fits max (batch_peers st1.2 ++ [c]) = true) as (Hst1 & Hpre1 & Hfits).
  { subst st1. destruct (fits max (batch_peers st.2 ++ [c])) eqn:E; [done|].
    destruct (flush_packed max us u part (c :: todo) st Hst Hne Hpre) as (? & ? & Hnil).
    split_and!; try done. by rewrite Hnil. }
  destruct st as [bs0 cur0]. fold st1. cbn [fst snd] in st1.
  replace (if fits max (batch_peers cur0 ++ [c]) then (bs0, cur0) else flush bs0 cur0)
    with st1 by done.
  clearbody st1. destruct st1 as [bs cur]. destruct Hst1 as [Hok Hcur Hp Hr]. cbn [fst snd] in *.
  rewrite peers_of_app in Hp. rewrite revisions_of_app in Hr. cbn in Hp, Hr.
  rewrite app_nil_r in Hp, Hr.
  set (fin := match todo with [] => _ | _ => _ end).
  assert (batch_ok max (mkBatch (batch_peers cur ++ [c]) (completed_revisions cur ++ fin))) as Hb.
  { split; [cbn; by destruct (batch_peers cur)|done]. }
  destruct todo as [|c' todo].
  - cbn [pack_chunks fst]. split; [|done]. split; cbn [fst snd]; [done|by right| |].
    + rewrite peers_of_app, all_chunks_app. cbn. rewrite !app_nil_r, app_assoc, Hp.
      by rewrite app_assoc.
    + rewrite revisions_of_app. cbn. rewrite app_nil_r, app_assoc, Hr. subst fin.
      unfold all_revisions. by rewrite fmap_app.
  - replace (part ++ c :: c' :: todo) with ((part ++ [c]) ++ c' :: todo) in *
      by (by rewrite <- app_assoc).
    apply IH; [|exact Hpre1|done|done].
    split; cbn [fst snd]; [done|by right| |].
    + rewrite peers_of_app. cbn. by rewrite app_nil_r, !app_assoc, Hp.
    + rewrite revisions_of_app. cbn. subst fin. by rewrite !app_nil_r.
Qed.

Lemma split_parts_fit max p parts : forall cs,
  split_parts max p parts = Some cs ->
  cs = peer_part p <$> parts /\ Forall (λ c, fits max [c] = true) cs.
Proof.
  induction parts as [|part parts IH]; intros cs; cbn [split_parts]; [by intros [= <-]|].
  destruct (fits max [peer_part p part]) eqn:E; cbn [negb]; [|done].
  destruct (split_parts max p parts) as [cs'|] eqn:Hs; [|done]. intros [= <-].
  destruct (IH cs' eq_refl) as [-> ?]. split; [done|by constructor].
Qed.

Lemma update_chunks_fit max u cs :
  update_chunks max u = Some cs -> cs <> [] /\ Forall (λ c, fits max [c] = true) cs.
Proof.
  unfold update_chunks. destruct (_ <? _); [done|]. intros [-> Hf]%split_parts_fit.
  split; [|done]. unfold part_count. destruct (Nat.max 1 _) eqn:E; [lia|]. done.
Qed.

Lemma pack_updates_packed max updates : forall us st,
  packed max us [] st -> prefixes_complete us (rev st.1) ->
  let st' := pack_updates max updates st in
  packed max (us ++ sent_updates max updates) [] st' /\
  prefixes_complete (us ++ sent_updates max updates) (rev st'.1).
Proof.
  induction updates as [|u updates IH]; intros us st Hst Hpre; cbn [pack_updates].
  { unfold sent_updates. cbn. by rewrite app_nil_r. }
  unfold sent_updates. cbn [omap list_omap]. destruct (update_chunks max u) as [cs|] eqn:Hu;
    [|by apply IH]. cbn [mbind option_bind].
  destruct (update_chunks_fit _ _ _ Hu) as [Hne Hfit].
  destruct (pack_chunks_packed max us u cs [] st Hst) as [H1 H2]; [|done|done|].
  { by apply prefixes_complete_extend. }
  destruct (IH _ _ H1 H2) as [H3 H4]. fold (sent_updates max updates).
  rewrite <- !app_assoc in H3, H4. done.
Qed.

(** The parts of a peer share its identity and path and split its prefixes. *)
Lemma peer_part_prefixes p k :
  adv_prefixes (peer_part p k) = take MAX_PREFIXES (drop (k * MAX_PREFIXES) (adv_prefixes p)).
Proof.
  unfold peer_part. cbn [adv_prefixes with_prefixes].
  generalize MAX_PREFIXES as m. intros m. destruct (Nat.ltb_spec (k * m)
    (Nat.min (length (adv_prefixes p)) (k * m + m))) as [Hlt|Hge].
  - destruct (decide (k * m + m <= length (adv_prefixes p))%nat).
    + f_equal. lia.
    + rewrite !take_ge; [done|rewrite length_drop; lia..].
  - destruct (decide (m = 0)%nat) as [->|]; [done|].
    rewrite drop_ge by lia. by rewrite take_nil.
Qed.

Lemma peer_parts_prefixes p n : forall k,
  (k + n = part_count (length (adv_prefixes p)))%nat ->
  flat_map adv_prefixes (peer_part p <$> seq k n) = drop (k * MAX_PREFIXES) (adv_prefixes p).
Proof.
  assert (length (adv_prefixes p) <= part_count (length (adv_prefixes p)) * MAX_PREFIXES)%nat
    as Hcover.
  { generalize (length (adv_prefixes p)) as len. intros len. unfold part_count.
    assert (0 < MAX_PREFIXES)%nat by (vm_compute; lia).
    pose proof (Nat.div_mod_eq (len + MAX_PREFIXES - 1) MAX_PREFIXES).
    pose proof (Nat.mod_upper_bound (len + MAX_PREFIXES - 1) MAX_PREFIXES ltac:(lia)). nia. }
  induction n as [|n IH]; intros k Hk; cbn [seq fmap list_fmap flat_map].
  - rewrite drop_ge; [done|]. by replace k with (part_count (length (adv_prefixes p))) by lia.
  - fold (peer_part p <$> seq (S k) n). rewrite IH, peer_part_prefixes by lia.
    replace (S k * MAX_PREFIXES)%nat with (k * MAX_PREFIXES + MAX_PREFIXES)%nat by lia.
    rewrite <- drop_drop. apply take_drop.
Qed.

Lemma update_chunks_prefixes max u cs :
  update_chunks max u = Some cs ->
  flat_map adv_prefixes cs = adv_prefixes (up_peer u) /\
  Forall (λ c, adv_node c = adv_node (up_peer u) /\ adv_key c = adv_key (up_peer u) /\
               adv_path c = adv_path (up_peer u)) cs.
Proof.
  unfold update_chunks. destruct (_ <? _); [done|]. intros [-> _]%split_parts_fit. split.
  - by rewrite peer_parts_prefixes.
  - apply Forall_fmap, Forall_true. done.
Qed.

(** The messages [make_gossip_batches] builds can all be encoded within the limit.  Together
    they carry, in order, the chunks of every update that can be sent, a chunk keeping identity
    and path and the chunks of an update splitting its prefixes.  After any number of messages,
    the revisions they complete are exactly those of the updates they carry in full. *)
Theorem gossip_batches_sound updates max_payload_bytes :
  let max := Z.min max_payload_bytes PEER_TABLE_MAX_WIRE_BYTES in
  let batches := make_gossip_batches updates max_payload_bytes in
  let sent := if max <? 3 then [] else sent_updates max updates in
  Forall (λ b, exists bytes, serialize_peer_table (batch_peers b) = Some bytes /\
                             Z.of_nat (length bytes) <= max_payload_bytes) batches /\
  peers_of batches = all_chunks sent /\ revisions_of batches = all_revisions sent /\
  Forall (λ uc, flat_map adv_prefixes uc.2 = adv_prefixes (up_peer uc.1) /\
     Forall (λ c, adv_node c = adv_node (up_peer uc.1) /\ adv_key c = adv_key (up_peer uc.1) /\
                  adv_path c = adv_path (up_peer uc.1)) uc.2) sent /\
  forall k, completes sent (take k batches).
Proof.
  intros max batches sent. unfold batches, make_gossip_batches. fold max.
  destruct (max <? 3) eqn:E3; subst sent.
  { split_and!; try done. intros k. exists 0%nat, []. rewrite take_nil. split_and!; eauto. }
  destruct (pack_updates_packed max updates [] ([], mkBatch [] [])) as [Hst Hpre].
  { split; cbn; [done|by left|done|done]. }
  { intros k. cbn. exists 0%nat, []. rewrite take_nil. split_and!; eauto. }
  cbn [app] in Hst, Hpre. destruct (pack_updates max updates _) as [bs cur].
  destruct Hst as [Hok Hcur Hp Hr]. cbn [fst snd] in *. rewrite app_nil_r in Hp.
  rewrite peers_of_app in Hp. rewrite revisions_of_app in Hr. cbn in Hp, Hr.
  rewrite app_nil_r in Hp, Hr.
  assert (exists out, out = fst (flush bs cur)) as [out Eout] by eauto. rewrite <- Eout.
  assert (Forall (batch_ok max) out /\ peers_of (rev out) = all_chunks (sent_updates max updates) /\
    revisions_of (rev out) = all_revisions (sent_updates max updates) /\
    prefixes_complete (sent_updates max updates) (rev out)) as (Hok' & Hp' & Hr' & Hpre').
  { subst out. unfold flush. destruct (batch_peers cur) as [|x l] eqn:Ec; cbn [fst].
    - destruct Hcur as [[_ Hcr]|[? _]]; [|congruence]. rewrite Hcr, app_nil_r in Hr.
      rewrite app_nil_r in Hp. done.
    - destruct Hcur as [[? _]|Hcur]; [congruence|].
      assert (peers_of (rev (cur :: bs)) = all_chunks (sent_updates max updates)) as Hp1
        by (cbn [rev]; rewrite peers_of_app; cbn; by rewrite Ec, app_nil_r).
      assert (revisions_of (rev (cur :: bs)) = all_revisions (sent_updates max updates)) as Hr1
        by (cbn [rev]; rewrite revisions_of_app; cbn; by rewrite app_nil_r).
      split_and!; [by constructor|done|done|]. cbn [rev] in *.
      apply prefixes_complete_snoc; [done|].
      exists (length (sent_updates max updates)), []. rewrite take_ge, app_nil_r by done. eauto. }
  split_and!; [|done|done| |done].
  - apply Forall_rev. eapply Forall_impl; [exact Hok'|]. intros b [_ Hf]. unfold fits in Hf.
    destruct (serialize_peer_table (batch_peers b)) as [bytes|]; [|done].
    apply Z.leb_le in Hf. exists bytes. split; [done|]. subst max. lia.
  - unfold sent_updates. apply Forall_forall. intros [u cs] Hu.
    apply list_elem_of_omap in Hu as (u' & _ & Hu).
    destruct (update_chunks max u') as [cs'|] eqn:Hc; [|done]. injection Hu as <- <-.
    by eapply update_chunks_prefixes.
Qed.

(** ** Revisions *)

Lemma same_advertisement_spec l r : same_advertisement l r = true <-> l = r.
Proof.
  unfold same_advertisement. rewrite !andb_true_iff, !bool_decide_eq_true.
  destruct l, r. cbn. split; [by intros [[[-> ->] ->] ->]|by intros [= -> -> -> ->]].
Qed.

(** A revision number stands for one advertisement for ever. *)
Definition issued_ok (issued : gmap Z AdvertisedPeer)
    (cur : gmap (list byte) CurrentAdvertisement) (next : Z) : Prop :=
  (forall n ca, cur !! n = Some ca ->
     issued !! ca_revision ca = Some (ca_peer ca) /\ adv_node (ca_peer ca) = n) /\
  (forall r p, issued !! r = Some p -> 1 <= r < next) /\
  forall r p ca, issued !! r = Some p -> cur !! adv_node p = Some ca -> r <= ca_revision ca.

Lemma refresh_ok issued cur next n p :
  issued_ok issued cur next -> 1 <= next -> next + 1 < 2 ^ 64 -> adv_node p = n ->
  let '(cur', next') := refresh (cur, next) (n, p) in
  exists issued', issued ⊆ issued' /\ issued_ok issued' cur' next' /\
    next <= next' <= next + 1 /\
    (exists ca, cur' !! n = Some ca /\ ca_peer ca = p /\
       (cur !! n = Some ca \/ ca_revision ca = next)) /\
    forall m, m <> n -> cur' !! m = cur !! m.
Proof.
  intros (Hc & Hi & Hlat) Hn Hb Hp. unfold refresh.
  set (keep := match cur !! n with Some _ => _ | None => _ end). destruct keep eqn:Hk.
  - exists issued. subst keep. destruct (cur !! n) as [ca|] eqn:E; [|done].
    apply same_advertisement_spec in Hk. split_and!; try done; try lia. exists ca. eauto.
  - rewrite wrap_small by (unfold in_width; lia).
    assert (issued !! next = None) as Hnew.
    { destruct (issued !! next) eqn:E; [|done]. apply Hi in E. lia. }
    exists (<[next := p]> issued). split_and!; try lia.
    + by apply insert_subseteq.
    + split_and!.
      * intros m ca [[<- <-]|[Hne Hm]]%lookup_insert_Some.
        -- cbn. by rewrite lookup_insert_eq.
        -- destruct (Hc m ca Hm) as [H1 H2]. split; [|done]. rewrite lookup_insert_ne; [done|].
           intros E. rewrite <- E in H1. congruence.
      * intros r q [[<- _]|[_ Hr]]%lookup_insert_Some; [lia|]. apply Hi in Hr. lia.
      * intros r q ca [[<- <-]|[_ Hr]]%lookup_insert_Some.
        -- rewrite Hp, lookup_insert_eq. intros [= <-]. done.
        -- intros [[_ <-]|[_ Hca]]%lookup_insert_Some; [apply Hi in Hr; cbn; lia|by eapply Hlat].
    + exists (mkCurrent p next). rewrite lookup_insert_eq. auto.
    + intros m Hm. by rewrite lookup_insert_ne.
Qed.

Lemma refresh_all_ok es : forall issued cur next,
  issued_ok issued cur next -> 1 <= next -> next + Z.of_nat (length es) < 2 ^ 64 ->
  NoDup es.*1 -> (forall n p, (n, p) ∈ es -> adv_node p = n) ->
  let '(cur', next') := foldl refresh (cur, next) es in
  exists issued', issued ⊆ issued' /\ issued_ok issued' cur' next' /\
    next <= next' <= next + Z.of_nat (length es) /\
    (forall n p, (n, p) ∈ es -> exists ca, cur' !! n = Some ca /\ ca_peer ca = p /\
       (cur !! n = Some ca \/ next <= ca_revision ca)) /\
    forall n, (n ∉ es.*1) -> cur' !! n = cur !! n.
Proof.
  induction es as [|[n p] es IH]; intros issued cur next Hok Hn Hb Hnd Hp; cbn [foldl].
  { exists issued. split_and!; try done; try (simpl; lia). by intros ? ? ?%not_elem_of_nil. }
  cbn in Hnd. apply NoDup_cons in Hnd as [Hni Hnd]. cbn [length] in Hb.
  pose proof (refresh_ok issued cur next n p Hok Hn ltac:(lia) ltac:(apply Hp; by left)) as H1.
  destruct (refresh (cur, next) (n, p)) as [cur1 next1].
  destruct H1 as (issued1 & Hs1 & Hok1 & Hn1 & (ca & Hca & Hpeer & Hold) & Hother).
  specialize (IH issued1 cur1 next1 Hok1 ltac:(lia) ltac:(lia) Hnd).
  destruct (foldl refresh (cur1, next1) es) as [cur2 next2].
  destruct IH as (issued2 & Hs2 & Hok2 & Hn2 & Hall & Hkeep).
  { intros m q Hm. apply Hp. by right. }
  exists issued2. split_and!; [by etrans|done|lia|cbn [length]; lia| |].
  - intros m q [[= -> ->]|Hm]%elem_of_cons.
    + exists ca. rewrite Hkeep by done. split_and!; [done|done|].
      destruct Hold as [?|Hr]; [by left|right; lia].
    + destruct (Hall m q Hm) as (ca' & H1 & H2 & H3). exists ca'. split_and!; [done|done|].
      destruct H3 as [H3|?]; [left|right; lia]. rewrite Hother in H3; [done|].
      intros ->. apply Hni. apply list_elem_of_fmap. by exists (n, q).
  - intros m [Hm1 Hm2]%not_elem_of_cons. cbn in Hm1. rewrite Hkeep, Hother; done.
Qed.

Lemma refresh_all_keep es : forall cur next,
  (forall n p, (n, p) ∈ es -> exists ca, cur !! n = Some ca /\ ca_peer ca = p) ->
  foldl refresh (cur, next) es = (cur, next).
Proof.
  induction es as [|[n p] es IH]; intros cur next Hes; cbn [foldl]; [done|].
  destruct (Hes n p ltac:(by left)) as (ca & Hca & Hp).
  unfold refresh at 2. rewrite Hca, (proj2 (same_advertisement_spec _ _) Hp).
  apply IH. intros m q Hm. apply Hes. by right.
Qed.

Lemma canonical_map_node current n p : canonical_map current !! n = Some p -> adv_node p = n.
Proof.
  unfold canonical_map.
  assert (forall m : gmap (list byte) AdvertisedPeer,
    (forall k q, m !! k = Some q -> adv_node q = k) ->
    foldl (λ m p, <[adv_node p := canonicalize p]> m) m current !! n = Some p -> adv_node p = n)
    as Hgen; [|apply Hgen; intros k q; by rewrite lookup_empty].
  induction current as [|x current IH]; intros m Hm; cbn [foldl]; [apply Hm|].
  apply IH. intros k q [[<- <-]|[_ Hq]]%lookup_insert_Some; [done|by apply Hm].
Qed.

Lemma canonical_map_size current : (length (entries (canonical_map current)) <= length current)%nat.
Proof.
  unfold entries. rewrite merge_sort_Permutation, length_map_to_list. unfold canonical_map.
  assert (forall m : gmap (list byte) AdvertisedPeer,
    (size (foldl (λ m p, <[adv_node p := canonicalize p]> m) m current) <=
     size m + length current)%nat) as Hgen.
  { induction current as [|x current IH]; intros m; cbn [foldl length]; [lia|].
    etrans; [apply IH|]. rewrite map_size_insert. case_match; unfold id; lia. }
  etrans; [apply Hgen|]. by rewrite map_size_empty.
Qed.

(** ** The invariant of the tracker

    [issued] is what each revision number stood for and [committed] the updates reported as
    sent, with their recipients. *)
Record gossip_ok (issued : gmap Z AdvertisedPeer) (committed : list (list byte * GossipUpdate))
    (t : GossipDeltaTracker) : Prop := {
  gok_issued : issued_ok issued (current_ t) (next_revision_ t);
  gok_next : 1 <= next_revision_ t;
  gok_sent : forall rc m n r, sent_ t !! rc = Some m -> m !! n = Some r ->
    exists u, (rc, u) ∈ committed /\ up_revision u = r /\ adv_node (up_peer u) = n;
  gok_committed : forall rc u, (rc, u) ∈ committed ->
    issued !! up_revision u = Some (up_peer u);
}.

Definition update_of (ca : CurrentAdvertisement) : GossipUpdate :=
  mkUpdate (ca_peer ca) (ca_revision ca).

(** The recipient has been sent the current revision of [n]. *)
Definition up_to_date (t : GossipDeltaTracker) (rc n : list byte) (ca : CurrentAdvertisement)
    : Prop := exists m, sent_ t !! rc = Some m /\ m !! n = Some (ca_revision ca).

Lemma prepare_spec issued committed rc current force t ups t' :
  gossip_ok issued committed t -> next_revision_ t + Z.of_nat (length current) < 2 ^ 64 ->
  prepare rc current force t = (ups, t') ->
  exists issued', issued ⊆ issued' /\ gossip_ok issued' committed t' /\
    next_revision_ t <= next_revision_ t' <= next_revision_ t + Z.of_nat (length current) /\
    (forall n p, canonical_map current !! n = Some p ->
       exists ca, current_ t' !! n = Some ca /\ ca_peer ca = p) /\
    (forall n ca, current_ t' !! n = Some ca -> canonical_map current !! n = Some (ca_peer ca)) /\
    (forall u, u ∈ ups <-> exists n ca, current_ t' !! n = Some ca /\ u = update_of ca /\
       (force = true \/ ~ up_to_date t' rc n ca)).
Proof.
  intros [Hi Hn Hsent Hcom] Hb. unfold prepare.
  set (canonical := canonical_map current).
  set (kept := filter _ (current_ t)).
  assert (issued_ok issued kept (next_revision_ t)) as Hik.
  { destruct Hi as (H1 & H2 & H3). split_and!; [|done|].
    - intros n ca [Hk _]%map_lookup_filter_Some. by apply H1.
    - intros r p ca Hr [Hk _]%map_lookup_filter_Some. by eapply H3. }
  pose proof (canonical_map_size current) as Hsize. fold canonical in Hsize.
  pose proof (refresh_all_ok (entries canonical) issued kept (next_revision_ t) Hik Hn
    ltac:(lia) (NoDup_entries canonical)) as Hr.
  destruct (foldl refresh (kept, next_revision_ t) (entries canonical)) as [cur next].
  destruct Hr as (issued' & Hsub & Hok & Hnext & Hall & Hkeep).
  { intros n p Hnp%elem_of_entries. by eapply canonical_map_node. }
  intros [= <- <-].
  assert (forall n p, canonical !! n = Some p -> exists ca, cur !! n = Some ca /\ ca_peer ca = p /\
    (kept !! n = Some ca \/ next_revision_ t <= ca_revision ca)) as Hcan
    by (intros n p Hp; by apply Hall, elem_of_entries).
  assert (forall n ca, cur !! n = Some ca -> canonical !! n = Some (ca_peer ca)) as Hback.
  { intros n ca Hca. destruct (canonical !! n) as [p|] eqn:Hp.
    - destruct (Hcan n p Hp) as (ca' & Hca' & <- & _). by simplify_eq.
    - rewrite Hkeep in Hca.
      + apply map_lookup_filter_Some in Hca as [_ [? Hx]]. cbn in Hx. congruence.
      + intros Hin. apply list_elem_of_fmap in Hin as ([k q] & -> & Hin%elem_of_entries).
        cbn in Hp. congruence. }
  exists issued'. cbn [current_ sent_ next_revision_]. split_and!; [done| |lia|lia| |done|].
  - split; cbn [current_ sent_ next_revision_]; [done|lia| |].
    + intros rc' m n r Hm Hr. rewrite lookup_fmap in Hm.
      destruct (sent_ t !! rc') as [m0|] eqn:Em; [|done]. injection Hm as <-.
      apply map_lookup_filter_Some in Hr as [Hr _]. by eapply Hsent.
    + intros rc' u Hu. eapply lookup_weaken; [by eapply Hcom|done].
  - intros n p Hp. destruct (Hcan n p Hp) as (ca & ? & ? & _). eauto.
  - intros u. rewrite list_elem_of_fmap. split.
    + intros ([n ca] & -> & Hin). apply list_elem_of_filter in Hin as [Hf Hin%elem_of_entries].
      exists n, ca. split_and!; [done|done|]. apply orb_true_iff in Hf as [?|Hf]; [by left|right].
      intros (m & Hm & Hr). cbn in Hm. cbn [fst snd] in Hf. rewrite Hm in Hf.
      by rewrite bool_decide_eq_true_2 in Hf.
    + intros (n & ca & Hca & -> & Hf). exists (n, ca). split; [done|].
      apply list_elem_of_filter. split; [|by apply elem_of_entries].
      cbn [fst snd]. destruct force; [done|]. destruct Hf as [?|Hf]; [done|].
      cbn [orb]. apply negb_true_iff. destruct (_ !! rc) as [m|] eqn:Hm; [|done].
      apply bool_decide_eq_false. intros Hr. apply Hf. by exists m.
Qed.

Lemma committed_latest issued committed t rc m n r ca :
  gossip_ok issued committed t -> sent_ t !! rc = Some m -> m !! n = Some r ->
  current_ t !! n = Some ca -> r <= ca_revision ca.
Proof.
  intros [(_ & _ & Hlat) _ Hsent Hcom] Hm Hr Hca.
  destruct (Hsent _ _ _ _ Hm Hr) as (u & Hu & <- & Hn). eapply Hlat; [by eapply Hcom|].
  by rewrite Hn.
Qed.

Lemma current_issued issued committed t n ca :
  gossip_ok issued committed t -> current_ t !! n = Some ca ->
  issued !! ca_revision ca = Some (ca_peer ca) /\ adv_node (ca_peer ca) = n /\ 1 <= ca_revision ca.
Proof.
  intros [(H1 & H2 & _) _ _ _] Hca. destruct (H1 n ca Hca) as [Hi Hn].
  split_and!; [done|done|]. apply H2 in Hi. lia.
Qed.

#[export] Instance up_to_date_dec t rc n ca : Decision (up_to_date t rc n ca).
Proof.
  unfold up_to_date. destruct (sent_ t !! rc) as [m|].
  - refine (cast_if (decide (m !! n = Some (ca_revision ca)))); naive_solver.
  - right. naive_solver.
Defined.

Definition revision_of (u : GossipUpdate) : list byte * Z :=
  (adv_node (up_peer u), up_revision u).

Lemma commit_revisions_lookup ups : forall m n r,
  Forall (λ u, 1 <= up_revision u) ups ->
  foldl commit_revision m (revision_of <$> ups) !! n = Some r ->
  m !! n = Some r \/ exists u, u ∈ ups /\ revision_of u = (n, r).
Proof.
  induction ups as [|u ups IH]; intros m n r Hpos; cbn [fmap list_fmap foldl]; [by left|].
  apply Forall_cons in Hpos as [Hu Hpos]. intros Hr.
  destruct (IH _ _ _ Hpos Hr) as [Hm|(v & Hv & Ev)].
  - unfold commit_revision in Hm. apply lookup_insert_Some in Hm as [[En Er]|[_ Hm]]; [|by left].
    cbn in En, Er. subst n. destruct (m !! adv_node (up_peer u)) as [r0|] eqn:E0; cbn in Er.
    + destruct (Z.max_spec r0 (up_revision u)) as [[_ E]|[_ E]]; rewrite E in Er; subst r;
        [|by left]. right. exists u. split; [by left|done].
    + right. exists u. split; [by left|]. unfold revision_of. f_equal. lia.
  - right. exists v. split; [by right|done].
Qed.

(** The updates of one node all carry the revision [R]. *)
Lemma commit_revisions_exact ups n R : forall m,
  (forall u, u ∈ ups -> adv_node (up_peer u) = n -> up_revision u = R) ->
  default 0 (m !! n) <= R ->
  foldl commit_revision m (revision_of <$> ups) !! n =
    if decide (Exists (λ u, adv_node (up_peer u) = n) ups) then Some R else m !! n.
Proof.
  induction ups as [|u ups IH]; intros m Hu Hle; cbn [fmap list_fmap foldl].
  { rewrite decide_False; [done|]. by intros ?%Exists_nil. }
  rewrite IH.
  2: { intros v Hv. apply Hu. by right. }
  - unfold commit_revision. cbn [fst snd revision_of].
    destruct (decide (adv_node (up_peer u) = n)) as [En|En].
    + rewrite (decide_True (P := Exists _ (u :: ups))) by (by left).
      destruct (decide _); [done|]. rewrite <- En, lookup_insert_eq, En.
      rewrite (Hu u ltac:(by left) En). f_equal. lia.
    + rewrite lookup_insert_ne by done.
      destruct (decide (Exists _ ups)); [rewrite decide_True by (by right)|rewrite decide_False];
        [done|done|]. by intros [?|?]%Exists_cons.
  - unfold commit_revision. cbn [fst snd revision_of].
    destruct (decide (adv_node (up_peer u) = n)) as [En|En].
    + rewrite <- En, lookup_insert_eq, En, (Hu u ltac:(by left) En). cbn. lia.
    + by rewrite lookup_insert_ne.
Qed.

Lemma commit_ok issued committed rc ups t :
  gossip_ok issued committed t ->
  Forall (λ u, issued !! up_revision u = Some (up_peer u)) ups ->
  gossip_ok issued (committed ++ (pair rc <$> ups)) (commit rc (revision_of <$> ups) t).
Proof.
  intros [Hi Hn Hsent Hcom] Hups. split; cbn [current_ sent_ next_revision_ commit]; try done.
  - assert (Forall (λ u, 1 <= up_revision u) ups) as Hpos.
    { eapply Forall_impl; [exact Hups|]. intros u Hu. apply Hi in Hu. lia. }
    intros rc' m n r [[<- <-]|[_ Hm]]%lookup_insert_Some Hr.
    + destruct (commit_revisions_lookup _ _ _ _ Hpos Hr) as [Hold|(u & Hu & [= En Er])].
      * destruct (sent_ t !! rc) as [m0|] eqn:E0; cbn in Hold; [|by rewrite lookup_empty in Hold].
        destruct (Hsent _ _ _ _ E0 Hold) as (u & Hu & ?). exists u. split; [|done].
        apply elem_of_app. by left.
      * exists u. split; [|done]. apply elem_of_app. right. apply list_elem_of_fmap. eauto.
    + destruct (Hsent _ _ _ _ Hm Hr) as (u & Hu & ?). exists u. split; [|done].
      apply elem_of_app. by left.
  - intros rc' u [Hu|Hu]%elem_of_app; [by eapply Hcom|].
    apply list_elem_of_fmap in Hu as (v & [= -> ->] & Hv).
    rewrite Forall_forall in Hups. by apply Hups.
Qed.

Lemma retain_ok issued committed s t :
  gossip_ok issued committed t -> gossip_ok issued committed (retain_recipients s t).
Proof.
  intros [Hi Hn Hsent Hcom]. split; cbn [current_ sent_ next_revision_ retain_recipients]; try done.
  intros rc m n r [Hm _]%map_lookup_filter_Some. by apply Hsent.
Qed.

(** ** Runs *)

Inductive GossipOp :=
  | GPrepare (recipient : list byte) (current : list AdvertisedPeer) (force_full : bool)
  | GCommit (recipient : list byte) (ups : list GossipUpdate)
  | GRetain (recipients : gset (list byte)).

Definition gossip_step (t : GossipDeltaTracker) (op : GossipOp) : GossipDeltaTracker :=
  match op with
  | GPrepare rc current force => snd (prepare rc current force t)
  | GCommit rc ups => commit rc (revision_of <$> ups) t
  | GRetain s => retain_recipients s t
  end.

(** Only updates handed out for a recipient are committed for it. *)
Fixpoint commits_prepared (handed : list (list byte * GossipUpdate)) (t : GossipDeltaTracker)
    (ops : list GossipOp) : Prop :=
  match ops with
  | [] => True
  | op :: ops =>
      let handed' :=
        match op with
        | GPrepare rc current force => handed ++ (pair rc <$> fst (prepare rc current force t))
        | _ => handed
        end in
      match op with
      | GCommit rc ups => Forall (λ u, (rc, u) ∈ handed) ups
      | _ => True
      end /\ commits_prepared handed' (gossip_step t op) ops
  end.

Fixpoint advertised (ops : list GossipOp) : nat :=
  match ops with
  | [] => 0
  | GPrepare _ current _ :: ops => length current + advertised ops
  | _ :: ops => advertised ops
  end.

(** The updates committed in a run, with their recipients. *)
Definition committed_updates (ops : list GossipOp) : list (list byte * GossipUpdate) :=
  flat_map (λ op, match op with GCommit rc ups => pair rc <$> ups | _ => [] end) ops.

Lemma gossip_run_ok ops : forall issued committed handed t,
  gossip_ok issued committed t ->
  Forall (λ ru, issued !! up_revision ru.2 = Some (up_peer ru.2)) handed ->
  commits_prepared handed t ops ->
  next_revision_ t + Z.of_nat (advertised ops) < 2 ^ 64 ->
  exists issued', gossip_ok issued' (committed ++ committed_updates ops) (foldl gossip_step t ops) /\
    next_revision_ (foldl gossip_step t ops) <= next_revision_ t + Z.of_nat (advertised ops).
Proof.
  induction ops as [|op ops IH]; intros issued committed handed t Ht Hh Hc Hb.
  { exists issued. cbn. rewrite app_nil_r. split; [done|lia]. }
  cbn [commits_prepared] in Hc. destruct Hc as [Hop Hc].
  destruct op as [rc current force|rc ups|s]; cbn [foldl gossip_step advertised] in *.
  - rewrite Nat2Z.inj_add in *. destruct (prepare rc current force t) as [ups t1] eqn:E. cbn [fst snd] in *.
    destruct (prepare_spec _ _ rc current force t ups t1 Ht ltac:(lia) E)
      as (issued1 & Hsub & Ht1 & Hn1 & _ & _ & Hups).
    destruct (IH issued1 committed (handed ++ (pair rc <$> ups)) t1 Ht1) as (issued2 & H1 & H2);
      [|done|lia|].
    + apply Forall_app. split.
      * eapply Forall_impl; [exact Hh|]. intros ru Hru. cbn in *.
        by apply (lookup_weaken _ _ _ _ Hru).
      * apply Forall_fmap, Forall_forall. intros u Hu. cbn.
        apply Hups in Hu as (n & ca & Hca & -> & _). by destruct (current_issued _ _ _ _ _ Ht1 Hca) as [? _].
    + exists issued2. split; [done|lia].
  - destruct (IH issued (committed ++ (pair rc <$> ups)) handed
      (commit rc (revision_of <$> ups) t)) as (issued2 & H1 & H2); [|done|done|done|].
    + apply commit_ok; [done|]. eapply Forall_impl; [exact Hop|]. intros u Hu.
      rewrite Forall_forall in Hh. by apply (Hh (rc, u)).
    + exists issued2. rewrite <- app_assoc in H1. done.
  - destruct (IH issued committed handed (retain_recipients s t)) as (issued2 & H1 & H2);
      [by apply retain_ok|done|done|done|]. by exists issued2.
Qed.

Lemma gossip_init_ok : gossip_ok ∅ [] gossip_init.
Proof.
  split; cbn [current_ sent_ next_revision_ gossip_init]; try lia.
  - split_and!; [intros ? ?|intros ? ?|intros ? ? ?]; by rewrite lookup_empty.
  - intros ? ? ? ?. by rewrite lookup_empty.
  - by intros ? ? ?%not_elem_of_nil.
Qed.

(** Preparing the same advertisements again once all updates are committed yields nothing. *)
Lemma prepare_commit_prepare issued committed rc current force t ups t1 :
  gossip_ok issued committed t -> next_revision_ t + 2 * Z.of_nat (length current) < 2 ^ 64 ->
  prepare rc current force t = (ups, t1) ->
  fst (prepare rc current false (commit rc (revision_of <$> ups) t1)) = [].
Proof.
  intros Ht Hb E.
  destruct (prepare_spec _ _ rc current force t ups t1 Ht ltac:(lia) E)
    as (issued1 & _ & Ht1 & Hn1 & Hcan & Hback & Hups).
  set (t2 := commit rc (revision_of <$> ups) t1).
  assert (gossip_ok issued1 (committed ++ (pair rc <$> ups)) t2) as Ht2.
  { apply commit_ok; [done|]. apply Forall_forall. intros u Hu.
    apply Hups in Hu as (n & ca & Hca & -> & _). by destruct (current_issued _ _ _ _ _ Ht1 Hca) as [? _]. }
  destruct (prepare rc current false t2) as [ups2 t3] eqn:E2. cbn [fst].
  assert (current_ t3 = current_ t1 /\
    sent_ t3 = (λ m, filter (λ kr, is_Some (current_ t1 !! kr.1)) m) <$> sent_ t2) as [Ecur Esent].
  { unfold prepare in E2. rewrite map_filter_id in E2.
    2: { intros n ca Hca. cbn. rewrite (Hback n ca Hca). eauto. }
    rewrite refresh_all_keep in E2; [by injection E2 as _ <-|].
    intros n p Hp%elem_of_entries. by apply Hcan. }
  destruct (prepare_spec _ _ rc current false t2 ups2 t3 Ht2 ltac:(cbn; lia) E2)
    as (_ & _ & _ & _ & _ & _ & Hups2).
  destruct ups2 as [|u ups2]; [done|]. exfalso.
  destruct (proj1 (Hups2 u) ltac:(by left)) as (n & ca & Hca & _ & [?|Hf]); [done|].
  apply Hf. rewrite Ecur in Hca. destruct (current_issued _ _ _ _ _ Ht1 Hca) as (_ & Hnode & Hpos).
  unfold up_to_date. rewrite Esent, lookup_fmap. cbn [sent_ t2 commit]. rewrite lookup_insert_eq.
  eexists. split; [done|]. apply map_lookup_filter_Some. split; [|cbn; eauto].
  rewrite (commit_revisions_exact ups n (ca_revision ca)).
  - destruct (decide (Exists _ ups)) as [|Hno]; [done|].
    assert (up_to_date t1 rc n ca) as (m & Hm & Hr); [|by rewrite Hm].
    apply dec_stable. intros Hnot. destruct Hno. apply Exists_exists. exists (update_of ca).
    split; [|done]. apply Hups. exists n, ca. eauto.
  - intros v Hv Hn. apply Hups in Hv as (n' & ca' & Hca' & -> & _).
    destruct (current_issued _ _ _ _ _ Ht1 Hca') as (_ & Hn' & _). cbn in Hn.
    rewrite Hn in Hn'. subst n'. rewrite Hca in Hca'. by injection Hca' as <-.
  - destruct (sent_ t1 !! rc) as [m0|] eqn:E0; cbn; [|rewrite lookup_empty; cbn; lia].
    destruct (m0 !! n) as [r0|] eqn:Er; cbn; [by eapply (committed_latest _ _ t1)|lia].
Qed.


Definition example_advert : AdvertisedPeer := mkAdvPeer (replicate 32 x01) (replicate 32 x02) [] [].
Definition example_recipient : list byte := replicate 32 x03.
Definition example_ops : list GossipOp :=
  [GPrepare example_recipient [example_advert] false;
   GCommit example_recipient [mkUpdate example_advert 1]].


(** The interval stays within the jitter of its base. *)
Lemma jittered_gossip_interval_bounds sample base jitter :
  0 < base -> 0 <= jitter <= base -> jitter < 2 ^ 62 ->
  base - jitter <= jittered_gossip_interval sample base jitter <= base + jitter.
Proof.
  intros Hb Hj H62. unfold jittered_gossip_interval. destruct sample as [x|]; [|lia].
  destruct (_ || _ || _); [lia|]. rewrite (wrap_small 64 jitter) by (unfold in_width; lia).
  destruct (_ <? _); [lia|]. rewrite wrap_small by (unfold in_width; lia).
  pose proof (Z.mod_pos_bound x (jitter * 2 + 1) ltac:(lia)). lia.
Qed.
