(* ===== verification/FileMsg.v ===== *)
(** * File transfer messages

    The wire formats, file names and limits of [src/file/transfer.cpp].  A [std::string]
    is a list of bytes. *)

From Stdlib Require Import String.
From Stdlib Require Import ZArith Lia Bool.
From Stdlib.Strings Require Import Byte.
From stdpp Require Import base numbers option list.
From S2P Require Import Prelude Wire Packet Crypto.
#[local] Open Scope Z_scope.

Definition FILE_HEADER_FIXED_SIZE : nat := 58.
Definition FILE_CHUNK_FIXED_SIZE : nat := 16.
Definition FILE_ACK_FIXED_SIZE : nat := 12.
Definition FILE_ACK_RANGE_SIZE : nat := 8.
Definition FILE_CANCEL_SIZE : nat := 12.
Definition FILE_ACK_MAX_RANGES : nat := 32.
Definition FILE_TRANSFER_MAX_NAME_BYTES : Z := 255.
Definition FILE_TRANSFER_MIN_CHUNK_SIZE : Z := 512.
Definition FILE_TRANSFER_MAX_CHUNK_SIZE : Z :=
  SESSION_MAX_LOGICAL_PAYLOAD_SIZE - Z.of_nat FILE_CHUNK_FIXED_SIZE.
Definition FILE_TRANSFER_MAX_FILE_SIZE : Z := 1024 * 1024 * 1024.
Definition FILE_TRANSFER_MAX_CHUNKS : Z :=
  (FILE_TRANSFER_MAX_FILE_SIZE + FILE_TRANSFER_MIN_CHUNK_SIZE - 1) /
  FILE_TRANSFER_MIN_CHUNK_SIZE.
Definition FILE_TRANSFER_MAX_ACTIVE_PER_PEER : Z := 4.
Definition FILE_TRANSFER_MAX_ACTIVE_GLOBAL : Z := 32.
Definition FILE_TRANSFER_MAX_RESERVED_PER_PEER : Z := 2 * FILE_TRANSFER_MAX_FILE_SIZE.
Definition FILE_TRANSFER_MAX_RESERVED_GLOBAL : Z := 8 * FILE_TRANSFER_MAX_FILE_SIZE.
(** Five minutes, in nanoseconds. *)
Definition FILE_TRANSFER_IDLE_TIMEOUT : Z := secs 300.

Record FileTransferHeader := mkFileHeader {
  fh_transfer_id : Z;
  fh_file_size : Z;
  fh_chunk_size : Z;
  fh_total_chunks : Z;
  fh_content_hash : list byte;
  fh_filename : list byte;
}.

Record FileTransferChunk := mkFileChunk {
  fc_transfer_id : Z;
  fc_chunk_index : Z;
  fc_data : list byte;
}.

Record FileAckRange := mkRange { range_first : Z; range_count : Z }.

Record FileTransferAck := mkFileAck {
  fa_transfer_id : Z;
  fa_header_received : bool;
  fa_ranges : list FileAckRange;
}.

Inductive FileCancelReason :=
  | SenderCancelled | RetryLimit | TimedOut | Capacity | OtherReason (raw : Z).

Record FileTransferCancel := mkFileCancel {
  fx_transfer_id : Z;
  fx_reason : FileCancelReason;
}.

#[export] Instance ack_range_eq_dec : EqDecision FileAckRange.
Proof. solve_decision. Defined.

(** ** File names *)

Definition ascii_upper (c : byte) : byte :=
  if (97 <=? bval c) && (bval c <=? 122) then b8 (bval c - 32) else c.

(** [right] is a literal in upper case. *)
Definition ascii_iequals (left right : list byte) : bool :=
  Nat.eqb (length left) (length right) && bool_decide (map ascii_upper left = right).

Definition lit (s : String.string) : list byte := String.list_byte_of_string s.

(** The part before the first dot. *)
Fixpoint stem (name : list byte) : list byte :=
  match name with
  | [] => []
  | c :: name => if bval c =? 46 then [] else c :: stem name
  end.

Definition is_reserved_windows_name (filename : list byte) : bool :=
  let stem := stem filename in
  if ascii_iequals stem (lit "CON") || ascii_iequals stem (lit "PRN") ||
     ascii_iequals stem (lit "AUX") || ascii_iequals stem (lit "NUL") ||
     ascii_iequals stem (lit "CONIN$") || ascii_iequals stem (lit "CONOUT$")
  then true
  else
    match stem with
    | [_; _; _; d] =>
        if (49 <=? bval d) && (bval d <=? 57)
        then ascii_iequals (take 3 stem) (lit "COM") || ascii_iequals (take 3 stem) (lit "LPT")
        else false
    | _ => false
    end.

(** Control characters, double quote and [* / : < > ? \ |]. *)
Definition forbidden_char (c : byte) : bool :=
  let v := bval c in
  (v <? 32) || (v =? 127) || (v =? 34) || (v =? 42) || (v =? 47) || (v =? 58) || (v =? 60) ||
  (v =? 62) || (v =? 63) || (v =? 92) || (v =? 124).

Definition is_safe_file_name (filename : list byte) : bool :=
  match last filename with
  | None => false
  | Some back =>
      if (FILE_TRANSFER_MAX_NAME_BYTES <? Z.of_nat (length filename)) ||
         bool_decide (filename = lit ".") || bool_decide (filename = lit "..") ||
         (bval back =? 46) || (bval back =? 32) || is_reserved_windows_name filename
      then false
      else forallb (λ c, negb (forbidden_char c)) filename
  end.

Definition is_separator (c : byte) : bool := (bval c =? 47) || (bval c =? 92).

(** The part after the last separator. *)
Fixpoint basename (path : list byte) : list byte :=
  match path with
  | [] => []
  | _ :: rest =>
      if negb (existsb is_separator path) then path
      else if existsb is_separator rest then basename rest
      else rest
  end.

Definition sanitize_file_name (path : list byte) : option (list byte) :=
  let filename := basename path in
  if is_safe_file_name filename then Some filename else None.

Definition hex_digit (v : Z) : byte := if v <? 10 then b8 (48 + v) else b8 (87 + v).

Definition hex_byte (b : byte) : list byte :=
  [hex_digit (Z.shiftr (bval b) 4); hex_digit (Z.land (bval b) 15)].

Definition hex_u64 (x : Z) : list byte :=
  map (λ k, hex_digit (Z.land (Z.shiftr x (4 * k)) 15)) (rev (seqZ 0 16)).

Definition file_transfer_part_name (sender : NodeId) (transfer_id : Z) : list byte :=
  lit ".aegis-" ++ flat_map hex_byte sender ++ lit "-" ++ hex_u64 transfer_id ++ lit ".part".

(** ** Validity *)

Definition file_chunk_size_for_overlay_mtu (overlay_mtu : Z) : option Z :=
  let payload_budget := Z.min overlay_mtu SESSION_MAX_LOGICAL_PAYLOAD_SIZE in
  if payload_budget <? Z.of_nat FILE_CHUNK_FIXED_SIZE + FILE_TRANSFER_MIN_CHUNK_SIZE
  then None else Some (wrap 32 (payload_budget - Z.of_nat FILE_CHUNK_FIXED_SIZE)).

Definition file_transfer_chunk_count (file_size chunk_size : Z) : Z :=
  if (FILE_TRANSFER_MAX_FILE_SIZE <? file_size) ||
     (chunk_size <? FILE_TRANSFER_MIN_CHUNK_SIZE) ||
     (FILE_TRANSFER_MAX_CHUNK_SIZE <? chunk_size) then 0
  else if file_size =? 0 then 1
  else wrap 32 (1 + (file_size - 1) / chunk_size).

Definition is_valid_file_header (h : FileTransferHeader) : bool :=
  let expected_chunks := file_transfer_chunk_count (fh_file_size h) (fh_chunk_size h) in
  negb (fh_transfer_id h =? 0) && negb (expected_chunks =? 0) &&
  (fh_total_chunks h =? expected_chunks) && is_safe_file_name (fh_filename h).

Definition is_valid_file_chunk (c : FileTransferChunk) : bool :=
  negb (fc_transfer_id c =? 0) && (fc_chunk_index c <? FILE_TRANSFER_MAX_CHUNKS) &&
  (Z.of_nat (length (fc_data c)) <=? FILE_TRANSFER_MAX_CHUNK_SIZE).

Definition is_valid_file_chunk_for_header (h : FileTransferHeader) (c : FileTransferChunk)
    : bool :=
  if negb (is_valid_file_header h) || negb (is_valid_file_chunk c) ||
     negb (fc_transfer_id c =? fh_transfer_id h) || (fh_total_chunks h <=? fc_chunk_index c)
  then false
  else
    let expected_size :=
      if wrap 32 (fc_chunk_index c + 1) =? fh_total_chunks h
      then wrap 64 (fh_file_size h - wrap 64 (fc_chunk_index c * fh_chunk_size h))
      else fh_chunk_size h in
    Z.of_nat (length (fc_data c)) =? expected_size.

Definition file_transfer_admission_allowed
    (peer_count peer_bytes global_count global_bytes requested_bytes : Z) : bool :=
  if (FILE_TRANSFER_MAX_FILE_SIZE <? requested_bytes) ||
     (FILE_TRANSFER_MAX_ACTIVE_PER_PEER <=? peer_count) ||
     (FILE_TRANSFER_MAX_ACTIVE_GLOBAL <=? global_count) then false
  else negb ((FILE_TRANSFER_MAX_RESERVED_PER_PEER - requested_bytes <? peer_bytes) ||
             (FILE_TRANSFER_MAX_RESERVED_GLOBAL - requested_bytes <? global_bytes)).

Definition file_transfer_idle_expired (last_activity now : Z) : bool :=
  (last_activity <=? now) && (FILE_TRANSFER_IDLE_TIMEOUT <=? now - last_activity).

(** ** Wire formats *)

Definition serialize_file_header (h : FileTransferHeader) : option (list byte) :=
  if negb (is_valid_file_header h) then None
  else encode_exact (FILE_HEADER_FIXED_SIZE + length (fh_filename h))
    (write_u64 (fh_transfer_id h) &> write_u64 (fh_file_size h) &>
     write_u32 (fh_chunk_size h) &> write_u32 (fh_total_chunks h) &>
     write_bytes (fh_content_hash h) &>
     write_u16 (wrap 16 (Z.of_nat (length (fh_filename h)))) &> write_bytes (fh_filename h)).

Definition deserialize_file_header (payload : list byte) : option FileTransferHeader :=
  let r := wire_reader payload in
  let '(transfer_id, r) := read_u64 r in
  let '(file_size, r) := read_u64 r in
  let '(chunk_size, r) := read_u32 r in
  let '(total_chunks, r) := read_u32 r in
  let '(content_hash, r) := read_bytes 32 r in
  let '(filename_length, r) := read_u16 r in
  match transfer_id, file_size, chunk_size, total_chunks, content_hash, filename_length with
  | Some transfer_id, Some file_size, Some chunk_size, Some total_chunks,
    Some content_hash, Some filename_length =>
      let '(filename, r) := read_bytes (Z.to_nat filename_length) r in
      match filename with
      | None => None
      | Some filename =>
          if negb (rd_finished r) then None
          else
            let h := mkFileHeader transfer_id file_size chunk_size total_chunks content_hash
                       filename in
            if is_valid_file_header h then Some h else None
      end
  | _, _, _, _, _, _ => None
  end.

Definition serialize_file_chunk (c : FileTransferChunk) : option (list byte) :=
  if negb (is_valid_file_chunk c) then None
  else encode_exact (FILE_CHUNK_FIXED_SIZE + length (fc_data c))
    (write_u64 (fc_transfer_id c) &> write_u32 (fc_chunk_index c) &>
     write_u32 (wrap 32 (Z.of_nat (length (fc_data c)))) &> write_bytes (fc_data c)).

Definition deserialize_file_chunk (payload : list byte) : option FileTransferChunk :=
  let r := wire_reader payload in
  let '(transfer_id, r) := read_u64 r in
  let '(chunk_index, r) := read_u32 r in
  let '(data_length, r) := read_u32 r in
  match transfer_id, chunk_index, data_length with
  | Some transfer_id, Some chunk_index, Some data_length =>
      let '(data, r) := read_bytes (Z.to_nat data_length) r in
      match data with
      | None => None
      | Some data =>
          if negb (rd_finished r) then None
          else
            let c := mkFileChunk transfer_id chunk_index data in
            if is_valid_file_chunk c then Some c else None
      end
  | _, _, _ => None
  end.

(** The loop over the ranges of an acknowledgement: non-empty, increasing and disjoint. *)
Fixpoint ranges_ok (previous_end : Z) (ranges : list FileAckRange) : bool :=
  match ranges with
  | [] => true
  | r :: ranges =>
      let end_ := range_first r + range_count r in
      if (range_count r =? 0) || (FILE_TRANSFER_MAX_CHUNKS <? end_) ||
         (range_first r <? previous_end) then false
      else ranges_ok end_ ranges
  end.

Definition write_range (r : FileAckRange) : WriteOp :=
  write_u32 (range_first r) &> write_u32 (range_count r).

Definition serialize_file_ack (a : FileTransferAck) : option (list byte) :=
  if (fa_transfer_id a =? 0) || Nat.ltb FILE_ACK_MAX_RANGES (length (fa_ranges a)) then None
  else if negb (ranges_ok 0 (fa_ranges a)) then None
  else encode_exact (FILE_ACK_FIXED_SIZE + length (fa_ranges a) * FILE_ACK_RANGE_SIZE)
    (write_u64 (fa_transfer_id a) &> write_u8 (if fa_header_received a then 1 else 0) &>
     write_u8 0 &> write_u16 (wrap 16 (Z.of_nat (length (fa_ranges a)))) &>
     write_each write_range (fa_ranges a)).

Fixpoint read_ranges (count : nat) (previous_end : Z) (r : WireReader)
    : option (list FileAckRange) * WireReader :=
  match count with
  | O => (Some [], r)
  | S count =>
      let '(first, r) := read_u32 r in
      let '(cnt, r) := read_u32 r in
      match first, cnt with
      | Some first, Some cnt =>
          let end_ := first + cnt in
          if (cnt =? 0) || (FILE_TRANSFER_MAX_CHUNKS <? end_) || (first <? previous_end)
          then (None, r)
          else
            match read_ranges count end_ r with
            | (None, r) => (None, r)
            | (Some ranges, r) => (Some (mkRange first cnt :: ranges), r)
            end
      | _, _ => (None, r)
      end
  end.

Definition deserialize_file_ack (payload : list byte) : option FileTransferAck :=
  let r := wire_reader payload in
  let '(transfer_id, r) := read_u64 r in
  let '(flags, r) := read_u8 r in
  let '(reserved, r) := read_u8 r in
  let '(range_count, r) := read_u16 r in
  match transfer_id, flags, reserved, range_count with
  | Some transfer_id, Some flags, Some reserved, Some range_count =>
      if (transfer_id =? 0) || negb (Z.land flags 254 =? 0) || negb (reserved =? 0) ||
         (Z.of_nat FILE_ACK_MAX_RANGES <? range_count) then None
      else
        match read_ranges (Z.to_nat range_count) 0 r with
        | (None, _) => None
        | (Some ranges, r) =>
            if rd_finished r
            then Some (mkFileAck transfer_id (negb (Z.land flags 1 =? 0)) ranges) else None
        end
  | _, _, _, _ => None
  end.

Definition reason_value (r : FileCancelReason) : Z :=
  match r with
  | SenderCancelled => 1 | RetryLimit => 2 | TimedOut => 3 | Capacity => 4
  | OtherReason raw => raw
  end.
Definition reason_of (raw : Z) : FileCancelReason :=
  if raw =? 1 then SenderCancelled else if raw =? 2 then RetryLimit
  else if raw =? 3 then TimedOut else if raw =? 4 then Capacity else OtherReason raw.

Definition serialize_file_cancel (c : FileTransferCancel) : option (list byte) :=
  let reason := reason_value (fx_reason c) in
  if (fx_transfer_id c =? 0) || (reason <? 1) || (4 <? reason) then None
  else encode_exact FILE_CANCEL_SIZE
    (write_u64 (fx_transfer_id c) &> write_u8 reason &> write_u8 0 &> write_u16 0).

Definition deserialize_file_cancel (payload : list byte) : option FileTransferCancel :=
  let r := wire_reader payload in
  let '(transfer_id, r) := read_u64 r in
  let '(reason, r) := read_u8 r in
  let '(reserved_byte, r) := read_u8 r in
  let '(reserved_word, r) := read_u16 r in
  match transfer_id, reason, reserved_byte, reserved_word with
  | Some transfer_id, Some reason, Some reserved_byte, Some reserved_word =>
      if negb (rd_finished r) || (transfer_id =? 0) || (reason <? 1) || (4 <? reason) ||
         negb (reserved_byte =? 0) || negb (reserved_word =? 0) then None
      else Some (mkFileCancel transfer_id (reason_of reason))
  | _, _, _, _ => None
  end.

(** ** The messages on the wire *)

Definition file_header_wf (h : FileTransferHeader) : Prop :=
  u64 (fh_transfer_id h) /\ u64 (fh_file_size h) /\ u32 (fh_chunk_size h) /\
  u32 (fh_total_chunks h) /\ is32 (fh_content_hash h) /\ is_valid_file_header h = true.

Definition file_header_bytes (h : FileTransferHeader) : list byte :=
  be_split 8 (fh_transfer_id h) ++ be_split 8 (fh_file_size h) ++
  be_split 4 (fh_chunk_size h) ++ be_split 4 (fh_total_chunks h) ++ fh_content_hash h ++
  be_split 2 (Z.of_nat (length (fh_filename h))) ++ fh_filename h.

Lemma safe_name_length name :
  is_safe_file_name name = true -> 1 <= Z.of_nat (length name) <= FILE_TRANSFER_MAX_NAME_BYTES.
Proof.
  unfold is_safe_file_name. destruct (last name) as [c|] eqn:Hl; [|done].
  assert (name <> []) by (by intros ->). destruct name; [done|]. rewrite length_cons.
  destruct (_ || _ || _ || _ || _ || _) eqn:E; [done|]. intros _.
  rewrite !orb_false_iff in E. destruct E as [[[[[E _] _] _] _] _].
  apply Z.ltb_ge in E. lia.
Qed.

Lemma valid_header_name h :
  is_valid_file_header h = true -> is_safe_file_name (fh_filename h) = true.
Proof. unfold is_valid_file_header. rewrite !andb_true_iff. tauto. Qed.

Lemma valid_header_chunks h :
  is_valid_file_header h = true -> 0 <= fh_file_size h ->
  0 < fh_total_chunks h <= FILE_TRANSFER_MAX_CHUNKS.
Proof.
  intros Hv Hs. revert Hv. unfold is_valid_file_header, file_transfer_chunk_count. rewrite !andb_true_iff.
  intros [[[_ Hne] ->%Z.eqb_eq] _]. apply negb_true_iff, Z.eqb_neq in Hne.
  destruct (_ || _ || _) eqn:E; [done|]. rewrite !orb_false_iff, !Z.ltb_ge in E.
  change FILE_TRANSFER_MAX_CHUNKS with 2097152.
  change FILE_TRANSFER_MAX_FILE_SIZE with 1073741824 in E.
  change FILE_TRANSFER_MIN_CHUNK_SIZE with 512 in E.
  destruct (Z.eqb_spec (fh_file_size h) 0); [lia|].
  assert (0 <= (fh_file_size h - 1) / fh_chunk_size h <= 2097151) as Hd.
  { split; [apply Z.div_pos; lia|]. etrans; [apply (Z.div_le_compat_l _ 512); lia|].
    apply Z.lt_succ_r, Z.div_lt_upper_bound; lia. }
  rewrite wrap_small by (unfold in_width; lia). lia.
Qed.

Lemma valid_header_name_length h :
  is_valid_file_header h = true -> u16 (Z.of_nat (length (fh_filename h))).
Proof.
  intros H%valid_header_name%safe_name_length. unfold FILE_TRANSFER_MAX_NAME_BYTES in H.
  unfold in_width. lia.
Qed.

Lemma serialize_header_wf h :
  file_header_wf h -> serialize_file_header h = Some (file_header_bytes h).
Proof.
  intros (_ & _ & _ & _ & Hh & Hv). unfold serialize_file_header. rewrite Hv. cbn [negb].
  rewrite wrap_small by by apply valid_header_name_length.
  erewrite encode_exact_emits by solve_emits.
  rewrite decide_True; [done|]. rewrite !length_app, !length_be_split, Hh. done.
Qed.

Lemma deserialize_header_spec bs h :
  deserialize_file_header bs = Some h <-> file_header_wf h /\ bs = file_header_bytes h.
Proof.
  unfold deserialize_file_header. rewrite wire_reader_at. split.
  - intros H. do 7 rd_inv_step H. rewrite rd_finished_at in H.
    case_bool_decide; [|done]. subst. cbn [negb] in H.
    destruct (is_valid_file_header _) eqn:Hv; [|done]. injection H as <-.
    unfold file_header_wf, file_header_bytes.
    cbn [fh_transfer_id fh_file_size fh_chunk_size fh_total_chunks fh_content_hash fh_filename].
    rewrite W5, Z2Nat.id, app_nil_r by (unfold in_width in *; lia). done.
  - intros [(H1 & H2 & H3 & H4 & H5 & Hv) ->]. unfold file_header_bytes.
    pose proof (valid_header_name_length h Hv) as H6.
    rewrite <- (app_nil_r (fh_filename h)) at 2. rd_run.
    rewrite rd_finished_at, bool_decide_eq_true_2 by done. cbn [negb].
    destruct h; cbn [fh_transfer_id fh_file_size fh_chunk_size fh_total_chunks
      fh_content_hash fh_filename]; by rewrite Hv.
Qed.

Definition file_chunk_wf (c : FileTransferChunk) : Prop :=
  u64 (fc_transfer_id c) /\ u32 (fc_chunk_index c) /\ is_valid_file_chunk c = true.

Definition file_chunk_bytes (c : FileTransferChunk) : list byte :=
  be_split 8 (fc_transfer_id c) ++ be_split 4 (fc_chunk_index c) ++
  be_split 4 (Z.of_nat (length (fc_data c))) ++ fc_data c.

Lemma valid_chunk_length c :
  is_valid_file_chunk c = true -> u32 (Z.of_nat (length (fc_data c))).
Proof.
  unfold is_valid_file_chunk. rewrite !andb_true_iff, Z.leb_le. intros [_ H].
  change FILE_TRANSFER_MAX_CHUNK_SIZE with 4076 in H. unfold in_width. lia.
Qed.

Lemma serialize_chunk_wf c :
  file_chunk_wf c -> serialize_file_chunk c = Some (file_chunk_bytes c).
Proof.
  intros (_ & _ & Hv). unfold serialize_file_chunk. rewrite Hv. cbn [negb].
  rewrite wrap_small by by apply valid_chunk_length.
  erewrite encode_exact_emits by solve_emits.
  rewrite decide_True; [done|]. by rewrite !length_app, !length_be_split.
Qed.

Lemma deserialize_chunk_spec bs c :
  deserialize_file_chunk bs = Some c <-> file_chunk_wf c /\ bs = file_chunk_bytes c.
Proof.
  unfold deserialize_file_chunk. rewrite wire_reader_at. split.
  - intros H. do 4 rd_inv_step H. rewrite rd_finished_at in H.
    case_bool_decide; [|done]. subst. cbn [negb] in H.
    destruct (is_valid_file_chunk _) eqn:Hv; [|done]. injection H as <-.
    unfold file_chunk_wf, file_chunk_bytes. cbn [fc_transfer_id fc_chunk_index fc_data].
    rewrite W2, Z2Nat.id, app_nil_r by (unfold in_width in *; lia). done.
  - intros [(H1 & H2 & Hv) ->]. unfold file_chunk_bytes.
    pose proof (valid_chunk_length c Hv) as H3.
    rewrite <- (app_nil_r (fc_data c)) at 2. rd_run.
    rewrite rd_finished_at, bool_decide_eq_true_2 by done. cbn [negb].
    destruct c; cbn [fc_transfer_id fc_chunk_index fc_data]; by rewrite Hv.
Qed.

Definition range_bytes (r : FileAckRange) : list byte :=
  be_split 4 (range_first r) ++ be_split 4 (range_count r).
Arguments range_bytes : simpl never.

Definition range_wf (r : FileAckRange) : Prop := u32 (range_first r) /\ u32 (range_count r).

Lemma length_flat_ranges rs : length (flat_map range_bytes rs) = (length rs * 8)%nat.
Proof.
  induction rs as [|r rs IH]; [done|]. cbn [flat_map length].
  unfold range_bytes at 1. rewrite !length_app, !length_be_split, IH. lia.
Qed.

Lemma read_ranges_ok rs end_ pre post :
  Forall range_wf rs -> ranges_ok end_ rs = true ->
  read_ranges (length rs) end_ (rd_at pre (flat_map range_bytes rs ++ post)) =
    (Some rs, rd_at (pre ++ flat_map range_bytes rs) post).
Proof.
  intros Hwf. revert end_ pre. induction Hwf as [|[f c] rs [Hf Hc] Hrs IH]; intros end_ pre.
  { simpl. by rewrite app_nil_r. }
  cbn [length read_ranges ranges_ok flat_map range_first range_count].
  destruct (_ || _) eqn:Hg; [done|]. intros Hv.
  unfold range_bytes at 1. rewrite <- !app_assoc. rd_run.
  cbn [range_first range_count] in *. rewrite Hg, IH by done.
  unfold range_bytes at 3. by rewrite <- !app_assoc.
Qed.

Lemma read_ranges_inv n end_ pre post rs r' :
  read_ranges n end_ (rd_at pre post) = (Some rs, r') ->
  length rs = n /\ Forall range_wf rs /\ ranges_ok end_ rs = true /\
  exists post', post = flat_map range_bytes rs ++ post' /\
    r' = rd_at (pre ++ flat_map range_bytes rs) post'.
Proof.
  revert end_ pre post rs r'. induction n as [|n IH]; intros end_ pre post rs r' H; simpl in H.
  { injection H as <- <-. split_and!; [done|constructor|done|]. exists post.
    by rewrite app_nil_r. }
  do 2 rd_inv_step H. destruct (_ || _ || _) eqn:Hg; [done|].
  destruct (read_ranges _ _ _) as [[rs1|] r2] eqn:E; [|done].
  apply IH in E as (Hn & Hwf & Hv & p2 & -> & ->). injection H as <- <-.
  cbn [ranges_ok range_first range_count flat_map]. rewrite Hg.
  split_and!; [simpl; by f_equal|by constructor|done|]. exists p2.
  unfold range_bytes at 1 3. cbn [range_first range_count]. by rewrite <- !app_assoc.
Qed.

Definition file_ack_wf (a : FileTransferAck) : Prop :=
  u64 (fa_transfer_id a) /\ fa_transfer_id a <> 0 /\ Forall range_wf (fa_ranges a) /\
  (length (fa_ranges a) <= FILE_ACK_MAX_RANGES)%nat /\ ranges_ok 0 (fa_ranges a) = true.

Definition file_ack_bytes (a : FileTransferAck) : list byte :=
  be_split 8 (fa_transfer_id a) ++ be_split 1 (if fa_header_received a then 1 else 0) ++
  be_split 1 0 ++ be_split 2 (Z.of_nat (length (fa_ranges a))) ++
  flat_map range_bytes (fa_ranges a).

Lemma serialize_ack_wf a : file_ack_wf a -> serialize_file_ack a = Some (file_ack_bytes a).
Proof.
  intros (_ & Hi & _ & Hn & Hr). unfold serialize_file_ack, FILE_ACK_MAX_RANGES in *.
  rewrite (proj2 (Z.eqb_neq _ _) Hi), (proj2 (Nat.ltb_ge _ _) Hn), Hr. cbn [orb negb].
  rewrite wrap_small by (unfold in_width; lia).
  erewrite encode_exact_emits.
  2:{ repeat (simple eapply emits_and; [solve_emits|]).
      apply emits_each with (enc := range_bytes). intros. unfold write_range, range_bytes.
      solve_emits. }
  rewrite decide_True; [done|]. rewrite !length_app, !length_be_split, length_flat_ranges.
  unfold FILE_ACK_FIXED_SIZE, FILE_ACK_RANGE_SIZE. lia.
Qed.

Lemma ack_flags v :
  u8 v -> Z.land v 254 = 0 -> v = if negb (Z.land v 1 =? 0) then 1 else 0.
Proof.
  unfold in_width. intros Hv Hz.
  assert (v = Z.lor (Z.land v 254) (Z.land v 1)) as Hs.
  { rewrite <- Z.land_lor_distr_r. change (Z.lor 254 1) with (Z.ones 8).
    rewrite Z.land_ones by lia. symmetry. apply Z.mod_small. lia. }
  rewrite Hz, Z.lor_0_l in Hs. rewrite Hs at 1. change 1 with (Z.ones 1) at 1.
  rewrite Z.land_ones by lia. change (Z.land v 1) with (Z.land v (Z.ones 1)).
  rewrite Z.land_ones by lia. pose proof (Z.mod_pos_bound v (2 ^ 1) ltac:(lia)).
  destruct (Z.eqb_spec (v mod 2 ^ 1) 0); simpl; lia.
Qed.

Lemma deserialize_ack_spec bs a :
  deserialize_file_ack bs = Some a <-> file_ack_wf a /\ bs = file_ack_bytes a.
Proof.
  unfold deserialize_file_ack. rewrite wire_reader_at. split.
  - intros H. do 4 rd_inv_step H. destruct (_ || _ || _ || _) eqn:Hg; [done|].
    rewrite !orb_false_iff, !negb_false_iff, Z.eqb_neq, !Z.eqb_eq, Z.ltb_ge in Hg.
    destruct Hg as [[[Hi Hfl] ->] Hn].
    destruct (read_ranges _ _ _) as [[rs|] r'] eqn:E; [|done].
    apply read_ranges_inv in E as (Hlen & Hwf & Hr & p & -> & ->).
    rewrite rd_finished_at in H. case_bool_decide; [|done]. subst p. injection H as <-.
    unfold file_ack_wf, file_ack_bytes, FILE_ACK_MAX_RANGES in *.
    cbn [fa_transfer_id fa_header_received fa_ranges].
    rewrite <- (ack_flags v0) by done.
    rewrite Hlen, Z2Nat.id, app_nil_r by (unfold in_width in *; lia).
    split; [|done]. split_and!; try done. lia.
  - intros [(Hu & Hi & Hwf & Hn & Hr) ->]. unfold file_ack_bytes, FILE_ACK_MAX_RANGES in *.
    assert (u8 (if fa_header_received a then 1 else 0))
      by (destruct (fa_header_received a); done).
    assert (u16 (Z.of_nat (length (fa_ranges a)))) by (unfold in_width; lia).
    rewrite <- (app_nil_r (flat_map range_bytes _)). rd_run.
    rewrite (proj2 (Z.eqb_neq _ _) Hi), (proj2 (Z.ltb_ge _ _)) by lia.
    rewrite Nat2Z.id, read_ranges_ok by done.
    rewrite rd_finished_at, bool_decide_eq_true_2 by done.
    destruct a as [i b rs]; cbn [fa_header_received fa_transfer_id fa_ranges]; by destruct b.
Qed.

Definition file_cancel_wf (c : FileTransferCancel) : Prop :=
  u64 (fx_transfer_id c) /\ fx_transfer_id c <> 0 /\
  (forall raw, fx_reason c <> OtherReason raw).

Definition file_cancel_bytes (c : FileTransferCancel) : list byte :=
  be_split 8 (fx_transfer_id c) ++ be_split 1 (reason_value (fx_reason c)) ++ be_split 1 0 ++
  be_split 2 0.

Lemma reason_known r : (forall raw, r <> OtherReason raw) ->
  1 <= reason_value r <= 4 /\ reason_of (reason_value r) = r.
Proof. intros H. by destruct r; [..|by destruct (H raw)]. Qed.

Lemma reason_of_known v : 1 <= v <= 4 ->
  reason_value (reason_of v) = v /\ (forall raw, reason_of v <> OtherReason raw).
Proof. intros Hv. assert (v = 1 \/ v = 2 \/ v = 3 \/ v = 4) as [->|[->|[->| ->]]] by lia; done. Qed.

Lemma serialize_cancel_wf c :
  file_cancel_wf c -> serialize_file_cancel c = Some (file_cancel_bytes c).
Proof.
  intros (_ & Hi & [Hr _]%reason_known). unfold serialize_file_cancel.
  rewrite (proj2 (Z.eqb_neq _ _) Hi), !(proj2 (Z.ltb_ge _ _)) by lia. cbn [orb].
  erewrite encode_exact_emits by solve_emits.
  by rewrite decide_True by by rewrite !length_app, !length_be_split.
Qed.

Lemma deserialize_cancel_spec bs c :
  deserialize_file_cancel bs = Some c <-> file_cancel_wf c /\ bs = file_cancel_bytes c.
Proof.
  unfold deserialize_file_cancel. rewrite wire_reader_at. split.
  - intros H. do 4 rd_inv_step H. rewrite rd_finished_at in H.
    case_bool_decide; [|done]. subst. destruct (_ || _ || _ || _ || _ || _) eqn:Hg; [done|].
    rewrite !orb_false_iff, !negb_false_iff, Z.eqb_neq, !Z.eqb_eq, !Z.ltb_ge in Hg.
    destruct Hg as [[[[[_ Hi] H1] H4] ->] ->]. injection H as <-.
    destruct (reason_of_known v0 ltac:(lia)) as [Hr1 Hr2].
    unfold file_cancel_wf, file_cancel_bytes. cbn [fx_transfer_id fx_reason].
    by rewrite Hr1, app_nil_r.
  - intros [(Hu & Hi & [Hr Ho]%reason_known) ->]. unfold file_cancel_bytes.
    assert (u8 (reason_value (fx_reason c))) by (unfold in_width; lia).
    rewrite <- (app_nil_r (be_split 2 0)). rd_run.
    rewrite rd_finished_at, bool_decide_eq_true_2 by done.
    rewrite (proj2 (Z.eqb_neq _ _) Hi), !(proj2 (Z.ltb_ge _ _)) by lia. cbn [negb orb].
    destruct c; cbn [fx_transfer_id fx_reason] in *; by rewrite Ho.
Qed.

(** ** Properties *)

(** File transfer messages are canonical: for each of the four kinds (header, chunk,
    acknowledgement, cancel) a payload decodes to a message exactly when the message is
    valid and encodes to that payload. *)
Theorem file_messages_codec bs :
  (forall h, deserialize_file_header bs = Some h <->
     file_header_wf h /\ serialize_file_header h = Some bs) /\
  (forall c, deserialize_file_chunk bs = Some c <->
     file_chunk_wf c /\ serialize_file_chunk c = Some bs) /\
  (forall a, deserialize_file_ack bs = Some a <->
     file_ack_wf a /\ serialize_file_ack a = Some bs) /\
  (forall x, deserialize_file_cancel bs = Some x <->
     file_cancel_wf x /\ serialize_file_cancel x = Some bs).
Proof.
  split_and!; intros m.
  - rewrite deserialize_header_spec. split; intros [Hwf He]; split; try done;
      rewrite serialize_header_wf in * by done; congruence.
  - rewrite deserialize_chunk_spec. split; intros [Hwf He]; split; try done;
      rewrite serialize_chunk_wf in * by done; congruence.
  - rewrite deserialize_ack_spec. split; intros [Hwf He]; split; try done;
      rewrite serialize_ack_wf in * by done; congruence.
  - rewrite deserialize_cancel_spec. split; intros [Hwf He]; split; try done;
      rewrite serialize_cancel_wf in * by done; congruence.
Qed.
