(* ===== verification/FileTransfer.v ===== *)
(** * File transfer bookkeeping

    [FileChunkTracker] and [FileSendWindow] of [src/file/transfer.cpp]: which chunks a
    receiver has, the ranges it acknowledges, and the sender's window of chunks in flight
    with its retransmission timer.  Chunk indices are below the number of chunks, at most
    2^21, so they are natural numbers here and no counter can overflow. *)

From Stdlib Require Import ZArith Lia Bool.
From Stdlib.Strings Require Import Byte.
From stdpp Require Import base numbers gmap sorting option list.
From S2P Require Import Prelude Wire Packet Crypto FileMsg.
#[local] Open Scope Z_scope.

(** ** The receiver's tracker *)

Inductive FileChunkReceipt := Accepted | Duplicate | OutOfRange.
#[export] Instance receipt_eq_dec : EqDecision FileChunkReceipt.
Proof. solve_decision. Defined.

Record FileChunkTracker := mkTrackerF {
  received_ : list bool;
  received_count : nat;
  contiguous_received : nat;
}.

(** The lengths of the loops that skip received and missing chunks. *)
Fixpoint run_of (b : bool) (l : list bool) : nat :=
  match l with
  | [] => 0
  | c :: l => if Bool.eqb c b then S (run_of b l) else 0
  end.

(** [FileChunkTracker::reset] on any tracker; [None] when it returns false. *)
Definition chunk_tracker_reset (total_chunks : Z) : option FileChunkTracker :=
  if (total_chunks =? 0) || (FILE_TRANSFER_MAX_CHUNKS <? total_chunks) then None
  else Some (mkTrackerF (replicate (Z.to_nat total_chunks) false) 0 0).

Definition received (i : nat) (t : FileChunkTracker) : bool :=
  default false (received_ t !! i).

Definition record_chunk (i : nat) (t : FileChunkTracker)
    : FileChunkReceipt * FileChunkTracker :=
  match received_ t !! i with
  | None => (OutOfRange, t)
  | Some true => (Duplicate, t)
  | Some false =>
      let l := <[i := true]> (received_ t) in
      (Accepted, mkTrackerF l (received_count t + 1)
         (contiguous_received t + run_of true (drop (contiguous_received t) l)))
  end.

Definition remove_chunk (i : nat) (t : FileChunkTracker) : bool * FileChunkTracker :=
  match received_ t !! i with
  | Some true =>
      let l := <[i := false]> (received_ t) in
      (true, mkTrackerF l (received_count t - 1)
         (if Nat.ltb i (contiguous_received t) then run_of true l
          else contiguous_received t))
  | _ => (false, t)
  end.

Definition tracker_complete (t : FileChunkTracker) : bool :=
  negb (Nat.eqb (length (received_ t)) 0) &&
  Nat.eqb (received_count t) (length (received_ t)).

Definition mk_range (first count : nat) : FileAckRange :=
  mkRange (Z.of_nat first) (Z.of_nat count).

(** The loop of [acknowledged_ranges] without a focus; [room] ranges may follow. *)
Fixpoint scan_ranges (l : list bool) (index room : nat) : list FileAckRange :=
  match room with
  | O => []
  | S room =>
      if Nat.ltb index (length l) then
        let first := (index + run_of false (drop index l))%nat in
        if Nat.eqb first (length l) then []
        else
          let count := run_of true (drop first l) in
          mk_range first count :: scan_ranges l (first + count) room
      else []
  end.

(** The loop that walks back from the focus to the start of its range. *)
Fixpoint walk_back (l : list bool) (floor first : nat) : nat :=
  match first with
  | O => O
  | S prev =>
      if Nat.ltb floor first && default false (l !! prev) then walk_back l floor prev
      else first
  end.

Definition acknowledged_ranges (focus : option nat) (maximum : nat) (t : FileChunkTracker)
    : list FileAckRange :=
  let l := received_ t in
  let c := contiguous_received t in
  if Nat.eqb maximum 0 then []
  else
    let ranges := if Nat.ltb 0 c then [mk_range 0 c] else [] in
    match focus with
    | None => ranges ++ scan_ranges l c (maximum - length ranges)
    | Some f =>
        if Nat.leb (length l) f || negb (default false (l !! f)) || Nat.ltb f c ||
           Nat.leb maximum (length ranges) then ranges
        else
          let first := walk_back l c f in
          let end_ := (f + 1 + run_of true (drop (f + 1) l))%nat in
          ranges ++ [mk_range first (end_ - first)]
    end.

(** ** The sender's window *)

Record FileSendAction := mkAction { send_header : bool; action_chunks : list nat }.

Record FileSendWindowConfig := mkWindowConfig {
  window_size : nat;
  retry_limit : Z;
  initial_rto : Z;
  minimum_rto : Z;
  maximum_rto : Z;
}.

Definition default_window_config : FileSendWindowConfig := mkWindowConfig 32 5 250 100 2000.

Record InFlightChunk := mkInFlight { flight_sent_at : Z; retransmissions : Z }.

Record FileSendWindow := mkWindow {
  win_config : FileSendWindowConfig;
  total_chunks : nat;
  next_chunk : nat;
  acknowledged_count : nat;
  header_sent : bool;
  header_received : bool;
  failed : bool;
  header_retransmissions : Z;
  header_sent_at : Z;
  rto : Z;
  in_flight : gmap nat InFlightChunk;
  acknowledged_ : list bool;
}.

Definition window_init (c : FileSendWindowConfig) : FileSendWindow :=
  mkWindow c 0 0 0 false false false 0 0 (initial_rto c) ∅ [].

Definition window_reset (total : Z) (now : Z) (w : FileSendWindow) : bool * FileSendWindow :=
  let c := win_config w in
  if (total =? 0) || (FILE_TRANSFER_MAX_CHUNKS <? total) || Nat.eqb (window_size c) 0 ||
     (retry_limit c =? 0) || (minimum_rto c <=? 0) || (initial_rto c <? minimum_rto c) ||
     (maximum_rto c <? initial_rto c) then (false, w)
  else (true, mkWindow c (Z.to_nat total) 0 0 false false false 0 now (initial_rto c) ∅
                (replicate (Z.to_nat total) false)).

Definition window_complete (w : FileSendWindow) : bool :=
  negb (Nat.eqb (total_chunks w) 0) && Nat.eqb (acknowledged_count w) (total_chunks w).

Definition set_failed (w : FileSendWindow) : FileSendWindow :=
  mkWindow (win_config w) (total_chunks w) (next_chunk w) (acknowledged_count w)
    (header_sent w) (header_received w) true (header_retransmissions w) (header_sent_at w)
    (rto w) (in_flight w) (acknowledged_ w).

(** [FileSendWindow::cancel]. *)
Definition window_cancel (w : FileSendWindow) : FileSendWindow := set_failed w.

Definition set_flight (m : gmap nat InFlightChunk) (next : nat) (w : FileSendWindow)
    : FileSendWindow :=
  mkWindow (win_config w) (total_chunks w) next (acknowledged_count w)
    (header_sent w) (header_received w) (failed w) (header_retransmissions w)
    (header_sent_at w) (rto w) m (acknowledged_ w).

(** [in_flight_] is a [std::map]: its iteration is by increasing index. *)
Definition flight_le (a b : nat * InFlightChunk) : Prop := (fst a <= fst b)%nat.
#[export] Instance flight_le_dec a b : Decision (flight_le a b).
Proof. unfold flight_le. apply _. Defined.
Definition flight_entries (m : gmap nat InFlightChunk) : list (nat * InFlightChunk) :=
  merge_sort flight_le (map_to_list m).

(** The loop over the chunks in flight: the chunks to send again, or [None] when one is
    out of retries; the map as updated so far. *)
Fixpoint resend_due (now rto_ms limit : Z) (entries : list (nat * InFlightChunk))
    (m : gmap nat InFlightChunk) : option (list nat) * gmap nat InFlightChunk :=
  match entries with
  | [] => (Some [], m)
  | (i, e) :: entries =>
      if now - flight_sent_at e <? ms rto_ms then resend_due now rto_ms limit entries m
      else if limit <=? retransmissions e then (None, m)
      else
        let m := <[i := mkInFlight now (retransmissions e + 1)]> m in
        match resend_due now rto_ms limit entries m with
        | (Some chunks, m) => (Some (i :: chunks), m)
        | (None, m) => (None, m)
        end
  end.

(** The loop that fills the window; [remaining] is [total_chunks_ - next_chunk_]. *)
Fixpoint fill_window (size_limit : nat) (now : Z) (acked : list bool) (remaining next : nat)
    (m : gmap nat InFlightChunk) : list nat * nat * gmap nat InFlightChunk :=
  match remaining with
  | O => ([], next, m)
  | S remaining =>
      if negb (Nat.ltb (size m) size_limit) then ([], next, m)
      else if default false (acked !! next) then
        fill_window size_limit now acked remaining (S next) m
      else
        let m := match m !! next with
                 | Some _ => m
                 | None => <[next := mkInFlight now 0]> m
                 end in
        let '(chunks, next', m) := fill_window size_limit now acked remaining (S next) m in
        (next :: chunks, next', m)
  end.

Definition poll (now : Z) (w : FileSendWindow) : FileSendAction * FileSendWindow :=
  if failed w || window_complete w || Nat.eqb (total_chunks w) 0 then (mkAction false [], w)
  else if negb (header_received w) then
    if negb (header_sent w) || (ms (rto w) <=? now - header_sent_at w) then
      if header_sent w && (retry_limit (win_config w) <=? header_retransmissions w)
      then (mkAction false [], set_failed w)
      else
        (mkAction true [],
         mkWindow (win_config w) (total_chunks w) (next_chunk w) (acknowledged_count w) true
           (header_received w) (failed w)
           (if header_sent w then header_retransmissions w + 1 else header_retransmissions w)
           now (rto w) (in_flight w) (acknowledged_ w))
    else (mkAction false [], w)
  else
    match resend_due now (rto w) (retry_limit (win_config w)) (flight_entries (in_flight w))
            (in_flight w) with
    | (None, m) => (mkAction false [], set_failed (set_flight m (next_chunk w) w))
    | (Some again, m) =>
        let '(fresh, next, m) :=
          fill_window (window_size (win_config w)) now (acknowledged_ w)
            (total_chunks w - next_chunk w) (next_chunk w) m in
        (mkAction false (again ++ fresh), set_flight m next w)
    end.

Definition observe_rtt (sample : Z) (w : FileSendWindow) : FileSendWindow :=
  let measured := to_ms sample * 2 in
  let measured := if measured <? minimum_rto (win_config w) then minimum_rto (win_config w)
                  else measured in
  let measured := if maximum_rto (win_config w) <? measured then maximum_rto (win_config w)
                  else measured in
  mkWindow (win_config w) (total_chunks w) (next_chunk w) (acknowledged_count w)
    (header_sent w) (header_received w) (failed w) (header_retransmissions w)
    (header_sent_at w) measured (in_flight w) (acknowledged_ w).

Definition acknowledge_header (now : Z) (w : FileSendWindow) : FileSendWindow :=
  let w := if header_sent w && (header_retransmissions w =? 0)
           then observe_rtt (now - header_sent_at w) w else w in
  mkWindow (win_config w) (total_chunks w) (next_chunk w) (acknowledged_count w)
    (header_sent w) true (failed w) (header_retransmissions w)
    (header_sent_at w) (rto w) (in_flight w) (acknowledged_ w).

(** The body of the loop over the indices of a range. *)
Definition acknowledge_chunk (now : Z) (i : nat) (w : FileSendWindow) : FileSendWindow :=
  if default false (acknowledged_ w !! i) then w
  else
    let w := match in_flight w !! i with
             | Some e => if retransmissions e =? 0
                         then observe_rtt (now - flight_sent_at e) w else w
             | None => w
             end in
    mkWindow (win_config w) (total_chunks w) (next_chunk w) (acknowledged_count w + 1)
      (header_sent w) (header_received w) (failed w) (header_retransmissions w)
      (header_sent_at w) (rto w) (delete i (in_flight w)) (<[i := true]> (acknowledged_ w)).

(** The indices of a range below the number of chunks. *)
Definition range_indices (total : nat) (r : FileAckRange) : list nat :=
  let end_ := Z.min (range_first r + range_count r) (Z.of_nat total) in
  seq (Z.to_nat (range_first r)) (Z.to_nat (end_ - range_first r)).

Definition acknowledge (ack : FileTransferAck) (now : Z) (w : FileSendWindow)
    : FileSendWindow :=
  if failed w || Nat.eqb (total_chunks w) 0 then w
  else
    let w := if fa_header_received ack && negb (header_received w)
             then acknowledge_header now w else w in
    foldl (λ w r, foldl (λ w i, acknowledge_chunk now i w) w (range_indices (total_chunks w) r))
      w (fa_ranges ack).

(** ** Runs of received chunks *)

Lemma run_of_le b l : (run_of b l <= length l)%nat.
Proof. induction l as [|c l IH]; simpl; [lia|]. case_match; lia. Qed.

Lemma run_of_lookup b l j : (j < run_of b l)%nat -> l !! j = Some b.
Proof.
  revert j. induction l as [|c l IH]; intros j; simpl; [lia|].
  destruct (Bool.eqb c b) eqn:E; [|lia]. apply eqb_prop in E as ->.
  destruct j as [|j]; [done|]. intros Hj. apply IH. lia.
Qed.

Lemma run_of_stop b l : l !! run_of b l = None \/ l !! run_of b l = Some (negb b).
Proof.
  induction l as [|c l IH]; simpl; [by left|].
  destruct (Bool.eqb c b) eqn:E; [done|]. right. simpl.
  by destruct c, b.
Qed.

Lemma run_of_ge b l n :
  (forall j, (j < n)%nat -> l !! j = Some b) -> (n <= run_of b l)%nat.
Proof.
  intros Hn. destruct (decide (n <= run_of b l)%nat) as [|Hlt]; [done|].
  specialize (Hn (run_of b l) ltac:(lia)).
  destruct (run_of_stop b l) as [H|H]; rewrite H in Hn; [done|]. by destruct b.
Qed.

Lemma run_of_drop b l c : (c <= run_of b l)%nat -> run_of b l = (c + run_of b (drop c l))%nat.
Proof.
  revert l. induction c as [|c IH]; intros l Hc; [by rewrite drop_0|].
  destruct l as [|x l]; simpl in *; [lia|].
  destruct (Bool.eqb x b); [|lia]. rewrite (IH l) by lia. done.
Qed.

(** ** The invariant of the tracker *)

Definition trues (l : list bool) : nat := length (filter (λ b, b = true) l).

Lemma trues_insert i b l :
  l !! i = Some (negb b) ->
  trues (<[i := b]> l) = if b then S (trues l) else (trues l - 1)%nat.
Proof.
  unfold trues. revert i. induction l as [|c l IH]; intros i; [done|].
  destruct i as [|i]; simpl.
  - intros [= ->]. rewrite !filter_cons. destruct b; simpl; lia.
  - intros Hi. specialize (IH i Hi). rewrite !filter_cons.
    destruct b; destruct c; simpl in *; try done; [by rewrite IH|].
    assert (0 < length (filter (λ b, b = true) l))%nat; [|lia].
    apply list_elem_of_lookup_2 in Hi.
    destruct (filter (λ b, b = true) l) as [|x f] eqn:E; [|simpl; lia].
    assert (true ∈ filter (λ b, b = true) l) as Hx by (by apply list_elem_of_filter).
    rewrite E in Hx. by apply not_elem_of_nil in Hx.
Qed.

Lemma trues_le l : (trues l <= length l)%nat.
Proof. apply length_filter. Qed.

Lemma trues_all l : trues l = length l <-> forall j, (j < length l)%nat -> l !! j = Some true.
Proof.
  unfold trues. induction l as [|b l IH]; [split; simpl; [lia|done]|].
  pose proof (length_filter (λ b, b = true) l) as Hle.
  rewrite filter_cons. destruct b; simpl.
  - split.
    + intros [= H] [|j] Hj; [done|]. simpl. apply IH; [done|lia].
    + intros H. f_equal. apply IH. intros j Hj. apply (H (S j)). lia.
  - split; [lia|]. intros H. specialize (H 0%nat ltac:(lia)). done.
Qed.

Lemma trues_replicate n : trues (replicate n false) = 0%nat.
Proof. unfold trues. induction n; simpl; [done|]. by rewrite filter_cons. Qed.

Definition tracker_ok (t : FileChunkTracker) : Prop :=
  received_count t = trues (received_ t) /\
  contiguous_received t = run_of true (received_ t).

Lemma chunk_tracker_reset_ok total t :
  chunk_tracker_reset total = Some t -> 0 <= total ->
  tracker_ok t /\ Z.of_nat (length (received_ t)) = total /\
  (0 < length (received_ t))%nat /\ Z.of_nat (length (received_ t)) <= FILE_TRANSFER_MAX_CHUNKS /\
  forall i, received i t = false.
Proof.
  unfold chunk_tracker_reset. intros H Ht. destruct (_ || _) eqn:E; [done|]. injection H as <-.
  apply orb_false_iff in E as [E1%Z.eqb_neq E2%Z.ltb_ge].
  unfold tracker_ok, received. simpl. rewrite length_replicate.
  split_and!; try lia.
  - by rewrite trues_replicate.
  - destruct (Z.to_nat total); done.
  - intros i. destruct (replicate _ false !! i) eqn:Hi; [|done].
    by apply lookup_replicate in Hi as [-> _].
Qed.

Lemma record_chunk_spec i t :
  tracker_ok t ->
  let '(r, t') := record_chunk i t in
  tracker_ok t' /\ length (received_ t') = length (received_ t) /\
  (r = Accepted <-> (i < length (received_ t))%nat /\ received i t = false) /\
  (forall j, received j t' =
     if decide (j = i /\ r = Accepted) then true else received j t).
Proof.
  intros [Hc Hr]. unfold record_chunk, received. destruct (received_ t !! i) as [[]|] eqn:Hi.
  - split_and!; try done. { split; [done|]. by intros [_ ?]. }
    intros j. by rewrite decide_False by naive_solver.
  - assert (i < length (received_ t))%nat by (by eapply lookup_lt_Some).
    unfold tracker_ok. cbn [received_ received_count contiguous_received].
    rewrite length_insert. split_and!; try done.
    + rewrite Hc, (trues_insert i true) by done. lia.
    + symmetry. apply run_of_drop. rewrite Hr. apply run_of_ge. intros j Hj.
      apply run_of_lookup in Hj. destruct (decide (j = i)) as [->|]; [congruence|].
      by rewrite list_lookup_insert_ne.
    + intros j. destruct (decide (j = i /\ Accepted = Accepted)) as [[-> _]|Hne].
      * by rewrite list_lookup_insert_eq.
      * rewrite list_lookup_insert_ne; [done|]. naive_solver.
  - split_and!; try done.
    + split; [done|]. apply lookup_ge_None in Hi. lia.
    + intros j. by rewrite decide_False by naive_solver.
Qed.

Lemma remove_chunk_spec i t :
  tracker_ok t ->
  let t' := snd (remove_chunk i t) in
  tracker_ok t' /\ length (received_ t') = length (received_ t) /\
  (forall j, received j t' = if decide (j = i) then false else received j t).
Proof.
  intros [Hc Hr]. unfold remove_chunk, received. destruct (received_ t !! i) as [[]|] eqn:Hi; simpl.
  - assert (i < length (received_ t))%nat as Hlt by (by eapply lookup_lt_Some).
    unfold tracker_ok. cbn [received_ received_count contiguous_received].
    rewrite length_insert. split_and!; try done.
    + by rewrite Hc, (trues_insert i false).
    + destruct (Nat.ltb_spec i (contiguous_received t)) as [|Hge]; [done|].
      rewrite Hr in *. destruct (run_of_stop true (received_ t)) as [H|H].
      { apply lookup_ge_None in H. lia. }
      simpl in H. apply Nat.le_antisymm.
      * apply run_of_ge. intros j Hj. rewrite list_lookup_insert_ne by lia.
        by apply run_of_lookup.
      * destruct (decide (run_of true (<[i:=false]> (received_ t)) <=
                          run_of true (received_ t))%nat) as [|Hlt']; [done|].
        assert (i <> run_of true (received_ t)) by (intros ->; congruence).
        assert (<[i:=false]> (received_ t) !! run_of true (received_ t) = Some true) as Hx
          by (apply run_of_lookup; lia).
        rewrite list_lookup_insert_ne in Hx by done. congruence.
    + intros j. destruct (decide (j = i)) as [->|].
      * by rewrite list_lookup_insert_eq.
      * by rewrite list_lookup_insert_ne.
  - split_and!; try done. intros j. destruct (decide (j = i)) as [->|]; [|done]. by rewrite Hi.
  - split_and!; try done. intros j. destruct (decide (j = i)) as [->|]; [|done]. by rewrite Hi.
Qed.

Lemma tracker_complete_spec t :
  tracker_ok t ->
  tracker_complete t = true <->
  (0 < length (received_ t))%nat /\ forall i, (i < length (received_ t))%nat -> received i t = true.
Proof.
  intros [Hc _]. unfold tracker_complete. rewrite andb_true_iff, negb_true_iff, Nat.eqb_neq,
    Nat.eqb_eq, Hc, trues_all. unfold received. split.
  - intros [H0 H]. split; [lia|]. intros i Hi. by rewrite H.
  - intros [H0 H]. split; [lia|]. intros i Hi. specialize (H i Hi).
    by destruct (received_ t !! i) as [[]|].
Qed.

Lemma tracker_missing t :
  tracker_ok t -> (0 < length (received_ t))%nat -> tracker_complete t = false ->
  exists j, (j < length (received_ t))%nat /\ received j t = false.
Proof.
  intros Hok Hpos Hc. apply not_true_iff_false in Hc. rewrite tracker_complete_spec in Hc by done.
  destruct (decide (Exists (λ j, received j t = false) (seq 0 (length (received_ t)))))
    as [He|He].
  - apply Exists_exists in He as (j & Hj%elem_of_seq & Hn). exists j. split; [lia|done].
  - destruct Hc. split; [lia|]. intros j Hj. destruct (received j _) eqn:Hn; [done|].
    destruct He. apply Exists_exists. exists j. split; [apply elem_of_seq; lia|done].
Qed.

(** ** What an acknowledgement says *)

Definition range_has (r : FileAckRange) (j : nat) : Prop :=
  range_first r <= Z.of_nat j < range_first r + range_count r.

Definition covered (rs : list FileAckRange) (j : nat) : Prop :=
  exists r, r ∈ rs /\ range_has r j.

#[export] Instance range_has_dec r j : Decision (range_has r j).
Proof. unfold range_has. apply _. Defined.
#[export] Instance covered_dec rs j : Decision (covered rs j).
Proof. refine (cast_if (decide (Exists (λ r, range_has r j) rs))); 
  unfold covered; by rewrite <- Exists_exists.
Defined.

Definition ranges_sound (l : list bool) (rs : list FileAckRange) : Prop :=
  forall j, covered rs j -> l !! j = Some true.

Lemma mk_range_has f c j : range_has (mk_range f c) j <-> (f <= j < f + c)%nat.
Proof. unfold range_has. simpl. lia. Qed.

Lemma covered_cons r rs j : covered (r :: rs) j <-> range_has r j \/ covered rs j.
Proof. unfold covered. setoid_rewrite elem_of_cons. naive_solver. Qed.

Lemma covered_nil j : ~ covered [] j.
Proof. intros (r & H & _). by apply not_elem_of_nil in H. Qed.

Lemma mk_range_ok p f c rs :
  (0 < c)%nat -> (p <= f)%nat -> Z.of_nat (f + c) <= FILE_TRANSFER_MAX_CHUNKS ->
  ranges_ok (Z.of_nat p) (mk_range f c :: rs) = ranges_ok (Z.of_nat (f + c)) rs.
Proof.
  intros Hc Hf Hm. cbn [ranges_ok range_first range_count mk_range].
  rewrite Nat2Z.inj_add in *.
  rewrite (proj2 (Z.eqb_neq _ _)), (proj2 (Z.ltb_ge _ _)), (proj2 (Z.ltb_ge _ _)) by lia.
  done.
Qed.

Lemma drop_run b l i :
  (i <= length l)%nat ->
  (i + run_of b (drop i l) <= length l)%nat /\
  (forall j, (i <= j < i + run_of b (drop i l))%nat -> l !! j = Some b) /\
  l !! (i + run_of b (drop i l))%nat <> Some b.
Proof.
  intros Hi. pose proof (run_of_le b (drop i l)) as Hle. rewrite length_drop in Hle.
  split_and!; [lia| |].
  - intros j Hj. replace j with (i + (j - i))%nat by lia. rewrite <- lookup_drop.
    apply run_of_lookup. lia.
  - rewrite <- lookup_drop. destruct (run_of_stop b (drop i l)) as [-> | ->]; [done|].
    by destruct b.
Qed.

Lemma scan_ranges_spec l room : forall index p,
  Z.of_nat (length l) <= FILE_TRANSFER_MAX_CHUNKS -> (index <= length l)%nat -> (p <= index)%nat ->
  let rs := scan_ranges l index room in
  (length rs <= room)%nat /\ ranges_ok (Z.of_nat p) rs = true /\ ranges_sound l rs /\
  ((length rs < room)%nat -> forall j, (index <= j)%nat -> l !! j = Some true -> covered rs j).
Proof.
  induction room as [|room IH]; intros index p Hmax Hi Hp; cbn [scan_ranges].
  { split_and!; [done|done| |simpl; lia]. by intros j ?%covered_nil. }
  destruct (Nat.ltb_spec index (length l)) as [Hlt|Hge]; cbn [length].
  2: { split_and!; [lia|done| |]. { by intros j ?%covered_nil. }
       intros _ j Hj Hl. apply lookup_lt_Some in Hl. lia. }
  destruct (drop_run false l index Hi) as (Hf1 & Hf2 & Hf3).
  set (first := (index + run_of false (drop index l))%nat) in *.
  destruct (Nat.eqb_spec first (length l)) as [He|Hne]; cbn [length].
  { split_and!; [lia|done| |]. { by intros j ?%covered_nil. }
    intros _ j Hj Hl. pose proof (lookup_lt_Some _ _ _ Hl).
    rewrite Hf2 in Hl by lia. done. }
  destruct (drop_run true l first ltac:(lia)) as (Hc1 & Hc2 & Hc3).
  set (count := run_of true (drop first l)) in *.
  assert (0 < count)%nat as Hc0.
  { destruct (decide (count = 0)%nat) as [E|]; [|lia]. rewrite E, Nat.add_0_r in Hc3.
    destruct (lookup_lt_is_Some_2 l first ltac:(lia)) as [[] Hb]; congruence. }
  destruct (IH (first + count)%nat (first + count)%nat Hmax Hc1 ltac:(lia))
    as (Hl & Hok & Hs & Hcov).
  split_and!.
  - lia.
  - rewrite mk_range_ok by lia. done.
  - intros j [Hj%mk_range_has|Hj]%covered_cons; [apply Hc2; lia|by apply Hs].
  - intros Hroom j Hj Hlj. apply covered_cons. rewrite mk_range_has.
    destruct (decide (j < first)%nat); [rewrite Hf2 in Hlj by lia; done|].
    destruct (decide (j < first + count)%nat); [left; lia|right].
    apply Hcov; [lia..|done].
Qed.

Lemma walk_back_spec l floor f :
  (floor <= f)%nat ->
  (floor <= walk_back l floor f <= f)%nat /\
  forall j, (walk_back l floor f <= j < f)%nat -> l !! j = Some true.
Proof.
  induction f as [|f IH]; intros Hf; simpl; [split; lia|].
  destruct (Nat.ltb_spec floor (S f)) as [Hlt|]; simpl; [|split; lia].
  destruct (l !! f) as [[]|] eqn:E; simpl; [|split; lia..].
  destruct IH as [IH1 IH2]; [lia|]. split; [lia|]. intros j Hj.
  destruct (decide (j = f)) as [->|]; [done|]. apply IH2. lia.
Qed.

Lemma ranges_ok_wf p rs :
  0 <= p -> ranges_ok p rs = true -> Forall (λ r, 0 <= range_count r) rs -> Forall range_wf rs.
Proof.
  intros Hp Hr Hc. revert p Hp Hr. induction Hc as [|[f c] rs Hc _ IH]; intros p Hp; [done|].
  cbn [ranges_ok range_first range_count] in *.
  destruct (_ || _) eqn:E; [done|]. intros Hr.
  change FILE_TRANSFER_MAX_CHUNKS with 2097152 in E.
  rewrite !orb_false_iff, Z.eqb_neq, !Z.ltb_ge in E.
  constructor; [|eapply IH, Hr; lia].
  unfold range_wf, in_width. simpl. lia.
Qed.

Lemma scan_ranges_counts l room : forall index,
  Forall (λ r, 0 <= range_count r) (scan_ranges l index room).
Proof.
  induction room as [|room IH]; intros index; simpl; [constructor|].
  repeat case_match; constructor; [simpl; lia|apply IH].
Qed.

(** An acknowledgement starts with the range of the chunks before the first missing one. *)
Section AckPrefix.
Context (l : list bool) (c : nat).
Hypothesis Hc : c = run_of true l.
Hypothesis Hmax : Z.of_nat (length l) <= FILE_TRANSFER_MAX_CHUNKS.

Let pre : list FileAckRange := if Nat.ltb 0 c then [mk_range 0 c] else [].

(** What an acknowledgement [rs] of [l] always satisfies. *)
Definition ack_truthful (maximum : nat) (rs : list FileAckRange) : Prop :=
  (length rs <= maximum)%nat /\ ranges_ok 0 rs = true /\ Forall range_wf rs /\
  ranges_sound l rs.

Lemma ack_prefix_covered rs j : covered (pre ++ rs) j <-> (j < c)%nat \/ covered rs j.
Proof.
  clear Hc Hmax. subst pre. destruct (Nat.ltb_spec 0 c); simpl app; [|intuition lia].
  rewrite covered_cons, mk_range_has. intuition lia.
Qed.

Lemma ack_prefix_truthful maximum rs :
  (length pre + length rs <= maximum)%nat -> ranges_ok (Z.of_nat c) rs = true ->
  Forall (λ r, 0 <= range_count r) rs -> ranges_sound l rs ->
  ack_truthful maximum (pre ++ rs).
Proof.
  intros Hlen Hok Hcount Hs. assert (c <= length l)%nat by (rewrite Hc; apply run_of_le).
  assert (ranges_ok 0 (pre ++ rs) = true) as Hpok.
  { subst pre. destruct (Nat.ltb_spec 0 c); [|by replace c with 0%nat in Hok by lia].
    simpl app. rewrite (mk_range_ok 0) by lia. done. }
  split_and!.
  - rewrite length_app. lia.
  - done.
  - apply (ranges_ok_wf 0); [done|done|]. apply Forall_app. split; [|done].
    subst pre. destruct (Nat.ltb _ _); repeat constructor. simpl. lia.
  - intros j [Hj|Hj]%ack_prefix_covered; [|by apply Hs].
    apply run_of_lookup. by rewrite <- Hc.
Qed.

Lemma ack_focus_truthful maximum f :
  (length pre < maximum)%nat -> (c <= f)%nat -> l !! f = Some true ->
  let first := walk_back l c f in
  let end_ := (f + 1 + run_of true (drop (f + 1) l))%nat in
  ack_truthful maximum (pre ++ [mk_range first (end_ - first)]) /\
  covered (pre ++ [mk_range first (end_ - first)]) f.
Proof.
  intros Hm Hcf Hf first e. pose proof (lookup_lt_Some _ _ _ Hf) as Hlt.
  destruct (walk_back_spec l c f Hcf) as [Hw1 Hw2].
  destruct (drop_run true l (f + 1) ltac:(lia)) as (He1 & He2 & _).
  fold first in Hw1, Hw2. fold e in He1, He2.
  split; [|rewrite ack_prefix_covered, covered_cons, mk_range_has; lia].
  apply ack_prefix_truthful.
  - simpl. lia.
  - rewrite mk_range_ok by lia. done.
  - repeat constructor. simpl. lia.
  - intros j [Hj%mk_range_has| []%covered_nil]%covered_cons.
    destruct (decide (j < f)%nat); [apply Hw2; lia|].
    destruct (decide (j = f)) as [->|]; [done|]. apply He2. lia.
Qed.

Lemma ack_scan_truthful maximum :
  (0 < maximum)%nat ->
  let rs := pre ++ scan_ranges l c (maximum - length pre) in
  ack_truthful maximum rs /\
  ((length rs < maximum)%nat -> forall j, l !! j = Some true -> covered rs j).
Proof.
  intros Hm. assert (c <= length l)%nat by (rewrite Hc; apply run_of_le).
  assert (length pre <= 1)%nat by (subst pre; destruct (Nat.ltb _ _); simpl; lia).
  destruct (scan_ranges_spec l (maximum - length pre) c c Hmax ltac:(lia) ltac:(lia))
    as (Hl & Hok & Hs & Hcov).
  split.
  - apply ack_prefix_truthful; [lia|done|apply scan_ranges_counts|done].
  - rewrite length_app. intros Hlen j Hj. apply ack_prefix_covered.
    destruct (decide (j < c)%nat); [by left|right]. apply Hcov; [lia..|done].
Qed.
End AckPrefix.

Lemma received_lookup j t : received j t = true <-> received_ t !! j = Some true.
Proof. unfold received. destruct (received_ t !! j) as [[]|]; naive_solver. Qed.

(** The ranges acknowledged for the tracker [t]. *)
Lemma acknowledged_ranges_spec focus maximum t :
  tracker_ok t -> Z.of_nat (length (received_ t)) <= FILE_TRANSFER_MAX_CHUNKS ->
  let rs := acknowledged_ranges focus maximum t in
  ack_truthful (received_ t) maximum rs /\
  (focus = None -> (length rs < maximum)%nat -> forall j, received j t = true -> covered rs j) /\
  (forall f, focus = Some f -> (2 <= maximum)%nat -> received f t = true -> covered rs f).
Proof.
  intros [_ Hc] Hmax. unfold acknowledged_ranges. setoid_rewrite received_lookup.
  destruct (Nat.eqb_spec maximum 0) as [->|Hm]; cbn [length].
  { split_and!; [|lia..]. split_and!; [done|done|constructor|by intros j ?%covered_nil]. }
  destruct focus as [f|].
  2: { destruct (ack_scan_truthful (received_ t) _ Hc Hmax maximum ltac:(lia)) as [Ht Hcov].
       split_and!; [exact Ht|intros _; exact Hcov|done]. }
  set (pre := if Nat.ltb 0 _ then _ else _).
  assert (length pre <= 1)%nat by (subst pre; destruct (Nat.ltb _ _); simpl; lia).
  destruct (_ || _) eqn:E.
  - rewrite <- (app_nil_r pre). split_and!; [|done|].
    + apply ack_prefix_truthful; [done|done|change (length pre + 0 <= maximum)%nat; lia|done|
        constructor|by intros j ?%covered_nil].
    + intros ? [= <-] Hm2 Hf. apply (ack_prefix_covered (contiguous_received t)). left. rewrite Hf in E.
      apply lookup_lt_Some in Hf. simpl in E.
      rewrite !orb_true_iff, !Nat.leb_le, Nat.ltb_lt in E. lia.
  - rewrite !orb_false_iff, negb_false_iff, !Nat.leb_gt, Nat.ltb_ge in E.
    destruct E as [[[_ Hlf] Hcf] Hm2].
    assert (received_ t !! f = Some true) as Hf by (by destruct (received_ t !! f) as [[]|]).
    destruct (ack_focus_truthful _ _ Hc Hmax maximum f Hm2 Hcf Hf) as [Ht Hcov].
    split_and!; [exact Ht|done|]. intros ? [= <-] _ _. exact Hcov.
Qed.

Inductive TrackerOp := RecordChunk (i : nat) | RemoveChunk (i : nat).

Definition tracker_op (t : FileChunkTracker) (op : TrackerOp) : FileChunkTracker :=
  match op with
  | RecordChunk i => snd (record_chunk i t)
  | RemoveChunk i => snd (remove_chunk i t)
  end.

Lemma tracker_op_ok op t :
  tracker_ok t -> tracker_ok (tracker_op t op) /\
  length (received_ (tracker_op t op)) = length (received_ t).
Proof.
  intros Ht. destruct op as [i|i]; simpl.
  - pose proof (record_chunk_spec i t Ht) as H. destruct (record_chunk i t). naive_solver.
  - pose proof (remove_chunk_spec i t Ht). naive_solver.
Qed.

Lemma tracker_run_ok ops : forall t,
  tracker_ok t -> tracker_ok (foldl tracker_op t ops) /\
  length (received_ (foldl tracker_op t ops)) = length (received_ t).
Proof.
  induction ops as [|op ops IH]; intros t Ht; simpl; [done|].
  destruct (tracker_op_ok op t Ht) as [H1 H2]. destruct (IH _ H1). split; [done|congruence].
Qed.

(** Whatever chunks a receiver recorded and took back since its tracker was reset, the
    acknowledgement it builds can be sent and is decoded as built, it acknowledges only
    chunks the receiver holds, it acknowledges all of them when it has fewer ranges than the
    message can carry, it covers the chunk it is asked to focus on if that one was received,
    and the transfer counts as complete exactly when every chunk is held. *)
Theorem acknowledgements_are_truthful total t0 ops focus id header :
  chunk_tracker_reset total = Some t0 -> u32 total -> u64 id -> id <> 0 ->
  let t := foldl tracker_op t0 ops in
  let rs := acknowledged_ranges focus FILE_ACK_MAX_RANGES t in
  let ack := mkFileAck id header rs in
  (exists bs, serialize_file_ack ack = Some bs /\ deserialize_file_ack bs = Some ack) /\
  (forall j, covered rs j -> received j t = true) /\
  (focus = None -> (length rs < FILE_ACK_MAX_RANGES)%nat ->
   forall j, received j t = true -> covered rs j) /\
  (forall f, focus = Some f -> received f t = true -> covered rs f) /\
  (tracker_complete t = true <-> forall i, Z.of_nat i < total -> received i t = true).
Proof.
  intros H Hu Hid Hid0 t rs ack.
  destruct (chunk_tracker_reset_ok _ _ H (proj1 Hu)) as (Hok0 & Hlen0 & Hpos & Hmax & _).
  destruct (tracker_run_ok ops t0 Hok0) as [Hok Hlen].
  destruct (acknowledged_ranges_spec focus FILE_ACK_MAX_RANGES t Hok ltac:(unfold t; lia))
    as ((Hl & Hr & Hwf & Hs) & Hcov & Hf).
  assert (file_ack_wf ack) as Hack by done.
  split_and!.
  - exists (file_ack_bytes ack). split; [by apply serialize_ack_wf|].
    by apply deserialize_ack_spec.
  - intros j Hj. by apply received_lookup, Hs.
  - done.
  - intros f Hfo. apply Hf; [done|]. unfold FILE_ACK_MAX_RANGES. lia.
  - rewrite (tracker_complete_spec t Hok). unfold t. rewrite Hlen.
    split; [intros [_ Hi] i Hlt; apply Hi; lia|]. intros Hi. split; [done|].
    intros i Hlt. apply Hi. lia.
Qed.

Lemma acknowledgements_are_truthful_witness :
  covered (acknowledged_ranges (Some 3%nat) FILE_ACK_MAX_RANGES
             (foldl tracker_op (mkTrackerF (replicate 5 false) 0 0)
                [RecordChunk 0; RecordChunk 3; RecordChunk 4; RemoveChunk 0])) 3.
Proof.
  destruct (acknowledgements_are_truthful 5 (mkTrackerF (replicate 5 false) 0 0)
              [RecordChunk 0; RecordChunk 3; RecordChunk 4; RemoveChunk 0] (Some 3%nat) 7 true
              eq_refl ltac:(unfold in_width; lia) ltac:(unfold in_width; lia) ltac:(lia))
    as (_ & _ & _ & Hf & _).
  by apply Hf.
Defined.

(** ** The invariant of the sender's window *)

Definition bump (now : Z) (e : InFlightChunk) : InFlightChunk :=
  mkInFlight now (retransmissions e + 1).

Lemma resend_due_spec now rto_ms limit es : forall m,
  NoDup es.*1 -> (forall i e, (i, e) ∈ es -> m !! i = Some e) ->
  exists again, again `sublist_of` es.*1 /\
    (forall i, i ∈ again -> exists e, m !! i = Some e /\ ms rto_ms <= now - flight_sent_at e /\
                                      retransmissions e < limit) /\
    (forall i, (resend_due now rto_ms limit es m).2 !! i =
               if decide (i ∈ again) then bump now <$> m !! i else m !! i) /\
    ((resend_due now rto_ms limit es m).1 = None \/
     (resend_due now rto_ms limit es m).1 = Some again /\
     forall i e, (i, e) ∈ es -> ms rto_ms <= now - flight_sent_at e -> i ∈ again).
Proof.
  induction es as [|[i e] es IH]; intros m Hnd Hm; cbn [resend_due].
  { exists []. split_and!; [done|by intros i ?%not_elem_of_nil|done|].
    right. split; [done|]. by intros i e ?%not_elem_of_nil. }
  cbn in Hnd. apply NoDup_cons in Hnd as [Hni Hnd].
  destruct (Z.ltb_spec (now - flight_sent_at e) (ms rto_ms)) as [Hlt|Hge].
  { destruct (IH m Hnd) as (again & H1 & H2 & H3 & H4).
    { intros j f Hj. apply Hm. by right. }
    exists again. split_and!; [by constructor|done|done|].
    destruct H4 as [H4|[H4 H5]]; [by left|right]. split; [done|].
    intros j f [[= -> ->]|Hj]%elem_of_cons; [lia|by eapply H5]. }
  destruct (Z.leb_spec limit (retransmissions e)) as [Hle|Hgt]; cbn [fst snd].
  { exists []. split_and!; [apply sublist_nil_l|by intros j ?%not_elem_of_nil|done|by left]. }
  assert (m !! i = Some e) as Hi by (apply Hm; by left).
  destruct (IH (<[i := bump now e]> m) Hnd) as (again & H1 & H2 & H3 & H4).
  { intros j f Hj. rewrite lookup_insert_ne; [apply Hm; by right|].
    intros ->. apply Hni. apply list_elem_of_fmap. by exists (j, f). }
  assert (i ∉ again) as Hia by (intros ?; by eapply Hni, elem_of_sublist).
  assert (forall x, x ∈ again -> <[i:=bump now e]> m !! x = m !! x) as Hins.
  { intros x Hx. apply lookup_insert_ne. by intros ->. }
  exists (i :: again). fold (bump now e).
  destruct (resend_due now rto_ms limit es (<[i:=bump now e]> m)) as [r m'] eqn:E.
  cbn [fst snd] in *. split_and!.
  - by constructor.
  - intros j [->|Hj]%elem_of_cons; [by exists e|]. destruct (H2 j Hj) as (f & Hf & ?).
    rewrite Hins in Hf by done. by exists f.
  - intros j. destruct r; cbn [snd]; rewrite H3.
    all: destruct (decide (j = i)) as [->|Hne].
    1,3: rewrite decide_False, decide_True by set_solver; by rewrite lookup_insert_eq, Hi.
    all: destruct (decide (j ∈ again)); [rewrite decide_True by set_solver|
           rewrite decide_False by set_solver]; by rewrite lookup_insert_ne.
  - destruct H4 as [-> |[-> H5]]; [by left|right]. split; [done|].
    intros j f [[= -> ->]|Hj]%elem_of_cons Hdue; [by left|right]. by eapply H5.
Qed.

Definition unacked (acked : list bool) (i : nat) : Prop := default false (acked !! i) = false.
#[export] Instance unacked_dec acked i : Decision (unacked acked i).
Proof. unfold unacked. apply _. Defined.

Lemma fill_window_spec limit now acked remaining : forall next m,
  (forall i, is_Some (m !! i) -> (i < next)%nat) ->
  let '(chunks, next', m') := fill_window limit now acked remaining next m in
  (next <= next' <= next + remaining)%nat /\
  chunks = filter (unacked acked) (seq next (next' - next)) /\
  (forall i, m' !! i = if decide (i ∈ chunks) then Some (mkInFlight now 0) else m !! i) /\
  size m' = (size m + length chunks)%nat /\ (size m' <= limit \/ size m' <= size m)%nat /\
  (next' = next + remaining \/ limit <= size m')%nat.
Proof.
  induction remaining as [|remaining IH]; intros next m Hm; cbn [fill_window].
  { rewrite Nat.sub_diag. simpl. split_and!; try done; try lia. }
  destruct (Nat.ltb_spec (size m) limit) as [Hlt|Hge]; cbn [negb].
  2: { rewrite Nat.sub_diag. simpl. split_and!; try done; try lia. }
  destruct (default false (acked !! next)) eqn:Ha.
  - specialize (IH (S next) m). destruct (fill_window _ _ _ _ _ m) as [[chunks next'] m'].
    destruct IH as (H1 & H2 & H3 & H4 & H5 & H6).
    { intros i Hi. specialize (Hm i Hi). lia. }
    split_and!; try done; try lia.
    replace (next' - next)%nat with (S (next' - S next)) by lia. simpl.
    rewrite filter_cons_False by (unfold unacked; congruence). done.
  - destruct (m !! next) as [e|] eqn:Hn; [specialize (Hm next ltac:(eauto)); lia|].
    specialize (IH (S next) (<[next := mkInFlight now 0]> m)).
    destruct (fill_window _ _ _ _ _ (<[next:=_]> m)) as [[chunks next'] m'].
    destruct IH as (H1 & H2 & H3 & H4 & H5 & H6).
    { intros i [<-|[_ Hi]]%lookup_insert_is_Some; [lia|]. specialize (Hm i Hi). lia. }
    rewrite map_size_insert_None in H4, H5 by done.
    split_and!; try lia.
    + replace (next' - next)%nat with (S (next' - S next)) by lia. simpl.
      rewrite filter_cons_True by done. by rewrite <- H2.
    + intros i. rewrite H3. destruct (decide (i = next)) as [->|Hne].
      * rewrite lookup_insert_eq, (decide_True (P := next ∈ next :: _)) by set_solver.
        by destruct (decide _).
      * rewrite lookup_insert_ne by done.
        destruct (decide (i ∈ chunks)); [rewrite decide_True by set_solver|
          rewrite decide_False by set_solver]; done.
    + simpl. lia.
Qed.

Definition config_ok (c : FileSendWindowConfig) : Prop :=
  (0 < window_size c)%nat /\ 0 < retry_limit c /\ 0 < minimum_rto c /\
  minimum_rto c <= initial_rto c <= maximum_rto c.

(** The chunks below [next_chunk] are acknowledged or in flight, those in flight are below it,
    not acknowledged, and no more than the window holds. *)
Record window_ok (w : FileSendWindow) : Prop := {
  wok_config : config_ok (win_config w);
  wok_length : length (acknowledged_ w) = total_chunks w;
  wok_count : acknowledged_count w = trues (acknowledged_ w);
  wok_next : (next_chunk w <= total_chunks w)%nat;
  wok_flight : forall i e, in_flight w !! i = Some e ->
    (i < next_chunk w)%nat /\ unacked (acknowledged_ w) i /\
    0 <= retransmissions e <= retry_limit (win_config w);
  wok_sent : forall i, (i < next_chunk w)%nat -> unacked (acknowledged_ w) i ->
    is_Some (in_flight w !! i);
  wok_size : (size (in_flight w) <= window_size (win_config w))%nat;
  wok_header : 0 <= header_retransmissions w <= retry_limit (win_config w);
  wok_rto : minimum_rto (win_config w) <= rto w <= maximum_rto (win_config w);
}.

Lemma window_reset_ok total now w w' :
  window_reset total now w = (true, w') -> 0 <= total -> 0 <= retry_limit (win_config w) ->
  window_ok w' /\ Z.of_nat (total_chunks w') = total /\ (0 < total_chunks w')%nat /\
  failed w' = false /\ header_sent w' = false /\ header_received w' = false /\
  in_flight w' = ∅ /\ next_chunk w' = 0%nat /\ win_config w' = win_config w /\
  header_retransmissions w' = 0 /\ forall i, unacked (acknowledged_ w') i.
Proof.
  unfold window_reset. intros H Ht Hl. destruct (_ || _) eqn:E; [done|]. injection H as <-.
  rewrite !orb_false_iff, !Z.eqb_neq, !Z.ltb_ge, Z.leb_gt, Nat.eqb_neq in E.
  split_and!; simpl; try done; try lia.
  2: { intros i. unfold unacked. destruct (replicate _ _ !! i) eqn:Hi; [|done].
       by apply lookup_replicate in Hi as [-> _]. }
  split; simpl; try (unfold config_ok); try lia.
  - by rewrite length_replicate.
  - by rewrite trues_replicate.
  - intros i e. by rewrite lookup_empty.
  - rewrite map_size_empty. lia.
Qed.

Lemma flight_entries_spec m :
  NoDup (flight_entries m).*1 /\ forall i e, (i, e) ∈ flight_entries m <-> m !! i = Some e.
Proof.
  unfold flight_entries. split.
  - rewrite (merge_sort_Permutation flight_le (map_to_list m)). apply NoDup_fst_map_to_list.
  - intros i e. rewrite (merge_sort_Permutation flight_le (map_to_list m)).
    apply elem_of_map_to_list.
Qed.

(** How many more times the window may send the header and the chunk [i]. *)
Definition header_budget (w : FileSendWindow) : nat :=
  if header_received w then 0
  else if header_sent w
       then Z.to_nat (retry_limit (win_config w) - header_retransmissions w)
       else S (Z.to_nat (retry_limit (win_config w))).

Definition chunk_budget (w : FileSendWindow) (i : nat) : nat :=
  if default false (acknowledged_ w !! i) then 0
  else match in_flight w !! i with
       | Some e => Z.to_nat (retry_limit (win_config w) - retransmissions e)
       | None => if Nat.ltb i (next_chunk w) then 0
                 else S (Z.to_nat (retry_limit (win_config w)))
       end.

(** Everything in flight was last sent at [last] or before. *)
Definition sent_by (last : Z) (w : FileSendWindow) : Prop :=
  (header_sent w = true -> header_sent_at w <= last) /\
  forall i e, in_flight w !! i = Some e -> flight_sent_at e <= last.

(** What every call of [poll] does, whatever branch it takes. *)
Record polled (now : Z) (w : FileSendWindow) (a : FileSendAction) (w' : FileSendWindow)
    : Prop := {
  polled_ok : window_ok w';
  polled_same : win_config w' = win_config w /\ total_chunks w' = total_chunks w /\
    acknowledged_ w' = acknowledged_ w /\ header_received w' = header_received w /\
    rto w' = rto w;
  polled_header : ((if send_header a then 1 else 0) + header_budget w' <= header_budget w)%nat;
  polled_chunks : NoDup (action_chunks a) /\
    forall i, i ∈ action_chunks a -> header_received w = true /\ (i < total_chunks w)%nat /\
                                     unacked (acknowledged_ w) i;
  polled_budget : forall i,
    ((if decide (i ∈ action_chunks a) then 1 else 0) + chunk_budget w' i <= chunk_budget w i)%nat;
  polled_sent : forall last, sent_by last w -> last <= now -> sent_by now w';
  polled_failed : failed w = true -> failed w' = true;
}.

Lemma polled_idle now w : window_ok w -> polled now w (mkAction false []) w.
Proof.
  intros Hw. split; simpl; try done.
  - split; [constructor|by intros i ?%not_elem_of_nil].
  - intros last [H1 H2] Hl. split; [intros H; specialize (H1 H); lia|].
    intros i e Hi. specialize (H2 i e Hi). lia.
Qed.

(** The flights after the chunks due were sent again. *)
Definition resent (now : Z) (w : FileSendWindow) (again : list nat)
    (m : gmap nat InFlightChunk) : Prop :=
  NoDup again /\
  (forall i, i ∈ again -> exists e, in_flight w !! i = Some e /\
                          retransmissions e < retry_limit (win_config w)) /\
  (forall i, m !! i = if decide (i ∈ again) then bump now <$> in_flight w !! i
                      else in_flight w !! i).

Lemma resend_due_resent now w :
  exists again,
    let r := resend_due now (rto w) (retry_limit (win_config w)) (flight_entries (in_flight w))
               (in_flight w) in
    resent now w again r.2 /\
    (r.1 = None \/ r.1 = Some again /\
     forall i e, in_flight w !! i = Some e -> ms (rto w) <= now - flight_sent_at e -> i ∈ again).
Proof.
  destruct (flight_entries_spec (in_flight w)) as [Hnd Hes].
  destruct (resend_due_spec now (rto w) (retry_limit (win_config w)) _ (in_flight w) Hnd)
    as (again & H1 & H2 & H3 & H4); [intros i e; apply Hes|].
  exists again. cbn zeta. split.
  - split_and!; [by eapply sublist_NoDup| |exact H3].
    intros i Hi. destruct (H2 i Hi) as (e & He & _ & Hr). eauto.
  - destruct H4 as [H4|[H4 H5]]; [by left|right]. split; [done|].
    intros i e Hi. by apply (H5 i e), Hes.
Qed.

Lemma resent_lookup now w again m i e' :
  resent now w again m -> m !! i = Some e' ->
  exists e, in_flight w !! i = Some e /\
    (i ∈ again /\ e' = bump now e /\ retransmissions e < retry_limit (win_config w) \/
     (i ∉ again) /\ e' = e).
Proof.
  intros (_ & Hr & Hm) Hi. rewrite Hm in Hi. destruct (decide (i ∈ again)) as [Ha|Ha].
  - destruct (Hr i Ha) as (e & He & Hl). rewrite He in Hi. injection Hi as <-. exists e. eauto.
  - exists e'. eauto.
Qed.

Lemma resent_is_Some now w again m i :
  resent now w again m -> is_Some (m !! i) <-> is_Some (in_flight w !! i).
Proof.
  intros (_ & _ & Hm). rewrite Hm. destruct (decide _); [|done]. by rewrite fmap_is_Some.
Qed.

Lemma resent_size now w again m : resent now w again m -> size m = size (in_flight w).
Proof.
  intros H. rewrite <- !size_dom. f_equal. apply set_eq. intros i.
  rewrite !elem_of_dom. by eapply resent_is_Some.
Qed.

Lemma polled_set_failed now w a w' : polled now w a w' -> polled now w a (set_failed w').
Proof.
  intros [Hok Hs Hh Hc Hb Hsent Hf]. split; try done.
  destruct Hok. by split.
Qed.

Lemma window_ok_resent now w again m :
  window_ok w -> resent now w again m -> window_ok (set_flight m (next_chunk w) w).
Proof.
  intros [] Hr. split; cbn [win_config total_chunks next_chunk acknowledged_count acknowledged_
    in_flight set_flight header_retransmissions rto]; try done.
  - intros i e' Hi. destruct (resent_lookup _ _ _ _ _ _ Hr Hi) as (e & He & Hcase).
    destruct (wok_flight0 i e He) as (? & ? & ?). split_and!; try done.
    + destruct Hcase as [(_ & -> & ?)|[_ ->]]; simpl; lia.
    + destruct Hcase as [(_ & -> & ?)|[_ ->]]; simpl; lia.
  - intros i Hi Hu. eapply resent_is_Some; [done|]. by apply wok_sent0.
  - by erewrite resent_size.
Qed.

Lemma resent_budget now w again m i :
  window_ok w -> resent now w again m ->
  ((if decide (i ∈ again) then 1 else 0) +
   chunk_budget (set_flight m (next_chunk w) w) i <= chunk_budget w i)%nat.
Proof.
  intros Hw (_ & Hr & Hm). unfold chunk_budget.
  cbn [win_config next_chunk acknowledged_ in_flight set_flight].
  destruct (decide (i ∈ again)) as [Ha|Ha]; rewrite Hm.
  - rewrite decide_True by done. destruct (Hr i Ha) as (e & He & Hl). rewrite He.
    destruct (wok_flight _ Hw i e He) as (_ & Hu & ?). unfold unacked in Hu. rewrite Hu.
    simpl. lia.
  - rewrite decide_False by done. done.
Qed.

Lemma polled_resent now w again m :
  window_ok w -> header_received w = true -> resent now w again m ->
  polled now w (mkAction false again) (set_flight m (next_chunk w) w).
Proof.
  intros Hw Hh Hr. split; try done.
  - by eapply window_ok_resent.
  - split; [apply Hr|]. intros i Hi. destruct Hr as (_ & Hr & _).
    destruct (Hr i Hi) as (e & He & _). destruct (wok_flight _ Hw i e He) as (? & ? & _).
    pose proof (wok_next _ Hw). split_and!; [done|lia|done].
  - intros i. by apply (resent_budget now).
  - intros last [Hs1 Hs2] Hl. split; cbn [header_sent header_sent_at set_flight in_flight].
    + intros H. specialize (Hs1 H). lia.
    + intros i e' Hi. destruct (resent_lookup _ _ _ _ _ _ Hr Hi) as (e & He & Hcase).
      specialize (Hs2 i e He).
      destruct Hcase as [(_ & -> & ?)|[_ ->]]; simpl; lia.
Qed.

(** Sending fresh chunks from a window that satisfies the invariant. *)
Lemma polled_fill now w fresh next m :
  window_ok w -> header_received w = true ->
  fill_window (window_size (win_config w)) now (acknowledged_ w)
    (total_chunks w - next_chunk w) (next_chunk w) (in_flight w) = (fresh, next, m) ->
  polled now w (mkAction false fresh) (set_flight m next w) /\
  (forall i, i ∈ fresh -> (next_chunk w <= i)%nat).
Proof.
  intros Hw Hh Hf.
  pose proof (fill_window_spec (window_size (win_config w)) now (acknowledged_ w)
    (total_chunks w - next_chunk w) (next_chunk w) (in_flight w)) as H. rewrite Hf in H.
  destruct H as (H1 & H2 & H3 & H4 & H5 & _).
  { intros i [e He]. apply (wok_flight _ Hw) in He. lia. }
  pose proof (wok_next _ Hw). pose proof (wok_size _ Hw).
  assert (forall i, i ∈ fresh <-> unacked (acknowledged_ w) i /\ (next_chunk w <= i < next)%nat)
    as Hfr by (intros i; rewrite H2, list_elem_of_filter, elem_of_seq; intuition lia).
  split; [|intros i Hi; apply Hfr in Hi; lia]. split; try done.
  - destruct Hw. split; cbn [win_config total_chunks next_chunk acknowledged_count acknowledged_
      in_flight set_flight header_retransmissions rto]; try done; [lia| | |lia].
    + intros i e. rewrite H3. destruct (decide (i ∈ fresh)) as [Hi|Hi].
      * intros [= <-]. apply Hfr in Hi as [? ?]. destruct wok_config0 as (_ & ? & _).
        simpl. split_and!; [lia|done|lia..].
      * intros He. destruct (wok_flight0 i e He) as (? & ? & ?). split_and!; [lia|done|lia..].
    + intros i Hi Hu. rewrite H3. destruct (decide (i ∈ fresh)) as [|Hni]; [done|].
      apply wok_sent0; [|done]. rewrite Hfr in Hni. destruct (decide (i < next_chunk w)%nat); [done|].
      destruct Hni. split; [done|lia].
  - split; [simpl; rewrite H2; apply NoDup_filter, NoDup_seq|].
    intros i [Hu Hi]%Hfr. split_and!; [done|lia|done].
  - intros i. unfold chunk_budget.
    cbn [win_config next_chunk acknowledged_ in_flight set_flight action_chunks]. rewrite H3.
    destruct (decide (i ∈ fresh)) as [[Hu Hi]%Hfr|Hi].
    + unfold unacked in Hu. rewrite Hu. destruct (in_flight w !! i) as [e|] eqn:He.
      { apply (wok_flight _ Hw) in He. lia. }
      rewrite (proj2 (Nat.ltb_ge _ _)) by lia. simpl. lia.
    + destruct (default false _) eqn:Ha; [done|]. destruct (in_flight w !! i) as [e|] eqn:He; [done|].
      destruct (Nat.ltb_spec i next) as [Hlt|]; [lia|].
      rewrite (proj2 (Nat.ltb_ge _ _)) by lia. done.
  - intros last [Hs1 Hs2] Hl. split; cbn [header_sent header_sent_at set_flight in_flight].
    + intros H'. specialize (Hs1 H'). lia.
    + intros i e. rewrite H3. destruct (decide _); [intros [= <-]; done|].
      intros He. specialize (Hs2 i e He). lia.
Qed.

Lemma polled_app now w c1 w1 c2 w2 :
  polled now w (mkAction false c1) w1 -> polled now w1 (mkAction false c2) w2 ->
  (forall i, i ∈ c1 -> i ∉ c2) -> polled now w (mkAction false (c1 ++ c2)) w2.
Proof.
  intros [_ (E1 & E2 & E3 & E4 & E5) Hh1 [Hn1 Hc1] Hb1 Hs1 Hf1]
    [Hok (F1 & F2 & F3 & F4 & F5) Hh2 [Hn2 Hc2] Hb2 Hs2 Hf2] Hdis.
  cbn [send_header action_chunks] in *. split; cbn [send_header action_chunks].
  - done.
  - split_and!; congruence.
  - lia.
  - split; [apply NoDup_app; split_and!; done|].
    intros i [Hi|Hi]%elem_of_app; [by apply Hc1|].
    destruct (Hc2 i Hi) as (? & ? & ?). rewrite <- E2, <- E3, <- E4. done.
  - intros i. specialize (Hb1 i). specialize (Hb2 i). specialize (Hdis i).
    destruct (decide (i ∈ c1 ++ c2)) as [[Hi|Hi]%elem_of_app|Hi].
    + rewrite (decide_True (P := i ∈ c1)) in Hb1 by done.
      rewrite (decide_False (P := i ∈ c2)) in Hb2 by auto. lia.
    + rewrite (decide_True (P := i ∈ c2)) in Hb2 by done. destruct (decide _); lia.
    + destruct (decide (i ∈ c1)), (decide (i ∈ c2)); lia.
  - intros last Hs Hl. apply (Hs2 now); [|lia]. by eapply Hs1.
  - auto.
Qed.

Lemma polled_header_sent now w :
  window_ok w -> header_received w = false ->
  header_sent w && (retry_limit (win_config w) <=? header_retransmissions w) = false ->
  polled now w (mkAction true [])
    (mkWindow (win_config w) (total_chunks w) (next_chunk w) (acknowledged_count w) true
       (header_received w) (failed w)
       (if header_sent w then header_retransmissions w + 1 else header_retransmissions w)
       now (rto w) (in_flight w) (acknowledged_ w)).
Proof.
  intros Hw Hh Hr. pose proof (wok_header _ Hw) as Hl. split; try done.
  - destruct Hw. split; simpl; try done.
    destruct (header_sent w); simpl in Hr; [apply Z.leb_gt in Hr|]; lia.
  - unfold header_budget. simpl. rewrite Hh.
    destruct (header_sent w); simpl in Hr; [apply Z.leb_gt in Hr|]; lia.
  - split; [constructor|by intros i ?%not_elem_of_nil].
  - intros last [_ H2] Hlast. split; [done|]. simpl. intros i e Hi. specialize (H2 i e Hi). lia.
Qed.

Lemma poll_polled now w :
  window_ok w -> polled now w (fst (poll now w)) (snd (poll now w)).
Proof.
  intros Hw. unfold poll. destruct (_ || _ || _); [by apply polled_idle|].
  destruct (header_received w) eqn:Hh; cbn [negb].
  - destruct (resend_due_resent now w) as (again & Hr & Hcase). cbn zeta in Hcase.
    destruct (resend_due _ _ _ _ _) as [r m]. cbn [fst snd] in *.
    pose proof (polled_resent now w again m Hw Hh Hr) as Hp.
    destruct Hcase as [-> |[-> _]].
    + apply polled_set_failed. destruct Hp as [? ? ? ? Hb ? ?]. split; try done.
      * split; [constructor|by intros i ?%not_elem_of_nil].
      * intros i. specialize (Hb i). simpl in *. destruct (decide _); lia.
    + destruct (fill_window _ _ _ _ _ m) as [[fresh next] m'] eqn:Hf. cbn [fst snd].
      destruct (polled_fill now (set_flight m (next_chunk w) w) fresh next m' (polled_ok _ _ _ _ Hp)
                  Hh Hf) as [Hp2 Hfresh].
      eapply polled_app; [exact Hp|exact Hp2|].
      intros i Hi Hi'. apply Hfresh in Hi'. destruct Hr as (_ & Hr & _).
      destruct (Hr i Hi) as (e & He & _). apply (wok_flight _ Hw) in He. simpl in Hi'. lia.
  - destruct (_ || _); [|by apply polled_idle]. destruct (_ && _) eqn:Hlim.
    + by apply polled_set_failed, polled_idle.
    + pose proof (polled_header_sent now w Hw Hh Hlim) as Hp. by rewrite Hh in Hp.
Qed.

(** Once its retransmission timer is out, an unfinished window sends or fails. *)
Lemma poll_progress now last w :
  window_ok w -> window_complete w = false -> failed w = false -> (0 < total_chunks w)%nat ->
  sent_by last w -> last + ms (rto w) <= now ->
  send_header (fst (poll now w)) = true \/ action_chunks (fst (poll now w)) <> [] \/
  failed (snd (poll now w)) = true.
Proof.
  intros Hw Hc Hf Ht [Hs1 Hs2] Hnow. unfold poll. rewrite Hc, Hf.
  rewrite (proj2 (Nat.eqb_neq _ _)) by lia. cbn [orb].
  destruct (header_received w) eqn:Hh; cbn [negb].
  - destruct (resend_due_resent now w) as (again & Hr & Hcase). cbn zeta in Hcase.
    destruct (resend_due _ _ _ _ _) as [r m]. cbn [fst snd] in *.
    destruct Hcase as [-> |[-> Hdue]]; [by right; right|].
    destruct (fill_window _ _ _ _ _ m) as [[fresh next] m'] eqn:Hfill. cbn [fst snd].
    right. left. cbn [action_chunks].
    pose proof (fill_window_spec (window_size (win_config w)) now (acknowledged_ w)
      (total_chunks w - next_chunk w) (next_chunk w) m) as H. rewrite Hfill in H.
    destruct H as (H1 & H2 & H3 & H4 & _ & H6).
    { intros i Hi. eapply resent_is_Some in Hi as [e He]; [|done].
      apply (wok_flight _ Hw) in He. lia. }
    intros [-> ->]%app_nil.
    assert (in_flight w = ∅) as Hempty.
    { apply map_empty. intros i. destruct (in_flight w !! i) as [e|] eqn:He; [|done].
      specialize (Hdue i e He). specialize (Hs2 i e He).
      destruct (not_elem_of_nil i). apply Hdue. lia. }
    assert (window_complete w = true); [|congruence].
    unfold window_complete. rewrite (proj2 (Nat.eqb_neq _ _)) by lia. cbn [negb andb].
    rewrite Nat.eqb_eq, (wok_count _ Hw), <- (wok_length _ Hw). apply trues_all.
    rewrite (wok_length _ Hw). intros j Hj.
    destruct (decide (unacked (acknowledged_ w) j)) as [Hu|Hu].
    2: { unfold unacked in Hu. by destruct (acknowledged_ w !! j) as [[]|]. }
    destruct (decide (j < next_chunk w)%nat).
    { destruct (wok_sent _ Hw j) as [e He]; [done|done|]. by rewrite Hempty, lookup_empty in He. }
    pose proof (proj1 (wok_config _ Hw)). simpl in H4.
    rewrite (resent_size _ _ _ _ Hr), Hempty, map_size_empty in H4.
    destruct H6 as [->|]; [|lia].
    destruct (not_elem_of_nil j). rewrite H2. apply list_elem_of_filter. split; [done|].
    apply elem_of_seq. lia.
  - assert (negb (header_sent w) || (ms (rto w) <=? now - header_sent_at w) = true) as ->.
    { destruct (header_sent w); [|done]. simpl. apply Z.leb_le. specialize (Hs1 eq_refl). lia. }
    destruct (_ && _); simpl; eauto.
Qed.

(** What acknowledgements do: [new i] tells the chunks they acknowledge. *)
Record acked (new : nat -> Prop) (w w' : FileSendWindow) : Prop := {
  acked_ok : window_ok w';
  acked_same : win_config w' = win_config w /\ total_chunks w' = total_chunks w /\
    failed w' = failed w;
  acked_header : (header_budget w' <= header_budget w)%nat;
  acked_budget : forall i, (chunk_budget w' i <= chunk_budget w i)%nat;
  acked_sent : forall last, sent_by last w -> sent_by last w';
  acked_iff : forall i, unacked (acknowledged_ w') i <-> unacked (acknowledged_ w) i /\ ~ new i;
}.

Lemma acked_refl w : window_ok w -> acked (λ _, False) w w.
Proof. intros Hw. split; naive_solver. Qed.

Lemma acked_trans P Q R w1 w2 w3 :
  acked P w1 w2 -> acked Q w2 w3 -> (forall i, R i <-> P i \/ Q i) -> acked R w1 w3.
Proof.
  intros [_ (E1 & E2 & E3) Hh1 Hb1 Hs1 Hi1] [Hok (F1 & F2 & F3) Hh2 Hb2 Hs2 Hi2] HR. split.
  - done.
  - split_and!; congruence.
  - lia.
  - intros i. specialize (Hb1 i). specialize (Hb2 i). lia.
  - auto.
  - intros i. rewrite Hi2, Hi1, HR. tauto.
Qed.

Lemma observe_rtt_acked sample w : window_ok w -> acked (λ _, False) w (observe_rtt sample w).
Proof.
  intros Hw. split; try done; [|naive_solver].
  destruct Hw as [(? & ? & ? & ?)]. split; try done. simpl.
  repeat case_match; lia.
Qed.

Lemma acknowledge_chunk_acked now i w :
  window_ok w -> (i < total_chunks w)%nat -> acked (λ j, j = i) w (acknowledge_chunk now i w).
Proof.
  intros Hw Hi. unfold acknowledge_chunk. destruct (default false _) eqn:Ha.
  { split; try done. intros j. unfold unacked. split; [|tauto]. intros H. split; [done|].
    intros ->. congruence. }
  set (w1 := match in_flight w !! i with Some _ => _ | None => _ end).
  assert (acked (λ _, False) w w1) as H1.
  { subst w1. destruct (in_flight w !! i) as [e|]; [case_match|]; try by apply acked_refl.
    by apply observe_rtt_acked. }
  assert (acknowledged_ w1 = acknowledged_ w) as Ha1
    by (subst w1; destruct (in_flight w !! i); [case_match|]; done).
  eapply (acked_trans _ (λ j, j = i)); [exact H1| |intros j; tauto].
  destruct H1 as [Hw1 (_ & Et & _) _ _ _ _]. rewrite <- Ha1 in Ha. clearbody w1.
  assert (acknowledged_ w1 !! i = Some false) as Hl.
  { rewrite <- Et, <- (wok_length _ Hw1) in Hi.
    destruct (lookup_lt_is_Some_2 _ _ Hi) as [[] Hx]; rewrite Hx in Ha; done. }
  assert (forall j, default false (<[i:=true]> (acknowledged_ w1) !! j) =
                    if decide (j = i) then true else default false (acknowledged_ w1 !! j)) as Hins.
  { intros j. destruct (decide (j = i)) as [->|].
    - rewrite list_lookup_insert_eq; [done|]. by eapply lookup_lt_Some.
    - by rewrite list_lookup_insert_ne. }
  split; try done.
  - destruct Hw1. split; cbn [win_config total_chunks next_chunk acknowledged_count acknowledged_
      in_flight header_retransmissions rto]; try done.
    + by rewrite length_insert.
    + rewrite (trues_insert i true) by done. lia.
    + intros j e [Hne He]%lookup_delete_Some. destruct (wok_flight0 j e He) as (? & ? & ?).
      split_and!; try lia. unfold unacked. rewrite Hins, decide_False by done. done.
    + intros j Hj. unfold unacked. rewrite Hins. destruct (decide (j = i)); [done|].
      rewrite lookup_delete_ne by done. by apply wok_sent0.
    + rewrite map_size_delete. destruct (in_flight w1 !! i); unfold id; lia.
  - intros j. unfold chunk_budget. simpl. rewrite Hins. destruct (decide (j = i)) as [->|]; [lia|].
    by rewrite lookup_delete_ne.
  - intros last [Hs1 Hs2]. split; [done|]. simpl. intros j e [_ He]%lookup_delete_Some. eauto.
  - intros j. unfold unacked. simpl. rewrite Hins. destruct (decide (j = i)); naive_solver.
Qed.

Lemma acknowledge_chunks_acked now idx : forall w,
  window_ok w -> (forall i, i ∈ idx -> (i < total_chunks w)%nat) ->
  acked (λ j, j ∈ idx) w (foldl (λ w i, acknowledge_chunk now i w) w idx).
Proof.
  induction idx as [|i idx IH]; intros w Hw His; simpl.
  - eapply acked_trans; [by apply acked_refl|by apply acked_refl|].
    intros i. rewrite elem_of_nil. tauto.
  - pose proof (acknowledge_chunk_acked now i w Hw (His i ltac:(by left))) as H1.
    eapply acked_trans; [exact H1|apply IH; [apply H1|]|].
    + destruct H1 as [_ (_ & -> & _) _ _ _ _]. intros j Hj. apply His. by right.
    + intros j. by rewrite elem_of_cons.
Qed.

Lemma range_indices_spec total r j :
  0 <= range_first r -> j ∈ range_indices total r <-> range_has r j /\ (j < total)%nat.
Proof. intros Hr. unfold range_indices, range_has. rewrite elem_of_seq. lia. Qed.

Lemma acknowledge_ranges_acked now rs : forall w,
  window_ok w -> Forall (λ r, 0 <= range_first r) rs ->
  acked (λ j, covered rs j /\ (j < total_chunks w)%nat) w
    (foldl (λ w r, foldl (λ w i, acknowledge_chunk now i w) w (range_indices (total_chunks w) r))
       w rs).
Proof.
  induction rs as [|r rs IH]; intros w Hw Hrs; simpl.
  - eapply acked_trans; [by apply acked_refl|by apply acked_refl|].
    intros i. pose proof (covered_nil i). tauto.
  - apply Forall_cons in Hrs as [Hr Hrs].
    pose proof (acknowledge_chunks_acked now (range_indices (total_chunks w) r) w Hw) as H1.
    destruct H1 as [Hok Hsame Hh Hb Hs Hi]; [intros i Hi; apply range_indices_spec in Hi; tauto|].
    set (w1 := foldl _ w (range_indices _ r)) in *.
    eapply acked_trans; [exact (Build_acked _ _ _ Hok Hsame Hh Hb Hs Hi)|by apply IH|].
    intros j. simpl. rewrite covered_cons, range_indices_spec by done.
    destruct Hsame as (_ & -> & _). tauto.
Qed.

Lemma acknowledge_header_acked now w :
  window_ok w -> acked (λ _, False) w (acknowledge_header now w).
Proof.
  intros Hw. unfold acknowledge_header.
  set (w1 := if _ : bool then _ else _).
  assert (acked (λ _, False) w w1) as H1.
  { subst w1. case_match; [by apply observe_rtt_acked|by apply acked_refl]. }
  eapply (acked_trans _ (λ _, False)); [exact H1| |intros i; tauto].
  destruct H1 as [Hw1 _ _ _ _ _]. clearbody w1. split; try done.
  - destruct Hw1. by split.
  - unfold header_budget. simpl. lia.
  - naive_solver.
Qed.

Lemma acknowledge_acked ack now w :
  window_ok w -> Forall (λ r, 0 <= range_first r) (fa_ranges ack) -> failed w = false ->
  acked (λ j, covered (fa_ranges ack) j /\ (j < total_chunks w)%nat) w (acknowledge ack now w).
Proof.
  intros Hw Hrs Hf. unfold acknowledge. rewrite Hf. cbn [orb].
  destruct (Nat.eqb_spec (total_chunks w) 0) as [E|_].
  { eapply acked_trans; [by apply acked_refl|by apply acked_refl|]. intros i. rewrite E. lia. }
  set (w1 := if _ : bool then _ else _).
  assert (acked (λ _, False) w w1) as H1.
  { subst w1. case_match; [by apply acknowledge_header_acked|by apply acked_refl]. }
  eapply acked_trans; [exact H1|apply acknowledge_ranges_acked; [apply H1|done]|].
  destruct H1 as [_ (_ & E & _) _ _ _ _]. intros i. simpl. rewrite E. tauto.
Qed.

(** ** Runs of the window *)

Inductive WindowEvent :=
  | EvPoll (now : Z)
  | EvAck (ack : FileTransferAck) (now : Z)
  | EvCancel.

Definition window_step (w : FileSendWindow) (ev : WindowEvent) : FileSendAction * FileSendWindow :=
  match ev with
  | EvPoll now => poll now w
  | EvAck ack now => (mkAction false [], acknowledge ack now w)
  | EvCancel => (mkAction false [], window_cancel w)
  end.

Fixpoint window_run (evs : list WindowEvent) (w : FileSendWindow)
    : list FileSendAction * FileSendWindow :=
  match evs with
  | [] => ([], w)
  | ev :: evs =>
      let '(a, w) := window_step w ev in
      let '(actions, w) := window_run evs w in
      (a :: actions, w)
  end.

(** The acknowledgements come out of [deserialize_file_ack]. *)
Definition event_wf (ev : WindowEvent) : Prop :=
  match ev with EvAck ack _ => file_ack_wf ack | _ => True end.

(** Successive polls are at least [gap] apart. *)
Fixpoint paced (gap last : Z) (evs : list WindowEvent) : Prop :=
  match evs with
  | [] => True
  | EvPoll now :: evs => last + gap <= now /\ paced gap now evs
  | _ :: evs => paced gap last evs
  end.

Definition is_poll (ev : WindowEvent) : bool := match ev with EvPoll _ => true | _ => false end.
Definition polls (evs : list WindowEvent) : nat := length (filter (λ ev, is_poll ev = true) evs).

Definition header_sends (actions : list FileSendAction) : nat :=
  length (filter (λ a, send_header a = true) actions).
Definition chunk_sends (i : nat) (actions : list FileSendAction) : nat :=
  length (filter (λ a, i ∈ action_chunks a) actions).

Definition finished (w : FileSendWindow) : bool := failed w || window_complete w.

Lemma ack_ranges_nonneg ack : file_ack_wf ack -> Forall (λ r, 0 <= range_first r) (fa_ranges ack).
Proof.
  intros (_ & _ & H & _). eapply Forall_impl; [exact H|]. intros r [[H1 _] _]. exact H1.
Qed.

(** What any event does. *)
Record stepped (w : FileSendWindow) (a : FileSendAction) (w' : FileSendWindow) : Prop := {
  stepped_ok : window_ok w';
  stepped_same : win_config w' = win_config w /\ total_chunks w' = total_chunks w;
  stepped_header : ((if send_header a then 1 else 0) + header_budget w' <= header_budget w)%nat;
  stepped_budget : forall i,
    ((if decide (i ∈ action_chunks a) then 1 else 0) + chunk_budget w' i <= chunk_budget w i)%nat;
  stepped_chunks : NoDup (action_chunks a) /\
    forall i, i ∈ action_chunks a -> (i < total_chunks w)%nat;
  stepped_finished : finished w = true -> finished w' = true;
}.

Lemma window_complete_spec w :
  window_ok w -> window_complete w = true <->
  (0 < total_chunks w)%nat /\ forall i, (i < total_chunks w)%nat -> ~ unacked (acknowledged_ w) i.
Proof.
  intros Hw. unfold window_complete, unacked.
  rewrite andb_true_iff, negb_true_iff, Nat.eqb_neq, Nat.eqb_eq, (wok_count _ Hw),
    <- (wok_length _ Hw), trues_all.
  split; intros [H0 H]; (split; [lia|]); intros i Hi; specialize (H i Hi).
  - by rewrite H.
  - destruct (acknowledged_ w !! i) as [[]|]; simpl in *; done.
Qed.

Lemma window_step_stepped w ev :
  window_ok w -> event_wf ev ->
  stepped w (fst (window_step w ev)) (snd (window_step w ev)).
Proof.
  intros Hw Hev. assert (NoDup (A := nat) [] /\ forall i, i ∈ [] -> (i < total_chunks w)%nat) as Hnil.
  { split; [constructor|]. by intros i ?%not_elem_of_nil. }
  assert (stepped w (mkAction false []) w) as Hidle by (split; done).
  destruct ev as [now|ack now|]; simpl.
  - destruct (poll_polled now w Hw) as [Hok (E1 & E2 & E3 & _) Hh [Hn Hc] Hb _ Hf].
    split; try done; [split; [done|]; intros i Hi; by apply Hc|].
    unfold finished. rewrite !orb_true_iff. intros [H|H]; [by left; auto|right].
    rewrite window_complete_spec in * by done. by rewrite E2, E3.
  - destruct (failed w) eqn:Hf.
    { unfold acknowledge. by rewrite Hf. }
    destruct (acknowledge_acked ack now w Hw (ack_ranges_nonneg _ Hev) Hf)
      as [Hok (E1 & E2 & E3) Hh Hb _ Hi].
    split; try done. unfold finished. rewrite !orb_true_iff, E3. intros [H|H]; [by left|right].
    rewrite window_complete_spec in * by done. rewrite E2. destruct H as [H0 H].
    split; [done|]. intros i Hlt [Hu _]%Hi. by eapply H.
  - split; try done. destruct Hw. by split.
Qed.

Lemma window_run_stepped evs : forall w,
  window_ok w -> Forall event_wf evs ->
  let '(actions, w') := window_run evs w in
  window_ok w' /\ total_chunks w' = total_chunks w /\ win_config w' = win_config w /\
  (header_sends actions + header_budget w' <= header_budget w)%nat /\
  (forall i, (chunk_sends i actions + chunk_budget w' i <= chunk_budget w i)%nat) /\
  (forall a i, a ∈ actions -> i ∈ action_chunks a -> (i < total_chunks w)%nat) /\
  (finished w = true -> finished w' = true).
Proof.
  induction evs as [|ev evs IH]; intros w Hw Hevs; simpl.
  { unfold header_sends, chunk_sends. split_and!; try done. by intros a i ?%not_elem_of_nil. }
  apply Forall_cons in Hevs as [Hev Hevs].
  pose proof (window_step_stepped w ev Hw Hev) as [Hok [E1 E2] Hh Hb [_ Hc] Hf].
  destruct (window_step w ev) as [a w1]. cbn [fst snd] in *.
  specialize (IH w1 Hok Hevs). destruct (window_run evs w1) as [actions w2].
  destruct IH as (Hok2 & F2 & F1 & Gh & Gb & Gc & Gf).
  split_and!; try done; try congruence.
  - unfold header_sends in *. rewrite filter_cons. destruct (send_header a); simpl in *; lia.
  - intros i. specialize (Hb i). specialize (Gb i). unfold chunk_sends in *. rewrite filter_cons.
    destruct (decide (i ∈ action_chunks a)); simpl; lia.
  - intros b i [->|Hb']%elem_of_cons Hi; [by apply Hc|]. rewrite <- E2. by eapply Gc.
  - auto.
Qed.

(** Whatever acknowledgements arrive and however often the window is polled, the header
    and each chunk are sent at most [retry_limit + 1] times, only chunks of the file are sent,
    and never more than [window_size] of them are unacknowledged. *)
Theorem file_transmissions_bounded total start w w0 evs :
  window_reset total start w = (true, w0) -> u32 total -> 0 <= retry_limit (win_config w) ->
  Forall event_wf evs ->
  let '(actions, w1) := window_run evs w0 in
  Z.of_nat (header_sends actions) <= retry_limit (win_config w) + 1 /\
  (forall i, Z.of_nat (chunk_sends i actions) <= retry_limit (win_config w) + 1) /\
  (forall a i, a ∈ actions -> i ∈ action_chunks a -> Z.of_nat i < total) /\
  (size (in_flight w1) <= window_size (win_config w))%nat /\
  forall i, is_Some (in_flight w1 !! i) -> default false (acknowledged_ w1 !! i) = false.
Proof.
  intros Hr Hu Hl Hevs.
  destruct (window_reset_ok _ _ _ _ Hr (proj1 Hu) Hl)
    as (Hok & Ht & _ & _ & Hs & Hh & Hm & Hn & Hc & _).
  pose proof (window_run_stepped evs w0 Hok Hevs) as H.
  destruct (window_run evs w0) as [actions w1].
  destruct H as (Hok1 & E2 & E1 & Gh & Gb & Gc & _).
  unfold header_budget at 2 in Gh. rewrite Hs, Hh, Hc in Gh.
  split_and!.
  - lia.
  - intros i. specialize (Gb i). unfold chunk_budget at 2 in Gb.
    rewrite Hm, Hn, lookup_empty, Hc in Gb. simpl in Gb. destruct (default false _); lia.
  - intros a i Ha Hi. specialize (Gc a i Ha Hi). lia.
  - rewrite <- Hc, <- E1. apply Hok1.
  - intros i [e He]. by apply (wok_flight _ Hok1 i e He).
Qed.

Lemma file_transmissions_bounded_witness :
  let w0 := snd (window_reset 2 0 (window_init default_window_config)) in
  Z.of_nat (header_sends (fst (window_run [EvPoll 0; EvPoll (ms 300); EvPoll (ms 600)] w0))) <= 6.
Proof.
  pose proof (file_transmissions_bounded 2 0 (window_init default_window_config)
    (snd (window_reset 2 0 (window_init default_window_config)))
    [EvPoll 0; EvPoll (ms 300); EvPoll (ms 600)] eq_refl
    ltac:(unfold in_width; lia) ltac:(simpl; lia) ltac:(repeat constructor)) as H.
  cbv zeta. destruct (window_run _ _) as [actions w1]. apply H.
Defined.

(** All that the window may still send. *)
Definition total_budget (w : FileSendWindow) : nat :=
  header_budget w + sum_list_with (chunk_budget w) (seq 0 (total_chunks w)).

Lemma sum_budget_le (f g : nat -> nat) l :
  (forall i, (f i <= g i)%nat) -> (sum_list_with f l <= sum_list_with g l)%nat.
Proof. intros H. induction l as [|i l IH]; simpl; [done|]. specialize (H i). lia. Qed.

Lemma sum_budget_lt (f g : nat -> nat) l j :
  (forall i, (f i <= g i)%nat) -> j ∈ l -> (f j < g j)%nat ->
  (sum_list_with f l < sum_list_with g l)%nat.
Proof.
  intros H Hj Hlt. induction l as [|i l IH]; [by apply not_elem_of_nil in Hj|].
  pose proof (sum_budget_le f g l H). specialize (H i). simpl.
  apply elem_of_cons in Hj as [->|Hj]; [lia|]. specialize (IH Hj). lia.
Qed.

Lemma stepped_total w a w' :
  stepped w a w' -> (total_budget w' <= total_budget w)%nat /\
  (send_header a = true \/ action_chunks a <> [] -> (total_budget w' < total_budget w)%nat).
Proof.
  intros [_ [_ Et] Hh Hb [_ Hc] _]. unfold total_budget. rewrite Et.
  assert (forall i, (chunk_budget w' i <= chunk_budget w i)%nat) as Hle
    by (intros i; specialize (Hb i); lia).
  pose proof (sum_budget_le _ _ (seq 0 (total_chunks w)) Hle). split; [lia|].
  intros [Hs|Hs]; [rewrite Hs in Hh; lia|].
  destruct (action_chunks a) as [|j chunks] eqn:E; [done|].
  assert (sum_list_with (chunk_budget w') (seq 0 (total_chunks w)) <
          sum_list_with (chunk_budget w) (seq 0 (total_chunks w)))%nat; [|lia].
  apply (sum_budget_lt _ _ _ j Hle).
  - apply elem_of_seq. split; [lia|]. simpl. apply Hc. by left.
  - specialize (Hb j). rewrite decide_True in Hb by (by left). lia.
Qed.

Lemma paced_sent_by last w ev :
  window_ok w -> event_wf ev -> sent_by last w ->
  match ev with
  | EvPoll now => last <= now -> sent_by now (snd (window_step w ev))
  | _ => sent_by last (snd (window_step w ev))
  end.
Proof.
  intros Hw Hev Hs. destruct ev as [now|ack now|]; simpl.
  - by apply (polled_sent _ _ _ _ (poll_polled now w Hw)).
  - destruct (failed w) eqn:Hf; [unfold acknowledge; by rewrite Hf|].
    by apply (acked_sent _ _ _ (acknowledge_acked ack now w Hw (ack_ranges_nonneg _ Hev) Hf)).
  - done.
Qed.

Lemma polls_cons ev evs : polls (ev :: evs) = ((if is_poll ev then 1 else 0) + polls evs)%nat.
Proof. unfold polls. rewrite filter_cons. destruct (is_poll ev); done. Qed.

Lemma paced_run_finishes evs : forall w last,
  window_ok w -> (0 < total_chunks w)%nat -> Forall event_wf evs -> sent_by last w ->
  paced (ms (maximum_rto (win_config w))) last evs ->
  finished (snd (window_run evs w)) = true \/
  (polls evs + total_budget (snd (window_run evs w)) <= total_budget w)%nat.
Proof.
  induction evs as [|ev evs IH]; intros w last Hw Ht Hevs Hs Hp; [by right|].
  apply Forall_cons in Hevs as [Hev Hevs].
  pose proof (window_step_stepped w ev Hw Hev) as Hst.
  pose proof (paced_sent_by last w ev Hw Hev Hs) as Hsent.
  destruct (stepped_total _ _ _ Hst) as [Hle Hlt].
  destruct Hst as [Hok [E1 E2] _ _ _ Hfin].
  pose proof (window_run_stepped evs _ Hok Hevs) as Hrun.
  cbn [window_run]. rewrite polls_cons.
  destruct (window_step w ev) as [a w1] eqn:Estep. cbn [fst snd] in *.
  assert (forall l, sent_by l w1 -> paced (ms (maximum_rto (win_config w))) l evs ->
    finished (snd (window_run evs w1)) = true \/
    (polls evs + total_budget (snd (window_run evs w1)) <= total_budget w1)%nat) as IH1.
  { intros l Hl Hpl. apply (IH w1 l); [done|by rewrite E2|done|done|by rewrite E1]. }
  destruct (window_run evs w1) as [actions w2]. cbn [snd] in *.
  destruct Hrun as (_ & _ & _ & _ & _ & _ & Hfin2).
  destruct ev as [now|ack now|]; cbn [paced window_step is_poll] in *.
  - destruct Hp as [Hp1 Hp2]. pose proof (wok_config _ Hw) as (_ & _ & ? & ?).
    pose proof (wok_rto _ Hw). unfold ms in *.
    destruct (IH1 now (Hsent ltac:(lia)) Hp2) as [?|Hb]; [by left|].
    destruct (finished w1) eqn:F1; [left; by apply Hfin2|right].
    destruct (finished w) eqn:F; [by specialize (Hfin eq_refl)|].
    unfold finished in F, F1. apply orb_false_iff in F as [? ?], F1 as [? _].
    pose proof (poll_progress now last w Hw ltac:(done) ltac:(done) Ht Hs
      ltac:(unfold ms; lia)) as Hprog. rewrite Estep in Hprog. cbn [fst snd] in Hprog.
    assert (total_budget w1 < total_budget w)%nat; [apply Hlt|lia].
    destruct Hprog as [?|[?|?]]; [by left|by right|congruence].
  - destruct (IH1 last Hsent Hp) as [?|Hb]; [by left|right]. lia.
  - destruct (IH1 last Hsent Hp) as [?|Hb]; [by left|right]. lia.
Qed.

Lemma sum_budget_const c l : sum_list_with (λ _ : nat, c) l = (length l * c)%nat.
Proof. induction l as [|i l IH]; simpl; lia. Qed.


