(* ===== verification/FileNode.v ===== *)
(** * File transfers of a node

    The file half of [src/tunnel/tunnel.cpp] with the file commit of
    [src/file/transfer.cpp]: the tables of incoming and outgoing transfers, the partial
    files, what the handlers of header, chunk, cancel and acknowledgement messages do under
    their locks, the expiry of idle transfers and the rounds of [send_file].

    The file system is a map from paths to contents.  Each operation takes an oracle that
    says which calls fail and what a failed write leaves behind, so the theorems hold for a
    failing disk too.  [std::filesystem] and the streams are otherwise modelled by their
    documented behaviour: a write beyond the end fills the gap with zero bytes and a rename
    replaces its target. *)

From Stdlib Require Import String.
From Stdlib Require Import ZArith Lia Bool.
From Stdlib.Strings Require Import Byte.
From stdpp Require Import base numbers gmap sorting option list.
From S2P Require Import Prelude Wire Packet Crypto Endpoint FileMsg FileTransfer.
#[local] Open Scope Z_scope.

Abbreviation FileTransferKey := (list byte * Z)%type (only parsing).
Abbreviation Path := (list byte) (only parsing).
Abbreviation FileSystem := (gmap (list byte) (list byte)) (only parsing).

(** The peers a file goes to: those with a session and an endpoint. *)
Abbreviation FilePeer := (list byte * Endpoint)%type (only parsing).

Inductive FileCommitResult := Committed | IoError | SizeMismatch | DigestMismatch | RenameFailed.
#[export] Instance commit_eq_dec : EqDecision FileCommitResult.
Proof. solve_decision. Defined.

(** What the operating system does during one operation. *)
Record FileIo := mkIo {
  io_create : bool;                          (* the truncating open succeeds *)
  io_open : bool;                            (* the open for update succeeds *)
  io_write : option (list byte * bool);      (* a faulty write: what is left, stream state *)
  io_size : bool;
  io_read : bool;
  io_rename : bool;
}.

Definition io_good : FileIo := mkIo true true None true true true.

(** ** Reading and committing a file *)

Definition HASH_BUFFER_SIZE : nat := (64 * 1024)%nat.

(** The blocks the loop of [hash_file_sha256] reads: it ends with the first short one. *)
Fixpoint file_blocks (fuel : nat) (rest : list byte) : list (list byte) :=
  match fuel with
  | O => []
  | S fuel =>
      let block := take HASH_BUFFER_SIZE rest in
      if Nat.ltb (length block) HASH_BUFFER_SIZE then [block]
      else block :: file_blocks fuel (drop HASH_BUFFER_SIZE rest)
  end.

Section FileNode.
Context `{OpenSSL}.

Definition hash_file_sha256 (io : FileIo) (fs : FileSystem) (path : Path) (expected_size : Z)
    : option (list byte) :=
  match fs !! path with
  | None => None
  | Some content =>
      if negb (io_read io) then None
      else
        let blocks := file_blocks (S (length content)) content in
        let total := wrap 64 (Z.of_nat (sum_list_with length blocks)) in
        if negb (total =? expected_size) then None
        else match evp_sha256 (concat blocks) with
             | Some digest => if Nat.eqb (length digest) 32 then Some digest else None
             | None => None
             end
  end.

Definition rename_file (part final : Path) (fs : FileSystem) : FileSystem :=
  match fs !! part with
  | Some content => <[final := content]> (delete part fs)
  | None => fs
  end.

Definition verify_and_commit_file (io : FileIo) (fs : FileSystem) (part_path final_path : Path)
    (expected_size : Z) (expected_hash : list byte) : FileCommitResult * FileSystem :=
  match fs !! part_path with
  | None => (IoError, fs)
  | Some content =>
      if negb (io_size io) then (IoError, fs)
      else if negb (Z.of_nat (length content) =? expected_size) then (SizeMismatch, fs)
      else match hash_file_sha256 io fs part_path expected_size with
           | None => (IoError, fs)
           | Some actual_hash =>
               if negb (bool_decide (actual_hash = expected_hash)) then (DigestMismatch, fs)
               else if negb (io_rename io) then (RenameFailed, fs)
               else (Committed, rename_file part_path final_path fs)
           end
  end.

(** ** Incoming transfers *)

Record IncomingFileTransfer := mkIncoming {
  if_filename : list byte;
  if_file_size : Z;
  if_chunk_size : Z;
  if_total_chunks : Z;
  if_content_hash : list byte;
  output_path : Path;
  final_path : Path;
  if_chunks : FileChunkTracker;
  completion_reported : bool;
  last_activity : Z;
}.

Record FileNode := mkFileNode {
  incoming_transfers : gmap FileTransferKey IncomingFileTransfer;
  outgoing_transfers : gmap FileTransferKey FileSendWindow;
  files : FileSystem;
}.

Definition set_incoming (m : gmap FileTransferKey IncomingFileTransfer) (n : FileNode)
    : FileNode := mkFileNode m (outgoing_transfers n) (files n).
Definition set_outgoing (m : gmap FileTransferKey FileSendWindow) (n : FileNode) : FileNode :=
  mkFileNode (incoming_transfers n) m (files n).
Definition set_files (fs : FileSystem) (n : FileNode) : FileNode :=
  mkFileNode (incoming_transfers n) (outgoing_transfers n) fs.

Definition with_chunks (c : FileChunkTracker) (reported : bool) (now : Z)
    (t : IncomingFileTransfer) : IncomingFileTransfer :=
  mkIncoming (if_filename t) (if_file_size t) (if_chunk_size t) (if_total_chunks t)
    (if_content_hash t) (output_path t) (final_path t) c reported now.

(** What a handler sends back once it has released the lock. *)
Inductive FileReply :=
  | NoReply
  | ReplyAck (ack : FileTransferAck)
  | ReplyCancel (transfer_id : Z) (reason : FileCancelReason).

Definition downloads : list byte := lit "./downloads/".

(** The transfers that count against the limits: all of them, or those of one sender. *)
Definition counts_against (who : option (list byte)) (kt : FileTransferKey * IncomingFileTransfer)
    : bool :=
  negb (completion_reported kt.2) &&
  match who with None => true | Some p => bool_decide (kt.1.1 = p) end.

Definition active_transfers (who : option (list byte))
    (m : gmap FileTransferKey IncomingFileTransfer) : list IncomingFileTransfer :=
  snd <$> filter (λ kt, counts_against who kt = true) (map_to_list m).

Definition reserved_bytes (l : list IncomingFileTransfer) : Z :=
  wrap 64 (foldr (λ t acc, if_file_size t + acc) 0 l).

Definition same_transfer (h : FileTransferHeader) (t : IncomingFileTransfer) : bool :=
  bool_decide (if_filename t = fh_filename h) && (if_file_size t =? fh_file_size h) &&
  (if_chunk_size t =? fh_chunk_size h) && (if_total_chunks t =? fh_total_chunks h) &&
  bool_decide (if_content_hash t = fh_content_hash h).

(** The locked region of [handle_file_header_frame]. *)
Definition receive_file_header (io : FileIo) (peer : list byte) (h : FileTransferHeader)
    (now : Z) (n : FileNode) : FileReply * FileNode :=
  let key := (peer, fh_transfer_id h) in
  let out_path := downloads ++ file_transfer_part_name peer (fh_transfer_id h) in
  match incoming_transfers n !! key with
  | Some t =>
      if negb (same_transfer h t) then (NoReply, n)
      else
        (ReplyAck (mkFileAck (fh_transfer_id h) true
                     (acknowledged_ranges None FILE_ACK_MAX_RANGES (if_chunks t))),
         set_incoming (<[key := with_chunks (if_chunks t) (completion_reported t) now t]>
                         (incoming_transfers n)) n)
  | None =>
      let of_peer := active_transfers (Some peer) (incoming_transfers n) in
      let all := active_transfers None (incoming_transfers n) in
      if negb (file_transfer_admission_allowed (Z.of_nat (length of_peer))
                 (reserved_bytes of_peer) (Z.of_nat (length all)) (reserved_bytes all)
                 (fh_file_size h))
      then (ReplyCancel (fh_transfer_id h) Capacity, n)
      else if negb (io_create io) then (NoReply, n)
      else
        let n := set_files (<[out_path := []]> (files n)) n in
        match chunk_tracker_reset (fh_total_chunks h) with
        | None => (NoReply, n)
        | Some chunks =>
            let t := mkIncoming (fh_filename h) (fh_file_size h) (fh_chunk_size h)
                       (fh_total_chunks h) (fh_content_hash h) out_path
                       (downloads ++ fh_filename h) chunks false now in
            (ReplyAck (mkFileAck (fh_transfer_id h) true []),
             set_incoming (<[key := t]> (incoming_transfers n)) n)
        end
  end.

(** [seekp] and [write]: the bytes of [data] at [offset]; writing nothing changes nothing. *)
Definition write_at (content : list byte) (offset : nat) (data : list byte) : list byte :=
  match data with
  | [] => content
  | _ => take offset content ++ replicate (offset - length content) x00 ++ data ++
         drop (offset + length data) content
  end.

(** The write of one chunk: [None] when the handler returns. *)
Definition store_chunk (io : FileIo) (path : Path) (offset : Z) (data : list byte)
    (fs : FileSystem) : bool * FileSystem :=
  match fs !! path with
  | None => (false, fs)
  | Some content =>
      if negb (io_open io) then (false, fs)
      else match io_write io with
           | Some (after, stream_ok) => (stream_ok, <[path := after]> fs)
           | None => (true, <[path := write_at content (Z.to_nat offset) data]> fs)
           end
  end.

Definition expected_header (id : Z) (t : IncomingFileTransfer) : FileTransferHeader :=
  mkFileHeader id (if_file_size t) (if_chunk_size t) (if_total_chunks t) (if_content_hash t)
    (if_filename t).

(** The end of the locked region of [handle_file_chunk_frame], once the chunk is recorded:
    commit the file if it is complete, then acknowledge. *)
Definition finish_chunk (io : FileIo) (key : FileTransferKey) (i : nat)
    (t : IncomingFileTransfer) (n : FileNode) : FileReply * FileNode :=
  let '(t, fs) :=
    if tracker_complete (if_chunks t) && negb (completion_reported t) then
      match verify_and_commit_file io (files n) (output_path t) (final_path t)
              (if_file_size t) (if_content_hash t) with
      | (Committed, fs) => (with_chunks (if_chunks t) true (last_activity t) t, fs)
      | (_, fs) => (with_chunks (snd (remove_chunk i (if_chunks t))) (completion_reported t)
                      (last_activity t) t, fs)
      end
    else (t, files n) in
  (ReplyAck (mkFileAck (snd key) true
               (acknowledged_ranges (Some i) FILE_ACK_MAX_RANGES (if_chunks t))),
   set_files fs (set_incoming (<[key := t]> (incoming_transfers n)) n)).

(** The locked region of [handle_file_chunk_frame]. *)
Definition receive_file_chunk (io : FileIo) (peer : list byte) (c : FileTransferChunk)
    (now : Z) (n : FileNode) : FileReply * FileNode :=
  let key := (peer, fc_transfer_id c) in
  let i := Z.to_nat (fc_chunk_index c) in
  match incoming_transfers n !! key with
  | None => (NoReply, n)
  | Some t =>
      if negb (is_valid_file_chunk_for_header (expected_header (fc_transfer_id c) t) c)
      then (NoReply, n)
      else
        let t := with_chunks (if_chunks t) (completion_reported t) now t in
        let n := set_incoming (<[key := t]> (incoming_transfers n)) n in
        if received i (if_chunks t) then finish_chunk io key i t n
        else
          let '(stored, fs) :=
            store_chunk io (output_path t) (wrap 64 (fc_chunk_index c * if_chunk_size t))
              (fc_data c) (files n) in
          let n := set_files fs n in
          if negb stored then (NoReply, n)
          else match record_chunk i (if_chunks t) with
               | (Accepted, chunks) =>
                   let t := with_chunks chunks (completion_reported t) now t in
                   finish_chunk io key i t n
               | (_, chunks) =>
                   (NoReply, set_incoming (<[key := with_chunks chunks (completion_reported t)
                                                     now t]> (incoming_transfers n)) n)
               end
  end.

(** ** Cancellation and expiry *)

(** The first locked region of [handle_file_cancel_frame]: the partial file to remove. *)
Definition cancel_incoming (key : FileTransferKey) (n : FileNode) : option Path * FileNode :=
  match incoming_transfers n !! key with
  | None => (None, n)
  | Some t => (if completion_reported t then None else Some (output_path t),
               set_incoming (delete key (incoming_transfers n)) n)
  end.

(** [std::filesystem::remove], which may fail. *)
Definition remove_file (ok : bool) (path : option Path) (n : FileNode) : FileNode :=
  match path with
  | Some p => if ok then set_files (delete p (files n)) n else n
  | None => n
  end.

Definition cancel_outgoing (key : FileTransferKey) (n : FileNode) : FileNode :=
  match outgoing_transfers n !! key with
  | Some w => set_outgoing (<[key := window_cancel w]> (outgoing_transfers n)) n
  | None => n
  end.

Definition receive_file_cancel (ok : bool) (peer : list byte) (c : FileTransferCancel)
    (n : FileNode) : FileNode :=
  let key := (peer, fx_transfer_id c) in
  let '(path, n) := cancel_incoming key n in
  cancel_outgoing key (remove_file ok path n).

Definition receive_file_ack (peer : list byte) (a : FileTransferAck) (now : Z) (n : FileNode)
    : FileNode :=
  let key := (peer, fa_transfer_id a) in
  match outgoing_transfers n !! key with
  | Some w => set_outgoing (<[key := acknowledge a now w]> (outgoing_transfers n)) n
  | None => n
  end.

(** [std::map] order on the keys. *)
Definition key_le {A} (a b : FileTransferKey * A) : Prop :=
  let '((p, i), _) := a in let '((q, j), _) := b in
  bytes_ltb p q = true \/ p = q /\ i <= j.
#[export] Instance key_le_dec {A} (a b : FileTransferKey * A) : Decision (key_le a b).
Proof. destruct a as [[p i] x], b as [[q j] y]. apply _. Defined.

Definition transfer_entries {A} (m : gmap FileTransferKey A) : list (FileTransferKey * A) :=
  merge_sort key_le (map_to_list m).

(** The locked region of [expire_file_transfers]: the transfers it erases, with the partial
    files to remove and to cancel. *)
Definition collect_expired (now : Z) (n : FileNode)
    : list (FileTransferKey * option Path) * FileNode :=
  let idle := λ t, file_transfer_idle_expired (last_activity t) now in
  let expired := filter (λ kt, idle kt.2 = true) (transfer_entries (incoming_transfers n)) in
  ((λ kt, (kt.1, if completion_reported kt.2 then None else Some (output_path kt.2)))
     <$> expired,
   set_incoming (filter (λ kt, idle kt.2 = false) (incoming_transfers n)) n).

(** The loop after it, without the messages to the senders. *)
Definition remove_expired (ok : Path -> bool) (expired : list (FileTransferKey * option Path))
    (n : FileNode) : FileNode :=
  foldl (λ n kp, match kp.2 with
                 | Some p => remove_file (ok p) (Some p) n
                 | None => n
                 end) n expired.

(** ** Sending a file *)

Section Sending.
Context `{RandomSource}.

(** The loop that draws a transfer id: [None] if the random source fails. *)
Fixpoint new_transfer_id (attempts : nat) (r : rng) : option Z * rng :=
  match attempts with
  | O => (Some 0, r)
  | S attempts =>
      match random_u64 r with
      | (None, r) => (None, r)
      | (Some id, r) => if id =? 0 then new_transfer_id attempts r else (Some id, r)
      end
  end.

(** [send_file] up to the choice of the peers: the header it will send. *)
Definition prepare_send (io : FileIo) (fs : FileSystem) (filepath : Path) (overlay_mtu : Z)
    (r : rng) : option FileTransferHeader * rng :=
  match fs !! filepath with
  | None => (None, r)
  | Some content =>
      let file_size := Z.of_nat (length content) in
      match sanitize_file_name filepath, file_chunk_size_for_overlay_mtu overlay_mtu with
      | Some filename, Some chunk_size =>
          let total_chunks := file_transfer_chunk_count file_size chunk_size in
          if total_chunks =? 0 then (None, r)
          else match hash_file_sha256 io fs filepath file_size with
               | None => (None, r)
               | Some content_hash =>
                   match new_transfer_id 16 r with
                   | (None, r) => (None, r)
                   | (Some id, r) =>
                       if id =? 0 then (None, r)
                       else (Some (mkFileHeader id file_size chunk_size total_chunks
                                     content_hash filename), r)
                   end
               end
      | _, _ => (None, r)
      end
  end.
End Sending.

(** The region that opens one window per peer; [false] when a window refuses. *)
Fixpoint open_windows (total now id : Z) (peers : list FilePeer)
    (out : gmap FileTransferKey FileSendWindow) : bool * gmap FileTransferKey FileSendWindow :=
  match peers with
  | [] => (true, out)
  | (p, _) :: peers =>
      match window_reset total now (window_init default_window_config) with
      | (false, _) => (false, out)
      | (true, w) => open_windows total now id peers (<[(p, id) := w]> out)
      end
  end.

(** The state of the loop of [send_file]. *)
Record FileSend := mkSend {
  sf_header : FileTransferHeader;
  sf_peers : list FilePeer;
  sf_keys : list FileTransferKey;      (* transfer_keys *)
  sf_all_keys : list FileTransferKey;
  sf_failed : bool;
}.

Definition begin_send (h : FileTransferHeader) (peers : list FilePeer) (now : Z) (n : FileNode)
    : option FileSend * FileNode :=
  match peers with
  | [] => (None, n)
  | _ =>
      match serialize_file_header h with
      | None => (None, n)
      | Some _ =>
          let '(ok, out) := open_windows (fh_total_chunks h) now (fh_transfer_id h) peers
                              (outgoing_transfers n) in
          let keys := (λ p, (fst p, fh_transfer_id h)) <$> peers in
          (if ok then Some (mkSend h peers keys keys false) else None, set_outgoing out n)
      end
  end.

Definition peer_endpoint (p : list byte) (peers : list FilePeer) : option Endpoint :=
  snd <$> List.find (λ c, bool_decide (fst c = p)) peers.

(** The locked loop over the transfers: failure, the keys still active, what to send. *)
Fixpoint poll_transfers (now : Z) (peers : list FilePeer) (keys : list FileTransferKey)
    (out : gmap FileTransferKey FileSendWindow)
    : bool * list FileTransferKey * list (FilePeer * FileSendAction) *
      gmap FileTransferKey FileSendWindow :=
  match keys with
  | [] => (false, [], [], out)
  | key :: keys =>
      match out !! key with
      | None => (true, [], [], out)
      | Some w =>
          if window_complete w then poll_transfers now peers keys (delete key out)
          else
            let '(action, w) := poll now w in
            let out := <[key := w]> out in
            if failed w then (true, [], [], out)
            else if negb (send_header action) && Nat.eqb (length (action_chunks action)) 0 then
              let '(f, active, sends, out) := poll_transfers now peers keys out in
              (f, key :: active, sends, out)
            else match peer_endpoint (fst key) peers with
                 | None => (true, [key], [], out)
                 | Some e =>
                     let '(f, active, sends, out) := poll_transfers now peers keys out in
                     (f, key :: active, ((fst key, e), action) :: sends, out)
                 end
      end
  end.

(** A chunk read from the file whose content is now [content]: [None] when the read is short
    or the chunk cannot be encoded. *)
Definition read_chunk (h : FileTransferHeader) (content : list byte) (i : nat)
    : option (list byte) :=
  let offset := wrap 64 (Z.of_nat i * fh_chunk_size h) in
  let len := Z.min (fh_chunk_size h) (wrap 64 (fh_file_size h - offset)) in
  let bytes := take (Z.to_nat len) (drop (Z.to_nat offset) content) in
  if negb (Z.of_nat (length bytes) =? len) then None
  else serialize_file_chunk (mkFileChunk (fh_transfer_id h) (Z.of_nat i) bytes).

Inductive FileMessage :=
  | MsgHeader (payload : list byte)
  | MsgChunk (payload : list byte).

Fixpoint chunk_messages (h : FileTransferHeader) (content : list byte) (chunks : list nat)
    : list FileMessage * bool :=
  match chunks with
  | [] => ([], false)
  | i :: chunks =>
      match read_chunk h content i with
      | None => ([], true)
      | Some payload =>
          let '(msgs, f) := chunk_messages h content chunks in (MsgChunk payload :: msgs, f)
      end
  end.

(** The sends of one round, in order, until a read fails. *)
Fixpoint send_actions (h : FileTransferHeader) (content : list byte)
    (sends : list (FilePeer * FileSendAction)) : list (FilePeer * FileMessage) * bool :=
  match sends with
  | [] => ([], false)
  | (p, a) :: sends =>
      let header := match serialize_file_header h with
                    | Some bs => if send_header a then [MsgHeader bs] else []
                    | None => []
                    end in
      let '(msgs, f) := chunk_messages h content (action_chunks a) in
      let now_sent := pair p <$> (header ++ msgs) in
      if f then (now_sent, true)
      else let '(rest, f) := send_actions h content sends in (now_sent ++ rest, f)
  end.

(** One round of the loop of [send_file]. *)
Definition send_round (content : list byte) (now : Z) (s : FileSend) (n : FileNode)
    : list (FilePeer * FileMessage) * FileSend * FileNode :=
  let '(f, active, sends, out) :=
    poll_transfers now (sf_peers s) (sf_keys s) (outgoing_transfers n) in
  let n := set_outgoing out n in
  if f || Nat.eqb (length active) 0 then
    ([], mkSend (sf_header s) (sf_peers s) active (sf_all_keys s) f, n)
  else
    let '(msgs, f) := send_actions (sf_header s) content sends in
    (msgs, mkSend (sf_header s) (sf_peers s) active (sf_all_keys s) f, n).

Definition send_running (s : FileSend) : bool :=
  negb (Nat.eqb (length (sf_keys s)) 0) && negb (sf_failed s).

(** The end of [send_file]: the cancellations, the result, the table without the windows. *)
Definition finish_send (running : bool) (s : FileSend) (n : FileNode)
    : list (FilePeer * FileCancelReason) * bool * FileNode :=
  let gave_up := sf_failed s || negb running in
  (if gave_up then
     omap (λ key, e ← peer_endpoint (fst key) (sf_peers s);
             Some ((fst key, e), if sf_failed s then RetryLimit else SenderCancelled))
       (sf_keys s)
   else [],
   negb gave_up,
   set_outgoing (foldl (λ out key, delete key out) (outgoing_transfers n) (sf_all_keys s)) n).
End FileNode.

(** ** Committing a file *)

Lemma file_blocks_concat fuel : forall rest,
  (length rest < fuel)%nat -> concat (file_blocks fuel rest) = rest.
Proof.
  assert (0 < HASH_BUFFER_SIZE)%nat as Hpos by (unfold HASH_BUFFER_SIZE; lia).
  induction fuel as [|fuel IH]; intros rest Hf; [lia|]. cbn [file_blocks].
  destruct (Nat.ltb_spec (length (take HASH_BUFFER_SIZE rest)) HASH_BUFFER_SIZE) as [Hlt|Hge]; cbn [concat].
  - rewrite app_nil_r. apply take_ge. rewrite length_take in Hlt. lia.
  - rewrite IH; [apply take_drop|]. rewrite length_take in Hge. rewrite length_drop. lia.
Qed.

Lemma sum_lengths_concat (l : list (list byte)) : sum_list_with length l = length (concat l).
Proof. induction l as [|x l IH]; simpl; [done|]. rewrite length_app. lia. Qed.

Section FileNodeLaws.
Context `{OpenSSL}.

Lemma hash_file_spec io fs path size digest :
  hash_file_sha256 io fs path size = Some digest ->
  exists content, fs !! path = Some content /\ evp_sha256 content = Some digest /\
    wrap 64 (Z.of_nat (length content)) = size.
Proof.
  unfold hash_file_sha256. destruct (fs !! path) as [content|]; [|done].
  rewrite sum_lengths_concat, file_blocks_concat by lia.
  destruct (io_read io); [|done]. cbn [negb].
  destruct (Z.eqb_spec (wrap 64 (Z.of_nat (length content))) size) as [E|]; [|done]. cbn [negb].
  destruct (evp_sha256 content) as [d|] eqn:Ed; [|done].
  destruct (Nat.eqb _ _); [|done]. intros [= ->]. eauto.
Qed.

Lemma hash_file_good fs path content digest :
  fs !! path = Some content -> evp_sha256 content = Some digest -> length digest = 32%nat ->
  hash_file_sha256 io_good fs path (wrap 64 (Z.of_nat (length content))) = Some digest.
Proof.
  intros Hp Hd Hl. unfold hash_file_sha256. rewrite Hp.
  rewrite sum_lengths_concat, file_blocks_concat by lia.
  cbn [io_good io_read negb]. rewrite Z.eqb_refl, Hd, Hl. done.
Qed.

Lemma verify_and_commit_spec io fs part final size hash res fs' :
  verify_and_commit_file io fs part final size hash = (res, fs') ->
  if decide (res = Committed) then
    exists content, fs !! part = Some content /\ Z.of_nat (length content) = size /\
      evp_sha256 content = Some hash /\ fs' = <[final := content]> (delete part fs)
  else fs' = fs.
Proof.
  unfold verify_and_commit_file, rename_file.
  destruct (fs !! part) as [content|] eqn:Hp; [|by intros [= <- <-]].
  destruct (io_size io); [|by intros [= <- <-]]. cbn [negb].
  destruct (Z.eqb_spec (Z.of_nat (length content)) size) as [El|]; [|by intros [= <- <-]]. cbn [negb].
  destruct (hash_file_sha256 io fs part size) as [d|] eqn:Eh; [|by intros [= <- <-]].
  case_bool_decide as Ed; [|by intros [= <- <-]]. subst d.
  destruct (io_rename io); [|by intros [= <- <-]]. cbn [negb]. intros [= <- <-].
  rewrite decide_True by done. exists content. split_and!; try done.
  apply hash_file_spec in Eh as (c & Hc & Hd & _). by simplify_eq.
Qed.

Lemma verify_and_commit_good fs part final content hash :
  fs !! part = Some content -> evp_sha256 content = Some hash -> length hash = 32%nat ->
  Z.of_nat (length content) < 2 ^ 64 ->
  verify_and_commit_file io_good fs part final (Z.of_nat (length content)) hash =
    (Committed, <[final := content]> (delete part fs)).
Proof.
  intros Hp Hd Hl Hb. unfold verify_and_commit_file, rename_file. rewrite Hp.
  cbn [io_good io_size io_rename negb]. rewrite Z.eqb_refl. cbn [negb].
  pose proof (hash_file_good fs part content hash Hp Hd Hl) as Hh.
  rewrite wrap_small in Hh by (unfold in_width; lia).
  fold io_good. rewrite Hh, bool_decide_eq_true_2 by done. done.
Qed.

(** ** The invariant of the incoming transfers *)

Record transfer_ok (key : list byte * Z) (t : IncomingFileTransfer) : Prop := {
  tok_header : is_valid_file_header (expected_header key.2 t) = true;
  tok_tracker : tracker_ok (if_chunks t);
  tok_length : Z.of_nat (length (received_ (if_chunks t))) = if_total_chunks t;
  tok_size : 0 <= if_file_size t;
  tok_output : output_path t = downloads ++ file_transfer_part_name key.1 key.2;
  tok_final : final_path t = downloads ++ if_filename t;
}.

Definition incoming_ok (n : FileNode) : Prop :=
  map_Forall transfer_ok (incoming_transfers n).

Lemma with_chunks_ok key t c reported now :
  transfer_ok key t -> tracker_ok c ->
  length (received_ c) = length (received_ (if_chunks t)) ->
  transfer_ok key (with_chunks c reported now t).
Proof. intros [] Hc Hl. split; try done. simpl. by rewrite Hl. Qed.

Lemma set_incoming_ok key t n :
  incoming_ok n -> transfer_ok key t ->
  incoming_ok (set_incoming (<[key := t]> (incoming_transfers n)) n).
Proof. intros Hn Ht. by apply map_Forall_insert_2. Qed.

Lemma receive_file_header_ok io peer h now n :
  incoming_ok n -> is_valid_file_header h = true -> 0 <= fh_file_size h -> 0 <= fh_total_chunks h ->
  incoming_ok (snd (receive_file_header io peer h now n)).
Proof.
  intros Hn Hh Hs Ht. unfold receive_file_header.
  destruct (incoming_transfers n !! _) as [t|] eqn:Hl.
  - destruct (same_transfer h t); [|done]. apply set_incoming_ok; [done|].
    pose proof (Hn _ _ Hl) as Ht0. apply with_chunks_ok; [done|apply Ht0|done].
  - destruct (file_transfer_admission_allowed _ _ _ _ _); [|done].
    destruct (io_create io); [|done]. cbn [negb].
    destruct (chunk_tracker_reset (fh_total_chunks h)) as [c|] eqn:Hc; [|done].
    apply chunk_tracker_reset_ok in Hc as (? & ? & _); [|done].
    apply (set_incoming_ok _ _ (set_files _ n)); [done|]. split; done.
Qed.

Lemma finish_chunk_ok io key i t n :
  incoming_ok n -> transfer_ok key t -> incoming_ok (snd (finish_chunk io key i t n)).
Proof.
  intros Hn Ht. unfold finish_chunk.
  set (tf := if _ : bool then _ else _).
  assert (transfer_ok key (fst tf)) as Htf.
  { subst tf. destruct (_ && _); [|done].
    destruct (verify_and_commit_file _ _ _ _ _ _) as [[] fs]; simpl;
      apply with_chunks_ok; try done; try apply Ht;
      apply (remove_chunk_spec i _ (tok_tracker _ _ Ht)). }
  destruct tf as [t' fs]. by apply (set_incoming_ok key t' n).
Qed.

Lemma receive_file_chunk_ok io peer c now n :
  incoming_ok n -> incoming_ok (snd (receive_file_chunk io peer c now n)).
Proof.
  intros Hn. unfold receive_file_chunk.
  destruct (incoming_transfers n !! _) as [t|] eqn:Hl; [|done].
  destruct (is_valid_file_chunk_for_header _ _); [|done]. cbn [negb].
  pose proof (Hn _ _ Hl) as Ht.
  set (t1 := with_chunks (if_chunks t) _ now t).
  assert (transfer_ok (peer, fc_transfer_id c) t1) as Ht1 by (apply with_chunks_ok; [done|apply Ht|done]).
  assert (incoming_ok (set_incoming (<[(peer, fc_transfer_id c):=t1]> (incoming_transfers n)) n)) as Hn1
    by (by apply set_incoming_ok).
  destruct (received _ _); [by apply finish_chunk_ok|].
  destruct (store_chunk _ _ _ _ _) as [[] fs]; cbn [negb]; [|done].
  pose proof (record_chunk_spec (Z.to_nat (fc_chunk_index c)) _ (tok_tracker _ _ Ht1)) as Hr.
  destruct (record_chunk _ _) as [r chunks]. destruct Hr as (Hc & Hlen & _).
  destruct r.
  - apply finish_chunk_ok; [exact Hn1|by apply with_chunks_ok].
  - apply (set_incoming_ok _ _ (set_files fs (set_incoming _ n))); [exact Hn1|by apply with_chunks_ok].
  - apply (set_incoming_ok _ _ (set_files fs (set_incoming _ n))); [exact Hn1|by apply with_chunks_ok].
Qed.

(** ** Reservations *)

Definition total_bytes (l : list IncomingFileTransfer) : Z :=
  foldr (λ t acc, if_file_size t + acc) 0 l.

#[local] Instance total_bytes_perm : Proper ((≡ₚ) ==> (=)) total_bytes.
Proof.
  intros l1 l2. induction 1 as [|x l1 l2 _ IH|x y l|l1 l2 l3 _ IH1 _ IH2]; simpl; lia.
Qed.

Definition usage_le (who : option (list byte)) (count bytes : Z) (n : FileNode) : Prop :=
  Z.of_nat (length (active_transfers who (incoming_transfers n))) <= count /\
  total_bytes (active_transfers who (incoming_transfers n)) <= bytes.

Definition reservations_ok (n : FileNode) : Prop :=
  usage_le None FILE_TRANSFER_MAX_ACTIVE_GLOBAL FILE_TRANSFER_MAX_RESERVED_GLOBAL n /\
  forall p, usage_le (Some p) FILE_TRANSFER_MAX_ACTIVE_PER_PEER
              FILE_TRANSFER_MAX_RESERVED_PER_PEER n.

Lemma active_transfers_insert (who : option (list byte)) (m : gmap (list byte * Z) IncomingFileTransfer) k t :
  m !! k = None ->
  active_transfers who (<[k := t]> m) ≡ₚ
    (if counts_against who (k, t) then [t] else []) ++ active_transfers who m.
Proof.
  intros Hk. unfold active_transfers. rewrite (map_to_list_insert _ _ _ Hk), filter_cons.
  destruct (counts_against who (k, t)); done.
Qed.

Lemma active_transfers_update (who : option (list byte)) (m : gmap (list byte * Z) IncomingFileTransfer) k t0 t :
  m !! k = Some t0 ->
  active_transfers who m ≡ₚ
    (if counts_against who (k, t0) then [t0] else []) ++ active_transfers who (delete k m) /\
  active_transfers who (<[k := t]> m) ≡ₚ
    (if counts_against who (k, t) then [t] else []) ++ active_transfers who (delete k m).
Proof.
  intros Hk. rewrite <- !active_transfers_insert by apply lookup_delete_eq.
  rewrite insert_delete_id, insert_delete_eq by done. done.
Qed.

(** Updating a transfer without changing its size or reopening it reserves nothing more. *)
Lemma usage_update who c b n k t0 t :
  incoming_transfers n !! k = Some t0 -> if_file_size t = if_file_size t0 -> 0 <= if_file_size t ->
  (completion_reported t0 = true -> completion_reported t = true) ->
  usage_le who c b n -> usage_le who c b (set_incoming (<[k := t]> (incoming_transfers n)) n).
Proof.
  intros Hk Hs Hpos Hr [Hc Hb]. unfold usage_le. cbn [incoming_transfers set_incoming].
  destruct (active_transfers_update who _ _ _ t Hk) as [E0 E1].
  rewrite E0 in Hc, Hb. rewrite E1. unfold counts_against in *. cbn [fst snd] in *.
  destruct (completion_reported t0), (completion_reported t);
    try (by specialize (Hr eq_refl)); destruct who; simpl in *; try case_bool_decide;
    simpl in *; lia.
Qed.

Lemma usage_delete who c b n k :
  (forall t, incoming_transfers n !! k = Some t -> 0 <= if_file_size t) ->
  usage_le who c b n -> usage_le who c b (set_incoming (delete k (incoming_transfers n)) n).
Proof.
  intros Hpos [Hc Hb]. unfold usage_le. cbn [incoming_transfers set_incoming].
  destruct (incoming_transfers n !! k) as [t|] eqn:Hk; [|by rewrite delete_id].
  destruct (active_transfers_update who _ _ _ t Hk) as [E0 _]. rewrite E0 in Hc, Hb.
  specialize (Hpos t eq_refl). destruct (counts_against _ _); simpl in *; lia.
Qed.

Lemma total_bytes_nonneg who n :
  incoming_ok n -> 0 <= total_bytes (active_transfers who (incoming_transfers n)).
Proof.
  intros Hn. assert (Forall (λ t, 0 <= if_file_size t)
    (active_transfers who (incoming_transfers n))) as Hf.
  { apply Forall_forall. intros t Ht. unfold active_transfers in Ht.
    apply list_elem_of_fmap in Ht as ([k t'] & -> & Ht).
    apply list_elem_of_filter in Ht as [_ Ht]. apply elem_of_map_to_list in Ht.
    apply (Hn k t' Ht). }
  induction Hf as [|t l Ht _ IH]; simpl; lia.
Qed.

Lemma reserved_bytes_exact who c b n :
  incoming_ok n -> usage_le who c b n -> b < 2 ^ 64 ->
  reserved_bytes (active_transfers who (incoming_transfers n)) =
  total_bytes (active_transfers who (incoming_transfers n)).
Proof.
  intros Hn [_ Hb] H64. unfold reserved_bytes. apply wrap_small.
  pose proof (total_bytes_nonneg who n Hn). unfold total_bytes in *. unfold in_width. lia.
Qed.

Lemma usage_insert who c b n k t :
  incoming_transfers n !! k = None ->
  (counts_against who (k, t) = true ->
   usage_le who (c - 1) (b - if_file_size t) n) -> usage_le who c b n ->
  usage_le who c b (set_incoming (<[k := t]> (incoming_transfers n)) n).
Proof.
  intros Hk Hcount Hu. unfold usage_le in *. cbn [incoming_transfers set_incoming].
  rewrite active_transfers_insert by done.
  destruct (counts_against who (k, t)) eqn:E; [|done].
  specialize (Hcount eq_refl). simpl. lia.
Qed.

Lemma admission_allowed_spec pc pb gc gb req :
  file_transfer_admission_allowed pc pb gc gb req = true ->
  pc <= FILE_TRANSFER_MAX_ACTIVE_PER_PEER - 1 /\ gc <= FILE_TRANSFER_MAX_ACTIVE_GLOBAL - 1 /\
  pb <= FILE_TRANSFER_MAX_RESERVED_PER_PEER - req /\
  gb <= FILE_TRANSFER_MAX_RESERVED_GLOBAL - req.
Proof.
  unfold file_transfer_admission_allowed. destruct (_ || _ || _) eqn:E; [done|].
  rewrite !orb_false_iff, Z.ltb_ge, !Z.leb_gt in E.
  rewrite negb_true_iff, orb_false_iff, !Z.ltb_ge. lia.
Qed.

Lemma reservations_set_files n fs : reservations_ok n -> reservations_ok (set_files fs n).
Proof. done. Qed.

Lemma receive_file_header_reserves io peer h now n :
  incoming_ok n -> reservations_ok n -> 0 <= fh_file_size h ->
  reservations_ok (snd (receive_file_header io peer h now n)).
Proof.
  intros Hn [Hg Hp] Hs. unfold receive_file_header.
  destruct (incoming_transfers n !! _) as [t|] eqn:Hl.
  - destruct (same_transfer h t); [|done]. cbn [negb snd].
    pose proof (tok_size _ _ (Hn _ _ Hl)).
    split; [|intros p]; by eapply usage_update.
  - destruct (file_transfer_admission_allowed _ _ _ _ _) eqn:Ha; [|done].
    destruct (io_create io); [|done]. cbn [negb].
    destruct (chunk_tracker_reset _) as [c|]; [|done]. cbn [snd].
    rewrite (reserved_bytes_exact _ _ _ _ Hn Hg), (reserved_bytes_exact _ _ _ _ Hn (Hp peer)) in Ha
      by done.
    apply admission_allowed_spec in Ha as (Ha1 & Ha2 & Ha3 & Ha4).
    split; [|intros p]; apply (usage_insert _ _ _ (set_files _ n)); try done.
    + unfold counts_against. cbn. case_bool_decide; [|done]. subst p. intros _. done.
    + apply Hp.
Qed.

Lemma active_transfers_filter (who : option (list byte)) (P : list byte * Z * IncomingFileTransfer -> Prop)
    `{!forall x, Decision (P x)} (m : gmap (list byte * Z) IncomingFileTransfer) :
  map_Forall (λ _ t, 0 <= if_file_size t) m ->
  (length (active_transfers who (filter P m)) <= length (active_transfers who m))%nat /\
  total_bytes (active_transfers who (filter P m)) <= total_bytes (active_transfers who m).
Proof.
  induction m as [|k t m Hk IH] using map_ind; intros Hpos; [done|].
  apply map_Forall_insert in Hpos as [Ht Hpos]; [|done]. specialize (IH Hpos).
  rewrite map_filter_insert, (active_transfers_insert _ m) by done.
  destruct (decide (P (k, t))).
  - rewrite active_transfers_insert by (apply map_lookup_filter_None; by left).
    destruct (counts_against _ _); simpl in *; lia.
  - rewrite delete_id by done. destruct (counts_against _ _); simpl in *; lia.
Qed.

Lemma collect_expired_ok now n :
  incoming_ok n -> reservations_ok n ->
  incoming_ok (snd (collect_expired now n)) /\ reservations_ok (snd (collect_expired now n)).
Proof.
  intros Hn [Hg Hp]. unfold collect_expired. cbn [snd].
  assert (map_Forall (λ _ t, 0 <= if_file_size t) (incoming_transfers n)) as Hpos
    by (intros k t Hk; apply (Hn k t Hk)).
  split; [intros k t [Hk _]%map_lookup_filter_Some; by apply Hn|].
  split; [|intros p; specialize (Hp p)]; unfold usage_le in *;
    cbn [incoming_transfers set_incoming];
    match goal with |- context [active_transfers ?w (filter ?P ?m)] =>
      pose proof (active_transfers_filter w P m Hpos) end; lia.
Qed.

Lemma cancel_incoming_ok key n :
  incoming_ok n -> reservations_ok n ->
  incoming_ok (snd (cancel_incoming key n)) /\ reservations_ok (snd (cancel_incoming key n)).
Proof.
  intros Hn [Hg Hp]. unfold cancel_incoming.
  destruct (incoming_transfers n !! key) as [t|] eqn:Hk; [|done]. cbn [snd].
  split; [by apply map_Forall_delete|].
  split; [|intros p]; apply usage_delete; try done; intros t' Ht'; apply (Hn _ _ Ht').
Qed.

(** The fields of a transfer that never change. *)
Definition same_file (t t' : IncomingFileTransfer) : Prop :=
  if_filename t' = if_filename t /\ if_file_size t' = if_file_size t /\
  if_chunk_size t' = if_chunk_size t /\ if_total_chunks t' = if_total_chunks t /\
  if_content_hash t' = if_content_hash t /\ output_path t' = output_path t /\
  final_path t' = final_path t.

(** What a chunk of the transfer [key] can touch: its own entry and its two files. *)
Definition touches_only (key : list byte * Z) (t : IncomingFileTransfer) (n n' : FileNode)
    : Prop :=
  outgoing_transfers n' = outgoing_transfers n /\
  (exists t', incoming_transfers n' = <[key := t']> (incoming_transfers n) /\ same_file t t' /\
              (completion_reported t = true -> completion_reported t' = true)) /\
  forall p, p <> output_path t -> p <> final_path t -> files n' !! p = files n !! p.

Lemma finish_chunk_touches io key i t n :
  touches_only key t n (snd (finish_chunk io key i t n)).
Proof.
  unfold finish_chunk. set (tf := if _ : bool then _ else _).
  assert (same_file t (fst tf) /\
          (completion_reported t = true -> completion_reported (fst tf) = true) /\
          forall p, p <> output_path t -> p <> final_path t -> snd tf !! p = files n !! p)
    as (Hs & Hr & Hf).
  { subst tf. destruct (_ && _); [|done].
    destruct (verify_and_commit_file _ _ _ _ _ _) as [res fs] eqn:E.
    apply verify_and_commit_spec in E. destruct (decide (res = Committed)) as [->|Hne].
    - destruct E as (content & _ & _ & _ & ->). split_and!; try done. cbn [snd].
      intros p Hp1 Hp2. by rewrite lookup_insert_ne, lookup_delete_ne.
    - subst fs. by destruct res. }
  destruct tf as [t' fs]. cbn [fst snd] in *. split_and!; try done. by exists t'.
Qed.

Lemma store_chunk_touches io path offset data fs p :
  p <> path -> snd (store_chunk io path offset data fs) !! p = fs !! p.
Proof.
  intros Hp. unfold store_chunk. destruct (fs !! path); [|done].
  destruct (io_open io); [|done]. destruct (io_write io) as [[after ok]|]; simpl;
    by rewrite lookup_insert_ne.
Qed.

Lemma receive_file_chunk_touches io peer c now n :
  snd (receive_file_chunk io peer c now n) = n \/
  exists t, incoming_transfers n !! (peer, fc_transfer_id c) = Some t /\
    touches_only (peer, fc_transfer_id c) t n (snd (receive_file_chunk io peer c now n)).
Proof.
  unfold receive_file_chunk. set (key := (peer, fc_transfer_id c)).
  destruct (incoming_transfers n !! key) as [t|] eqn:Hl; [|by left].
  destruct (is_valid_file_chunk_for_header _ _); [|by left]. cbn [negb].
  right. exists t. split; [done|].
  set (t1 := with_chunks (if_chunks t) _ now t).
  set (n1 := set_incoming (<[key:=t1]> (incoming_transfers n)) n).
  (* a step from a node that differs from [n] in the entry and the partial file *)
  assert (forall t2 n2 n3, same_file t t2 -> completion_reported t2 = completion_reported t ->
    outgoing_transfers n2 = outgoing_transfers n ->
    incoming_transfers n2 = <[key := t1]> (incoming_transfers n) ->
    (forall p, p <> output_path t -> files n2 !! p = files n !! p) ->
    touches_only key t2 n2 n3 -> touches_only key t n n3) as Hvia.
  { intros t2 n2 n3 (S1 & S2 & S3 & S4 & S5 & S6 & S7) Hr Ho Hi Hf (Ho3 & (t' & Hi3 & Ht' & Hr3) & Hf3).
    split_and!; [congruence| |].
    - exists t'. rewrite Hi3, Hi, insert_insert_eq. split_and!; [done| |rewrite <- Hr; done].
      unfold same_file in *. intuition congruence.
    - intros p Hp1 Hp2. rewrite <- S6 in Hp1. rewrite <- S7 in Hp2.
      rewrite Hf3, Hf by congruence. done. }
  destruct (received _ _).
  { eapply (Hvia t1 n1); [done..|]. apply finish_chunk_touches. }
  pose proof (store_chunk_touches io (output_path t1)
    (wrap 64 (fc_chunk_index c * if_chunk_size t1)) (fc_data c) (files n1)) as Hst.
  destruct (store_chunk _ _ _ _ _) as [stored fs]. cbn [snd] in Hst.
  destruct stored; cbn [negb].
  2: { split_and!; try done; [by exists t1|]. intros p Hp _. by apply Hst. }
  destruct (record_chunk _ _) as [[] chunks].
  - eapply (Hvia (with_chunks chunks (completion_reported t1) now t1) (set_files fs n1)); [done..| |].
    + intros p Hp. by apply Hst.
    + apply finish_chunk_touches.
  - split_and!; try done; [|intros p Hp _; by apply Hst].
    eexists. cbn. rewrite insert_insert_eq. done.
  - split_and!; try done; [|intros p Hp _; by apply Hst].
    eexists. cbn. rewrite insert_insert_eq. done.
Qed.

Lemma receive_file_chunk_reserves io peer c now n :
  incoming_ok n -> reservations_ok n -> reservations_ok (snd (receive_file_chunk io peer c now n)).
Proof.
  intros Hn [Hg Hp].
  destruct (receive_file_chunk_touches io peer c now n) as [-> |(t & Hk & _ & (t' & Hi & Hs & Hr) & _)];
    [done|].
  pose proof (tok_size _ _ (Hn _ _ Hk)). destruct Hs as (_ & Hs & _).
  split; [|intros p]; unfold usage_le; rewrite Hi;
    (eapply (usage_update _ _ _ n); [exact Hk|done|lia|done|auto]).
Qed.

(** ** What a completed transfer left behind *)

(** A name that stays inside its directory. *)
Definition plain_name (name : list byte) : Prop :=
  name <> [] /\ name <> lit "." /\ name <> lit ".." /\ Forall (λ c, is_separator c = false) name.

Lemma safe_name_plain name : is_safe_file_name name = true -> plain_name name.
Proof.
  unfold is_safe_file_name. destruct (last name) as [c|] eqn:Hl; [|done].
  destruct (_ || _ || _ || _ || _ || _) eqn:E; [done|]. intros Hall.
  rewrite !orb_false_iff in E. destruct E as [[[[[_ E1] E2] _] _] _].
  apply bool_decide_eq_false in E1, E2. split_and!; [by intros ->|done|done|].
  rewrite forallb_forall in Hall. apply Forall_forall. intros b Hb.
  specialize (Hall b (proj1 (list_elem_of_In _ _) Hb)). revert Hall.
  unfold forbidden_char, is_separator. rewrite negb_true_iff, !orb_false_iff. tauto.
Qed.

(** The file at [final_path] is what the header of [t] announced. *)
Definition published (t : IncomingFileTransfer) (fs : FileSystem) : Prop :=
  exists content, fs !! final_path t = Some content /\
    Z.of_nat (length content) = if_file_size t /\ evp_sha256 content = Some (if_content_hash t).

(** The acknowledgement leaves out a chunk of the transfer. *)
Definition incomplete_ack (t : IncomingFileTransfer) (r : FileReply) : Prop :=
  exists ack j, r = ReplyAck ack /\ Z.of_nat j < if_total_chunks t /\ ~ covered (fa_ranges ack) j.

Lemma finish_chunk_outcome io key i t n r n' :
  finish_chunk io key i t n = (r, n') -> transfer_ok key t -> completion_reported t = false ->
  (i < length (received_ (if_chunks t)))%nat ->
  exists t', incoming_transfers n' !! key = Some t' /\ same_file t t' /\
    if completion_reported t' then published t' (files n') else incomplete_ack t' r.
Proof.
  intros Hfin Ht Hr Hi. unfold finish_chunk in Hfin. rewrite Hr in Hfin. cbn [negb] in Hfin.
  rewrite andb_true_r in Hfin. pose proof (tok_length _ _ Ht) as Hlen.
  assert (Z.of_nat (length (received_ (if_chunks t))) <= FILE_TRANSFER_MAX_CHUNKS) as Hmax.
  { rewrite Hlen. apply (valid_header_chunks _ (tok_header _ _ Ht) (tok_size _ _ Ht)). }
  (* an acknowledgement of a tracker in which a chunk is missing *)
  assert (forall (t' : IncomingFileTransfer) j, tracker_ok (if_chunks t') -> same_file t t' ->
    length (received_ (if_chunks t')) = length (received_ (if_chunks t)) ->
    (j < length (received_ (if_chunks t)))%nat -> received j (if_chunks t') = false ->
    incomplete_ack t' (ReplyAck (mkFileAck key.2 true
      (acknowledged_ranges (Some i) FILE_ACK_MAX_RANGES (if_chunks t'))))) as Hinc.
  { intros t' j Hok (_ & _ & _ & Htot & _) Hl Hj Hn. eexists _, j. split_and!; [done|lia|].
    cbn [fa_ranges]. intros Hc.
    destruct (acknowledged_ranges_spec (Some i) FILE_ACK_MAX_RANGES (if_chunks t') Hok ltac:(lia))
      as ((_ & _ & _ & Hs) & _). apply Hs, received_lookup in Hc. congruence. }
  destruct (tracker_complete (if_chunks t)) eqn:Hcomplete.
  - destruct (verify_and_commit_file _ _ _ _ _ _) as [res fs] eqn:E.
    apply verify_and_commit_spec in E.
    destruct (remove_chunk_spec i _ (tok_tracker _ _ Ht)) as (Hok & Hl & Hrem).
    destruct (decide (res = Committed)) as [->|Hne].
    + injection Hfin as <- <-. cbn. rewrite lookup_insert_eq.
      destruct E as (content & _ & Hsize & Hhash & ->).
      eexists. split_and!; [done|done|]. cbn. exists content. by rewrite lookup_insert_eq.
    + assert (exists t', t' = with_chunks (snd (remove_chunk i (if_chunks t)))
        (completion_reported t) (last_activity t) t) as [t' Et] by eauto.
      exists t'. assert (incoming_transfers n' !! key = Some t' /\
        r = ReplyAck (mkFileAck key.2 true
              (acknowledged_ranges (Some i) FILE_ACK_MAX_RANGES (if_chunks t')))) as [Hk ->].
      { rewrite <- Hr, <- Et in Hfin. destruct res; try done; injection Hfin as <- <-; cbn;
          by rewrite lookup_insert_eq. }
      rewrite Et at 2 3. split_and!; [done|done|]. cbn. rewrite Hr.
      apply (Hinc t' i); subst t'; try done. cbn. by rewrite Hrem, decide_True.
  - injection Hfin as <- <-. cbn. rewrite lookup_insert_eq. exists t. rewrite Hr. split_and!; [done|done|].
    destruct (tracker_missing _ (tok_tracker _ _ Ht) ltac:(lia) Hcomplete) as (j & Hj & Hn).
    apply (Hinc t j); try done. apply Ht.
Qed.

Lemma receive_file_chunk_outcome io peer c now n r n' t :
  receive_file_chunk io peer c now n = (r, n') -> incoming_ok n ->
  0 <= fc_chunk_index c ->
  incoming_transfers n !! (peer, fc_transfer_id c) = Some t -> completion_reported t = false ->
  exists t', incoming_transfers n' !! (peer, fc_transfer_id c) = Some t' /\ same_file t t' /\
    if completion_reported t' then published t' (files n')
    else r = NoReply \/ incomplete_ack t' r.
Proof.
  intros Hrecv Hn Hc0 Hk Hr. pose proof (Hn _ _ Hk) as Ht. unfold receive_file_chunk in Hrecv.
  rewrite Hk in Hrecv.
  destruct (is_valid_file_chunk_for_header _ _) eqn:Hv; cbn [negb] in Hrecv.
  2: { injection Hrecv as <- <-. exists t. rewrite Hr. split_and!; [done|done|by left]. }
  assert (Z.to_nat (fc_chunk_index c) < length (received_ (if_chunks t)))%nat as Hi.
  { unfold is_valid_file_chunk_for_header in Hv. destruct (_ || _ || _ || _) eqn:E; [done|].
    rewrite !orb_false_iff, Z.leb_gt in E. pose proof (tok_length _ _ Ht).
    destruct E as [_ E]. cbn in E. lia. }
  set (t1 := with_chunks (if_chunks t) _ now t) in *.
  assert (transfer_ok (peer, fc_transfer_id c) t1) as Ht1
    by (apply with_chunks_ok; [done|apply Ht|done]).
  destruct (received _ _).
  { destruct (finish_chunk_outcome _ _ _ _ _ _ _ Hrecv Ht1 Hr Hi) as (t' & ? & Hs & Ho).
    exists t'. split_and!; [done|exact Hs|]. destruct (completion_reported t'); auto. }
  destruct (store_chunk _ _ _ _ _) as [[] fs]; cbn [negb] in Hrecv.
  2: { injection Hrecv as <- <-. cbn. rewrite lookup_insert_eq. exists t1.
       split_and!; [done|done|]. subst t1. cbn. rewrite Hr. by left. }
  pose proof (record_chunk_spec (Z.to_nat (fc_chunk_index c)) _ (tok_tracker _ _ Ht1)) as Hrec.
  destruct (record_chunk _ _) as [[] chunks]; destruct Hrec as (Hok & Hlen & _).
  2,3: injection Hrecv as <- <-; cbn; rewrite lookup_insert_eq; eexists;
       split_and!; [done|done|]; cbn; rewrite Hr; by left.
  destruct (finish_chunk_outcome _ _ _ _ _ _ _ Hrecv) as (t' & ? & Hs & Ho).
  - by apply with_chunks_ok.
  - done.
  - cbn [if_chunks with_chunks]. rewrite Hlen. exact Hi.
  - exists t'. split_and!; [done|exact Hs|]. destruct (completion_reported t'); auto.
Qed.

(** ** Runs of a node *)

Inductive FileEvent :=
  | EvHeader (io : FileIo) (peer : list byte) (h : FileTransferHeader) (now : Z)
  | EvChunk (io : FileIo) (peer : list byte) (c : FileTransferChunk) (now : Z)
  | EvCancelled (ok : bool) (peer : list byte) (c : FileTransferCancel)
  | EvAcked (peer : list byte) (a : FileTransferAck) (now : Z)
  | EvCollect (now : Z)
  | EvRemove (ok : Path -> bool) (expired : list (FileTransferKey * option Path))
  | EvBegin (h : FileTransferHeader) (peers : list FilePeer) (now : Z)
  | EvRound (content : list byte) (now : Z) (s : FileSend)
  | EvFinish (running : bool) (s : FileSend).

Definition file_step (n : FileNode) (ev : FileEvent) : FileNode :=
  match ev with
  | EvHeader io peer h now => snd (receive_file_header io peer h now n)
  | EvChunk io peer c now => snd (receive_file_chunk io peer c now n)
  | EvCancelled ok peer c => receive_file_cancel ok peer c n
  | EvAcked peer a now => receive_file_ack peer a now n
  | EvCollect now => snd (collect_expired now n)
  | EvRemove ok expired => remove_expired ok expired n
  | EvBegin h peers now => snd (begin_send h peers now n)
  | EvRound content now s => snd (send_round content now s n)
  | EvFinish running s => snd (finish_send running s n)
  end.

(** The messages come out of the decoders. *)
Definition file_event_wf (ev : FileEvent) : Prop :=
  match ev with EvHeader _ _ h _ => file_header_wf h | _ => True end.

Definition empty_node (fs : FileSystem) : FileNode := mkFileNode ∅ ∅ fs.

Definition node_ok (n : FileNode) : Prop := incoming_ok n /\ reservations_ok n.

Lemma same_incoming_ok n n' :
  incoming_transfers n' = incoming_transfers n -> node_ok n -> node_ok n'.
Proof.
  intros E [H1 H2]. unfold node_ok, incoming_ok, reservations_ok, usage_le in *. by rewrite E.
Qed.

Lemma remove_file_incoming ok p n : incoming_transfers (remove_file ok p n) = incoming_transfers n.
Proof. by destruct p, ok. Qed.

Lemma cancel_outgoing_incoming key n :
  incoming_transfers (cancel_outgoing key n) = incoming_transfers n.
Proof. unfold cancel_outgoing. by destruct (outgoing_transfers n !! key). Qed.

Lemma remove_expired_incoming ok expired : forall n,
  incoming_transfers (remove_expired ok expired n) = incoming_transfers n.
Proof.
  unfold remove_expired.
  induction expired as [|[k [p|]] expired IH]; intros n; cbn [foldl snd]; [done| |apply IH].
  rewrite IH. apply remove_file_incoming.
Qed.

Lemma send_round_incoming content now s n :
  incoming_transfers (snd (send_round content now s n)) = incoming_transfers n.
Proof.
  unfold send_round. destruct (poll_transfers _ _ _ _) as [[[f active] sends] out].
  destruct (_ || _); [done|]. by destruct (send_actions _ _ _).
Qed.

Lemma begin_send_incoming h peers now n :
  incoming_transfers (snd (begin_send h peers now n)) = incoming_transfers n.
Proof.
  unfold begin_send. destruct peers; [done|]. destruct (serialize_file_header h); [|done].
  by destruct (open_windows _ _ _ _ _).
Qed.

Lemma file_step_ok n ev : node_ok n -> file_event_wf ev -> node_ok (file_step n ev).
Proof.
  intros Hn Hev. pose proof Hn as [Hi Hr]. destruct ev; simpl.
  - destruct Hev as (_ & [? _] & _ & [? _] & _ & ?).
    split; [by apply receive_file_header_ok|by apply receive_file_header_reserves].
  - split; [by apply receive_file_chunk_ok|by apply receive_file_chunk_reserves].
  - unfold receive_file_cancel. destruct (cancel_incoming_ok (peer, fx_transfer_id c) n Hi Hr).
    destruct (cancel_incoming _ n) as [path n1]. cbn [snd] in *.
    apply (same_incoming_ok n1); [|done]. by rewrite cancel_outgoing_incoming, remove_file_incoming.
  - apply (same_incoming_ok n); [|done]. unfold receive_file_ack. by case_match.
  - by apply collect_expired_ok.
  - apply (same_incoming_ok n); [apply remove_expired_incoming|done].
  - apply (same_incoming_ok n); [apply begin_send_incoming|done].
  - apply (same_incoming_ok n); [apply send_round_incoming|done].
  - by apply (same_incoming_ok n).
Qed.

Lemma file_run_ok fs evs :
  Forall file_event_wf evs -> node_ok (foldl file_step (empty_node fs) evs).
Proof.
  assert (node_ok (empty_node fs)) as Hn.
  { split; [apply map_Forall_empty|]. split; [|intros p]; done. }
  revert Hn. generalize (empty_node fs). induction evs as [|ev evs IH]; intros n Hn Hevs; [done|].
  apply Forall_cons in Hevs as [Hev Hevs]. apply IH; [by apply file_step_ok|done].
Qed.

(** Whatever headers, chunks, cancellations and expiries a node handles, in whatever order
    and with whatever file system failures, the transfers in progress never exceed 32 in
    number and 8 GiB in announced bytes, nor 4 and 2 GiB for any one sender. *)
Theorem file_reservations_bounded fs evs :
  Forall file_event_wf evs ->
  let n := foldl file_step (empty_node fs) evs in
  Z.of_nat (length (active_transfers None (incoming_transfers n))) <= 32 /\
  total_bytes (active_transfers None (incoming_transfers n)) <= 8 * 2 ^ 30 /\
  forall peer,
    Z.of_nat (length (active_transfers (Some peer) (incoming_transfers n))) <= 4 /\
    total_bytes (active_transfers (Some peer) (incoming_transfers n)) <= 2 * 2 ^ 30.
Proof.
  intros Hevs n. destruct (file_run_ok fs evs Hevs) as [_ [[Hc Hb] Hp]].
  split_and!; [exact Hc|exact Hb|]. intros peer. exact (Hp peer).
Qed.

(** A transfer is reported complete by the chunk that completes it only if the file then at
    its final path has the announced size and the announced SHA-256 digest; that path is a plain
    name inside the download directory; and if the transfer is not complete after the chunk,
    the acknowledgement sent for it, if any, leaves out a chunk of the file.  This holds whatever
    the node did before and however the file system fails. *)
Theorem file_commit_verified fs evs io peer c now r n' t :
  Forall file_event_wf evs -> file_chunk_wf c ->
  let n := foldl file_step (empty_node fs) evs in
  incoming_transfers n !! (peer, fc_transfer_id c) = Some t -> completion_reported t = false ->
  receive_file_chunk io peer c now n = (r, n') ->
  exists t', incoming_transfers n' !! (peer, fc_transfer_id c) = Some t' /\
    if_file_size t' = if_file_size t /\ if_content_hash t' = if_content_hash t /\
    final_path t' = downloads ++ if_filename t /\ plain_name (if_filename t) /\
    if completion_reported t'
    then exists content, files n' !! final_path t' = Some content /\
           Z.of_nat (length content) = if_file_size t /\
           evp_sha256 content = Some (if_content_hash t)
    else forall ack, r = ReplyAck ack ->
           exists j, Z.of_nat j < if_total_chunks t /\ ~ covered (fa_ranges ack) j.
Proof.
  intros Hevs Hc n Hk Hr Hrecv. destruct (file_run_ok fs evs Hevs) as [Hn _]. fold n in Hn.
  pose proof (Hn _ _ Hk) as Ht.
  destruct (receive_file_chunk_outcome _ _ _ _ _ _ _ _ Hrecv Hn ltac:(apply Hc) Hk Hr)
    as (t' & Hk' & (S1 & S2 & S3 & S4 & S5 & S6 & S7) & Ho).
  exists t'. split_and!; try done.
  - rewrite S7. apply Ht.
  - apply safe_name_plain, (valid_header_name _ (tok_header _ _ Ht)).
  - destruct (completion_reported t').
    + destruct Ho as (content & Hf & Hl & Hh). exists content. split_and!; congruence.
    + intros ack ->. destruct Ho as [?|(a & j & [= <-] & Hj & Hcov)]; [done|].
      exists j. split; [lia|done].
Qed.

(** The window of the first transfer of a round has failed: nobody is told. *)
Theorem failed_transfer_cancels_nobody content now s n key keys w :
  sf_keys s = key :: keys -> outgoing_transfers n !! key = Some w ->
  window_complete w = false -> failed (snd (poll now w)) = true ->
  let '(msgs, s', n1) := send_round content now s n in
  let '(cancels, ok, n2) := finish_send true s' n1 in
  msgs = [] /\ cancels = [] /\ ok = false /\ send_running s' = false.
Proof.
  intros Hk Hw Hc Hf. unfold send_round. rewrite Hk. cbn [poll_transfers]. rewrite Hw, Hc.
  destruct (poll now w) as [a w1]. cbn [snd] in Hf. rewrite Hf. done.
Qed.
End FileNodeLaws.

(** ** Names of partial files *)

Lemma hex_digit_value v : 0 <= v < 16 -> bval (hex_digit v) = if v <? 10 then 48 + v else 87 + v.
Proof. intros Hv. unfold hex_digit. destruct (Z.ltb_spec v 10); rewrite bval_b8, wrap_small; unfold in_width; lia. Qed.

Lemma hex_digit_ok v : 0 <= v < 16 -> forbidden_char (hex_digit v) = false.
Proof.
  intros Hv. unfold forbidden_char. rewrite hex_digit_value by done.
  rewrite !orb_false_iff, !Z.eqb_neq, Z.ltb_ge. destruct (Z.ltb_spec v 10); lia.
Qed.

Lemma hex_digit_inj v w : 0 <= v < 16 -> 0 <= w < 16 -> hex_digit v = hex_digit w -> v = w.
Proof.
  intros Hv Hw E. apply (f_equal bval) in E. rewrite !hex_digit_value in E by done.
  destruct (Z.ltb_spec v 10), (Z.ltb_spec w 10); lia.
Qed.

Lemma nibble_range x : 0 <= Z.land x 15 < 16.
Proof. change 15 with (Z.ones 4). rewrite Z.land_ones by lia. apply Z.mod_pos_bound. lia. Qed.

Lemma high_nibble_range b : 0 <= Z.shiftr (bval b) 4 < 16.
Proof.
  pose proof (bval_range b). unfold in_width in *. rewrite Z.shiftr_div_pow2 by lia.
  split; [apply Z.div_pos; lia|apply Z.div_lt_upper_bound; lia].
Qed.

Lemma hex_byte_inj b c : hex_byte b = hex_byte c -> b = c.
Proof.
  unfold hex_byte. intros [= E1 E2]. apply bval_inj.
  apply hex_digit_inj in E1; [|apply high_nibble_range..].
  apply hex_digit_inj in E2; [|apply nibble_range..].
  change 15 with (Z.ones 4) in E2. rewrite !Z.land_ones in E2 by lia.
  rewrite !Z.shiftr_div_pow2 in E1 by lia.
  rewrite (Z.div_mod (bval b) (2 ^ 4)), (Z.div_mod (bval c) (2 ^ 4)) by lia. congruence.
Qed.

Lemma flat_hex_inj p q :
  length p = length q -> flat_map hex_byte p = flat_map hex_byte q -> p = q.
Proof.
  revert q. induction p as [|b p IH]; intros [|c q]; try done. cbn [flat_map length].
  intros [= Hl] Hx. apply app_inj_1 in Hx as [Hb Hp]; [|done]. f_equal; [by apply hex_byte_inj|auto].
Qed.

Lemma hex_u64_inj x y : u64 x -> u64 y -> hex_u64 x = hex_u64 y -> x = y.
Proof.
  intros Hx Hy Hh. unfold hex_u64 in Hh. apply Z.bits_inj'. intros n Hn.
  destruct (decide (n < 64)) as [Hlt|Hge].
  2: { unfold in_width in *. rewrite !Z.bits_above_log2; [done|lia| |lia|].
       - destruct (decide (y = 0)) as [->|]; [simpl; lia|].
         apply (Z.lt_le_trans _ 64); [apply Z.log2_lt_pow2; lia|lia].
       - destruct (decide (x = 0)) as [->|]; [simpl; lia|].
         apply (Z.lt_le_trans _ 64); [apply Z.log2_lt_pow2; lia|lia]. }
  assert (Z.land (Z.shiftr x (4 * (n / 4))) 15 = Z.land (Z.shiftr y (4 * (n / 4))) 15) as Hk.
  { apply hex_digit_inj; [apply nibble_range..|].
    apply (proj1 map_ext_in_iff Hh (n / 4)).
    rewrite <- in_rev, <- list_elem_of_In. apply elem_of_seqZ.
    split; [apply Z.div_pos; lia|apply Z.div_lt_upper_bound; lia]. }
  apply (f_equal (λ z, Z.testbit z (n mod 4))) in Hk.
  pose proof (Z.mod_pos_bound n 4 ltac:(lia)). rewrite !Z.land_spec, !Z.shiftr_spec in Hk by lia.
  change 15 with (Z.ones 4) in Hk. rewrite !Z.ones_spec_low, !andb_true_r in Hk by lia.
  replace (n mod 4 + 4 * (n / 4)) with n in Hk by (rewrite (Z.div_mod n 4) at 1; lia). done.
Qed.

Lemma part_name_inj p q i j :
  length p = length q -> u64 i -> u64 j ->
  file_transfer_part_name p i = file_transfer_part_name q j -> p = q /\ i = j.
Proof.
  intros Hl Hi Hj Hn. unfold file_transfer_part_name in Hn. apply app_inv_head in Hn.
  assert (forall l : list byte, length (flat_map hex_byte l) = (2 * length l)%nat) as Hlen.
  { induction l as [|b l IH]; simpl; [done|]. rewrite IH. lia. }
  apply app_inj_1 in Hn as [Hp Hn]; [|by rewrite !Hlen, Hl].
  apply app_inv_head, app_inv_tail in Hn.
  split; [by apply flat_hex_inj|by apply hex_u64_inj].
Qed.

(** A name of the shape of a partial file is accepted as the name of a received file. *)
Theorem part_name_is_safe p i : length p = 32%nat -> is_safe_file_name (file_transfer_part_name p i) = true.
Proof.
  intros Hp. unfold is_safe_file_name.
  assert (last (file_transfer_part_name p i) = Some (b8 116)) as ->.
  { unfold file_transfer_part_name. rewrite !app_assoc, last_app. done. }
  assert (length (file_transfer_part_name p i) = 93%nat) as ->.
  { unfold file_transfer_part_name. rewrite !length_app.
    assert (forall l : list byte, length (flat_map hex_byte l) = (2 * length l)%nat) as ->.
    { induction l as [|b l IH]; simpl; [done|]. rewrite IH. lia. }
    rewrite Hp. unfold hex_u64. by rewrite length_map, length_rev, length_seqZ. }
  rewrite !bool_decide_eq_false_2 by done.
  assert (is_reserved_windows_name (file_transfer_part_name p i) = false) as -> by done.
  change ((FILE_TRANSFER_MAX_NAME_BYTES <? Z.of_nat 93) || false || false ||
    (bval (b8 116) =? 46) || (bval (b8 116) =? 32) || false) with false. cbv iota.
  unfold file_transfer_part_name. rewrite !forallb_app. rewrite !andb_true_iff. split_and!; try done.
  - apply forallb_forall. intros c Hc. apply in_flat_map in Hc as (b & _ & [<-|[<-|[]]]).
    + by rewrite hex_digit_ok by apply high_nibble_range.
    + by rewrite hex_digit_ok by apply nibble_range.
  - apply forallb_forall. intros c Hc. unfold hex_u64 in Hc. apply in_map_iff in Hc as (k & <- & _).
    by rewrite hex_digit_ok by apply nibble_range.
Qed.

(** ** Concrete runs *)

Section Examples.
#[local] Existing Instances toy_openssl.

Definition toy_alice : list byte := replicate 32 x01.
Definition toy_bob : list byte := replicate 32 x02.
Definition toy_content : list byte := [x61; x62; x63].

Definition toy_file_header (id : Z) (name content : list byte) : FileTransferHeader :=
  mkFileHeader id (Z.of_nat (length content)) 512
    (file_transfer_chunk_count (Z.of_nat (length content)) 512)
    (default [] (evp_sha256 content)) name.

Lemma toy_file_header_wf id name :
  u64 id -> id <> 0 -> is_safe_file_name name = true ->
  file_header_wf (toy_file_header id name toy_content).
Proof.
  intros Hu Hid Hn. unfold file_header_wf. cbn [toy_file_header fh_transfer_id fh_file_size
    fh_chunk_size fh_total_chunks fh_content_hash].
  change (file_transfer_chunk_count _ 512) with 1. unfold in_width.
  split_and!; [apply Hu..|cbn; lia|cbn; lia|lia|lia|lia|lia|reflexivity|].
  unfold is_valid_file_header. cbn [toy_file_header fh_transfer_id fh_file_size
    fh_chunk_size fh_total_chunks fh_filename]. rewrite Hn, (proj2 (Z.eqb_neq _ _) Hid). reflexivity.
Qed.

Lemma file_reservations_bounded_witness :
  Z.of_nat (length (active_transfers None (incoming_transfers
    (foldl file_step (empty_node ∅)
       [EvHeader io_good toy_alice (toy_file_header 5 (lit "a") toy_content) 0])))) <= 32.
Proof.
  destruct (file_reservations_bounded ∅
    [EvHeader io_good toy_alice (toy_file_header 5 (lit "a") toy_content) 0]) as [Hc _];
    [|exact Hc].
  apply Forall_singleton, toy_file_header_wf; [unfold in_width; lia|lia|reflexivity].
Defined.

Lemma file_commit_verified_witness :
  exists n' t',
    receive_file_chunk io_good toy_alice (mkFileChunk 5 0 toy_content) 1
      (foldl file_step (empty_node ∅)
         [EvHeader io_good toy_alice (toy_file_header 5 (lit "a") toy_content) 0]) =
      (ReplyAck (mkFileAck 5 true [mkRange 0 1]), n') /\
    incoming_transfers n' !! (toy_alice, 5) = Some t' /\ completion_reported t' = true /\
    exists content, files n' !! final_path t' = Some content /\
      Z.of_nat (length content) = 3 /\ evp_sha256 content = evp_sha256 toy_content.
Proof.
  set (n := foldl file_step (empty_node ∅)
         [EvHeader io_good toy_alice (toy_file_header 5 (lit "a") toy_content) 0]).
  set (res := receive_file_chunk io_good toy_alice (mkFileChunk 5 0 toy_content) 1 n).
  set (t := default (mkIncoming [] 0 0 0 [] [] [] (mkTrackerF [] 0 0) false 0)
              (incoming_transfers n !! (toy_alice, 5))).
  destruct (file_commit_verified ∅
    [EvHeader io_good toy_alice (toy_file_header 5 (lit "a") toy_content) 0]
    io_good toy_alice (mkFileChunk 5 0 toy_content) 1 (fst res) (snd res) t)
    as (t' & Hk & _ & _ & _ & _ & Ho).
  - apply Forall_singleton, toy_file_header_wf; [unfold in_width; lia|lia|reflexivity].
  - unfold file_chunk_wf, in_width. cbn. split_and!; try lia. done.
  - vm_compute. reflexivity.
  - vm_compute. reflexivity.
  - apply surjective_pairing.
  - assert (completion_reported <$> incoming_transfers (snd res) !! (toy_alice, 5) = Some true)
      as Hr by (vm_compute; reflexivity).
    cbn [fc_transfer_id] in Hk. rewrite Hk in Hr. injection Hr as Hr. rewrite Hr in Ho.
    exists (snd res), t'. split_and!; [|exact Hk|exact Hr|].
    + assert (fst res = ReplyAck (mkFileAck 5 true [mkRange 0 1])) as <-
        by (vm_compute; reflexivity).
      apply surjective_pairing.
    + destruct Ho as (content & H1 & H2 & H3). exists content. split_and!; [exact H1| |].
      * rewrite H2. vm_compute. reflexivity.
      * rewrite H3. vm_compute. reflexivity.
Defined.

(** A peer whose file is named like the partial file of another peer's transfer replaces it:
    Alice's transfer is still in progress and its partial file holds Bob's bytes. *)
Theorem part_file_overwritten :
  let n := foldl file_step (empty_node ∅)
    [EvHeader io_good toy_alice (toy_file_header 5 (lit "a") toy_content) 0;
     EvHeader io_good toy_bob
       (toy_file_header 9 (file_transfer_part_name toy_alice 5) [x07]) 1;
     EvChunk io_good toy_bob (mkFileChunk 9 0 [x07]) 2] in
  (λ t, (completion_reported t, files n !! output_path t)) <$>
    incoming_transfers n !! (toy_alice, 5) = Some (false, Some [x07]).
Proof. vm_compute. reflexivity. Qed.
End Examples.
