(* ===== verification/FileProtocol.v ===== *)
(** * A file transfer from end to end

    The sender's rounds of [send_file] and the receiver's handlers ([FileNode]) joined by a
    network that loses, repeats and reorders messages: every message once sent may be
    delivered any number of times, or never.  Both nodes go on with their other transfers.
    The theorem is what the acknowledgements are for: when the sender reports success, the
    receiver has published exactly the file that was sent. *)

From Stdlib Require Import String.
From Stdlib Require Import ZArith Lia Bool.
From Stdlib.Strings Require Import Byte.
From stdpp Require Import base numbers gmap sorting option list.
From S2P Require Import Prelude Wire Packet Crypto Endpoint FileMsg FileTransfer FileNode.
#[local] Open Scope Z_scope.

#[export] Instance tracker_eq_dec : EqDecision FileChunkTracker.
Proof. solve_decision. Defined.
#[export] Instance incoming_eq_dec : EqDecision IncomingFileTransfer.
Proof. solve_decision. Defined.
#[export] Instance window_config_eq_dec : EqDecision FileSendWindowConfig.
Proof. solve_decision. Defined.
#[export] Instance in_flight_eq_dec : EqDecision InFlightChunk.
Proof. solve_decision. Defined.
#[export] Instance window_eq_dec : EqDecision FileSendWindow.
Proof. solve_decision. Defined.

(** ** The two nodes and the network *)

Record Net := mkNet {
  net_sender : FileNode;
  net_send : FileSend;
  net_receiver : FileNode;
  net_wire : list FileMessage;        (* sent towards the receiver *)
  net_acks : list (list byte);        (* sent towards the sender *)
}.

Inductive NetEvent :=
  | NetRound (now : Z)                (* a round of send_file *)
  | NetDeliver (k : nat) (now : Z)    (* the k-th message reaches the receiver *)
  | NetAck (k : nat) (now : Z)        (* the k-th acknowledgement reaches the sender *)
  | NetSenderOther (ev : FileEvent)
  | NetReceiverOther (ev : FileEvent).

Lemma header_eta (h : FileTransferHeader) :
  mkFileHeader (fh_transfer_id h) (fh_file_size h) (fh_chunk_size h) (fh_total_chunks h)
    (fh_content_hash h) (fh_filename h) = h.
Proof. by destruct h. Qed.

Section Protocol.
Context `{OpenSSL}.
(** The node ids of sender and receiver, the receiver's endpoint, the header and the file. *)
Context (alice bob : list byte) (e : Endpoint) (h : FileTransferHeader) (F : list byte).

Let akey : list byte * Z := (bob, fh_transfer_id h).
Let bkey : list byte * Z := (alice, fh_transfer_id h).
Let part : list byte := downloads ++ file_transfer_part_name alice (fh_transfer_id h).
Let final : list byte := downloads ++ fh_filename h.

Definition reply_payload (r : FileReply) : list (list byte) :=
  match r with
  | ReplyAck a => match serialize_file_ack a with Some bs => [bs] | None => [] end
  | _ => []
  end.

(** Other work of the receiver: it leaves this transfer and its two files alone. *)
Definition leaves_alone (n n' : FileNode) : bool :=
  bool_decide (incoming_transfers n' !! bkey = incoming_transfers n !! bkey) &&
  bool_decide (files n' !! part = files n !! part) &&
  bool_decide (files n' !! final = files n !! final).

Definition net_step (s : Net) (ev : NetEvent) : option Net :=
  match ev with
  | NetRound now =>
      if send_running (net_send s) then
        let '(msgs, send, n) := send_round F now (net_send s) (net_sender s) in
        Some (mkNet n send (net_receiver s) (net_wire s ++ (snd <$> msgs)) (net_acks s))
      else None
  | NetDeliver k now =>
      match net_wire s !! k with
      | Some (MsgHeader bs) =>
          h' ← deserialize_file_header bs;
          let '(r, n) := receive_file_header io_good alice h' now (net_receiver s) in
          Some (mkNet (net_sender s) (net_send s) n (net_wire s) (net_acks s ++ reply_payload r))
      | Some (MsgChunk bs) =>
          c ← deserialize_file_chunk bs;
          let '(r, n) := receive_file_chunk io_good alice c now (net_receiver s) in
          Some (mkNet (net_sender s) (net_send s) n (net_wire s) (net_acks s ++ reply_payload r))
      | None => None
      end
  | NetAck k now =>
      bs ← net_acks s !! k;
      a ← deserialize_file_ack bs;
      Some (mkNet (receive_file_ack bob a now (net_sender s)) (net_send s) (net_receiver s)
              (net_wire s) (net_acks s))
  | NetSenderOther ev =>
      let n := file_step (net_sender s) ev in
      if bool_decide (outgoing_transfers n !! akey = outgoing_transfers (net_sender s) !! akey)
      then Some (mkNet n (net_send s) (net_receiver s) (net_wire s) (net_acks s)) else None
  | NetReceiverOther ev =>
      let n := file_step (net_receiver s) ev in
      if leaves_alone (net_receiver s) n
      then Some (mkNet (net_sender s) (net_send s) n (net_wire s) (net_acks s)) else None
  end.

Fixpoint net_run (evs : list NetEvent) (s : Net) : option Net :=
  match evs with
  | [] => Some s
  | ev :: evs => s ← net_step s ev; net_run evs s
  end.

(** The sender has just opened its window; the receiver knows nothing of the transfer. *)
Definition net_start (now : Z) (a b : FileNode) : option Net :=
  match begin_send h [(bob, e)] now a with
  | (Some send, a) =>
      if bool_decide (incoming_transfers b !! bkey = None) then Some (mkNet a send b [] []) else None
  | (None, _) => None
  end.

(** ** Chunks of the file *)

Let cs : nat := Z.to_nat (fh_chunk_size h).
Definition chunk_of (i : nat) : list byte := take cs (drop (i * cs) F).

(** The header describes the file. *)
Definition describes : Prop :=
  file_header_wf h /\ fh_file_size h = Z.of_nat (length F) /\
  evp_sha256 F = Some (fh_content_hash h).

Hypothesis Hh : describes.

Lemma describes_sizes :
  (512 <= cs)%nat /\ Z.of_nat cs = fh_chunk_size h /\ Z.of_nat cs < 2 ^ 32 /\
  Z.of_nat (length F) <= 2 ^ 30 /\ 0 < fh_total_chunks h <= FILE_TRANSFER_MAX_CHUNKS /\
  Z.of_nat (length F) <= fh_total_chunks h * Z.of_nat cs /\
  forall i, Z.of_nat i < fh_total_chunks h -> (i * cs <= length F)%nat.
Proof.
  destruct Hh as ((_ & _ & [_ Hc] & _ & _ & Hv) & Hs & _).
  pose proof (valid_header_chunks h Hv ltac:(lia)) as Ht.
  unfold is_valid_file_header, file_transfer_chunk_count in Hv. rewrite !andb_true_iff in Hv.
  destruct Hv as [[[_ Hne] Et%Z.eqb_eq] _]. apply negb_true_iff, Z.eqb_neq in Hne.
  destruct (_ || _ || _) eqn:E; [done|]. rewrite !orb_false_iff, !Z.ltb_ge in E.
  change FILE_TRANSFER_MAX_FILE_SIZE with (2 ^ 30) in E.
  change FILE_TRANSFER_MIN_CHUNK_SIZE with 512 in E.
  assert (Z.of_nat cs = fh_chunk_size h) as Hcs by (unfold cs; lia).
  rewrite Hs, <- Hcs in Et. rewrite Et in Ht |- *. clear Et.
  destruct (Z.eqb_spec (Z.of_nat (length F)) 0) as [E0|E0].
  { split_and!; try lia. }
  pose proof (Z.mul_div_le (Z.of_nat (length F) - 1) (Z.of_nat cs) ltac:(lia)) as Hd.
  pose proof (Z.mul_succ_div_gt (Z.of_nat (length F) - 1) (Z.of_nat cs) ltac:(lia)) as Hd'.
  assert (0 <= (Z.of_nat (length F) - 1) / Z.of_nat cs < 2 ^ 31).
  { split; [apply Z.div_pos; lia|]. apply Z.div_lt_upper_bound; lia. }
  rewrite wrap_small in Ht |- * by (unfold in_width; lia).
  split_and!; try lia. intros i Hi. nia.
Qed.

Lemma chunk_of_lookup i p :
  chunk_of i !! p = if decide (p < cs)%nat then F !! (i * cs + p)%nat else None.
Proof.
  unfold chunk_of. destruct (decide (p < cs)%nat).
  - by rewrite lookup_take_lt, lookup_drop.
  - apply lookup_ge_None_2. rewrite length_take. lia.
Qed.

Lemma length_chunk_of i : length (chunk_of i) = Nat.min cs (length F - i * cs).
Proof. unfold chunk_of. rewrite length_take, length_drop. lia. Qed.

Lemma read_chunk_spec i bs :
  Z.of_nat i < fh_total_chunks h -> read_chunk h F i = Some bs ->
  deserialize_file_chunk bs = Some (mkFileChunk (fh_transfer_id h) (Z.of_nat i) (chunk_of i)).
Proof.
  intros Hi. destruct describes_sizes as (Hc1 & Hc2 & Hc3 & HF & Ht & _ & Hoff).
  specialize (Hoff i Hi). destruct Hh as ((Hid & _) & Hs & _).
  unfold read_chunk. rewrite <- Hc2, Hs.
  rewrite (wrap_small 64 (Z.of_nat i * Z.of_nat cs)) by (unfold in_width; nia).
  rewrite wrap_small by (unfold in_width; nia).
  replace (Z.to_nat (Z.of_nat i * Z.of_nat cs)) with (i * cs)%nat by nia.
  replace (Z.to_nat (Z.min _ _)) with (Nat.min cs (length F - i * cs)) by nia.
  assert (take (Nat.min cs (length F - i * cs)) (drop (i * cs) F) = chunk_of i) as ->.
  { unfold chunk_of. rewrite <- take_take. f_equal. apply take_ge. rewrite length_drop. lia. }
  destruct (negb _); [done|]. intros Hser. apply deserialize_chunk_spec.
  set (c := mkFileChunk _ _ _) in *.
  assert (file_chunk_wf c) as Hwf.
  { split_and!; [done|change FILE_TRANSFER_MAX_CHUNKS with 2097152 in Ht; cbn; unfold in_width; lia|].
    unfold serialize_file_chunk in Hser. by destruct (is_valid_file_chunk c). }
  rewrite serialize_chunk_wf in Hser by done. by injection Hser as <-.
Qed.

(** ** The partial file *)

(** The bytes of the chunks received are those of the file. *)
Definition content_ok (tr : FileChunkTracker) (c : list byte) : Prop :=
  (length c <= length F)%nat /\
  forall p, (p < length F)%nat -> received (p / cs) tr = true -> c !! p = F !! p.

Lemma write_at_lookup c off data p :
  (0 < length data)%nat ->
  write_at c off data !! p =
    if decide (p < off)%nat then (if decide (p < length c)%nat then c !! p else Some x00)
    else if decide (p < off + length data)%nat then data !! (p - off)%nat else c !! p.
Proof.
  intros Hd. unfold write_at. destruct data as [|d data']; [simpl in Hd; lia|].
  set (data := d :: data') in *. clearbody data.
  destruct (decide (p < off)%nat) as [Hlt|Hge].
  - destruct (decide (p < length c)%nat).
    + rewrite lookup_app_l by (rewrite length_take; lia). by rewrite lookup_take_lt.
    + rewrite lookup_app_r by (rewrite length_take; lia). rewrite length_take.
      rewrite lookup_app_l by (rewrite length_replicate; lia).
      apply lookup_replicate_2. lia.
  - rewrite lookup_app_r by (rewrite length_take; lia). rewrite length_take.
    rewrite lookup_app_r by (rewrite length_replicate; lia). rewrite length_replicate.
    replace (p - Nat.min off (length c) - (off - length c))%nat with (p - off)%nat by lia.
    destruct (decide (p < off + length data)%nat).
    + rewrite lookup_app_l by lia. done.
    + rewrite lookup_app_r by lia. rewrite lookup_drop. f_equal. lia.
Qed.

Lemma length_write_at c off data :
  (0 < length data)%nat -> length (write_at c off data) = Nat.max (length c) (off + length data).
Proof.
  intros Hd. unfold write_at. destruct data as [|d data']; [simpl in Hd; lia|].
  rewrite !length_app, length_take, length_replicate, length_drop. lia.
Qed.

Lemma write_chunk_ok tr i c :
  tracker_ok tr -> Z.of_nat i < fh_total_chunks h -> content_ok tr c ->
  content_ok (snd (record_chunk i tr)) (write_at c (i * cs) (chunk_of i)).
Proof.
  intros Htr Hi [Hl Hc]. destruct describes_sizes as (Hc1 & _ & _ & _ & _ & _ & Hoff).
  specialize (Hoff i Hi). pose proof (length_chunk_of i) as Hlc.
  pose proof (record_chunk_spec i tr Htr) as Hrec.
  destruct (record_chunk i tr) as [r tr']. destruct Hrec as (_ & _ & _ & Hrec). cbn [snd].
  assert (forall p, (p < length F)%nat -> (p / cs = i)%nat -> (0 < length (chunk_of i))%nat /\
    (i * cs <= p < i * cs + length (chunk_of i))%nat) as Hin.
  { intros p Hp <-. pose proof (Nat.div_mod_eq p cs). pose proof (Nat.mod_upper_bound p cs ltac:(lia)).
    lia. }
  destruct (decide (length (chunk_of i) = 0)%nat) as [E0|Hpos].
  { apply nil_length_inv in E0. rewrite E0. split; [done|]. intros p Hp Hr.
    rewrite Hrec in Hr. destruct (decide _) as [[Ei _]|]; [|by apply Hc].
    destruct (Hin p Hp Ei) as [Hx _]. rewrite E0 in Hx. simpl in Hx. lia. }
  split; [rewrite length_write_at by lia; lia|]. intros p Hp Hr.
  rewrite write_at_lookup by lia.
  destruct (decide (p / cs = i)%nat) as [Ei|Ei].
  - destruct (Hin p Hp Ei) as [_ Hr']. rewrite decide_False, decide_True by lia.
    rewrite chunk_of_lookup, decide_True by lia. f_equal. lia.
  - assert (~ (i * cs <= p < i * cs + length (chunk_of i))%nat) as Hout.
    { intros Hx. apply Ei. symmetry. apply (Nat.div_unique p cs i (p - i * cs)); lia. }
    rewrite Hrec in Hr. rewrite decide_False in Hr by tauto. specialize (Hc p Hp Hr).
    assert (p < length c)%nat.
    { apply lookup_lt_is_Some. rewrite Hc. by apply lookup_lt_is_Some_2. }
    destruct (decide (p < i * cs)%nat); [by rewrite decide_True|].
    by rewrite decide_False by lia.
Qed.

Lemma content_complete tr c :
  content_ok tr c -> (forall i, Z.of_nat i < fh_total_chunks h -> received i tr = true) -> c = F.
Proof.
  intros [Hl Hc] Hall. destruct describes_sizes as (Hc1 & _ & _ & _ & Ht & Hcover & _).
  apply list_eq. intros p. destruct (decide (p < length F)%nat) as [Hp|Hp].
  - apply Hc; [done|]. apply Hall.
    assert (p / cs < Z.to_nat (fh_total_chunks h))%nat; [|lia].
    apply Nat.Div0.div_lt_upper_bound. nia.
  - rewrite !lookup_ge_None_2 by lia. done.
Qed.

(** ** The receiver *)

Definition entry_ok (t : IncomingFileTransfer) (fs : FileSystem) : Prop :=
  transfer_ok bkey t /\ expected_header (fh_transfer_id h) t = h /\
  if completion_reported t
  then tracker_complete (if_chunks t) = true /\ fs !! final = Some F
  else tracker_complete (if_chunks t) = false /\
       exists c, fs !! part = Some c /\ content_ok (if_chunks t) c.

Definition receiver_ok (n : FileNode) : Prop :=
  forall t, incoming_transfers n !! bkey = Some t -> entry_ok t (files n).

Definition held (n : FileNode) (j : nat) : Prop :=
  exists t, incoming_transfers n !! bkey = Some t /\ received j (if_chunks t) = true.

Lemma header_id : fh_transfer_id h <> 0.
Proof.
  destruct Hh as ((_ & _ & _ & _ & _ & Hv) & _). intros E.
  unfold is_valid_file_header in Hv. by rewrite E in Hv.
Qed.

(** What the receiver answers is true when it is sent, and it never loses a chunk. *)
Definition honest (n n' : FileNode) (r : FileReply) : Prop :=
  receiver_ok n' /\ (forall j, held n j -> held n' j) /\
  forall a, r = ReplyAck a -> file_ack_wf a /\ fa_transfer_id a = fh_transfer_id h /\
    forall j, covered (fa_ranges a) j -> held n' j.

Lemma honest_silent n r : receiver_ok n -> (forall a, r <> ReplyAck a) -> honest n n r.
Proof. intros Hn Hr. split_and!; [done|done|]. intros a Ha. by destruct (Hr a). Qed.

(** An acknowledgement of the tracker the receiver ends up with. *)
Lemma honest_ack n n' t t' focus :
  incoming_transfers n' !! bkey = Some t' -> entry_ok t' (files n') ->
  incoming_transfers n !! bkey = Some t ->
  (forall j, received j (if_chunks t) = true -> received j (if_chunks t') = true) ->
  honest n n' (ReplyAck (mkFileAck (fh_transfer_id h) true
    (acknowledged_ranges focus FILE_ACK_MAX_RANGES (if_chunks t')))).
Proof.
  intros Ht' Hok Ht Hmono. pose proof Hok as (Htok & Hexp & _). split_and!.
  - intros t2 Ht2. by simplify_eq.
  - intros j (t0 & Ht0 & Hj). simplify_eq. exists t'. auto.
  - intros a [= <-]. destruct Hh as ((Hid & _) & _).
    destruct (acknowledged_ranges_spec focus FILE_ACK_MAX_RANGES (if_chunks t')) as
      ((Hl & Hr & Hwf & Hs) & _); [apply Htok| |].
    + rewrite (tok_length _ _ Htok). apply (f_equal fh_total_chunks) in Hexp. cbn in Hexp.
      rewrite Hexp. apply describes_sizes.
    + split_and!; [by split_and!; [|apply header_id|..]|done|].
      cbn. intros j Hj. exists t'. split; [done|]. by apply received_lookup, Hs.
Qed.

Lemma receive_header_honest now n r n' :
  receiver_ok n -> receive_file_header io_good alice h now n = (r, n') -> honest n n' r.
Proof.
  intros Hn. unfold receive_file_header. fold bkey part.
  destruct (incoming_transfers n !! bkey) as [t|] eqn:Hk.
  - destruct (same_transfer h t); cbn [negb]; [|intros [= <- <-]; by apply honest_silent].
    intros [= <- <-]. destruct (Hn t Hk) as (Htok & Hexp & Hrest).
    apply (honest_ack n _ t (with_chunks (if_chunks t) (completion_reported t) now t)); try done.
    + cbn. by rewrite lookup_insert_eq.
    + split_and!; try done. by apply with_chunks_ok; [|apply Htok|].
  - destruct (file_transfer_admission_allowed _ _ _ _ _); cbn [negb];
      [|intros [= <- <-]; by apply honest_silent].
    cbn [io_good io_create negb].
    destruct describes_sizes as (_ & _ & _ & _ & Ht & _).
    destruct Hh as ((_ & [? _] & _ & _ & _ & Hv) & _).
    destruct (chunk_tracker_reset (fh_total_chunks h)) as [tr|] eqn:Htr.
    2: { intros [= <- <-]. split_and!; [|intros j (t & Ht' & _); congruence|done].
         intros t. cbn. rewrite Hk. done. }
    destruct (chunk_tracker_reset_ok _ _ Htr ltac:(lia)) as (Htok & Hlen & Hpos & Hmax & Hnone).
    intros [= <- <-]. split_and!.
    + intros t. cbn. rewrite lookup_insert_eq. intros [= <-]. split_and!.
      * by split.
      * apply header_eta.
      * cbn. split.
        -- apply not_true_iff_false. rewrite tracker_complete_spec by done. intros [_ Hall].
           specialize (Hall 0%nat Hpos). by rewrite Hnone in Hall.
        -- exists []. rewrite lookup_insert_eq. split; [done|]. split; [simpl; lia|].
           intros p _ Hp. by rewrite Hnone in Hp.
    + intros j (t & Ht' & _). congruence.
    + intros a [= <-]. destruct Hh as ((Hid & _) & _).
      split_and!; [|done|by intros j ?%covered_nil].
      split_and!; [done|apply header_id|constructor|cbn; lia|done].
Qed.

(** A complete partial file is the file, so its verification succeeds. *)
Lemma finish_chunk_honest i t n0 n r n' :
  (forall j, held n j -> received j (if_chunks t) = true) ->
  (exists t0, incoming_transfers n !! bkey = Some t0) ->
  transfer_ok bkey t -> expected_header (fh_transfer_id h) t = h ->
  (if completion_reported t
   then tracker_complete (if_chunks t) = true /\ files n0 !! final = Some F
   else exists c, files n0 !! part = Some c /\ content_ok (if_chunks t) c) ->
  finish_chunk io_good bkey i t n0 = (r, n') -> honest n n' r.
Proof.
  intros Hmono [t0 Ht0] Htok Hexp Hst. unfold finish_chunk. cbn [snd bkey].
  assert (forall t' fs, r = ReplyAck (mkFileAck (fh_transfer_id h) true
      (acknowledged_ranges (Some i) FILE_ACK_MAX_RANGES (if_chunks t'))) ->
    n' = set_files fs (set_incoming (<[bkey:=t']> (incoming_transfers n0)) n0) ->
    if_chunks t' = if_chunks t -> entry_ok t' fs -> honest n n' r) as Hack.
  { intros t' fs -> -> E Hok. apply (honest_ack n _ t0); [|done|done|].
    - cbn. by rewrite lookup_insert_eq.
    - intros j Hj. rewrite E. apply Hmono. by exists t0. }
  destruct (tracker_complete (if_chunks t)) eqn:Hc; destruct (completion_reported t) eqn:Hr;
    cbn [andb negb].
  - intros [= <- <-]. apply (Hack t (files n0)); try done.
    split_and!; try done. rewrite Hr. by rewrite Hc.
  - destruct Hst as (c & Hc1 & Hc2). destruct describes_sizes as (_ & _ & _ & HF & _).
    assert (c = F) as ->.
    { apply (content_complete _ _ Hc2). intros j Hj.
      apply tracker_complete_spec in Hc as [_ Hall]; [|apply Htok]. apply Hall.
      pose proof (tok_length _ _ Htok). apply (f_equal fh_total_chunks) in Hexp. cbn in Hexp. lia. }
    destruct Hh as ((_ & _ & _ & _ & H32 & _) & Hs & Hd).
    rewrite (tok_output _ _ Htok), (tok_final _ _ Htok). cbn [fst snd bkey]. fold part.
    assert (if_filename t = fh_filename h) as -> by (by rewrite <- Hexp).
    assert (if_content_hash t = fh_content_hash h) as -> by (by rewrite <- Hexp).
    assert (if_file_size t = Z.of_nat (length F)) as -> by (by rewrite <- Hs, <- Hexp).
    fold final. rewrite (verify_and_commit_good _ _ _ F) by (done || lia).
    intros [= <- <-]. apply (Hack (with_chunks (if_chunks t) true (last_activity t) t)
      (<[final := F]> (delete part (files n0)))); try done. split_and!; try done.
    + apply with_chunks_ok; [done|apply Htok|done].
    + cbn. by rewrite lookup_insert_eq.
  - destruct Hst as [Hx _]. congruence.
  - intros [= <- <-]. apply (Hack t (files n0)); try done.
    split_and!; try done. rewrite Hr. by rewrite Hc.
Qed.

Lemma receive_chunk_honest i now n r n' :
  receiver_ok n -> Z.of_nat i < fh_total_chunks h ->
  receive_file_chunk io_good alice (mkFileChunk (fh_transfer_id h) (Z.of_nat i) (chunk_of i))
    now n = (r, n') -> honest n n' r.
Proof.
  intros Hn Hi. unfold receive_file_chunk. cbn [fc_transfer_id fc_chunk_index fc_data].
  rewrite Nat2Z.id. fold bkey.
  destruct (incoming_transfers n !! bkey) as [t|] eqn:Hk;
    [|intros [= <- <-]; by apply honest_silent].
  destruct (is_valid_file_chunk_for_header _ _); cbn [negb];
    [|intros [= <- <-]; by apply honest_silent].
  pose proof (Hn t Hk) as (Htok & Hexp & Hst).
  set (t1 := with_chunks (if_chunks t) _ now t).
  set (n1 := set_incoming (<[bkey:=t1]> (incoming_transfers n)) n).
  assert (transfer_ok bkey t1) as Htok1 by (by apply with_chunks_ok; [|apply Htok|]).
  assert (forall j, held n j -> received j (if_chunks t) = true) as Hheld
    by (intros j (t2 & Ht2 & Hj); by simplify_eq).
  destruct (received i (if_chunks t1)) eqn:Hri.
  { apply (finish_chunk_honest i t1 n1 n); try done; [by eauto|].
    cbn. destruct (completion_reported t); [done|]. by destruct Hst as [_ Hst]. }
  assert (completion_reported t = false) as Hr.
  { destruct (completion_reported t); [|done]. destruct Hst as [Hc _].
    apply tracker_complete_spec in Hc as [_ Hall]; [|apply Htok].
    rewrite <- Hri. symmetry. apply Hall. pose proof (tok_length _ _ Htok).
    apply (f_equal fh_total_chunks) in Hexp. cbn in Hexp. lia. }
  rewrite Hr in Hst. destruct Hst as [Hc (c & Hc1 & Hc2)].
  unfold store_chunk. cbn [output_path t1 with_chunks files n1 set_incoming io_good io_open io_write].
  rewrite (tok_output _ _ Htok). cbn [fst snd bkey]. fold part. rewrite Hc1. cbn [negb].
  destruct describes_sizes as (Hs1 & Hs2 & _ & HF & _ & _ & Hoff). specialize (Hoff i Hi).
  assert (if_chunk_size t1 = Z.of_nat cs) as -> by (rewrite Hs2, <- Hexp; done).
  rewrite wrap_small by (unfold in_width; nia).
  replace (Z.to_nat (Z.of_nat i * Z.of_nat cs)) with (i * cs)%nat by nia.
  pose proof (record_chunk_spec i _ (tok_tracker _ _ Htok)) as Hrec.
  pose proof (write_chunk_ok _ _ _ (tok_tracker _ _ Htok) Hi Hc2) as Hw.
  cbn [if_chunks t1 with_chunks].
  destruct (record_chunk i (if_chunks t)) as [rc tr]. destruct Hrec as (Htr & Hlen & Hacc & Hrec).
  cbn [snd] in Hw.
  assert (rc = Accepted) as ->.
  { apply Hacc. split; [|done]. pose proof (tok_length _ _ Htok).
    apply (f_equal fh_total_chunks) in Hexp. cbn in Hexp. lia. }
  apply finish_chunk_honest; try done.
  - cbn. intros j Hj. rewrite Hrec. destruct (decide _); [done|]. by apply Hheld.
  - eauto.
  - by apply with_chunks_ok.
  - cbn. rewrite Hr, lookup_insert_eq. eauto.
Qed.

(** ** The invariant of the transfer *)

Definition message_ok (m : FileMessage) : Prop :=
  match m with
  | MsgHeader bs => deserialize_file_header bs = Some h
  | MsgChunk bs => exists i, Z.of_nat i < fh_total_chunks h /\
      deserialize_file_chunk bs = Some (mkFileChunk (fh_transfer_id h) (Z.of_nat i) (chunk_of i))
  end.

(** What the sender's window believes is what the receiver holds. *)
Definition window_honest (w : FileSendWindow) (n : FileNode) : Prop :=
  window_ok w /\ Z.of_nat (total_chunks w) = fh_total_chunks h /\
  forall i, ~ unacked (acknowledged_ w) i -> held n i.

Definition all_held (n : FileNode) : Prop := forall i, Z.of_nat i < fh_total_chunks h -> held n i.

Record net_ok (s : Net) : Prop := {
  nok_header : sf_header (net_send s) = h;
  nok_peers : sf_peers (net_send s) = [(bob, e)];
  nok_keys : sf_keys (net_send s) = [akey] \/
    sf_keys (net_send s) = [] /\ (sf_failed (net_send s) = false -> all_held (net_receiver s));
  nok_window : forall w, outgoing_transfers (net_sender s) !! akey = Some w ->
    window_honest w (net_receiver s);
  nok_wire : Forall message_ok (net_wire s);
  nok_acks : Forall (λ bs, exists a, deserialize_file_ack bs = Some a /\ file_ack_wf a /\
    fa_transfer_id a = fh_transfer_id h /\
    forall j, covered (fa_ranges a) j -> held (net_receiver s) j) (net_acks s);
  nok_receiver : receiver_ok (net_receiver s);
}.

Lemma chunk_messages_ok chunks : forall msgs f,
  chunk_messages h F chunks = (msgs, f) ->
  (forall i, i ∈ chunks -> Z.of_nat i < fh_total_chunks h) -> Forall message_ok msgs.
Proof.
  induction chunks as [|i chunks IH]; intros msgs f; cbn [chunk_messages].
  { by intros [= <- <-]. }
  destruct (read_chunk h F i) as [bs|] eqn:Hr; [|by intros [= <- <-]].
  destruct (chunk_messages h F chunks) as [msgs' f'] eqn:E. intros [= <- <-] Hi.
  constructor; [|apply (IH _ _ eq_refl); intros j Hj; apply Hi; by right].
  exists i. assert (Z.of_nat i < fh_total_chunks h) by (apply Hi; by left).
  split; [done|]. by apply read_chunk_spec.
Qed.

Lemma send_actions_ok a msgs f :
  send_actions h F [((bob, e), a)] = (msgs, f) ->
  (forall i, i ∈ action_chunks a -> Z.of_nat i < fh_total_chunks h) ->
  Forall message_ok (snd <$> msgs).
Proof.
  cbn [send_actions]. destruct (chunk_messages h F (action_chunks a)) as [cm cf] eqn:Hcm.
  intros Hs Hi. pose proof (chunk_messages_ok _ _ _ Hcm Hi) as Hok.
  set (header := match serialize_file_header h with Some _ => _ | None => _ end) in Hs.
  assert (Forall message_ok header) as Hhd.
  { subst header. destruct Hh as (Hwf & _). rewrite serialize_header_wf by done.
    destruct (send_header a); repeat constructor. by apply deserialize_header_spec. }
  assert (msgs = pair (bob, e) <$> (header ++ cm)) as ->.
  { destruct cf; [|rewrite app_nil_r in Hs]; by injection Hs as <- <-. }
  rewrite <- list_fmap_compose. rewrite (list_fmap_ext _ id), list_fmap_id by done.
  by apply Forall_app.
Qed.

Lemma window_honest_poll now w n :
  window_honest w n -> window_honest (snd (poll now w)) n /\
  forall i, i ∈ action_chunks (fst (poll now w)) -> Z.of_nat i < fh_total_chunks h.
Proof.
  intros (Hok & Ht & Ha). destruct (poll_polled now w Hok) as [Hok' (_ & E1 & E2 & _) _ [_ Hc] _ _ _].
  split; [split_and!; [done|by rewrite E1|by rewrite E2]|].
  intros i Hi. destruct (Hc i Hi) as (_ & Hlt & _). lia.
Qed.

Lemma window_honest_complete w n :
  window_honest w n -> window_complete w = true -> all_held n.
Proof.
  intros (Hok & Ht & Ha) Hc i Hi. apply Ha.
  apply window_complete_spec in Hc as [_ Hc]; [|done]. apply Hc. lia.
Qed.

Lemma window_honest_ack a now w n :
  window_honest w n -> file_ack_wf a -> (forall j, covered (fa_ranges a) j -> held n j) ->
  window_honest (acknowledge a now w) n.
Proof.
  intros (Hok & Ht & Ha) Hwf Hcov. destruct (failed w) eqn:Hf.
  { unfold acknowledge. by rewrite Hf. }
  destruct (acknowledge_acked a now w Hok (ack_ranges_nonneg _ Hwf) Hf)
    as [Hok' (_ & E & _) _ _ _ Hi].
  split_and!; [done|by rewrite E|]. intros i Hu. rewrite Hi in Hu.
  destruct (decide (unacked (acknowledged_ w) i)); [|by apply Ha].
  apply Hcov. apply dec_stable. tauto.
Qed.

(** The receiver moves on: what the sender believes stays true. *)
Lemma net_ok_receiver s n r :
  net_ok s -> honest (net_receiver s) n r ->
  net_ok (mkNet (net_sender s) (net_send s) n (net_wire s) (net_acks s ++ reply_payload r)).
Proof.
  intros [H1 H2 H3 H4 H5 H6 H7] (Hr & Hmono & Hack). split; cbn [net_sender net_send net_receiver
    net_wire net_acks]; try done.
  - destruct H3 as [?|[? H3]]; [by left|right]. split; [done|]. intros Hf i Hi. by apply Hmono, H3.
  - intros w Hw. destruct (H4 w Hw) as (? & ? & Ha). split_and!; [done|done|]. intros i Hi. auto.
  - apply Forall_app. split.
    + eapply Forall_impl; [exact H6|]. intros bs (a & ? & ? & ? & Hc). exists a. eauto 10.
    + destruct r as [|a|]; cbn [reply_payload]; [constructor| |constructor].
      destruct (Hack a eq_refl) as (Hwf & Hid & Hc). rewrite serialize_ack_wf by done.
      repeat constructor. exists a. split_and!; try done. by apply deserialize_ack_spec.
Qed.

Lemma net_ok_round now s msgs send n :
  net_ok s -> send_running (net_send s) = true ->
  send_round F now (net_send s) (net_sender s) = (msgs, send, n) ->
  net_ok (mkNet n send (net_receiver s) (net_wire s ++ (snd <$> msgs)) (net_acks s)).
Proof.
  intros [H1 H2 H3 H4 H5 H6 H7] Hrun. unfold send_round. rewrite H1, H2.
  destruct H3 as [H3|[H3 _]]; [|by unfold send_running in Hrun; rewrite H3 in Hrun].
  (* the outcomes that send nothing *)
  assert (forall out active f, (active = [akey] \/
      active = [] /\ (f = false -> all_held (net_receiver s))) ->
    (forall w, out !! akey = Some w -> window_honest w (net_receiver s)) ->
    forall msgs', Forall message_ok (snd <$> msgs') ->
    (msgs', mkSend h [(bob, e)] active (sf_all_keys (net_send s)) f,
     set_outgoing out (net_sender s)) = (msgs, send, n) ->
    net_ok (mkNet n send (net_receiver s) (net_wire s ++ (snd <$> msgs)) (net_acks s))) as Hend.
  { intros out active f Hact Hout msgs' Hm [= -> <- <-]. split; try done.
    by apply Forall_app. }
  rewrite H3. cbn [poll_transfers]. destruct (outgoing_transfers (net_sender s) !! akey) as [w|] eqn:Hw.
  2: { cbn. apply Hend; [by right|congruence|constructor]. }
  pose proof (H4 w eq_refl) as Hhon. destruct (window_complete w) eqn:Hc.
  { cbn. apply Hend; [right; split; [done|]; intros _; by eapply window_honest_complete| |constructor].
    intros w'. by rewrite lookup_delete_eq. }
  destruct (window_honest_poll now w _ Hhon) as [Hhon' Hchunks].
  destruct (poll now w) as [a w']. cbn [fst snd] in *.
  assert (forall w0, <[akey:=w']> (outgoing_transfers (net_sender s)) !! akey = Some w0 ->
    window_honest w0 (net_receiver s)) as Hout.
  { intros w0. rewrite lookup_insert_eq. by intros [= <-]. }
  destruct (failed w'); [apply Hend; [by right|exact Hout|constructor]|].
  destruct (_ && _).
  { cbn. apply Hend; [by left|exact Hout|constructor]. }
  unfold peer_endpoint. cbn [fst akey List.find]. rewrite bool_decide_eq_true_2 by done.
  cbn [fmap option_fmap option_map snd].
  cbn [length Nat.eqb orb]. destruct (send_actions h F [(bob, e, a)]) as [msgs' f] eqn:Hs.
  apply Hend; [by left|exact Hout|by eapply send_actions_ok].
Qed.

Lemma net_step_ok s ev s' : net_ok s -> net_step s ev = Some s' -> net_ok s'.
Proof.
  intros Hs. pose proof Hs as [H1 H2 H3 H4 H5 H6 H7].
  destruct ev as [now|k now|k now|ev|ev]; cbn [net_step].
  - destruct (send_running (net_send s)) eqn:Hrun; [|done].
    destruct (send_round _ _ _ _) as [[msgs send] n] eqn:E. intros [= <-]. by eapply net_ok_round.
  - destruct (net_wire s !! k) as [m|] eqn:Hm; [|done].
    pose proof (Forall_lookup_1 _ _ _ _ H5 Hm) as Hmok. destruct m as [bs|bs].
    + cbn in Hmok. rewrite Hmok. cbn [mbind option_bind].
      destruct (receive_file_header _ _ _ _ _) as [r n] eqn:E. intros [= <-].
      apply net_ok_receiver; [done|]. by eapply receive_header_honest.
    + destruct Hmok as (i & Hi & ->). cbn [mbind option_bind].
      destruct (receive_file_chunk _ _ _ _ _) as [r n] eqn:E. intros [= <-].
      apply net_ok_receiver; [done|]. by eapply receive_chunk_honest.
  - destruct (net_acks s !! k) as [bs|] eqn:Hbs; [|done]. cbn [mbind option_bind].
    destruct (Forall_lookup_1 _ _ _ _ H6 Hbs) as (a & -> & Hwf & Hid & Hcov). cbn [mbind option_bind].
    intros [= <-]. split; try done. cbn. unfold receive_file_ack. rewrite Hid. fold akey.
    destruct (outgoing_transfers (net_sender s) !! akey) as [w|] eqn:Hw; [|by rewrite Hw].
    intros w'. cbn. rewrite lookup_insert_eq. intros [= <-]. apply window_honest_ack; auto.
  - case_bool_decide as E; [|done]. intros [= <-]. split; try done. cbn. by rewrite E.
  - unfold leaves_alone. destruct (_ && _) eqn:E; [|done]. intros [= <-].
    rewrite !andb_true_iff in E. destruct E as [[E1 E2] E3].
    apply bool_decide_eq_true in E1, E2, E3.
    assert (honest (net_receiver s) (file_step (net_receiver s) ev) NoReply) as Hhon.
    { split_and!; [|intros j; unfold held; by rewrite E1|done].
      intros t. rewrite E1. intros Ht. destruct (H7 t Ht) as (? & ? & Hst). split_and!; try done.
      destruct (completion_reported t); [by rewrite E3|]. by rewrite E2. }
    pose proof (net_ok_receiver s _ _ Hs Hhon) as Hok. cbn in Hok. by rewrite app_nil_r in Hok.
Qed.

Lemma net_run_ok evs : forall s s', net_ok s -> net_run evs s = Some s' -> net_ok s'.
Proof.
  induction evs as [|ev evs IH]; intros s s' Hs; cbn [net_run]; [by intros [= <-]|].
  destruct (net_step s ev) as [s1|] eqn:E; [|done]. cbn [mbind option_bind].
  apply IH. by eapply net_step_ok.
Qed.

Lemma net_start_ok now a b s : net_start now a b = Some s -> net_ok s.
Proof.
  unfold net_start, begin_send. destruct Hh as (Hwf & _). rewrite serialize_header_wf by done.
  cbn [open_windows]. destruct (window_reset _ _ _) as [ok w] eqn:Hw. destruct ok; [|done].
  case_bool_decide as Hb; [|done]. intros [= <-].
  destruct describes_sizes as (_ & _ & _ & _ & Ht & _).
  apply window_reset_ok in Hw as (Hok & Htot & _ & _ & _ & _ & _ & _ & _ & _ & Hnone); [|lia|done].
  split; cbn; try done; [by left| |].
  - intros w'. fold akey. rewrite lookup_insert_eq. intros [= <-]. split_and!; [done|done|].
    intros i Hi. by destruct (Hi (Hnone i)).
  - intros t Ht'. fold bkey in Ht'. congruence.
Qed.

Lemma all_held_published n : receiver_ok n -> all_held n -> files n !! final = Some F.
Proof.
  intros Hn Hall. destruct describes_sizes as (_ & _ & _ & _ & Ht & _).
  destruct (Hall 0%nat ltac:(lia)) as (t & Hk & _). destruct (Hn t Hk) as (Htok & Hexp & Hst).
  assert (tracker_complete (if_chunks t) = true) as Hc.
  { apply tracker_complete_spec; [apply Htok|]. pose proof (tok_length _ _ Htok) as Hl.
    apply (f_equal fh_total_chunks) in Hexp. cbn in Hexp. split; [lia|]. intros i Hi.
    destruct (Hall i ltac:(lia)) as (t' & Hk' & Hr). by simplify_eq. }
  destruct (completion_reported t); [by destruct Hst|]. destruct Hst as [? _]. congruence.
Qed.

(** A chunk of another transfer leaves this one alone, if its file has another name. *)
Lemma other_chunk_leaves_alone io p c now n :
  incoming_ok n -> (p, fc_transfer_id c) <> bkey ->
  (forall t, incoming_transfers n !! (p, fc_transfer_id c) = Some t ->
     length p = length alice /\ u64 (fc_transfer_id c) /\
     file_transfer_part_name p (fc_transfer_id c) <> fh_filename h /\
     if_filename t <> fh_filename h /\
     if_filename t <> file_transfer_part_name alice (fh_transfer_id h)) ->
  leaves_alone n (file_step n (EvChunk io p c now)) = true.
Proof.
  intros Hn Hkey Hnames. cbn [file_step].
  destruct (receive_file_chunk_touches io p c now n) as [-> |(t & Hk & _ & (t' & Hi & _ & _) & Hf)].
  { unfold leaves_alone. by rewrite !bool_decide_eq_true_2. }
  destruct (Hnames t Hk) as (Hl & Hu & N1 & N2 & N3). destruct (Hn _ _ Hk) as [_ _ _ _ Ho Hfi].
  destruct Hh as ((Hid & _) & _). cbn [fst snd] in Ho.
  unfold leaves_alone. rewrite Hi, lookup_insert_ne by done.
  rewrite !andb_true_iff, !bool_decide_eq_true. split_and!; [done|..]; apply Hf; rewrite ?Ho, ?Hfi;
    unfold part, final; intros E%app_inv_head; try congruence.
  apply part_name_inj in E as [-> E]; try done. apply Hkey. unfold bkey. congruence.
Qed.
End Protocol.


Section Example.
#[local] Existing Instances toy_openssl.

Definition toy_file : list byte := replicate 600 x61 ++ [x62].
Definition toy_big_header : FileTransferHeader := toy_file_header 77 (lit "a.txt") toy_file.

(** Two chunks, delivered in the wrong order and once more than needed. *)
Definition toy_net_events : list NetEvent :=
  [NetRound 0; NetDeliver 0 1; NetDeliver 0 2; NetAck 0 3; NetRound 4; NetDeliver 2 5;
   NetDeliver 1 6; NetDeliver 2 7; NetAck 2 8; NetAck 3 9; NetRound 10].

End Example.
