(* ===== verification/Node.v ===== *)
(** * The node: state and operations ([src/tunnel/tunnel.cpp], [include/aegis/tunnel/tunnel.hpp])

    A [Tunnel] owns one of every component and runs several threads over them: the receive
    callback, the packet loop, gossip, maintenance and one connector per configured peer.
    Every component guards itself with a mutex, so what a thread does is a sequence of calls
    of component operations.  [Node] is the state of all of them, [call] lists the operations
    a thread can perform in one step, [exec] is what they do, and a [prog] is the code of a
    thread: it makes one call and goes on with the result.  A [run] executes one program
    alone; [system_step] of [NodeSafe] interleaves the calls of any number of programs.

    Regions under the tunnel's own mutexes ([hs_mtx_], [endpoint_punch_attempts_mtx_],
    [endpoint_candidates_mtx_], the transfer maps) are one call each.  [merge_peer_table]
    calls the peer manager and the routing table several times; it is one call here. *)

From Stdlib Require Import ZArith Lia Bool.
From Stdlib.Strings Require Import Byte.
From stdpp Require Import base numbers gmap option list.
From S2P Require Import Prelude Wire Packet Replay Crypto Identity Revocation HandshakeV2 NoiseIk.
From S2P Require Import Session IpAddress Endpoint Discovery Probe Admission Routing Onion.
From S2P Require Import RelayLimiter SendQueue Transport Peer PeerTable Gossip.
From S2P Require Import FileMsg FileTransfer FileNode.

(** ** Configuration *)

Record TunnelPeer := mkTunnelPeer {
  tp_node_id : NodeId;
  tp_public_key : Key;
  tp_endpoint : Endpoint;
  allowed_ips : list (IPAddress * Z);
}.

(** The members [start] fills in and nothing changes afterwards.  The identity, the
    session limits and the padding bucket are those of the session manager. *)
Record TunnelConfig := mkConfig {
  session_env : SessionEnv;
  overlay_address : IPAddress;
  overlay_prefix : Z;
  underlay_mtu : Z;
  max_relay_depth : Z;
  overlay_mtu : Z;
  trusted_membership_issuer : option Key;
  config_peers : list TunnelPeer;
  rekey_interval_ms : Z;
  creator_id : NodeId;
  is_creator : bool;
}.

(** The machine a node runs on: its steady clock, the failures of its file system and of
    the adapter's driver. *)
Class Machine := {
  host_clock : nat -> Z;
  host_files : nat -> FileIo;
  host_removes : nat -> bool;
  host_adapter : list byte -> bool;
}.

(** [PendingHandshake]. *)
Record PendingHandshake := mkPendingHs {
  ph_peer_id : NodeId;
  ph_session_id : Z;
  ph_done : bool;
  ph_endpoint : Endpoint;
  ph_cookie : option (list byte);
  ph_cookie_updated : bool;
}.

(** The drop counters of the tunnel itself. *)
Record DropCounters := mkDrops {
  oversize_outbound : Z;
  oversize_inbound : Z;
  invalid_inbound : Z;
}.

Inductive Drop := OversizeOutbound | OversizeInbound | InvalidInbound.

Definition count_drop (d : Drop) (c : DropCounters) : DropCounters :=
  match d with
  | OversizeOutbound =>
      mkDrops (wrap 64 (oversize_outbound c + 1)) (oversize_inbound c) (invalid_inbound c)
  | OversizeInbound =>
      mkDrops (oversize_outbound c) (wrap 64 (oversize_inbound c + 1)) (invalid_inbound c)
  | InvalidInbound =>
      mkDrops (oversize_outbound c) (oversize_inbound c) (wrap 64 (invalid_inbound c + 1))
  end.

Section node.
Context `{OpenSSL, RandomSource, NoiseC, Machine}.

Record Node := mkNode {
  nd_running : bool;
  nd_sessions : SessionManager;
  nd_peers : PeerManager;
  nd_routing : RoutingEngine;
  nd_gossip : GossipDeltaTracker;
  nd_revocations : list MembershipRevocation;
  nd_probes : PathProbeTracker;
  nd_punches : EndpointPunchTracker;
  nd_punch_attempts : gmap NodeId Z;
  nd_refreshes : gmap NodeId Z;
  nd_candidates : list EndpointCandidate;
  nd_quota : RelayForwardLimiter;
  nd_rate : HandshakeRateLimiter;
  nd_cookies : HandshakeCookieManager;
  nd_pending : gmap NodeId PendingHandshake;
  nd_rekeys : gmap NodeId Z;
  nd_transport : Transport;
  nd_files : FileNode;
  nd_presences : gmap NodeId Presence;
  nd_onion_counter : Z;
  nd_drops : DropCounters;
  nd_unrouted : Z;
  nd_gossip_round : Z;
  nd_adapter : list (list byte);  (** packets given to the adapter, latest first *)
  nd_console : list (NodeId * list byte);  (** chat lines printed, latest first *)
  nd_stop_requested : bool;  (** a thread that calls [stop] was started *)
  nd_rng : rng;  (** the random source *)
  nd_ticks : nat;  (** clock reads and file operations so far *)
}.

Definition node_eta (n : Node) : Node :=
  mkNode (nd_running n) (nd_sessions n) (nd_peers n) (nd_routing n) (nd_gossip n)
    (nd_revocations n) (nd_probes n) (nd_punches n) (nd_punch_attempts n) (nd_refreshes n)
    (nd_candidates n) (nd_quota n) (nd_rate n) (nd_cookies n) (nd_pending n) (nd_rekeys n)
    (nd_transport n) (nd_files n) (nd_presences n) (nd_onion_counter n) (nd_drops n)
    (nd_unrouted n) (nd_gossip_round n) (nd_adapter n) (nd_console n) (nd_stop_requested
    n) (nd_rng n) (nd_ticks n).

(** Assignment to one member: the record rebuilt from its members, with one replaced. *)
Ltac assign proj x n :=
  let t := eval cbv [node_eta] in (node_eta n) in
  let t := eval pattern (proj n) in t in
  match t with ?g _ => let b := eval cbv beta in (g x) in exact b end.

Definition put_running (x : bool) (n : Node) : Node := ltac:(assign nd_running x n).
Definition put_sessions (x : SessionManager) (n : Node) : Node := ltac:(assign nd_sessions x n).
Definition put_peers (x : PeerManager) (n : Node) : Node := ltac:(assign nd_peers x n).
Definition put_routing (x : RoutingEngine) (n : Node) : Node := ltac:(assign nd_routing x n).
Definition put_gossip (x : GossipDeltaTracker) (n : Node) : Node := ltac:(assign nd_gossip x n).
Definition put_revocations (x : list MembershipRevocation) (n : Node) : Node := ltac:(assign nd_revocations x n).
Definition put_probes (x : PathProbeTracker) (n : Node) : Node := ltac:(assign nd_probes x n).
Definition put_punches (x : EndpointPunchTracker) (n : Node) : Node := ltac:(assign nd_punches x n).
Definition put_punch_attempts (x : gmap NodeId Z) (n : Node) : Node := ltac:(assign nd_punch_attempts x n).
Definition put_refreshes (x : gmap NodeId Z) (n : Node) : Node := ltac:(assign nd_refreshes x n).
Definition put_candidates (x : list EndpointCandidate) (n : Node) : Node := ltac:(assign nd_candidates x n).
Definition put_quota (x : RelayForwardLimiter) (n : Node) : Node := ltac:(assign nd_quota x n).
Definition put_rate (x : HandshakeRateLimiter) (n : Node) : Node := ltac:(assign nd_rate x n).
Definition put_cookies (x : HandshakeCookieManager) (n : Node) : Node := ltac:(assign nd_cookies x n).
Definition put_pending (x : gmap NodeId PendingHandshake) (n : Node) : Node := ltac:(assign nd_pending x n).
Definition put_rekeys (x : gmap NodeId Z) (n : Node) : Node := ltac:(assign nd_rekeys x n).
Definition put_transport (x : Transport) (n : Node) : Node := ltac:(assign nd_transport x n).
Definition put_files (x : FileNode) (n : Node) : Node := ltac:(assign nd_files x n).
Definition put_presences (x : gmap NodeId Presence) (n : Node) : Node := ltac:(assign nd_presences x n).
Definition put_onion_counter (x : Z) (n : Node) : Node := ltac:(assign nd_onion_counter x n).
Definition put_drops (x : DropCounters) (n : Node) : Node := ltac:(assign nd_drops x n).
Definition put_unrouted (x : Z) (n : Node) : Node := ltac:(assign nd_unrouted x n).
Definition put_gossip_round (x : Z) (n : Node) : Node := ltac:(assign nd_gossip_round x n).
Definition put_adapter (x : list (list byte)) (n : Node) : Node := ltac:(assign nd_adapter x n).
Definition put_console (x : list (NodeId * list byte)) (n : Node) : Node := ltac:(assign nd_console x n).
Definition put_stop_requested (x : bool) (n : Node) : Node := ltac:(assign nd_stop_requested x n).
Definition put_rng (x : rng) (n : Node) : Node := ltac:(assign nd_rng x n).
Definition put_ticks (x : nat) (n : Node) : Node := ltac:(assign nd_ticks x n).

(** ** Helpers of the tunnel *)

(** The position [std::min_element] finds: the first of the lowest priority. *)
Fixpoint lowest_from (i best : nat) (low : Z) (cs : list EndpointCandidate) : nat :=
  match cs with
  | [] => best
  | c :: cs =>
      if priority c <? low then lowest_from (S i) i (priority c) cs
      else lowest_from (S i) best low cs
  end.

Definition lowest_priority (cs : list EndpointCandidate) : nat :=
  match cs with [] => 0%nat | c :: cs => lowest_from 1 0 (priority c) cs end.

(** [std::stable_sort] by decreasing priority. *)
Fixpoint insert_by_priority (c : EndpointCandidate) (cs : list EndpointCandidate)
    : list EndpointCandidate :=
  match cs with
  | [] => [c]
  | d :: cs' => if priority d <? priority c then c :: cs else d :: insert_by_priority c cs'
  end.

Definition sort_by_priority (cs : list EndpointCandidate) : list EndpointCandidate :=
  foldl (λ acc c, insert_by_priority c acc) [] cs.

Definition merge_endpoint_candidate (cs : list EndpointCandidate) (c : EndpointCandidate)
    : list EndpointCandidate :=
  sort_by_priority
    (match list_find (λ current, cand_endpoint current = cand_endpoint c) cs with
     | Some (i, _) => <[i := c]> cs
     | None =>
         if Z.of_nat (length cs) <? ENDPOINT_CANDIDATE_MAX_COUNT then cs ++ [c]
         else <[lowest_priority cs := c]> cs
     end).

(** [PendingHandshake{}]. *)
Definition no_pending : PendingHandshake :=
  mkPendingHs zero32 0 false no_endpoint None false.

(** [std::find_if] over a [std::map]. *)
Definition find_pending_hs (f : PendingHandshake -> bool) (m : gmap NodeId PendingHandshake)
    : option NodeId :=
  fst <$> List.find (λ e, f (snd e)) (entries m).

Definition set_done (done : bool) (p : PendingHandshake) : PendingHandshake :=
  mkPendingHs (ph_peer_id p) (ph_session_id p) done (ph_endpoint p) (ph_cookie p)
    (ph_cookie_updated p).

Definition set_cookie (cookie : option (list byte)) (updated : bool) (p : PendingHandshake)
    : PendingHandshake :=
  mkPendingHs (ph_peer_id p) (ph_session_id p) (ph_done p) (ph_endpoint p) cookie updated.

(** A throttle on a map of times: whether [interval] has passed since the last entry, which
    is then replaced.  A clock that went back lets the attempt pass. *)
Definition throttle (interval : Z) (id : NodeId) (now : Z) (m : gmap NodeId Z)
    : bool * gmap NodeId Z :=
  match m !! id with
  | Some previous =>
      if (previous <=? now) && (now - previous <? interval) then (false, m)
      else (true, <[id := now]> m)
  | None => (true, <[id := now]> m)
  end.

Definition ENDPOINT_BINDING_REFRESH_MS : Z := 30000.
Definition CONNECT_BACKOFF_BASE_MS : Z := 1000.
Definition CONNECT_BACKOFF_CAP_MS : Z := 30000.
Definition REKEY_INTERVAL_MS : Z := 120000.

(** ** Calls *)

(** How the wait of the initiator ends: [break], [continue] after a cookie, or a retry. *)
Inductive WaitResult := WaitOver | WaitCookie | WaitTimedOut.

Inductive call :=
  (* the tunnel itself *)
  | CNow
  | CRunning
  | CRandomU32
  | CRandomU64
  | CCountDrop (d : Drop)
  | CCountUnrouted
  | CNextGossipRound
  | CWritePacket (packet : list byte)
  | CPrintChat (peer : NodeId) (text : list byte)
  | CRequestStop
  (* sessions *)
  | CDecrypt (data : list byte)
  | CGetSession (id : NodeId)
  | CGetSessionById (sid : Z)
  | CEncrypt (peer : NodeId) (type : Z) (plaintext : list byte) (flags : Z)
  | CCreateInit (sid : Z) (peer : NodeId) (key : Key)
  | CInitAdmit (replay_key : list byte) (sid : Z)
  | CCreateResponder (prologue : list byte)
  | CInitArbitrate (replay_key : list byte) (peer : NodeId)
  | CInitInstall (sid : Z) (peer : NodeId) (keys : NoiseIkSplitResult)
  | CRemoveSession (id : NodeId)
  | CPurgeRetired
  | CPurgeIncomplete
  | CPurgeReplays
  (* pending handshakes *)
  | CReserve (peer : NodeId) (sid : Z) (e : Endpoint)
  | CPendingErase (peer : NodeId)
  | CAttempt (peer : NodeId)
  | CAwait (peer : NodeId)
  | CPendingDone (peer : NodeId)
  | CRegister (peer : NodeId)
  | CAwaitDone (peer : NodeId)
  | CHandleResponse (payload : list byte) (sid : Z)
  | CStoreCookie (sid : Z) (sender : Endpoint) (cookie : list byte)
  | CMarkDone (peer : NodeId) (sid : Z)
  | CRekeyDue (peer : NodeId) (now interval : Z)
  (* admission *)
  | CRateAllow (source : Endpoint)
  | CCookieVerify (cookie : list byte) (source : Endpoint) (sid : Z) (frame : list byte)
  | CCookieIssue (source : Endpoint) (sid : Z) (frame : list byte)
  | CQuotaAllow (sender : NodeId) (bytes : Z)
  (* peers *)
  | CUpsert (id : NodeId) (key : Key) (e : option Endpoint) (trust : bool)
  | CMarkSeen (id : NodeId) (e : option Endpoint)
  | CMarkHolePunched (id : NodeId) (e : Endpoint)
  | CMarkConnecting (id : NodeId)
  | CMarkDead (id : NodeId)
  | CUpdateEndpoint (id : NodeId) (e : Endpoint)
  | CSetCandidates (id : NodeId) (cs : list EndpointCandidate)
  | CGetPeer (id : NodeId)
  | CAllPeers
  | CStalePeers
  | CNeedKeepalive
  | CPresences
  (* routes *)
  | CAddRoute (r : Route)
  | CFindRoute (dest : IPAddress)
  | CRemoveRoute (id : NodeId)
  | CExpireRoutes (now : Z)
  | CRoutes
  | CRoutesTo (id : NodeId)
  | CProbeSent (k : ProbeKey) (now : Z)
  | CProbeSuccess (k : ProbeKey) (now rtt : Z)
  | CProbeFailure (k : ProbeKey) (now : Z)
  | CMergeTable (advertised : list AdvertisedPeer) (sender : NodeId) (now : Z)
  (* gossip and revocations *)
  | CPrepare (recipient : NodeId) (current : list AdvertisedPeer) (full : bool)
  | CCommit (recipient : NodeId) (revisions : list (list byte * Z))
  | CRetain (recipients : gset NodeId)
  | CAddRevocation (r : MembershipRevocation)
  | CRevocations
  (* probes, punches and candidates *)
  | CProbeExpire (now : Z)
  | CProbePending (tg : PathProbeTarget)
  | CProbeBegin (id : Z) (tg : PathProbeTarget) (now : Z)
  | CProbeCancel (id : Z)
  | CProbeAcknowledge (id : Z) (responder : NodeId) (sequence now : Z)
  | CPunchExpire (now : Z)
  | CPunchBegin (id : Z) (tg : EndpointPunchTarget) (now : Z)
  | CPunchCancel (id : Z)
  | CPunchAcknowledge (id : Z) (peer : NodeId) (source : Endpoint) (now : Z)
  | CPunchDue (peer : NodeId) (now : Z)
  | CRefreshDue (peer : NodeId) (now : Z)
  | CLocalCandidates
  | CRecordCandidate (c : EndpointCandidate)
  (* packets *)
  | CBuildOnion (path keys : list (list byte)) (packet : list byte)
  | CSend (data : list byte) (dest : Endpoint) (p : SendPriority)
  | CSendIteration
  | CMaxDatagram
  (* files *)
  | CFileHeader (peer : NodeId) (h : FileTransferHeader)
  | CFileChunk (peer : NodeId) (c : FileTransferChunk)
  | CFileAck (peer : NodeId) (a : FileTransferAck)
  | CCancelIncoming (peer : NodeId) (id : Z)
  | CRemoveFile (path : option Path)
  | CCancelOutgoing (peer : NodeId) (id : Z)
  | CCollectExpired
  | CPrepareSend (path : Path)
  | CBeginSend (h : FileTransferHeader) (peers : list FilePeer)
  | CSendRound (path : Path) (s : FileSend)
  | CEraseTransfers (keys : list FileTransferKey).

(** What a call returns. *)
Definition result (c : call) : Type :=
  match c with
  | CNow | CNextGossipRound | CMaxDatagram => Z
  | CRunning | CWritePacket _ | CInitAdmit _ _ | CInitArbitrate _ _ | CInitInstall _ _ _
  | CReserve _ _ _ | CPendingDone _ | CAwaitDone _ | CRekeyDue _ _ _ | CRateAllow _
  | CCookieVerify _ _ _ _ | CAddRoute _ | CProbeSent _ _ | CAddRevocation _
  | CProbePending _ | CProbeBegin _ _ _ | CPunchBegin _ _ _ | CPunchDue _ _
  | CRefreshDue _ _ | CSend _ _ _ => bool
  | CRandomU32 | CRandomU64 => option Z
  | CDecrypt _ => option (option DecryptedMessage)
  | CGetSession _ | CGetSessionById _ => option SessionSnapshot
  | CEncrypt _ _ _ _ | CCreateInit _ _ _ | CCookieIssue _ _ _ | CBuildOnion _ _ _ =>
      option (list byte)
  | CCreateResponder _ => option NoiseIkHandshake
  | CAttempt _ => option PendingHandshake
  | CAwait _ => WaitResult
  | CQuotaAllow _ _ => RelayQuotaResult
  | CUpsert _ _ _ _ => PeerUpsertResult
  | CGetPeer _ => option Peer
  | CAllPeers | CStalePeers | CNeedKeepalive => list Peer
  | CPresences => list (NodeId * Presence)
  | CFindRoute _ => option Route
  | CRoutes | CRoutesTo _ => list Route
  | CMergeTable _ _ _ => PeerTableMergeStats
  | CPrepare _ _ _ => list GossipUpdate
  | CRevocations => list MembershipRevocation
  | CProbeExpire _ => list PathProbeTarget
  | CProbeAcknowledge _ _ _ _ => option PathProbeObservation
  | CPunchAcknowledge _ _ _ _ => option EndpointPunchTarget
  | CLocalCandidates => list EndpointCandidate
  | CSendIteration => option (list byte * SockAddr)
  | CFileHeader _ _ | CFileChunk _ _ => FileReply
  | CCancelIncoming _ _ => option Path
  | CCollectExpired => list (FileTransferKey * option Path)
  | CPrepareSend _ => option FileTransferHeader
  | CBeginSend _ _ => option FileSend
  | CSendRound _ _ => list (FilePeer * FileMessage) * FileSend
  | CCountDrop _ | CCountUnrouted | CPrintChat _ _ | CRequestStop | CRemoveSession _
  | CPurgeRetired | CPurgeIncomplete | CPurgeReplays | CPendingErase _ | CRegister _
  | CHandleResponse _ _ | CStoreCookie _ _ _ | CMarkDone _ _ | CMarkSeen _ _
  | CMarkHolePunched _ _ | CMarkConnecting _ | CMarkDead _ | CUpdateEndpoint _ _
  | CSetCandidates _ _ | CRemoveRoute _ | CExpireRoutes _ | CProbeSuccess _ _ _
  | CProbeFailure _ _ | CCommit _ _ | CRetain _ | CProbeCancel _ | CPunchExpire _
  | CPunchCancel _ | CRecordCandidate _ | CFileAck _ _ | CRemoveFile _
  | CCancelOutgoing _ _ | CEraseTransfers _ => unit
  end.

(** ** Execution *)

Context (cfg : TunnelConfig).

Definition env : SessionEnv := session_env cfg.
Definition self_id : NodeId := Identity.node_id (identity env).

(** The [k]-th clock read of a call, and the state after [k] reads. *)
Definition clock_at (k : nat) (n : Node) : Z := host_clock (nd_ticks n + k).
Definition after (k : nat) (n : Node) : Node := put_ticks (nd_ticks n + k) n.

(** Calls of one component: read the clock once, replace the component. *)
Definition on_sessions (m : SessionManager) (k : nat) (n : Node) : Node :=
  put_sessions m (after k n).
Definition on_peers (f : Z -> PeerManager -> PeerManager) (n : Node) : unit * Node :=
  (tt, put_peers (f (clock_at 0 n) (nd_peers n)) (after 1 n)).
Definition on_pending {A} (f : gmap NodeId PendingHandshake -> A * gmap NodeId PendingHandshake)
    (n : Node) : A * Node :=
  let '(a, m) := f (nd_pending n) in (a, put_pending m n).
Definition on_routing {A} (f : RoutingEngine -> A * RoutingEngine) (n : Node) : A * Node :=
  let '(a, e) := f (nd_routing n) in (a, put_routing e n).
Definition on_files {A} (f : Z -> FileIo -> FileNode -> A * FileNode) (n : Node) : A * Node :=
  let '(a, fs) := f (clock_at 0 n) (host_files (nd_ticks n)) (nd_files n) in
  (a, put_files fs (after 1 n)).

(** [operator[]]: the entry of a map, inserted when it is missing. *)
Definition pending_at (id : NodeId) (m : gmap NodeId PendingHandshake)
    : PendingHandshake * gmap NodeId PendingHandshake :=
  let p := default no_pending (m !! id) in (p, <[id := p]> m).

Definition unit_of {A S} (x : A * S) : unit * S := (tt, snd x).

Definition exec_handshake (payload : list byte) (sid : Z) (n : Node) : Node :=
  match find_pending_hs (λ p, ph_session_id p =? sid) (nd_pending n) with
  | None => n
  | Some id =>
      let '(ok, m) := handle_handshake_resp env payload sid (clock_at 0 n) (clock_at 1 n)
                        (clock_at 2 n) (nd_sessions n) in
      let n := on_sessions m 3 n in
      if ok then put_pending (alter (set_done true) id (nd_pending n)) n else n
  end.

Definition exec (c : call) : Node -> result c * Node :=
  match c as c return Node -> result c * Node with
  | CNow => λ n, (clock_at 0 n, after 1 n)
  | CRunning => λ n, (nd_running n, n)
  | CRandomU32 => λ n, let '(x, r) := random_u32 (nd_rng n) in (x, put_rng r n)
  | CRandomU64 => λ n, let '(x, r) := random_u64 (nd_rng n) in (x, put_rng r n)
  | CCountDrop d => λ n, (tt, put_drops (count_drop d (nd_drops n)) n)
  | CCountUnrouted => λ n, (tt, put_unrouted (wrap 32 (nd_unrouted n + 1)) n)
  | CNextGossipRound => λ n,
      let round := wrap 64 (nd_gossip_round n + 1) in (round, put_gossip_round round n)
  | CWritePacket p => λ n,
      if host_adapter p then (true, put_adapter (p :: nd_adapter n) n) else (false, n)
  | CPrintChat peer text => λ n, (tt, put_console ((peer, text) :: nd_console n) n)
  | CRequestStop => λ n, (tt, put_stop_requested true n)
  | CDecrypt data => λ n,
      match decrypt_message data (nd_sessions n) with
      | None => (None, n)
      | Some (out, m) => (Some out, put_sessions m n)
      end
  | CGetSession id => λ n, (get_session (nd_sessions n) id, n)
  | CGetSessionById sid => λ n, (get_session_by_id (nd_sessions n) sid, n)
  | CEncrypt peer type plaintext flags => λ n,
      let '(out, m, r) := encrypt_message env peer type plaintext flags (nd_sessions n)
                            (nd_rng n) in
      (out, put_rng r (put_sessions m n))
  | CCreateInit sid peer key => λ n,
      let '(out, m, r) := create_handshake_init env sid peer key (clock_at 0 n)
                            (nd_sessions n) (nd_rng n) in
      (out, put_rng r (on_sessions m 1 n))
  | CInitAdmit key sid => λ n,
      let '(ok, m) := init_admit key sid (clock_at 0 n) (nd_sessions n) in
      (ok, on_sessions m 1 n)
  | CCreateResponder prologue => λ n,
      let '(hs, r) := create_responder (private_key (keypair (identity env))) prologue
                        (nd_rng n) in
      (hs, put_rng r n)
  | CInitArbitrate key peer => λ n,
      let '(ok, m) := init_arbitrate env key peer (clock_at 0 n) (nd_sessions n) in
      (ok, on_sessions m 1 n)
  | CInitInstall sid peer keys => λ n,
      let '(ok, m) := init_install env sid peer keys (clock_at 0 n) (clock_at 1 n)
                        (clock_at 2 n) (nd_sessions n) in
      (ok, on_sessions m 3 n)
  | CRemoveSession id => λ n, (tt, put_sessions (remove_session id (nd_sessions n)) n)
  | CPurgeRetired => λ n, (tt, on_sessions (purge_retired (clock_at 0 n) (nd_sessions n)) 1 n)
  | CPurgeIncomplete => λ n,
      (tt, on_sessions (purge_incomplete_handshakes (clock_at 0 n) (nd_sessions n)) 1 n)
  | CPurgeReplays => λ n,
      (tt, on_sessions (purge_handshake_replays (clock_at 0 n) (nd_sessions n)) 1 n)
  | CReserve peer sid e => on_pending (λ m,
      if existsb (λ x, ph_session_id (snd x) =? sid) (map_to_list m) then (false, m)
      else (true, <[peer := mkPendingHs peer sid false e None false]> m))
  | CPendingErase peer => on_pending (λ m, (tt, delete peer m))
  | CAttempt peer => on_pending (λ m,
      (m !! peer, alter (λ p, set_cookie (ph_cookie p) false p) peer m))
  | CAwait peer => λ n,
      if negb (nd_running n) then (WaitOver, n)
      else on_pending (λ m,
        let '(p, m) := pending_at peer m in
        (if ph_done p then WaitOver else if ph_cookie_updated p then WaitCookie
         else WaitTimedOut, m)) n
  | CPendingDone peer => on_pending (λ m, let '(p, m) := pending_at peer m in (ph_done p, m))
  | CRegister peer => on_pending (λ m,
      (tt, if contains m peer then alter (set_done false) peer m
           else <[peer := mkPendingHs peer 0 false no_endpoint None false]> m))
  | CAwaitDone peer => λ n,
      if negb (nd_running n) then (true, n)
      else on_pending (λ m, let '(p, m) := pending_at peer m in (ph_done p, m)) n
  | CHandleResponse payload sid => λ n, (tt, exec_handshake payload sid n)
  | CStoreCookie sid sender cookie => on_pending (λ m,
      (tt, match find_pending_hs (λ p, (ph_session_id p =? sid) &&
                   bool_decide (ph_endpoint p = sender) && negb (ph_done p)) m with
           | None => m
           | Some id => alter (set_cookie (Some cookie) true) id m
           end))
  | CMarkDone peer sid => on_pending (λ m,
      (tt, <[peer := mkPendingHs peer sid true no_endpoint None false]> m))
  | CRekeyDue peer now interval => λ n,
      match nd_rekeys n !! peer with
      | Some attempt =>
          if now - attempt <? interval then (false, n)
          else (true, put_rekeys (<[peer := now]> (nd_rekeys n)) n)
      | None => (true, put_rekeys (<[peer := now]> (nd_rekeys n)) n)
      end
  | CRateAllow source => λ n,
      let '(ok, r) := allow source (clock_at 0 n) (nd_rate n) in (ok, put_rate r (after 1 n))
  | CCookieVerify cookie source sid frame => λ n,
      let '(ok, m, r) := verify cookie source sid frame (clock_at 0 n) (nd_cookies n)
                           (nd_rng n) in
      (ok, put_rng r (put_cookies m (after 1 n)))
  | CCookieIssue source sid frame => λ n,
      let '(out, m, r) := issue source sid frame (clock_at 0 n) (nd_cookies n) (nd_rng n) in
      (out, put_rng r (put_cookies m (after 1 n)))
  | CQuotaAllow sender bytes => λ n,
      let '(out, l) := relay_allow sender bytes (clock_at 0 n) (nd_quota n) in
      (out, put_quota l (after 1 n))
  | CUpsert id key e trust => λ n,
      let '(out, pm) := upsert id key e trust (clock_at 0 n) (nd_peers n) in
      (out, put_peers pm (after 1 n))
  | CMarkSeen id e => on_peers (mark_seen id e)
  | CMarkHolePunched id e => on_peers (mark_hole_punched id e)
  | CMarkConnecting id => on_peers (λ _, mark_connecting id)
  | CMarkDead id => on_peers (λ _, mark_dead id)
  | CUpdateEndpoint id e => on_peers (update_endpoint id e)
  | CSetCandidates id cs => on_peers (λ _ pm, snd (set_endpoint_candidates id cs pm))
  | CGetPeer id => λ n, (get_peer id (nd_peers n), n)
  | CAllPeers => λ n, (all_peers (nd_peers n), n)
  | CStalePeers => λ n, (stale_peers (clock_at 0 n) (nd_peers n), after 1 n)
  | CNeedKeepalive => λ n, (peers_needing_keepalive (clock_at 0 n) (nd_peers n), after 1 n)
  | CPresences => λ n, (entries (nd_presences n), n)
  | CAddRoute r => on_routing (add_route r)
  | CFindRoute dest => λ n, (find_route dest (nd_routing n), n)
  | CRemoveRoute id => on_routing (λ e, (tt, remove_route id e))
  | CExpireRoutes now => on_routing (λ e, unit_of (expire_learned_routes now e))
  | CRoutes => λ n, (routes (nd_routing n), n)
  | CRoutesTo id => λ n, (routes_to id (nd_routing n), n)
  | CProbeSent k now => on_routing (mark_probe_sent k now)
  | CProbeSuccess k now rtt => on_routing (λ e, unit_of (record_probe_success k now rtt e))
  | CProbeFailure k now => on_routing (λ e, unit_of (record_probe_failure k now e))
  | CMergeTable advertised sender now => λ n,
      let '(pm, e, stats) := merge_peer_table self_id sender now (λ i, clock_at i n) advertised
                               (nd_peers n) (nd_routing n) in
      (stats, put_routing e (put_peers pm (after (length advertised) n)))
  | CPrepare recipient current full => λ n,
      let '(us, t) := prepare recipient current full (nd_gossip n) in (us, put_gossip t n)
  | CCommit recipient revisions => λ n,
      (tt, put_gossip (commit recipient revisions (nd_gossip n)) n)
  | CRetain recipients => λ n, (tt, put_gossip (retain_recipients recipients (nd_gossip n)) n)
  | CAddRevocation r => λ n,
      let '(added, l) := add_revocation r (nd_revocations n) in (added, put_revocations l n)
  | CRevocations => λ n, (nd_revocations n, n)
  | CProbeExpire now => λ n,
      let '(l, t) := probe_expire now (nd_probes n) in (l, put_probes t n)
  | CProbePending tg => λ n, (probe_contains_target tg (nd_probes n), n)
  | CProbeBegin id tg now => λ n,
      let '(ok, t) := probe_begin id tg now (nd_probes n) in (ok, put_probes t n)
  | CProbeCancel id => λ n, (tt, put_probes (probe_cancel id (nd_probes n)) n)
  | CProbeAcknowledge id responder sequence now => λ n,
      let '(o, t) := probe_acknowledge id responder sequence now (nd_probes n) in
      (o, put_probes t n)
  | CPunchExpire now => λ n, (tt, put_punches (snd (punch_expire now (nd_punches n))) n)
  | CPunchBegin id tg now => λ n,
      let '(ok, t) := punch_begin id tg now (nd_punches n) in (ok, put_punches t n)
  | CPunchCancel id => λ n, (tt, put_punches (punch_cancel id (nd_punches n)) n)
  | CPunchAcknowledge id peer source now => λ n,
      let '(o, t) := punch_acknowledge id peer source now (nd_punches n) in
      (o, put_punches t n)
  | CPunchDue peer now => λ n,
      let '(ok, m) := throttle (secs 30) peer now (nd_punch_attempts n) in
      (ok, put_punch_attempts m n)
  | CRefreshDue peer now => λ n,
      let '(ok, m) := throttle (ms ENDPOINT_BINDING_REFRESH_MS) peer now (nd_refreshes n) in
      (ok, put_refreshes m n)
  | CLocalCandidates => λ n, (nd_candidates n, n)
  | CRecordCandidate c => λ n,
      (tt, if negb (valid_endpoint_candidate c) then n
           else put_candidates (merge_endpoint_candidate (nd_candidates n) c) n)
  | CBuildOnion path keys packet => λ n,
      let '(out, counter) := build_onion (private_key (keypair (identity env))) path keys
                               packet (nd_onion_counter n) in
      (out, put_onion_counter counter n)
  | CSend data dest p => λ n,
      let '(ok, t) := transport_send data dest p (nd_transport n) in (ok, put_transport t n)
  | CSendIteration => λ n,
      let '(out, t) := send_iteration (nd_transport n) in (out, put_transport t n)
  | CMaxDatagram => λ n, (max_datagram_size (nd_transport n), n)
  | CFileHeader peer h => on_files (λ now io, receive_file_header io peer h now)
  | CFileChunk peer c => on_files (λ now io, receive_file_chunk io peer c now)
  | CFileAck peer a => on_files (λ now _ fs, (tt, receive_file_ack peer a now fs))
  | CCancelIncoming peer id => on_files (λ _ _, cancel_incoming (peer, id))
  | CRemoveFile path => λ n,
      (tt, put_files (remove_file (host_removes (nd_ticks n)) path (nd_files n)) (after 1 n))
  | CCancelOutgoing peer id => on_files (λ _ _ fs, (tt, cancel_outgoing (peer, id) fs))
  | CCollectExpired => on_files (λ now _, collect_expired now)
  | CPrepareSend path => λ n,
      let '(h, r) := prepare_send (host_files (nd_ticks n)) (files (nd_files n)) path
                       (overlay_mtu cfg) (nd_rng n) in
      (h, put_rng r (after 1 n))
  | CBeginSend h peers => on_files (λ now _, begin_send h peers now)
  | CSendRound path s => on_files (λ now _ fs,
      let '(msgs, s, fs) := send_round (default [] (files fs !! path)) now s fs in
      ((msgs, s), fs))
  | CEraseTransfers keys => on_files (λ _ _ fs,
      (tt, set_outgoing (foldl (λ out key, delete key out) (outgoing_transfers fs) keys) fs))
  end.

(** ** Programs *)

(** The code of a thread: a result, an exception nothing catches, or a call and what
    follows it. *)
Inductive prog (A : Type) : Type :=
  | Ret (a : A)
  | Throw
  | Do (c : call) (k : result c -> prog A).
#[global] Arguments Ret {A} a.
#[global] Arguments Throw {A}.
#[global] Arguments Do {A} c k.

Fixpoint prog_bind {A B} (p : prog A) (f : A -> prog B) : prog B :=
  match p with
  | Ret a => f a
  | Throw => Throw
  | Do c k => Do c (λ x, prog_bind (k x) f)
  end.

Definition op (c : call) : prog (result c) := Do c Ret.

(** Executed alone: the result, [None] after an exception, and the state. *)
Fixpoint run {A} (p : prog A) (n : Node) : option A * Node :=
  match p with
  | Ret a => (Some a, n)
  | Throw => (None, n)
  | Do c k => let '(x, n) := exec c n in run (k x) n
  end.

(** The body of a [for] loop in order. *)
Fixpoint for_each {X} (body : X -> prog unit) (l : list X) : prog unit :=
  match l with
  | [] => Ret tt
  | x :: l => prog_bind (body x) (λ _, for_each body l)
  end.

(** A loop whose body says whether to go on. *)
Fixpoint for_while {X} (body : X -> prog bool) (l : list X) : prog unit :=
  match l with
  | [] => Ret tt
  | x :: l => prog_bind (body x) (λ go, if (go : bool) then for_while body l else Ret tt)
  end.

End node.

(** [x <- p ;; k] in a scope of its own. *)
Declare Scope prog_scope.
Delimit Scope prog_scope with prog.
Bind Scope prog_scope with prog.
Notation "x <- p ;; k" := (prog_bind p (λ x, k%prog))
  (at level 100, p at next level, right associativity) : prog_scope.
Notation "p ;;; k" := (prog_bind p (λ _, k%prog))
  (at level 100, right associativity) : prog_scope.
