(* ===== verification/Tunnel.v ===== *)
(** * The tunnel: what the threads of a node do ([src/tunnel/tunnel.cpp])

    The receive callback with its handlers, the body of every loop (packets, gossip,
    maintenance, connecting, sending a file) and the operations of the user, as programs
    over the calls of [Node].  Logging and printing are left out, except for the chat. *)

From Stdlib Require Import ZArith Lia Bool.
From Stdlib.Strings Require Import Byte.
From stdpp Require Import base numbers gmap option list.
From S2P Require Import Prelude Wire Packet Replay Crypto Identity Revocation HandshakeV2 NoiseIk.
From S2P Require Import Session IpAddress Endpoint Discovery Probe Admission Routing Onion.
From S2P Require Import RelayLimiter SendQueue Transport Peer PeerTable Gossip.
From S2P Require Import FileMsg FileTransfer FileNode Node.

Definition PATH_PROBE_MAX_PENDING : Z := 256.
Definition ENDPOINT_PUNCH_MAX_PENDING : Z := 256.

Section tunnel.
Context `{OpenSSL, RandomSource, NoiseC, Machine}.
Context (cfg : TunnelConfig).

#[local] Open Scope prog_scope.
#[local] Notation self := (self_id cfg).
#[local] Notation bucket := (padding_bucket_size (env cfg)).

(** ** Shared steps *)

Definition session_established (id : NodeId) : prog bool :=
  s <- op (CGetSession id);; Ret (bool_decide (is_Some s)).

(** [decrypt_message] may throw. *)
Definition decrypt (data : list byte) : prog (option DecryptedMessage) :=
  r <- op (CDecrypt data);; match r with None => Throw | Some m => Ret m end.

(** Encrypt a payload for a peer and queue the frame: [frame && transport_.send(...)]. *)
Definition send_message (peer : NodeId) (type : Z) (payload : list byte) (flags : Z)
    (dest : Endpoint) (p : SendPriority) : prog bool :=
  frame <- op (CEncrypt peer type payload flags);;
  match frame with
  | None => Ret false
  | Some frame => op (CSend frame dest p)
  end.

(** The same without a use of the result. *)
Definition post_message (peer : NodeId) (type : Z) (payload : list byte) (flags : Z)
    (dest : Endpoint) (p : SendPriority) : prog unit :=
  send_message peer type payload flags dest p ;;; Ret tt.

Definition when_running (p : prog unit) : prog unit :=
  running <- op CRunning;; if running then p else Ret tt.

(** The handlers of session frames: decrypt, decode, then the session the frame belongs to.
    [k] gets what was decoded and the peer. *)
Definition with_session {X} (data : list byte) (sid : Z) (decode : DecryptedMessage -> option X)
    (k : X -> NodeId -> prog unit) : prog unit :=
  msg <- decrypt data;;
  match msg ≫= decode with
  | None => Ret tt
  | Some x =>
      s <- op (CGetSessionById sid);;
      match s with None => Ret tt | Some s => k x (snap_peer_id s) end
  end.

(** Decoders that check the type of the message first. *)
Definition typed {X} (type : Z) (decode : list byte -> option X) (m : DecryptedMessage)
    : option X :=
  if dm_packet_type m =? type then decode (dm_payload m) else None.

Definition packet_fits_route (packet_size route_depth : Z) : prog bool :=
  match safe_overlay_mtu (underlay_mtu cfg) route_depth bucket with
  | Some mtu => if packet_size <=? mtu then Ret true else op (CCountDrop OversizeOutbound) ;;; Ret false
  | None => op (CCountDrop OversizeOutbound) ;;; Ret false
  end.

Definition inject_inner_packet (packet : list byte) : prog bool :=
  match validate_inner_ipv4_packet (Some packet) (Z.of_nat (length packet)) (overlay_mtu cfg) with
  | Packet.Valid => op (CWritePacket packet)
  | Packet.Oversize => op (CCountDrop OversizeInbound) ;;; Ret false
  | Packet.Invalid => op (CCountDrop InvalidInbound) ;;; Ret false
  end.

(** ** Endpoint candidates and punching *)

Definition send_endpoint_candidate_update (peer_id : NodeId) (update : EndpointCandidateMessage)
    : prog unit :=
  peer <- op (CGetPeer peer_id);;
  match peer ≫= Peer.endpoint with
  | None => Ret tt
  | Some e =>
      up <- session_established peer_id;;
      if negb up then Ret tt
      else match serialize_endpoint_candidates update with
           | None => Ret tt
           | Some payload => post_message peer_id TYPE_ENDPOINT_CANDIDATES payload 0 e Control
           end
  end.

Definition announce_endpoint_candidates (peer_id : NodeId) (observed_peer : Endpoint)
    : prog unit :=
  local <- op CLocalCandidates;;
  (match local with
   | [] => Ret tt
   | _ => send_endpoint_candidate_update peer_id (mkCandidates self local)
   end) ;;;
  let observed := mkCandidate PeerObserved observed_peer 400 in
  if valid_endpoint_candidate observed
  then send_endpoint_candidate_update peer_id (mkCandidates peer_id [observed]) else Ret tt.

Definition send_endpoint_punch (peer_id : NodeId) (e : Endpoint) (m : EndpointPunchMessage)
    : prog bool :=
  match serialize_endpoint_punch m with
  | None => Ret false
  | Some payload => send_message peer_id TYPE_ENDPOINT_PUNCH payload 0 e Control
  end.

(** The loop that draws an identifier until [begin] takes it: zero when none is. *)
Fixpoint draw_id (attempts : nat) (begin : Z -> prog bool) : prog Z :=
  match attempts with
  | O => Ret 0
  | S attempts =>
      x <- op CRandomU64;;
      match x with
      | None => draw_id attempts begin
      | Some x =>
          if x =? 0 then draw_id attempts begin
          else ok <- begin x;; if ok then Ret x else draw_id attempts begin
      end
  end.

Definition punch_candidate (peer_id : NodeId) (now : Z) (c : EndpointCandidate) : prog unit :=
  id <- draw_id 8 (λ x, op (CPunchBegin x (mkPunchTarget peer_id (cand_endpoint c)) now));;
  if id =? 0 then Ret tt
  else
    sent <- send_endpoint_punch peer_id (cand_endpoint c) (mkPunch Challenge id);;
    if sent then Ret tt else op (CPunchCancel id).

(** The candidates to challenge: those announced, and the active endpoint. *)
Definition punch_targets (p : Peer) : list EndpointCandidate :=
  match Peer.endpoint p with
  | Some e =>
      if existsb (λ c, bool_decide (cand_endpoint c = e)) (Peer.endpoint_candidates p)
      then Peer.endpoint_candidates p
      else Peer.endpoint_candidates p ++ [mkCandidate PeerObserved e 500]
  | None => Peer.endpoint_candidates p
  end.

Definition begin_endpoint_punching (peer_id : NodeId) : prog unit :=
  up <- session_established peer_id;;
  if negb up then Ret tt
  else
    peer <- op (CGetPeer peer_id);;
    match peer with
    | None => Ret tt
    | Some peer =>
        now <- op CNow;;
        due <- op (CPunchDue peer_id now);;
        if due then for_each (punch_candidate peer_id now) (punch_targets peer) else Ret tt
    end.

Definition refresh_binding (now : Z) (peer : Peer) : prog unit :=
  if negb (bool_decide (Peer.state peer = Established)) then Ret tt
  else
    up <- session_established (Peer.node_id peer);;
    if negb up then Ret tt
    else
      due <- op (CRefreshDue (Peer.node_id peer) now);;
      if negb due then Ret tt
      else
        begin_endpoint_punching (Peer.node_id peer) ;;;
        match Peer.endpoint peer with
        | Some e => announce_endpoint_candidates (Peer.node_id peer) e
        | None => Ret tt
        end.

Definition refresh_endpoint_bindings : prog unit :=
  now <- op CNow;; ps <- op CAllPeers;; for_each (refresh_binding now) ps.

(** ** Gossip *)

Definition ROUTE_DEFAULT_LEASE : Z := 90.

(** The lease left of a route: a learned one ages since it was validated. *)
Definition remaining_lease (now : Z) (r : Route) : Z :=
  if bool_decide (Routing.type r = Relay) && negb (validated_at r =? 0) then
    let elapsed := Z.quot (now - validated_at r) (secs 1) in
    if 0 <? elapsed then lease r - elapsed else lease r
  else lease r.

Definition advertised_prefix (now : Z) (r : Route) : AdvertisedPrefix :=
  mkAdvPrefix (Routing.prefix r) (wrap 8 (Routing.prefix_length r)) (Routing.sequence_number r)
    (wrap 32 (remaining_lease now r)) (metric r).

(** The entry for one peer: the prefixes of its live routes, and the first path. *)
Definition advertise_peer (now : Z) (rs : list Route) (p : Peer) : AdvertisedPeer :=
  let live := filter (λ r, Routing.destination r = Peer.node_id p /\
                           learned_route_lease_expired r now = false) rs in
  mkAdvPeer (Peer.node_id p) (Peer.public_key p)
    (foldl (λ path r, match path with [] => Routing.path r | _ => path end) [] live)
    (advertised_prefix now <$> live).

Definition self_advertisement : AdvertisedPeer :=
  mkAdvPeer self (Identity.public_key (keypair (identity (env cfg)))) []
    [mkAdvPrefix (prefix_address (make_prefix (overlay_address cfg) (overlay_prefix cfg)))
       (overlay_prefix cfg) 1 ROUTE_DEFAULT_LEASE 0].

Definition build_advertised_peers : prog (list AdvertisedPeer) :=
  now <- op CNow;;
  rs <- op CRoutes;;
  ps <- op CAllPeers;;
  Ret (self_advertisement ::
       (advertise_peer now rs <$> filter (λ p, Peer.node_id p <> self) ps)).

Definition send_batch (to_peer : NodeId) (e : Endpoint) (batch : GossipBatch) : prog bool :=
  match serialize_peer_table (batch_peers batch) with
  | None => Ret false
  | Some payload =>
      sent <- send_message to_peer TYPE_PEER_TABLE payload 0 e Data;;
      if sent then op (CCommit to_peer (completed_revisions batch)) ;;; Ret true else Ret false
  end.

Definition send_peer_table (to_peer : NodeId) (force_full : bool) : prog unit :=
  peer <- op (CGetPeer to_peer);;
  match peer ≫= Peer.endpoint with
  | None => Ret tt
  | Some e =>
      advertised <- build_advertised_peers;;
      updates <- op (CPrepare to_peer advertised force_full);;
      match updates with
      | [] => Ret tt
      | _ =>
          max <- op CMaxDatagram;;
          let max_payload_bytes :=
            if session_frame_overhead bucket <? max then max - session_frame_overhead bucket
            else 0 in
          for_while (send_batch to_peer e) (make_gossip_batches updates max_payload_bytes)
      end
  end.

Definition announce_peer_table (exclude : option NodeId) (force_full : bool) : prog unit :=
  ps <- op CAllPeers;;
  op (CRetain (list_to_set (Peer.node_id <$> ps))) ;;;
  for_each (λ p,
    if bool_decide (exclude = Some (Peer.node_id p)) then Ret tt
    else
      up <- session_established (Peer.node_id p);;
      if up then send_peer_table (Peer.node_id p) force_full else Ret tt) ps.

Definition handle_peer_table (sender : NodeId) (data : list byte) : prog unit :=
  match deserialize_peer_table data with
  | None => Ret tt
  | Some advertised =>
      now <- op CNow;;
      stats <- op (CMergeTable advertised sender now);;
      if stats_changed stats then announce_peer_table (Some sender) false else Ret tt
  end.

(** ** Membership revocations *)

(** A revocation this node keeps: of its own network, by the issuer it trusts. *)
Definition local_revocation (r : MembershipRevocation) : bool :=
  bool_decide (rv_network_id r = Identity.network_id (identity (env cfg))) &&
  bool_decide (trusted_membership_issuer cfg = Some (issuer_signing_public_key r)).

Definition revocation_batches (rs : list MembershipRevocation) : list (list MembershipRevocation) :=
  (λ i, take 16 (drop (16 * i) rs)) <$> seq 0 ((length rs + 15) / 16).

Definition announce_membership_revocations (exclude : option NodeId) : prog unit :=
  stored <- op CRevocations;;
  match filter (λ r, local_revocation r = true) stored with
  | [] => Ret tt
  | local =>
      ps <- op CAllPeers;;
      for_each (λ p,
        match Peer.endpoint p with
        | None => Ret tt
        | Some e =>
            if bool_decide (exclude = Some (Peer.node_id p)) then Ret tt
            else
              up <- session_established (Peer.node_id p);;
              if negb up then Ret tt
              else for_while (λ batch,
                match serialize_membership_revocations batch with
                | None => Ret false
                | Some payload =>
                    send_message (Peer.node_id p) TYPE_MEMBERSHIP_REVOCATION payload 0 e Data
                end) (revocation_batches local)
        end) ps
  end.

(** The loop over the received records: whether one of them was new. *)
Fixpoint add_revocations (rs : list MembershipRevocation) : prog bool :=
  match rs with
  | [] => Ret false
  | r :: rs =>
      if local_revocation r then
        added <- op (CAddRevocation r);; rest <- add_revocations rs;; Ret (added || rest)
      else add_revocations rs
  end.

Definition add_membership_revocation (r : MembershipRevocation) : prog bool :=
  if negb (local_revocation r) then Ret false
  else
    added <- op (CAddRevocation r);;
    if added then announce_membership_revocations None ;;; Ret true else Ret false.

(** ** Relaying and path probes *)

(** The public keys of the hops, while they are known. *)
Fixpoint hop_keys (hops : list NodeId) : prog (option (list Key)) :=
  match hops with
  | [] => Ret (Some [])
  | hop :: hops =>
      peer <- op (CGetPeer hop);;
      match peer with
      | None => Ret None
      | Some peer =>
          rest <- hop_keys hops;; Ret (cons (Peer.public_key peer) <$> rest)
      end
  end.

(** A probe along a route, and whether it was queued. *)
Definition send_path_probe (route : Route) (probe : PathProbeMessage) : prog bool :=
  match serialize_path_probe probe with
  | None => Ret false
  | Some encoded =>
      match Routing.type route with
      | Direct =>
          peer <- op (CGetPeer (Routing.destination route));;
          match peer ≫= Peer.endpoint with
          | None => Ret false
          | Some e => send_message (Routing.destination route) TYPE_PATH_PROBE encoded 0 e Control
          end
      | Relay =>
          if Nat.eqb (length (Routing.path route)) 0 ||
             (max_relay_depth cfg <? Z.of_nat (length (Routing.path route))) then Ret false
          else
            keys <- hop_keys (Routing.path route);;
            match keys with
            | None => Ret false
            | Some keys =>
                onion <- op (CBuildOnion (Routing.path route) keys encoded);;
                match onion with
                | None => Ret false
                | Some onion =>
                    first <- op (CGetPeer (Routing.next_hop route));;
                    match first ≫= Peer.endpoint with
                    | None => Ret false
                    | Some e =>
                        send_message (Routing.next_hop route) TYPE_RELAY
                          (relay_payload self RELAY_CONTENT_PATH_PROBE onion) FLAG_RELAY e Control
                    end
                end
            end
      | Unknown => Ret false
      end
  end.

(** The comparison of [handle_path_probe]: direct routes first, then short paths. *)
Definition probe_before (left right : Route) : bool :=
  if negb (bool_decide (Routing.type left = Routing.type right))
  then bool_decide (Routing.type left = Direct)
  else Nat.ltb (length (Routing.path left)) (length (Routing.path right)).

Definition probe_key (t : PathProbeTarget) : ProbeKey :=
  mkProbeKey (Probe.destination t) (Probe.next_hop t) (Probe.prefix t) (Probe.prefix_length t)
    (Probe.route_sequence t).

Definition handle_path_probe (source : NodeId) (probe : PathProbeMessage) : prog unit :=
  if bool_decide (probe_kind probe = Response) then
    now <- op CNow;;
    seen <- op (CProbeAcknowledge (probe_id probe) source (probe_route_sequence probe) now);;
    match seen with
    | None => Ret tt
    | Some o =>
        now <- op CNow;;
        op (CProbeSuccess (probe_key (observed_target o)) now (Probe.rtt o))
    end
  else
    all <- op (CRoutesTo source);;
    now <- op CNow;;
    match min_element probe_before
            (filter (λ r, learned_route_lease_expired r now || probe_failed r = false) all) with
    | None => Ret tt
    | Some best =>
        send_path_probe best (mkProbe Response (probe_id probe) (probe_route_sequence probe)) ;;;
        Ret tt
    end.

Definition PATH_PROBE_INTERVAL : Z := 30.

(** Whether a route is to be probed now. *)
Definition probe_due (now : Z) (r : Route) : bool :=
  negb (learned_route_lease_expired r now) &&
  negb (probe_failed r && match probe_hold_down_until r with
                          | Some t => now <? t | None => false end) &&
  negb (match last_probe_sent_at r with
        | Some t => (t <=? now) && (now - t <? secs PATH_PROBE_INTERVAL)
        | None => false
        end).

Definition target_of (r : Route) : PathProbeTarget :=
  mkProbeTarget (Routing.destination r) (Routing.next_hop r) (Routing.prefix r)
    (Routing.prefix_length r) (Routing.sequence_number r).

Definition probe_route (now : Z) (r : Route) : prog unit :=
  if negb (probe_due now r) then Ret tt
  else
    pending <- op (CProbePending (target_of r));;
    if pending then Ret tt
    else
      id <- draw_id 8 (λ x, op (CProbeBegin x (target_of r) now));;
      if id =? 0 then Ret tt
      else
        sent <- send_path_probe r (mkProbe Challenge id (Routing.sequence_number r));;
        if sent then
          marked <- op (CProbeSent (probe_key (target_of r)) now);;
          if marked then Ret tt else op (CProbeCancel id)
        else op (CProbeCancel id).

Definition probe_due_routes : prog unit :=
  now <- op CNow;;
  expired <- op (CProbeExpire now);;
  for_each (λ t, op (CProbeFailure (probe_key t) now)) expired ;;;
  rs <- op CRoutes;;
  for_each (probe_route now) rs.

(** Forward the inner layer of an onion to the next hop, within the quota of the peer the
    frame came from. *)
Definition forward_onion (sender source : NodeId) (content_type : Z) (peeled : PeeledOnion)
    : prog unit :=
  let next := Onion.next_hop peeled in
  if bool_decide (next = self) then Ret tt
  else
    nh <- op (CGetPeer next);;
    match nh ≫= Peer.endpoint with
    | None => Ret tt
    | Some e =>
        let forwarded_size :=
          session_frame_overhead bucket + RELAY_SOURCE_OVERHEAD +
          Z.of_nat (length (Onion.inner peeled)) in
        quota <- op (CQuotaAllow sender forwarded_size);;
        if bool_decide (quota = Allowed)
        then post_message next TYPE_RELAY (relay_payload source content_type (Onion.inner peeled))
               FLAG_RELAY e Data
        else Ret tt
    end.

Definition handle_relay (data : list byte) (sid : Z) : prog unit :=
  with_session data sid (typed TYPE_RELAY Some) (λ payload sender,
    op (CMarkSeen sender None) ;;;
    if Z.of_nat (length payload) <? RELAY_SOURCE_OVERHEAD + ONION_OVERHEAD then Ret tt
    else
      let source := take NODE_ID_SIZE payload in
      let content_type := bval (nth NODE_ID_SIZE payload x00) in
      if negb (content_type =? RELAY_CONTENT_IP_PACKET) &&
         negb (content_type =? RELAY_CONTENT_PATH_PROBE) then Ret tt
      else
        sp <- op (CGetPeer source);;
        match sp with
        | None => Ret tt
        | Some sp =>
            match peel_onion (private_key (keypair (identity (env cfg)))) (Peer.public_key sp)
                    (drop (S NODE_ID_SIZE) payload) with
            | None => Ret tt
            | Some peeled =>
                if all_zero (Onion.next_hop peeled) then
                  if content_type =? RELAY_CONTENT_IP_PACKET
                  then inject_inner_packet (Onion.inner peeled) ;;; Ret tt
                  else match deserialize_path_probe (Onion.inner peeled) with
                       | None => Ret tt
                       | Some probe => handle_path_probe source probe
                       end
                else forward_onion sender source content_type peeled
            end
        end).

(** ** Handshakes *)

(** [SessionManager::handle_handshake_init] with its three locked regions as calls. *)
Definition handle_handshake_init (message : list byte) (outer_session_id : Z)
    : prog (option HandshakeResponse) :=
  match parse_handshake_v2_init message with
  | None => Ret None
  | Some frame =>
  if negb (init_session_id frame =? outer_session_id) ||
     negb (bool_decide (init_network_id frame = Identity.network_id (identity (env cfg))))
  then Ret None else
  match transcript_hash Blake2s256 [message] with
  | None => Ret None
  | Some replay_key =>
  admitted <- op (CInitAdmit replay_key (init_session_id frame));;
  if negb admitted then Ret None else
  match make_handshake_v2_prologue (Identity.network_id (identity (env cfg)))
          (init_session_id frame) with
  | None => Ret None
  | Some prologue =>
  hs <- op (CCreateResponder prologue);;
  match hs with
  | None => Ret None
  | Some hs =>
  match read_message hs (init_noise_message frame) 0 with
  | (read, _, hs) =>
  if negb (op_ok read) then Ret None else
  match remote_static_public_key hs with
  | None => Ret None
  | Some peer_static =>
  if all_zero peer_static then Ret None else
  let peer_id := hash_public_key peer_static in
  admitted <- op (CInitArbitrate replay_key peer_id);;
  if negb admitted then Ret None else
  match write_message hs [] HANDSHAKE_V2_RESPONSE_NOISE_SIZE with
  | (written, noise_message, hs) =>
  if negb (op_ok written) ||
     negb (Nat.eqb (op_bytes written) HANDSHAKE_V2_RESPONSE_NOISE_SIZE)
  then Ret None else
  match split hs, serialize_handshake_v2_response
                    (mkResponseFrame (init_session_id frame) noise_message) with
  | (Some keys, _), Some encoded =>
      ok <- op (CInitInstall (init_session_id frame) peer_id keys);;
      Ret (if ok then Some (mkResponse encoded peer_id peer_static) else None)
  | _, _ => Ret None
  end end end end end end end end.

(** A control frame of the handshake. *)
Definition handshake_frame (type sid : Z) (payload : list byte) : list byte :=
  serialize_packet_header
    (mkPacketHeader PACKET_VERSION type 0 0 sid 0 (wrap 32 (Z.of_nat (length payload)))) ++
  payload.

Definition INIT_BARE_SIZE : nat := Z.to_nat PACKET_HEADER_SIZE + HANDSHAKE_V2_INIT_FRAME_SIZE.
Definition INIT_COOKIE_SIZE : nat := INIT_BARE_SIZE + HANDSHAKE_COOKIE_SIZE.

(** The answer to an INIT whose cookie is valid. *)
Definition answer_init (sid : Z) (init_frame : list byte) (sender : Endpoint) : prog unit :=
  response <- handle_handshake_init init_frame sid;;
  match response with
  | None => Ret tt
  | Some response =>
      upserted <- op (CUpsert (response_peer_id response) (response_peer_static response)
                        (Some sender) false);;
      if bool_decide (upserted = IdentityConflict) || bool_decide (upserted = CapacityRejected)
      then op (CRemoveSession (response_peer_id response))
      else
        sent <- op (CSend (handshake_frame TYPE_HANDSHAKE_RESP sid (response_message response))
                      sender Control);;
        if negb sent then op (CRemoveSession (response_peer_id response))
        else
          op (CMarkSeen (response_peer_id response) (Some sender)) ;;;
          announce_endpoint_candidates (response_peer_id response) sender ;;;
          op (CMarkDone (response_peer_id response) sid)
  end.

Definition handle_handshake_init_frame (data : list byte) (h : PacketHeader) (sender : Endpoint)
    : prog unit :=
  allowed <- op (CRateAllow sender);;
  if negb allowed then Ret tt
  else if (negb (Nat.eqb (length data) INIT_BARE_SIZE) &&
           negb (Nat.eqb (length data) INIT_COOKIE_SIZE)) ||
          negb (payload_length h =? Z.of_nat (length data) - PACKET_HEADER_SIZE) then Ret tt
  else
    let init_frame := take HANDSHAKE_V2_INIT_FRAME_SIZE (drop (Z.to_nat PACKET_HEADER_SIZE) data) in
    cookie_valid <-
      (if Nat.eqb (length data) INIT_COOKIE_SIZE
       then op (CCookieVerify (take HANDSHAKE_COOKIE_SIZE (drop INIT_BARE_SIZE data)) sender
                  (session_id h) init_frame)
       else Ret false);;
    if negb cookie_valid then
      cookie <- op (CCookieIssue sender (session_id h) init_frame);;
      match cookie with
      | None => Ret tt
      | Some cookie =>
          op (CSend (handshake_frame TYPE_HANDSHAKE_COOKIE (session_id h) cookie) sender Control) ;;;
          Ret tt
      end
    else answer_init (session_id h) init_frame sender.

Definition handle_handshake_response_frame (data : list byte) (h : PacketHeader) : prog unit :=
  let payload := drop (Z.to_nat PACKET_HEADER_SIZE) data in
  if negb (Nat.eqb (length payload) HANDSHAKE_V2_RESPONSE_FRAME_SIZE) then Ret tt
  else op (CHandleResponse payload (session_id h)).

Definition handle_handshake_cookie_frame (data : list byte) (h : PacketHeader) (sender : Endpoint)
    : prog unit :=
  if negb (Nat.eqb (length data) (Z.to_nat PACKET_HEADER_SIZE + HANDSHAKE_COOKIE_SIZE)) ||
     negb (payload_length h =? Z.of_nat HANDSHAKE_COOKIE_SIZE) then Ret tt
  else op (CStoreCookie (session_id h) sender
             (take HANDSHAKE_COOKIE_SIZE (drop (Z.to_nat PACKET_HEADER_SIZE) data))).

(** The initiator's loop that reserves a session id: [None] when the random source fails,
    [Some None] when every attempt collides. *)
Fixpoint reserve_session_id (attempts : nat) (p : TunnelPeer) : prog (option (option Z)) :=
  match attempts with
  | O => Ret (Some None)
  | S attempts =>
      x <- op CRandomU32;;
      match x with
      | None => Ret None
      | Some x =>
          if x =? 0 then reserve_session_id attempts p
          else
            taken <- op (CGetSessionById x);;
            if bool_decide (is_Some taken) then reserve_session_id attempts p
            else
              ok <- op (CReserve (tp_node_id p) x (tp_endpoint p));;
              if ok then Ret (Some (Some x)) else reserve_session_id attempts p
      end
  end.

(** Send the INIT, wait, and try again: [false] when the pending entry has gone. *)
Fixpoint send_init (attempts : nat) (p : TunnelPeer) (sid : Z) (init : list byte) : prog bool :=
  match attempts with
  | O => Ret true
  | S attempts =>
      pending <- op (CAttempt (tp_node_id p));;
      match pending with
      | None => Ret false
      | Some pending =>
          op (CSend (handshake_frame TYPE_HANDSHAKE_INIT sid
                       (init ++ default [] (ph_cookie pending))) (tp_endpoint p) Control) ;;;
          woke <- op (CAwait (tp_node_id p));;
          match woke with
          | WaitOver => Ret true
          | WaitCookie | WaitTimedOut => send_init attempts p sid init
          end
      end
  end.

Definition handshake_succeeded (p : TunnelPeer) : prog bool :=
  op (CMarkSeen (tp_node_id p) (Some (tp_endpoint p))) ;;;
  announce_endpoint_candidates (tp_node_id p) (tp_endpoint p) ;;;
  Ret true.

Definition handshake_initiator (p : TunnelPeer) : prog bool :=
  reserved <- reserve_session_id 16 p;;
  match reserved with
  | None | Some None => Ret false
  | Some (Some sid) =>
      init <- op (CCreateInit sid (tp_node_id p) (tp_public_key p));;
      match init with
      | None => op (CPendingErase (tp_node_id p)) ;;; Ret false
      | Some init =>
          ok <- send_init 10 p sid init;;
          if negb ok then Ret false
          else
            running <- op CRunning;;
            if negb running then Ret false
            else
              done <- op (CPendingDone (tp_node_id p));;
              if done then handshake_succeeded p
              else
                up <- session_established (tp_node_id p);;
                if up then handshake_succeeded p else Ret false
      end
  end.

Definition handshake_responder (p : TunnelPeer) : prog bool :=
  op (CRegister (tp_node_id p)) ;;;
  up <- session_established (tp_node_id p);;
  if up then handshake_succeeded p
  else
    woke <- op (CAwaitDone (tp_node_id p));;
    if woke then handshake_succeeded p
    else
      running <- op CRunning;;
      if negb running then Ret false
      else
        up <- session_established (tp_node_id p);;
        if up then handshake_succeeded p else Ret false.

Definition handshake_peer (p : TunnelPeer) (force : bool) : prog bool :=
  up <- (if force then Ret false else session_established (tp_node_id p));;
  if up then Ret true
  else
    op (CMarkConnecting (tp_node_id p)) ;;;
    if bytes_ltb self (tp_node_id p) || negb (unspecified (tp_endpoint p))
    then handshake_initiator p else handshake_responder p.

(** ** Files *)

Definition send_file_ack (peer : NodeId) (e : Endpoint) (ack : FileTransferAck) : prog unit :=
  match serialize_file_ack ack with
  | None => Ret tt
  | Some payload => post_message peer TYPE_FILE_ACK payload 0 e Control
  end.

Definition send_file_cancel (peer : NodeId) (e : Endpoint) (transfer_id : Z)
    (reason : FileCancelReason) : prog unit :=
  match serialize_file_cancel (mkFileCancel transfer_id reason) with
  | None => Ret tt
  | Some payload => post_message peer TYPE_FILE_CANCEL payload 0 e Control
  end.

Definition send_file_reply (peer : NodeId) (e : Endpoint) (r : FileReply) : prog unit :=
  match r with
  | NoReply => Ret tt
  | ReplyAck ack => send_file_ack peer e ack
  | ReplyCancel id reason => send_file_cancel peer e id reason
  end.

(** The header of a transfer, refused when its chunks do not fit this overlay. *)
Definition decode_file_header (m : DecryptedMessage) : option FileTransferHeader :=
  match deserialize_file_header (dm_payload m), file_chunk_size_for_overlay_mtu (overlay_mtu cfg) with
  | Some h, Some local => if local <? fh_chunk_size h then None else Some h
  | _, _ => None
  end.

Definition handle_file_header_frame (data : list byte) (sid : Z) (sender : Endpoint) : prog unit :=
  when_running (with_session data sid decode_file_header (λ h peer,
    op (CMarkSeen peer (Some sender)) ;;;
    reply <- op (CFileHeader peer h);; send_file_reply peer sender reply)).

Definition handle_file_chunk_frame (data : list byte) (sid : Z) (sender : Endpoint) : prog unit :=
  when_running (with_session data sid (λ m, deserialize_file_chunk (dm_payload m)) (λ c peer,
    op (CMarkSeen peer (Some sender)) ;;;
    reply <- op (CFileChunk peer c);; send_file_reply peer sender reply)).

Definition handle_file_ack_frame (data : list byte) (sid : Z) (sender : Endpoint) : prog unit :=
  when_running (with_session data sid (λ m, deserialize_file_ack (dm_payload m)) (λ a peer,
    op (CMarkSeen peer (Some sender)) ;;; op (CFileAck peer a))).

Definition handle_file_cancel_frame (data : list byte) (sid : Z) (sender : Endpoint) : prog unit :=
  when_running (with_session data sid (λ m, deserialize_file_cancel (dm_payload m)) (λ c peer,
    op (CMarkSeen peer (Some sender)) ;;;
    path <- op (CCancelIncoming peer (fx_transfer_id c));;
    op (CRemoveFile path) ;;;
    op (CCancelOutgoing peer (fx_transfer_id c)))).

Definition expire_file_transfers : prog unit :=
  expired <- op CCollectExpired;;
  for_each (λ kp : FileTransferKey * option Path,
    match snd kp with
    | None => Ret tt
    | Some path =>
        op (CRemoveFile (Some path)) ;;;
        peer <- op (CGetPeer (fst (fst kp)));;
        match peer ≫= Peer.endpoint with
        | None => Ret tt
        | Some e => send_file_cancel (fst (fst kp)) e (snd (fst kp)) TimedOut
        end
    end) expired.

(** ** The receive callback *)

Definition handle_data_frame (data : list byte) (sid : Z) (sender : Endpoint) : prog unit :=
  when_running (
    msg <- decrypt data;;
    match msg ≫= typed TYPE_DATA Some with
    | None => Ret tt
    | Some packet =>
        s <- op (CGetSessionById sid);;
        (match s with
         | Some s => op (CMarkSeen (snap_peer_id s) (Some sender))
         | None => Ret tt
         end) ;;;
        inject_inner_packet packet ;;; Ret tt
    end).

Definition handle_relay_frame (data : list byte) (sid : Z) : prog unit :=
  when_running (handle_relay data sid).

Definition handle_keepalive_frame (data : list byte) (sid : Z) (sender : Endpoint) : prog unit :=
  when_running (with_session data sid Some (λ _ peer, op (CMarkSeen peer (Some sender)))).

Definition handle_peer_table_frame (data : list byte) (sid : Z) (sender : Endpoint) : prog unit :=
  when_running (with_session data sid Some (λ m peer,
    op (CMarkSeen peer (Some sender)) ;;; handle_peer_table peer (dm_payload m))).

Definition handle_membership_revocation_frame (data : list byte) (sid : Z) (sender : Endpoint)
    : prog unit :=
  when_running (with_session data sid
    (typed TYPE_MEMBERSHIP_REVOCATION deserialize_membership_revocations) (λ rs peer,
    op (CMarkSeen peer (Some sender)) ;;;
    changed <- add_revocations rs;;
    if changed then announce_membership_revocations (Some peer) else Ret tt)).

Definition handle_endpoint_candidates_frame (data : list byte) (sid : Z) (sender : Endpoint)
    : prog unit :=
  when_running (with_session data sid
    (typed TYPE_ENDPOINT_CANDIDATES deserialize_endpoint_candidates) (λ update peer,
    op (CMarkSeen peer None) ;;;
    if bool_decide (subject update = peer) then
      op (CSetCandidates peer
            (merge_endpoint_candidate (candidates update) (mkCandidate PeerObserved sender 400))) ;;;
      begin_endpoint_punching peer
    else if negb (bool_decide (subject update = self)) then Ret tt
    else if existsb (λ c, negb (bool_decide (cand_type c = PeerObserved))) (candidates update)
    then Ret tt
    else
      for_each (λ c, op (CRecordCandidate c)) (candidates update) ;;;
      local <- op CLocalCandidates;;
      match local with
      | [] => Ret tt
      | _ => send_endpoint_candidate_update peer (mkCandidates self local)
      end)).

Definition handle_endpoint_punch_frame (data : list byte) (sid : Z) (sender : Endpoint)
    : prog unit :=
  when_running (with_session data sid
    (typed TYPE_ENDPOINT_PUNCH deserialize_endpoint_punch) (λ punch peer,
    op (CMarkSeen peer None) ;;;
    if bool_decide (punch_kind punch = Challenge) then
      p <- op (CGetPeer peer);;
      match p with
      | None => Ret tt
      | Some p =>
          if bool_decide (Peer.endpoint p = Some sender) ||
             existsb (λ c, bool_decide (cand_endpoint c = sender)) (Peer.endpoint_candidates p)
          then send_endpoint_punch peer sender (mkPunch Response (transaction_id punch)) ;;; Ret tt
          else Ret tt
      end
    else
      now <- op CNow;;
      target <- op (CPunchAcknowledge (transaction_id punch) peer sender now);;
      match target with
      | None => Ret tt
      | Some t => op (CMarkHolePunched (punch_peer t) (punch_endpoint t))
      end)).

Definition handle_chat_frame (data : list byte) (sid : Z) (sender : Endpoint) : prog unit :=
  when_running (with_session data sid Some (λ m peer,
    op (CMarkSeen peer (Some sender)) ;;; op (CPrintChat peer (dm_payload m)))).

Definition handle_path_probe_frame (data : list byte) (sid : Z) (sender : Endpoint) : prog unit :=
  with_session data sid (typed TYPE_PATH_PROBE deserialize_path_probe) (λ probe peer,
    op (CMarkSeen peer (Some sender)) ;;; handle_path_probe peer probe).

Definition handle_network_teardown_frame (data : list byte) (sid : Z) : prog unit :=
  when_running (with_session data sid
    (λ m, if Z.of_nat (length (dm_payload m)) <? 32 then None else Some tt) (λ _ peer,
    if bool_decide (peer = creator_id cfg) then op CRequestStop else Ret tt)).

Definition rx_callback (data : list byte) (sender : Endpoint) : prog unit :=
  if Z.of_nat (length data) <? PACKET_HEADER_SIZE then Ret tt
  else
    match parse_packet_header (take (Z.to_nat PACKET_HEADER_SIZE) data) with
    | None => Ret tt
    | Some h =>
        if negb (version h =? PACKET_VERSION) || negb (reserved h =? 0) ||
           negb (Z.land (flags h) (wrap 8 (Z.lnot PACKET_KNOWN_FLAGS)) =? 0) then Ret tt
        else
          let sid := session_id h in
          let type := packet_type h in
          if type =? TYPE_DATA then handle_data_frame data sid sender
          else if type =? TYPE_RELAY then handle_relay_frame data sid
          else if type =? TYPE_KEEPALIVE then handle_keepalive_frame data sid sender
          else if type =? TYPE_PEER_TABLE then handle_peer_table_frame data sid sender
          else if type =? TYPE_MEMBERSHIP_REVOCATION
          then handle_membership_revocation_frame data sid sender
          else if type =? TYPE_CHAT_MSG then handle_chat_frame data sid sender
          else if type =? TYPE_FILE_HEADER then handle_file_header_frame data sid sender
          else if type =? TYPE_FILE_CHUNK then handle_file_chunk_frame data sid sender
          else if type =? TYPE_FILE_ACK then handle_file_ack_frame data sid sender
          else if type =? TYPE_FILE_CANCEL then handle_file_cancel_frame data sid sender
          else if type =? TYPE_PATH_PROBE then handle_path_probe_frame data sid sender
          else if type =? TYPE_ENDPOINT_CANDIDATES
          then handle_endpoint_candidates_frame data sid sender
          else if type =? TYPE_ENDPOINT_PUNCH then handle_endpoint_punch_frame data sid sender
          else if type =? TYPE_NETWORK_TEARDOWN then handle_network_teardown_frame data sid
          else if type =? TYPE_HANDSHAKE_RESP then handle_handshake_response_frame data h
          else if type =? TYPE_HANDSHAKE_COOKIE then handle_handshake_cookie_frame data h sender
          else if type =? TYPE_HANDSHAKE_INIT then handle_handshake_init_frame data h sender
          else Ret tt
    end.

(** ** The loops *)

(** The body of [tx_loop] for one packet read from the adapter. *)
Definition send_direct (route : Route) (raw : list byte) : prog unit :=
  fits <- packet_fits_route (Z.of_nat (length raw)) DIRECT_ROUTE_DEPTH;;
  if negb fits then Ret tt
  else
    peer <- op (CGetPeer (Routing.destination route));;
    match peer ≫= Peer.endpoint with
    | None => Ret tt
    | Some e => post_message (Routing.destination route) TYPE_DATA raw 0 e Data
    end.

Definition send_relayed (route : Route) (raw : list byte) : prog unit :=
  let hops := Z.of_nat (length (Routing.path route)) in
  if max_relay_depth cfg <? hops then Ret tt
  else
    fits <- packet_fits_route (Z.of_nat (length raw)) hops;;
    if negb fits then Ret tt
    else
      keys <- hop_keys (Routing.path route);;
      match keys with
      | None => Ret tt
      | Some keys =>
          onion <- op (CBuildOnion (Routing.path route) keys raw);;
          match onion with
          | None => Ret tt
          | Some onion =>
              frame <- op (CEncrypt (Routing.next_hop route) TYPE_RELAY
                             (relay_payload self RELAY_CONTENT_IP_PACKET onion) FLAG_RELAY);;
              match frame with
              | None => Ret tt
              | Some frame =>
                  first <- op (CGetPeer (Routing.next_hop route));;
                  match first ≫= Peer.endpoint with
                  | None => Ret tt
                  | Some e => op (CSend frame e Data) ;;; Ret tt
                  end
              end
          end
      end.

Definition tx_packet (raw : list byte) : prog unit :=
  match IPPacket_parse raw with
  | None => Ret tt
  | Some parsed =>
      let dest := dest_ip parsed in
      if Z.land dest 4026531840 =? 3758096384 then Ret tt
      else if dest =? 4294967295 then Ret tt
      else
        route <- op (CFindRoute (from_ipv4 dest));;
        match route with
        | None => op CCountUnrouted
        | Some route =>
            match Routing.type route with
            | Direct => send_direct route raw
            | _ => send_relayed route raw
            end
        end
  end.

Definition GOSSIP_FULL_RESYNC_ROUNDS : Z := 10.

(** The body of [gossip_loop] after its wait. *)
Definition gossip_round : prog unit :=
  round <- op CNextGossipRound;;
  let force_full := round mod GOSSIP_FULL_RESYNC_ROUNDS =? 0 in
  announce_peer_table None force_full ;;;
  if force_full then announce_membership_revocations None else Ret tt.

Definition send_keepalive (p : Peer) : prog unit :=
  frame <- op (CEncrypt (Peer.node_id p) TYPE_KEEPALIVE [] 0);;
  match frame, Peer.endpoint p with
  | Some frame, Some e => op (CSend frame e Control) ;;; Ret tt
  | _, _ => Ret tt
  end.

Definition bury_peer (p : Peer) : prog unit :=
  op (CMarkDead (Peer.node_id p)) ;;;
  op (CRemoveSession (Peer.node_id p)) ;;;
  op (CRemoveRoute (Peer.node_id p)).

Definition refresh_from_presence (e : NodeId * Presence) : prog unit :=
  let '(id, presence) := e in
  if negb (bool_decide (pr_network_id presence = Identity.network_id (identity (env cfg))))
  then Ret tt
  else
    peer <- op (CGetPeer id);;
    match peer with
    | None => Ret tt
    | Some peer =>
        if negb (trusted peer) then Ret tt
        else if bool_decide (Peer.endpoint peer = Some (reachable_endpoint presence)) then Ret tt
        else op (CUpdateEndpoint id (reachable_endpoint presence))
    end.

Definition refresh_endpoints_from_discovery : prog unit :=
  presences <- op CPresences;; for_each refresh_from_presence presences.

Definition rekey_peer (id : NodeId) : prog unit :=
  p <- op (CGetPeer id);;
  match p with
  | None => Ret tt
  | Some p =>
      match Peer.endpoint p with
      | None => Ret tt
      | Some e => handshake_peer (mkTunnelPeer id (Peer.public_key p) e []) true ;;; Ret tt
      end
  end.

Definition rekey_if_due (interval now : Z) (p : Peer) : prog unit :=
  if bool_decide (Peer.node_id p = self) || negb (bool_decide (Peer.state p = Established)) ||
     negb (bytes_ltb self (Peer.node_id p)) then Ret tt
  else
    s <- op (CGetSession (Peer.node_id p));;
    match s with
    | None => Ret tt
    | Some s =>
        if now - snap_established_at s <? interval then Ret tt
        else
          due <- op (CRekeyDue (Peer.node_id p) now interval);;
          if due then rekey_peer (Peer.node_id p) else Ret tt
    end.

Definition rekey_due : prog unit :=
  let interval :=
    ms (if 0 <? rekey_interval_ms cfg then rekey_interval_ms cfg else REKEY_INTERVAL_MS) in
  now <- op CNow;; ps <- op CAllPeers;; for_each (rekey_if_due interval now) ps.

(** The body of [maintenance_loop] after its sleep. *)
Definition maintenance_tick : prog unit :=
  when_running (
    quiet <- op CNeedKeepalive;;
    for_each send_keepalive quiet ;;;
    stale <- op CStalePeers;;
    for_each bury_peer stale ;;;
    now <- op CNow;;
    op (CPunchExpire now) ;;;
    refresh_endpoint_bindings ;;;
    now <- op CNow;;
    op (CExpireRoutes now) ;;;
    probe_due_routes ;;;
    op CPurgeRetired ;;;
    op CPurgeIncomplete ;;;
    op CPurgeReplays ;;;
    refresh_endpoints_from_discovery ;;;
    rekey_due ;;;
    expire_file_transfers).

Definition configured_route (p : TunnelPeer) (now : Z) (aip : IPAddress * Z) : Route :=
  mkRoute (fst aip) (snd aip) Direct (tp_node_id p) (tp_node_id p) [tp_node_id p] zero32 zero32
    1 90 1 now None None None false 0 None.

Definition install_configured_routes (p : TunnelPeer) : prog unit :=
  for_each (λ aip, now <- op CNow;; op (CAddRoute (configured_route p now aip)) ;;; Ret tt)
    (allowed_ips p).

(** One iteration of [connect_loop]: the next backoff. *)
Definition connect_iteration (p : TunnelPeer) (backoff_ms : Z) : prog Z :=
  running <- op CRunning;;
  if negb running then Ret backoff_ms else
  up <- session_established (tp_node_id p);;
  if up then
    install_configured_routes p ;;;
    send_peer_table (tp_node_id p) true ;;;
    announce_peer_table (Some (tp_node_id p)) false ;;;
    announce_membership_revocations None ;;;
    Ret CONNECT_BACKOFF_BASE_MS
  else
    known <- op (CGetPeer (tp_node_id p));;
    let active :=
      match known ≫= Peer.endpoint with
      | Some e => mkTunnelPeer (tp_node_id p) (tp_public_key p) e (allowed_ips p)
      | None => p
      end in
    ok <- handshake_peer active false;;
    if ok then install_configured_routes p ;;; Ret CONNECT_BACKOFF_BASE_MS
    else if backoff_ms <? CONNECT_BACKOFF_CAP_MS
    then Ret (Z.min (wrap 32 (backoff_ms * 2)) CONNECT_BACKOFF_CAP_MS) else Ret backoff_ms.

(** ** The user *)

(** The peers with a session, in order. *)
Fixpoint established_peers (ps : list Peer) : prog (list Peer) :=
  match ps with
  | [] => Ret []
  | p :: ps =>
      up <- session_established (Peer.node_id p);;
      rest <- established_peers ps;;
      Ret (if up then p :: rest else rest)
  end.

(** One message to every peer with an endpoint: whether there was one. *)
Fixpoint broadcast (type : Z) (payload : list byte) (ps : list Peer) : prog bool :=
  match ps with
  | [] => Ret false
  | p :: ps =>
      frame <- op (CEncrypt (Peer.node_id p) type payload 0);;
      match frame, Peer.endpoint p with
      | Some frame, Some e =>
          op (CSend frame e Data) ;;; broadcast type payload ps ;;; Ret true
      | _, _ => broadcast type payload ps
      end
  end.

Definition broadcast_chat (text : list byte) : prog bool :=
  running <- op CRunning;;
  if negb running then Ret false
  else ps <- op CAllPeers;; up <- established_peers ps;; broadcast TYPE_CHAT_MSG text up.

(** [delete_network] up to its call of [stop], which follows when the result is [true]. *)
Definition delete_network : prog bool :=
  running <- op CRunning;;
  if negb running || negb (is_creator cfg) then Ret false
  else
    ps <- op CAllPeers;;
    up <- established_peers ps;;
    broadcast TYPE_NETWORK_TEARDOWN self up ;;; Ret true.

(** The peers a file goes to. *)
Definition file_peers (target : option NodeId) (ps : list Peer) : list FilePeer :=
  omap (λ p, if bool_decide (target = None) || bool_decide (target = Some (Peer.node_id p))
             then pair (Peer.node_id p) <$> Peer.endpoint p else None) ps.

(** [send_file] until its loop. *)
Definition send_file_start (path : Path) (target : option NodeId) : prog (option FileSend) :=
  running <- op CRunning;;
  if negb running then Ret None
  else
    h <- op (CPrepareSend path);;
    match h with
    | None => Ret None
    | Some h =>
        ps <- op CAllPeers;;
        up <- established_peers ps;;
        op (CBeginSend h (file_peers target up))
    end.

Definition send_file_message (m : FilePeer * FileMessage) : prog unit :=
  let '((peer, e), m) := m in
  match m with
  | MsgHeader payload => post_message peer TYPE_FILE_HEADER payload 0 e Data
  | MsgChunk payload => post_message peer TYPE_FILE_CHUNK payload 0 e Data
  end.

(** One round of the loop, unless it has ended. *)
Definition send_file_round (path : Path) (s : FileSend) : prog FileSend :=
  running <- op CRunning;;
  if negb running || negb (FileNode.send_running s) then Ret s
  else r <- op (CSendRound path s);; for_each send_file_message (fst r) ;;; Ret (snd r).

(** What follows the loop. *)
Definition send_file_finish (s : FileSend) : prog bool :=
  running <- op CRunning;;
  for_each (λ c : FilePeer * FileCancelReason,
    send_file_cancel (fst (fst c)) (snd (fst c)) (fh_transfer_id (sf_header s)) (snd c))
    (fst (fst (finish_send running s (mkFileNode ∅ ∅ ∅)))) ;;;
  op (CEraseTransfers (sf_all_keys s)) ;;;
  running <- op CRunning;;
  Ret (negb (sf_failed s || negb running)).

(** The loop, for a number of rounds; one that has ended does nothing more. *)
Fixpoint send_file_loop (rounds : nat) (path : Path) (s : FileSend) : prog FileSend :=
  match rounds with
  | O => Ret s
  | S rounds => s <- send_file_round path s;; send_file_loop rounds path s
  end.

Definition send_file (rounds : nat) (path : Path) (target : option NodeId) : prog bool :=
  s <- send_file_start path target;;
  match s with
  | None => Ret false
  | Some s => s <- send_file_loop rounds path s;; send_file_finish s
  end.

(** ** Start and stop *)

(** The members as the constructor leaves them; the clock is read twice. *)
Definition tunnel_init (r : rng) : Node :=
  mkNode false manager_init (peers_init PEER_MANAGER_MAX_PEERS) (mkEngine [] ROUTING_MAX_ROUTES)
    gossip_init [] (tracker_init PATH_PROBE_MAX_PENDING (secs 5))
    (tracker_init ENDPOINT_PUNCH_MAX_PENDING (secs 5)) ∅ ∅ []
    (relay_init default_quota_config (host_clock 0))
    (limiter_init (mkRateConfig 8 64 1024 (ms 1000)) (host_clock 1)) (cookies_init (secs 120))
    ∅ ∅ transport_init (mkFileNode ∅ ∅ ∅) ∅ 0 (mkDrops 0 0 0) 0 0 [] [] false r 2.

(** The ports [start] tries to bind, in order. *)
Fixpoint bind_ports (port : Z) (tries : list (bool * bool)) (t : Transport)
    : option (Z * Transport) :=
  match tries with
  | [] => None
  | (ipv6_ok, ipv4_ok) :: tries =>
      match transport_bind port true false ipv6_ok ipv4_ok t with
      | (true, t) => Some (port, t)
      | (false, t) => bind_ports (wrap 16 (port + 1)) tries t
      end
  end.

Definition with_overlay_mtu (mtu : Z) (c : TunnelConfig) : TunnelConfig :=
  mkConfig (session_env c) (overlay_address c) (overlay_prefix c) (underlay_mtu c)
    (max_relay_depth c) mtu (trusted_membership_issuer c) (config_peers c)
    (rekey_interval_ms c) (creator_id c) (is_creator c).

(** The configured peers, each upserted at its own clock read. *)
Fixpoint upsert_configured (k : nat) (ps : list TunnelPeer) (pm : PeerManager) : PeerManager :=
  match ps with
  | [] => pm
  | p :: ps =>
      upsert_configured (S k) ps
        (snd (upsert (tp_node_id p) (tp_public_key p) (Some (tp_endpoint p)) true
                (host_clock k) pm))
  end.

(** The endpoint in the presences of the node: what STUN answered, or the overlay address with
    the port of the configuration - not the one [bind_ports] ended with. *)
Definition announced_endpoint (listen_port : Z) (stun : option Endpoint) : Endpoint :=
  match stun with
  | Some e => e
  | None =>
      let announced :=
        if bool_decide (family (overlay_address cfg) = IPv4)
        then ipv4_endpoint (ntohl (ipv4_value (overlay_address cfg))) 0 else no_endpoint in
      mkEndpoint (address announced) (ntohs listen_port)
  end.

(** [start]: [None] where it refuses.  The results of the adapter, of the ten attempts to
    bind, of STUN and of the host's resolver are arguments.  A tunnel whose start was refused
    has no state here: its callers ([main.cpp], [commands.cpp]) destroy it. *)
Definition start (keepalive_ms dead_ms listen_port : Z) (adapter_ok : bool)
    (binds : list (bool * bool)) (addresses : list Z) (stun : option Endpoint)
    (n : Node) : option (TunnelConfig * Node) :=
  if negb (prefix_valid (mkPrefix (overlay_address cfg) (overlay_prefix cfg))) then None else
  match safe_overlay_mtu (underlay_mtu cfg) (max_relay_depth cfg) bucket with
  | None => None
  | Some mtu =>
  match set_max_datagram_size (underlay_mtu cfg - OUTER_IPV4_UDP_OVERHEAD) (nd_transport n) with
  | (false, _) => None
  | (true, t) =>
  if negb adapter_ok then None else
  match bind_ports listen_port (take 10 binds) t with
  | None => None
  | Some (port, t) =>
      let pm := set_keepalive_interval (if 0 <? keepalive_ms then keepalive_ms else 25000)
                  (set_dead_timeout (if 0 <? dead_ms then dead_ms else 180000) (nd_peers n)) in
      let now := host_clock (nd_ticks n) in
      let pm := upsert_configured (S (nd_ticks n)) (config_peers cfg) pm in
      let host := gather_from port addresses [] [] in
      let local :=
        match stun with
        | Some e => merge_endpoint_candidate host (mkCandidate ServerReflexive e 200)
        | None => host
        end in
      Some (with_overlay_mtu mtu cfg,
        put_running true (put_sessions manager_init (put_peers pm
          (put_quota (relay_reset now (nd_quota n)) (put_gossip gossip_init
            (put_gossip_round 0 (put_drops (mkDrops 0 0 0) (put_candidates local
              (put_transport (snd (start_receive t)) 
                (put_ticks (nd_ticks n + S (length (config_peers cfg))) n))))))))))
  end end end.

(** [stop], when every other thread has been joined. *)
Definition stop (n : Node) : Node :=
  put_running false
    (put_transport (transport_close (nd_transport n))
      (put_files (mkFileNode ∅ ∅ (files (nd_files n)))
        (put_probes (probe_reset (nd_probes n))
          (put_punches (punch_reset (nd_punches n))
            (put_punch_attempts ∅ (put_refreshes ∅ n)))))).

Definition leave_network (n : Node) : Node := if nd_running n then stop n else n.

(** ** Counters *)

Record TunnelDropStats := mkDropStats {
  stat_oversize_outbound : Z;
  stat_oversize_inbound : Z;
  stat_invalid_inbound : Z;
  transport_oversize_send : Z;
  transport_oversize_receive : Z;
  transport_data_queue_drops : Z;
  transport_control_queue_drops : Z;
  relay_admitted_packets : Z;
  relay_admitted_bytes : Z;
  relay_peer_drops : Z;
  relay_global_drops : Z;
  relay_capacity_drops : Z;
}.

Definition drop_stats (n : Node) : TunnelDropStats :=
  let t := nd_transport n in
  let relay := quota_stats (nd_quota n) in
  mkDropStats (oversize_outbound (nd_drops n)) (oversize_inbound (nd_drops n))
    (invalid_inbound (nd_drops n)) (oversize_send_drops t) (oversize_receive_drops t)
    (data_drops (queue_metrics t)) (control_drops (queue_metrics t)) (admitted_packets relay)
    (admitted_bytes relay) (peer_drops relay) (global_drops relay) (capacity_drops relay).

End tunnel.
