(* ===== verification/NodeInv.v ===== *)
(** * The invariant of a node ([src/tunnel/tunnel.cpp])

    Rely-guarantee reasoning about the threads of a node.  [node_inv] is what every state
    satisfies: the invariant of every component, and that each table keyed by node ids only
    holds ids the node knows.  [call_ok] is what a thread must establish before a call,
    [result_ok] what it may rely on afterwards, while other threads go on: both depend on the
    state only through the set of known ids, which grows.  [wp] checks a program against
    them.  Every program of [Tunnel] passes, so the invariant holds in every interleaving of
    any number of threads, and no thread leaves with an exception. *)

From Stdlib Require Import ZArith Lia Bool.
From Stdlib.Strings Require Import Byte.
From stdpp Require Import base numbers gmap option list.
From S2P Require Import Prelude Wire Packet Replay Crypto Identity Revocation HandshakeV2 NoiseIk.
From S2P Require Import Session SessionInv SessionMsg IpAddress Endpoint Discovery Probe Admission.
From S2P Require Import Routing Onion RelayLimiter SendQueue Transport Peer PeerTable Gossip.
From S2P Require Import FileMsg FileTransfer FileNode Node Tunnel.

Section invariant.
Context `{OpenSSL, RandomSource, NoiseC, Machine}.
Context (cfg : TunnelConfig).

#[local] Open Scope prog_scope.
#[local] Notation self := (self_id cfg).

(** ** The invariant *)

(** What the command line guarantees of the configured peers. *)
Definition peer_config_ok (p : TunnelPeer) : Prop :=
  hash_public_key (tp_public_key p) = tp_node_id p /\
  Forall (λ aip, ip_wf (fst aip) /\ 0 <= snd aip) (allowed_ips p).

Definition configured : gset NodeId := list_to_set (tp_node_id <$> config_peers cfg).

(** The ids a node knows: those of its peer table and of its configuration. *)
Definition known (n : Node) : gset NodeId := dom (peers (nd_peers n)) ∪ configured.

Definition rate_limits : HandshakeRateLimitConfig := mkRateConfig 8 64 1024 (ms 1000).

Definition punch_usable (id : Z) (tg : EndpointPunchTarget) : bool :=
  negb (id =? 0) && negb (bool_decide (punch_peer tg = zero32)) &&
  valid_endpoint_candidate (mkCandidate PeerObserved (punch_endpoint tg) 1).

Record transport_ok (t : Transport) : Prop := {
  tr_queue : queue_reachable default_queue_limits (send_queue t);
  tr_fits p k : Forall (λ d, Z.of_nat (length d) <= max_datagram_size t)
                  (contents p (send_queue t) k);
}.

Record gossip_keyed (K : gset NodeId) (g : GossipDeltaTracker) : Prop := {
  gk_current : dom (current_ g) ⊆ {[self]} ∪ K;
  gk_sent : dom (sent_ g) ⊆ K;
}.

Lemma gossip_keyed_mono (K K' : gset NodeId) g : K ⊆ K' -> gossip_keyed K g -> gossip_keyed K' g.
Proof.
  intros Hs [Hc Ht]. split; [|by etrans]. etrans; [exact Hc|]. by apply union_mono_l.
Qed.

Record candidates_ok (cs : list EndpointCandidate) : Prop := {
  co_count : (length cs <= 8)%nat;
  co_distinct : NoDup (cand_endpoint <$> cs);
}.

Record node_inv (n : Node) : Prop := {
  ni_sessions : reachable (env cfg) (nd_sessions n);
  ni_peers : peers_ok (nd_peers n) /\ identities_ok (nd_peers n) /\
             max_peers (nd_peers n) = PEER_MANAGER_MAX_PEERS;
  ni_routing : merge_inv self (nd_routing n) /\ max_routes (nd_routing n) = ROUTING_MAX_ROUTES;
  ni_gossip : gossip_keyed (known n) (nd_gossip n);
  ni_revocations : store_ok (nd_revocations n) /\
                   Forall (λ r, local_revocation cfg r = true) (nd_revocations n);
  ni_probes : Probe.tracker_ok probe_usable (nd_probes n) /\
              maximum_ (nd_probes n) = PATH_PROBE_MAX_PENDING;
  ni_punches : Probe.tracker_ok punch_usable (nd_punches n) /\
               maximum_ (nd_punches n) = ENDPOINT_PUNCH_MAX_PENDING;
  ni_punch_attempts : dom (nd_punch_attempts n) ⊆ known n;
  ni_refreshes : dom (nd_refreshes n) ⊆ known n;
  ni_pending : dom (nd_pending n) ⊆ known n;
  ni_rekeys : dom (nd_rekeys n) ⊆ known n;
  ni_candidates : candidates_ok (nd_candidates n);
  ni_quota : quota_config (nd_quota n) = default_quota_config /\
             Z.of_nat (tracked_peers (nd_quota n)) <= RELAY_QUOTA_MAX_PEERS;
  ni_rate : limiter_ok (host_clock (nd_ticks n)) (nd_rate n) /\
            rate_config (nd_rate n) = rate_limits;
  ni_transport : transport_ok (nd_transport n);
  ni_files : FileNode.node_ok (nd_files n);
  ni_adapter : Forall (λ p, validate_inner_ipv4_packet (Some p) (Z.of_nat (length p))
                              (overlay_mtu cfg) = Packet.Valid) (nd_adapter n);
}.

(** ** Calls and their results *)

Definition call_ok (K : gset NodeId) (c : call) : Prop :=
  match c with
  | CWritePacket p =>
      validate_inner_ipv4_packet (Some p) (Z.of_nat (length p)) (overlay_mtu cfg) = Packet.Valid
  | CCreateInit sid _ _ => u32 sid
  | CInitInstall sid _ _ => u32 sid /\ sid <> 0
  | CReserve peer _ _ | CAwait peer | CPendingDone peer | CRegister peer | CAwaitDone peer
  | CMarkDone peer _ | CRekeyDue peer _ _ | CPunchDue peer _ | CRefreshDue peer _
  | CCommit peer _ => peer ∈ K
  | CUpsert id key _ _ => hash_public_key key = id
  | CAddRoute r => route_typed r /\ learned_ok self r
  | CMergeTable advertised _ _ => Forall peer_typed advertised
  | CPrepare _ current _ => forall p, p ∈ current -> adv_node p ∈ {[self]} ∪ K
  | CAddRevocation r => local_revocation cfg r = true
  | CFileHeader _ h => file_header_wf h
  | _ => True
  end.

Definition result_ok (K : gset NodeId) (c : call) : result c -> Prop :=
  match c as c return result c -> Prop with
  | CRandomU32 => λ x, forall v, x = Some v -> u32 v
  | CDecrypt _ => λ x, x <> None
  | CGetPeer id => λ x, is_Some x -> id ∈ K
  | CAllPeers | CStalePeers | CNeedKeepalive => λ x, Forall (λ p, Peer.node_id p ∈ K) x
  | CUpsert id _ _ _ => λ x, x <> IdentityConflict -> x <> CapacityRejected -> id ∈ K
  | _ => λ _, True
  end.

(** ** Programs *)

(** The program makes only calls that are allowed, whatever it is told, and does not throw;
    its result satisfies [Q]. *)
Fixpoint wp {A : Type} (K : gset NodeId) (p : prog A) (Q : gset NodeId -> A -> Prop) : Prop :=
  match p with
  | Ret a => Q K a
  | Throw => False
  | Do c k => call_ok K c /\ forall K' x, K ⊆ K' -> result_ok K' c x -> wp K' (k x) Q
  end.

Lemma call_ok_mono (K K' : gset NodeId) c : K ⊆ K' -> call_ok K c -> call_ok K' c.
Proof. intros Hs. destruct c; cbn; try done; try set_solver. Qed.

Lemma wp_mono {A : Type} (p : prog A) : forall (K K' : gset NodeId) Q Q',
  K ⊆ K' -> (forall (K0 K1 : gset NodeId) a, K0 ⊆ K1 -> Q K0 a -> Q' K1 a) -> wp K p Q -> wp K' p Q'.
Proof.
  induction p as [a| |c k IH]; intros K K' Q Q' Hs HQ; cbn [wp]; [by apply HQ|done|].
  intros [Hc Hk]. split; [by eapply call_ok_mono|]. intros K1 x S1 Hx.
  eapply (IH x K1 K1); [done|exact HQ|]. apply Hk; [set_solver|done].
Qed.

Lemma wp_weaken {A : Type} (p : prog A) (K : gset NodeId) (Q Q' : gset NodeId -> A -> Prop) :
  (forall (K' : gset NodeId) a, K ⊆ K' -> Q K' a -> Q' K' a) -> wp K p Q -> wp K p Q'.
Proof.
  revert K. induction p as [a| |c k IH]; intros K HQ; cbn [wp]; [by apply HQ|done|].
  intros [Hc Hk]. split; [done|]. intros K1 x S1 Hx. apply IH; [|by apply Hk].
  intros K2 a S2. apply HQ. set_solver.
Qed.

Lemma wp_bind {A B : Type} (p : prog A) (f : A -> prog B) (K : gset NodeId) Q :
  wp K p (λ K' a, wp K' (f a) Q) -> wp K (prog_bind p f) Q.
Proof.
  revert K. induction p as [a| |c k IH]; intros K; cbn [wp prog_bind]; [done|done|].
  intros [Hc Hk]. split; [done|]. intros K1 x S1 Hx. by apply IH, Hk.
Qed.

Lemma wp_op (c : call) (K : gset NodeId) (Q : gset NodeId -> result c -> Prop) :
  call_ok K c -> (forall (K' : gset NodeId) x, K ⊆ K' -> result_ok K' c x -> Q K' x) -> wp K (op c) Q.
Proof. intros Hc HQ. by split. Qed.

(** A program none of whose results matter. *)
Definition safe {A : Type} (K : gset NodeId) (p : prog A) : Prop := wp K p (λ _ _, True).

Lemma safe_mono {A : Type} (K K' : gset NodeId) (p : prog A) : K ⊆ K' -> safe K p -> safe K' p.
Proof. intros Hs. by apply wp_mono. Qed.

Lemma safe_bind {A B : Type} (p : prog A) (f : A -> prog B) (K : gset NodeId) Q :
  safe K p -> (forall (K' : gset NodeId) a, K ⊆ K' -> wp K' (f a) Q) -> wp K (prog_bind p f) Q.
Proof.
  intros Hp Hf. apply wp_bind. eapply wp_weaken; [|exact Hp]. intros K' a Hs _. by apply Hf.
Qed.

Lemma safe_for_each {X : Type} (body : X -> prog unit) (l : list X) (K : gset NodeId) :
  (forall (K' : gset NodeId) x, K ⊆ K' -> x ∈ l -> safe K' (body x)) -> safe K (for_each body l).
Proof.
  revert K. induction l as [|x l IH]; intros K Hb; cbn [for_each]; [done|].
  apply safe_bind; [apply Hb; [done|left]|]. intros K1 _ S1. apply IH.
  intros K2 y S2 Hy. apply Hb; [set_solver|by right].
Qed.

Lemma safe_for_while {X : Type} (body : X -> prog bool) (l : list X) (K : gset NodeId) :
  (forall (K' : gset NodeId) x, K ⊆ K' -> x ∈ l -> safe K' (body x)) -> safe K (for_while body l).
Proof.
  revert K. induction l as [|x l IH]; intros K Hb; cbn [for_while]; [done|].
  apply safe_bind; [apply Hb; [done|left]|]. intros K1 [] S1; [|done]. apply IH.
  intros K2 y S2 Hy. apply Hb; [set_solver|by right].
Qed.

(** ** Every call keeps the invariant *)

#[local] Ltac keep H := destruct H; split; try assumption; cbn.

Lemma put_rng_inv r n : node_inv n -> node_inv (put_rng r n).
Proof. intros Hn. keep Hn. Qed.
Lemma put_sessions_inv m n : reachable (env cfg) m -> node_inv n -> node_inv (put_sessions m n).
Proof. intros Hm Hn. keep Hn. Qed.
Lemma put_cookies_inv m n : node_inv n -> node_inv (put_cookies m n).
Proof. intros Hn. keep Hn. Qed.
Lemma put_pending_inv m n : dom m ⊆ known n -> node_inv n -> node_inv (put_pending m n).
Proof. intros Hm Hn. keep Hn. Qed.
Lemma put_files_inv fs n : FileNode.node_ok fs -> node_inv n -> node_inv (put_files fs n).
Proof. intros Hm Hn. keep Hn. Qed.
Lemma put_routing_inv e n :
  merge_inv self e /\ max_routes e = ROUTING_MAX_ROUTES -> node_inv n -> node_inv (put_routing e n).
Proof. intros Hm Hn. keep Hn. Qed.
Lemma put_peers_inv pm n :
  peers_ok pm -> identities_ok pm -> max_peers pm = PEER_MANAGER_MAX_PEERS ->
  dom (peers (nd_peers n)) ⊆ dom (peers pm) -> node_inv n ->
  node_inv (put_peers pm n) /\ known n ⊆ known (put_peers pm n).
Proof.
  intros Ho Hi Hm Hd Hn. assert (known n ⊆ known (put_peers pm n)) as Hk.
  { unfold known. cbn. set_solver. }
  split; [|done]. destruct Hn. split; try assumption; try (etrans; eassumption); [done|].
  by eapply gossip_keyed_mono.
Qed.

Context (clock_mono : forall i j, (i <= j)%nat -> host_clock i <= host_clock j).

Lemma after_inv k n : node_inv n -> node_inv (after k n).
Proof.
  intros Hn. keep Hn. destruct ni_rate0 as [Hr Hc]. split; [|done].
  eapply limiter_ok_later; [apply clock_mono|exact Hr]. lia.
Qed.

(** What a call owes: the invariant, the known ids, and what its result says. *)
Definition keeps (c : call) : Prop := forall n,
  node_inv n -> call_ok (known n) c ->
  let res := exec cfg c n in
  node_inv (snd res) /\ known n ⊆ known (snd res) /\ result_ok (known (snd res)) c (fst res).

(** A call that only reads. *)
#[local] Ltac reads := intros n Hn Hc; split_and!; [exact Hn|reflexivity|try exact I].
(** A call whose new state is [put_... x n]. *)
#[local] Ltac puts := intros n Hn Hc; split_and!; [|reflexivity|try exact I].

Lemma step_reachable m m' t0 t1 :
  reachable (env cfg) m -> mgr_step (env cfg) t0 t1 m m' -> reachable (env cfg) m'.
Proof. intros. by eapply reach_step. Qed.

Lemma session_inv m k n t0 t1 :
  node_inv n -> mgr_step (env cfg) t0 t1 (nd_sessions n) m -> node_inv (on_sessions m k n).
Proof.
  intros Hn Hs. apply put_sessions_inv; [|by apply after_inv].
  eapply step_reachable; [apply (ni_sessions _ Hn)|exact Hs].
Qed.

Lemma keeps_decrypt data : keeps (CDecrypt data).
Proof.
  intros n Hn _. cbn [exec].
  destruct (decrypt_never_throws (env cfg) (nd_sessions n) data) as (out & m & E); [apply Hn|].
  rewrite E. split_and!; [|done|done]. apply put_sessions_inv; [|done].
  eapply step_reachable; [apply (ni_sessions _ Hn)|by eapply (step_decrypt _ 0 0)].
Qed.

Lemma keeps_encrypt peer type plaintext fl : keeps (CEncrypt peer type plaintext fl).
Proof.
  intros n Hn _. cbn [exec].
  pose proof (step_encrypt (env cfg) 0 0 (nd_sessions n) peer type plaintext fl (nd_rng n)) as Hs.
  destruct (encrypt_message _ _ _ _ _ _ _) as [[out m] r]. cbn in *. split_and!; [|done|done].
  apply put_rng_inv, put_sessions_inv; [|done].
  eapply step_reachable; [apply (ni_sessions _ Hn)|exact Hs].
Qed.

Lemma keeps_create_init sid peer key : keeps (CCreateInit sid peer key).
Proof.
  intros n Hn Hu. cbn [exec call_ok] in *.
  pose proof (create_init_reachable (env cfg) sid peer key (clock_at 0 n) (nd_sessions n)
    (nd_rng n) Hu (ni_sessions _ Hn)) as Hr.
  destruct (create_handshake_init _ _ _ _ _ _ _) as [[out m] r]. cbn in *.
  split_and!; [|done|done]. apply put_rng_inv, put_sessions_inv; [done|by apply after_inv].
Qed.

Lemma keeps_init_admit key sid : keeps (CInitAdmit key sid).
Proof.
  intros n Hn _. cbn [exec].
  pose proof (step_init_admit (env cfg) (clock_at 0 n) (clock_at 0 n) (nd_sessions n) key sid
    (clock_at 0 n) (conj (Z.le_refl _) (Z.le_refl _))) as Hs.
  destruct (init_admit _ _ _ _) as [ok m]. split_and!; [exact (session_inv _ _ _ _ _ Hn Hs)|done|done].
Qed.

Lemma keeps_init_arbitrate key peer : keeps (CInitArbitrate key peer).
Proof.
  intros n Hn _. cbn [exec].
  pose proof (step_init_arbitrate (env cfg) (clock_at 0 n) (clock_at 0 n) (nd_sessions n) key peer
    (clock_at 0 n) (conj (Z.le_refl _) (Z.le_refl _))) as Hs.
  destruct (init_arbitrate _ _ _ _ _) as [ok m]. split_and!; [exact (session_inv _ _ _ _ _ Hn Hs)|done|done].
Qed.

(** Three clock reads of one call are in order. *)
Lemma clock_order n : clock_at 0 n <= clock_at 1 n /\ clock_at 1 n <= clock_at 2 n.
Proof. split; apply clock_mono; lia. Qed.

Lemma keeps_init_install sid peer keys : keeps (CInitInstall sid peer keys).
Proof.
  intros n Hn [Hu H0']. cbn [exec]. pose proof (clock_order n) as [H01 H12].
  pose proof (step_init_install (env cfg) (clock_at 0 n) (clock_at 2 n) (nd_sessions n) sid peer
    keys _ _ _ (Z.le_refl _) H01 H12 (Z.le_refl _) Hu H0') as Hs.
  destruct (init_install _ _ _ _ _ _ _ _) as [ok m]. split_and!; [exact (session_inv _ _ _ _ _ Hn Hs)|done|done].
Qed.

Lemma alter_dom_subset {A : Type} (f : A -> A) (id : NodeId) (m : gmap NodeId A) (K : gset NodeId) :
  dom m ⊆ K -> dom (alter f id m) ⊆ K.
Proof. by rewrite dom_alter_L. Qed.

Lemma keeps_handle_response payload sid : keeps (CHandleResponse payload sid).
Proof.
  intros n Hn _. cbn [exec]. unfold exec_handshake.
  destruct (find_pending_hs _ _) as [id|]; [|done]. pose proof (clock_order n) as [H01 H12].
  pose proof (step_resp (env cfg) (clock_at 0 n) (clock_at 2 n) (nd_sessions n) payload sid
    _ _ _ (Z.le_refl _) H01 H12 (Z.le_refl _)) as Hs.
  destruct (handle_handshake_resp _ _ _ _ _ _ _) as [ok m]. cbn in Hs.
  assert (node_inv (on_sessions m 3 n)) as Hm by exact (session_inv _ _ _ _ _ Hn Hs).
  destruct ok; [|done]. split_and!; [|done|done]. apply put_pending_inv; [|done].
  apply alter_dom_subset, Hn.
Qed.

Lemma keeps_session_purges id :
  keeps (CRemoveSession id) /\ keeps CPurgeRetired /\ keeps CPurgeIncomplete /\ keeps CPurgeReplays.
Proof.
  split_and!; puts; try (eapply (session_inv _ _ _ (clock_at 0 n) (clock_at 0 n)); [done|]).
  - apply put_sessions_inv; [|done].
    eapply step_reachable; [apply (ni_sessions _ Hn)|apply (step_remove _ 0 0)].
  - apply step_purge_retired. lia.
  - apply step_purge_incomplete. lia.
  - apply step_purge_replays. lia.
Qed.

(** *** Pending handshakes *)

Lemma on_pending_inv {A : Type}
    (f : gmap NodeId PendingHandshake -> A * gmap NodeId PendingHandshake) n :
  node_inv n -> dom (snd (f (nd_pending n))) ⊆ known n ->
  node_inv (snd (on_pending f n)) /\ known n ⊆ known (snd (on_pending f n)).
Proof.
  intros Hn Hd. unfold on_pending. destruct (f (nd_pending n)) as [a m]. cbn in *.
  split; [by apply put_pending_inv|done].
Qed.

Lemma insert_dom_subset {A : Type} (id : NodeId) (x : A) (m : gmap NodeId A) (K : gset NodeId) :
  id ∈ K -> dom m ⊆ K -> dom (<[id := x]> m) ⊆ K.
Proof. intros. rewrite dom_insert_L. set_solver. Qed.

Lemma pending_at_subset (id : NodeId) (m : gmap NodeId PendingHandshake) (K : gset NodeId) :
  id ∈ K -> dom m ⊆ K -> dom (snd (pending_at id m)) ⊆ K.
Proof. apply insert_dom_subset. Qed.

#[local] Ltac pendings :=
  intros n Hn Hc; cbn in Hc; pose proof (ni_pending _ Hn) as Hd; cbn [exec];
  repeat (case_match; [split_and!; done|]);
  match goal with |- context [on_pending ?f n] =>
    destruct (on_pending_inv f n Hn) as [Hi Hk]; [|split_and!; [exact Hi|exact Hk|exact I]] end.

Lemma keeps_reserve peer sid e : keeps (CReserve peer sid e).
Proof. pendings. case_match; [done|]. by apply insert_dom_subset. Qed.
Lemma keeps_pending_erase peer : keeps (CPendingErase peer).
Proof. pendings. cbn. rewrite dom_delete_L. set_solver. Qed.
Lemma keeps_attempt peer : keeps (CAttempt peer).
Proof. pendings. by apply alter_dom_subset. Qed.
Lemma keeps_await peer : keeps (CAwait peer).
Proof. pendings. by apply pending_at_subset. Qed.
Lemma keeps_pending_done peer : keeps (CPendingDone peer).
Proof. pendings. by apply pending_at_subset. Qed.
Lemma keeps_await_done peer : keeps (CAwaitDone peer).
Proof. pendings. by apply pending_at_subset. Qed.
Lemma keeps_register peer : keeps (CRegister peer).
Proof. pendings. cbn. case_match; [by apply alter_dom_subset|by apply insert_dom_subset]. Qed.
Lemma keeps_store_cookie sid sender cookie : keeps (CStoreCookie sid sender cookie).
Proof. pendings. cbn. case_match; [by apply alter_dom_subset|done]. Qed.
Lemma keeps_mark_done peer sid : keeps (CMarkDone peer sid).
Proof. pendings. by apply insert_dom_subset. Qed.

(** *** Throttles *)

Lemma throttle_subset (interval : Z) (id : NodeId) (now : Z) (m : gmap NodeId Z) (K : gset NodeId) :
  id ∈ K -> dom m ⊆ K -> dom (snd (throttle interval id now m)) ⊆ K.
Proof. intros. unfold throttle. repeat case_match; try done; by apply insert_dom_subset. Qed.

Lemma keeps_rekey_due peer now interval : keeps (CRekeyDue peer now interval).
Proof.
  intros n Hn Hc. cbn [exec call_ok] in *.
  assert (node_inv (put_rekeys (<[peer := now]> (nd_rekeys n)) n)) as Hi.
  { pose proof (insert_dom_subset peer now _ _ Hc (ni_rekeys _ Hn)). keep Hn. }
  repeat case_match; by split_and!.
Qed.

Lemma keeps_punch_due peer now : keeps (CPunchDue peer now).
Proof.
  intros n Hn Hc. cbn [exec call_ok] in *.
  pose proof (throttle_subset (secs 30) peer now _ _ Hc (ni_punch_attempts _ Hn)) as Hd.
  destruct (throttle _ _ _ _) as [ok m]. split_and!; [|done|done]. keep Hn.
Qed.

Lemma keeps_refresh_due peer now : keeps (CRefreshDue peer now).
Proof.
  intros n Hn Hc. cbn [exec call_ok] in *.
  pose proof (throttle_subset (ms ENDPOINT_BINDING_REFRESH_MS) peer now _ _ Hc
    (ni_refreshes _ Hn)) as Hd.
  destruct (throttle _ _ _ _) as [ok m]. split_and!; [|done|done]. keep Hn.
Qed.

(** *** Admission *)

Lemma keeps_rate_allow source : keeps (CRateAllow source).
Proof.
  intros n Hn _. cbn [exec]. destruct (ni_rate _ Hn) as [Hr Hc].
  destruct (allow source (clock_at 0 n) (nd_rate n)) as [ok r] eqn:E.
  split_and!; [|done|done]. apply (allow_spec _ _ (clock_at 0 n + 1)) in E as (Ho & Hcfg & _).
  - pose proof (after_inv 1 n Hn) as Ha. keep Ha. split; [|congruence].
    eapply limiter_ok_later; [apply clock_mono|exact Ho]. lia.
  - unfold clock_at. by rewrite Nat.add_0_r.
  - rewrite Hc. cbn. unfold ms. lia.
Qed.

Lemma keeps_cookie_verify cookie source sid frame : keeps (CCookieVerify cookie source sid frame).
Proof.
  intros n Hn _. cbn [exec]. destruct (verify _ _ _ _ _ _ _) as [[ok m] r].
  split_and!; [by apply put_rng_inv, put_cookies_inv, after_inv|done|done].
Qed.

Lemma keeps_cookie_issue source sid frame : keeps (CCookieIssue source sid frame).
Proof.
  intros n Hn _. cbn [exec]. destruct (issue _ _ _ _ _ _) as [[ok m] r].
  split_and!; [by apply put_rng_inv, put_cookies_inv, after_inv|done|done].
Qed.

Lemma keeps_quota_allow sender bytes : keeps (CQuotaAllow sender bytes).
Proof.
  intros n Hn _. cbn [exec]. destruct (ni_quota _ Hn) as [Hq Hs].
  pose proof (relay_allow_bounded sender bytes (clock_at 0 n) (nd_quota n)) as [Hc Hb].
  destruct (relay_allow _ _ _ _) as [out l]. cbn [snd] in *. rewrite Hq in Hc, Hb.
  split_and!; [|done|done]. pose proof (after_inv 1 n Hn) as Ha. keep Ha.
  split; [done|]. by apply Hb.
Qed.

(** *** Peers *)

Lemma peer_call_inv op n :
  (forall id, replaces_peer id op = false) -> identities_ok (peer_step op (nd_peers n)) ->
  node_inv n ->
  node_inv (put_peers (peer_step op (nd_peers n)) (after 1 n)) /\
  known n ⊆ known (put_peers (peer_step op (nd_peers n)) (after 1 n)).
Proof.
  intros Hr Hi Hn. destruct (peer_step_known op (nd_peers n) Hr) as [Hd Hm].
  destruct (ni_peers _ Hn) as (Ho & _ & Hmax).
  apply (put_peers_inv _ (after 1 n)); [by apply peer_step_ok|done|congruence|done|by apply after_inv].
Qed.

#[local] Ltac peer_update op :=
  let n := fresh "n" in intros n Hn _;
  destruct (peer_call_inv (op (clock_at 0 n)) n (λ _, eq_refl)) as [Hi Hk];
    [apply update_peer_identities; [by intros []|apply Hn]|done
    |split_and!; [exact Hi|exact Hk|exact I]].

Lemma keeps_mark_seen id e : keeps (CMarkSeen id e).
Proof.
  intros n Hn _. destruct (peer_call_inv (PSeen id e (clock_at 0 n)) n (λ _, eq_refl)) as [Hi Hk];
    [apply update_peer_identities; [|apply Hn]; intros []; by destruct e|done|].
  split_and!; [exact Hi|exact Hk|exact I].
Qed.
Lemma keeps_hole_punched id e : keeps (CMarkHolePunched id e).
Proof. peer_update (PHolePunched id e). Qed.
Lemma keeps_connecting id : keeps (CMarkConnecting id).
Proof. peer_update (λ _ : Z, PConnecting id). Qed.
Lemma keeps_mark_dead id : keeps (CMarkDead id).
Proof. peer_update (λ _ : Z, PDead id). Qed.
Lemma keeps_update_endpoint id e : keeps (CUpdateEndpoint id e).
Proof. peer_update (PEndpoint id e). Qed.
Lemma keeps_set_candidates id cs : keeps (CSetCandidates id cs).
Proof.
  intros n Hn _. destruct (peer_call_inv (PCandidates id cs) n (λ _, eq_refl)) as [Hi Hk]; [|done|].
  - cbn [peer_step]. unfold set_endpoint_candidates.
    do 3 (case_match; [apply Hn|]). apply update_peer_identities; [by intros []|apply Hn].
  - split_and!; [exact Hi|exact Hk|exact I].
Qed.

Lemma keeps_upsert id key e trust : keeps (CUpsert id key e trust).
Proof.
  intros n Hn Hc. cbn [exec call_ok] in *.
  destruct (peer_call_inv (PUpsert id key e trust (clock_at 0 n)) n (λ _, eq_refl)) as [Hi Hk];
    [by apply upsert_identities, Hn|done|]. cbn [peer_step] in *.
  pose proof (upsert_cases id key e trust (clock_at 0 n) (nd_peers n)) as Hu.
  destruct (upsert _ _ _ _ _ _) as [res pm]. split_and!; [exact Hi|exact Hk|].
  intros Hr1 Hr2. cbn [fst snd] in *. unfold known. apply elem_of_union_l, elem_of_dom.
  destruct Hu as [[? _]|[[? _]|[(p & ? & _ & Hp & _)|(? & p & ? & _ & Hp & _)]]]; simplify_eq/=;
    by rewrite lookup_insert_eq.
Qed.

Lemma forall_filtered {A : Type} (P Q : A -> Prop) `{!forall x, Decision (Q x)} (l : list A) :
  Forall P l -> Forall P (filter Q l).
Proof.
  rewrite !Forall_forall. intros Hp x [_ Hx]%list_elem_of_filter. by apply Hp.
Qed.

Lemma all_peers_known n : node_inv n -> Forall (λ p, Peer.node_id p ∈ known n) (all_peers (nd_peers n)).
Proof.
  intros Hn. apply Forall_forall. intros p Hp. destruct (ni_peers _ Hn) as [[Hkey _] _].
  apply list_elem_of_fmap in Hp as ([id q] & -> & He). apply elem_of_entries in He.
  cbn [snd]. rewrite (Hkey _ _ He). apply elem_of_union_l. by apply elem_of_dom_2 in He.
Qed.

Lemma keeps_get_peer id : keeps (CGetPeer id).
Proof. reads. intros Hp. by apply elem_of_union_l, elem_of_dom. Qed.
Lemma keeps_all_peers : keeps CAllPeers.
Proof. reads. by apply all_peers_known. Qed.
Lemma keeps_stale_peers : keeps CStalePeers.
Proof. puts; [by apply after_inv|]. apply forall_filtered. exact (all_peers_known n Hn). Qed.
Lemma keeps_need_keepalive : keeps CNeedKeepalive.
Proof. puts; [by apply after_inv|]. apply forall_filtered. exact (all_peers_known n Hn). Qed.

(** *** Routes *)

Definition table_ok (e : RoutingEngine) : Prop :=
  merge_inv self e /\ max_routes e = ROUTING_MAX_ROUTES.

Lemma on_routing_inv {A : Type} (f : RoutingEngine -> A * RoutingEngine) n :
  node_inv n -> (table_ok (nd_routing n) -> table_ok (snd (f (nd_routing n)))) ->
  node_inv (snd (on_routing f n)) /\ known n ⊆ known (snd (on_routing f n)).
Proof.
  intros Hn Hf. specialize (Hf (ni_routing _ Hn)). unfold on_routing.
  destruct (f (nd_routing n)) as [a e]. split; [by apply put_routing_inv|done].
Qed.

Lemma erase_table f e : table_ok e -> table_ok (erase_if f e).
Proof.
  intros [[He Hl] Hm]. split; [|done]. split; [by apply erase_inv|]. by apply forall_filtered.
Qed.

Lemma made_from_learned r c : made_from r c -> learned_ok self r -> learned_ok self c.
Proof.
  intros (_ & _ & Ht & _ & Hd & Hp & Ho & Hs) [H0' Hr]. split; [congruence|].
  rewrite Ht, Hp, Ho, Hd. intros Hrel. destruct (Hr Hrel) as [Ho' Hself]. split; [|done].
  by case_bool_decide.
Qed.

Lemma add_route_table r e :
  route_typed r -> learned_ok self r -> table_ok e -> table_ok (snd (add_route r e)).
Proof.
  intros Ht Hr [[He Hl] Hm]. pose proof (add_route_inv r e Ht He) as Hi.
  pose proof (add_route_max r e) as Hmax. destruct (add_route r e) as [b e'] eqn:E.
  cbn [snd] in *. split; [|congruence]. split; [done|].
  apply add_route_cases in E as [[_ ->]|(_ & c & Hc & Hcases)]; [done|].
  pose proof (made_from_learned r c Hc Hr) as Hcl.
  destruct Hcases as [(i & old & _ & _ & ->)| ->]; [by apply Forall_insert|].
  apply Forall_app. auto.
Qed.

Lemma update_probed_table k f e :
  (forall r, same_static r (f r)) -> table_ok e -> table_ok (snd (update_probed k f e)).
Proof.
  intros Hf [[He Hl] Hm]. pose proof (update_probed_inv k f e Hf He) as Hi.
  unfold update_probed in *. case_match; [done|]. destruct (list_find _ _) as [[i r]|] eqn:Ef; [|done].
  cbn [snd] in *. split; [|done]. split; [done|]. apply Forall_insert; [done|].
  apply list_find_Some in Ef as (Hr & _ & _). rewrite Forall_lookup in Hl. specialize (Hl _ _ Hr).
  by destruct (Hf r) as (? & ? & ? & ? & ? & ? & ->).
Qed.

#[local] Ltac routing :=
  intros n Hn Hc; cbn [exec call_ok] in *;
  match goal with |- context [on_routing ?f n] =>
    destruct (on_routing_inv f n Hn) as [Hi Hk]; [intros Ht|split_and!; [exact Hi|exact Hk|exact I]]
  end.

Lemma keeps_add_route r : keeps (CAddRoute r).
Proof. routing. destruct Hc. by apply add_route_table. Qed.
Lemma keeps_remove_route id : keeps (CRemoveRoute id).
Proof. routing. by apply erase_table. Qed.
Lemma keeps_expire_routes now : keeps (CExpireRoutes now).
Proof. routing. by apply erase_table. Qed.
Lemma keeps_probe_sent k now : keeps (CProbeSent k now).
Proof. routing. apply update_probed_table; [|done]. intros r. unfold same_static. eauto 10. Qed.
Lemma keeps_probe_success k now rtt : keeps (CProbeSuccess k now rtt).
Proof.
  routing. unfold unit_of, record_probe_success. case_match; [done|].
  apply update_probed_table; [apply probe_success_static|done].
Qed.
Lemma keeps_probe_failure k now : keeps (CProbeFailure k now).
Proof.
  routing. apply update_probed_table; [|done]. intros r. unfold same_static, probe_failure. eauto 10.
Qed.

Lemma keeps_merge advertised sender now : keeps (CMergeTable advertised sender now).
Proof.
  intros n Hn Hc. cbn [exec call_ok] in *. unfold merge_peer_table.
  destruct (ni_peers _ Hn) as (Ho & Hid & Hmax), (ni_routing _ Hn) as [Hr Hrmax].
  pose proof (merge_peers_capacity self sender now (λ i, clock_at i n) advertised 0 (nd_peers n)
    (nd_routing n) no_stats) as Hcap.
  destruct (merge_peers _ _ _ _ _ _ _ _ _) as [[pm e] stats] eqn:E.
  destruct (merge_peers_ok _ _ _ _ _ _ _ _ _ _ _ _ Hc Hid Hr E) as (Hid' & _ & Hr' & _).
  destruct Hcap as (Ho' & Hm & Hd & Hrm). cbn [fst snd] in *.
  destruct (put_peers_inv pm (after (length advertised) n)) as [Hi Hk];
    [auto|done|congruence|done|by apply after_inv|].
  split_and!; [|exact Hk|done]. apply put_routing_inv; [|done]. split; [done|congruence].
Qed.

(** *** Gossip and revocations *)

Lemma canonical_map_dom (current : list AdvertisedPeer) (K : gset NodeId) :
  (forall p, p ∈ current -> adv_node p ∈ K) -> dom (canonical_map current) ⊆ K.
Proof.
  unfold canonical_map. intros Hin.
  assert (forall (m : gmap NodeId AdvertisedPeer), dom m ⊆ K ->
    dom (foldl (λ m p, <[adv_node p := Gossip.canonicalize p]> m) m current) ⊆ K) as Hf.
  { induction current as [|p l IH]; intros m Hm; cbn [foldl]; [done|].
    apply IH; [intros q Hq; apply Hin; by right|]. apply insert_dom_subset; [|done].
    apply Hin. left. }
  apply Hf. by rewrite dom_empty_L.
Qed.

Lemma refresh_dom (es : list (NodeId * AdvertisedPeer)) (K : gset NodeId) : forall acc,
  (forall x, x ∈ es -> x.1 ∈ K) -> dom (fst acc) ⊆ K -> dom (fst (foldl refresh acc es)) ⊆ K.
Proof.
  induction es as [|[k p] es IH]; intros [cur next] Hin Hd; cbn [foldl]; [done|].
  apply IH; [intros x Hx; apply Hin; by right|]. unfold refresh.
  assert (dom (<[k := mkCurrent p next]> cur) ⊆ K).
  { apply insert_dom_subset; [|done]. apply (Hin (k, p)). left. }
  repeat case_match; done.
Qed.

Lemma keeps_prepare recipient current full : keeps (CPrepare recipient current full).
Proof.
  intros n Hn Hc. cbn [exec call_ok] in *. destruct (ni_gossip _ Hn) as [_ Hs].
  pose proof (canonical_map_dom current _ Hc) as Hd. unfold prepare. cbn zeta.
  pose proof (refresh_dom (entries (canonical_map current)) ({[self]} ∪ known n)
    (filter (λ kc, is_Some (canonical_map current !! kc.1)) (current_ (nd_gossip n)),
     next_revision_ (nd_gossip n))) as Hf.
  destruct (foldl refresh _ _) as [cur next]. split_and!; [|done|done]. keep Hn. split; cbn.
  - apply Hf.
    + intros [k p] Hk%elem_of_entries. apply Hd. by eapply elem_of_dom_2.
    + cbn [fst]. intros k [x Hx]%elem_of_dom. apply map_lookup_filter_Some in Hx as [_ Hx].
      apply Hd. by apply elem_of_dom.
  - by rewrite dom_fmap_L.
Qed.

Lemma keeps_commit recipient revisions : keeps (CCommit recipient revisions).
Proof.
  intros n Hn Hc. cbn [exec call_ok] in *. split_and!; [|done|done].
  destruct (ni_gossip _ Hn) as [Hcur Hs]. keep Hn. split; [done|]. by apply insert_dom_subset.
Qed.

Lemma keeps_retain recipients : keeps (CRetain recipients).
Proof.
  puts. destruct (ni_gossip _ Hn) as [Hcur Hs]. keep Hn. split; [done|]. cbn. etrans; [|exact Hs].
  apply subseteq_dom, map_filter_subseteq.
Qed.

Lemma keeps_add_revocation r : keeps (CAddRevocation r).
Proof.
  intros n Hn Hc. cbn [exec call_ok] in *. destruct (ni_revocations _ Hn) as [Ho Hl].
  pose proof (add_revocation_spec r _ Ho) as Ha.
  destruct (add_revocation r (nd_revocations n)) as [added l] eqn:E. destruct Ha as [Ho' _].
  split_and!; [|done|done]. keep Hn. split; [done|].
  unfold add_revocation in E. repeat case_match; simplify_eq; try done.
  - pose proof (replace_record_spec r (nd_revocations n)) as Hr.
    match goal with X : replace_record _ _ = _ |- _ => rewrite X in Hr end.
    destruct Hr as (_ & _ & Hin & _). rewrite Forall_forall in Hl |- *.
    intros x [-> | Hx]%Hin; auto.
  - apply Forall_app. auto.
Qed.

(** *** Probes, punches and candidates *)

Lemma tracker_begin_max {T : Type} `{!EqDecision T} usable id (tg : T) now t :
  maximum_ (snd (tracker_begin usable id tg now t)) = maximum_ t.
Proof. unfold tracker_begin. repeat case_match; done. Qed.

(** The trackers only lose entries, or gain one that [usable] admits. *)
Lemma tracker_sub_keeps {T : Type} `{!EqDecision T} usable (t : Tracker T) m max :
  Probe.tracker_ok usable t /\ maximum_ t = max -> m ⊆ pending_ t ->
  Probe.tracker_ok usable (Probe.set_pending m t) /\ maximum_ (Probe.set_pending m t) = max.
Proof. intros [Ht Hm] Hs. split; [by apply tracker_ok_sub|done]. Qed.

Lemma tracker_acknowledge_keeps {T : Type} `{!EqDecision T} usable answers id now (t : Tracker T) max :
  Probe.tracker_ok usable t /\ maximum_ t = max ->
  let t' := snd (tracker_acknowledge answers id now t) in
  Probe.tracker_ok usable t' /\ maximum_ t' = max.
Proof.
  intros Ht. unfold tracker_acknowledge. do 2 (case_match; try done).
  apply tracker_sub_keeps; [done|]. apply delete_subseteq.
Qed.

Lemma put_probes_inv t n :
  Probe.tracker_ok probe_usable t /\ maximum_ t = PATH_PROBE_MAX_PENDING ->
  node_inv n -> node_inv (put_probes t n).
Proof. intros Ht Hn. keep Hn. Qed.
Lemma put_punches_inv t n :
  Probe.tracker_ok punch_usable t /\ maximum_ t = ENDPOINT_PUNCH_MAX_PENDING ->
  node_inv n -> node_inv (put_punches t n).
Proof. intros Ht Hn. keep Hn. Qed.

Lemma keeps_probe_calls now :
  keeps (CProbeExpire now) /\ (forall id, keeps (CProbeCancel id)) /\ keeps (CPunchExpire now) /\
  (forall id, keeps (CPunchCancel id)).
Proof.
  split_and!; intros; puts.
  - apply put_probes_inv; [|done]. apply tracker_sub_keeps; [apply Hn|apply map_filter_subseteq].
  - apply put_probes_inv; [|done]. apply tracker_sub_keeps; [apply Hn|apply delete_subseteq].
  - apply put_punches_inv; [|done]. apply tracker_sub_keeps; [apply Hn|apply map_filter_subseteq].
  - apply put_punches_inv; [|done]. apply tracker_sub_keeps; [apply Hn|apply delete_subseteq].
Qed.

Lemma keeps_probe_begin id tg now : keeps (CProbeBegin id tg now).
Proof.
  intros n Hn _. cbn [exec]. destruct (ni_probes _ Hn) as [Ht Hm]. unfold probe_begin.
  fold (probe_usable id tg). pose proof (tracker_begin_max (probe_usable id tg) id tg now (nd_probes n)).
  destruct (tracker_begin _ _ _ _ _) as [ok t] eqn:E. split_and!; [|done|done].
  apply put_probes_inv; [|done]. split; [by eapply tracker_begin_ok|cbn in *; congruence].
Qed.

Lemma keeps_punch_begin id tg now : keeps (CPunchBegin id tg now).
Proof.
  intros n Hn _. cbn [exec]. destruct (ni_punches _ Hn) as [Ht Hm]. unfold punch_begin.
  fold (punch_usable id tg). pose proof (tracker_begin_max (punch_usable id tg) id tg now (nd_punches n)).
  destruct (tracker_begin _ _ _ _ _) as [ok t] eqn:E. split_and!; [|done|done].
  apply put_punches_inv; [|done]. split; [by eapply tracker_begin_ok|cbn in *; congruence].
Qed.

Lemma keeps_probe_acknowledge id responder sequence now :
  keeps (CProbeAcknowledge id responder sequence now).
Proof.
  intros n Hn _. cbn [exec]. unfold probe_acknowledge.
  pose proof (λ f, tracker_acknowledge_keeps probe_usable f id now _ _ (ni_probes _ Hn)) as Ht.
  match goal with |- context [tracker_acknowledge ?f _ _ _] => specialize (Ht f) end.
  destruct (tracker_acknowledge _ _ _ _) as [found t]. split_and!; [|done|done].
  by apply put_probes_inv.
Qed.

Lemma keeps_punch_acknowledge id peer source now : keeps (CPunchAcknowledge id peer source now).
Proof.
  intros n Hn _. cbn [exec]. unfold punch_acknowledge.
  pose proof (λ f, tracker_acknowledge_keeps punch_usable f id now _ _ (ni_punches _ Hn)) as Ht.
  match goal with |- context [tracker_acknowledge ?f _ _ _] => specialize (Ht f) end.
  destruct (tracker_acknowledge _ _ _ _) as [found t]. split_and!; [|done|done].
  by apply put_punches_inv.
Qed.

Lemma insert_by_priority_perm c cs : insert_by_priority c cs ≡ₚ c :: cs.
Proof.
  induction cs as [|d cs IH]; cbn [insert_by_priority]; [done|]. case_match; [done|].
  rewrite IH. by rewrite Permutation_swap.
Qed.

Lemma sort_by_priority_perm cs : sort_by_priority cs ≡ₚ cs.
Proof.
  unfold sort_by_priority.
  assert (forall acc, foldl (λ acc c, insert_by_priority c acc) acc cs ≡ₚ cs ++ acc) as Hf.
  { induction cs as [|c cs IH]; intros acc; cbn [foldl]; [done|].
    rewrite IH, insert_by_priority_perm. by rewrite <- Permutation_middle. }
  rewrite Hf. by rewrite app_nil_r.
Qed.

Lemma nodup_insert {A : Type} (l : list A) i x : NoDup l -> x ∉ l -> NoDup (<[i := x]> l).
Proof.
  revert i. induction l as [|y l IH]; intros i Hn Hx; [done|].
  apply NoDup_cons in Hn as [Hy Hn]. apply not_elem_of_cons in Hx as [Hxy Hx].
  destruct i as [|i]; cbn; apply NoDup_cons; [done|]. split; [|by apply IH].
  intros Hin. apply list_elem_of_lookup in Hin as [j Hj].
  apply list_lookup_insert_Some in Hj as [(_ & <- & _)|[_ Hj]]; [done|].
  apply Hy. by eapply list_elem_of_lookup_2.
Qed.

(** At most eight candidates with distinct endpoints, whatever is merged. *)
Lemma merge_candidates_ok cs c : candidates_ok cs -> candidates_ok (merge_endpoint_candidate cs c).
Proof.
  intros [Hl Hd]. unfold merge_endpoint_candidate.
  set (merged := match list_find _ cs with Some _ => _ | None => _ end).
  assert (candidates_ok merged) as [Hl' Hd'].
  { subst merged. destruct (list_find _ cs) as [[i x]|] eqn:E.
    - apply list_find_Some in E as (Hi & He & _). split; [by rewrite length_insert|].
      rewrite list_fmap_insert, <- He, list_insert_id; [done|]. by rewrite list_lookup_fmap, Hi.
    - apply list_find_None in E.
      assert (cand_endpoint c ∉ cand_endpoint <$> cs) as Hnew.
      { intros (x & Hx & Hin)%list_elem_of_fmap. rewrite Forall_forall in E. by apply (E x). }
      case_match eqn:Elt.
      + apply Z.ltb_lt in Elt. unfold ENDPOINT_CANDIDATE_MAX_COUNT in Elt.
        split; [rewrite length_app; cbn; lia|]. rewrite fmap_app. apply NoDup_app.
        split_and!; [done| |apply NoDup_singleton].
        intros x Hx Hs. apply list_elem_of_singleton in Hs. by subst.
      + split; [by rewrite length_insert|]. rewrite list_fmap_insert. by apply nodup_insert. }
  split; [by rewrite sort_by_priority_perm|]. by rewrite sort_by_priority_perm.
Qed.

Lemma keeps_record_candidate c : keeps (CRecordCandidate c).
Proof.
  intros n Hn _. cbn [exec snd fst]. case_match; [done|]. split_and!; [|done|done].
  pose proof (merge_candidates_ok _ c (ni_candidates _ Hn)). keep Hn.
Qed.

(** *** Packets *)

Lemma default_limits_ok :
  limits_ok (data_limits default_queue_limits) /\ limits_ok (control_limits default_queue_limits).
Proof. done. Qed.

Lemma send_transport_ok data dest p t :
  transport_ok t -> transport_ok (snd (transport_send data dest p t)).
Proof.
  intros [Hq Hf]. unfold transport_send. case_match eqn:El; [done|]. apply Z.ltb_ge in El.
  do 2 (case_match; [done|]).
  destruct (reachable_queue_ok _ _ (proj1 default_limits_ok) (proj2 default_limits_ok) Hq) as [Ho _].
  pose proof (queue_ran _ _ (OpEnqueue dest (Some data) p) Hq) as Hr. cbn [step_queue] in Hr.
  destruct (enqueue_spec dest data p (send_queue t) Ho)
    as [(_ & q & E & (_ & _ & Hc) & _)|(_ & res & Hres & E)]; rewrite E in *.
  - split; [done|]. intros p' k. cbn [snd set_queue send_queue max_datagram_size].
    rewrite Hc. case_decide; [|apply Hf]. apply Forall_app. split; [apply Hf|by constructor].
  - by destruct res.
Qed.

Lemma send_iteration_ok t : transport_ok t -> transport_ok (snd (send_iteration t)).
Proof.
  intros [Hq Hf]. unfold send_iteration. case_match; [done|].
  destruct (reachable_queue_ok _ _ (proj1 default_limits_ok) (proj2 default_limits_ok) Hq) as [Ho _].
  pose proof (queue_ran _ _ OpPop Hq) as Hr. cbn [step_queue] in Hr.
  assert (transport_ok (set_queue (snd (pop (send_queue t))) t)) as Ht.
  { destruct (pop_spec (send_queue t) Ho)
      as [(_ & _ & E)|(p & k & active & b & items & q & _ & _ & Hb & E & (_ & _ & Hc) & _)];
      rewrite E in *; (split; [done|]); intros p' k'; [apply Hf|].
    cbn [snd set_queue send_queue max_datagram_size]. rewrite Hc. case_decide; [|apply Hf].
    specialize (Hf p k). rewrite Hb in Hf. by apply Forall_cons in Hf as [_ Hf]. }
  destruct (pop (send_queue t)) as [[d|] q]; [|done]. repeat case_match; done.
Qed.

Lemma put_transport_inv t n : transport_ok t -> node_inv n -> node_inv (put_transport t n).
Proof. intros Ht Hn. keep Hn. Qed.

Lemma keeps_send data dest p : keeps (CSend data dest p).
Proof.
  intros n Hn _. cbn [exec].
  pose proof (send_transport_ok data dest p _ (ni_transport _ Hn)) as Ht.
  destruct (transport_send _ _ _ _) as [ok t]. split_and!; [|done|done]. by apply put_transport_inv.
Qed.

Lemma keeps_send_iteration : keeps CSendIteration.
Proof.
  intros n Hn _. cbn [exec]. pose proof (send_iteration_ok _ (ni_transport _ Hn)) as Ht.
  destruct (send_iteration _) as [out t]. split_and!; [|done|done]. by apply put_transport_inv.
Qed.

Lemma keeps_write_packet p : keeps (CWritePacket p).
Proof.
  intros n Hn Hc. cbn [exec call_ok] in *. case_match; [|done]. split_and!; [|done|done].
  pose proof (ni_adapter _ Hn) as Ha. keep Hn. by constructor.
Qed.

Lemma keeps_build_onion path keys packet : keeps (CBuildOnion path keys packet).
Proof.
  intros n Hn _. cbn [exec]. destruct (build_onion _ _ _ _ _) as [out counter].
  split_and!; [|done|done]. keep Hn.
Qed.

(** *** Files *)

Lemma on_files_inv {A : Type} (f : Z -> FileIo -> FileNode -> A * FileNode) n :
  (forall now io fs, FileNode.node_ok fs -> FileNode.node_ok (snd (f now io fs))) -> node_inv n ->
  node_inv (snd (on_files f n)) /\ known n ⊆ known (snd (on_files f n)).
Proof.
  intros Hf Hn. unfold on_files.
  specialize (Hf (clock_at 0 n) (host_files (nd_ticks n)) _ (ni_files _ Hn)).
  destruct (f _ _ _) as [a fs]. split; [|done]. apply put_files_inv; [done|by apply after_inv].
Qed.

#[local] Ltac filing :=
  intros n Hn Hc; cbn [exec call_ok] in *;
  match goal with |- context [on_files ?f n] =>
    destruct (on_files_inv f n) as [Hi Hk];
      [intros now io fs Hfs|exact Hn|split_and!; [exact Hi|exact Hk|exact I]] end.

Lemma keeps_file_header peer h : keeps (CFileHeader peer h).
Proof. filing. exact (file_step_ok fs (EvHeader io peer h now) Hfs Hc). Qed.
Lemma keeps_file_chunk peer c : keeps (CFileChunk peer c).
Proof. filing. exact (file_step_ok fs (EvChunk io peer c now) Hfs I). Qed.
Lemma keeps_file_ack peer a : keeps (CFileAck peer a).
Proof. filing. exact (file_step_ok fs (EvAcked peer a now) Hfs I). Qed.
Lemma keeps_cancel_incoming peer id : keeps (CCancelIncoming peer id).
Proof. filing. destruct Hfs. split; by apply cancel_incoming_ok. Qed.
Lemma keeps_cancel_outgoing peer id : keeps (CCancelOutgoing peer id).
Proof. filing. eapply same_incoming_ok, Hfs. apply cancel_outgoing_incoming. Qed.
Lemma keeps_collect_expired : keeps CCollectExpired.
Proof. filing. exact (file_step_ok fs (EvCollect now) Hfs I). Qed.
Lemma keeps_begin_send h peers : keeps (CBeginSend h peers).
Proof. filing. exact (file_step_ok fs (EvBegin h peers now) Hfs I). Qed.
Lemma keeps_erase_transfers keys : keeps (CEraseTransfers keys).
Proof. filing. by eapply same_incoming_ok, Hfs. Qed.
Lemma keeps_send_round path s : keeps (CSendRound path s).
Proof.
  filing. pose proof (file_step_ok fs (EvRound (default [] (files fs !! path)) now s) Hfs I) as Hr.
  cbn [file_step] in Hr. by destruct (send_round _ _ _ _) as [[msgs s'] fs'].
Qed.
Lemma keeps_remove_file path : keeps (CRemoveFile path).
Proof.
  puts. apply put_files_inv; [|by apply after_inv].
  eapply same_incoming_ok, (ni_files _ Hn). apply remove_file_incoming.
Qed.
Lemma keeps_prepare_send path : keeps (CPrepareSend path).
Proof.
  intros n Hn _. cbn [exec]. destruct (prepare_send _ _ _ _ _) as [h r].
  split_and!; [by apply put_rng_inv, after_inv|done|done].
Qed.

(** *** All calls *)

Lemma keeps_random_u32 : keeps CRandomU32.
Proof.
  intros n Hn _. cbn [exec]. destruct (random_u32 (nd_rng n)) as [x r] eqn:E.
  split_and!; [by apply put_rng_inv|done|]. cbn. intros v ->. unfold random_u32 in E.
  destruct (rng_fill 4 (nd_rng n)) as [[bs|] r'] eqn:Ef; [|done]. injection E as <- _.
  apply rng_fill_length in Ef. pose proof (be_combine_range bs) as Hb. by rewrite Ef in Hb.
Qed.

Lemma keeps_random_u64 : keeps CRandomU64.
Proof.
  intros n Hn _. cbn [exec]. destruct (random_u64 (nd_rng n)) as [x r].
  split_and!; [by apply put_rng_inv|done|done].
Qed.

Lemma keeps_create_responder prologue : keeps (CCreateResponder prologue).
Proof.
  intros n Hn _. cbn [exec]. destruct (create_responder _ _ _) as [hs r].
  split_and!; [by apply put_rng_inv|done|done].
Qed.

Create HintDb node_calls.
#[local] Hint Resolve keeps_decrypt keeps_encrypt keeps_create_init keeps_init_admit
  keeps_init_arbitrate keeps_init_install keeps_handle_response keeps_reserve
  keeps_pending_erase keeps_attempt keeps_await keeps_pending_done keeps_await_done
  keeps_register keeps_store_cookie keeps_mark_done keeps_rekey_due keeps_punch_due
  keeps_refresh_due keeps_rate_allow keeps_cookie_verify keeps_cookie_issue keeps_quota_allow
  keeps_mark_seen keeps_hole_punched keeps_connecting keeps_mark_dead keeps_update_endpoint
  keeps_set_candidates keeps_upsert keeps_get_peer keeps_all_peers keeps_stale_peers
  keeps_need_keepalive keeps_add_route keeps_remove_route keeps_expire_routes keeps_probe_sent
  keeps_probe_success keeps_probe_failure keeps_merge keeps_prepare keeps_commit keeps_retain
  keeps_add_revocation keeps_probe_begin keeps_punch_begin keeps_probe_acknowledge
  keeps_punch_acknowledge keeps_record_candidate keeps_send keeps_send_iteration
  keeps_write_packet keeps_build_onion keeps_file_header keeps_file_chunk keeps_file_ack
  keeps_cancel_incoming keeps_cancel_outgoing keeps_collect_expired keeps_begin_send
  keeps_erase_transfers keeps_send_round keeps_remove_file keeps_prepare_send : node_calls.
#[local] Hint Resolve keeps_random_u32 keeps_random_u64 keeps_create_responder : node_calls.

Lemma exec_keeps c : keeps c.
Proof.
  destruct c; auto with node_calls;
    first [solve [reads] | solve [puts; keep Hn] | solve [puts; by apply after_inv]
          | solve [apply keeps_session_purges; exact zero32] | apply (keeps_probe_calls now)
          | apply (keeps_probe_calls 0)].
Qed.

End invariant.
