(* ===== verification/NodeSafe.v ===== *)
(** * The threads of a node keep its invariant ([src/tunnel/tunnel.cpp])

    Every program of [Tunnel] is checked against [wp] of [NodeInv]: it makes only allowed
    calls, whatever the other threads do in between, and never throws.  [system_step] is the
    node as a whole: threads start at any time, their calls interleave, datagrams, packets
    and presences arrive, and the node is stopped and started again.  The invariant holds in
    every state it can reach. *)

From Stdlib Require Import ZArith Lia Bool.
From Stdlib.Strings Require Import Byte.
From stdpp Require Import base numbers gmap option list.
From S2P Require Import Prelude Wire Packet Replay Crypto Identity Revocation HandshakeV2 NoiseIk.
From S2P Require Import Session SessionInv SessionMsg SessionHandshake IpAddress Endpoint Discovery Probe Admission.
From S2P Require Import Routing Onion RelayLimiter SendQueue Transport Peer PeerTable Gossip.
From S2P Require Import FileMsg FileTransfer FileNode Node Tunnel NodeInv.

Section programs.
Context `{OpenSSL, RandomSource, NoiseC, Machine}.
Context (cfg : TunnelConfig).

#[local] Open Scope prog_scope.
#[local] Notation self := (self_id cfg).
#[local] Notation safe := (safe cfg).
#[local] Notation wp := (wp cfg).

(** ** Automation *)

Lemma safe_of_wp {A : Type} K (p : prog A) : wp K p (λ _ _, True) -> safe K p.
Proof. done. Qed.
Lemma wp_of_safe {A : Type} K (p : prog A) : safe K p -> wp K p (λ _ _, True).
Proof. done. Qed.
#[local] Opaque NodeInv.safe.

Create HintDb safe discriminated.
#[local] Hint Constants Opaque : safe.

(** Membership in the known ids, through the inclusions between them. *)
#[local] Ltac known :=
  lazymatch goal with |- _ ∈ ?K => solve
    [ assumption
    | match goal with S : _ ⊆ K |- _ => apply S; known end
    | match goal with F : Forall (λ p, Peer.node_id p ∈ K) ?l, E : ?p ∈ ?l |- _ =>
        exact (proj1 (Forall_forall _ l) F p E) end ]
  end.

#[local] Ltac sub :=
  first [reflexivity | assumption
        | match goal with S : ?A ⊆ ?B |- _ ⊆ ?B => transitivity A; [sub|exact S] end].

(** A peer that was found is known. *)
#[local] Ltac found :=
  repeat match goal with
  | R : is_Some (Some ?p) -> _ |- _ => specialize (R (mk_is_Some (Some p) p eq_refl))
  end.

(** One step through a program. *)
#[local] Ltac step :=
  lazymatch goal with
  | |- NodeInv.safe _ _ _ => apply safe_of_wp
  | |- NodeInv.wp _ _ (Ret _) _ => cbn [NodeInv.wp]; try exact I
  | |- NodeInv.wp _ _ (prog_bind (op _) _) _ =>
      apply wp_bind; apply wp_op;
        [cbn [call_ok]; try exact I; try assumption; try known
        |let K := fresh "K" in let x := fresh "x" in let S := fresh "S" in let R := fresh "R" in
         intros K x S R; cbn [result_ok] in R]
  | |- NodeInv.wp _ _ (op _) _ =>
      apply wp_op; [cbn [call_ok]; try exact I; try assumption; try known|intros; try exact I]
  | |- NodeInv.wp _ _ (prog_bind (if ?b then _ else _) _) _ => destruct b eqn:?; found; cbn [prog_bind]
  | |- NodeInv.wp _ _ (prog_bind (match ?b with _ => _ end) _) _ =>
      destruct b eqn:?; found; cbn [prog_bind]
  | |- NodeInv.wp _ _ (prog_bind (Ret _) _) _ => cbn [prog_bind]
  | |- NodeInv.wp _ _ (prog_bind (prog_bind _ _) _) _ => apply wp_bind
  | |- NodeInv.wp _ _ (prog_bind (for_each _ _) _) _ =>
      apply safe_bind; [apply safe_for_each; intros|intros]
  | |- NodeInv.wp _ _ (prog_bind (for_while _ _) _) _ =>
      apply safe_bind; [apply safe_for_while; intros|intros]
  | |- NodeInv.wp _ _ (prog_bind _ _) _ => apply safe_bind; [solve [auto with safe]|intros]
  | |- NodeInv.wp _ _ (if ?b then _ else _) _ => destruct b eqn:?
  | |- NodeInv.wp _ _ (match ?b with _ => _ end) _ => destruct b eqn:?; found
  | |- NodeInv.wp _ _ (for_each _ _) _ => apply wp_of_safe, safe_for_each; intros
  | |- NodeInv.wp _ _ (for_while _ _) _ => apply wp_of_safe, safe_for_while; intros
  | |- NodeInv.wp _ _ _ _ => first [progress cbv zeta | solve [apply wp_of_safe; auto with safe]]
  end.
#[local] Ltac walk := intros; repeat step; try known; try apply wp_of_safe.

(** ** Shared steps *)

Lemma safe_session_established K id : safe K (session_established id).
Proof. unfold session_established. walk. Qed.
#[local] Hint Resolve safe_session_established : safe.

Lemma wp_decrypt K data Q :
  (forall K' m, K ⊆ K' -> Q K' m) -> wp K (decrypt data) Q.
Proof. intros HQ. unfold decrypt. walk; [by apply HQ|done]. Qed.

Lemma safe_send_message K peer type payload fl dest p :
  safe K (send_message peer type payload fl dest p).
Proof. unfold send_message. walk. Qed.
#[local] Hint Resolve safe_send_message : safe.

Lemma safe_post_message K peer type payload fl dest p :
  safe K (post_message peer type payload fl dest p).
Proof. unfold post_message. walk. Qed.
#[local] Hint Resolve safe_post_message : safe.

Lemma safe_when_running K p : (forall K', K ⊆ K' -> safe K' p) -> safe K (when_running p).
Proof. intros Hp. unfold when_running. walk. Qed.

Lemma safe_with_session {X : Type} K data sid (decode : DecryptedMessage -> option X) k :
  (forall (K' : gset NodeId) m x peer, K ⊆ K' -> decode m = Some x -> safe K' (k x peer)) ->
  safe K (with_session data sid decode k).
Proof.
  intros Hk. apply safe_of_wp. unfold with_session. apply wp_bind, wp_decrypt. intros K1 m S1.
  destruct m as [m|]; cbn [mbind option_bind]; [|walk]. destruct (decode m) as [x|] eqn:E; [|walk].
  walk. eapply Hk; [by etrans|exact E].
Qed.

Lemma typed_some {X : Type} type (decode : list byte -> option X) m x :
  typed type decode m = Some x -> decode (dm_payload m) = Some x.
Proof. unfold typed. by case_match. Qed.

Lemma safe_packet_fits_route K size depth : safe K (packet_fits_route cfg size depth).
Proof. unfold packet_fits_route. walk. Qed.
Lemma safe_inject K packet : safe K (inject_inner_packet cfg packet).
Proof. unfold inject_inner_packet. walk; done. Qed.
#[local] Hint Resolve safe_packet_fits_route safe_inject : safe.

(** ** Endpoint candidates and punching *)

Lemma safe_send_candidates K peer m : safe K (send_endpoint_candidate_update peer m).
Proof. unfold send_endpoint_candidate_update. walk. Qed.
#[local] Hint Resolve safe_send_candidates : safe.

Lemma safe_announce_candidates K peer e : safe K (announce_endpoint_candidates cfg peer e).
Proof. unfold announce_endpoint_candidates. walk. Qed.
Lemma safe_send_punch K peer e m : safe K (send_endpoint_punch peer e m).
Proof. unfold send_endpoint_punch. walk. Qed.
#[local] Hint Resolve safe_announce_candidates safe_send_punch : safe.

Lemma safe_draw_id attempts begin : forall K,
  (forall (K' : gset NodeId) x, K ⊆ K' -> safe K' (begin x)) -> safe K (draw_id attempts begin).
Proof.
  induction attempts as [|n IH]; intros K Hb; cbn [draw_id]; [walk|].
  assert (forall K', K ⊆ K' -> safe K' (draw_id n begin)) as Hn.
  { intros K' HS. apply IH. intros K2 x S2. apply Hb. by etrans. }
  walk; apply Hn; sub.
Qed.

Lemma safe_punch_candidate K peer now c : safe K (punch_candidate peer now c).
Proof.
  apply safe_of_wp. unfold punch_candidate.
  apply safe_bind; [apply safe_draw_id; intros; walk|]. walk.
Qed.
#[local] Hint Resolve safe_punch_candidate : safe.

Lemma safe_begin_punching K peer : safe K (begin_endpoint_punching peer).
Proof. unfold begin_endpoint_punching. walk. Qed.
#[local] Hint Resolve safe_begin_punching : safe.

Lemma safe_refresh_bindings K : safe K (refresh_endpoint_bindings cfg).
Proof. unfold refresh_endpoint_bindings, refresh_binding. walk. Qed.
#[local] Hint Resolve safe_refresh_bindings : safe.

(** ** Gossip and revocations *)

(** The advertised table names this node and peers it knows. *)
Lemma wp_build_advertised (K : gset NodeId) Q :
  (forall (K' : gset NodeId) l, K ⊆ K' -> (forall p, p ∈ l -> adv_node p ∈ {[self]} ∪ K') ->
   Q K' l) ->
  wp K (build_advertised_peers cfg) Q.
Proof.
  intros HQ. unfold build_advertised_peers. walk. apply HQ; [sub|].
  intros p [-> | Hp]%elem_of_cons; [set_solver|].
  apply list_elem_of_fmap in Hp as (q & -> & Hq). apply list_elem_of_filter in Hq as [_ Hq].
  apply elem_of_union_r. cbn [advertise_peer adv_node]. known.
Qed.

Lemma safe_send_batch (K : gset NodeId) peer e b : peer ∈ K -> safe K (send_batch peer e b).
Proof. intros Hp. unfold send_batch. walk. Qed.

Lemma safe_send_peer_table K peer full : safe K (send_peer_table cfg peer full).
Proof.
  unfold send_peer_table. do 2 step. destruct x as [p|]; cbn [mbind option_bind]; [|walk].
  destruct (Peer.endpoint p) as [e|]; [|walk]. apply wp_bind, wp_build_advertised.
  intros K1 l S1 Hl. step. walk. apply safe_send_batch.
  assert (peer ∈ K0) by (apply R; by eexists). known.
Qed.
#[local] Hint Resolve safe_send_peer_table : safe.

Lemma safe_announce_peer_table K exclude full : safe K (announce_peer_table cfg exclude full).
Proof. unfold announce_peer_table. walk. Qed.
#[local] Hint Resolve safe_announce_peer_table : safe.

Lemma safe_handle_peer_table K sender data : safe K (handle_peer_table cfg sender data).
Proof.
  unfold handle_peer_table. destruct (deserialize_peer_table data) as [l|] eqn:E; [|walk].
  apply deserialize_peer_table_typed in E. walk.
Qed.
#[local] Hint Resolve safe_handle_peer_table : safe.

Lemma safe_announce_revocations K exclude : safe K (announce_membership_revocations cfg exclude).
Proof. unfold announce_membership_revocations. walk. Qed.
#[local] Hint Resolve safe_announce_revocations : safe.

Lemma safe_add_revocations rs : forall K, safe K (add_revocations cfg rs).
Proof. induction rs as [|r rs IH]; intros K; cbn [add_revocations]; walk; done. Qed.
#[local] Hint Resolve safe_add_revocations : safe.

Lemma safe_add_membership_revocation K r : safe K (add_membership_revocation cfg r).
Proof.
  unfold add_membership_revocation. destruct (local_revocation cfg r) eqn:E; cbn [negb]; walk; done.
Qed.

(** ** Relaying and path probes *)

Lemma safe_hop_keys hops : forall K, safe K (hop_keys hops).
Proof. induction hops as [|h hops IH]; intros K; cbn [hop_keys]; walk. Qed.
#[local] Hint Resolve safe_hop_keys : safe.

Lemma safe_send_path_probe K route probe : safe K (send_path_probe cfg route probe).
Proof. unfold send_path_probe. walk. Qed.
#[local] Hint Resolve safe_send_path_probe : safe.

Lemma safe_handle_path_probe K source probe : safe K (handle_path_probe cfg source probe).
Proof. unfold handle_path_probe. walk. Qed.
#[local] Hint Resolve safe_handle_path_probe : safe.

Lemma safe_probe_route K now r : safe K (probe_route cfg now r).
Proof.
  apply safe_of_wp. unfold probe_route. step; [walk|]. step. step; [walk|].
  apply safe_bind; [apply safe_draw_id; intros; walk|]. walk.
Qed.
#[local] Hint Resolve safe_probe_route : safe.

Lemma safe_probe_due_routes K : safe K (probe_due_routes cfg).
Proof. unfold probe_due_routes. walk. Qed.
#[local] Hint Resolve safe_probe_due_routes : safe.

Lemma safe_forward_onion K sender source type peeled :
  safe K (forward_onion cfg sender source type peeled).
Proof. unfold forward_onion. walk. Qed.
#[local] Hint Resolve safe_forward_onion : safe.

Lemma safe_handle_relay K data sid : safe K (handle_relay cfg data sid).
Proof. apply safe_with_session. intros K1 m x peer S1 _. walk. Qed.

#[local] Hint Resolve safe_handle_relay : safe.

(** ** Handshakes *)

(** A response names the peer by the hash of its key. *)
Lemma wp_handle_init K message sid Q :
  (forall (K' : gset NodeId), K ⊆ K' -> Q K' None) ->
  (forall (K' : gset NodeId) r, K ⊆ K' ->
     hash_public_key (response_peer_static r) = response_peer_id r -> Q K' (Some r)) ->
  wp K (handle_handshake_init cfg message sid) Q.
Proof.
  intros HN HS. unfold handle_handshake_init.
  destruct (parse_handshake_v2_init message) as [frame|] eqn:Ef; [|by apply HN].
  apply parse_init_inv in Ef as [(Hu & H0' & _) _].
  walk; try (apply HN; sub); try (by split).
  case_match; [apply HS; [sub|done]|apply HN; sub].
Qed.

Lemma safe_answer_init K sid frame sender : safe K (answer_init cfg sid frame sender).
Proof.
  apply safe_of_wp. unfold answer_init. apply wp_bind, wp_handle_init; [walk|].
  intros K1 r S1 Hr. step. step; [walk|].
  apply orb_false_iff in Heqb as [E1 E2].
  assert (response_peer_id r ∈ K0) as Hk.
  { apply R; intros ->; by rewrite ?bool_decide_eq_true_2 in * by done. }
  walk.
Qed.
#[local] Hint Resolve safe_answer_init : safe.

Lemma safe_init_frame K data h sender : safe K (handle_handshake_init_frame cfg data h sender).
Proof. unfold handle_handshake_init_frame. walk. Qed.
Lemma safe_response_frame K data h : safe K (handle_handshake_response_frame data h).
Proof. unfold handle_handshake_response_frame. walk. Qed.
Lemma safe_cookie_frame K data h sender : safe K (handle_handshake_cookie_frame data h sender).
Proof. unfold handle_handshake_cookie_frame. walk. Qed.
#[local] Hint Resolve safe_init_frame safe_response_frame safe_cookie_frame : safe.

Lemma wp_reserve attempts p Q : forall (K : gset NodeId),
  tp_node_id p ∈ K ->
  (forall (K' : gset NodeId) x, K ⊆ K' -> (forall sid, x = Some (Some sid) -> u32 sid) -> Q K' x) ->
  wp K (reserve_session_id attempts p) Q.
Proof.
  induction attempts as [|n IH]; intros K Hp HQ; cbn [reserve_session_id]; [by apply HQ|].
  assert (forall (K' : gset NodeId), K ⊆ K' -> wp K' (reserve_session_id n p) Q) as Hn.
  { intros K' HS. apply IH; [by apply HS|]. intros K2 x S2. apply HQ. sub. }
  walk; try (apply Hn; sub); try (apply HQ; [sub|done]).
  apply HQ; [sub|]. intros sid [= ->]. by apply R.
Qed.

Lemma safe_send_init attempts p sid init : forall (K : gset NodeId),
  tp_node_id p ∈ K -> safe K (send_init attempts p sid init).
Proof.
  induction attempts as [|n IH]; intros K Hp; cbn [send_init]; [walk|].
  walk; apply IH; known.
Qed.

Lemma safe_handshake_succeeded K p : safe K (handshake_succeeded cfg p).
Proof. unfold handshake_succeeded. walk. Qed.
#[local] Hint Resolve safe_handshake_succeeded : safe.

Lemma safe_initiator (K : gset NodeId) p : tp_node_id p ∈ K -> safe K (handshake_initiator cfg p).
Proof.
  intros Hp. apply safe_of_wp. unfold handshake_initiator. apply wp_bind, wp_reserve; [done|].
  intros K1 [[sid|]|] S1 Hu; [|walk|walk]. step; [by apply Hu|]. step; [|walk].
  apply safe_bind; [apply safe_send_init; known|]. walk.
Qed.

Lemma safe_responder (K : gset NodeId) p : tp_node_id p ∈ K -> safe K (handshake_responder cfg p).
Proof. intros Hp. unfold handshake_responder. walk. Qed.

Lemma safe_handshake_peer (K : gset NodeId) p force :
  tp_node_id p ∈ K -> safe K (handshake_peer cfg p force).
Proof.
  intros Hp. unfold handshake_peer. walk;
    [apply safe_initiator|apply safe_responder|apply safe_initiator|apply safe_responder]; known.
Qed.

(** ** Files *)

Lemma safe_send_file_ack K peer e a : safe K (send_file_ack peer e a).
Proof. unfold send_file_ack. walk. Qed.
Lemma safe_send_file_cancel K peer e id reason : safe K (send_file_cancel peer e id reason).
Proof. unfold send_file_cancel. walk. Qed.
#[local] Hint Resolve safe_send_file_ack safe_send_file_cancel : safe.
Lemma safe_send_file_reply K peer e r : safe K (send_file_reply peer e r).
Proof. unfold send_file_reply. walk. Qed.
#[local] Hint Resolve safe_send_file_reply : safe.

(** A handler of session frames, once it is known to run. *)
#[local] Ltac handler :=
  apply safe_when_running; intros ? ?; apply safe_with_session; intros ? ? ? ? ? ?.

Lemma decode_file_header_wf m h : decode_file_header cfg m = Some h -> file_header_wf h.
Proof.
  unfold decode_file_header. destruct (deserialize_file_header (dm_payload m)) as [h'|] eqn:E; [|done].
  repeat case_match; try done. intros [= <-]. by apply deserialize_header_spec in E as [? _].
Qed.

Lemma safe_file_header_frame K data sid sender : safe K (handle_file_header_frame cfg data sid sender).
Proof.
  unfold handle_file_header_frame. handler.
  match goal with E : decode_file_header _ _ = _ |- _ => apply decode_file_header_wf in E end. walk.
Qed.
Lemma safe_file_chunk_frame K data sid sender : safe K (handle_file_chunk_frame data sid sender).
Proof. unfold handle_file_chunk_frame. handler. walk. Qed.
Lemma safe_file_ack_frame K data sid sender : safe K (handle_file_ack_frame data sid sender).
Proof. unfold handle_file_ack_frame. handler. walk. Qed.
Lemma safe_file_cancel_frame K data sid sender : safe K (handle_file_cancel_frame data sid sender).
Proof. unfold handle_file_cancel_frame. handler. walk. Qed.
#[local] Hint Resolve safe_file_header_frame safe_file_chunk_frame safe_file_ack_frame
  safe_file_cancel_frame : safe.

Lemma safe_expire_files K : safe K expire_file_transfers.
Proof. unfold expire_file_transfers. walk. Qed.
#[local] Hint Resolve safe_expire_files : safe.

(** ** The receive callback *)

Lemma safe_data_frame K data sid sender : safe K (handle_data_frame cfg data sid sender).
Proof.
  unfold handle_data_frame. apply safe_when_running. intros K1 S1.
  apply safe_of_wp, wp_bind, wp_decrypt. intros K2 m S2. walk.
Qed.
Lemma safe_relay_frame K data sid : safe K (handle_relay_frame cfg data sid).
Proof. apply safe_when_running. intros K1 S1. apply safe_handle_relay. Qed.
Lemma safe_keepalive_frame K data sid sender : safe K (handle_keepalive_frame data sid sender).
Proof. unfold handle_keepalive_frame. handler. walk. Qed.
Lemma safe_peer_table_frame K data sid sender : safe K (handle_peer_table_frame cfg data sid sender).
Proof. unfold handle_peer_table_frame. handler. walk. Qed.
Lemma safe_revocation_frame K data sid sender :
  safe K (handle_membership_revocation_frame cfg data sid sender).
Proof. unfold handle_membership_revocation_frame. handler. walk. Qed.
Lemma safe_candidates_frame K data sid sender :
  safe K (handle_endpoint_candidates_frame cfg data sid sender).
Proof. unfold handle_endpoint_candidates_frame. handler. walk. Qed.
Lemma safe_punch_frame K data sid sender : safe K (handle_endpoint_punch_frame data sid sender).
Proof. unfold handle_endpoint_punch_frame. handler. walk. Qed.
Lemma safe_chat_frame K data sid sender : safe K (handle_chat_frame data sid sender).
Proof. unfold handle_chat_frame. handler. walk. Qed.
Lemma safe_path_probe_frame K data sid sender : safe K (handle_path_probe_frame cfg data sid sender).
Proof. unfold handle_path_probe_frame. apply safe_with_session. walk. Qed.
Lemma safe_teardown_frame K data sid : safe K (handle_network_teardown_frame cfg data sid).
Proof. unfold handle_network_teardown_frame. handler. walk. Qed.
#[local] Hint Resolve safe_data_frame safe_relay_frame safe_keepalive_frame safe_peer_table_frame
  safe_revocation_frame safe_candidates_frame safe_punch_frame safe_chat_frame
  safe_path_probe_frame safe_teardown_frame : safe.

Lemma safe_rx_callback K data sender : safe K (rx_callback cfg data sender).
Proof. unfold rx_callback. walk. Qed.

(** ** The loops *)

Lemma safe_send_direct K route raw : safe K (send_direct cfg route raw).
Proof. unfold send_direct. walk. Qed.
Lemma safe_send_relayed K route raw : safe K (send_relayed cfg route raw).
Proof. unfold send_relayed. walk. Qed.
#[local] Hint Resolve safe_send_direct safe_send_relayed : safe.
Lemma safe_tx_packet K raw : safe K (tx_packet cfg raw).
Proof. unfold tx_packet. walk. Qed.

Lemma safe_gossip_round K : safe K (gossip_round cfg).
Proof. unfold gossip_round. walk. Qed.

Lemma safe_send_keepalive K p : safe K (send_keepalive p).
Proof. unfold send_keepalive. walk. Qed.
Lemma safe_bury_peer K p : safe K (bury_peer p).
Proof. unfold bury_peer. walk. Qed.
#[local] Hint Resolve safe_send_keepalive safe_bury_peer : safe.

Lemma safe_refresh_from_discovery K : safe K (refresh_endpoints_from_discovery cfg).
Proof. unfold refresh_endpoints_from_discovery, refresh_from_presence. walk. Qed.
#[local] Hint Resolve safe_refresh_from_discovery : safe.

Lemma safe_rekey_peer K id : safe K (rekey_peer cfg id).
Proof.
  unfold rekey_peer. walk. apply safe_of_wp, safe_bind; [|walk].
  apply safe_handshake_peer. cbn [tp_node_id]. known.
Qed.
#[local] Hint Resolve safe_rekey_peer : safe.

Lemma safe_rekey_due K : safe K (rekey_due cfg).
Proof. unfold rekey_due, rekey_if_due. walk. Qed.
#[local] Hint Resolve safe_rekey_due : safe.

Lemma safe_maintenance K : safe K (maintenance_tick cfg).
Proof. unfold maintenance_tick. apply safe_when_running. walk. Qed.

(** ** Connecting *)

Lemma configured_route_ok p now aip :
  ip_wf (fst aip) /\ 0 <= snd aip ->
  route_typed (configured_route p now aip) /\ learned_ok self (configured_route p now aip).
Proof. intros Ha. split; [done|]. by split. Qed.

Lemma safe_install_routes K p :
  Forall (λ aip, ip_wf (fst aip) /\ 0 <= snd aip) (allowed_ips p) ->
  safe K (install_configured_routes p).
Proof.
  intros Ha. rewrite Forall_forall in Ha. unfold install_configured_routes. apply safe_for_each.
  intros K1 aip S1 Hin. apply safe_of_wp. step. step; [by apply configured_route_ok, Ha|walk].
Qed.

Lemma safe_connect (K : gset NodeId) p backoff :
  tp_node_id p ∈ K -> peer_config_ok p -> safe K (connect_iteration cfg p backoff).
Proof.
  intros Hp [_ Ha]. pose proof (λ K, safe_install_routes K p Ha) as Hr. unfold connect_iteration.
  walk. apply safe_of_wp, safe_bind; [|walk].
  apply safe_handshake_peer. case_match; cbn [tp_node_id]; known.
Qed.

(** ** The user *)

Lemma safe_established_peers ps : forall K, safe K (established_peers ps).
Proof. induction ps as [|p ps IH]; intros K; cbn [established_peers]; walk. Qed.
Lemma safe_broadcast type payload ps : forall K, safe K (broadcast type payload ps).
Proof. induction ps as [|p ps IH]; intros K; cbn [broadcast]; walk. Qed.
#[local] Hint Resolve safe_established_peers safe_broadcast : safe.

Lemma safe_broadcast_chat K text : safe K (broadcast_chat text).
Proof. unfold broadcast_chat. walk. Qed.
Lemma safe_delete_network K : safe K (delete_network cfg).
Proof. unfold delete_network. walk. Qed.
Lemma safe_send_file_start K path target : safe K (send_file_start path target).
Proof. unfold send_file_start. walk. Qed.
Lemma safe_send_file_message K m : safe K (send_file_message m).
Proof. unfold send_file_message. walk. Qed.
#[local] Hint Resolve safe_send_file_message : safe.
Lemma safe_send_file_round K path s : safe K (send_file_round path s).
Proof. unfold send_file_round. walk. Qed.
Lemma safe_send_file_finish K s : safe K (send_file_finish s).
Proof. unfold send_file_finish. walk. Qed.

#[local] Hint Resolve safe_send_file_start safe_send_file_round safe_send_file_finish : safe.
Lemma safe_send_file_loop rounds path : forall s K, safe K (send_file_loop rounds path s).
Proof. induction rounds as [|n IH]; intros s K; cbn [send_file_loop]; walk. Qed.
#[local] Hint Resolve safe_send_file_loop : safe.
Lemma safe_send_file K rounds path target : safe K (send_file rounds path target).
Proof. unfold send_file. walk. Qed.

(** ** The node as a whole *)

(** What the threads of a node run. *)
Inductive thread : prog unit -> Prop :=
  | thread_rx data sender : thread (rx_callback cfg data sender)
  | thread_tx raw : thread (tx_packet cfg raw)
  | thread_gossip : thread (gossip_round cfg)
  | thread_maintenance : thread (maintenance_tick cfg)
  | thread_connect p backoff :
      p ∈ config_peers cfg -> thread (connect_iteration cfg p backoff ;;; Ret tt)
  | thread_send_loop : thread (op CSendIteration ;;; Ret tt)
  | thread_chat text : thread (broadcast_chat text ;;; Ret tt)
  | thread_send_file rounds path target : thread (send_file rounds path target ;;; Ret tt)
  | thread_revoke r : thread (add_membership_revocation cfg r ;;; Ret tt)
  | thread_delete : thread (delete_network cfg ;;; Ret tt)
  | thread_invited key e :
      thread (op (CUpsert (hash_public_key key) key (Some e) true) ;;; Ret tt).

(** A thread that has returned. *)
Definition finished (p : prog unit) : Prop := p = Ret tt.

(** Threads are started and make their calls in any order; the socket and the discovery
    socket receive; the node is stopped, and started again when every thread has ended. *)
Inductive system_step : list (prog unit) * Node -> list (prog unit) * Node -> Prop :=
  | sys_spawn p ps n : thread p -> system_step (ps, n) (p :: ps, n)
  | sys_call ps qs c k n :
      system_step (ps ++ Do c k :: qs, n)
        (ps ++ k (fst (exec cfg c n)) :: qs, snd (exec cfg c n))
  | sys_receive o ps n :
      system_step (ps, n)
        (match recv_iteration o (nd_transport n) with
         | (RecvDeliver data sender, t) => (rx_callback cfg data sender :: ps, put_transport t n)
         | (_, t) => (ps, put_transport t n)
         end)
  | sys_presence data sender ps n :
      system_step (ps, n)
        (ps, put_presences (on_presence self data sender (clock_at 0 n) (nd_presences n)) (after 1 n))
  | sys_stop ps n :
      system_step (ps, n) (ps, put_running false (put_transport (stop_receive (nd_transport n)) n))
  | sys_stopped ps n : Forall finished ps -> system_step (ps, n) ([], stop n)
  | sys_start keepalive dead port adapter binds addresses stun n n' :
      nd_running n = false ->
      start cfg keepalive dead port adapter binds addresses stun n = Some (cfg, n') ->
      system_step ([], n) ([], n').

Inductive system_reachable (r : rng) : list (prog unit) * Node -> Prop :=
  | sys_init : system_reachable r ([], tunnel_init r)
  | sys_next s s' : system_reachable r s -> system_step s s' -> system_reachable r s'.

(** ** Start and stop keep the invariant *)

Context (clock_mono : forall i j, (i <= j)%nat -> host_clock i <= host_clock j).

Lemma engine_empty : merge_inv self (mkEngine [] ROUTING_MAX_ROUTES).
Proof.
  split; [|done]. apply (engine_reachable_inv ROUTING_MAX_ROUTES). constructor.
Qed.

Lemma no_files fs : FileNode.node_ok (mkFileNode ∅ ∅ fs).
Proof. exact (file_run_ok fs [] (Forall_nil_2 _)). Qed.

Lemma empty_queue_transport t :
  send_queue t = queue_init default_queue_limits -> transport_ok t.
Proof. intros E. split; rewrite E; [constructor|]. intros p k. constructor. Qed.

Lemma tunnel_init_inv r : node_inv cfg (tunnel_init r).
Proof.
  split; cbn; try (rewrite dom_empty_L; set_solver).
  - constructor.
  - split_and!; [apply peers_init_ok| |done]. intros id p Hp. cbn in Hp. by apply lookup_empty_Some in Hp.
  - split; [apply engine_empty|done].
  - split; cbn; rewrite dom_empty_L; set_solver.
  - split; [|done]. split_and!; [apply NoDup_nil_2|done|done].
  - split; [apply tracker_init_ok|done].
  - split; [apply tracker_init_ok|done].
  - split; [cbn; lia|apply NoDup_nil_2].
  - done.
  - split; [|done]. eapply limiter_ok_later; [apply (clock_mono 1 2); lia|].
    by apply limiter_init_ok.
  - by apply empty_queue_transport.
  - apply no_files.
  - constructor.
Qed.

Lemma close_transport t : transport_ok t -> transport_ok (transport_close t).
Proof.
  intros [Hq _]. split; [by apply queue_cleared|]. intros p k. constructor.
Qed.

(** A successful bind leaves an empty queue, whatever the new limit is. *)
Lemma bind_ports_transport tries : forall port t port' t',
  queue_reachable default_queue_limits (send_queue t) ->
  bind_ports port tries t = Some (port', t') -> transport_ok t'.
Proof.
  induction tries as [|[v6 v4] tries IH]; intros port t port' t' Hq; cbn [bind_ports]; [done|].
  unfold transport_bind.
  set (t1 := if sock_open t then transport_close t else t).
  assert (queue_reachable default_queue_limits (send_queue t1)) as Hq1.
  { subst t1. case_match; [by apply queue_cleared|done]. }
  destruct (negb _ && negb v4).
  - apply IH. by apply queue_cleared.
  - intros [= <- <-]. split; [by apply queue_cleared|]. intros p k. constructor.
Qed.

Lemma upsert_configured_ok ps : forall k pm,
  Forall peer_config_ok ps -> peers_ok pm -> identities_ok pm ->
  let pm' := upsert_configured k ps pm in
  peers_ok pm' /\ identities_ok pm' /\ max_peers pm' = max_peers pm /\
  dom (peers pm) ⊆ dom (peers pm').
Proof.
  induction ps as [|p ps IH]; intros k pm Hps Ho Hi; cbn [upsert_configured]; [done|].
  apply Forall_cons in Hps as [[Hh _] Hps].
  set (o := PUpsert (tp_node_id p) (tp_public_key p) (Some (tp_endpoint p)) true (host_clock k)).
  destruct (peer_step_known o pm (λ _, eq_refl)) as [Hd Hm].
  destruct (IH (S k) (peer_step o pm)) as (? & ? & Hm' & Hd');
    [done|by apply peer_step_ok|by apply upsert_identities|].
  split_and!; [done|done|by etrans; [exact Hm'|]|by etrans].
Qed.

(** The host's candidates: at most eight, with distinct addresses. *)
Lemma gather_ok port addresses : forall seen acc,
  candidates_ok acc ->
  (forall c, c ∈ acc -> ipv4_network (cand_endpoint c) ∈ seen) ->
  candidates_ok (gather_from port addresses seen acc).
Proof.
  induction addresses as [|a addresses IH]; intros seen acc Hok Hseen; cbn [gather_from]; [done|].
  case_match eqn:El; [done|]. apply negb_false_iff, Z.ltb_lt in El.
  unfold ENDPOINT_CANDIDATE_MAX_COUNT in El.
  set (c := mkCandidate Host _ _). case_match eqn:Ec; [|by apply IH].
  apply andb_true_iff in Ec as [_ Ec]. apply negb_true_iff, bool_decide_eq_false in Ec.
  destruct Hok as [Hl Hd]. apply IH.
  - split; [rewrite length_app; cbn; lia|]. rewrite fmap_app. apply NoDup_app.
    split_and!; [done| |apply NoDup_singleton]. intros e He Hin.
    apply list_elem_of_singleton in Hin. subst e.
    apply list_elem_of_fmap in He as (d & Hd' & Hin). apply Ec. rewrite Hd'. by apply Hseen.
  - intros d [Hin| ->%list_elem_of_singleton]%elem_of_app; [right; by apply Hseen|left].
Qed.

Lemma stop_inv n : node_inv cfg n -> node_inv cfg (stop n).
Proof.
  intros []. split; try assumption; cbn; try (rewrite dom_empty_L; set_solver).
  - destruct ni_probes as [? ?]. split; [|done]. apply tracker_ok_sub; [done|apply map_empty_subseteq].
  - destruct ni_punches as [? ?]. split; [|done]. apply tracker_ok_sub; [done|apply map_empty_subseteq].
  - by apply close_transport.
  - apply no_files.
Qed.

Lemma start_inv keepalive dead port adapter binds addresses stun n c n' :
  Forall peer_config_ok (config_peers cfg) -> node_inv cfg n ->
  start cfg keepalive dead port adapter binds addresses stun n = Some (c, n') -> node_inv cfg n'.
Proof.
  intros Hp Hn. unfold start. case_match; [done|]. case_match; [|done].
  destruct (set_max_datagram_size _ _) as [[] t] eqn:Et; [|done]. case_match; [done|].
  destruct (bind_ports port (take 10 binds) t) as [[port' t']|] eqn:Eb; [|done].
  intros [= <- <-]. apply bind_ports_transport in Eb.
  2:{ unfold set_max_datagram_size in Et. case_match; [done|]. injection Et as <-.
      apply (tr_queue _ (ni_transport _ _ Hn)). }
  destruct (ni_peers _ _ Hn) as (Ho & Hi & Hmax).
  set (pm := set_keepalive_interval _ _).
  destruct (upsert_configured_ok (config_peers cfg) (S (nd_ticks n)) pm)
    as (Ho' & Hi' & Hm' & Hd'); [done|by apply (peer_step_ok (PKeepalive _)), (peer_step_ok (PDeadTimeout _))|done|].
  destruct (put_peers_inv cfg (upsert_configured (S (nd_ticks n)) (config_peers cfg) pm) n)
    as [Hn' _]; [done|done|by etrans; [exact Hm'|]|done|done|].
  pose proof (gather_ok port' addresses [] []) as Hg.
  assert (candidates_ok (gather_from port' addresses [] [])) as Hh.
  { apply Hg; [split; [cbn; lia|apply NoDup_nil_2]|by intros ? ?%elem_of_nil]. }
  destruct Hn'. split; try assumption.
  - constructor.
  - split; cbn; rewrite dom_empty_L; set_solver.
  - cbn. case_match; [by apply merge_candidates_ok|done].
  - cbn. destruct ni_quota. done.
  - cbn in *. destruct ni_rate as [Hr ?]. split; [|done].
    eapply limiter_ok_later; [apply clock_mono|exact Hr]. lia.
  - cbn. unfold start_receive. case_match; [done|]. destruct Eb. by split.
Qed.

(** ** Every interleaving *)

Context (configured_ok : Forall peer_config_ok (config_peers cfg)).

Lemma configured_known p K : p ∈ config_peers cfg -> configured cfg ⊆ K -> tp_node_id p ∈ K.
Proof.
  intros Hp Hs. apply Hs. unfold configured. rewrite elem_of_list_to_set.
  by apply list_elem_of_fmap_2.
Qed.

#[local] Hint Resolve safe_rx_callback safe_tx_packet safe_gossip_round safe_maintenance
  safe_broadcast_chat safe_send_file safe_add_membership_revocation safe_delete_network : safe.

Lemma thread_safe p K : thread p -> configured cfg ⊆ K -> safe K p.
Proof.
  intros Ht Hs. destruct Ht as [| | | |q backoff Hq| | | | | |]; try (by auto with safe); walk.
  apply safe_of_wp, safe_bind; [|walk]. apply safe_connect; [by apply configured_known|].
  rewrite Forall_forall in configured_ok. by apply configured_ok.
Qed.

Definition system_ok (s : list (prog unit) * Node) : Prop :=
  node_inv cfg (snd s) /\ Forall (safe (known cfg (snd s))) (fst s).

Lemma threads_mono (ps : list (prog unit)) (K K' : gset NodeId) :
  K ⊆ K' -> Forall (safe K) ps -> Forall (safe K') ps.
Proof. intros Hs Hp. eapply Forall_impl; [exact Hp|]. intros p. by apply safe_mono. Qed.

Lemma recv_transport o t : transport_ok t -> transport_ok (snd (recv_iteration o t)).
Proof. intros Ht. destruct o; try done. cbn. repeat case_match; try done. by destruct Ht. Qed.

Lemma system_step_ok s s' : system_step s s' -> system_ok s -> system_ok s'.
Proof.
  assert (forall n, configured cfg ⊆ known cfg n) as Hconf by (intros n; apply union_subseteq_r).
  intros [p ps n Hp|ps qs c k n|o ps n|data sender ps n|ps n|ps n Hf|? ? ? ? ? ? ? n n' _ Hst]
    [Hn Hps]; cbn [fst snd] in *.
  - split; [done|]. constructor; [by apply thread_safe|done].
  - apply Forall_app in Hps as [Hp [Hc Hq]%Forall_cons].
    apply wp_of_safe in Hc as [Hc Hk].
    destruct (exec_keeps cfg clock_mono c n Hn Hc) as (Hn' & HS & Hr). split; [done|].
    apply Forall_app. split; [by eapply threads_mono|]. constructor; [|by eapply threads_mono].
    apply safe_of_wp. by apply Hk.
  - pose proof (recv_transport o _ (ni_transport _ _ Hn)) as Ht.
    destruct (recv_iteration o (nd_transport n)) as [[| |data sender] t];
      (split; [by apply put_transport_inv|]); try done.
    constructor; [apply safe_rx_callback|done].
  - split; [|done]. pose proof (after_inv cfg clock_mono 1 n Hn) as Ha. by destruct Ha; split.
  - split; [|done]. destruct Hn. split; try assumption. cbn. by destruct ni_transport.
  - split; [by apply stop_inv|done].
  - split; [by eapply start_inv|done].
Qed.

Lemma system_reachable_ok r s : system_reachable r s -> system_ok s.
Proof.
  induction 1 as [|s s' _ IH Hs]; [|by eapply system_step_ok].
  split; [apply tunnel_init_inv|done].
Qed.

End programs.

(** ** Properties *)

Lemma size_list_to_set_le (l : list NodeId) : (size (list_to_set l : gset NodeId) <= length l)%nat.
Proof.
  induction l as [|x l IH]; [done|]. rewrite list_to_set_cons, size_union_alt, size_singleton.
  cbn [length]. etrans; [apply Nat.add_le_mono_l, subseteq_size, subseteq_difference_l; reflexivity|].
  lia.
Qed.

(** The number of ids a node knows. *)
Lemma known_size `{OpenSSL, RandomSource, NoiseC, Machine} cfg n :
  node_inv cfg n -> (size (known cfg n) <= 256 + length (config_peers cfg))%nat.
Proof.
  intros Hn. destruct (ni_peers _ _ Hn) as ([_ Hc] & _ & Hm). rewrite Hm in Hc.
  unfold PEER_MANAGER_MAX_PEERS in Hc. unfold known.
  rewrite size_union_alt.
  assert (size (dom (peers (nd_peers n))) <= 256)%nat by (rewrite size_dom; lia).
  assert (size (configured cfg ∖ dom (peers (nd_peers n))) <= length (config_peers cfg))%nat; [|lia].
  etrans; [apply subseteq_size, subseteq_difference_l; reflexivity|].
  unfold configured. etrans; [apply size_list_to_set_le|]. by rewrite length_fmap.
Qed.

Lemma keyed_size {A : Type} (m : gmap NodeId A) (K : gset NodeId) b :
  dom m ⊆ K -> (size K <= b)%nat -> (size m <= b)%nat.
Proof. intros Hd Hb. rewrite <- size_dom. apply subseteq_size in Hd. lia. Qed.



(** ** Witnesses *)

Section Example.
#[local] Existing Instances toy_openssl toy_random toy_noise.

(** A clock that advances a millisecond per read, and nothing that fails. *)
Definition toy_machine : Machine :=
  Build_Machine (λ i, ms (Z.of_nat i)) (λ _, io_good) (λ _, true) (λ _, true).
#[local] Existing Instance toy_machine.

Definition alice_at : Endpoint := from_parts 192 0 2 1 4500.
Definition bob_at : Endpoint := from_parts 192 0 2 2 4500.

(** A node with one configured peer, which owns a /24. *)
Definition toy_config (me peer : Key) (ip : Z) (at_ : Endpoint) (peer_net : Z) : TunnelConfig :=
  mkConfig (SessionHandshake.toy_node me) (from_ipv4 ip) 24 1500 3
    (default 0 (safe_overlay_mtu 1500 3 64)) None
    [mkTunnelPeer (hash_public_key (toy_public peer)) (toy_public peer) at_
       [(from_ipv4 peer_net, 24)]] 0 zero32 false.

Definition alice_config : TunnelConfig := toy_config key_a key_b 167772161 bob_at 167772416.
Definition bob_config : TunnelConfig := toy_config key_b key_a 167772417 alice_at 167772160.

Definition toy_started (cfg : TunnelConfig) (r : @rng toy_random) : Node :=
  default (tunnel_init r)
    (snd <$> start cfg 0 0 4500 true [(true, true)] [3221225985] None (tunnel_init r)).

Lemma toy_clock : forall i j, (i <= j)%nat -> @host_clock toy_machine i <= @host_clock toy_machine j.
Proof. intros i j Hij. cbn. unfold ms. lia. Qed.

Lemma toy_config_ok me peer ip at_ net :
  Forall peer_config_ok (config_peers (toy_config me peer ip at_ net)).
Proof. repeat constructor. cbn [snd]. lia. Qed.

(** The node is up and has received a frame that no session can open. *)
Definition toy_junk : list byte := serialize_packet_header (message_header TYPE_DATA 0 7 1 0).

Lemma toy_system :
  system_reachable alice_config seed_a
    ([rx_callback alice_config toy_junk bob_at], toy_started alice_config seed_a).
Proof.
  eapply sys_next.
  - eapply sys_next; [apply sys_init|].
    apply (sys_start _ 0 0 4500 true [(true, true)] [3221225985] None _
             (toy_started alice_config seed_a)); vm_compute; reflexivity.
  - apply sys_spawn, thread_rx.
Qed.


End Example.
