(* ===== verification/NodeFlow.v ===== *)
(** * Packets from node to node ([src/tunnel/tunnel.cpp])

    What one program does to a node that runs it alone, and the composition of the nodes a
    packet crosses: from [tx_packet] at the source, through [rx_callback] at every relay, to
    the adapter of the destination.  The frames a node rejects leave it as it was. *)

From Stdlib Require Import ZArith Lia Bool.
From Stdlib.Strings Require Import Byte.
From stdpp Require Import base numbers gmap option list.
From S2P Require Import Prelude Wire Packet Replay Crypto Identity Revocation HandshakeV2 NoiseIk.
From S2P Require Import Session SessionInv SessionMsg SessionHandshake IpAddress Endpoint Discovery.
From S2P Require Import Probe Admission Routing Onion RelayLimiter SendQueue Transport Peer PeerTable.
From S2P Require Import Gossip FileMsg FileTransfer FileNode Node Tunnel NodeInv NodeSafe.

Section flow.
Context `{OpenSSL, RandomSource, NoiseC, Machine}.

(** ** Running a program *)

Section run.
Context (cfg : TunnelConfig).

Lemma run_op {B : Type} (c : call) (f : result c -> prog B) n :
  run cfg (prog_bind (op c) f) n = run cfg (f (fst (exec cfg c n))) (snd (exec cfg c n)).
Proof. cbn. by destruct (exec cfg c n). Qed.

Lemma run_bind {A B : Type} (p : prog A) (f : A -> prog B) : forall n,
  run cfg (prog_bind p f) n =
    match run cfg p n with (Some a, n) => run cfg (f a) n | (None, n) => (None, n) end.
Proof.
  induction p as [a| |c k IH]; intros n; cbn; [done|done|]. destruct (exec cfg c n) as [x n1].
  apply IH.
Qed.

(** Frames that do not decrypt. *)
Lemma run_with_session_rejected {X : Type} data sid (decode : DecryptedMessage -> option X) k n :
  decrypt_message data (nd_sessions n) = Some (None, nd_sessions n) ->
  run cfg (with_session data sid decode k) n = (Some tt, n).
Proof.
  intros Hd. unfold with_session, decrypt. rewrite run_bind, run_op. cbn [exec]. rewrite Hd.
  cbn. by destruct n.
Qed.

Lemma run_with_session {X : Type} data sid (decode : DecryptedMessage -> option X) k n m m1 x s :
  decrypt_message data (nd_sessions n) = Some (Some m, m1) -> decode m = Some x ->
  get_session_by_id m1 sid = Some s ->
  run cfg (with_session data sid decode k) n = run cfg (k x (snap_peer_id s)) (put_sessions m1 n).
Proof.
  intros Hd Hx Hs. unfold with_session, decrypt. rewrite run_bind, run_op. cbn [exec]. rewrite Hd.
  cbn [fst snd run mbind option_bind]. rewrite Hx, run_op. cbn [exec fst snd nd_sessions put_sessions].
  by rewrite Hs.
Qed.

Lemma run_when_running p n :
  nd_running n = true -> run cfg (when_running p) n = run cfg p n.
Proof. intros Hr. unfold when_running. rewrite run_op. cbn [exec fst snd]. by rewrite Hr. Qed.

(** The type byte of a frame. *)
Definition frame_type (data : list byte) : option Z :=
  packet_type <$> parse_packet_header (take (Z.to_nat PACKET_HEADER_SIZE) data).

(** The frames that belong to a session, and not to a handshake. *)
Definition session_type (type : Z) : bool :=
  negb (type =? TYPE_HANDSHAKE_INIT) && negb (type =? TYPE_HANDSHAKE_RESP) &&
  negb (type =? TYPE_HANDSHAKE_COOKIE).

Lemma run_rejected_frame data sender n type :
  decrypt_message data (nd_sessions n) = Some (None, nd_sessions n) ->
  frame_type data = Some type -> session_type type = true ->
  run cfg (rx_callback cfg data sender) n = (Some tt, n).
Proof.
  intros Hd Ht Hs. unfold rx_callback. case_match; [done|]. unfold frame_type in Ht.
  destruct (parse_packet_header _) as [h|]; [|done]. injection Ht as Ht.
  case_match; [done|]. cbv zeta. rewrite Ht.
  pose proof (λ X decode k, @run_with_session_rejected X data (session_id h) decode k n Hd) as Hw.
  assert (forall p, run cfg p n = (Some tt, n) -> run cfg (when_running p) n = (Some tt, n)) as Hwr.
  { intros p Hp. unfold when_running. rewrite run_op. cbn [exec fst snd]. by destruct (nd_running n). }
  unfold handle_data_frame, handle_relay_frame, handle_keepalive_frame, handle_peer_table_frame,
    handle_membership_revocation_frame, handle_chat_frame, handle_file_header_frame,
    handle_file_chunk_frame, handle_file_ack_frame, handle_file_cancel_frame,
    handle_path_probe_frame, handle_endpoint_candidates_frame, handle_endpoint_punch_frame,
    handle_network_teardown_frame, handle_relay.
  case_match.
  { apply Hwr. unfold decrypt. rewrite run_bind, run_op. cbn [exec]. rewrite Hd. cbn.
    by destruct n. }
  do 13 (case_match; [first [apply Hwr, Hw | apply Hw]|]).
  unfold session_type in Hs. repeat case_match; try done; exfalso; lia.
Qed.

End run.

(** The next call of the program in the goal. *)
Ltac run_call :=
  match goal with |- context [run ?cfg ?q ?n] =>
    match q with prog_bind (op ?c) ?f =>
      replace (run cfg q n) with (run cfg (f (fst (exec cfg c n))) (snd (exec cfg c n)))
        by (symmetry; exact (run_op cfg c f n));
      cbn [exec]
    end
  end.

(** ** Sending *)

(** The socket takes datagrams of priority [p] for [e]. *)
Definition can_send (t : Transport) (e : Endpoint) (p : SendPriority) : Prop :=
  sock_open t = true /\ Transport.send_running t = true /\
  (is_ipv6 e = true -> ipv6_socket t = true) /\
  forall f, Z.of_nat (length f) <= max_datagram_size t -> SendQueue.fits p e f (send_queue t).

(** A datagram was appended to a queue, and nothing else of the queues changed. *)
Definition queued (t t' : Transport) (e : Endpoint) (p : SendPriority) (f : list byte) : Prop :=
  forall p' k, contents p' (send_queue t') k =
    if decide (p' = p /\ k = e) then contents p (send_queue t) e ++ [f]
    else contents p' (send_queue t) k.

Lemma transport_send_ok t e p f :
  transport_ok t -> can_send t e p -> Z.of_nat (length f) <= max_datagram_size t ->
  exists t', transport_send f e p t = (true, t') /\ queued t t' e p f.
Proof.
  intros [Hq _] (Ho & Hr & H6 & Hf) Hl. unfold transport_send.
  rewrite (proj2 (Z.ltb_ge _ _)) by done.
  replace (is_ipv6 e && negb (ipv6_socket t)) with false.
  2:{ symmetry. destruct (is_ipv6 e); [|done]. by rewrite H6. }
  rewrite Ho, Hr. cbn [negb orb].
  destruct (reachable_queue_ok _ _ (proj1 default_limits_ok) (proj2 default_limits_ok) Hq) as [Hqo _].
  destruct (enqueue_spec e f p (send_queue t) Hqo)
    as [(_ & q & E & (_ & _ & Hc) & _)|[Hn _]]; [|by specialize (Hn (Hf f Hl))].
  rewrite E. eexists. split; [done|]. intros p' k. exact (Hc p' k).
Qed.

Section sending.
Context `{!AeadLaws}.
Context (seals : forall k n p a, is_Some (evp_chacha_seal k n p a)).
Context (fills : forall k r, is_Some (fst (rng_fill k r))).

Lemma encrypt_succeeds env m peer type p fl r s :
  find_session_locked m peer = Some s -> sendable env p ->
  exists f r1, encrypt_message env peer type p fl m r =
    (Some f, Session.set_sessions (insert peer (advance_seq s)) m, r1).
Proof.
  intros Hs Hp. rewrite encrypt_message_eq, decide_True, Hs by done.
  assert (exists pad r1, fill_padding (padding_for env p) r = (Some pad, r1)) as (pad & r1 & ->).
  { unfold fill_padding. case_match; [|by eauto].
    destruct (fills (padding_for env p) r) as [pad Hpad].
    destruct (rng_fill _ r) as [x r1]. cbn in Hpad. subst. eauto. }
  cbv zeta. match goal with |- context [evp_chacha_seal ?k ?n ?x ?a] =>
    destruct (seals k n x a) as [[ct tag] ->] end. eauto.
Qed.

(** The size of a frame is bounded by the overhead the MTU contract counts with. *)
Lemma frame_size env peer type p fl m r f m1 r1 :
  encrypt_message env peer type p fl m r = (Some f, m1, r1) ->
  Z.of_nat (length f) <= session_frame_overhead (padding_bucket_size env) + Z.of_nat (length p).
Proof.
  intros [Hs ->]%frame_length. pose proof Hs as [Hb _].
  destruct (padded_size_spec _ _ Hb (sendable_bounds _ _ Hs)) as (_ & Hps & _).
  unfold session_frame_overhead, session_max_padding_for_bucket. rewrite Hb.
  unfold PACKET_HEADER_SIZE, SESSION_LENGTH_PREFIX_SIZE. lia.
Qed.

(** [encrypt_message] and [transport_.send] in turn. *)
Lemma run_send_message cfg n peer type p fl e prio s :
  find_session_locked (nd_sessions n) peer = Some s -> sendable (env cfg) p ->
  transport_ok (nd_transport n) -> can_send (nd_transport n) e prio ->
  session_frame_overhead (padding_bucket_size (env cfg)) + Z.of_nat (length p) <=
    max_datagram_size (nd_transport n) ->
  exists f m1 r1 t,
    encrypt_message (env cfg) peer type p fl (nd_sessions n) (nd_rng n) = (Some f, m1, r1) /\
    queued (nd_transport n) t e prio f /\
    run cfg (send_message peer type p fl e prio) n =
      (Some true, put_transport t (put_rng r1 (put_sessions m1 n))).
Proof.
  intros Hs Hp Ht Hc Hl.
  destruct (encrypt_succeeds (env cfg) _ peer type p fl (nd_rng n) s Hs Hp) as (f & r1 & E).
  pose proof (frame_size _ _ _ _ _ _ _ _ _ _ E) as Hsz.
  destruct (transport_send_ok (nd_transport n) e prio f Ht Hc) as (t & Es & Hq); [lia|].
  eexists f, _, r1, t. split_and!; [exact E|exact Hq|].
  unfold send_message. rewrite run_op. cbn [exec]. rewrite E. cbn [fst snd op run exec].
  cbn [nd_transport put_rng put_sessions]. by rewrite Es.
Qed.
End sending.

(** ** Receiving *)

(** What [m] sends to [peer] opens at [m'], in a session with [from]. *)
Definition linked (m : SessionManager) (peer : NodeId) (m' : SessionManager) (from : NodeId) : Prop :=
  exists s s', find_session_locked m peer = Some s /\
    lookup_id m' (ss_id s) = Some s' /\ recv_key s' = send_key s /\ ss_peer_id s' = from /\
    check_replay (replay s') (wrap 32 (send_seq s)) = Some true.

(** The window of a session is not something senders or lookups see. *)
Lemma store_window_session m id ref s w :
  find_session_by_id_locked m id = Some (ref, s) ->
  get_session_by_id (store_session ref (set_replay s w) m) id = Some (snapshot (set_replay s w)).
Proof.
  intros Hf. destruct (find_session_by_id_inv _ _ _ _ Hf) as [He Hr]. unfold get_session_by_id.
  destruct ref as [peer|id']; cbn [store_session].
  - destruct Hr as [Hi _]. cbn. rewrite Hi, lookup_insert_eq. cbn. by rewrite He.
  - destruct Hr as (-> & Hi & e & Hret). cbn. rewrite Hi, lookup_alter_eq, Hret. cbn. by rewrite He.
Qed.

Lemma store_window_sender m id ref s w q sq :
  find_session_by_id_locked m id = Some (ref, s) -> find_session_locked m q = Some sq ->
  exists sq', find_session_locked (store_session ref (set_replay s w) m) q = Some sq' /\
    ss_id sq' = ss_id sq /\ send_key sq' = send_key sq /\ send_seq sq' = send_seq sq.
Proof.
  intros Hf Hq. destruct (find_session_by_id_inv _ _ _ _ Hf) as [He Hr].
  destruct ref as [peer|id']; cbn [store_session]; [|by exists sq].
  destruct Hr as [_ Hl]. unfold find_session_locked in *. cbn.
  destruct (decide (q = peer)) as [->|Hne].
  - rewrite Hl, He in Hq. injection Hq as <-. rewrite lookup_insert_eq. cbn. rewrite He. by eexists.
  - rewrite lookup_insert_ne by done. by exists sq.
Qed.

Lemma linked_after_window m id ref s w peer m' from :
  find_session_by_id_locked m id = Some (ref, s) -> linked m peer m' from ->
  linked (store_session ref (set_replay s w) m) peer m' from.
Proof.
  intros Hf (sq & s' & Hq & Hl & Hk & Hp & Hc).
  destruct (store_window_sender m id ref s w peer sq Hf Hq) as (sq' & Hq' & Ei & Ek & Es).
  exists sq', s'. by rewrite Ei, Ek, Es.
Qed.

Section receiving.
Context `{!AeadLaws}.

(** A frame from a linked sender reaches the handler of its type, opens there, and is
    attributed to the sender. *)
Lemma linked_frame_opens cfg cfg' n m peer from type p fl r f m1 r1 :
  reachable (env cfg) m -> reachable (env cfg') (nd_sessions n) -> valid_kind type fl ->
  linked m peer (nd_sessions n) from ->
  encrypt_message (env cfg) peer type p fl m r = (Some f, m1, r1) ->
  exists h ref s' w,
    (Z.of_nat (length f) <? PACKET_HEADER_SIZE) = false /\
    parse_packet_header (take (Z.to_nat PACKET_HEADER_SIZE) f) = Some h /\
    negb (version h =? PACKET_VERSION) || negb (reserved h =? 0) ||
      negb (Z.land (flags h) (wrap 8 (Z.lnot PACKET_KNOWN_FLAGS)) =? 0) = false /\
    packet_type h = type /\
    find_session_by_id_locked (nd_sessions n) (session_id h) = Some (ref, s') /\
    let m' := store_session ref (set_replay s' w) (nd_sessions n) in
    decrypt_message f (nd_sessions n) = Some (Some (mkDecrypted type p), m') /\
    exists snap, get_session_by_id m' (session_id h) = Some snap /\ snap_peer_id snap = from.
Proof.
  intros Hr Hr' Hk (s & s' & Hs & Hl & Hkey & Hp & Hc) He.
  destruct (sealed_frame_opens (env cfg) (env cfg') m (nd_sessions n) peer s s' type p fl r f m1 r1)
    as (ref & w & len & Hlen & Ht & Hid & Hf & Hd); try done.
  pose proof Hk as (Hty & Hfl & Hland).
  exists (message_header type fl (ss_id s) (send_seq s) len), ref, s', w.
  change (Z.to_nat PACKET_HEADER_SIZE) with 16%nat. rewrite Ht, parse_packet_header_ok.
  2:{ by apply message_header_wf. }
  split_and!; try done.
  - apply Z.ltb_ge. assert (length (take 16 f) = 16%nat) as H16 by (by rewrite Ht, length_header_bytes).
    rewrite length_take in H16. unfold PACKET_HEADER_SIZE. lia.
  - cbn. by rewrite Hland.
  - cbv zeta. split; [done|]. eexists. split; [by apply store_window_session|done].
Qed.

Lemma typed_hit {X : Type} type (decode : list byte -> option X) p :
  typed type decode (mkDecrypted type p) = decode p.
Proof. unfold typed. cbn. by rewrite Z.eqb_refl. Qed.

(** The adapter accepts the packet. *)
Definition delivers_to (cfg : TunnelConfig) (raw : list byte) : Prop :=
  validate_inner_ipv4_packet (Some raw) (Z.of_nat (length raw)) (overlay_mtu cfg) = Packet.Valid /\
  host_adapter raw = true.

Lemma run_inject cfg raw n :
  delivers_to cfg raw ->
  run cfg (inject_inner_packet cfg raw ;;; Ret tt)%prog n =
    (Some tt, put_adapter (raw :: nd_adapter n) n).
Proof.
  intros [Hv Ha]. unfold inject_inner_packet. rewrite Hv.
  run_call. by rewrite Ha.
Qed.

(** A data frame from a linked sender ends in the adapter. *)
Lemma run_data_frame cfg cfg' n m from raw r f m1 r1 sender :
  reachable (env cfg) m -> reachable (env cfg') (nd_sessions n) -> nd_running n = true ->
  linked m (self_id cfg') (nd_sessions n) from ->
  encrypt_message (env cfg) (self_id cfg') TYPE_DATA raw 0 m r = (Some f, m1, r1) ->
  delivers_to cfg' raw ->
  exists n', run cfg' (rx_callback cfg' f sender) n = (Some tt, n') /\
    nd_adapter n' = raw :: nd_adapter n.
Proof.
  intros Hr Hr' Hrun Hl He Hd.
  destruct (linked_frame_opens cfg cfg' n m (self_id cfg') from TYPE_DATA raw 0 r f m1 r1)
    as (h & ref & s' & w & Hlen & Hh & Hchk & Hty & _ & Hdec & snap & Hsnap & _); try done.
  unfold rx_callback. rewrite Hlen, Hh, Hchk. cbv zeta. rewrite Hty.
  change (TYPE_DATA =? TYPE_DATA) with true. unfold handle_data_frame.
  rewrite run_when_running by done. rewrite run_bind. unfold decrypt. rewrite run_op. cbn [exec].
  rewrite Hdec. cbn [fst snd run mbind option_bind]. rewrite typed_hit.
  run_call. cbn [fst snd nd_sessions put_sessions]. rewrite Hsnap.
  run_call. rewrite run_inject by done. by eexists.
Qed.
End receiving.

(** ** One hop *)

(** The packet leaves by this route. *)
Definition routed (n : Node) (raw : list byte) (route : Route) : Prop :=
  exists parsed, IPPacket_parse raw = Some parsed /\
    (Z.land (dest_ip parsed) 4026531840 =? 3758096384) = false /\
    (dest_ip parsed =? 4294967295) = false /\
    find_route (from_ipv4 (dest_ip parsed)) (nd_routing n) = Some route.

Lemma run_tx_packet cfg n raw route :
  routed n raw route ->
  run cfg (tx_packet cfg raw) n =
    run cfg (match Routing.type route with
             | Direct => send_direct cfg route raw
             | _ => send_relayed cfg route raw end) n.
Proof.
  intros (parsed & Hp & Hm & Hb & Hr). unfold tx_packet. rewrite Hp. cbv zeta. rewrite Hm, Hb.
  run_call. by rewrite Hr.
Qed.

(** A size within the contract of a route depth. *)
Definition fits_route (cfg : TunnelConfig) (size depth : Z) : Prop :=
  exists mtu, safe_overlay_mtu (underlay_mtu cfg) depth (padding_bucket_size (env cfg)) = Some mtu /\
    size <= mtu.

Lemma run_fits_route {B : Type} cfg size depth (f : bool -> prog B) n :
  fits_route cfg size depth ->
  run cfg (prog_bind (packet_fits_route cfg size depth) f) n = run cfg (f true) n.
Proof.
  intros (mtu & Hm & Hl). unfold packet_fits_route. rewrite Hm. by rewrite (proj2 (Z.leb_le _ _) Hl).
Qed.

Lemma fits_route_size cfg size depth :
  fits_route cfg size depth ->
  is_supported_session_padding_bucket (padding_bucket_size (env cfg)) = true /\
  session_frame_overhead (padding_bucket_size (env cfg)) + size +
    (if 1 <? depth then RELAY_SOURCE_OVERHEAD + depth * ONION_OVERHEAD else 0) <=
  underlay_mtu cfg - OUTER_IPV4_UDP_OVERHEAD.
Proof.
  intros (mtu & Hm & Hl). unfold safe_overlay_mtu, wire_overhead_for_route_depth in Hm.
  case_match; [done|]. destruct (_ || _ || _) eqn:E; [done|].
  apply orb_false_iff in E as [_ E%negb_false_iff]. split; [done|].
  change DIRECT_ROUTE_DEPTH with 1 in Hm. destruct (1 <? depth); case_match; simplify_eq; lia.
Qed.

Section hop.
Context `{!AeadLaws}.
Context (seals : forall k n p a, is_Some (evp_chacha_seal k n p a)).
Context (fills : forall k r, is_Some (fst (rng_fill k r))).

(** The node is up and its datagrams use the whole underlay. *)
Definition up (cfg : TunnelConfig) (n : Node) : Prop :=
  node_inv cfg n /\ nd_running n = true /\
  max_datagram_size (nd_transport n) = underlay_mtu cfg - OUTER_IPV4_UDP_OVERHEAD.

Lemma run_send_direct cfg n route raw e s :
  up cfg n -> fits_route cfg (Z.of_nat (length raw)) DIRECT_ROUTE_DEPTH ->
  Z.of_nat (length raw) <= SESSION_MAX_LOGICAL_PAYLOAD_SIZE ->
  get_peer (Routing.destination route) (nd_peers n) ≫= Peer.endpoint = Some e ->
  find_session_locked (nd_sessions n) (Routing.destination route) = Some s ->
  can_send (nd_transport n) e Data ->
  exists f m1 r1 n',
    encrypt_message (env cfg) (Routing.destination route) TYPE_DATA raw 0 (nd_sessions n) (nd_rng n) =
      (Some f, m1, r1) /\
    run cfg (send_direct cfg route raw) n = (Some tt, n') /\
    queued (nd_transport n) (nd_transport n') e Data f.
Proof.
  intros (Hn & _ & Hmax) Hfit Hlen Hp Hs Hc. destruct (fits_route_size _ _ _ Hfit) as [Hb Hsz].
  change (1 <? DIRECT_ROUTE_DEPTH) with false in Hsz.
  destruct (run_send_message seals fills cfg n (Routing.destination route) TYPE_DATA raw 0 e Data s)
    as (f & m1 & r1 & t & He & Hq & Hrun); [done|by split|apply Hn|done|lia|].
  exists f, m1, r1, (put_transport t (put_rng r1 (put_sessions m1 n))).
  split_and!; [exact He| |exact Hq].
  unfold send_direct. rewrite run_fits_route by done. cbn [negb].
  run_call. cbn [fst snd]. rewrite Hp. unfold post_message. by rewrite run_bind, Hrun.
Qed.

(** *** Through relays *)

Lemma run_hop_keys cfg hops keys n :
  Forall2 (λ h k, public_key <$> get_peer h (nd_peers n) = Some k) hops keys ->
  run cfg (hop_keys hops) n = (Some (Some keys), n).
Proof.
  induction 1 as [|h k hops keys Hh _ IH]; [done|]. cbn [hop_keys]. run_call. cbn [fst snd].
  destruct (get_peer h (nd_peers n)) as [p|]; [|done]. injection Hh as <-.
  by rewrite run_bind, IH.
Qed.

Lemma length_relay_payload src content onion :
  is32 src -> Z.of_nat (length (relay_payload src content onion)) =
    RELAY_SOURCE_OVERHEAD + Z.of_nat (length onion).
Proof.
  intros Hs. unfold relay_payload. rewrite !length_app, Hs. cbn [length].
  unfold RELAY_SOURCE_OVERHEAD. lia.
Qed.

Lemma run_send_relayed cfg n route raw keys blob c' e s :
  up cfg n -> is32 (self_id cfg) -> Forall is32 (Routing.path route) ->
  2 <= Z.of_nat (length (Routing.path route)) <= max_relay_depth cfg ->
  fits_route cfg (Z.of_nat (length raw)) (Z.of_nat (length (Routing.path route))) ->
  Forall2 (λ h k, public_key <$> get_peer h (nd_peers n) = Some k) (Routing.path route) keys ->
  build_onion (private_key (keypair (identity (env cfg)))) (Routing.path route) keys raw
    (nd_onion_counter n) = (Some blob, c') ->
  RELAY_SOURCE_OVERHEAD + Z.of_nat (length blob) <= SESSION_MAX_LOGICAL_PAYLOAD_SIZE ->
  get_peer (Routing.next_hop route) (nd_peers n) ≫= Peer.endpoint = Some e ->
  find_session_locked (nd_sessions n) (Routing.next_hop route) = Some s ->
  can_send (nd_transport n) e Data ->
  exists f m1 r1 n',
    encrypt_message (env cfg) (Routing.next_hop route) TYPE_RELAY
      (relay_payload (self_id cfg) RELAY_CONTENT_IP_PACKET blob) FLAG_RELAY (nd_sessions n)
      (nd_rng n) = (Some f, m1, r1) /\
    run cfg (send_relayed cfg route raw) n = (Some tt, n') /\
    queued (nd_transport n) (nd_transport n') e Data f.
Proof.
  intros (Hn & _ & Hmax) Hself Hpath [H2' Hd] Hfit Hkeys Hb Hlen Hp Hs Hc.
  destruct (fits_route_size _ _ _ Hfit) as [Hbk Hsz].
  rewrite (proj2 (Z.ltb_lt 1 _)) in Hsz by lia.
  pose proof (build_onion_length _ _ _ _ _ _ _ Hpath Hb) as Hbl.
  set (payload := relay_payload (self_id cfg) RELAY_CONTENT_IP_PACKET blob).
  pose proof (length_relay_payload (self_id cfg) RELAY_CONTENT_IP_PACKET blob Hself) as Hpl.
  fold payload in Hpl.
  destruct (encrypt_succeeds seals fills (env cfg) _ (Routing.next_hop route) TYPE_RELAY payload
    FLAG_RELAY (nd_rng n) s Hs) as (f & r1 & He); [split; [done|lia]|].
  pose proof (frame_size _ _ _ _ _ _ _ _ _ _ He) as Hfs.
  destruct (transport_send_ok (nd_transport n) e Data f) as (t & Ht & Hq); [apply Hn|done|lia|].
  eexists f, _, r1, (put_transport t (put_rng r1 (put_sessions _ (put_onion_counter c' n)))).
  split_and!; [exact He| |exact Hq]. unfold send_relayed. cbv zeta.
  rewrite (proj2 (Z.ltb_ge _ _)), run_fits_route by (done || lia). cbn [negb].
  rewrite run_bind, (run_hop_keys cfg _ keys) by done.
  run_call. rewrite Hb. cbn [fst snd]. run_call.
  cbn [nd_sessions nd_rng put_onion_counter]. fold payload. rewrite He. cbn [fst snd].
  run_call. cbn [fst snd nd_peers put_rng put_sessions put_onion_counter]. rewrite Hp.
  run_call. cbn [nd_transport put_rng put_sessions put_onion_counter]. by rewrite Ht.
Qed.

(** Traffic without an endpoint does not move a peer or change its key. *)
Lemma mark_seen_view id now q pm :
  public_key <$> get_peer q (mark_seen id None now pm) = public_key <$> get_peer q pm /\
  get_peer q (mark_seen id None now pm) ≫= Peer.endpoint = get_peer q pm ≫= Peer.endpoint.
Proof.
  unfold get_peer, mark_seen. rewrite update_peer_lookup.
  case_decide as Hq; [|done]. subst q. by destruct (peers pm !! id).
Qed.

(** The node after a frame of [from] opened: a window moved, the peer was heard. *)
Definition heard (from : NodeId) (m : SessionManager) (n : Node) : Node :=
  put_peers (mark_seen from None (clock_at 0 n) (nd_peers n)) (after 1 (put_sessions m n)).

(** A relay frame from a linked sender is peeled with the key of the source it names. *)
Lemma run_relay_frame cfg cfg' n m from src blob r f m1 r1 sender pub peeled :
  reachable (env cfg) m -> reachable (env cfg') (nd_sessions n) -> nd_running n = true ->
  linked m (self_id cfg') (nd_sessions n) from -> is32 src ->
  encrypt_message (env cfg) (self_id cfg') TYPE_RELAY
    (relay_payload src RELAY_CONTENT_IP_PACKET blob) FLAG_RELAY m r = (Some f, m1, r1) ->
  public_key <$> get_peer src (nd_peers n) = Some pub ->
  peel_onion (private_key (keypair (identity (env cfg')))) pub blob = Some peeled ->
  exists ref s' w sid,
    find_session_by_id_locked (nd_sessions n) sid = Some (ref, s') /\
    let m' := store_session ref (set_replay s' w) (nd_sessions n) in
    reachable (env cfg') m' /\
    run cfg' (rx_callback cfg' f sender) n =
      run cfg' (if all_zero (Onion.next_hop peeled)
                then inject_inner_packet cfg' (Onion.inner peeled) ;;; Ret tt
                else forward_onion cfg' from src RELAY_CONTENT_IP_PACKET peeled)%prog
        (heard from m' n).
Proof.
  intros Hr Hr' Hrun Hl Hsrc He Hpub Hpeel.
  destruct (linked_frame_opens cfg cfg' n m (self_id cfg') from TYPE_RELAY
    (relay_payload src RELAY_CONTENT_IP_PACKET blob) FLAG_RELAY r f m1 r1)
    as (h & ref & s' & w & Hlen & Hh & Hchk & Hty & Hf & Hdec & snap & Hsnap & Hfrom);
    try done.
  exists ref, s', w, (session_id h). split; [done|]. cbv zeta.
  split; [exact (reach_step _ _ 0 0 _ Hr' (step_decrypt _ _ _ _ _ _ _ Hdec))|].
  unfold rx_callback. rewrite Hlen, Hh, Hchk. cbv zeta. rewrite Hty.
  change (TYPE_RELAY =? TYPE_DATA) with false. change (TYPE_RELAY =? TYPE_RELAY) with true.
  unfold handle_relay_frame, handle_relay. rewrite run_when_running by done.
  erewrite run_with_session; [|exact Hdec|by rewrite typed_hit|exact Hsnap]. rewrite Hfrom.
  run_call. unfold on_peers. cbn [fst snd].
  destruct (peel_onion_length _ _ _ _ Hpeel) as [Hbl _].
  rewrite length_relay_payload by done. rewrite (proj2 (Z.ltb_ge _ _)).
  2:{ unfold RELAY_SOURCE_OVERHEAD, ONION_OVERHEAD. lia. }
  unfold relay_payload. rewrite take_app_length' by done. rewrite app_nth2 by (rewrite Hsrc; unfold NODE_ID_SIZE; lia).
  rewrite Hsrc, drop_app_ge by (rewrite Hsrc; unfold NODE_ID_SIZE; lia). rewrite Hsrc.
  change (bval _) with 1. cbn [Z.eqb Pos.eqb negb andb RELAY_CONTENT_IP_PACKET].
  run_call. cbn [fst snd].
  destruct (mark_seen_view from (clock_at 0 (put_sessions (store_session ref (set_replay s' w)
    (nd_sessions n)) n)) src (nd_peers n)) as [Hv _]. rewrite Hpub in Hv.
  cbn [nd_peers put_peers put_sessions] in Hv |- *. destruct (get_peer src (mark_seen _ _ _ _)) as [sp|]; [|done].
  injection Hv as ->.
  change (drop _ _) with blob. rewrite Hpeel. by destruct (all_zero _).
Qed.

(** The relay knows the next hop, has quota left for the sender and room in its queues. *)
Record forwards (cfg : TunnelConfig) (n : Node) (from next : NodeId) (size : Z) (e : Endpoint)
    : Prop := {
  fw_self : next <> self_id cfg;
  fw_endpoint : get_peer next (nd_peers n) ≫= Peer.endpoint = Some e;
  fw_quota : fst (relay_allow from
    (session_frame_overhead (padding_bucket_size (env cfg)) + RELAY_SOURCE_OVERHEAD + size)
    (clock_at 1 n) (nd_quota n)) = Allowed;
  fw_send : can_send (nd_transport n) e Data;
  fw_bucket : is_supported_session_padding_bucket (padding_bucket_size (env cfg)) = true;
  fw_payload : RELAY_SOURCE_OVERHEAD + size <= SESSION_MAX_LOGICAL_PAYLOAD_SIZE;
  fw_datagram : session_frame_overhead (padding_bucket_size (env cfg)) + RELAY_SOURCE_OVERHEAD +
    size <= max_datagram_size (nd_transport n);
}.

Lemma run_forward cfg n from src m peeled e s :
  node_inv cfg n -> is32 src ->
  forwards cfg n from (Onion.next_hop peeled) (Z.of_nat (length (Onion.inner peeled))) e ->
  find_session_locked m (Onion.next_hop peeled) = Some s ->
  exists f m1 r1 n',
    encrypt_message (env cfg) (Onion.next_hop peeled) TYPE_RELAY
      (relay_payload src RELAY_CONTENT_IP_PACKET (Onion.inner peeled)) FLAG_RELAY m (nd_rng n) =
      (Some f, m1, r1) /\
    run cfg (forward_onion cfg from src RELAY_CONTENT_IP_PACKET peeled) (heard from m n) =
      (Some tt, n') /\
    queued (nd_transport n) (nd_transport n') e Data f.
Proof.
  intros Hn Hsrc Hfw Hs. destruct Hfw as [Hne He Hq Hc Hb Hpl Hd].
  pose proof (length_relay_payload src RELAY_CONTENT_IP_PACKET (Onion.inner peeled) Hsrc) as Hlen.
  unfold forward_onion. cbv zeta. rewrite bool_decide_eq_false_2 by done.
  run_call. cbn [fst snd heard nd_peers put_peers].
  destruct (mark_seen_view from (clock_at 0 n) (Onion.next_hop peeled) (nd_peers n)) as [_ Hv].
  rewrite Hv, He. run_call.
  replace (clock_at 0 (heard from m n)) with (clock_at 1 n) by (unfold clock_at; cbn; f_equal; lia).
  change (nd_quota (heard from m n)) with (nd_quota n).
  destruct (relay_allow _ _ _ _) as [out l]. cbn [fst] in Hq. subst out.
  cbn [fst snd]. rewrite bool_decide_eq_true_2 by done.
  match goal with |- context [run cfg (post_message _ _ _ _ _ _) ?n'] =>
    destruct (run_send_message seals fills cfg n' (Onion.next_hop peeled) TYPE_RELAY
      (relay_payload src RELAY_CONTENT_IP_PACKET (Onion.inner peeled)) FLAG_RELAY e Data s)
      as (f & m1 & r1 & t & E & Hqd & Hrun) end;
    [exact Hs|split; [done|lia]|apply Hn|exact Hc|cbn; lia|].
  exists f, m1, r1, (put_transport t (put_rng r1 (put_sessions m1
    (put_quota l (after 1 (heard from m n)))))).
  split_and!; [exact E| |exact Hqd].
  unfold post_message. by rewrite run_bind, Hrun.
Qed.

(** *** Paths *)

(** The hops [hs] of a path, the nearest first, each ready for the packet: sessions with its
    neighbours, the key of the source, the means to forward, an adapter at the end. *)
Fixpoint chain (src : NodeId) (pub raw : list byte) (m : SessionManager) (from : NodeId)
    (hs : list (TunnelConfig * Node)) : Prop :=
  match hs with
  | [] => False
  | (cfg, n) :: rest =>
      up cfg n /\ linked m (self_id cfg) (nd_sessions n) from /\
      public_key <$> get_peer src (nd_peers n) = Some pub /\
      match rest with
      | [] => delivers_to cfg raw
      | (cfg', _) :: _ =>
          (exists e, forwards cfg n from (self_id cfg')
             (Z.of_nat (length raw) + ONION_OVERHEAD * Z.of_nat (length rest)) e) /\
          is32 (self_id cfg') /\ self_id cfg' <> zero32 /\
          chain src pub raw (nd_sessions n) (self_id cfg) rest
      end
  end.

(** What becomes of a frame [f] that arrives at the first hop: every relay queues a frame for
    the next one, from whatever address it got its own, and the last hop writes the packet. *)
Fixpoint carried (raw f : list byte) (hs : list (TunnelConfig * Node)) : Prop :=
  match hs with
  | [] => False
  | (cfg, n) :: rest =>
      forall sender, exists n', run cfg (rx_callback cfg f sender) n = (Some tt, n') /\
        match rest with
        | [] => nd_adapter n' = raw :: nd_adapter n
        | (cfg', _) :: _ =>
            exists e g, get_peer (self_id cfg') (nd_peers n) ≫= Peer.endpoint = Some e /\
              queued (nd_transport n) (nd_transport n') e Data g /\ carried raw g rest
        end
  end.

Definition hop_private (h : TunnelConfig * Node) : list byte :=
  private_key (keypair (identity (env (fst h)))).

Lemma chain_carries src pub raw : is32 src -> forall rest cfg0 m from blob r f m1 r1 cfg n,
  reachable (env cfg0) m -> chain src pub raw m from ((cfg, n) :: rest) ->
  peel_path (map hop_private ((cfg, n) :: rest)) pub blob =
    Some (map (λ h, self_id (fst h)) rest ++ [zero32], raw) ->
  encrypt_message (env cfg0) (self_id cfg) TYPE_RELAY
    (relay_payload src RELAY_CONTENT_IP_PACKET blob) FLAG_RELAY m r = (Some f, m1, r1) ->
  carried raw f ((cfg, n) :: rest).
Proof.
  intros Hsrc. induction rest as [|[cfg' n2] rest IH];
    intros cfg0 m from blob r f m1 r1 cfg n Hr (Hup & Hl & Hpub & Hrest) Hpeel He sender;
    rewrite (map_cons hop_private (cfg, n)) in Hpeel; cbn [peel_path] in Hpeel;
    destruct (peel_onion (hop_private (cfg, n)) pub blob) as [out|] eqn:Eo; try done;
    pose proof (run_relay_frame cfg0 cfg n m from src blob r f m1 r1 sender pub out Hr
      ltac:(apply Hup) ltac:(apply Hup) Hl Hsrc He Hpub Eo) as (ref & s' & w & sid & Hf & Hm' & Hrun).
  - injection Hpeel as Hz <-. rewrite Hz in Hrun. change (all_zero zero32) with true in Hrun.
    cbn iota in Hrun. rewrite run_inject in Hrun by done. eexists. by split.
  - destruct (peel_path _ pub (Onion.inner out)) as [[hops p]|] eqn:Ep; [|done].
    injection Hpeel as Hnext Hhops ->. cbn [fst] in Hnext.
    destruct Hrest as ([e Hfw] & H32 & Hnz & Hch). cbn [app map] in Hhops. subst hops.
    assert (all_zero (Onion.next_hop out) = false) as Hz.
    { rewrite Hnext. destruct (all_zero (self_id cfg')) eqn:E; [|done]. by apply all_zero_is32 in E. }
    rewrite Hz in Hrun. cbn iota in Hrun.
    pose proof Hch as (_ & Hl' & _). apply (linked_after_window _ _ _ _ w _ _ _ Hf) in Hl' as Hl2.
    destruct Hl2 as (s2 & _ & Hs2 & _).
    pose proof (peel_path_length _ _ _ _ _ Ep) as Hlen. rewrite length_map in Hlen.
    destruct (run_forward cfg n from src (store_session ref (set_replay s' w) (nd_sessions n)) out e s2
      (proj1 Hup) Hsrc) as (g & m2 & r2 & n' & E2 & Hrun2 & Hq).
    { rewrite Hnext, Hlen. replace (Z.of_nat (_ + _)) with
        (Z.of_nat (length raw) + ONION_OVERHEAD * Z.of_nat (length ((cfg', n2) :: rest))); [done|].
      unfold ONION_OVERHEAD. lia. }
    { rewrite Hnext. exact Hs2. }
    exists n'. rewrite Hrun, Hrun2. split; [done|]. exists e, g. split; [apply Hfw|]. split; [done|].
    rewrite Hnext in E2. eapply IH; [exact Hm'| |exact Ep|exact E2].
    destruct Hch as (? & _ & ?). split; [done|]. split; [by eapply linked_after_window|done].
Qed.

Lemma routed_route cfg n raw route :
  node_inv cfg n -> routed n raw route -> route_wf route /\ raw <> [].
Proof.
  intros Hn (parsed & Hp & _ & _ & Hr). split.
  - assert (engine_inv (nd_routing n)) as Hi by apply (ni_routing _ _ Hn). unfold find_route in Hr.
    pose proof (best_route_spec (from_ipv4 (dest_ip parsed)) None _ (inv_wf _ Hi) ltac:(done)) as Hb.
    destruct (best_route _ _ _) as [b|]; [|done].
    assert (b = route) as <- by (repeat case_match; congruence). apply Hb.
  - intros ->. discriminate Hp.
Qed.

(** C18: A packet for a neighbour reaches the adapter of the neighbour.  When [tx_packet] finds
    a direct route for it, the packet fits the path, the neighbour has an endpoint and the two
    nodes share a session, exactly one frame is appended to the data queue of that endpoint;
    [rx_callback] at the neighbour, whatever address the frame comes from, writes the packet
    the source read from its adapter, byte for byte, and nothing else. *)
Theorem direct_packet_is_delivered cfg n cfg' n' raw route e :
  up cfg n -> up cfg' n' -> routed n raw route -> Routing.type route = Direct ->
  Routing.destination route = self_id cfg' ->
  fits_route cfg (Z.of_nat (length raw)) DIRECT_ROUTE_DEPTH ->
  Z.of_nat (length raw) <= SESSION_MAX_LOGICAL_PAYLOAD_SIZE ->
  get_peer (self_id cfg') (nd_peers n) ≫= Peer.endpoint = Some e ->
  can_send (nd_transport n) e Data ->
  linked (nd_sessions n) (self_id cfg') (nd_sessions n') (self_id cfg) -> delivers_to cfg' raw ->
  exists f n1, run cfg (tx_packet cfg raw) n = (Some tt, n1) /\
    queued (nd_transport n) (nd_transport n1) e Data f /\
    forall sender, exists n2, run cfg' (rx_callback cfg' f sender) n' = (Some tt, n2) /\
      nd_adapter n2 = raw :: nd_adapter n'.
Proof.
  intros Hup Hup' Hr Hty Hdst Hfit Hlen He Hc Hl Hd. pose proof Hl as (s & _ & Hs & _).
  destruct (run_send_direct cfg n route raw e s) as (f & m1 & r1 & n1 & Ee & Hrun & Hq);
    try done; rewrite ?Hdst; try done.
  exists f, n1. rewrite (run_tx_packet _ _ _ _ Hr), Hty. split; [done|]. split; [done|].
  intros sender. rewrite Hdst in Ee.
  eapply (run_data_frame cfg cfg'); [apply Hup|apply Hup'|apply Hup'|exact Hl|exact Ee|done].
Qed.

(** C1: A packet for a distant node crosses any chain of relays.  When [tx_packet] finds a
    relay route over the nodes [hs], every one of them linked to the one before it, knowing
    the source and within its quota, one frame is queued for the first relay; [rx_callback] of
    each relay opens one layer and queues one frame for the next; and [rx_callback] of the
    destination writes to its adapter the very packet the source sent. *)
Theorem relayed_packet_is_delivered `{!DhLaws} cfg n raw route e hs :
  up cfg n -> routed n raw route -> Routing.type route = Relay ->
  Routing.path route = map (λ h, self_id (fst h)) hs ->
  is32 (self_id cfg) -> Forall is32 (Routing.path route) ->
  Z.of_nat (length hs) <= max_relay_depth cfg -> Z.of_nat (length hs) <= ONION_MAX_HOPS ->
  fits_route cfg (Z.of_nat (length raw)) (Z.of_nat (length hs)) ->
  RELAY_SOURCE_OVERHEAD + Z.of_nat (length raw) + ONION_OVERHEAD * Z.of_nat (length hs) <=
    SESSION_MAX_LOGICAL_PAYLOAD_SIZE ->
  Forall (λ h, public_key <$> get_peer (self_id (fst h)) (nd_peers n) =
    Some (x25519_base (hop_private h))) hs ->
  Forall (λ h, is_Some (layer_key (hop_private (cfg, n)) (x25519_base (hop_private h)))) hs ->
  get_peer (Routing.next_hop route) (nd_peers n) ≫= Peer.endpoint = Some e ->
  can_send (nd_transport n) e Data ->
  chain (self_id cfg) (x25519_base (hop_private (cfg, n))) raw (nd_sessions n) (self_id cfg) hs ->
  exists f n1, run cfg (tx_packet cfg raw) n = (Some tt, n1) /\
    queued (nd_transport n) (nd_transport n1) e Data f /\ carried raw f hs.
Proof.
  intros Hup Hr Hty Hpath Hself H32 Hdepth H8 Hfit Hlen Hkeys Hlk He Hc Hch.
  destruct (routed_route _ _ _ _ (proj1 Hup) Hr) as [Hwf Hraw].
  destruct (route_path_spec _ Hwf) as (_ & Hhead & _ & [[? _]|[_ H2']]); [congruence|].
  assert (length (Routing.path route) = length hs) as Hn by (by rewrite Hpath, length_map).
  destruct (build_onion_path (hop_private (cfg, n)) (Routing.path route) (map hop_private hs) raw
    (nd_onion_counter n)) as (blob & Hb & Hbl & Hpeel); try done.
  { unfold ONION_MAX_HOPS in H8. lia. }
  { by rewrite length_map. }
  { rewrite Forall_forall in Hlk. intros k (h & -> & Hh)%list_elem_of_fmap. by apply Hlk. }
  destruct (build_onion _ _ _ _ _) as [ob c'] eqn:Eb. cbn [fst] in Hb. subst ob.
  destruct hs as [|[cfg1 n1] rest]; [done|].
  assert (Routing.next_hop route = self_id cfg1) as Hnh by (rewrite Hpath in Hhead; by injection Hhead).
  pose proof Hch as (_ & (s & _ & Hs & _) & _).
  destruct (run_send_relayed cfg n route raw (map x25519_base (map hop_private ((cfg1, n1) :: rest)))
    blob c' e s Hup Hself H32) as
    (f & m1 & r1 & n' & Ee & Hrun & Hq); rewrite ?Hn, ?Hnh; try done.
  - lia.
  - rewrite Hpath, map_map, Forall2_fmap. apply Forall_Forall2_diag, Hkeys.
  - unfold ONION_OVERHEAD in Hlen. rewrite Hn in Hbl. lia.
  - by rewrite <- Hnh.
  - exists f, n'. rewrite (run_tx_packet _ _ _ _ Hr), Hty. split_and!; [done|done|].
    rewrite Hnh in Ee. eapply chain_carries; [done|apply Hup|exact Hch| |exact Ee].
    by rewrite Hpath in Hpeel.
Qed.
End hop.

(** ** What strangers can do *)

(** The frame opens under a session of [m], and its number is fresh there. *)
Definition authentic (data : list byte) (m : SessionManager) : Prop :=
  exists h ref s, parse_packet_header (take 16 data) = Some h /\
    find_session_by_id_locked m (session_id h) = Some (ref, s) /\
    check_replay (replay s) (Packet.sequence_number h) = Some true /\
    is_Some (chacha20_poly1305_decrypt (recv_key s) (frame_nonce data)
      (take (Z.to_nat (payload_length h)) (drop 28 data))
      (take 16 (drop (28 + Z.to_nat (payload_length h)) data)) (take 16 data)).

(** C6: Whoever has no session key cannot change a node with anything but a handshake.  A
    datagram that is not a handshake frame and does not open under a session of the node with
    a fresh number - malformed, forged, replayed or of an unknown type - leaves the whole node
    as it was: sessions, peers, routes, transfers, queues and clock. *)
Theorem forged_datagram_changes_nothing cfg data sender n :
  node_inv cfg n ->
  (forall type, frame_type data = Some type -> session_type type = true) ->
  ~ authentic data (nd_sessions n) ->
  run cfg (rx_callback cfg data sender) n = (Some tt, n).
Proof.
  intros Hn Hty Ha. destruct (frame_type data) as [type|] eqn:Et.
  2:{ unfold frame_type in Et. unfold rx_callback. case_match; [done|].
      by destruct (parse_packet_header _). }
  apply (run_rejected_frame cfg data sender n type); [|done|by apply Hty].
  destruct (decrypt_never_throws (env cfg) (nd_sessions n) data (ni_sessions _ _ Hn))
    as (out & m' & Hd).
  destruct (decrypt_cases _ _ _ _ Hd)
    as [[-> ->]|(h & ref & s & w & plain & Hh & Hf & Hc & Ho & _)]; [done|].
  exfalso. apply Ha. exists h, ref, s. by split_and!.
Qed.

(** The INIT frame [data] carries no cookie that [n] gave to [sender]. *)
Definition no_cookie (data : list byte) (h : PacketHeader) (sender : Endpoint) (n : Node) : Prop :=
  length data <> INIT_COOKIE_SIZE \/
  fst (fst (verify (take HANDSHAKE_COOKIE_SIZE (drop INIT_BARE_SIZE data)) sender (session_id h)
    (take HANDSHAKE_V2_INIT_FRAME_SIZE (drop (Z.to_nat PACKET_HEADER_SIZE) data)) (clock_at 1 n)
    (nd_cookies n) (nd_rng n))) = false.

Lemma issued_length source sid frame now m r c m' r' :
  issue source sid frame now m r = (Some c, m', r') -> length c = 32%nat.
Proof.
  unfold issue. destruct (rotate_if_needed now m r) as [[[] m1] r1]; [|done]. intros [= Hc _ _].
  unfold derive, hmac_hash, transcript_hash in Hc. repeat case_match; try done; simplify_eq;
    by apply Nat.eqb_eq.
Qed.

(** Only the rate limiter, the cookie secrets, the random source and the clock of a node
    moved, and at most one datagram was sent, to [sender] and no longer than [data]. *)
Definition admission_only (data : list byte) (sender : Endpoint) (n n' : Node) : Prop :=
  exists rate cookies r k t,
    n' = put_transport t (put_rng r (put_cookies cookies (put_rate rate (put_ticks k n)))) /\
    (t = nd_transport n \/
     exists reply, t = snd (transport_send reply sender Control (nd_transport n)) /\
       (length reply <= length data)%nat).

Lemma admission_counters data sender rate cookies r k n :
  admission_only data sender n (put_rng r (put_cookies cookies (put_rate rate (put_ticks k n)))).
Proof. exists rate, cookies, r, k, (nd_transport n). by split; [destruct n|left]. Qed.

Lemma challenge_length sid c :
  length c = 32%nat -> length (handshake_frame TYPE_HANDSHAKE_COOKIE sid c) = 48%nat.
Proof. intros Hc. unfold handshake_frame. rewrite length_app, Hc. done. Qed.

Lemma run_challenge cfg data sender sid frame rate cookies r k n :
  (48 <= length data)%nat ->
  exists n', run cfg (cookie <- op (CCookieIssue sender sid frame);;
      match cookie with
      | None => Ret tt
      | Some cookie =>
          op (CSend (handshake_frame TYPE_HANDSHAKE_COOKIE sid cookie) sender Control) ;;; Ret tt
      end)%prog (put_rng r (put_cookies cookies (put_rate rate (put_ticks k n)))) = (Some tt, n') /\
    admission_only data sender n n'.
Proof.
  intros Hl. run_call. destruct (issue _ _ _ _ _ _) as [[[c|] m] r'] eqn:Ei; cbn [fst snd].
  - apply issued_length, (challenge_length sid) in Ei. run_call.
    destruct (transport_send _ sender Control _) as [ok t] eqn:Et. cbn [fst snd run].
    change (nd_transport _) with (nd_transport n) in Et.
    eexists. split; [reflexivity|]. exists rate, m, r', (k + 1)%nat, t. split; [reflexivity|right].
    eexists. split; [by rewrite Et|]. by rewrite Ei.
  - eexists. split; [reflexivity|]. exists rate, m, r', (k + 1)%nat, (nd_transport n).
    split; [reflexivity|by left].
Qed.

(** C13: An INIT without a valid cookie costs the node nothing but the admission counters.  A
    frame of a source that has not proved its address creates no session, no peer and no
    pending handshake: only the rate limiter, the cookie secrets, the random source and the
    clock move, and at most one datagram is sent, to that source, no longer than the one it
    sent. *)
Theorem init_without_cookie_is_cheap cfg data sender n h :
  parse_packet_header (take (Z.to_nat PACKET_HEADER_SIZE) data) = Some h ->
  packet_type h = TYPE_HANDSHAKE_INIT -> no_cookie data h sender n ->
  exists n', run cfg (rx_callback cfg data sender) n = (Some tt, n') /\
    admission_only data sender n n'.
Proof.
  intros Hh Hty Hno. unfold rx_callback.
  assert (admission_only data sender n n) as Hsame.
  { pose proof (admission_counters data sender (nd_rate n) (nd_cookies n) (nd_rng n) (nd_ticks n) n)
      as Hs. by destruct n. }
  case_match; [by eexists|]. rewrite Hh. case_match; [by eexists|]. cbv zeta. rewrite Hty.
  repeat match goal with |- context [TYPE_HANDSHAKE_INIT =? ?t] =>
    let b := eval vm_compute in (TYPE_HANDSHAKE_INIT =? t) in
    change (TYPE_HANDSHAKE_INIT =? t) with b end.
  cbn iota. unfold handle_handshake_init_frame.
  run_call. destruct (allow sender _ (nd_rate n)) as [ok rate]. cbn [fst snd].
  pose proof (admission_counters data sender rate (nd_cookies n) (nd_rng n) (nd_ticks n + 1) n) as Hrate.
  destruct ok; cbn [negb].
  2:{ eexists. split; [reflexivity|]. exact Hrate. }
  destruct (_ && _ || _) eqn:Es.
  { eexists. split; [reflexivity|]. exact Hrate. }
  assert (48 <= length data)%nat as Hlen.
  { apply orb_false_iff in Es as [Es _]. unfold INIT_COOKIE_SIZE, INIT_BARE_SIZE in Es.
    apply andb_false_iff in Es as [Es%negb_false_iff%Nat.eqb_eq|Es%negb_false_iff%Nat.eqb_eq];
      rewrite Es; vm_compute; lia. }
  destruct (Nat.eqb_spec (length data) INIT_COOKIE_SIZE) as [He|He]; rewrite run_bind.
  - destruct Hno as [?|Hno]; [done|]. cbn [run op exec].
    replace (clock_at 0 (put_rate rate (after 1 n))) with (clock_at 1 n)
      by (unfold clock_at; cbn; f_equal; lia).
    change (nd_cookies (put_rate rate (after 1 n))) with (nd_cookies n).
    change (nd_rng (put_rate rate (after 1 n))) with (nd_rng n).
    destruct (verify _ _ _ _ _ _ _) as [[ok m] r]. cbn [fst] in Hno. subst ok. cbn [fst snd negb].
    exact (run_challenge cfg data sender (session_id h) _ rate m r (nd_ticks n + 1 + 1) n Hlen).
  - exact (run_challenge cfg data sender (session_id h) _ rate (nd_cookies n) (nd_rng n)
      (nd_ticks n + 1) n Hlen).
Qed.

End flow.

(** ** A network of three nodes *)

Section Example.
#[local] Existing Instances toy_openssl toy_random toy_noise toy_machine toy_aead_laws toy_dh_laws.

(** Keys that are their own public keys under both of the toy key agreements. *)
Definition key_of (b : byte) : Key := x01 :: replicate 31 b.
Definition id_of (b : byte) : NodeId := hash_public_key (key_of b).
Definition at_of (b : byte) : Endpoint := from_parts 192 0 2 (bval b) 4500.

(** The node [b] of the network 10.0.0.0/8, which owns 10.0.[b].0/24. *)
Definition net_of (b : byte) : Z := 167772160 + 256 * bval b.
Definition three_config (b : byte) (others : list byte) : TunnelConfig :=
  mkConfig (SessionHandshake.toy_node (key_of b)) (from_ipv4 (net_of b + 1)) 24 1500 3
    (default 0 (safe_overlay_mtu 1500 3 64)) None
    (map (λ o, mkTunnelPeer (id_of o) (key_of o) (at_of o) [(from_ipv4 (net_of o), 24)]) others)
    0 zero32 false.

(** Sessions installed by handshakes: number, peer, the keys to send and receive with. *)
Definition three_session (cfg : TunnelConfig) (s : Z * byte * byte * byte) (m : SessionManager)
    : SessionManager :=
  let '(sid, o, out, inn) := s in
  snd (init_install (env cfg) sid (id_of o)
         (mkSplit (key_of o) (zeros 32) (replicate 32 out) (replicate 32 inn)) 10 11 12 m).

Definition three_routes (rs : list Route) : RoutingEngine :=
  foldr (λ r e, snd (add_route r e)) (mkEngine [] ROUTING_MAX_ROUTES) rs.

Definition three_node (cfg : TunnelConfig) (ss : list (Z * byte * byte * byte)) (rs : list Route)
    : Node :=
  put_routing (three_routes rs)
    (put_sessions (foldr (three_session cfg) manager_init ss) (toy_started cfg seed_a)).

Definition a_config : TunnelConfig := three_config x03 [x04; x05].
Definition b_config : TunnelConfig := three_config x04 [x03; x05].
Definition c_config : TunnelConfig := three_config x05 [x03; x04].

Definition b_route : Route :=
  mkRoute (from_ipv4 (net_of x04)) 24 Direct (id_of x04) (id_of x04) [id_of x04] (id_of x04) (id_of x04)
    1 90 1 0 None None None false 0 None.
Definition c_route : Route :=
  mkRoute (from_ipv4 (net_of x05)) 24 Relay (id_of x04) (id_of x05) [id_of x04; id_of x05]
    (id_of x05) (id_of x04) 1 90 2 0 None None None false 0 None.

Definition a_node : Node := three_node a_config [(7, x04, x0a, x0b)] [b_route; c_route].
Definition b_node : Node :=
  three_node b_config [(7, x03, x0b, x0a); (8, x05, x0c, x0d)] [].
Definition c_node : Node := three_node c_config [(8, x04, x0d, x0c)] [].

(** An empty datagram from 10.0.3.1 to host 1 of [b]. *)
Definition packet_to (b : byte) (checksum : list byte) : list byte :=
  [x45; x00; x00; x14; x00; x00; x00; x00; x40; x11] ++ checksum ++
  [x0a; x00; x03; x01; x0a; x00; b; x01].
Definition to_b : list byte := packet_to x04 [x5f; xd8].
Definition to_c : list byte := packet_to x05 [x5e; xd8].

Lemma three_sessions_reachable cfg ss :
  Forall (λ s, let '(sid, _, _, _) := s in u32 sid /\ sid <> 0) ss ->
  reachable (env cfg) (foldr (three_session cfg) manager_init ss).
Proof.
  induction 1 as [|[[[sid o] out] inn] ss [Hu Hz] _ IH]; [constructor|].
  eapply (reach_step _ _ 10 12); [exact IH|]. by apply step_init_install.
Qed.

Lemma toy_started_inv cfg r :
  Forall peer_config_ok (config_peers cfg) -> node_inv cfg (toy_started cfg r).
Proof.
  intros Hp. unfold toy_started. destruct (start _ _ _ _ _ _ _ _ _) as [[c n]|] eqn:Hs.
  - eapply (start_inv cfg); [apply toy_clock|exact Hp|apply tunnel_init_inv, toy_clock|exact Hs].
  - apply tunnel_init_inv, toy_clock.
Qed.

Lemma three_up cfg ss rs :
  Forall peer_config_ok (config_peers cfg) ->
  Forall (λ s, let '(sid, _, _, _) := s in u32 sid /\ sid <> 0) ss ->
  Forall route_typed rs -> Forall (learned_ok (self_id cfg)) (routes (three_routes rs)) ->
  max_routes (three_routes rs) = ROUTING_MAX_ROUTES ->
  nd_running (three_node cfg ss rs) = true ->
  max_datagram_size (nd_transport (three_node cfg ss rs)) =
    underlay_mtu cfg - OUTER_IPV4_UDP_OVERHEAD ->
  up cfg (three_node cfg ss rs).
Proof.
  intros Hp Hss Hrs Hl Hm Hr Hd. split; [|by split]. apply put_routing_inv.
  - split; [|done]. split; [|done]. apply (engine_reachable_inv ROUTING_MAX_ROUTES).
    clear -Hrs. induction Hrs as [|r rs Hr _ IH]; [constructor|].
    eapply (er_step _ _ 0 0); [exact IH|by apply es_add].
  - apply put_sessions_inv; [by apply three_sessions_reachable|by apply toy_started_inv].
Qed.

Lemma three_peers_ok b others : Forall peer_config_ok (config_peers (three_config b others)).
Proof.
  unfold three_config. cbn [config_peers]. induction others as [|o others IH]; [constructor|].
  constructor; [|exact IH]. repeat constructor. cbn [snd]. lia.
Qed.

Lemma a_up : up a_config a_node.
Proof.
  apply (three_up a_config [(7, x04, x0a, x0b)] [b_route; c_route]).
  - apply three_peers_ok.
  - by repeat constructor.
  - repeat constructor; cbn; lia.
  - assert (routes (three_routes [b_route; c_route]) = [c_route; b_route]) as ->
      by (vm_compute; reflexivity).
    repeat constructor; try done. apply (bool_decide_unpack _). vm_compute. done.
  - vm_compute. reflexivity.
  - vm_compute. reflexivity.
  - vm_compute. reflexivity.
Qed.

Lemma b_up : up b_config b_node.
Proof.
  apply (three_up b_config [(7, x03, x0b, x0a); (8, x05, x0c, x0d)] []).
  - apply three_peers_ok.
  - by repeat constructor.
  - constructor.
  - constructor.
  - reflexivity.
  - vm_compute. reflexivity.
  - vm_compute. reflexivity.
Qed.

Lemma c_up : up c_config c_node.
Proof.
  apply (three_up c_config [(8, x04, x0d, x0c)] []).
  - apply three_peers_ok.
  - by repeat constructor.
  - constructor.
  - constructor.
  - reflexivity.
  - vm_compute. reflexivity.
  - vm_compute. reflexivity.
Qed.

Lemma toy_seals k n p a : is_Some (@evp_chacha_seal toy_openssl k n p a).
Proof. by eexists. Qed.

Lemma toy_fills k r : is_Some (fst (@rng_fill toy_random k r)).
Proof. by eexists. Qed.

(** Nothing is queued yet. *)
Lemma idle_can_send t e :
  sock_open t = true -> Transport.send_running t = true -> is_ipv6 e = false ->
  valid_limits (send_queue t) = true -> contents Data (send_queue t) e = [] ->
  class_items (queue_class Data (send_queue t)) = 0 ->
  class_bytes (queue_class Data (send_queue t)) = 0 ->
  0 < max_items_per_peer (class_limits Data (send_queue t)) ->
  0 < max_items_global (class_limits Data (send_queue t)) ->
  max_datagram_size t <= max_bytes_per_peer (class_limits Data (send_queue t)) ->
  max_datagram_size t <= max_bytes_global (class_limits Data (send_queue t)) ->
  can_send t e Data.
Proof.
  intros Ho Hr H6 Hv Hc Hi Hb ? ? ? ?. split; [done|]. split; [done|]. split; [congruence|].
  intros f Hf. unfold SendQueue.fits. rewrite Hc, Hi, Hb. cbn [length]. change (bytes_of []) with 0.
  split_and!; [done|lia..].
Qed.

Ltac idle := apply idle_can_send; vm_compute; done.

Lemma direct_packet_is_delivered_witness :
  exists f n1, run a_config (tx_packet a_config to_b) a_node = (Some tt, n1) /\
    queued (nd_transport a_node) (nd_transport n1) (at_of x04) Data f /\
    forall sender, exists n2, run b_config (rx_callback b_config f sender) b_node = (Some tt, n2) /\
      nd_adapter n2 = to_b :: nd_adapter b_node.
Proof.
  apply (direct_packet_is_delivered toy_seals toy_fills a_config a_node b_config b_node to_b b_route
    (at_of x04) a_up b_up).
  - eexists. split; [vm_compute; reflexivity|]. split; [vm_compute; reflexivity|].
    split; [vm_compute; reflexivity|]. vm_compute. reflexivity.
  - reflexivity.
  - reflexivity.
  - eexists. split; [vm_compute; reflexivity|]. vm_compute. done.
  - vm_compute. done.
  - vm_compute. reflexivity.
  - idle.
  - do 2 eexists. split; [vm_compute; reflexivity|]. split; [vm_compute; reflexivity|].
    split; [reflexivity|]. split; [reflexivity|]. vm_compute. reflexivity.
  - split; [vm_compute; reflexivity|reflexivity].
Defined.

Ltac linked := do 2 eexists; split; [vm_compute; reflexivity|]; split; [vm_compute; reflexivity|];
  split; [reflexivity|]; split; [reflexivity|]; vm_compute; reflexivity.

Lemma relay_chain :
  chain (self_id a_config) (x25519_base (hop_private (a_config, a_node))) to_c
    (nd_sessions a_node) (self_id a_config) [(b_config, b_node); (c_config, c_node)].
Proof.
  split; [apply b_up|]. split; [linked|]. split; [vm_compute; reflexivity|]. split_and!.
  - exists (at_of x05). split; [vm_compute; done| | |idle| | |]; vm_compute; done.
  - vm_compute. reflexivity.
  - vm_compute. done.
  - split; [apply c_up|]. split; [linked|]. split; [vm_compute; reflexivity|].
    split; [vm_compute; reflexivity|reflexivity].
Qed.

Lemma relayed_packet_is_delivered_witness :
  exists f n1, run a_config (tx_packet a_config to_c) a_node = (Some tt, n1) /\
    queued (nd_transport a_node) (nd_transport n1) (at_of x04) Data f /\
    carried to_c f [(b_config, b_node); (c_config, c_node)].
Proof.
  apply (relayed_packet_is_delivered toy_seals toy_fills a_config a_node to_c c_route (at_of x04)
    [(b_config, b_node); (c_config, c_node)] a_up).
  - eexists. split; [vm_compute; reflexivity|]. split; [vm_compute; reflexivity|].
    split; [vm_compute; reflexivity|]. vm_compute. reflexivity.
  - reflexivity.
  - reflexivity.
  - vm_compute. reflexivity.
  - repeat constructor; vm_compute; reflexivity.
  - vm_compute. done.
  - vm_compute. done.
  - eexists. split; [vm_compute; reflexivity|]. vm_compute. done.
  - vm_compute. done.
  - repeat constructor; vm_compute; reflexivity.
  - repeat constructor; vm_compute; eexists; reflexivity.
  - vm_compute. reflexivity.
  - idle.
  - exact relay_chain.
Defined.

(** A frame for session 7 without a key, and a first INIT. *)
Lemma forged_datagram_changes_nothing_witness :
  find_session_by_id_locked (nd_sessions a_node) 7 <> None /\
  run a_config (rx_callback a_config toy_junk bob_at) a_node = (Some tt, a_node).
Proof.
  split; [vm_compute; done|].
  apply (forged_datagram_changes_nothing a_config toy_junk bob_at a_node (proj1 a_up)).
  - intros type Ht. vm_compute in Ht. injection Ht as <-. reflexivity.
  - intros (h & ref & s & Hh & Hf & _ & [p Ho]).
    vm_compute in Hh. injection Hh as <-. vm_compute in Hf. injection Hf as <- <-.
    vm_compute in Ho. discriminate.
Defined.

Definition first_init : list byte :=
  handshake_frame TYPE_HANDSHAKE_INIT 5 (zeros HANDSHAKE_V2_INIT_FRAME_SIZE).

Lemma init_without_cookie_is_cheap_witness :
  exists n', run a_config (rx_callback a_config first_init bob_at) a_node = (Some tt, n') /\
    admission_only first_init bob_at a_node n'.
Proof.
  apply (init_without_cookie_is_cheap a_config first_init bob_at a_node
    (mkPacketHeader PACKET_VERSION TYPE_HANDSHAKE_INIT 0 0 5 0
       (Z.of_nat HANDSHAKE_V2_INIT_FRAME_SIZE))).
  - vm_compute. reflexivity.
  - reflexivity.
  - left. vm_compute. discriminate.
Defined.
End Example.
