(* ===== verification/Startup.v ===== *)
(** * Starting a node from a configuration file ([run_config] of [src/main.cpp])

    The configuration a file and its invite give the tunnel, and what [Tunnel::start] makes of
    it.  The theorems connect the reader of the file with the node: whatever the file says, the
    peers it yields satisfy what the node's invariant asks of them, the start can only fail for
    reasons outside the program, and so every node started this way keeps its invariant. *)

From Stdlib Require Import ZArith Lia Bool.
From Stdlib.Strings Require Import Byte String.
From stdpp Require Import base numbers gmap option list.
From S2P Require Import Prelude Wire Packet Crypto Identity NoiseIk Session IpAddress Endpoint Text Adapter Invite Config.
From S2P Require Import Routing SendQueue Transport Stun Peer PeerTable Node Tunnel NodeInv NodeSafe.
#[local] Open Scope Z_scope.

(** ** The tunnel's configuration *)

(** [struct TunnelConfig] as [run_config] fills it; the lifecycle intervals keep their zeros. *)
Record TunnelSetup := mkSetup {
  ts_identity : option Identity;
  ts_address : IPAddress;
  ts_prefix : Z;
  ts_listen_port : Z;
  ts_underlay_mtu : Z;
  ts_max_relay_depth : Z;
  ts_bucket : Z;
  ts_stun_server : option (list byte);
  ts_issuer : option Key;
  ts_peers : list TunnelPeer;
}.

Section startup.
Context `{OpenSSL}.

Definition bootstrap_peer (key : Key) (e : Endpoint) (allowed : list (IPAddress * Z)) : TunnelPeer :=
  mkTunnelPeer (hash_public_key key) key e allowed.

Definition AEGIS2_CAPABILITY_JOIN : Z := 1.

Definition set_creator (creator : NodeId) (id : Identity) : Identity :=
  mkIdentity (signing_keypair id) (keypair id) (key_agreement_binding id) (Identity.node_id id)
    (Identity.network_id id) creator.

(** The outcomes of the library's key generation, for the one call of [Identity::create]. *)
Context (generated_x : KeyPair) (generated : option KeyPair).

(** [tcfg.identity = Identity::create(network)] unless it is set; [None] is the exception. *)
Definition ensure_identity (network : NetworkId) (identity : option Identity) : option Identity :=
  match identity with
  | Some id => Some id
  | None => Identity_create network generated_x generated
  end.

(** The identity, the issuer and the peers an invite gives; [None] is [return 1]. *)
Definition use_invite (now : Z) (app : AppConfig) (identity : option Identity)
    : option (option Identity * option Key * list TunnelPeer) :=
  match cf_invite app with
  | None => Some (identity, None, [])
  | Some text =>
      if bool_decide (take 7 text = AEGIS2_PREFIX) then
        match decode_aegis2_grant text with
        | None => None
        | Some g =>
            if negb (validate_aegis2_grant g now AEGIS2_CAPABILITY_JOIN) then None
            else if match cf_network_id app with
                    | Some n => negb (bool_decide (n = gr_network_id g))
                    | None => false
                    end then None
            else match ensure_identity (gr_network_id g) identity with
                 | None => None
                 | Some id =>
                     Some (Some (set_creator (gr_issuer_node_id g) id), Some (gr_issuer_key g),
                       map (λ c, bootstrap_peer (bc_public_key c) (bc_endpoint c) []) (gr_bootstrap g))
                 end
        end
      else
        match decode_invite text with
        | None => None
        | Some inv =>
            match ensure_identity (iv_network_id inv) identity with
            | None => None
            | Some id =>
                Some (Some id, None,
                  [bootstrap_peer (bootstrap_pubkey inv) (bootstrap_endpoint inv)
                     [(from_ipv4 (bootstrap_prefix inv), bootstrap_prefix_len inv)]])
            end
        end
  end.

Definition parse_cidr (s : list byte) : option (IPAddress * Z) :=
  match parse_prefix s with
  | Some p => Some (prefix_address p, prefix_len p)
  | None => None
  end.

Definition configured_peer (resolve : list byte -> option Z) (pc : PeerConfig) : option TunnelPeer :=
  match parse_endpoint resolve (pc_endpoint pc) with
  | None => None
  | Some e =>
      match mapM parse_cidr (pc_allowed_ips pc) with
      | None => None
      | Some allowed => Some (bootstrap_peer (pc_public_key pc) e allowed)
      end
  end.

(** [run_config] up to [tunnel.start]; [resolve] is [getaddrinfo] and [now] the system clock. *)
Definition run_config (resolve : list byte -> option Z) (now : Z) (content : list byte)
    : option TunnelSetup :=
  match parse_yaml content with
  | None => None
  | Some app =>
      let i := iface app in
      match parse_interface (if_address i) with
      | None => None
      | Some (a, len) =>
          match (match cf_network_id app with
                 | Some n => match Identity_create n generated_x generated with
                             | Some id => Some (Some id) | None => None end
                 | None => Some None
                 end) with
          | None => None
          | Some identity =>
              match use_invite now app identity with
              | None => None
              | Some (identity, issuer, invited) =>
                  match mapM (configured_peer resolve) (cf_peers app) with
                  | None => None
                  | Some peers =>
                      Some (mkSetup identity a len (if_listen_port i) (if_underlay_mtu i)
                        (if_max_relay_depth i) (if_padding_bucket_size i) (if_stun_server i) issuer
                        (invited ++ peers))
                  end
              end
          end
      end
  end.

(** The members [start] sets before it touches adapter and socket; [fresh] is the identity it
    creates for the zero network when it was given none. *)
Definition node_config (fresh : Identity) (s : TunnelSetup) : TunnelConfig :=
  mkConfig (mkEnv (default fresh (ts_identity s)) default_limits (ts_bucket s))
    (ts_address s) (ts_prefix s) (ts_underlay_mtu s) (ts_max_relay_depth s)
    (default 0 (safe_overlay_mtu (ts_underlay_mtu s) (ts_max_relay_depth s) (ts_bucket s)))
    (ts_issuer s) (ts_peers s) 0 zero32 false.
End startup.

(** ** The peers of a file *)

Section peers.
Context `{OpenSSL, RandomSource, NoiseC, Machine}.

Lemma parse_cidr_ok cidr aip : parse_cidr cidr = Some aip -> ip_wf (fst aip) /\ 0 <= snd aip.
Proof.
  unfold parse_cidr. destruct (parse_prefix cidr) as [p|] eqn:Ep; [|done]. intros [= <-].
  by destruct (parse_prefix_ok _ _ Ep) as (Hw & _ & Hl & _).
Qed.

Lemma parse_cidrs_ok texts : forall allowed, mapM parse_cidr texts = Some allowed ->
  Forall (λ aip, ip_wf (fst aip) /\ 0 <= snd aip) allowed.
Proof.
  intros allowed Hm. apply mapM_Some in Hm. apply Forall_forall. intros aip Hin.
  destruct (list_elem_of_lookup_1 _ _ Hin) as [k Hk].
  destruct (Forall2_lookup_r _ _ _ _ _ Hm Hk) as (s & _ & Hs). by apply (parse_cidr_ok s).
Qed.

Lemma configured_peers_ok resolve pcs ps :
  mapM (configured_peer resolve) pcs = Some ps -> Forall peer_config_ok ps.
Proof.
  intros Hm. apply mapM_Some in Hm. apply Forall_forall. intros p Hin.
  destruct (list_elem_of_lookup_1 _ _ Hin) as [k Hk].
  destruct (Forall2_lookup_r _ _ _ _ _ Hm Hk) as (pc & _ & Hp). unfold configured_peer in Hp.
  destruct (parse_endpoint _ _) as [e|]; [|done]. destruct (mapM _ _) as [allowed|] eqn:Ea; [|done].
  injection Hp as <-. split; [done|]. by apply parse_cidrs_ok in Ea.
Qed.

Lemma invited_peers_ok kx kg now app identity identity' issuer ps :
  use_invite kx kg now app identity = Some (identity', issuer, ps) -> Forall peer_config_ok ps.
Proof.
  unfold use_invite. destruct (cf_invite app) as [text|]; [|by intros [= <- <- <-]].
  case_bool_decide.
  - destruct (decode_aegis2_grant text) as [g|]; [|done]. destruct (negb _); [done|].
    destruct (match cf_network_id app with Some _ => _ | None => _ end); [done|].
    destruct (ensure_identity _ _ _ _); [|done]. intros [= <- <- <-].
    apply Forall_fmap, Forall_forall. intros c _. split; [done|]. constructor.
  - destruct (decode_invite text) as [inv|] eqn:Ei; [|done]. destruct (ensure_identity _ _ _ _); [|done].
    intros [= <- <- <-]. apply decode_invite_spec in Ei as [(_ & _ & _ & _ & _ & Hl & _) _].
    apply Forall_singleton. split; [done|]. apply Forall_singleton. split; [|cbn; lia].
    cbn [fst]. unfold ip_wf. by rewrite from_ipv4_bytes, length_app, length_be_split.
Qed.

(** ** What the start needs of a configuration *)

Definition setup_ok (s : TunnelSetup) : Prop :=
  prefix_valid (mkPrefix (ts_address s) (ts_prefix s)) = true /\
  is_Some (safe_overlay_mtu (ts_underlay_mtu s) (ts_max_relay_depth s) (ts_bucket s)) /\
  1 <= ts_listen_port s <= 65535 /\ Forall peer_config_ok (ts_peers s).

Lemma run_config_ok kx kg resolve now content s :
  run_config kx kg resolve now content = Some s -> setup_ok s.
Proof.
  unfold run_config. destruct (parse_yaml content) as [app|] eqn:Ey; [|done].
  apply parse_yaml_in_range in Ey as (_ & Hp & Hm & _).
  destruct (parse_interface _) as [[a len]|] eqn:Ea; [|done].
  apply parse_interface_ok in Ea as [Ha Hl]. apply host_address_wf in Ha as [_ Hv].
  destruct (match cf_network_id app with Some _ => _ | None => _ end) as [identity|]; [|done].
  destruct (use_invite _ _ _ _ _) as [[[identity' issuer] invited]|] eqn:Ei; [|done].
  destruct (mapM _ _) as [ps|] eqn:Eps; [|done]. intros [= <-].
  unfold setup_ok. cbn [ts_address ts_prefix ts_underlay_mtu ts_max_relay_depth ts_bucket ts_listen_port ts_peers].
  split_and!; try done; try lia.
  - unfold prefix_valid. cbn [prefix_address prefix_len]. rewrite Hv. apply Z.leb_le. lia.
  - apply Forall_app. split; [by eapply invited_peers_ok|by eapply configured_peers_ok].
Qed.

(** Every attempt to bind a socket failed. *)
Definition no_socket (binds : list (bool * bool)) : Prop :=
  Forall (λ b, fst b = false /\ snd b = false) (take 10 binds).

Lemma bind_ports_fails tries : forall port t,
  bind_ports port tries t = None <-> Forall (λ b, fst b = false /\ snd b = false) tries.
Proof.
  induction tries as [|[v6 v4] tries IH]; intros port t; cbn [bind_ports]; [by split|].
  unfold transport_bind. destruct v6, v4; cbn [negb andb];
    rewrite ?IH, Forall_cons; cbn [fst snd]; intuition discriminate.
Qed.

Lemma start_refused cfg keepalive dead port adapter binds addresses stun n :
  prefix_valid (mkPrefix (overlay_address cfg) (overlay_prefix cfg)) = true ->
  is_Some (safe_overlay_mtu (underlay_mtu cfg) (max_relay_depth cfg)
             (padding_bucket_size (session_env cfg))) ->
  start cfg keepalive dead port adapter binds addresses stun n = None <->
  adapter = false \/ no_socket binds.
Proof.
  intros Hv Hm. unfold start. rewrite Hv. cbn [negb].
  pose proof (safe_mtu_bounds _ _ _ Hm) as ([Hlo Hhi] & _).
  unfold set_max_datagram_size, env. destruct Hm as [mtu Hm]. rewrite Hm.
  unfold OUTER_IPV4_UDP_OVERHEAD, MAXIMUM_IPV4_MTU, IPV4_UDP_MAX_DATAGRAM_SIZE in *.
  rewrite (proj2 (Z.eqb_neq _ _)), (proj2 (Z.ltb_ge _ _)) by lia. cbn [orb].
  destruct adapter; cbn [negb]; cbv iota; [|naive_solver].
  pose proof (bind_ports_fails (take 10 binds) port) as Hb. unfold no_socket.
  destruct (bind_ports _ _ _) as [[port' t']|] eqn:E.
  - split; [done|]. intros [|Hn]; [done|]. by rewrite (proj2 (Hb _) Hn) in E.
  - split; [|done]. right. by apply Hb in E.
Qed.

(** What [start] asks of the adapter: the overlay address, and the overlay MTU or the least
    MTU Windows takes for IPv6. *)
Definition adapter_request (cfg : TunnelConfig) (mtu : Z) : IPPrefix * Z :=
  (mkPrefix (overlay_address cfg) (overlay_prefix cfg),
   if bool_decide (family (overlay_address cfg) = IPv6) then Z.max mtu 1280 else mtu).

Lemma adapter_request_accepted cfg mtu :
  prefix_valid (mkPrefix (overlay_address cfg) (overlay_prefix cfg)) = true ->
  safe_overlay_mtu (underlay_mtu cfg) (max_relay_depth cfg)
    (padding_bucket_size (session_env cfg)) = Some mtu ->
  let '(address, requested) := adapter_request cfg mtu in
  create_arguments address requested = true.
Proof.
  intros Hv Hm. destruct (safe_mtu_range _ _ _ _ Hm) as [Hlo Hhi].
  unfold adapter_request, create_arguments. cbn [prefix_address]. rewrite Hv. simpl.
  unfold MINIMUM_IPV4_MTU, MAXIMUM_IPV4_MTU in *.
  apply negb_true_iff, orb_false_iff. destruct (bool_decide _); rewrite !Z.ltb_ge; lia.
Qed.
End peers.

(** ** Properties *)

(** C21: A configuration file gives a node that is safe.  Whenever [run_config] gets as far as
    starting the tunnel, on any file, invite, resolver and clock, the start is refused only
    when the adapter cannot be created or none of the ten ports can be bound, and the adapter is
    asked for with an address and an MTU that pass its own checks; and in every state the started node can reach, in every interleaving of its threads and with anything
    arriving at its sockets, its components keep their invariants and no thread throws. *)
Theorem config_file_gives_safe_node `{OpenSSL, RandomSource, NoiseC, Machine}
    kx kg resolve now content s fresh :
  run_config kx kg resolve now content = Some s ->
  (forall i j, (i <= j)%nat -> host_clock i <= host_clock j) ->
  let cfg := node_config fresh s in
  (forall keepalive dead port adapter binds addresses stun n,
     start cfg keepalive dead port adapter binds addresses stun n = None <->
     adapter = false \/ no_socket binds) /\
  (exists mtu, safe_overlay_mtu (underlay_mtu cfg) (max_relay_depth cfg)
                 (padding_bucket_size (session_env cfg)) = Some mtu /\
     create_arguments (fst (adapter_request cfg mtu)) (snd (adapter_request cfg mtu)) = true) /\
  (forall r ps n, system_reachable cfg r (ps, n) -> node_inv cfg n /\ Throw ∉ ps).
Proof.
  intros Hs Hc cfg. apply run_config_ok in Hs. split_and!.
  - intros. destruct Hs as (Hv & Hm & _). by apply start_refused.
  - destruct Hs as (Hv & [mtu Hm] & _). exists mtu. split; [done|].
    by apply (adapter_request_accepted cfg).
  - intros r ps n Hr. destruct Hs as (_ & _ & _ & Hps).
    destruct (system_reachable_ok cfg Hc Hps r _ Hr) as [Hn Ht]. split; [done|].
    intros Hin. rewrite Forall_forall in Ht. exact (Ht _ Hin).
Qed.

(** ** A concrete instance *)

Section startup_witness.
#[local] Existing Instances toy_openssl toy_random toy_noise toy_machine.

Definition sample_file : list byte := export_config sample_app (replicate 32 x09).
Definition sample_keys : KeyPair := mkKeyPair (replicate 32 x03) (replicate 32 x04).
Definition sample_signing : option KeyPair := Some (mkKeyPair (toy_digest 32 (replicate 32 x05)) (replicate 32 x05)).

Definition empty_setup : TunnelSetup := mkSetup None no_ip 0 0 0 0 0 None None [].
Definition sample_setup : TunnelSetup :=
  default empty_setup (run_config sample_keys sample_signing (λ _, None) 0 sample_file).

Lemma config_file_gives_safe_node_witness :
  run_config sample_keys sample_signing (λ _, None) 0 sample_file = Some sample_setup /\
  start (node_config no_identity sample_setup) 0 0 51820 true [(false, true)] [] None (tunnel_init 7) <> None /\
  node_inv (node_config no_identity sample_setup) (tunnel_init 7).
Proof.
  assert (run_config sample_keys sample_signing (λ _, None) 0 sample_file = Some sample_setup) as E
    by (by vm_compute).
  destruct (config_file_gives_safe_node sample_keys sample_signing (λ _, None) 0 sample_file
    sample_setup no_identity E toy_clock) as (Hstart & _ & Hsafe).
  split_and!; [exact E| |].
  - rewrite Hstart. intros [|Hn]; [done|]. by apply Forall_cons_1 in Hn as [[_ ?] _].
  - apply (Hsafe 7 []). constructor.
Defined.
End startup_witness.
