(* ===== verification/Cli.v ===== *)
(** * The interactive command line

    [src/cli]: the lines a user types ([input_parser.cpp]), the commands they name
    ([command_registry.cpp], [commands.cpp]), the loop that reads them ([repl.cpp]), and the
    [--invite] mode of [main.cpp].  What the operating system answers (privileges, the adapter,
    the sockets, the key generator, the path picker) is an argument of the definitions.  A
    command that calls into a running tunnel adds one more thread to it, so that the node's own
    threads interleave with it.  What is only printed is left out, except for invite codes and
    exported configurations. *)
From Stdlib Require Import ZArith Lia.
From Stdlib.Strings Require Import Byte String.
From stdpp Require Import base numbers gmap option list.
From S2P Require Import Prelude Wire Packet Crypto Identity NoiseIk Session IpAddress Endpoint Text Invite Config.
From S2P Require Import Routing SendQueue Transport Stun Peer FileMsg FileTransfer FileNode Node Tunnel NodeInv NodeSafe Startup.
#[local] Open Scope Z_scope.

(** ** Lines *)

Inductive InputMode := Command | Message.

Record ParsedInput := mkInput {
  mode : InputMode;
  command : list byte;
  args : list (list byte);
  raw_text : list byte;
  is_bare_slash : bool;
}.

Definition QUOTE : byte := x22.
Definition CLI_BLANKS : list byte := [x20; x09; x0d; x0a].

Definition token_blank (c : byte) : bool := bool_decide (c = x20) || bool_decide (c = x09).

(** A token that is not empty goes onto the list. *)
Definition push_token (current : list byte) (tokens : list (list byte)) : list (list byte) :=
  match current with [] => tokens | _ => current :: tokens end.

(** The tokens still to come, after [current] has been collected. *)
Fixpoint tokenize (in_quotes : bool) (current s : list byte) : list (list byte) :=
  match s with
  | [] => push_token current []
  | c :: s =>
      if bool_decide (c = QUOTE) then tokenize (negb in_quotes) current s
      else if token_blank c && negb in_quotes then push_token current (tokenize in_quotes [] s)
      else tokenize in_quotes (current ++ [c]) s
  end.

Definition parse_cli_input (line : list byte) : ParsedInput :=
  match skip_of CLI_BLANKS line with
  | [] => mkInput Message [] [] line false
  | c :: cmd_str =>
      if bool_decide (c = SLASH) then
        match cmd_str with
        | [] => mkInput Command [] [] line true
        | _ =>
            match tokenize false [] cmd_str with
            | [] => mkInput Command [] [] line false
            | command :: args => mkInput Command command args line false
            end
        end
      else mkInput Message [] [] line false
  end.

(** The way a token may be typed. *)
Inductive Spelling := Bare | Quoted.

Definition spell (t : Spelling * list byte) : list byte :=
  match fst t with Bare => snd t | Quoted => QUOTE :: snd t ++ [QUOTE] end.

Definition spelling_ok (t : Spelling * list byte) : Prop :=
  (snd t <> []) /\ (QUOTE ∉ snd t) /\
  (fst t = Bare -> Forall (λ c, token_blank c = false) (snd t)).

(** Tokens with at least one blank in front of each. *)
Definition spelled_args (ts : list (list byte * (Spelling * list byte))) : list byte :=
  concat (map (λ t, fst t ++ spell (snd t)) ts).

Definition gap_ok (gap : list byte) : Prop := gap <> [] /\ Forall (λ c, token_blank c = true) gap.

Lemma tokenize_chars q s : forall current rest, QUOTE ∉ s ->
  (q = false -> Forall (λ c, token_blank c = false) s) ->
  tokenize q current (s ++ rest) = tokenize q (current ++ s) rest.
Proof.
  induction s as [|c s IH]; intros current rest Hq Hb; [by rewrite app_nil_r|].
  apply not_elem_of_cons in Hq as [Hc Hq]. cbn [app tokenize].
  rewrite bool_decide_eq_false_2 by (by intros ->).
  destruct (token_blank c && negb q) eqn:E.
  - apply andb_prop in E as [E ->%negb_true_iff]. specialize (Hb eq_refl).
    apply Forall_cons in Hb as [Hb _]. congruence.
  - rewrite IH; [by rewrite <- app_assoc|done|]. intros Hf. by apply Hb, Forall_cons in Hf as [_ Hf].
Qed.

Lemma tokenize_spell t rest : spelling_ok t ->
  tokenize false [] (spell t ++ rest) = tokenize false (snd t) rest.
Proof.
  destruct t as [[|] s]; intros (_ & Hq & Hb); unfold spell; cbn [fst snd] in *.
  - apply (tokenize_chars false s [] rest Hq). intros _. by apply Hb.
  - cbn [app tokenize]. rewrite bool_decide_eq_true_2 by done. rewrite <- app_assoc. cbn [negb].
    rewrite tokenize_chars by done. cbn [app tokenize]. by rewrite bool_decide_eq_true_2.
Qed.

Lemma tokenize_gap gap : Forall (λ c, token_blank c = true) gap -> forall s,
  tokenize false [] (gap ++ s) = tokenize false [] s.
Proof.
  induction 1 as [|c gap Hc _ IH]; intros s; [done|]. cbn [app tokenize].
  assert (c <> QUOTE) as Hn by (by intros ->). rewrite bool_decide_eq_false_2 by done.
  rewrite Hc. cbn [andb negb push_token]. apply IH.
Qed.

Lemma tokenize_args ts : Forall (λ t, gap_ok (fst t) /\ spelling_ok (snd t)) ts ->
  forall current, current <> [] ->
  tokenize false current (spelled_args ts) = current :: map (λ t, snd (snd t)) ts.
Proof.
  unfold spelled_args. induction 1 as [|[gap t] ts [[Hne Hg] Ht] _ IH]; intros current Hc.
  - by destruct current.
  - cbn [map concat fst snd] in *. rewrite <- app_assoc. destruct gap as [|c gap]; [done|].
    apply Forall_cons in Hg as [Hcb Hg]. cbn [app tokenize].
    assert (c <> QUOTE) as Hn by (by intros ->). rewrite bool_decide_eq_false_2 by done.
    rewrite Hcb. cbn [andb negb]. rewrite tokenize_gap, tokenize_spell by done.
    rewrite IH by apply Ht. by destruct current.
Qed.

Lemma skip_blanks pad c s : Forall (λ b, b ∈ CLI_BLANKS) pad -> c ∉ CLI_BLANKS ->
  skip_of CLI_BLANKS (pad ++ c :: s) = c :: s.
Proof.
  intros Hp Hc. induction Hp as [|b pad Hb _ IH]; cbn [app skip_of].
  - by rewrite bool_decide_eq_false_2.
  - by rewrite bool_decide_eq_true_2.
Qed.

(** ** The context *)

(** [atoi] of the Microsoft library: white space, a sign, digits, saturating at the bounds of
    [int]; no digits give zero. *)
Definition INT_MAX : Z := 2147483647.
Definition atoi (s : list byte) : Z :=
  let s := skip_space s in
  let '(negative, s) :=
    match s with
    | c :: s' => if bool_decide (c = x2d) then (true, s') else if bool_decide (c = x2b) then (false, s') else (false, s)
    | [] => (false, s)
    end in
  let v := fst (take_digits 0 false s) in
  if negative : bool then Z.max (- v) (- INT_MAX - 1) else Z.min v INT_MAX.

(** [(uint16_t)std::atoi(text)]. *)
Definition atoi_u16 (s : list byte) : Z := wrap 16 (atoi s).

Inductive CliState := NoNetwork | Running.

Section cli.
Context `{OpenSSL, RandomSource, NoiseC, Machine}.

(** The tunnel a context owns: what [start] fixed, and its threads and members. *)
Record TunnelInstance := mkInstance {
  ti_config : TunnelConfig;
  ti_name : list byte;
  ti_stun : option Endpoint;
  ti_threads : list (prog unit);
  ti_node : Node;
}.

Record CliContext := mkContext {
  state : CliState;
  ctx_identity : Identity;
  active_config : AppConfig;
  tunnel : option TunnelInstance;
  quit_requested : bool;
}.

Definition set_ctx_identity (id : Identity) (c : CliContext) : CliContext :=
  mkContext (state c) id (active_config c) (tunnel c) (quit_requested c).
Definition set_active (a : AppConfig) (c : CliContext) : CliContext :=
  mkContext (state c) (ctx_identity c) a (tunnel c) (quit_requested c).
Definition set_tunnel (t : option TunnelInstance) (c : CliContext) : CliContext :=
  mkContext (state c) (ctx_identity c) (active_config c) t (quit_requested c).
Definition set_state (s : CliState) (c : CliContext) : CliContext :=
  mkContext s (ctx_identity c) (active_config c) (tunnel c) (quit_requested c).
Definition request_quit (c : CliContext) : CliContext :=
  mkContext (state c) (ctx_identity c) (active_config c) (tunnel c) true.

(** A call into the tunnel. *)
Definition spawn (p : prog unit) (t : TunnelInstance) : TunnelInstance :=
  mkInstance (ti_config t) (ti_name t) (ti_stun t) (p :: ti_threads t) (ti_node t).

(** What a command meets outside the program. *)
Record CliEnv := mkCliEnv {
  platform_is_admin : bool;
  platform_elevate : bool;
  env_adapter : bool;
  env_binds : list (bool * bool);
  env_addresses : list Z;
  env_stun : option Endpoint;
  env_rng : rng;
  env_network_id : option NetworkId;   (* [secure_random_bytes] of a network id *)
  env_keys : KeyPair;                  (* the generated keys of [Identity::create] *)
  env_signing : option KeyPair;
  env_rounds : nat;                    (* rounds of the loop of [send_file] *)
}.

(** Text a command leaves outside the program. *)
Inductive Output := Printed (text : list byte) | Wrote (path text : list byte).

(** Running as [state] says and with a tunnel. *)
Definition running_tunnel (c : CliContext) : option TunnelInstance :=
  match state c with Running => tunnel c | NoNetwork => None end.

(** ** Starting a tunnel *)

Definition with_creator (cid : NodeId) (creator : bool) (c : TunnelConfig) : TunnelConfig :=
  mkConfig (session_env c) (overlay_address c) (overlay_prefix c) (underlay_mtu c)
    (max_relay_depth c) (overlay_mtu c) (trusted_membership_issuer c) (config_peers c)
    (rekey_interval_ms c) cid creator.

(** [start_tunnel_helper]; [setup] and [name] are the fields of [tcfg].  The result of STUN is
    there only when a server is configured. *)
Definition start_tunnel_helper (env : CliEnv) (setup : TunnelSetup) (name : list byte)
    (c : CliContext) : bool * CliContext :=
  if negb (platform_is_admin env) then
    if platform_elevate env then (true, request_quit c) else (false, c)
  else
    let cid := creator_node_id (ctx_identity c) in
    let cfg := with_creator cid (bool_decide (cid = Identity.node_id (ctx_identity c)))
                 (node_config (ctx_identity c) setup) in
    let stun := match ts_stun_server setup with Some _ => env_stun env | None => None end in
    match start cfg 0 0 (ts_listen_port setup) (env_adapter env) (env_binds env)
            (env_addresses env) stun (tunnel_init (env_rng env)) with
    | None => (false, set_tunnel None c)
    | Some (cfg, n) => (true, set_state Running (set_tunnel (Some (mkInstance cfg name stun [] n)) c))
    end.

(** ** /config *)

(** The lines still to come on standard input. *)
Definition Stdin := list (list byte).

(** [std::getline] into a fresh string: [None] at the end of the input. *)
Definition getline (input : Stdin) : option (list byte) * Stdin :=
  match input with [] => (None, []) | l :: rest => (Some l, rest) end.

(** The next line, or the default when there is none or it is empty. *)
Definition prompt (default : list byte) (input : Stdin) : list byte * Stdin :=
  match getline input with
  | (Some (c :: l), rest) => (c :: l, rest)
  | (_, rest) => (default, rest)
  end.

Definition prompt_port (default : Z) (input : Stdin) : Z * Stdin :=
  match getline input with
  | (Some (c :: l), rest) => (atoi_u16 (c :: l), rest)
  | (_, rest) => (default, rest)
  end.

(** The [TunnelConfig] of an interactive setup: the fields that are not set keep their defaults. *)
Definition interactive_setup (id : Identity) (a : IPAddress) (len port : Z) (peers : list TunnelPeer)
    : TunnelSetup :=
  mkSetup (Some id) a len port DEFAULT_UNDERLAY_MTU (if_max_relay_depth default_interface)
    (if_padding_bucket_size default_interface) None None peers.

Definition set_network_creator (network : NetworkId) (creator : NodeId) (id : Identity) : Identity :=
  mkIdentity (signing_keypair id) (keypair id) (key_agreement_binding id) (Identity.node_id id)
    network creator.

(** The interface, network and, if given, invite of [active_config]. *)
Definition record_setup (addr : list byte) (port : Z) (network : NetworkId) (invite : option (list byte))
    (a : AppConfig) : AppConfig :=
  let i := iface a in
  mkAppConfig
    (mkInterface addr port (if_underlay_mtu i) (if_max_relay_depth i) (if_padding_bucket_size i)
       (if_stun_server i))
    (Some network) (match invite with Some t => Some t | None => cf_invite a end) (cf_peers a).

(** The identity that joins: a fresh one when the own key is that of the bootstrap node;
    [None] when its generation throws. *)
Definition joining_identity (env : CliEnv) (inv : InvitePayload) (id : Identity) : option Identity :=
  if bool_decide (Identity.public_key (keypair id) = bootstrap_pubkey inv) then
    set_creator (iv_creator_node_id inv) <$>
      Identity_create (iv_network_id inv) (env_keys env) (env_signing env)
  else Some (set_network_creator (iv_network_id inv) (iv_creator_node_id inv) id).

Definition invited_peer (inv : InvitePayload) : TunnelPeer :=
  bootstrap_peer (bootstrap_pubkey inv) (bootstrap_endpoint inv)
    [(from_ipv4 (bootstrap_prefix inv), bootstrap_prefix_len inv)].

(** Option 1 of the setup. *)
Definition config_create (env : CliEnv) (c : CliContext) (input : Stdin) : CliContext * Stdin :=
  let '(net_name, input) := prompt (lit "My Mesh Network") input in
  let '(addr, input) := prompt (lit "10.10.0.1/24") input in
  let '(port, input) := prompt_port 51820 input in
  match env_network_id env with
  | None => (c, input)
  | Some nid =>
      let id := set_network_creator nid (Identity.node_id (ctx_identity c)) (ctx_identity c) in
      let c := set_ctx_identity id c in
      match parse_interface addr with
      | None => (c, input)
      | Some (a, len) =>
          let c := set_active (record_setup addr port nid None (active_config c)) c in
          (snd (start_tunnel_helper env (interactive_setup id a len port []) net_name c), input)
      end
  end.

(** Option 2 of the setup; [None] is the exception of [Identity::create]. *)
Definition config_join (env : CliEnv) (c : CliContext) (input : Stdin) : option (CliContext * Stdin) :=
  match getline input with
  | (None, input) | (Some [], input) => Some (c, input)
  | (Some invite_str, input) =>
      match decode_invite invite_str with
      | None => Some (c, input)
      | Some inv =>
          let '(addr, input) := prompt (lit "10.10.0.2/24") input in
          let '(port, input) := prompt_port 51821 input in
          match joining_identity env inv (ctx_identity c) with
          | None => None
          | Some id =>
              let c := set_ctx_identity id c in
              match parse_interface addr with
              | None => Some (c, input)
              | Some (a, len) =>
                  let name := match network_name inv with [] => lit "Joined Mesh" | n => n end in
                  let c := set_active (record_setup addr port (iv_network_id inv) (Some invite_str)
                                         (active_config c)) c in
                  Some (snd (start_tunnel_helper env
                               (interactive_setup id a len port [invited_peer inv]) name c), input)
              end
          end
      end
  end.

Definition cmd_config (env : CliEnv) (words : list (list byte)) (c : CliContext) (input : Stdin)
    : option (CliContext * Stdin * list Output) :=
  if bool_decide (head words = Some (lit "export")) then
    let yaml := export_config (active_config c) (Identity.network_id (ctx_identity c)) in
    Some (c, input, [match words with _ :: path :: _ => Wrote path yaml | _ => Printed yaml end])
  else
    match getline input with
    | (None, input) | (Some [], input) => Some (c, input, [])
    | (Some choice, input) =>
        if bool_decide (choice = lit "1") then Some (config_create env c input, [])
        else if bool_decide (choice = lit "2") then (λ r, (r, [])) <$> config_join env c input
        else Some (c, input, [])
    end.

(** ** The other commands *)

(** The invite [/invite] prints; [None] where it refuses. *)
Definition invite_payload (c : CliContext) : option InvitePayload :=
  match running_tunnel c with
  | None => None
  | Some t =>
      let e := match ti_stun t with
               | Some e => e
               | None => ipv4_endpoint (ntohl (Z.lor (Z.shiftl 127 24) 1))
                           (ntohs (if_listen_port (iface (active_config c))))
               end in
      match parse_interface (if_address (iface (active_config c))) with
      | None => None
      | Some (a, len) =>
          if bool_decide (family a = IPv4) then
            Some (mkInvite (Identity.network_id (ctx_identity c)) (Identity.public_key (keypair (ctx_identity c)))
                    (creator_id (ti_config t)) e (ipv4_value a) len (ti_name t))
          else None
      end
  end.

Definition cmd_invite (c : CliContext) : list Output :=
  match invite_payload c with Some p => [Printed (encode_invite p)] | None => [] end.

(** [/connect]: the peer of the invite becomes known; nothing else of the invite is used. *)
Definition cmd_connect (words : list (list byte)) (c : CliContext) : CliContext :=
  match words, running_tunnel c with
  | invite_str :: _, Some t =>
      match decode_invite invite_str with
      | None => c
      | Some inv =>
          if bool_decide (Identity.network_id (ctx_identity c) = iv_network_id inv) then
            let p := invited_peer inv in
            set_tunnel (Some (spawn (op (CUpsert (tp_node_id p) (tp_public_key p) (Some (tp_endpoint p)) true)
                                       ;;; Ret tt) t)) c
          else c
      end
  | _, _ => c
  end.

(** [/sendfile]: it asks for a tunnel and not for the state. *)
Definition cmd_sendfile (env : CliEnv) (words : list (list byte)) (c : CliContext) : CliContext :=
  match words, tunnel c with
  | path :: _, Some t => set_tunnel (Some (spawn (send_file (env_rounds env) path None ;;; Ret tt) t)) c
  | _, _ => c
  end.

(** [/delete] and [/leave]; the state the destructor leaves the tunnel in comes with the
    context. *)
Definition cmd_delete (c : CliContext) : CliContext * option Node :=
  match running_tunnel c with
  | None => (c, None)
  | Some t =>
      if is_creator (ti_config t) then
        let n := snd (run (ti_config t) (delete_network (ti_config t)) (ti_node t)) in
        (set_state NoNetwork (set_tunnel None c), Some (stop n))
      else (c, None)
  end.

Definition cmd_leave (c : CliContext) : CliContext * option Node :=
  match running_tunnel c with
  | None => (c, None)
  | Some t => (set_state NoNetwork (set_tunnel None c), Some (stop (leave_network (ti_node t))))
  end.

Definition cmd_quit (c : CliContext) : CliContext :=
  request_quit (set_state NoNetwork (set_tunnel None c)).

(** ** Dispatch *)

(** The handlers; the ones that only print are one constructor. *)
Inductive Handler :=
  | HConfig | HDelete | HLeave | HInvite | HConnect | HSendfile | HQuit | HPrints.

(** The table [register_cli_commands] fills. *)
Definition commands : list (list byte * Handler) :=
  [ (lit "help", HPrints); (lit "config", HConfig); (lit "delete", HDelete);
    (lit "destroy", HDelete); (lit "leave", HLeave); (lit "disconnect", HLeave);
    (lit "discover", HPrints); (lit "scan", HPrints); (lit "invite", HInvite);
    (lit "connect", HConnect); (lit "sendfile", HSendfile); (lit "peers", HPrints);
    (lit "status", HPrints); (lit "identity", HPrints); (lit "verbose", HPrints);
    (lit "quit", HQuit); (lit "exit", HQuit) ].

Definition find_command (name : list byte) : option Handler :=
  snd <$> List.find (λ d, bool_decide (fst d = name)) commands.

Definition dispatch (env : CliEnv) (p : ParsedInput) (c : CliContext) (input : Stdin)
    : option (CliContext * Stdin * list Output) :=
  match mode p with
  | Message => Some (c, input, [])
  | Command =>
      match find_command (command p) with
      | None | Some HPrints => Some (c, input, [])
      | Some HConfig => cmd_config env (args p) c input
      | Some HDelete => Some (fst (cmd_delete c), input, [])
      | Some HLeave => Some (fst (cmd_leave c), input, [])
      | Some HInvite => Some (c, input, cmd_invite c)
      | Some HConnect => Some (cmd_connect (args p) c, input, [])
      | Some HSendfile => Some (cmd_sendfile env (args p) c, input, [])
      | Some HQuit => Some (cmd_quit c, input, [])
      end
  end.

(** ** The loop *)

Record Repl := mkRepl {
  ctx : CliContext;
  line_buffer : list byte;
  stdin : Stdin;
  outputs : list Output;
}.

(** A line that is no command goes to the peers. *)
Definition say (text : list byte) (c : CliContext) : CliContext :=
  match text, running_tunnel c with
  | _ :: _, Some t => set_tunnel (Some (spawn (broadcast_chat text ;;; Ret tt) t)) c
  | _, _ => c
  end.

(** One turn of [run_repl]; [None] where the loop is left: a quit was requested, the input has
    ended, or a command threw.  [picked] is what the path picker returns, if it is asked. *)
Definition repl_turn (env : CliEnv) (picked : list byte) (r : Repl) : option Repl :=
  if quit_requested (ctx r) then None else
  match getline (stdin r) with
  | (None, _) => None
  | (Some line, input) =>
      let parsed := parse_cli_input (line_buffer r ++ line) in
      if is_bare_slash parsed then
        Some (mkRepl (ctx r) (match picked with [] => [] | _ => picked ++ [x20] end) input (outputs r))
      else
        match mode parsed, command parsed with
        | Command, [] => Some (mkRepl (ctx r) [] input (outputs r))
        | Command, _ =>
            match dispatch env parsed (ctx r) input with
            | None => None
            | Some (c, input, out) => Some (mkRepl c [] input (outputs r ++ out))
            end
        | Message, _ => Some (mkRepl (say (raw_text parsed) (ctx r)) [] input (outputs r))
        end
  end.

(** [CliContext] as [run_repl] makes it for the stored identity. *)
Definition fresh_context (id : Identity) : CliContext := mkContext NoNetwork id default_app None false.

(** The library fills arrays of 32 bytes. *)
Definition env_ok (env : CliEnv) : Prop :=
  is32 (Identity.public_key (env_keys env)) /\ (forall nid, env_network_id env = Some nid -> is32 nid).

(** Lines are read while the threads of the tunnel run. *)
Inductive cli_step : Repl -> Repl -> Prop :=
  | cli_line env picked r r' : env_ok env -> repl_turn env picked r = Some r' -> cli_step r r'
  | cli_tunnel r t ps n :
      tunnel (ctx r) = Some t ->
      system_step (ti_config t) (ti_threads t, ti_node t) (ps, n) ->
      cli_step r
        (mkRepl (set_tunnel (Some (mkInstance (ti_config t) (ti_name t) (ti_stun t) ps n)) (ctx r))
           (line_buffer r) (stdin r) (outputs r)).

Inductive cli_reachable (id : Identity) (input : Stdin) : Repl -> Prop :=
  | cli_init : cli_reachable id input (mkRepl (fresh_context id) [] input [])
  | cli_next r r' : cli_reachable id input r -> cli_step r r' -> cli_reachable id input r'.

(** ** What every context keeps *)

(** BLAKE2b-512 has digests of 64 bytes. *)
Context (digest_size : forall bs d, evp_blake2b512 bs = Some d -> length d = 64%nat).
Context (clock_mono : forall i j, (i <= j)%nat -> host_clock i <= host_clock j).

Definition identity_ok (id : Identity) : Prop :=
  Identity.node_id id = hash_public_key (Identity.public_key (keypair id)) /\
  is32 (Identity.public_key (keypair id)) /\ is32 (Identity.network_id id) /\
  is32 (creator_node_id id).

Definition tunnel_ok (t : TunnelInstance) : Prop :=
  system_ok (ti_config t) (ti_threads t, ti_node t) /\
  Forall peer_config_ok (config_peers (ti_config t)) /\
  ti_stun t = None /\ is32 (creator_id (ti_config t)).

Definition context_ok (c : CliContext) : Prop :=
  identity_ok (ctx_identity c) /\ u16 (if_listen_port (iface (active_config c))) /\
  forall t, tunnel c = Some t -> state c = Running /\ tunnel_ok t.

Lemma hash_is32 key : is32 (hash_public_key key).
Proof.
  unfold hash_public_key, is32. rewrite length_take. destruct (evp_blake2b512 key) as [d|] eqn:E; cbn.
  - by rewrite (digest_size _ _ E).
  - done.
Qed.

Lemma set_ctx_identity_ok id c : identity_ok id -> context_ok c -> context_ok (set_ctx_identity id c).
Proof. by intros ? (_ & ? & ?). Qed.

Lemma set_active_ok a c : u16 (if_listen_port (iface a)) -> context_ok c -> context_ok (set_active a c).
Proof. by intros ? (? & _ & ?). Qed.

Lemma no_tunnel_ok s c : context_ok c -> context_ok (set_state s (set_tunnel None c)).
Proof. by intros (? & ? & _). Qed.

Lemma spawn_ok p t c : tunnel c = Some t -> thread (ti_config t) p -> context_ok c ->
  context_ok (set_tunnel (Some (spawn p t)) c).
Proof.
  intros Et Hp (Hid & Hport & Ht). split_and!; [done|done|]. intros t' [= <-].
  destruct (Ht t Et) as (Hs & Hok & Hps & Hrest). split_and!; [done|].
  split_and!; [|done|apply Hrest|apply Hrest].
  exact (system_step_ok (ti_config t) clock_mono Hps _ _ (sys_spawn _ p _ _ Hp) Hok).
Qed.

(** A start that succeeds gives a tunnel in good order. *)
Lemma started_config cid flag fresh setup keepalive dead port adapter binds addresses stun n cfg' n' :
  let cfg := with_creator cid flag (node_config fresh setup) in
  start cfg keepalive dead port adapter binds addresses stun n = Some (cfg', n') ->
  cfg' = cfg /\ nd_running n' = true.
Proof.
  intros cfg. unfold start. case_match; [done|].
  destruct (safe_overlay_mtu _ _ _) as [mtu|] eqn:Em; [|done].
  destruct (set_max_datagram_size _ _) as [[] t]; [|done]. case_match; [done|].
  destruct (bind_ports _ _ _) as [[port' t']|]; [|done]. intros [= <- <-]. split; [|done].
  unfold cfg, with_creator, with_overlay_mtu, node_config in *.
  cbn [session_env overlay_address overlay_prefix underlay_mtu max_relay_depth config_peers
    trusted_membership_issuer rekey_interval_ms creator_id is_creator overlay_mtu] in *.
  unfold env in Em. cbn [session_env padding_bucket_size] in Em. by rewrite Em.
Qed.

Lemma start_tunnel_ok env setup name c :
  ts_stun_server setup = None -> Forall peer_config_ok (ts_peers setup) -> context_ok c ->
  context_ok (snd (start_tunnel_helper env setup name c)).
Proof.
  intros Hstun Hps Hc. unfold start_tunnel_helper. rewrite Hstun.
  destruct (negb _); [destruct (platform_elevate _); [by destruct Hc|done]|].
  destruct (start _ _ _ _ _ _ _ _ _) as [[cfg n]|] eqn:Es; cbn [snd];
    [|by destruct Hc as (? & ? & _)].
  destruct Hc as (Hid & Hport & _). pose proof (started_config _ _ _ _ _ _ _ _ _ _ _ _ _ _ Es) as [-> _].
  split_and!; [done|done|]. intros t [= <-]. split; [done|]. split_and!; try done.
  - split; [|done]. cbn [fst snd ti_config ti_node].
    eapply (start_inv _ clock_mono); [exact Hps|by apply (tunnel_init_inv _ clock_mono)|exact Es].
  - apply Hid.
Qed.

Lemma invited_peer_ok text inv : decode_invite text = Some inv -> peer_config_ok (invited_peer inv).
Proof.
  intros [(_ & _ & _ & _ & _ & Hl & _) _]%decode_invite_spec. split; [done|].
  apply Forall_singleton. split; [|cbn; lia]. unfold ip_wf. cbn [fst].
  by rewrite from_ipv4_bytes, length_app, length_be_split.
Qed.

Lemma prompt_port_u16 d input : u16 d -> u16 (fst (prompt_port d input)).
Proof.
  unfold prompt_port. destruct (getline input) as [[[|ch l]|] rest]; try done. intros _. by apply wrap_in_width.
Qed.

Lemma created_fields network kx generated id : Identity_create network kx generated = Some id ->
  keypair id = kx /\ Identity.node_id id = hash_public_key (Identity.public_key kx) /\
  Identity.network_id id = network.
Proof.
  unfold Identity_create, bind_identity_keys, bind_identity_keys_with.
  destruct generated as [kp|]; [|done]. cbn [keypair Identity.public_key set_signing].
  destruct (evp_ed25519_public _) as [spk|]; [|done]. destruct (negb _); [done|].
  by destruct (sign_fixed _ _); [intros [= <-]|].
Qed.

Lemma joining_identity_ok env text inv id id' : env_ok env -> decode_invite text = Some inv ->
  joining_identity env inv id = Some id' -> identity_ok id -> identity_ok id'.
Proof.
  intros [Hk _] [(Hn & _ & Hc & _) _]%decode_invite_spec Hj (Hid & Hpk & _).
  unfold joining_identity in Hj. case_bool_decide; [|by injection Hj as <-].
  destruct (Identity_create _ _ _) as [fresh|] eqn:Ef; [|done]. injection Hj as <-.
  apply created_fields in Ef as (Ek & En & Ew). unfold identity_ok, set_creator.
  cbn [Identity.node_id keypair Identity.network_id creator_node_id]. by rewrite Ek, En, Ew.
Qed.

(** ** Every command keeps it *)

Lemma config_create_ok env c input : env_ok env -> context_ok c ->
  context_ok (fst (config_create env c input)).
Proof.
  intros [_ Hnid] Hc. unfold config_create. destruct (prompt _ input) as [name input1].
  destruct (prompt _ input1) as [addr input2].
  pose proof (prompt_port_u16 51820 input2) as Hp. destruct (prompt_port _ input2) as [port input3].
  cbn [fst] in Hp. destruct (env_network_id env) as [nid|]; [|done]. specialize (Hnid _ eq_refl).
  set (id := set_network_creator _ _ _). assert (context_ok (set_ctx_identity id c)) as Hc'.
  { apply set_ctx_identity_ok; [|done]. destruct Hc as ((Hid & Hpk & _) & _).
    split_and!; try done. cbn [id set_network_creator creator_node_id]. rewrite Hid. apply hash_is32. }
  destruct (parse_interface addr) as [[a len]|]; [|done]. cbn [fst].
  apply start_tunnel_ok; [done|done|]. apply set_active_ok; [|done]. apply Hp. unfold in_width; lia.
Qed.

Lemma config_join_ok env c input c' input' : env_ok env -> context_ok c ->
  config_join env c input = Some (c', input') -> context_ok c'.
Proof.
  intros He Hc. unfold config_join. destruct (getline input) as [[[|ch text]|] input0]; try (by intros [= <- _]).
  destruct (decode_invite (ch :: text)) as [inv|] eqn:Ei; [|by intros [= <- _]].
  destruct (prompt _ input0) as [addr input1].
  pose proof (prompt_port_u16 51821 input1) as Hp. destruct (prompt_port _ input1) as [port input2].
  cbn [fst] in Hp. destruct (joining_identity env inv _) as [id|] eqn:Ej; [|done].
  assert (context_ok (set_ctx_identity id c)) as Hc'.
  { apply set_ctx_identity_ok; [|done]. eapply joining_identity_ok; [done..|]. by destruct Hc. }
  destruct (parse_interface addr) as [[a len]|]; [|by intros [= <- _]]. intros [= <- _].
  apply start_tunnel_ok; [done|by apply Forall_singleton, (invited_peer_ok _ _ Ei)|].
  apply set_active_ok; [|done]. apply Hp. unfold in_width; lia.
Qed.

Lemma running_tunnel_some c t : running_tunnel c = Some t -> tunnel c = Some t /\ state c = Running.
Proof. unfold running_tunnel. by destruct (state c). Qed.

Lemma dispatch_ok env p c input c' input' out : env_ok env -> context_ok c ->
  dispatch env p c input = Some (c', input', out) -> context_ok c'.
Proof.
  intros He Hc. unfold dispatch. destruct (mode p); [|by intros [= <- _ _]].
  destruct (find_command _) as [[]|]; try (by intros [= <- _ _]).
  - unfold cmd_config. case_bool_decide; [by intros [= <- _ _]|].
    destruct (getline input) as [[[|ch choice]|] input0]; try (by intros [= <- _ _]).
    case_bool_decide; [|case_bool_decide; [|by intros [= <- _ _]]].
    + intros [= E _]. change c' with (fst (c', input')). rewrite <- E. by apply config_create_ok.
    + destruct (config_join _ _ _) as [[c1 input1]|] eqn:Ej; [|done]. intros [= <- _ _].
      by eapply config_join_ok.
  - intros [= <- _ _]. unfold cmd_delete. destruct (running_tunnel c); [|done].
    destruct (is_creator _); [by apply no_tunnel_ok|done].
  - intros [= <- _ _]. unfold cmd_leave. destruct (running_tunnel c); [by apply no_tunnel_ok|done].
  - intros [= <- _ _]. unfold cmd_connect. destruct (args p) as [|text]; [done|].
    destruct (running_tunnel c) as [t|] eqn:Er; [|done]. apply running_tunnel_some in Er as [Et _].
    destruct (decode_invite text) as [inv|]; [|done]. case_bool_decide; [|done].
    apply spawn_ok; [done|constructor|done].
  - intros [= <- _ _]. unfold cmd_sendfile. destruct (args p) as [|path]; [done|].
    destruct (tunnel c) as [t|] eqn:Et; [|done]. apply spawn_ok; [done|constructor|done].
  - intros [= <- _ _]. destruct Hc as (? & ? & _). by split_and!.
Qed.

Lemma repl_turn_ok env picked r r' : env_ok env -> context_ok (ctx r) ->
  repl_turn env picked r = Some r' -> context_ok (ctx r').
Proof.
  intros He Hc. unfold repl_turn. destruct (quit_requested _); [done|].
  destruct (getline (stdin r)) as [[line|] input]; [|done]. cbv zeta.
  set (p := parse_cli_input _). destruct (is_bare_slash p); [by intros [= <-]|].
  destruct (mode p).
  - destruct (command p); [by intros [= <-]|].
    destruct (dispatch env p (ctx r) input) as [[[c1 input1] out]|] eqn:Ed; [|done].
    intros [= <-]. by eapply dispatch_ok.
  - intros [= <-]. cbn [ctx]. unfold say. destruct (raw_text p); [done|].
    destruct (running_tunnel (ctx r)) as [t|] eqn:Er; [|done]. apply running_tunnel_some in Er as [Et _].
    apply spawn_ok; [done|constructor|done].
Qed.

Lemma cli_reachable_ok id input r : identity_ok id -> cli_reachable id input r -> context_ok (ctx r).
Proof.
  intros Hid. induction 1 as [|r r' _ IH Hs]; [by split_and!|].
  destruct Hs as [env picked r r' He Ht|r t ps n Et Hs]; [by eapply repl_turn_ok|].
  destruct IH as (H1' & H2' & H3'). destruct (H3' t Et) as (Hst & Hok & Hps & Hrest).
  split_and!; [done|done|]. intros t' [= <-]. split; [done|]. split_and!; [|done|apply Hrest|apply Hrest].
  by apply (system_step_ok (ti_config t) clock_mono Hps _ _ Hs).
Qed.

(** ** Invites *)

(** The payload with the part of the name that fits. *)
Definition short_name (p : InvitePayload) : InvitePayload :=
  mkInvite (iv_network_id p) (bootstrap_pubkey p) (iv_creator_node_id p) (bootstrap_endpoint p)
    (bootstrap_prefix p) (bootstrap_prefix_len p) (take INVITE_MAX_NAME_SIZE (network_name p)).

Lemma encode_short_name p : encode_invite (short_name p) = encode_invite p.
Proof.
  unfold encode_invite, short_name.
  cbn [iv_network_id bootstrap_pubkey iv_creator_node_id bootstrap_endpoint bootstrap_prefix
    bootstrap_prefix_len network_name].
  rewrite length_take, take_take.
  replace (Nat.min (Nat.min INVITE_MAX_NAME_SIZE (length (network_name p))) INVITE_MAX_NAME_SIZE)
    with (Nat.min (length (network_name p)) INVITE_MAX_NAME_SIZE) by lia.
  by replace (Nat.min (Nat.min (length (network_name p)) INVITE_MAX_NAME_SIZE) INVITE_MAX_NAME_SIZE)
    with (Nat.min (length (network_name p)) INVITE_MAX_NAME_SIZE) by lia.
Qed.

Lemma interface_ipv4 text a len : parse_interface text = Some (a, len) -> family a = IPv4 ->
  from_ipv4 (ipv4_value a) = a /\ u32 (ipv4_value a) /\ 0 <= len <= 32.
Proof.
  intros [Ha Hl]%parse_interface_ok Hf.
  destruct (host_ipv4 (mkEndpoint a 0)) as (v & Hv & [= ->]); [by apply bool_decide_eq_true|done|].
  by rewrite ipv4_value_from.
Qed.

(** What [/invite] puts into an invite. *)
Lemma invite_payload_inv c p : context_ok c -> invite_payload c = Some p ->
  exists t a len, running_tunnel c = Some t /\
    parse_interface (if_address (iface (active_config c))) = Some (a, len) /\ family a = IPv4 /\
    p = mkInvite (Identity.network_id (ctx_identity c)) (Identity.public_key (keypair (ctx_identity c)))
          (creator_id (ti_config t)) (from_parts 127 0 0 1 (if_listen_port (iface (active_config c))))
          (ipv4_value a) len (ti_name t) /\
    invite_wf (short_name p).
Proof.
  intros ((_ & Hpk & Hn & _) & Hport & Ht). unfold invite_payload.
  destruct (running_tunnel c) as [t|] eqn:Er; [|done]. pose proof (running_tunnel_some _ _ Er) as [Et _].
  destruct (Ht t Et) as (_ & _ & _ & -> & Hc).
  destruct (parse_interface _) as [[a len]|] eqn:Ea; [|done]. case_bool_decide as Hf; [|done].
  intros [= <-]. exists t, a, len. split_and!; [done|done|done|done|].
  destruct (interface_ipv4 _ _ _ Ea Hf) as (_ & Hv & Hl).
  split_and!; try done; try apply Hl.
  - split; [|apply ntohs_range]. exists 2130706433. done.
  - cbn [short_name network_name]. rewrite length_take. lia.
Qed.

Lemma printed_invite_decodes c code : context_ok c -> cmd_invite c = [Printed code] ->
  exists p, invite_payload c = Some p /\ invite_wf (short_name p) /\ decode_invite code = Some (short_name p).
Proof.
  intros Hc. unfold cmd_invite. destruct (invite_payload c) as [p|] eqn:Ep; [|done]. intros [= <-].
  destruct (invite_payload_inv c p Hc Ep) as (t & a & len & _ & _ & _ & _ & Hwf).
  exists p. split_and!; [done|done|]. rewrite <- encode_short_name. by apply decode_encode_invite.
Qed.

(** Joining with a code that decodes, an address that parses and the privileges. *)
Lemma config_join_outcome env c code inv addr a len port rest :
  decode_invite code = Some inv -> parse_interface addr = Some (a, len) ->
  platform_is_admin env = true ->
  Identity.public_key (keypair (ctx_identity c)) <> bootstrap_pubkey inv ->
  exists c', config_join env c (code :: addr :: port :: rest) = Some (c', rest) /\
    Identity.network_id (ctx_identity c') = iv_network_id inv /\
    match tunnel c' with
    | None => env_adapter env = false \/ no_socket (env_binds env)
    | Some t =>
        state c' = Running /\ overlay_address (ti_config t) = a /\ overlay_prefix (ti_config t) = len /\
        Identity.network_id (Session.identity (session_env (ti_config t))) = iv_network_id inv /\
        creator_id (ti_config t) = iv_creator_node_id inv /\
        config_peers (ti_config t) = [invited_peer inv] /\
        nd_running (ti_node t) = true
    end.
Proof.
  intros Hd Ha Hadmin Hkey. unfold config_join. cbn [getline].
  destruct code as [|ch code]; [done|]. rewrite Hd. destruct addr as [|ca addr]; [done|].
  cbn [prompt getline]. rewrite (surjective_pairing (prompt_port 51821 (port :: rest))).
  replace (snd (prompt_port 51821 (port :: rest))) with rest by (by destruct port).
  unfold joining_identity. rewrite bool_decide_eq_false_2 by done. rewrite Ha.
  eexists. split; [done|]. unfold start_tunnel_helper. rewrite Hadmin. cbn [negb ts_stun_server interactive_setup].
  destruct (start _ _ _ _ _ _ _ _ _) as [[cfg n]|] eqn:Es; cbn [snd].
  - pose proof (started_config _ _ _ _ _ _ _ _ _ _ _ _ _ _ Es) as [-> Hn]. by split_and!.
  - split; [done|]. cbn [tunnel set_tunnel]. apply start_refused in Es; [done| |by eexists].
    apply parse_interface_ok in Ha as [Ha Hl]. apply host_address_wf in Ha as [_ Hv].
    unfold prefix_valid. cbn. rewrite Hv. apply Z.leb_le. lia.
Qed.

(** What ends the loop. *)
Lemma join_throws env c input : config_join env c input = None ->
  exists network, Identity_create network (env_keys env) (env_signing env) = None.
Proof.
  unfold config_join. destruct (getline input) as [[[|ch text]|] input0]; try done.
  destruct (decode_invite _) as [inv|]; [|done]. destruct (prompt _ _) as [addr input1].
  destruct (prompt_port _ _) as [port input2].
  destruct (joining_identity _ _ _) as [id|] eqn:Ej; [by destruct (parse_interface _) as [[]|]|].
  intros _. unfold joining_identity in Ej. case_bool_decide; [|done]. exists (iv_network_id inv).
  by destruct (Identity_create _ _ _).
Qed.

Lemma turn_ends env picked r : repl_turn env picked r = None ->
  quit_requested (ctx r) = true \/ stdin r = [] \/
  exists network, Identity_create network (env_keys env) (env_signing env) = None.
Proof.
  unfold repl_turn. destruct (quit_requested (ctx r)); [by left|].
  destruct (stdin r) as [|line input]; [by right; left|]. cbn [getline]. cbv zeta.
  set (p := parse_cli_input _). destruct (is_bare_slash p); [done|].
  destruct (mode p) eqn:Em; [|done]. destruct (command p) eqn:Ec; [done|].
  unfold dispatch. rewrite Em. destruct (find_command _) as [[]|]; try done.
  destruct (cmd_config env (args p) (ctx r) input) as [[[]]|] eqn:Ed; [done|]. intros _. right. right.
  unfold cmd_config in Ed. case_bool_decide; [done|].
  destruct (getline input) as [[[|ch choice]|] input0]; try done.
  case_bool_decide; [done|]. case_bool_decide; [|done].
  destruct (config_join _ _ _) as [[]|] eqn:Ej; [done|]. by eapply join_throws.
Qed.
End cli.

(** ** The invite tool of the main program *)

(** [strtoul] in base 16 of two characters that both belong to the number: white space or a
    sign may stand for the first digit. *)
Definition hex_pair (a b : byte) : option byte :=
  match hexval a, hexval b with
  | Some h, Some l => Some (b8 (16 * h + l))
  | None, Some l =>
      if is_space a || bool_decide (a = x2b) then Some (b8 l)
      else if bool_decide (a = x2d) then Some (b8 (- l))
      else None
  | _, None => None
  end.

Fixpoint parse_hex (s : list byte) : option (list byte) :=
  match s with
  | [] => Some []
  | [_] => None
  | a :: b :: s =>
      match hex_pair a b, parse_hex s with
      | Some v, Some bs => Some (v :: bs)
      | _, _ => None
      end
  end.

Definition parse_hex32 (s : list byte) : option (list byte) :=
  match parse_hex s with
  | Some bs => if Nat.eqb (length bs) 32 then Some bs else None
  | None => None
  end.

(** The four numbers with dots between them that [printf] writes for a host-order address. *)
Definition print_octets (v : Z) : list byte :=
  to_string (Z.land (Z.shiftr v 24) 255) ++ [DOT] ++ to_string (Z.land (Z.shiftr v 16) 255) ++ [DOT] ++
  to_string (Z.land (Z.shiftr v 8) 255) ++ [DOT] ++ to_string (Z.land v 255).

Definition print_invite (p : InvitePayload) : list byte :=
  lit "NetworkID:        " ++ to_hex (iv_network_id p) ++ [NEWLINE] ++
  lit "Bootstrap PubKey: " ++ to_hex (bootstrap_pubkey p) ++ [NEWLINE] ++
  lit "Endpoint:         " ++ endpoint_to_string (bootstrap_endpoint p) ++ [NEWLINE] ++
  lit "Allowed Prefix:   " ++ print_octets (ntohl (bootstrap_prefix p)) ++ [SLASH] ++
  to_string (bootstrap_prefix_len p) ++ [NEWLINE].

Definition generate_invite (resolve : list byte -> option Z) (nid pk endpoint cidr : list byte)
    : Z * list byte :=
  match parse_hex32 nid, parse_hex32 pk, parse_endpoint resolve endpoint, parse_cidr cidr with
  | Some nid, Some pk, Some e, Some (a, len) =>
      if bool_decide (family a = IPv4) then
        (0, encode_invite (mkInvite nid pk zero32 e (ipv4_value a) len []) ++ [NEWLINE])
      else (1, [])
  | _, _, _, _ => (1, [])
  end.

(** [run_invite]: the exit status and the standard output; [argv] starts at index 2. *)
Definition run_invite (resolve : list byte -> option Z) (argv : list (list byte)) : Z * list byte :=
  match argv with
  | [] => (1, [])
  | action :: rest =>
      if bool_decide (action = lit "generate") then
        match rest with
        | nid :: pk :: endpoint :: cidr :: _ => generate_invite resolve nid pk endpoint cidr
        | _ => (1, [])
        end
      else if bool_decide (action = lit "decode") then
        match rest with
        | code :: _ => match decode_invite code with Some p => (0, print_invite p) | None => (1, []) end
        | [] => (1, [])
        end
      else (1, [])
  end.

(** ** The tunnel mode of the main program *)

(** The digits of a number, and what follows them. *)
Fixpoint scan_digits (acc : Z) (any : bool) (s : list byte) : Z * bool * list byte :=
  match s with
  | [] => (acc, any, [])
  | c :: s' =>
      match decimal_digit c with
      | Some d => scan_digits (acc * 10 + d) true s'
      | None => (acc, any, s)
      end
  end.

(** [%hhu] of [sscanf]: white space, a sign, digits; the value, which saturates at 64 bits, is
    cut to a byte. *)
Definition scan_u8 (s : list byte) : option (Z * list byte) :=
  let s := skip_space s in
  let '(negative, s) :=
    match s with
    | c :: s' => if bool_decide (c = x2d) then (true, s')
                 else if bool_decide (c = x2b) then (false, s') else (false, s)
    | [] => (false, s)
    end in
  match scan_digits 0 false s with
  | (_, false, _) => None
  | (v, true, rest) =>
      let v := Z.min v 18446744073709551615 in
      Some (wrap 8 (if negative : bool then - v else v), rest)
  end.

Definition scan_dot (s : list byte) : option (list byte) :=
  match s with c :: s => if bool_decide (c = DOT) then Some s else None | [] => None end.

(** [parse_ipv4] of [main.cpp], in host order; what follows the fourth number is ignored. *)
Definition scan_ipv4 (s : list byte) : option Z :=
  '(a, s) ← scan_u8 s; s ← scan_dot s; '(b, s) ← scan_u8 s; s ← scan_dot s;
  '(c, s) ← scan_u8 s; s ← scan_dot s; '(d, _) ← scan_u8 s;
  Some (Z.lor (Z.lor (Z.lor (Z.shiftl a 24) (Z.shiftl b 16)) (Z.shiftl c 8)) d).

(** The peer of a [--peer] block before its prefixes.  Its id is the one that was typed. *)
Definition typed_peer (nid pk ip port : list byte) : option TunnelPeer :=
  nid ← parse_hex32 nid; pk ← parse_hex32 pk;
  let peer_port := atoi_u16 port in
  if peer_port =? 0 then None
  else ip ← scan_ipv4 ip; Some (mkTunnelPeer nid pk (ipv4_endpoint (ntohl ip) (ntohs peer_port)) []).

Definition push_prefix (aip : IPAddress * Z) (p : TunnelPeer) : TunnelPeer :=
  mkTunnelPeer (tp_node_id p) (tp_public_key p) (tp_endpoint p) (allowed_ips p ++ [aip]).

(** The blocks; [current] is the one that is open.  A block needs an argument after its port. *)
Fixpoint tunnel_peers (current : option TunnelPeer) (argv : list (list byte)) : option (list TunnelPeer) :=
  let close ps := match current with Some p => p :: ps | None => ps end in
  match argv with
  | [] => Some (close [])
  | word :: rest =>
      if bool_decide (word = lit "--peer") then
        match rest with
        | nid :: pk :: ip :: port :: ((_ :: _) as rest) =>
            p ← typed_peer nid pk ip port; ps ← tunnel_peers (Some p) rest; Some (close ps)
        | _ => None
        end
      else
        match current with
        | Some p => aip ← parse_cidr word; tunnel_peers (Some (push_prefix aip p)) rest
        | None => None
        end
  end.

Section tunnel_mode.
Context `{OpenSSL}.

(** [run_tunnel] up to [tunnel.start]; [argv] starts at index 2, [None] is [return 1] or the
    exception of [Identity::create]. *)
Definition run_tunnel (kx : KeyPair) (kg : option KeyPair) (argv : list (list byte)) : option TunnelSetup :=
  match argv with
  | ip :: prefix :: port :: ((_ :: _) as rest) =>
      local_ip ← scan_ipv4 ip;
      '(identity, rest) ←
        match rest with
        | word :: rest' =>
            if bool_decide (word = lit "--network") then
              match rest' with
              | [] => None
              | nid :: rest' => nid ← parse_hex32 nid; id ← Identity_create nid kx kg; Some (Some id, rest')
              end
            else Some (None, rest)
        | [] => Some (None, rest)
        end;
      ps ← tunnel_peers None rest;
      match ps with
      | [] => None
      | _ => Some (mkSetup identity (from_ipv4 local_ip) (wrap 8 (atoi prefix)) (atoi_u16 port)
                     DEFAULT_UNDERLAY_MTU (if_max_relay_depth default_interface)
                     (if_padding_bucket_size default_interface) None None ps)
      end
  | _ => None
  end.
End tunnel_mode.

Lemma hexval_range c v : hexval c = Some v -> 0 <= v < 16.
Proof. unfold hexval. cbv zeta. repeat case_match; try done; intros [= <-]; lia. Qed.

Lemma hex_pair_strict a b h l : hexval a = Some h -> hexval b = Some l ->
  hex_pair a b = Some (b8 (Z.lor (Z.shiftl h 4) l)).
Proof.
  intros Ha Hb. unfold hex_pair. rewrite Ha, Hb. do 2 f_equal.
  apply hexval_range in Ha, Hb. rewrite Z.shiftl_mul_pow2 by lia.
  assert (Z.land (h * 2 ^ 4) l = 0) as Hd.
  { apply Z.bits_inj'. intros n Hn. rewrite Z.land_spec, Z.bits_0. apply andb_false_iff.
    destruct (Z.lt_ge_cases n 4); [left; by apply Z.mul_pow2_bits_low|right].
    destruct (Z.eq_dec l 0) as [->|]; [apply Z.bits_0|]. apply Z.bits_above_log2; [lia|].
    apply Z.log2_lt_pow2; [lia|]. apply Z.lt_le_trans with (2 ^ 4); [lia|]. apply Z.pow_le_mono_r; lia. }
  rewrite <- Z.lxor_lor by done. rewrite <- Z.add_nocarry_lxor by done. lia.
Qed.

Lemma parse_hex_strict s : forall bs, parse_hex_bytes s = Some bs -> parse_hex s = Some bs.
Proof.
  induction s as [s IH] using (induction_ltof1 _ (@length byte)). unfold ltof in IH.
  destruct s as [|a [|b s]]; intros bs; cbn [parse_hex_bytes parse_hex]; [done|done|].
  destruct (hexval a) as [h|] eqn:Ha; [|done]. destruct (hexval b) as [l|] eqn:Hb; [|done].
  destruct (parse_hex_bytes s) as [bs'|] eqn:E; [|done]. intros [= <-].
  rewrite (hex_pair_strict _ _ _ _ Ha Hb), (IH s) with (bs := bs'); [done|cbn; lia|done].
Qed.

Lemma parse_hex32_to_hex bs : is32 bs -> parse_hex32 (to_hex bs) = Some bs.
Proof.
  intros Hb. unfold parse_hex32. rewrite (parse_hex_strict _ _ (parse_hex_to_hex bs)).
  by rewrite Hb.
Qed.

(** The octets of an address, last to first. *)
Lemma print_octets_swapped o0 o1 o2 o3 :
  print_octets (ntohl (be_combine [o0; o1; o2; o3])) =
  to_string (bval o3) ++ [DOT] ++ to_string (bval o2) ++ [DOT] ++ to_string (bval o1) ++ [DOT] ++
  to_string (bval o0).
Proof.
  unfold ntohl, le_split. rewrite be_split_combine by done. cbn [rev app].
  set (v := be_combine [o3; o2; o1; o0]).
  assert (be_split 4 v = [o3; o2; o1; o0]) as Hs by (by apply be_split_combine). clearbody v.
  assert (forall x, Z.land x 255 = bval (b8 x)) as Hl.
  { intros x. rewrite bval_b8. unfold wrap. by rewrite <- Z.land_ones. }
  unfold print_octets. rewrite !Hl. unfold be_split in Hs. cbn in Hs.
  rewrite Z.shiftr_0_r in Hs. by injection Hs as <- <- <- <-.
Qed.

Lemma ipv4_value_octets a o0 o1 o2 o3 : family a = IPv4 -> take 4 (ip_bytes a) = [o0; o1; o2; o3] ->
  ipv4_value a = be_combine [o0; o1; o2; o3].
Proof.
  intros Hf Hq. unfold ipv4_value. rewrite Hf, <- be_combine_4 by done. unfold ip_at.
  destruct (ip_bytes a) as [|b0 [|b1 [|b2 [|b3 rest]]]]; try done. by injection Hq as -> -> -> ->.
Qed.

Lemma parse_cidr_length cidr a len : parse_cidr cidr = Some (a, len) -> family a = IPv4 -> 0 <= len <= 32.
Proof.
  unfold parse_cidr. destruct (parse_prefix cidr) as [p|] eqn:Ep; [|done]. intros [= <- <-] Hf.
  apply parse_prefix_ok in Ep as (_ & Hv & Hl & _). split; [done|].
  unfold prefix_valid, bit_width in Hv. rewrite Hf in Hv. apply andb_prop in Hv as [_ Hv].
  by apply Z.leb_le in Hv.
Qed.

Definition prefixes_ok (p : TunnelPeer) : Prop :=
  Forall (λ aip, ip_wf (fst aip) /\ 0 <= snd aip) (allowed_ips p).

Lemma tunnel_peers_ok argv : forall current ps, tunnel_peers current argv = Some ps ->
  (forall p, current = Some p -> prefixes_ok p) -> Forall prefixes_ok ps.
Proof.
  induction argv as [argv IH] using (induction_ltof1 _ (@length (list byte))). unfold ltof in IH.
  intros current ps. destruct argv as [|word rest]; cbn [tunnel_peers].
  { intros [= <-] Hc. destruct current; repeat constructor. by apply Hc. }
  case_bool_decide.
  - destruct rest as [|nid [|pk [|ip [|port [|next rest]]]]]; try done. intros Hp Hc.
    apply bind_Some in Hp as (p & Hp & (qs & Hq & [= <-])%bind_Some).
    apply IH in Hq; [|cbn; lia|].
    + destruct current as [q|]; [|done]. constructor; [by apply Hc|done].
    + intros p' [= <-]. unfold typed_peer in Hp.
      apply bind_Some in Hp as (n & _ & (k & _ & Hp)%bind_Some). case_match; [done|].
      apply bind_Some in Hp as (a & _ & [= <-]). constructor.
  - destruct current as [p|]; [|done]. intros (aip & Ha & Hr)%bind_Some Hc.
    apply IH in Hr; [done|cbn; lia|]. intros p' [= <-]. unfold prefixes_ok. cbn [push_prefix allowed_ips].
    apply Forall_app. split; [by apply Hc|]. apply Forall_singleton. by apply (parse_cidr_ok word).
Qed.

Lemma run_tunnel_inv `{OpenSSL} kx kg argv s : run_tunnel kx kg argv = Some s ->
  Forall prefixes_ok (ts_peers s) /\ valid_family (ts_address s) = true /\ family (ts_address s) = IPv4 /\
  is_Some (safe_overlay_mtu (ts_underlay_mtu s) (ts_max_relay_depth s) (ts_bucket s)).
Proof.
  unfold run_tunnel. destruct argv as [|ip [|prefix [|port [|word rest]]]]; try done.
  intros (v & _ & ([identity rest'] & _ & (ps & Hps & Hs)%bind_Some)%bind_Some)%bind_Some.
  destruct ps as [|q ps]; [done|]. injection Hs as <-. split_and!; [|done|done|by eexists].
  by apply (tunnel_peers_ok _ _ _ Hps).
Qed.

(** ** Properties *)

(** A typed command is the command that runs.  However much white space precedes the slash,
    and with each word bare or in quotes and blanks in any number between them,
    [parse_cli_input] gives the words that were typed. *)
Theorem typed_command_is_parsed pad name ts :
  Forall (λ b, b ∈ CLI_BLANKS) pad -> spelling_ok name ->
  Forall (λ t, gap_ok (fst t) /\ spelling_ok (snd t)) ts ->
  let line := pad ++ SLASH :: spell name ++ spelled_args ts in
  parse_cli_input line = mkInput Command (snd name) (map (λ t, snd (snd t)) ts) line false.
Proof.
  intros Hpad Hn Hts line. unfold parse_cli_input, line.
  rewrite skip_blanks by (done || by apply (bool_decide_unpack _)).
  rewrite bool_decide_eq_true_2 by done.
  pose proof (tokenize_spell name (spelled_args ts) Hn) as Ht.
  rewrite tokenize_args in Ht by (done || apply Hn). rewrite Ht.
  destruct (spell name ++ spelled_args ts) as [|c s] eqn:E; [by cbn in Ht|done].
Qed.

(** The tunnel mode gives a safe node if the typed ids belong to the typed keys, which it does
    not check.  Whenever [run_tunnel] gets as far as starting the tunnel, the start is refused
    only for a prefix of more than 32 bits, or when the adapter or every port fails; and when
    each peer's id is the hash of its key, the invariants hold in every reachable state. *)
Theorem tunnel_mode_gives_safe_node `{OpenSSL, RandomSource, NoiseC, Machine} kx kg argv s fresh :
  run_tunnel kx kg argv = Some s ->
  (forall i j, (i <= j)%nat -> host_clock i <= host_clock j) ->
  let cfg := node_config fresh s in
  (forall keepalive dead port adapter binds addresses stun n,
     start cfg keepalive dead port adapter binds addresses stun n = None <->
     32 < ts_prefix s \/ adapter = false \/ no_socket binds) /\
  (Forall (λ p, hash_public_key (tp_public_key p) = tp_node_id p) (ts_peers s) ->
   forall r ps n, system_reachable cfg r (ps, n) -> node_inv cfg n /\ Throw ∉ ps).
Proof.
  intros Hs Hc cfg. apply run_tunnel_inv in Hs as (Hps & Hv & Hf & Hm). split.
  - intros. assert (prefix_valid (mkPrefix (overlay_address cfg) (overlay_prefix cfg)) = (ts_prefix s <=? 32)) as Hp.
    { unfold prefix_valid, bit_width, cfg, node_config.
      cbn [overlay_address overlay_prefix prefix_address prefix_len]. by rewrite Hv, Hf. }
    destruct (Z.leb_spec (ts_prefix s) 32) as [Hle|Hgt].
    + rewrite start_refused by done. split; [by right|]. intros [|]; [lia|done].
    + split; [by left|]. intros _. unfold start. by rewrite Hp.
  - intros Hids r ps n Hr.
    assert (Forall peer_config_ok (config_peers cfg)) as Hok.
    { apply Forall_forall. intros p Hin. rewrite Forall_forall in Hids, Hps.
      split; [by apply Hids|by apply Hps]. }
    destruct (system_reachable_ok cfg Hc Hok r _ Hr) as [Hn Ht]. split; [done|].
    intros Hin. rewrite Forall_forall in Ht. exact (Ht _ Hin).
Qed.


(** C26: An invite brings the joiner to the inviter, on the same machine.  The code [/invite]
    prints in any reachable state, pasted into [/config] of another node with a valid address,
    gives that node the inviter's network id and creator and, unless the adapter or the ports
    fail, a running tunnel with one bootstrap peer: the inviter, with its key, its overlay
    network, and the loopback address with the configured port, because no setup of the
    command line asks a STUN server. *)
Theorem invite_brings_joiner `{OpenSSL, RandomSource, NoiseC, Machine} id input r code :
  (forall bs d, evp_blake2b512 bs = Some d -> length d = 64%nat) ->
  (forall i j, (i <= j)%nat -> host_clock i <= host_clock j) ->
  identity_ok id -> cli_reachable id input r -> cmd_invite (ctx r) = [Printed code] ->
  let inviter := ctx_identity (ctx r) in
  exists t a len, tunnel (ctx r) = Some t /\
    parse_interface (if_address (iface (active_config (ctx r)))) = Some (a, len) /\
    forall env c addr a' len' port rest,
      parse_interface addr = Some (a', len') -> platform_is_admin env = true ->
      Identity.public_key (keypair (ctx_identity c)) <> Identity.public_key (keypair inviter) ->
      exists c', config_join env c (code :: addr :: port :: rest) = Some (c', rest) /\
        Identity.network_id (ctx_identity c') = Identity.network_id inviter /\
        match tunnel c' with
        | None => env_adapter env = false \/ no_socket (env_binds env)
        | Some t' =>
            nd_running (ti_node t') = true /\
            overlay_address (ti_config t') = a' /\ overlay_prefix (ti_config t') = len' /\
            Identity.network_id (Session.identity (session_env (ti_config t'))) = Identity.network_id inviter /\
            creator_id (ti_config t') = creator_id (ti_config t) /\
            config_peers (ti_config t') =
              [mkTunnelPeer (Identity.node_id inviter) (Identity.public_key (keypair inviter))
                 (from_parts 127 0 0 1 (if_listen_port (iface (active_config (ctx r))))) [(a, len)]]
        end.
Proof.
  intros Hd Hc Hid Hr Hcode inviter. pose proof (cli_reachable_ok Hd Hc id input r Hid Hr) as Hok.
  destruct (printed_invite_decodes _ _ Hok Hcode) as (p & Hp & Hwf & Hdec).
  destruct (invite_payload_inv _ _ Hok Hp) as (t & a & len & Hrt & Ha & Hf & -> & _).
  exists t, a, len. split_and!; [by apply running_tunnel_some in Hrt as [? _]|done|].
  intros env c addr a' len' port rest Haddr Hadmin Hkey.
  destruct (config_join_outcome env c code _ addr a' len' port rest Hdec Haddr Hadmin Hkey)
    as (c' & Hj & Hn & Hout).
  exists c'. split_and!; [done|done|]. destruct (tunnel c') as [t'|]; [|done].
  destruct Hout as (_ & E1 & E2 & E3 & E4 & E5 & E6). split_and!; try done. rewrite E5.
  unfold invited_peer, bootstrap_peer, short_name.
  cbn [bootstrap_pubkey bootstrap_endpoint bootstrap_prefix bootstrap_prefix_len].
  destruct (interface_ipv4 _ _ _ Ha Hf) as (-> & _). destruct Hok as ((Hnid & _) & _).
  unfold inviter. by rewrite Hnid.
Qed.

(** A setup that is refused misdirects the invites of the running network.  When the
    overlay address typed into [/config] does not parse, the running tunnel, its state and the
    recorded configuration stay, but the identity already carries the new network id: from
    then on [/invite] prints codes for a network no tunnel runs, and the tunnel keeps the old
    network. *)
Theorem refused_setup_misdirects_invites `{OpenSSL, RandomSource, NoiseC, Machine}
    env c name addr port rest nid p :
  env_network_id env = Some nid -> addr <> [] -> parse_interface addr = None ->
  invite_payload c = Some p ->
  exists c', cmd_config env [] c (lit "1" :: name :: addr :: port :: rest) = Some (c', rest, []) /\
    tunnel c' = tunnel c /\ state c' = state c /\ active_config c' = active_config c /\
    Identity.network_id (ctx_identity c') = nid /\
    exists p', invite_payload c' = Some p' /\ iv_network_id p' = nid /\
      bootstrap_pubkey p' = bootstrap_pubkey p /\ bootstrap_endpoint p' = bootstrap_endpoint p.
Proof.
  intros Hnid Hne Haddr Hp. unfold cmd_config. rewrite bool_decide_eq_false_2 by done. cbn [getline].
  assert (exists ch choice, lit "1" = ch :: choice) as (ch & choice & E) by (by do 2 eexists).
  rewrite E, <- E. rewrite bool_decide_eq_true_2 by done.
  unfold config_create. rewrite (surjective_pairing (prompt _ (name :: _))).
  replace (snd (prompt _ (name :: _))) with (addr :: port :: rest) by (by destruct name).
  destruct addr as [|ca addr]; [done|]. cbn [prompt getline].
  rewrite (surjective_pairing (prompt_port _ _)).
  replace (snd (prompt_port _ (port :: rest))) with rest by (by destruct port).
  rewrite Hnid, Haddr. eexists. split; [done|]. split_and!; [done..|].
  revert Hp. unfold invite_payload, running_tunnel. cbn [state tunnel set_ctx_identity active_config].
  destruct (match state c with NoNetwork => None | Running => tunnel c end) as [t|]; [|done].
  destruct (parse_interface (if_address _)) as [[a len]|]; [|done]. destruct (bool_decide _); [|done].
  intros [= <-]. by eexists.
Qed.

(** The invite tool reads its own codes, but shows the prefix backwards.  [--invite
    generate] with hexadecimal ids, an IPv4 endpoint and an IPv4 prefix prints a code, and
    [--invite decode] of that code succeeds and prints the same ids and endpoint, with the
    octets of the prefix in reverse order. *)
Theorem invite_tool_round_trip resolve nid pk endpoint e cidr a len o0 o1 o2 o3 :
  is32 nid -> is32 pk -> parse_endpoint resolve endpoint = Some e -> ipv4_endpoint_wf e ->
  parse_cidr cidr = Some (a, len) -> family a = IPv4 -> take 4 (ip_bytes a) = [o0; o1; o2; o3] ->
  exists code,
    run_invite resolve [lit "generate"; to_hex nid; to_hex pk; endpoint; cidr] = (0, code ++ [NEWLINE]) /\
    run_invite resolve [lit "decode"; code] =
      (0, lit "NetworkID:        " ++ to_hex nid ++ [NEWLINE] ++
          lit "Bootstrap PubKey: " ++ to_hex pk ++ [NEWLINE] ++
          lit "Endpoint:         " ++ endpoint_to_string e ++ [NEWLINE] ++
          lit "Allowed Prefix:   " ++
            (to_string (bval o3) ++ [DOT] ++ to_string (bval o2) ++ [DOT] ++ to_string (bval o1) ++ [DOT] ++
             to_string (bval o0)) ++ [SLASH] ++ to_string len ++ [NEWLINE]).
Proof.
  intros Hn Hk He Hwf Hc Hf Hq. set (v := be_combine [o0; o1; o2; o3]).
  assert (ipv4_value a = v) as Hv by (by apply ipv4_value_octets).
  exists (encode_invite (mkInvite nid pk zero32 e v len [])). split.
  - unfold run_invite. rewrite bool_decide_eq_true_2 by done. unfold generate_invite.
    rewrite !parse_hex32_to_hex, He, Hc by done. rewrite bool_decide_eq_true_2 by done. by rewrite Hv.
  - unfold run_invite. rewrite bool_decide_eq_false_2 by (by apply (bool_decide_unpack _)).
    rewrite bool_decide_eq_true_2 by done. rewrite decode_encode_invite.
    + unfold print_invite. cbn [iv_network_id bootstrap_pubkey bootstrap_endpoint bootstrap_prefix
        bootstrap_prefix_len]. unfold v. by rewrite print_octets_swapped.
    + pose proof (be_combine_range [o0; o1; o2; o3]) as Hr.
      destruct (parse_cidr_length _ _ _ Hc Hf). split_and!; try done.
      cbn. lia.
Qed.

(** ** A concrete session *)

Section session_witness.
#[local] Existing Instances toy_openssl toy_random toy_noise toy_machine.

Definition cli_keys : KeyPair := mkKeyPair (replicate 32 x03) (replicate 32 x04).
Definition cli_identity_of (kx : KeyPair) : Identity :=
  mkIdentity no_keypair kx zero_signature (hash_public_key (Identity.public_key kx)) zero32 zero32.
Definition cli_identity : Identity := cli_identity_of cli_keys.

Definition cli_env : CliEnv :=
  mkCliEnv true false true [(false, true)] [] None (7 : @rng toy_random) (Some (replicate 32 x09)) cli_keys None 0.

(** A network is created with the defaults. *)
Definition typed_lines : Stdin := [lit "/config"; lit "1"; []; []; []; lit "/status"].
Definition first_prompt : Repl := mkRepl (fresh_context cli_identity) [] typed_lines [].
Definition session : Repl := default first_prompt (repl_turn cli_env [] first_prompt).

Lemma session_turn : repl_turn cli_env [] first_prompt = Some session.
Proof.
  unfold session.
  assert (match repl_turn cli_env [] first_prompt with Some _ => true | None => false end = true)
    as Hs by (by vm_compute).
  by destruct (repl_turn cli_env [] first_prompt).
Qed.

Lemma toy_digest_size bs d : evp_blake2b512 bs = Some d -> length d = 64%nat.
Proof. intros [= <-]. apply length_toy_digest. Qed.

Lemma cli_identity_ok : identity_ok cli_identity.
Proof. by split_and!. Qed.

Lemma session_reachable : cli_reachable cli_identity typed_lines session.
Proof.
  eapply cli_next; [apply cli_init|]. apply (cli_line cli_env []); [|exact session_turn].
  split; [done|]. by intros nid [= <-].
Qed.


Definition printed_code : list byte :=
  match cmd_invite (ctx session) with [Printed code] => code | _ => [] end.
Definition joiner : CliContext :=
  fresh_context (cli_identity_of (mkKeyPair (replicate 32 x05) (replicate 32 x06))).

Lemma invite_brings_joiner_witness :
  cmd_invite (ctx session) = [Printed printed_code] /\
  exists c', config_join cli_env joiner [printed_code; lit "10.10.0.2/24"; []] = Some (c', []) /\
    Identity.network_id (ctx_identity c') = replicate 32 x09.
Proof.
  assert (cmd_invite (ctx session) = [Printed printed_code]) as Hcode by (by vm_compute).
  split; [exact Hcode|].
  destruct (invite_brings_joiner cli_identity typed_lines session printed_code toy_digest_size toy_clock
    cli_identity_ok session_reachable Hcode) as (t & a & len & _ & _ & Hjoin).
  destruct (Hjoin cli_env joiner (lit "10.10.0.2/24") (from_ipv4 168427522) 24 [] [])
    as (c' & Hj & Hn & _); [by vm_compute|done| |].
  - apply (bool_decide_unpack _). by vm_compute.
  - exists c'. split; [exact Hj|]. rewrite Hn. by vm_compute.
Defined.

(** The next network id the generator gives. *)
Definition other_env : CliEnv :=
  mkCliEnv true false true [(false, true)] [] None (8 : @rng toy_random) (Some (replicate 32 x0b)) cli_keys None 0.

Lemma refused_setup_misdirects_invites_witness :
  is_Some (invite_payload (ctx session)) /\
  exists c' p', cmd_config other_env [] (ctx session) [lit "1"; []; lit "10.10.0.300/24"; []] = Some (c', [], []) /\
    tunnel c' = tunnel (ctx session) /\ invite_payload c' = Some p' /\ iv_network_id p' = replicate 32 x0b.
Proof.
  destruct (invite_payload (ctx session)) as [p|] eqn:Ep; [|by vm_compute in Ep].
  split; [by eexists|].
  destruct (refused_setup_misdirects_invites other_env (ctx session) [] (lit "10.10.0.300/24") [] []
    (replicate 32 x0b) p) as (c' & Hc & Ht & _ & _ & _ & p' & Hp & Hn & _); [done|done|by vm_compute|done|].
  by exists c', p'.
Defined.
End session_witness.

Lemma invite_tool_round_trip_witness :
  exists code,
    run_invite (λ _, None) [lit "generate"; to_hex (replicate 32 x09); to_hex (replicate 32 x03);
                            lit "203.0.113.9:51820"; lit "10.20.0.0/16"] = (0, code ++ [NEWLINE]) /\
    run_invite (λ _, None) [lit "decode"; code] =
      (0, lit "NetworkID:        " ++ to_hex (replicate 32 x09) ++ [NEWLINE] ++
          lit "Bootstrap PubKey: " ++ to_hex (replicate 32 x03) ++ [NEWLINE] ++
          lit "Endpoint:         " ++ endpoint_to_string (from_parts 203 0 113 9 51820) ++ [NEWLINE] ++
          lit "Allowed Prefix:   " ++ lit "0.0.20.10" ++ [SLASH] ++ to_string 16 ++ [NEWLINE]).
Proof.
  destruct (invite_tool_round_trip (λ _, None) (replicate 32 x09) (replicate 32 x03)
    (lit "203.0.113.9:51820") (from_parts 203 0 113 9 51820) (lit "10.20.0.0/16")
    (from_ipv4 169082880) 16 x0a x14 x00 x00) as (code & Hg & Hd).
  - reflexivity.
  - reflexivity.
  - by vm_compute.
  - split; [exists 3405803785; split; [done|by vm_compute]|apply ntohs_range].
  - by vm_compute.
  - reflexivity.
  - by vm_compute.
  - exists code. split; [exact Hg|].
    assert (to_string (bval x00) ++ [DOT] ++ to_string (bval x00) ++ [DOT] ++ to_string (bval x14) ++
      [DOT] ++ to_string (bval x0a) = lit "0.0.20.10") as E by (by vm_compute).
    by rewrite E in Hd.
Defined.
