(* ===== verification/Report.v ===== *)
(** * The commands that report ([src/cli/commands.cpp])

    [/help], [/peers], [/status], [/identity], [/verbose] and [/discover] change nothing but the
    verbosity of the log; each is the text it prints.  [reports_hide_private_key] shows that no
    text the command line produces depends on the private key, unless the user asks for it. *)

From Stdlib Require Import String.
From stdpp Require Import base numbers gmap option list.
From Stdlib Require Import ZArith Lia Bool.
From Stdlib.Strings Require Import Byte.
From S2P Require Import Prelude Crypto Identity NoiseIk Session IpAddress Endpoint Text Invite Config Discovery.
From S2P Require Import Routing Peer Node Tunnel NodeSafe Cli.

Set Default Goal Selector "!".
#[local] Open Scope Z_scope.

(** ** Formats *)

(** [%s] of a [c_str]. *)
Fixpoint c_str (s : list byte) : list byte :=
  match s with
  | [] => []
  | c :: s => if bool_decide (c = x00) then [] else c :: c_str s
  end.

(** [%-<n>s]. *)
Definition padded (n : nat) (s : list byte) : list byte := s ++ replicate (n - length s) x20.

Definition columns (l : list (nat * list byte)) : list byte :=
  line (join x20 (map (λ p, padded (fst p) (snd p)) l)).

Definition unlines (l : list (list byte)) : list byte := concat (map line l).

Definition rule (n : nat) : list byte := line (replicate n x2d).

(** ** Help and verbosity *)

Definition cmd_help : list byte :=
  unlines
    [ lit "Aegis Interactive CLI Commands:"; [];
      lit "  /help                     List available commands";
      lit "  /config                   Create or join a mesh network (with Network Name)";
      lit "  /config export [path]     Export current running config as YAML";
      lit "  /delete or /destroy       Delete/destroy current network (Creator only)";
      lit "  /leave or /disconnect     Disconnect/leave current network";
      lit "  /discover or /scan        Discover active Aegis networks on local LAN";
      lit "  /invite                   Generate invite code for current network";
      lit "  /connect <invite>         Connect to a peer using an invite code";
      lit "  /sendfile <path>          Send a file to mesh peers";
      lit "  /peers                    List known peers and connection health";
      lit "  /status                   Display node status and network details";
      lit "  /identity [--reveal]      Display local NodeID, Public Key, (and Private Key)";
      lit "  /verbose <on|off>         Toggle background debug logging";
      lit "  /quit or /exit            Clean shutdown of Aegis session";
      lit "  /                         Inline path picker"; [] ].

(** The text and [g_verbose_logging] afterwards. *)
Definition cmd_verbose (words : list (list byte)) (verbose : bool) : list byte * bool :=
  match words with
  | [] =>
      (lit "Verbose debug logging is currently " ++ (if verbose then lit "ON" else lit "OFF") ++
       line (lit ".") ++ line (lit "Usage: /verbose <on|off>"), verbose)
  | arg :: _ =>
      if bool_decide (arg ∈ [lit "on"; lit "true"; lit "1"])
      then (line (lit "Verbose debug logging enabled."), true)
      else if bool_decide (arg ∈ [lit "off"; lit "false"; lit "0"])
      then (line (lit "Verbose debug logging disabled."), false)
      else (line (lit "Usage: /verbose <on|off>"), verbose)
  end.

Section report.
Context `{OpenSSL, RandomSource, NoiseC, Machine}.

(** ** Peers *)

Definition state_text (s : PeerState) : list byte :=
  match s with
  | Discovering => lit "Discovering"
  | Connecting => lit "Connecting"
  | Established => lit "Established"
  | Dead => lit "Dead"
  | StateUnknown => lit "Unknown"
  end.

(** A route that a packet could take now. *)
Definition viable (now : Z) (r : Route) : bool :=
  negb (probe_failed r) && negb (learned_route_lease_expired r now).

Definition path_text (now : Z) (e : RoutingEngine) (p : Peer) : list byte :=
  match Peer.path p with
  | PathDirect => lit "Direct"
  | HolePunched => lit "Hole-punched"
  | PathUnknown =>
      let rs := routes_to (Peer.node_id p) e in
      if existsb (λ r, bool_decide (type r = Direct) && viable now r) rs then lit "Direct"
      else if existsb (λ r, bool_decide (type r = Relay) && viable now r) rs then lit "Relayed"
      else lit "Unknown"
  end.

Definition peer_line (now : Z) (e : RoutingEngine) (p : Peer) : list byte :=
  columns [(16%nat, to_hex (take 8 (Peer.node_id p)) ++ lit "..."); (12%nat, state_text (Peer.state p));
           (22%nat, match Peer.endpoint p with Some ep => endpoint_to_string ep | None => lit "N/A" end);
           (14%nat, path_text now e p); (8%nat, if trusted p then lit "Trusted" else lit "Gossiped")].

Definition cmd_peers (now : Z) (c : CliContext) : list byte :=
  match running_tunnel c with
  | None => line (lit "No active network.")
  | Some t =>
      let ps := all_peers (nd_peers (ti_node t)) in
      line [] ++
      line (lit "Known Peers in '" ++ c_str (ti_name t) ++ lit "' (" ++
            to_string (Z.of_nat (length ps)) ++ lit " total):") ++
      columns [(16%nat, lit "NodeID (prefix)"); (12%nat, lit "State"); (22%nat, lit "Endpoint");
               (14%nat, lit "Path"); (8%nat, lit "Type")] ++
      rule 72 ++
      concat (map (peer_line now (nd_routing (ti_node t))) ps) ++ line []
  end.

(** ** Status and identity *)

Definition counters (label : list byte) (l : list (list byte * Z)) : list byte :=
  line (label ++ join x20 (map (λ p, fst p ++ lit "=" ++ to_string (snd p)) l)).

Definition cmd_status (c : CliContext) : list byte :=
  line [] ++ line (lit "--- Aegis Node Status ---") ++
  line (lit "Status:       " ++
    match state c with Running => lit "RUNNING" | NoNetwork => lit "NO ACTIVE NETWORK" end) ++
  match running_tunnel c with
  | Some t => line (lit "Network Name: " ++ c_str (ti_name t))
  | None => []
  end ++
  line (lit "NodeID:       " ++ to_hex (Identity.node_id (ctx_identity c))) ++
  line (lit "NetworkID:    " ++ to_hex (Identity.network_id (ctx_identity c))) ++
  match running_tunnel c with
  | None => []
  | Some t =>
      let drops := drop_stats (ti_node t) in
      line (lit "Overlay IP:   " ++ c_str (if_address (iface (active_config c)))) ++
      line (lit "Overlay MTU:  " ++ to_string (overlay_mtu (ti_config t))) ++
      line (lit "Listen Port:  " ++ to_string (if_listen_port (iface (active_config c)))) ++
      line (lit "Peers:        " ++ to_string (Z.of_nat (size (peers (nd_peers (ti_node t))))) ++
            lit " active") ++
      counters (lit "MTU Drops:    ")
        [(lit "outbound", stat_oversize_outbound drops); (lit "inbound", stat_oversize_inbound drops);
         (lit "invalid", stat_invalid_inbound drops); (lit "wire-send", transport_oversize_send drops);
         (lit "wire-receive", transport_oversize_receive drops)] ++
      counters (lit "Queue Drops:  ")
        [(lit "data", transport_data_queue_drops drops);
         (lit "control", transport_control_queue_drops drops)] ++
      counters (lit "Relay Usage:  ")
        [(lit "packets", relay_admitted_packets drops); (lit "bytes", relay_admitted_bytes drops);
         (lit "peer-drops", relay_peer_drops drops); (lit "global-drops", relay_global_drops drops);
         (lit "capacity-drops", relay_capacity_drops drops)]
  end ++ line [].

Definition cmd_identity (words : list (list byte)) (c : CliContext) : list byte :=
  let id := ctx_identity c in
  let reveal := bool_decide (head words = Some (lit "--reveal")) in
  line [] ++ line (lit "--- Local Node Identity ---") ++
  line (lit "NodeID:     " ++ to_hex (Identity.node_id id)) ++
  line (lit "Public Key: " ++ to_hex (Identity.public_key (keypair id))) ++
  line (lit "NetworkID:  " ++ to_hex (Identity.network_id id)) ++
  (if reveal
   then line (lit "Private Key: " ++ to_hex (Identity.private_key (keypair id)) ++ lit " [REVEALED]")
   else line (lit "Private Key: [PROTECTED - use /identity --reveal to show]")) ++
  line [].

(** ** Networks in sight *)

Record NetInfo := mkNetInfo {
  net_name : list byte; node_count : Z; bootstrap_ep : Endpoint; creator_of_net : NodeId }.

(** One presence and its name, which is not on the wire: only the node's own presence has one. *)
Definition count_presence (p : Presence * list byte) (nets : gmap NetworkId NetInfo)
    : gmap NetworkId NetInfo :=
  let ni := default (mkNetInfo [] 0 no_endpoint zero32) (nets !! pr_network_id (fst p)) in
  <[pr_network_id (fst p) :=
      mkNetInfo (match snd p with [] => net_name ni | n => n end) (node_count ni + 1)
        (reachable_endpoint (fst p)) (pr_creator (fst p))]> nets.

Definition networks_of (presences : gmap NodeId (Presence * list byte)) : gmap NetworkId NetInfo :=
  foldl (λ nets p, count_presence (snd p) nets) ∅ (entries presences).

(** The presences of the tunnel, or of a scan ([scanned]) without one; a running node adds itself. *)
Definition visible (scanned : gmap NodeId Presence) (c : CliContext)
    : gmap NodeId (Presence * list byte) :=
  let seen := match tunnel c with Some t => nd_presences (ti_node t) | None => scanned end in
  let seen := (λ p, (p, [])) <$> seen in
  match running_tunnel c with
  | None => seen
  | Some t =>
      let e := ipv4_endpoint (ntohl (Z.lor (Z.shiftl 127 24) 1))
                 (ntohs (if_listen_port (iface (active_config c)))) in
      <[Identity.node_id (ctx_identity c) :=
          (mkPresence (Identity.node_id (ctx_identity c)) (Identity.network_id (ctx_identity c))
             (creator_id (ti_config t)) no_endpoint e 0, ti_name t)]> seen
  end.

Definition net_line (n : NetworkId * NetInfo) : list byte :=
  columns [(20%nat, match net_name (snd n) with [] => lit "Aegis Mesh" | s => c_str s end);
           (34%nat, to_hex (take 16 (fst n))); (7%nat, to_string (node_count (snd n)));
           (22%nat, endpoint_to_string (bootstrap_ep (snd n)));
           (16%nat, to_hex (take 8 (creator_of_net (snd n))))].

Definition cmd_discover (scanned : gmap NodeId Presence) (c : CliContext) : list byte :=
  let presences := visible scanned c in
  (if bool_decide (is_Some (tunnel c)) then []
   else line (lit "Scanning local network for Aegis presences (2 seconds)...")) ++
  if bool_decide (presences = ∅) then
    line (lit "No Aegis network presences discovered on local LAN.") ++
    line (lit "Note: Discovery scans visible LAN presence only. An invite code (/connect <invite>) is required to join.")
  else
    let nets := networks_of presences in
    line [] ++
    line (lit "Discovered Aegis Networks on LAN (" ++ to_string (Z.of_nat (size nets)) ++ lit " total):") ++
    columns [(20%nat, lit "Network Name"); (34%nat, lit "NetworkID (prefix)"); (7%nat, lit "Nodes");
             (22%nat, lit "Reachable Endpoint"); (16%nat, lit "Creator (prefix)")] ++
    rule 118 ++ concat (map net_line (entries nets)) ++ line [] ++
    line (lit "Note: Discovery displays visible networks only. An invite code (/connect <invite>) is required to join.") ++
    line [].

(** ** What the reports say *)

Definition nodes_in (net : NetworkId) (ps : list (NodeId * (Presence * list byte))) : nat :=
  length (filter (λ p, pr_network_id (fst (snd p)) = net) ps).

Definition counted (nets : gmap NetworkId NetInfo) (net : NetworkId) : Z :=
  match nets !! net with Some ni => node_count ni | None => 0 end.

Lemma counted_presence p nets net :
  counted (count_presence p nets) net =
  counted nets net + (if decide (pr_network_id (fst p) = net) then 1 else 0).
Proof.
  unfold counted, count_presence. case_decide as Hn.
  - subst net. rewrite lookup_insert_eq. cbn [node_count].
    by destruct (nets !! pr_network_id (fst p)).
  - rewrite lookup_insert_ne by done. lia.
Qed.

(** [/discover] lists every network with the number of its visible nodes. *)
Lemma networks_counted presences net :
  counted (networks_of presences) net = Z.of_nat (nodes_in net (entries presences)).
Proof.
  unfold networks_of, nodes_in. generalize (entries presences) as ps.
  assert (forall (ps : list (NodeId * (Presence * list byte))) nets, counted (foldl (λ nets p, count_presence (snd p) nets) nets ps) net =
    counted nets net + Z.of_nat (length (filter (λ p, pr_network_id (fst (snd p)) = net) ps)))
    as Hgen.
  { induction ps as [|p ps IH]; intros nets; cbn [foldl].
    - cbn. lia.
    - rewrite IH, counted_presence, filter_cons. destruct (decide _); cbn [length]; lia. }
  intros ps. rewrite Hgen. unfold counted. rewrite lookup_empty. lia.
Qed.

(** Identities and tunnels that differ at most in private keys. *)
Definition same_public (id id' : Identity) : Prop :=
  Identity.node_id id = Identity.node_id id' /\ Identity.network_id id = Identity.network_id id' /\
  Identity.public_key (keypair id) = Identity.public_key (keypair id').

Definition same_tunnel (t t' : TunnelInstance) : Prop :=
  ti_name t = ti_name t' /\ ti_stun t = ti_stun t' /\ ti_node t = ti_node t' /\
  creator_id (ti_config t) = creator_id (ti_config t') /\
  overlay_mtu (ti_config t) = overlay_mtu (ti_config t').

Definition same_but_keys (c c' : CliContext) : Prop :=
  state c = state c' /\ active_config c = active_config c' /\
  same_public (ctx_identity c) (ctx_identity c') /\
  option_relation same_tunnel (λ _, False) (λ _, False) (tunnel c) (tunnel c').

#[export] Instance same_but_keys_equiv : Equivalence same_but_keys.
Proof.
  split.
  - intros c. unfold same_but_keys, same_public. split_and!; try done. by destruct (tunnel c).
  - intros c c' (Es & Ea & (E1 & E2 & E3) & Ht). unfold same_but_keys, same_public.
    split_and!; try done. destruct (tunnel c), (tunnel c'); try done.
    destruct Ht as (? & ? & ? & ? & ?). by split_and!.
  - intros c1 c2 c3 (Es & Ea & (E1 & E2 & E3) & Ht) (Fs & Fa & (F1 & F2 & F3) & Hu).
    unfold same_but_keys, same_public. split_and!; try congruence.
    destruct (tunnel c1), (tunnel c2), (tunnel c3); try done.
    destruct Ht as (? & ? & ? & ? & ?), Hu as (? & ? & ? & ? & ?). split_and!; congruence.
Qed.

Lemma same_running c c' :
  same_but_keys c c' ->
  option_relation same_tunnel (λ _, False) (λ _, False) (running_tunnel c) (running_tunnel c').
Proof. intros (Hs & _ & _ & Ht). unfold running_tunnel. rewrite Hs. by destruct (state c'). Qed.

(** The text of a reporting command: its name, its words, the clock, the result of a scan. *)
Definition report (name : list byte) (words : list (list byte)) (now : Z) (verbose : bool)
    (scanned : gmap NodeId Presence) (c : CliContext) : list byte :=
  if bool_decide (name = lit "help") then cmd_help
  else if bool_decide (name ∈ [lit "discover"; lit "scan"]) then cmd_discover scanned c
  else if bool_decide (name = lit "peers") then cmd_peers now c
  else if bool_decide (name = lit "status") then cmd_status c
  else if bool_decide (name = lit "identity") then cmd_identity words c
  else if bool_decide (name = lit "verbose") then fst (cmd_verbose words verbose)
  else [].

Lemma report_same name words now verbose scanned c c' :
  same_but_keys c c' -> (name = lit "identity" -> head words <> Some (lit "--reveal")) ->
  report name words now verbose scanned c = report name words now verbose scanned c'.
Proof.
  intros Hc Hreveal. pose proof (same_running c c' Hc) as Hr.
  destruct Hc as (Hs & Ha & (Hn & Hw & Hp) & Ht). unfold report.
  assert (cmd_discover scanned c = cmd_discover scanned c') as ->.
  { unfold cmd_discover.
    assert (visible scanned c = visible scanned c') as ->.
    { unfold visible. rewrite Hn, Hw, Ha.
      assert (match tunnel c with Some t => nd_presences (ti_node t) | None => scanned end =
        match tunnel c' with Some t => nd_presences (ti_node t) | None => scanned end) as ->.
      { destruct (tunnel c), (tunnel c'); try done. by destruct Ht as (_ & _ & -> & _). }
      destruct (running_tunnel c), (running_tunnel c'); try done.
      by destruct Hr as (-> & _ & _ & -> & _). }
    by destruct (tunnel c), (tunnel c'). }
  assert (cmd_peers now c = cmd_peers now c') as ->.
  { unfold cmd_peers. destruct (running_tunnel c), (running_tunnel c'); try done.
    by destruct Hr as (-> & _ & -> & _). }
  assert (cmd_status c = cmd_status c') as ->.
  { unfold cmd_status. rewrite Hs, Hn, Hw, Ha.
    destruct (running_tunnel c), (running_tunnel c'); try done.
    by destruct Hr as (-> & _ & -> & _ & ->). }
  repeat case_bool_decide; try done.
  unfold cmd_identity. rewrite Hn, Hw, Hp. rewrite bool_decide_false by auto. done.
Qed.

Lemma invite_same c c' : same_but_keys c c' -> cmd_invite c = cmd_invite c'.
Proof.
  intros Hc. pose proof (same_running c c' Hc) as Hr.
  destruct Hc as (Hs & Ha & (Hn & Hw & Hp) & Ht). unfold cmd_invite, invite_payload.
  rewrite Ha, Hw, Hp. destruct (running_tunnel c), (running_tunnel c'); try done.
  by destruct Hr as (-> & -> & _ & -> & _).
Qed.

End report.

(** C23: No text the command line produces depends on the node's private keys: for two contexts
    that differ only in private keys, every reporting command prints the same - [/identity] too,
    unless it is given [--reveal] -, [/invite] prints the same invite and [/config export] the
    same configuration. *)
Theorem reports_hide_private_key `{OpenSSL, RandomSource, NoiseC, Machine}
    name words now verbose scanned c c' env rest input :
  same_but_keys c c' -> (name = lit "identity" -> head words <> Some (lit "--reveal")) ->
  report name words now verbose scanned c = report name words now verbose scanned c' /\
  cmd_invite c = cmd_invite c' /\
  (snd <$> cmd_config env (lit "export" :: rest) c input) =
  (snd <$> cmd_config env (lit "export" :: rest) c' input).
Proof.
  intros Hc Hreveal. split; [by apply report_same|]. split; [by apply invite_same|].
  destruct Hc as (_ & Ha & (_ & Hw & _) & _). unfold cmd_config.
  rewrite bool_decide_true by done. cbn. by rewrite Ha, Hw.
Qed.

(** ** Witnesses *)

#[local] Existing Instances toy_openssl toy_random toy_noise toy_machine.

Definition idle_context (secret : byte) : CliContext :=
  mkContext NoNetwork (mkIdentity no_keypair (mkKeyPair (replicate 32 x05) (replicate 32 secret))
    zero_signature (replicate 32 x06) (replicate 32 x07) zero32) default_app None false.

Lemma reports_hide_private_key_witness :
  cmd_identity [] (idle_context x01) = cmd_identity [] (idle_context x02) /\
  cmd_identity [lit "--reveal"] (idle_context x01) <> cmd_identity [lit "--reveal"] (idle_context x02).
Proof.
  split; [|vm_compute; discriminate].
  exact (proj1 (reports_hide_private_key (lit "identity") [] 0 false ∅ (idle_context x01)
    (idle_context x02) (mkCliEnv true true true [] [] None 0 None no_keypair None 0) [] []
    ltac:(by split_and!) ltac:(done))).
Defined.
