(* ===== verification/SelfTest.v ===== *)
(** * Self tests and modes of the program ([src/main.cpp])

    The program carries tests of its own components, one per command line mode: routing, AEAD,
    X25519, identities, sessions and the peer table.  Each is a definition here, with the exit
    code as its value (0 when every step passed, 1 at the first that fails), over the models of
    the components it exercises; [self_tests_pass] runs them.  [main] selects a mode, and
    [listen] is the only mode in which two threads share an adapter. *)

From Stdlib Require Import String.
From stdpp Require Import base numbers list option gmap.
From Stdlib Require Import ZArith Lia Bool Btauto.
From Stdlib.Strings Require Import Byte.
From S2P Require Import Prelude Words Poly1305 ChaCha Crypto Identity Packet HandshakeV2 NoiseIk Session IpAddress Endpoint Text Adapter Routing Peer Cli.

Set Default Goal Selector "!".
#[local] Open Scope Z_scope.

(** ** Routing *)

Definition rt_ip (a b c d : Z) : IPAddress :=
  from_ipv4 (Z.lor (Z.lor (Z.lor (Z.shiftl a 24) (Z.shiftl b 16)) (Z.shiftl c 8)) d).

Definition rt_id (tag : Z) : NodeId := b8 tag :: zeros 31.

(** The default values of [Route]. *)
Definition rt_route (p : IPAddress) (plen : Z) (t : NextHopType) (hop dest : NodeId)
    (hops : list NodeId) : Route :=
  mkRoute p plen t hop dest hops zero32 zero32 1 90 0 0 None None None false 0 None.

Definition rt_direct (p : IPAddress) (plen : Z) (peer : NodeId) : Route :=
  rt_route p plen Direct peer peer [peer].

Definition rt_relay (p : IPAddress) (plen : Z) (hop dest : NodeId) : Route :=
  rt_route p plen Relay hop dest [hop; dest].

Definition empty_engine : RoutingEngine := mkEngine [] ROUTING_MAX_ROUTES.

(** [add_route] where the result is ignored. *)
Definition adding (r : Route) (e : RoutingEngine) : RoutingEngine := snd (add_route r e).

Definition run_routing_test : Z :=
  let p1 := rt_id 1 in
  let p2 := rt_id 2 in
  let d := rt_id 9 in
  let re := adding (rt_direct (rt_ip 10 10 0 2) 32 p2)
              (adding (rt_direct (rt_ip 10 10 0 0) 24 p1) empty_engine) in
  if negb (bool_decide (find_peer (rt_ip 10 10 0 2) re = Some p2)) then 1 else
  if negb (bool_decide (find_peer (rt_ip 10 10 0 99) re = Some p1)) then 1 else
  if bool_decide (is_Some (find_peer (rt_ip 10 20 0 1) re)) then 1 else
  let A := rt_id 10 in
  let mesh := adding (rt_relay (rt_ip 10 60 0 0) 24 A d)
                (adding (rt_direct (rt_ip 10 0 0 10) 32 A) empty_engine) in
  if negb (bool_decide (find_peer (rt_ip 10 60 0 5) mesh = Some d)) ||
     negb (bool_decide (find_next_hop (rt_ip 10 60 0 5) mesh = Some A)) then 1 else
  let looping := rt_route (rt_ip 10 50 0 1) 32 Relay A d [A; d; A] in
  if bool_decide (is_Some (find_peer (rt_ip 10 50 0 1) (adding looping empty_engine))) then 1 else
  let X := rt_id 30 in
  if fst (add_route (rt_relay (rt_ip 10 80 0 1) 32 X X) empty_engine) then 1 else
  let re := adding (rt_direct (rt_ip 10 10 0 2) 32 p2) re in
  if negb (Nat.eqb (length (routes re)) 2) then 1 else
  let w := adding (rt_relay (rt_ip 10 30 0 0) 24 p2 d)
             (adding (rt_direct (rt_ip 10 20 0 1) 32 p2) empty_engine) in
  if negb (Nat.eqb (length (routes (remove_route p2 w))) 0) then 1 else 0.

Lemma routing_test_passes : run_routing_test = 0.
Proof. vm_compute. reflexivity. Qed.

(** ** AEAD *)

Definition RFC8439_KEY : list byte := map (λ i, b8 (128 + Z.of_nat i)) (seq 0 32).
Definition RFC8439_NONCE : list byte := map b8 [7; 0; 0; 0; 64; 65; 66; 67; 68; 69; 70; 71].
Definition RFC8439_AAD : list byte :=
  map b8 [80; 81; 82; 83; 192; 193; 194; 195; 196; 197; 198; 199].
Definition RFC8439_CT : list byte := map b8
  [211; 26; 141; 52; 100; 142; 96; 219; 123; 134; 175; 188; 83; 239; 126; 194; 164; 173; 237;
   81; 41; 110; 8; 254; 169; 226; 181; 167; 54; 238; 98; 214; 61; 190; 164; 94; 140; 169; 103;
   18; 130; 250; 251; 105; 218; 146; 114; 139; 26; 113; 222; 10; 158; 6; 11; 41; 5; 214; 165;
   182; 126; 205; 59; 54; 146; 221; 189; 127; 45; 119; 139; 140; 152; 3; 174; 227; 40; 9; 27;
   88; 250; 179; 36; 228; 250; 214; 117; 148; 85; 133; 128; 139; 72; 49; 215; 188; 63; 244;
   222; 240; 142; 75; 122; 157; 229; 118; 210; 101; 134; 206; 198; 75; 97; 22].
Definition RFC8439_TAG : list byte := map b8
  [26; 225; 11; 89; 79; 9; 226; 106; 126; 144; 46; 203; 208; 96; 6; 145].
Definition RFC8439_PT : list byte := map b8
  [76; 97; 100; 105; 101; 115; 32; 97; 110; 100; 32; 71; 101; 110; 116; 108; 101; 109; 101;
   110; 32; 111; 102; 32; 116; 104; 101; 32; 99; 108; 97; 115; 115; 32; 111; 102; 32; 39; 57;
   57; 58; 32; 73; 102; 32; 73; 32; 99; 111; 117; 108; 100; 32; 111; 102; 102; 101; 114; 32;
   121; 111; 117; 32; 111; 110; 108; 121; 32; 111; 110; 101; 32; 116; 105; 112; 32; 102; 111;
   114; 32; 116; 104; 101; 32; 102; 117; 116; 117; 114; 101; 44; 32; 115; 117; 110; 115; 99;
   114; 101; 101; 110; 32; 119; 111; 117; 108; 100; 32; 98; 101; 32; 105; 116; 46].

(** The bytes of the literal [hello-aead-0123456789]. *)
Definition AEAD_PLAINTEXT : list byte := map b8
  [104; 101; 108; 108; 111; 45; 97; 101; 97; 100; 45; 48; 49; 50; 51; 52; 53; 54; 55; 56; 57].

(** [buffer[i] ^= mask]. *)
Definition flip_at (i : nat) (mask : Z) (bs : list byte) : list byte :=
  alter (λ b, b8 (Z.lxor (bval b) mask)) i bs.

(** The test over an encryption and a decryption routine. *)
Definition aead_test
    (encrypt : list byte -> list byte -> list byte -> list byte -> option (list byte * list byte))
    (decrypt : list byte -> list byte -> list byte -> list byte -> list byte -> option (list byte))
    : Z :=
  match encrypt RFC8439_KEY RFC8439_NONCE RFC8439_PT RFC8439_AAD with
  | None => 1
  | Some (rfc_ct, rfc_tag) =>
  if negb (bool_decide (rfc_ct = RFC8439_CT)) then 1 else
  if negb (bool_decide (rfc_tag = RFC8439_TAG)) then 1 else
  match decrypt RFC8439_KEY RFC8439_NONCE rfc_ct rfc_tag RFC8439_AAD with
  | None => 1
  | Some rfc_pt =>
  if negb (bool_decide (rfc_pt = RFC8439_PT)) then 1 else
  let key := map (λ i, b8 (Z.of_nat i)) (seq 0 32) in
  let nonce := map (λ i, b8 (Z.lor 128 (Z.of_nat i))) (seq 0 12) in
  match encrypt key nonce AEAD_PLAINTEXT [] with
  | None => 1
  | Some (ct, tag) =>
  match decrypt key nonce ct tag [] with
  | None => 1
  | Some pt2 =>
  if negb (bool_decide (pt2 = AEAD_PLAINTEXT)) then 1 else
  let rejected key nonce ct tag :=
    negb (bool_decide (is_Some (decrypt key nonce ct tag []))) in
  if negb (rejected key nonce ct (flip_at 5 1 tag)) then 1 else
  if negb (rejected key nonce (flip_at 3 1 ct) tag) then 1 else
  if negb (rejected (b8 66 :: zeros 31) nonce ct tag) then 1 else
  if negb (rejected key (b8 66 :: zeros 11) ct tag) then 1 else 0
  end end end end.

Definition run_aead_test `{OpenSSL} : Z :=
  aead_test chacha20_poly1305_encrypt chacha20_poly1305_decrypt.

(** Opening as RFC 8439 has it: the tag is recomputed, then the key stream removed. *)
Definition rfc_aead_decrypt (key nonce ad ct tag : list byte) : option (list byte) :=
  if bool_decide (tag = rfc_aead_tag key nonce ad ct) then Some (rfc_chacha20 key 1 nonce ct)
  else None.

(** An OpenSSL whose ChaCha20-Poly1305 is that of the RFC. *)
Class RfcAead `{OpenSSL} := {
  seal_is_rfc k n p a :
    evp_chacha_seal k n p a =
    Some (rfc_chacha20 k 1 n p, rfc_aead_tag k n a (rfc_chacha20 k 1 n p));
  open_is_rfc k n c t a : evp_chacha_open k n c t a = rfc_aead_decrypt k n a c t;
}.

#[local] Instance rfc_openssl : OpenSSL := {|
  evp_blake2b512 := @evp_blake2b512 toy_openssl;
  evp_sha256 := @evp_sha256 toy_openssl;
  evp_blake2s256 := @evp_blake2s256 toy_openssl;
  evp_x25519 := @evp_x25519 toy_openssl;
  evp_chacha_seal k n p a :=
    Some (rfc_chacha20 k 1 n p, rfc_aead_tag k n a (rfc_chacha20 k 1 n p));
  evp_chacha_open k n c t a := rfc_aead_decrypt k n a c t;
  evp_ed25519_public := @evp_ed25519_public toy_openssl;
  evp_ed25519_sign := @evp_ed25519_sign toy_openssl;
  evp_ed25519_verify := @evp_ed25519_verify toy_openssl;
|}.
#[local] Instance rfc_openssl_aead : RfcAead.
Proof. by split. Qed.

Lemma aead_test_rfc : @run_aead_test rfc_openssl = 0.
Proof. vm_compute. reflexivity. Qed.

(** The test sees the two routines only. *)
Lemma aead_test_ext encrypt encrypt' decrypt decrypt' :
  (forall k n p a, encrypt k n p a = encrypt' k n p a) ->
  (forall k n c t a, decrypt k n c t a = decrypt' k n c t a) ->
  aead_test encrypt decrypt = aead_test encrypt' decrypt'.
Proof.
  intros He Hd. unfold aead_test. rewrite !He.
  destruct (encrypt' RFC8439_KEY _ _ _) as [[ct tag]|]; [|done].
  destruct (negb (bool_decide (ct = _))); [done|]. destruct (negb (bool_decide (tag = _))); [done|].
  rewrite Hd. destruct (decrypt' RFC8439_KEY _ _ _ _) as [pt|]; [|done].
  destruct (negb (bool_decide (pt = _))); [done|].
  destruct (encrypt' _ _ AEAD_PLAINTEXT _) as [[ct' tag']|]; [|done].
  rewrite Hd. destruct (decrypt' _ _ ct' tag' _) as [pt'|]; [|done].
  destruct (negb (bool_decide (pt' = _))); [done|]. by rewrite !Hd.
Qed.

Lemma aead_test_passes `{RfcAead} : run_aead_test = 0.
Proof.
  rewrite <- aead_test_rfc. apply aead_test_ext; intros.
  - apply seal_is_rfc.
  - apply open_is_rfc.
Qed.

(** ** X25519 *)

(** [alice] and [bob] are the results of [x25519_generate_keypair]. *)
Definition run_crypto_test `{OpenSSL} (alice bob : KeyPair) : Z :=
  if all_zero (Identity.private_key alice) || all_zero (Identity.public_key alice) then 1 else
  if all_zero (Identity.private_key bob) || all_zero (Identity.public_key bob) then 1 else
  match x25519_derive_shared_secret (Identity.private_key alice) (Identity.public_key bob) with
  | None => 1
  | Some s_alice =>
  match x25519_derive_shared_secret (Identity.private_key bob) (Identity.public_key alice) with
  | None => 1
  | Some s_bob => if negb (bool_decide (s_alice = s_bob)) then 1 else 0
  end end.

Lemma crypto_test_passes `{DhLaws} alice bob secret :
  all_zero (Identity.private_key alice) = false -> all_zero (Identity.public_key alice) = false ->
  all_zero (Identity.private_key bob) = false -> all_zero (Identity.public_key bob) = false ->
  Identity.public_key alice = x25519_base (Identity.private_key alice) ->
  Identity.public_key bob = x25519_base (Identity.private_key bob) ->
  evp_x25519 (Identity.private_key alice) (Identity.public_key bob) = Some secret ->
  length secret = KEY_SIZE -> run_crypto_test alice bob = 0.
Proof.
  intros Ha1 Ha2 Hb1 Hb2 Ha Hb Hs Hl. unfold run_crypto_test, x25519_derive_shared_secret.
  rewrite Ha1, Ha2, Hb1, Hb2. cbn [orb].
  assert (evp_x25519 (Identity.private_key bob) (Identity.public_key alice) = Some secret) as ->.
  { by rewrite Ha, x25519_agree, <- Hb. }
  rewrite Hs, Hl. cbn. by rewrite bool_decide_true.
Qed.

(** ** Identities *)

Definition test_network (tag : Z) : NetworkId := b8 tag :: zeros 31.

(** Key pairs as the two generators return them; [None] is the exception of
    [Identity::create]. *)
Definition run_identity_test `{OpenSSL} (ka kb kc : KeyPair * option KeyPair) : option Z :=
  let net_a := test_network 1 in
  let net_b := test_network 2 in
  alice ← Identity_create net_a (fst ka) (snd ka);
  bob ← Identity_create net_a (fst kb) (snd kb);
  charlie ← Identity_create net_b (fst kc) (snd kc);
  Some (
    if negb (matches_network alice (network_id bob)) then 1 else
    if negb (matches_network bob (network_id alice)) then 1 else
    if matches_network alice (network_id charlie) then 1 else
    if matches_network charlie (network_id alice) then 1 else
    let h1 := hash_public_key (Identity.public_key (keypair alice)) in
    let h2 := hash_public_key (Identity.public_key (keypair alice)) in
    if negb (bool_decide (h1 = h2)) then 1 else
    if negb (bool_decide (h1 = Identity.node_id alice)) then 1 else 0).

(** Whatever keys were generated, the test passes unless creation throws. *)
Lemma identity_test_passes `{OpenSSL} ka kb kc code :
  run_identity_test ka kb kc = Some code -> code = 0.
Proof.
  unfold run_identity_test. intros Hr.
  destruct (Identity_create _ (fst ka) _) as [alice|] eqn:Ea; [|done].
  destruct (Identity_create _ (fst kb) _) as [bob|] eqn:Eb; [|done].
  destruct (Identity_create _ (fst kc) _) as [charlie|] eqn:Ec; [|done].
  apply created_fields in Ea as (Ka & Na & Wa), Eb as (Kb & Nb & Wb), Ec as (Kc & Nc & Wc).
  cbn [mbind option_bind] in Hr. unfold matches_network in Hr.
  rewrite Ka, Na, Wa, Wb, Wc in Hr. rewrite !(bool_decide_true _ eq_refl) in Hr.
  by injection Hr as <-.
Qed.

(** ** Sessions *)

Section sessions.
Context `{OpenSSL, RandomSource, NoiseC}.

(** [SessionManager sm(identity)] with the default limits and padding. *)
Definition test_env (id : Identity) : SessionEnv :=
  mkEnv id default_limits SESSION_PADDING_BUCKET_SIZE.

(** The handshake both tests begin with: the managers of the two sides, and the size of the
    first message.  Every clock reading is [now]. *)
Definition test_handshake (alice bob : Identity) (session_id now : Z) (r : rng)
    : option (nat * SessionManager * SessionManager) * rng :=
  let clk := mkClocks now now now now now in
  match create_handshake_init (test_env alice) session_id (Identity.node_id bob)
          (Identity.public_key (keypair bob)) now manager_init r with
  | (None, _, r) => (None, r)
  | (Some init, sm_a, r) =>
      match handle_handshake_init (test_env bob) init session_id clk manager_init r with
      | (None, _, r) => (None, r)
      | (Some resp, sm_b, r) =>
          match handle_handshake_resp (test_env alice) (response_message resp) session_id
                  now now now sm_a with
          | (false, _) => (None, r)
          | (true, sm_a) => (Some (length init, sm_a, sm_b), r)
          end
      end
  end.

(** [0x45, 0x00, 0x00, 0x3c, 0xab, 0xcd]. *)
Definition test_plaintext : list byte := map b8 [69; 0; 0; 60; 171; 205].

Definition run_session_test (alice bob charlie : Identity) (now : Z) (r : rng) : Z :=
  match test_handshake alice bob 3735879681 now r with
  | (None, _) => 1
  | (Some (init_size, sm_a, sm_b), r) =>
  if negb (Nat.eqb init_size HANDSHAKE_V2_INIT_FRAME_SIZE) then 1 else
  match get_session sm_a (Identity.node_id bob), get_session sm_b (Identity.node_id alice) with
  | Some sess_a, Some sess_b =>
  if negb (snap_established sess_a) || negb (snap_established sess_b) then 1 else
  match encrypt_data (test_env alice) (Identity.node_id bob) test_plaintext sm_a r with
  | (None, _, _) => 1
  | (Some enc, sm_a, r) =>
  match decrypt_data enc sm_b with
  | None | Some (None, _) => 1
  | Some (Some dec, sm_b) =>
  if negb (bool_decide (dec = test_plaintext)) then 1 else
  match decrypt_data enc sm_b with
  | None | Some (Some _, _) => 1
  | Some (None, sm_b) =>
  let '(enc2, _, r) := encrypt_data (test_env alice) (Identity.node_id bob) test_plaintext sm_a r in
  let tamper :=
    match enc2 with
    | Some enc2 =>
        if Nat.ltb 30 (length enc2) then
          match decrypt_data (flip_at 28 255 enc2) sm_b with
          | Some (None, _) => false
          | _ => true
          end
        else false
    | None => false
    end in
  if tamper then 1 else
  match create_handshake_init (test_env charlie) 3735879682 (Identity.node_id alice)
          (Identity.public_key (keypair bob)) now manager_init r with
  | (Some _, _, _) => 1
  | (None, _, _) => 0
  end end end end
  | _, _ => 1
  end end.

(** ** The peer table *)

(** [later] is the clock after the sleep. *)
Definition run_peer_test (alice bob charlie : Identity) (now later : Z) (r : rng) : Z :=
  let key id := Identity.public_key (keypair id) in
  let a_id := Identity.node_id alice in
  let b_id := Identity.node_id bob in
  let c_id := Identity.node_id charlie in
  let ep_alice := from_parts 127 0 0 1 51820 in
  let ep_bob := from_parts 127 0 0 1 51821 in
  let pm := peers_init PEER_MANAGER_MAX_PEERS in
  let pm := snd (upsert a_id (key alice) (Some ep_alice) true now pm) in
  let pm := snd (upsert b_id (key bob) (Some ep_bob) false now pm) in
  let pm := snd (upsert c_id (key charlie) None false now pm) in
  if negb (Nat.eqb (size (peers pm)) 3) then 1 else
  if negb match get_peer a_id pm with
          | Some a => bool_decide (Peer.node_id a = a_id) && bool_decide (Peer.public_key a = key alice) &&
                      bool_decide (is_Some (Peer.endpoint a)) && trusted a
          | None => false
          end then 1 else
  if negb match get_peer c_id pm with
          | Some c => negb (bool_decide (is_Some (Peer.endpoint c)))
          | None => false
          end then 1 else
  let ep_new := from_parts 192 168 1 5 51820 in
  let pm := update_endpoint a_id ep_new now pm in
  if negb match get_peer a_id pm with
          | Some a => bool_decide (Peer.endpoint a = Some ep_new)
          | None => false
          end then 1 else
  let pm := mark_connecting b_id pm in
  if negb match get_peer b_id pm with
          | Some b => bool_decide (Peer.state b = Connecting) && (connect_attempts b =? 1)
          | None => false
          end then 1 else
  let pm := mark_seen b_id None now pm in
  if negb match get_peer b_id pm with
          | Some b => bool_decide (Peer.state b = Established)
          | None => false
          end then 1 else
  let session_id := 2684354561 in
  match test_handshake alice bob session_id now r with
  | (None, _) => 1
  | (Some (_, sm_a, sm_b), r) =>
  if negb match peer_session (Some sm_a) b_id pm with
          | Some sess => snap_established sess && (snap_id sess =? session_id)
          | None => false
          end then 1 else
  if bool_decide (is_Some (peer_session (Some sm_a) (b8 255 :: zeros 31) pm)) then 1 else
  let pm := set_keepalive_interval 1000 (set_dead_timeout 1000 pm) in
  if negb (Nat.eqb (length (stale_peers now pm)) 0) then 1 else
  if Nat.eqb (length (stale_peers later pm)) 0 then 1 else
  if Nat.eqb (length (peers_needing_keepalive later pm)) 0 then 1 else
  let pm := remove_peer c_id pm in
  if negb (Nat.eqb (size (peers pm)) 2) || has_peer c_id pm then 1 else 0
  end.
End sessions.

(** ** The tests on concrete components *)

#[local] Existing Instances toy_random toy_noise.

(** An identity of the network of the tests, over the key agreement of [toy_noise]. *)
Definition test_identity (seed : byte) : Identity :=
  default no_identity (Identity_create (test_network 1)
    (mkKeyPair (toy_public (replicate 32 seed)) (replicate 32 seed))
    (Some (mkKeyPair (toy_digest 32 (replicate 32 seed)) (replicate 32 seed)))).

(** The two key pairs a generator may return. *)
Definition test_keys (seed : byte) : KeyPair * option KeyPair :=
  (mkKeyPair (replicate 32 seed) (replicate 32 seed),
   Some (mkKeyPair (toy_digest 32 (replicate 32 seed)) (replicate 32 seed))).

Definition test_clock : Z := 5000000000.

Lemma session_test_passes :
  @run_session_test rfc_openssl toy_random toy_noise (test_identity x03) (test_identity x04)
    (test_identity x05) test_clock 11 = 0.
Proof. vm_compute. reflexivity. Qed.

Lemma peer_test_passes :
  @run_peer_test rfc_openssl toy_random toy_noise (test_identity x03) (test_identity x04)
    (test_identity x05) test_clock (test_clock + 1100 * 1000000) 11 = 0.
Proof. vm_compute. reflexivity. Qed.

(** ** Adapter names *)

(** The octets through [ipv4_value] and its shifts, or all bytes in hexadecimal; both fit the
    buffer of 64 characters. *)
Definition make_adapter_name (local : IPAddress) : list byte :=
  if bool_decide (family local = IPv4) then
    let ip := ipv4_value local in
    let octet n := to_string (Z.land (Z.shiftr ip n) 255) in
    lit "Aegis " ++ octet 24 ++ [DOT] ++ octet 16 ++ [DOT] ++ octet 8 ++ [DOT] ++ octet 0
  else lit "Aegis IPv6 " ++ to_hex (ip_bytes local).

Lemma ipv4_octets a : family a = IPv4 ->
  ipv4_value a = ip_at a 3 + 256 * (ip_at a 2 + 256 * (ip_at a 1 + 256 * ip_at a 0)).
Proof.
  intros Hf. unfold ipv4_value. rewrite Hf.
  assert (forall j, 0 <= ip_at a j < 256) as Hr by (intros j; unfold ip_at; apply bval_range).
  pose proof (Hr 0%nat). pose proof (Hr 1%nat). pose proof (Hr 2%nat). pose proof (Hr 3%nat).
  assert (Z.lor (Z.lor (Z.lor (Z.shiftl (ip_at a 0) 24) (Z.shiftl (ip_at a 1) 16))
      (Z.shiftl (ip_at a 2) 8)) (ip_at a 3) =
    Z.lor (ip_at a 3) (Z.shiftl (Z.lor (ip_at a 2) (Z.shiftl (Z.lor (ip_at a 1)
      (Z.shiftl (ip_at a 0) 8)) 8)) 8)) as ->.
  { rewrite !Z.shiftl_lor, !Z.shiftl_shiftl by lia. apply Z.bits_inj'. intros n Hn.
    rewrite !Z.lor_spec. change (8 + (8 + 8)) with 24. change (8 + 8) with 16. btauto. }
  rewrite !(lor_disjoint _ _ 8) by lia. done.
Qed.

Lemma ipv4_octet a i : family a = IPv4 -> (i < 4)%nat ->
  Z.land (Z.shiftr (ipv4_value a) (24 - 8 * Z.of_nat i)) 255 = ip_at a i.
Proof.
  intros Hf Hi. rewrite (ipv4_octets a Hf).
  assert (forall j, 0 <= ip_at a j < 256) as Hr by (intros j; unfold ip_at; apply bval_range).
  pose proof (Hr 0%nat). pose proof (Hr 1%nat). pose proof (Hr 2%nat). pose proof (Hr 3%nat).
  change 255 with (Z.ones 8). rewrite Z.land_ones, Z.shiftr_div_pow2 by lia.
  destruct i as [|[|[|[|i]]]]; [..|lia]; cbn -[Z.mul Z.div Z.modulo Z.add];
    Z.to_euclidean_division_equations; lia.
Qed.

(** Nodes on different addresses of one host ask for different adapters. *)
Lemma adapter_names_differ a b :
  host_address a -> host_address b -> family a = family b ->
  make_adapter_name a = make_adapter_name b -> a = b.
Proof.
  intros Ha Hb Hf. unfold make_adapter_name. rewrite <- Hf. case_bool_decide as H4.
  - pose proof (ipv4_octet a 0) as A0. pose proof (ipv4_octet a 1) as A1.
    pose proof (ipv4_octet a 2) as A2. pose proof (ipv4_octet a 3) as A3.
    pose proof (ipv4_octet b 0) as B0. pose proof (ipv4_octet b 1) as B1.
    pose proof (ipv4_octet b 2) as B2. pose proof (ipv4_octet b 3) as B3.
    cbn [Z.of_nat Z.mul Z.sub Z.add] in *.
    assert (family b = IPv4) as Hb4 by congruence. intros E.
    destruct (address_text_spec a Ha) as (ta & Pa & Ta), (address_text_spec b Hb) as (tb & Pb & Tb).
    rewrite bool_decide_true in Ta, Tb by done. destruct Ta as [Ta _], Tb as [Tb _].
    unfold address_text in Ta, Tb. rewrite bool_decide_true in Ta, Tb by done.
    apply app_inv_head in E.
    change 24 with (24 - 8 * Z.of_nat 0) in E.
    assert (ta = tb) as ->; [|congruence].
    rewrite <- Ta, <- Tb, <- A0, <- A1, <- A2, <- A3, <- B0, <- B1, <- B2, <- B3 by (done || lia).
    exact E.
  - intros E. apply app_inv_head in E. destruct a as [fa ba], b as [fb bb]. cbn in *. f_equal; [done|].
    apply (f_equal parse_hex_bytes) in E. rewrite !parse_hex_to_hex in E. by injection E.
Qed.

(** ** The modes of the program *)

Inductive Mode :=
  | Repl | InviteMode | Listen | PingTest | TransportTest | CryptoTest | AeadTest | SessionTest
  | IdentityTest | PeerTest | RoutingTest | Inject (data : list byte) | TunnelTest | GossipTest
  | SegmentationTest | LifecycleTest | ConfigMode (path : list byte) | TunnelMode.

(** The mode of the arguments after the program's name; [None] prints the usage or an error. *)
Definition parse_mode (args : list (list byte)) : option Mode :=
  match args with
  | [] => Some Repl
  | flag :: rest =>
      if bool_decide (flag = lit "--invite") then Some InviteMode
      else if bool_decide (flag = lit "--listen") then Some Listen
      else if bool_decide (flag = lit "--ping-test") then Some PingTest
      else if bool_decide (flag = lit "--transport-test") then Some TransportTest
      else if bool_decide (flag = lit "--crypto-test") then Some CryptoTest
      else if bool_decide (flag = lit "--aead-test") then Some AeadTest
      else if bool_decide (flag = lit "--session-test") then Some SessionTest
      else if bool_decide (flag = lit "--identity-test") then Some IdentityTest
      else if bool_decide (flag = lit "--peer-test") then Some PeerTest
      else if bool_decide (flag = lit "--routing-test") then Some RoutingTest
      else if bool_decide (flag = lit "--inject") && bool_decide (rest <> []) then
        Inject <$> Cli.parse_hex (hd [] rest)
      else if bool_decide (flag = lit "--tunnel-test") then Some TunnelTest
      else if bool_decide (flag = lit "--gossip-test") then Some GossipTest
      else if bool_decide (flag = lit "--segmentation-test") then Some SegmentationTest
      else if bool_decide (flag = lit "--lifecycle-test") then Some LifecycleTest
      else if bool_decide (flag = lit "--config") then ConfigMode <$> head rest
      else if bool_decide (flag = lit "--tunnel") then Some TunnelMode
      else None
  end.

(** What a mode needs before it runs. *)
Inductive Privilege := NoPrivilege | Admin | AdminOrElevate | AdminAndAdapter.

Definition privilege (m : Mode) : Privilege :=
  match m with
  | Listen | PingTest | Inject _ => AdminAndAdapter
  | TunnelTest | GossipTest | SegmentationTest | LifecycleTest => Admin
  | ConfigMode _ | TunnelMode => AdminOrElevate
  | _ => NoPrivilege
  end.

(** [platform_init_winsock], [platform_is_admin], [platform_elevate], [adapter.create()] and the
    exit codes of the modes. *)
Record Platform := mkPlatform {
  winsock_starts : bool; is_admin : bool; elevates : bool; adapter_creates : bool;
  mode_exit : Mode -> Z }.

Inductive MainEvent := WSAStartup | RunMode (m : Mode) | WSACleanup | Relaunch.

(** The tests without sockets return past the cleanup. *)
Definition skips_cleanup (m : Mode) : bool :=
  match m with CryptoTest | AeadTest | IdentityTest => true | _ => false end.

Definition main (p : Platform) (args : list (list byte)) : list MainEvent * Z :=
  if negb (winsock_starts p) then ([], 1) else
  match parse_mode args with
  | None => ([WSAStartup; WSACleanup], 1)
  | Some m =>
      let run := if skips_cleanup m then ([WSAStartup; RunMode m], mode_exit p m)
                 else ([WSAStartup; RunMode m; WSACleanup], mode_exit p m) in
      match privilege m with
      | NoPrivilege => run
      | Admin => if is_admin p then run else ([WSAStartup; WSACleanup], 1)
      | AdminOrElevate =>
          if is_admin p then run
          else if elevates p then ([WSAStartup; Relaunch], 0) else ([WSAStartup; WSACleanup], 1)
      | AdminAndAdapter =>
          if is_admin p && adapter_creates p then run else ([WSAStartup; WSACleanup], 1)
      end
  end.

(** A mode runs at most once and only with the privileges it needs; Winsock, once started, is
    cleaned up on every path but the three tests and the relaunch. *)
Lemma main_runs p args m :
  RunMode m ∈ fst (main p args) ->
  parse_mode args = Some m /\ snd (main p args) = mode_exit p m /\
  (privilege m <> NoPrivilege -> is_admin p = true) /\
  (WSACleanup ∈ fst (main p args) <-> skips_cleanup m = false).
Proof.
  rewrite !list_elem_of_In. unfold main. intros Hin.
  destruct (winsock_starts p); [|done]. cbn [negb] in *.
  destruct (parse_mode args) as [m'|]; [|by cbn in Hin; intuition discriminate].
  assert (m = m') as ->.
  { destruct (skips_cleanup m'), (privilege m'), (is_admin p), (elevates p), (adapter_creates p);
      cbn in Hin; intuition congruence. }
  destruct (skips_cleanup m'), (privilege m'), (is_admin p), (elevates p), (adapter_creates p);
    cbn in *; try (by intuition discriminate); intuition discriminate.
Qed.

(** ** Two threads on one adapter *)

(** [listen] sets the flag, closes the adapter and only then joins the thread that reads.  The
    calls of a read and of the close, as the driver may see them when they overlap. *)
Inductive interleaved {A} : list A -> list A -> list A -> Prop :=
  | il_nil : interleaved [] [] []
  | il_left x xs ys zs : interleaved xs ys zs -> interleaved (x :: xs) ys (x :: zs)
  | il_right y xs ys zs : interleaved xs ys zs -> interleaved xs (y :: ys) (y :: zs).

(** The driver calls of an operation on an object, earliest first. *)
Definition calls_of `{Windows} {A} (op : act A) (o : Adapter) (h : windows) : list Event :=
  rev (trace (snd (op (mkWorld o h [])))).

#[local] Existing Instance toy_windows.

(** The adapter of [listen] after [create], and its driver. *)
Definition listen_adapter : World :=
  snd (adapter_create_ipv4 (ntohl 168427521) 24 (lit "Aegis Tunnel") 1500
         (mkWorld new_adapter (mkToyWindows [] true) [])).

Definition read_calls : list Event :=
  calls_of (Adapter.read_packet 5000) (obj listen_adapter) (host listen_adapter).
Definition close_calls : list Event :=
  calls_of adapter_close (obj listen_adapter) (host listen_adapter).

(** Reading to the end before the close is within the contract of the driver; but some
    interleaving waits on the session after it was ended and the library unloaded. *)
Example listen_close_races_with_reader :
  is_Some (driver_after (rev (read_calls ++ close_calls) ++ trace listen_adapter)) /\
  exists calls, interleaved read_calls close_calls calls /\
    driver_after (rev calls ++ trace listen_adapter) = None.
Proof.
  split; [vm_compute; by eexists|].
  exists (take 1 read_calls ++ close_calls ++ drop 1 read_calls). split.
  - vm_compute. repeat constructor.
  - vm_compute. reflexivity.
Qed.


